(* ===== verification/_CoqProject ===== *)
-Q . S2P
Prelude.v
Gf256.v
Field.v
Interpolation.v
Sss.v
Plan.v
Policy.v
Session.v
Release.v
Crypto.v
ToyCrypto.v
Wire.v
Cbor.v
Envelope.v
Observation.v
Engine.v
Recovery.v
Unlock.v
Enroll.v
Report.v
Demo.v
Tpm.v
TpmDiscipline.v
TpmDevice.v
TpmSeal.v
TpmDemo.v
Float64.v
Text.v
Telemetry.v
Collector.v
Reconcile.v
ServiceMetrics.v
Service.v
Listener.v
Worker.v
Frontend.v
Net.v
Stack.v
StackDemo.v
KeyFile.v
KeyFileDemo.v
EventDaemon.v
FileLogic.v
CliMain.v
Providers.v
EventLog.v
SnapshotReader.v
SnapshotSchema.v
SnapshotServe.v
Daemon.v
DaemonDemo.v
SnapshotDemo.v
Probe.v
ProbeConfig.v
ProbeRun.v
ProbeDemo.v
Luks.v
Fuzz.v
LuksRun.v
LuksDemo.v
FuzzDemo.v
CliOperation.v
Journal.v
Commands.v
EndToEnd.v
CommandsDemo.v
