(* ===== verification/Prelude.v ===== *)
(** * Leelo: a verification development

    Leelo unlocks LUKS2 volumes with a local TPM and a threshold of network evaluators. This library
    models the repository crate by crate, from field arithmetic to the processes that run, as executable
    Rocq definitions, and proves the properties that make it correct. Paths below are under
    [src/crates/], except for [src/fuzz/].

    ** How the program is put together

    An enrollment ([leelo-engine/src/lib.rs], [prepare]) draws a credential and a root secret, splits
    the root in two (one share for the TPM, one for the network), shares the network half over a
    policy tree of threshold gates ([leelo-policy]) with Shamir sharing over GF(256) ([leelo-sss]),
    wraps every leaf under a key derived from a verifiable oblivious pseudorandom function
    ([leelo-crypto]) and signs the result as a deterministic CBOR envelope ([leelo-envelope]). An
    unlock authenticates the envelope, recovers the network half from concurrent provider operations
    ([leelo-engine/src/lib.rs], [recover_network_observed]), unseals the TPM half, reconstructs the
    root, opens the payload and passes two independent release gates: the policy session
    ([leelo-policy/src/lib.rs], [PolicySession]) and the verified gate
    ([leelo-engine/src/release.rs]). Every operation fills a report
    ([leelo-engine/src/observation.rs]).

    The command line ([leelo-cli]) puts this to work on a LUKS2 volume ([leelo-luks]): to enroll, it
    prepares an envelope, tests its recovery, makes the pending bundle and a journal durable, and only
    then adds a keyslot and a token; to unlock, it reads the token and recovers its credential.

    The TPM half is sealed by an adapter of the TPM2 software stack ([leelo-tpm]). The network half comes
    from evaluators: a client ([leelo-net]) posts a request over HTTPS to a frontend
    ([leelod/src/server.rs]), which forwards it over a Unix socket to a worker
    ([leelod/src/worker.rs]), the only process that reads the evaluation key. A probe ([leelo-probe])
    makes one such evaluation of a public input and reports whether it verified.

    Around this core, commands and services emit bounded telemetry records ([leelo-telemetry]); a
    collector deduplicates and counts them and reconciles expected boots and enrollments with what was
    observed ([leelo-collector]); the evaluation service keeps its own counters, timers and rate limit
    ([leelod/src/metrics.rs]).

    ** Files

    - [Prelude]: results as an error monad, machine integers as [Z] with explicit width and wrap,
      bytes, strings and list segments, the hint database [leelo] and shared tactics.
    - [Gf256], [Field], [Interpolation]: [leelo-sss/src/gf256.rs] and [interpolation.rs]. The field
      operations bit by bit, the proof that bytes form a field, polynomials over it, Lagrange
      interpolation; the loops and the ghost specifications of the source side by side.
    - [Sss]: [leelo-sss/src/lib.rs]. [split] and [reconstruct] with all their error branches, the
      random generator as a class; recovery, consistency and perfect secrecy.
    - [Plan]: [leelo-policy/src/verified.rs] and [verified_compile.rs]. Postorder gate networks, their
      evaluation, and the certificate check of a compilation.
    - [Policy]: [leelo-policy/src/lib.rs] up to [compile_node]. The policy constructor, the network
      decision, sharing and recovery over the tree, with out-of-range indexing as the value [Panic].
    - [Session]: the release session; sessions as states reachable by calls, with their history.
    - [Release]: the context-bound release gate of [leelo-engine/src/release.rs].
    - [Crypto], [ToyCrypto]: the wrappers of [leelo-crypto] around third-party primitives, which are
      the class [Primitives] with the laws [PrimitiveLaws]; a concrete toy instance shows that the
      laws are satisfiable and lets whole operations be evaluated.
    - [Wire]: the request and response messages of [leelo-protocol].
    - [Cbor], [Envelope]: the envelope codec over a CBOR library (class [Cbor], laws [CborLaws], an
      RFC 8949 reference instance), validation, contexts, signing and authentication.
    - [Observation], [Engine]: reports, enrollment, network recovery and unlock as state passing over
      randomness, TPM, clock and report; provider completions are an explicit schedule of events, so
      every interleaving of the concurrent operations is a list.
    - [Recovery], [Unlock], [Enroll], [Report]: the theorems about those operations.
    - [Demo]: one enrollment and one unlock evaluated end to end, which witness the hypotheses.
    - [Tpm], [TpmDiscipline], [TpmDevice], [TpmSeal], [TpmDemo]: [leelo-tpm/src/linux.rs]. The adapter as
      programs over an indexed type of TPM commands; a monitor of the command log; the laws of a TPM
      ([TssLaws]) and of a working one ([TssWorks]), the instance of the engine's TPM interface, and a TPM
      in memory.
    - [Float64], [Text]: [f64] as the Standard Library's IEEE 754 specification; ASCII classes,
      hexadecimal text and exposition lines.
    - [Telemetry]: [leelo-telemetry/src/lib.rs]. Records, their closed vocabulary, the reader, the
      fixed buffer and the emitter.
    - [Collector]: [leelo-collector/src/metrics.rs]. Replay window, attempts, series, exposition.
    - [Reconcile]: [leelo-collector/src/reconcile.rs]. Held files, boots, enrollments, journals.
    - [ServiceMetrics]: [leelod/src/metrics.rs]. Counters, guards, timers, the event rate limit as
      separate atomic steps, and the snapshot.
    - [Service], [Listener], [Worker], [Frontend]: [leelod/src/service.rs], [worker.rs] and [server.rs]. The
      world of a service's tasks, the accept loop with its retries, admission with permits, the worker's
      handler, the frontend's router and its exchange with the worker.
    - [Net], [Stack], [StackDemo]: [leelo-net/src/lib.rs], and the composition of client, frontend and worker
      over an HTTP library with laws; a deployment of four endpoints.
    - [KeyFile], [KeyFileDemo]: [leelod/src/private_file.rs], the worker's keys and
      [leelo-cli/src/keygen.rs] on a model of a disk whose every call may fail.
    - [EventDaemon], [FileLogic], [EventLog]: the event daemon of [leelo-collector/src/linux.rs]; a weakest
      precondition for sequences of file calls; the log under failures and restarts.
    - [SnapshotReader], [SnapshotSchema], [SnapshotServe], [SnapshotDemo]: the collector's snapshot command,
      the closed schema of a snapshot, the listener of [leelod/src/snapshot.rs], and the way between them.
    - [CliMain]: key creation and inspection of [leelo-cli/src/main.rs].
    - [Daemon], [DaemonDemo]: the processes of [leelod] from start to end: startup of the worker and of the
      frontend with its TLS configuration, lifecycle events, signals and exit codes.
    - [Providers], [Probe], [ProbeConfig], [ProbeRun], [ProbeDemo]: the provider configuration, as
      [leelo-cli/src/providers.rs] and [leelo-probe/src/config.rs] read it, and the probe.
    - [Luks], [LuksRun], [LuksDemo]: [leelo-luks]. Token text and the adapter with its error reports,
      over libcryptsetup as the class [Cryptsetup]; [CryptsetupLaws] says what calls do to the header
      when they succeed or fail, [CryptsetupWorks] when they succeed; an instance in memory has both.
    - [Fuzz], [FuzzDemo]: the adversarial harnesses of [src/fuzz/src/lib.rs], a panic being a value.
    - [CliOperation]: [leelo-cli/src/observation.rs]. The events of a command, error classification.
    - [Journal]: [leelo-cli/src/enrollment.rs], the durable sequence. Files are a trace of effects,
      each of which may fail, replayed to what is on disk and what of it is durable.
    - [Commands], [EndToEnd], [CommandsDemo]: the enroll, resume and unlock commands over the engine,
      the adapter, the journal and the events; their composition; and a run of all of them.

    ** What the theorems show

    - Arithmetic and sharing: multiplication is polynomial multiplication modulo 0x11b, bytes are a
      field, any threshold-many shares recover the secret, fewer say nothing about it, and
      inconsistent shares are rejected.
    - Policy: the constructor accepts exactly the trees within its limits, the compiled network
      decides as the tree does, sharing over the tree round trips, nothing indexes out of range.
    - Release: a session releases once, after all mandatory observations; the gate accepts its calls
      only in order, on one context, within the deadline; both are live.
    - Envelope and wire: codecs are exact in both directions, so encodings are unique; accepted
      envelopes are signed, canonical and valid.
    - Engine: the concurrent recovery loop keeps its accounting and decides the policy; a released
      credential was opened from authentic factors before the deadline; enrollment followed by unlock
      returns the enrolled credential; reports describe what happened.
    - TPM adapter: whatever the TPM answers, commands follow a protocol in which seeds travel only in
      encrypted sessions bound to the checked storage key; a returned seed is the sealed one under the
      enrolled PCR values; on a working TPM sealing round trips, and enrollment followed by unlock
      succeeds over the adapter.
    - Evaluation service: the accept loop ends with the first answer that is not temporary; the worker's
      handler implements its reply function; the frontend forwards only acceptable requests; enrollment
      and unlock agree over client, frontend and worker. The worker process is ready only with a private
      key and socket, reports the first thing that is wrong, serves one user, and changes nothing on the
      disk but its socket and the metrics socket with its group.
    - Files: keys are created without touching other files and load as they were made; the event log
      keeps whole lines under every failure; a restart rebuilds the registry from what the reader makes of
      them, which counts the same when events read back up to their durations and fit one log; text files
      are replaced as a whole.
    - Probe: it reports success exactly for an evaluation verified under the pinned key, reads the
      configuration as the commands do, and its exit code says what is in its text file.
    - Harnesses: for every input, no assertion of the fuzzing harnesses fails.
    - Telemetry and collection: accepted records are exactly those of the closed schema; losses,
      sequence numbers and deliveries are accounted for; the collector's state stays bounded under
      every stream, accepts exactly the new events, and its totals are sums over what it accepted;
      histograms are cumulative with finite sums.
    - Reconciliation: every expected boot is in exactly one state, which holds exactly when its
      meaning does; enrollments are counted by the class their journals show; journals are read
      exactly.
    - Storage: whatever libcryptsetup answers, no keyslot or token is lost, at most one of each is added,
      and only errors reported as partial leave traces; on a working volume enrollment completes and reads back.
    - Commands: the storage adapter is called at most once, after the engine recovered the credential
      from the bundle that is durable by then; what is reported of the volume and the journal is true;
      the events are within the telemetry schema; what the enroll command enrolls, the unlock command
      checks and activates on the TPM that enrollment left, within the operation budget.
    - Service metrics: guards and timers are counted once; the rate limit holds for calls that do not
      overlap, and a lemma exhibits the interleaving in which it does not.

    ** Modelling choices

    A [w]-bit integer is a [Z] with its range as a hypothesis or an invariant and wrap-around written
    out; byte arrays are lists with their length in [byte_array]. Errors are values of [result];
    operations on vectors that could panic return the extra error [Panic], and theorems show that it
    does not occur. Recursion over gates uses the number of gates as fuel, and the decoder of policy
    nodes the four levels the source admits; both are proved to be enough. The recovery loop is
    structural in the schedule: a finite schedule ends with the deadline, as the source's timeout
    does. [Instant::now] is a clock indexed by the number of readings. Atomic counters are updated one
    operation at a time; where the source makes two accesses, they are two steps of a relation. The
    JSON library, the text of an [f64] and the answers of the kernel are parameters; calls whose answers
    may change take the number of calls before them.

    The accept loop takes a bound on its attempts as fuel, and any bound beyond the first answer that is
    not temporary is enough; the loops of the snapshot reader likewise end by their deadline. Files are a
    map from paths to entries with flags for what is durable; each system call may fail, a write after
    any part of its bytes, and theorems hold for every choice of failures; the groups that the service sets
    are a map beside it. The socket of the event daemon, in a directory of its own, is not on that disk, and
    the PCR digest that an enrollment binds is an input of the command. Processes, sockets and signals
    are explicit sequences of what the executor and the kernel do.

    ** Not modelled

    Third-party code: the cryptographic primitives, TLS, HTTP, DNS, CBOR and JSON libraries,
    libcryptsetup and the TPM itself; their contracts are the classes above, each with an instance.
    Command line parsing and the printing of results and error texts ([Display]), the stubs for systems
    other than Linux, the hook of the DNS resolver ([leelo-net/src/dns.rs]), the harness of group
    encodings and the seeds of the fuzzing corpus, tests, and zeroization of memory. The strength of the
    primitives is outside the model. *)

From stdpp Require Import base list gmap strings.
From Stdlib Require Import ZArith Lia.

Open Scope Z_scope.

(** * Results *)

(** [Result<A, E>] of the source: the error type comes first so that [result E] is a monad. *)
Inductive result (E A : Type) : Type :=
| Ok (a : A)
| Err (e : E).
Arguments Ok {E A} a.
Arguments Err {E A} e.

#[export] Instance result_ret {E} : MRet (result E) := fun A a => Ok a.
#[export] Instance result_bind {E} : MBind (result E) := fun A B f m =>
  match m with Ok a => f a | Err e => Err e end.
#[export] Instance result_fmap {E} : FMap (result E) := fun A B f m =>
  match m with Ok a => Ok (f a) | Err e => Err e end.
#[export] Instance result_eq_dec {E A} `{EqDecision E, EqDecision A} : EqDecision (result E A).
Proof. solve_decision. Defined.

(** [Result::map_err], [Option::ok_or], and the early return [if !b { return Err(e) }]. *)
Definition map_err {E E' A} (f : E -> E') (m : result E A) : result E' A :=
  match m with Ok a => Ok a | Err e => Err (f e) end.

Definition ok_or {E A} (m : option A) (e : E) : result E A :=
  match m with Some a => Ok a | None => Err e end.

Definition ensure {E} (b : bool) (e : E) : result E unit :=
  if b then Ok tt else Err e.

Definition is_ok {E A} (m : result E A) : bool :=
  match m with Ok _ => true | Err _ => false end.

(** * Machine-width unsigned integers *)

(** A [w]-bit unsigned integer is a [Z] in range; operations that can leave the range wrap. *)
Definition uint (w : Z) (z : Z) : Prop := 0 <= z < 2 ^ w.
Abbreviation u8 := (uint 8).
Abbreviation u16 := (uint 16).
Abbreviation u32 := (uint 32).
Abbreviation u64 := (uint 64).

Definition wrap (w z : Z) : Z := z mod 2 ^ w.

Definition saturating_add (w a b : Z) : Z := Z.min (a + b) (2 ^ w - 1).
Definition saturating_sub (a b : Z) : Z := Z.max 0 (a - b).

#[export] Instance uint_dec w z : Decision (uint w z).
Proof. unfold uint. apply _. Defined.

(** A fixed-size byte array [[u8; N]], and a byte slice [&[u8]]. *)
Definition byte_array (n : nat) (l : list Z) : Prop := length l = n /\ Forall u8 l.
Abbreviation byte_slice l := (Forall u8 l).

#[export] Instance byte_array_dec n l : Decision (byte_array n l).
Proof. unfold byte_array. apply _. Defined.

(** ASCII byte-string literals ([b"..."]). *)
Fixpoint bytes_of_string (s : string) : list Z :=
  match s with
  | EmptyString => []
  | String c rest => Z.of_nat (Ascii.nat_of_ascii c) :: bytes_of_string rest
  end.

(** [to_be_bytes]: the [n] low bytes, most significant first. *)
Fixpoint be_bytes (n : nat) (z : Z) : list Z :=
  match n with
  | O => []
  | S n' => be_bytes n' (z / 256) ++ [z mod 256]
  end.

(** The early-exit comparison loop the source writes over byte arrays: [n] positions from [i]. *)
Fixpoint scan_equal (n : nat) (a b : list Z) (i : nat) : bool :=
  match n with
  | O => true
  | S n' => if negb (Z.eqb (nth i a 0) (nth i b 0)) then false else scan_equal n' a b (S i)
  end.

(** * Automation *)

Create HintDb leelo.

(** Split the hypotheses that say a chain of fallible steps returned. *)
Ltac inv_step H :=
  lazymatch type of H with
  | Ok _ = Ok _ => injection H as H
  | Err _ = Err _ => injection H as H
  | Ok _ = Err _ => discriminate H
  | Err _ = Ok _ => discriminate H
  end.

Ltac run H :=
  repeat (unfold mret, mbind, mthrow in H; simpl in H;
          first [ inv_step H
                | match type of H with
                  | context [match ?m with Ok _ => _ | Err _ => _ end] =>
                      let E := fresh "Hrun" in destruct m eqn:E; simpl in H
                  | context [if ?b then _ else _] =>
                      let E := fresh "Hif" in destruct b eqn:E; simpl in H
                  end ]).

(** A decidable fact about concrete data, by evaluation. *)
Ltac decided := apply (bool_decide_unpack _); vm_compute; exact I.

(** * Shared lemmas *)

Lemma bind_Ok {E A B} (m : result E A) (f : A -> result E B) (b : B) :
  (m ≫= f) = Ok b -> exists a, m = Ok a /\ f a = Ok b.
Proof. destruct m; simpl; [eauto | discriminate]. Qed.

Lemma ensure_Ok {E} (b : bool) (e : E) u : ensure b e = Ok u -> b = true.
Proof. by destruct b. Qed.

Lemma ok_or_Ok {E A} (m : option A) (e : E) a : ok_or m e = Ok a -> m = Some a.
Proof. destruct m; simpl; congruence. Qed.

Lemma scan_equal_from n a b i :
  scan_equal n a b i = true <-> forall j, (i <= j < i + n)%nat -> nth j a 0 = nth j b 0.
Proof.
  revert i. induction n as [|n IH]; intros i; simpl; [split; [lia|done]|].
  destruct (Z.eqb_spec (nth i a 0) (nth i b 0)) as [E|E]; simpl.
  - rewrite IH. split; intros H j Hj; [|apply H; lia].
    destruct (decide (j = i)) as [->|]; [done|]. apply H. lia.
  - split; [done|]. intros H. exfalso. apply E, H. lia.
Qed.

Lemma scan_equal_eq n a b :
  length a = n -> length b = n -> scan_equal n a b 0 = true <-> a = b.
Proof.
  intros Ha Hb. rewrite scan_equal_from. split; [|by intros ->].
  intros H. apply (nth_ext a b 0 0); [lia|]. intros i Hi. apply H. lia.
Qed.

Lemma uint_wrap w z : 0 <= w -> uint w (wrap w z).
Proof. intros. unfold uint, wrap. apply Z.mod_pos_bound. lia. Qed.

Lemma wrap_id w z : uint w z -> wrap w z = z.
Proof. intros. unfold wrap. by apply Z.mod_small. Qed.

Lemma byte_array_app n m a b :
  byte_array n a -> byte_array m b -> byte_array (n + m) (a ++ b).
Proof.
  intros [? ?] [? ?]. split; [rewrite length_app; lia | by apply Forall_app].
Qed.

Lemma be_bytes_length n z : length (be_bytes n z) = n.
Proof. revert z. induction n as [|n IH]; intros z; simpl; [done|]. rewrite length_app, IH. simpl. lia. Qed.

Lemma be_bytes_ok n z : byte_array n (be_bytes n z).
Proof.
  split; [apply be_bytes_length|]. revert z. induction n as [|n IH]; intros z; simpl; [constructor|].
  apply Forall_app. split; [apply IH|]. repeat constructor; pose proof (Z.mod_pos_bound z 256); lia.
Qed.

Lemma be_bytes_inj n a b :
  0 <= a < 256 ^ Z.of_nat n -> 0 <= b < 256 ^ Z.of_nat n -> be_bytes n a = be_bytes n b -> a = b.
Proof.
  revert a b. induction n as [|n IH]; intros a b Ha Hb E; [simpl in *; lia|].
  simpl be_bytes in E. apply app_inj_tail in E as [E1 E2].
  rewrite Nat2Z.inj_succ, Z.pow_succ_r in Ha, Hb by lia.
  assert (a / 256 = b / 256) as E3.
  { apply IH; [split; [apply Z.div_pos; lia|apply Z.div_lt_upper_bound; lia]..|done]. }
  rewrite (Z.div_mod a 256), (Z.div_mod b 256) by lia. congruence.
Qed.

Lemma bytes_of_string_u8 s : byte_slice (bytes_of_string s).
Proof.
  induction s as [|c s IH]; simpl; constructor; [|done].
  unfold uint. pose proof (Ascii.nat_ascii_bounded c). lia.
Qed.

Lemma fold_left_ext_in {A B} (f g : A -> B -> A) l a :
  (forall a b, b ∈ l -> f a b = g a b) -> fold_left f l a = fold_left g l a.
Proof.
  revert a. induction l as [|b l IH]; intros a H; simpl; [done|].
  rewrite H by constructor. apply IH. intros. apply H. by right.
Qed.

Lemma reverse_take_subseteq {A} n (l : list A) : reverse (take n l) ⊆ l.
Proof. intros x Hx. rewrite elem_of_reverse in Hx. by eapply subseteq_take. Qed.

Lemma drop_subseteq {A} n (l : list A) : drop n l ⊆ l.
Proof. apply subseteq_drop. Qed.

(** * Segments: a list occurs at an offset of another *)

Definition segment {A} (l : list A) (start : nat) (s : list A) : Prop :=
  forall i x, s !! i = Some x -> l !! (start + i)%nat = Some x.

Lemma segment_nil {A} (l : list A) start : segment l start [].
Proof. by intros i x. Qed.

Lemma segment_app {A} (l : list A) start s1 s2 :
  segment l start (s1 ++ s2) <-> segment l start s1 /\ segment l (start + length s1) s2.
Proof.
  split.
  - intros H. split; intros i x Hx.
    + apply H. by apply lookup_app_l_Some.
    + rewrite <- Nat.add_assoc. apply H. rewrite lookup_app_r by lia.
      by replace (length s1 + i - length s1)%nat with i by lia.
  - intros [H1 H2] i x Hx. apply lookup_app_Some in Hx as [Hx|[Hi Hx]]; [by apply H1|].
    apply H2 in Hx. by replace (start + i)%nat with (start + length s1 + (i - length s1))%nat by lia.
Qed.

Lemma segment_cons {A} (l : list A) start x s :
  segment l start (x :: s) <-> l !! start = Some x /\ segment l (S start) s.
Proof.
  change (x :: s) with ([x] ++ s). rewrite segment_app. simpl. rewrite Nat.add_1_r.
  split; intros [H1 H2]; (split; [|done]).
  - rewrite <- (Nat.add_0_r start). by apply (H1 0%nat).
  - intros [|i] y Hy; [|done]. injection Hy as <-. by rewrite Nat.add_0_r.
Qed.

Lemma segment_self {A} (l : list A) : segment l 0 l.
Proof. by intros i x. Qed.

Lemma segment_middle {A} (p s q : list A) : segment (p ++ s ++ q) (length p) s.
Proof.
  intros i x Hx. rewrite lookup_app_r, Nat.add_sub_swap, Nat.sub_diag by lia. simpl.
  by apply lookup_app_l_Some.
Qed.

Lemma segment_fmap {A B} (f : A -> B) (l : list A) start s :
  segment l start s -> segment (map f l) start (map f s).
Proof.
  intros H i x Hx. change (map f s) with (f <$> s) in Hx. change (map f l) with (f <$> l).
  rewrite list_lookup_fmap in Hx |- *. apply fmap_Some in Hx as (y & Hy & ->).
  by rewrite (H i y Hy).
Qed.

#[export] Hint Resolve uint_wrap byte_array_app bytes_of_string_u8 : leelo.
