(* ===== verification/Gf256.v ===== *)
(** GF(2^8) arithmetic of [leelo-sss/src/gf256.rs]: the masked multiplier, the
    carry-less polynomial specification it refines, and the inverse by
    exponentiation. *)
From stdpp Require Import base list.
From Stdlib Require Import ZArith Lia.
From S2P Require Import Prelude.

Open Scope Z_scope.

(** * The specification: carry-less product modulo [0x11b] *)

Definition polynomial_term (a b bit : Z) : Z :=
  if Z.eqb (Z.land b (wrap 16 (Z.shiftl 1 bit))) 0 then 0 else wrap 16 (Z.shiftl a bit).

Definition carryless_product (a b : Z) : Z :=
  Z.lxor (Z.lxor (Z.lxor (Z.lxor (Z.lxor (Z.lxor (Z.lxor
    (polynomial_term a b 0) (polynomial_term a b 1))
    (polynomial_term a b 2)) (polynomial_term a b 3))
    (polynomial_term a b 4)) (polynomial_term a b 5))
    (polynomial_term a b 6)) (polynomial_term a b 7).

Definition reduced_term (value mask basis : Z) : Z :=
  if Z.eqb (Z.land value mask) 0 then 0 else basis.

Definition polynomial_reduce (value : Z) : Z :=
  Z.lxor (Z.lxor (Z.lxor (Z.lxor (Z.lxor (Z.lxor (Z.lxor (Z.lxor
    (wrap 8 value)
    (reduced_term value 0x0100 0x1b)) (reduced_term value 0x0200 0x36))
    (reduced_term value 0x0400 0x6c)) (reduced_term value 0x0800 0xd8))
    (reduced_term value 0x1000 0xab)) (reduced_term value 0x2000 0x4d))
    (reduced_term value 0x4000 0x9a)) (reduced_term value 0x8000 0x2f).

(** One step of polynomial long division: clear bit [8 + k] with [0x11b << k]. *)
Definition division_step (k value : Z) : Z :=
  if Z.eqb (Z.land value (Z.shiftl 1 (8 + k))) 0 then value
  else Z.lxor value (wrap 16 (Z.shiftl 0x11b k)).

Definition long_division (value : Z) : Z :=
  division_step 0 (division_step 1 (division_step 2 (division_step 3
    (division_step 4 (division_step 5 (division_step 6 (division_step 7 value))))))).

Definition product_spec (a b : Z) : Z := polynomial_reduce (carryless_product a b).

Definition xtime_spec (a : Z) : Z :=
  Z.lxor (wrap 8 (Z.shiftl a 1)) (if Z.eqb (Z.shiftr a 7) 1 then 0x1b else 0).

Definition low_term (a b : Z) : Z := if Z.eqb (Z.land b 1) 1 then a else 0.

(** * The executable multiplier *)

(** [0_u8.wrapping_sub(x)]. *)
Definition wrapping_neg8 (x : Z) : Z := wrap 8 (0 - x).

Definition xtime (a : Z) : Z :=
  let reduce := wrapping_neg8 (Z.shiftr a 7) in
  Z.lxor (wrap 8 (Z.shiftl a 1)) (Z.land 0x1b reduce).

Definition masked (a b : Z) : Z :=
  let mask := wrapping_neg8 (Z.land b 1) in
  Z.land a mask.

Definition mul (a b : Z) : Z :=
  let a1 := xtime a in
  let a2 := xtime a1 in
  let a3 := xtime a2 in
  let a4 := xtime a3 in
  let a5 := xtime a4 in
  let a6 := xtime a5 in
  let a7 := xtime a6 in
  let p0 := masked a b in
  let p1 := masked a1 (Z.shiftr b 1) in
  let p2 := masked a2 (Z.shiftr b 2) in
  let p3 := masked a3 (Z.shiftr b 3) in
  let p4 := masked a4 (Z.shiftr b 4) in
  let p5 := masked a5 (Z.shiftr b 5) in
  let p6 := masked a6 (Z.shiftr b 6) in
  let p7 := masked a7 (Z.shiftr b 7) in
  Z.lxor (Z.lxor (Z.lxor (Z.lxor (Z.lxor (Z.lxor (Z.lxor p0 p1) p2) p3) p4) p5) p6) p7.

(** [inverse_spec] and [inverse_nonzero]: [a^254] by the same addition chain, over the
    specification product and over the executable product. *)
Definition inverse_chain (m : Z -> Z -> Z) (a : Z) : Z :=
  let a2 := m a a in
  let a4 := m a2 a2 in
  let a8 := m a4 a4 in
  let a16 := m a8 a8 in
  let a32 := m a16 a16 in
  let a64 := m a32 a32 in
  let a128 := m a64 a64 in
  m (m (m a2 a4) (m a8 a16)) (m a32 (m a64 a128)).

Definition inverse_spec (a : Z) : Z := inverse_chain product_spec a.

Definition inverse_nonzero (a : Z) : Z := inverse_chain mul a.

(** * Additive maps on [n]-bit words

    Every map below is additive for exclusive or, and an additive map is fixed by its
    values on the [n] powers of two. *)

Definition additive (n : Z) (f : Z -> Z) : Prop :=
  forall a b, uint n a -> uint n b -> f (Z.lxor a b) = Z.lxor (f a) (f b).

Lemma uint_bits n a : 0 <= n -> 0 <= a -> (forall k, n <= k -> Z.testbit a k = false) -> uint n a.
Proof.
  intros Hn Ha Hk. split; [done|].
  destruct (Z.eq_dec a 0) as [->|Hne]; [lia|].
  apply Z.log2_lt_pow2; [lia|].
  destruct (Z_lt_dec (Z.log2 a) n) as [|Hge]; [done|].
  specialize (Hk (Z.log2 a)). rewrite Z.bit_log2 in Hk by lia. discriminate Hk. lia.
Qed.

Lemma uint_testbit n a k : uint n a -> n <= k -> Z.testbit a k = false.
Proof.
  intros [? ?] ?. destruct (Z.eq_dec a 0) as [->|]; [apply Z.bits_0|].
  apply Z.bits_above_log2; [done|].
  apply Z.lt_le_trans with n; [apply Z.log2_lt_pow2; lia|done].
Qed.

Lemma uint_lxor n a b : 0 <= n -> uint n a -> uint n b -> uint n (Z.lxor a b).
Proof.
  intros Hn Ha Hb. apply uint_bits; [done| |].
  - apply Z.lxor_nonneg. unfold uint in *; lia.
  - intros k Hk. by rewrite Z.lxor_spec, (uint_testbit n a), (uint_testbit n b).
Qed.

Lemma uint_mono n m a : uint n a -> n <= m -> uint m a.
Proof.
  unfold uint. intros [? Hlt] ?. split; [done|].
  destruct (Z_le_dec 0 n).
  - apply Z.lt_le_trans with (2 ^ n); [done|]. apply Z.pow_le_mono_r; lia.
  - rewrite (Z.pow_neg_r 2 n) in Hlt; lia.
Qed.

Lemma uint_land n a b : 0 <= n -> uint n a -> 0 <= b -> uint n (Z.land a b).
Proof.
  intros Hn Ha Hb. apply uint_bits; [done| |].
  - apply Z.land_nonneg. right; done.
  - intros k Hk. by rewrite Z.land_spec, (uint_testbit n a).
Qed.

#[export] Hint Resolve uint_lxor : leelo.

Lemma lxor_cancel a b : Z.lxor a (Z.lxor a b) = b.
Proof. by rewrite <- Z.lxor_assoc, Z.lxor_nilpotent, Z.lxor_0_l. Qed.

Lemma additive_0 n f : 0 <= n -> additive n f -> f 0 = 0.
Proof.
  intros Hn Hf. assert (uint n 0) as H0 by (unfold uint; lia).
  specialize (Hf 0 0 H0 H0). rewrite Z.lxor_0_l, Z.lxor_nilpotent in Hf. done.
Qed.

Lemma additive_ext n f g :
  additive n f -> additive n g ->
  (forall k, 0 <= k < n -> f (2 ^ k) = g (2 ^ k)) ->
  forall a, uint n a -> f a = g a.
Proof.
  intros Hf Hg Hb a Ha. destruct (Z_le_dec 0 n) as [Hn|]; [|unfold uint in Ha; rewrite Z.pow_neg_r in Ha; lia].
  assert (forall m, 0 <= m -> m <= n -> forall a, uint m a -> f a = g a) as Hm; [|by apply (Hm n)].
  intros m Hm0. pattern m. apply natlike_ind; [| |done].
  - intros _ x Hx. replace x with 0 by (unfold uint in Hx; lia).
    by rewrite (additive_0 n f), (additive_0 n g).
  - clear m Hm0 a Ha. intros m Hm0 IH Hmn x Hx.
    destruct (Z.testbit x m) eqn:E.
    + assert (uint n (2 ^ m)) as Hp.
      { split; [lia|]. apply Z.pow_lt_mono_r; lia. }
      assert (uint m (Z.lxor (2 ^ m) x)) as Hy.
      { apply uint_bits; [done| |].
        - apply Z.lxor_nonneg. unfold uint in Hx, Hp. lia.
        - intros k Hk. rewrite Z.lxor_spec. destruct (Z.eq_dec k m) as [->|].
          + rewrite E, Z.pow2_bits_true by lia. done.
          + rewrite (uint_testbit (Z.succ m) x) by (done || lia).
            by rewrite Z.pow2_bits_false by lia. }
      rewrite <- (lxor_cancel (2 ^ m) x).
      rewrite Hf, Hg by (done || (eapply uint_mono; [done|lia])).
      rewrite Hb, IH by (done || lia). done.
    + apply IH; [lia|]. apply uint_bits; [done|unfold uint in Hx; lia|].
      intros k Hk. destruct (Z.eq_dec k m) as [->|]; [done|].
      apply (uint_testbit (Z.succ m)); [done|lia].
Qed.

Lemma additive_lxor n f g :
  additive n f -> additive n g -> additive n (fun a => Z.lxor (f a) (g a)).
Proof.
  intros Hf Hg a b Ha Hb. rewrite Hf, Hg by done.
  rewrite !Z.lxor_assoc. f_equal. rewrite <- !Z.lxor_assoc. f_equal. apply Z.lxor_comm.
Qed.

Lemma additive_comp n m f g :
  additive n f -> (forall a, uint n a -> uint m (f a)) -> additive m g ->
  additive n (fun a => g (f a)).
Proof. intros Hf Hr Hg a b Ha Hb. rewrite Hf, Hg by auto. done. Qed.

Lemma additive_if n (c : bool) f :
  0 <= n -> additive n f -> additive n (fun a => if c then f a else 0).
Proof. intros. destruct c; [done|]. intros a b _ _. by rewrite Z.lxor_0_l. Qed.

(** Selecting a constant by one bit of the argument is additive. *)
Lemma additive_bit n k c : additive n (fun b => if Z.testbit b k then c else 0).
Proof.
  intros a b _ _. rewrite Z.lxor_spec.
  destruct (Z.testbit a k), (Z.testbit b k); simpl;
    by rewrite ?Z.lxor_nilpotent, ?Z.lxor_0_l, ?Z.lxor_0_r.
Qed.

(** * The multiplier as a sum of selected shifts *)

Lemma testbit_land_pow2 b k : 0 <= k -> Z.eqb (Z.land b (2 ^ k)) 0 = negb (Z.testbit b k).
Proof.
  intros Hk. destruct (Z.testbit b k) eqn:E; simpl.
  - apply Z.eqb_neq. intros H. apply (f_equal (fun z => Z.testbit z k)) in H.
    rewrite Z.land_spec, E, Z.pow2_bits_true, Z.bits_0 in H by done. discriminate.
  - apply Z.eqb_eq. apply Z.bits_inj'. intros i Hi. rewrite Z.land_spec, Z.bits_0.
    destruct (Z.eq_dec i k) as [->|]; [by rewrite E|].
    by rewrite Z.pow2_bits_false, andb_false_r by lia.
Qed.

Lemma land_shiftr_1 b k : 0 <= k -> Z.land (Z.shiftr b k) 1 = if Z.testbit b k then 1 else 0.
Proof.
  intros Hk. apply Z.bits_inj'. intros i Hi. rewrite Z.land_spec, Z.shiftr_spec by done.
  destruct (Z.eq_dec i 0) as [->|Hne].
  - rewrite Z.add_0_l. by destruct (Z.testbit b k).
  - assert (Z.testbit 1 i = false) as ->.
    { apply Z.bits_above_log2; simpl; lia. }
    rewrite andb_false_r. destruct (Z.testbit b k); [|by rewrite Z.bits_0].
    symmetry. apply Z.bits_above_log2; simpl; lia.
Qed.

Lemma masked_select a b k :
  0 <= k -> u8 a -> masked a (Z.shiftr b k) = if Z.testbit b k then a else 0.
Proof.
  intros Hk Ha. unfold masked. rewrite land_shiftr_1 by done.
  destruct (Z.testbit b k); unfold wrapping_neg8.
  - change (wrap 8 (0 - 1)) with (Z.ones 8). rewrite Z.land_ones by lia. by apply wrap_id.
  - apply Z.land_0_r.
Qed.

Lemma shiftr7_u8 a : u8 a -> Z.shiftr a 7 = if Z.testbit a 7 then 1 else 0.
Proof.
  intros Ha. rewrite <- land_shiftr_1 by lia. change 1 with (Z.ones 1).
  rewrite Z.land_ones by lia. symmetry. apply Z.mod_small.
  rewrite Z.shiftr_div_pow2 by lia. unfold uint in Ha.
  split; [apply Z.div_pos; lia|]. apply Z.div_lt_upper_bound; lia.
Qed.

(** The mask arithmetic implements the textbook doubling and selection. *)
Lemma xtime_refines a : u8 a -> xtime a = xtime_spec a.
Proof.
  intros Ha. unfold xtime, xtime_spec, wrapping_neg8. f_equal.
  rewrite shiftr7_u8 by done. by destruct (Z.testbit a 7).
Qed.

Lemma masked_refines a b : u8 a -> masked a b = low_term a b.
Proof.
  intros Ha. pose proof (masked_select a b 0 ltac:(lia) Ha) as H. rewrite Z.shiftr_0_r in H.
  rewrite H. unfold low_term. pose proof (land_shiftr_1 b 0 ltac:(lia)) as L.
  rewrite Z.shiftr_0_r in L. rewrite L. by destruct (Z.testbit b 0).
Qed.

Lemma xtime_u8 a : u8 a -> u8 (xtime a).
Proof.
  intros Ha. rewrite xtime_refines by done. unfold xtime_spec.
  apply uint_lxor; [lia|apply uint_wrap; lia|]. destruct (Z.eqb _ _); unfold uint; lia.
Qed.

Lemma wrap_lxor w a b : 0 <= w -> wrap w (Z.lxor a b) = Z.lxor (wrap w a) (wrap w b).
Proof.
  intros. unfold wrap. rewrite <- !Z.land_ones by done.
  apply Z.bits_inj'. intros i Hi. rewrite !Z.lxor_spec, !Z.land_spec, Z.lxor_spec.
  by destruct (Z.testbit a i), (Z.testbit b i), (Z.testbit (Z.ones w) i).
Qed.

Lemma additive_wrap_shl w n k : 0 <= w -> additive n (fun a => wrap w (Z.shiftl a k)).
Proof. intros Hw a b _ _. by rewrite Z.shiftl_lxor, wrap_lxor. Qed.

Lemma xtime_additive : additive 8 xtime.
Proof.
  assert (additive 8 (fun a => Z.lxor (wrap 8 (Z.shiftl a 1)) (if Z.testbit a 7 then 0x1b else 0))) as H.
  { apply additive_lxor; [by apply additive_wrap_shl | apply additive_bit]. }
  intros a b Ha Hb. specialize (H a b Ha Hb).
  rewrite !xtime_refines by (done || by apply uint_lxor). unfold xtime_spec.
  rewrite !shiftr7_u8 by (done || by apply uint_lxor).
  assert (forall c : bool, (if Z.eqb (if c then 1 else 0) 1 then 0x1b else 0)
            = (if c then 0x1b else 0)) as Hc by by intros [].
  by rewrite !Hc.
Qed.

(** [a * x^k]. *)
Definition xpow (k : nat) (a : Z) : Z := Nat.iter k xtime a.

Definition select (b k : Z) (c : Z) : Z := if Z.testbit b k then c else 0.

Lemma xpow_u8 k a : u8 a -> u8 (xpow k a).
Proof. intros Ha. induction k; simpl; [done|by apply xtime_u8]. Qed.

Lemma xpow_additive k : additive 8 (xpow k).
Proof.
  induction k as [|k IH]; [by intros a b _ _|].
  apply (additive_comp 8 8 (xpow k) xtime IH (xpow_u8 k) xtime_additive).
Qed.

Lemma mul_select a b :
  u8 a ->
  mul a b = Z.lxor (Z.lxor (Z.lxor (Z.lxor (Z.lxor (Z.lxor (Z.lxor
    (select b 0 (xpow 0 a)) (select b 1 (xpow 1 a))) (select b 2 (xpow 2 a)))
    (select b 3 (xpow 3 a))) (select b 4 (xpow 4 a))) (select b 5 (xpow 5 a)))
    (select b 6 (xpow 6 a))) (select b 7 (xpow 7 a)).
Proof.
  intros Ha. unfold mul, select.
  pose proof (fun k => xpow_u8 k a Ha) as Hx.
  rewrite <- (masked_select (xpow 0 a) b 0), Z.shiftr_0_r by (auto || lia).
  rewrite <- (masked_select (xpow 1 a) b 1) by (auto || lia).
  rewrite <- (masked_select (xpow 2 a) b 2) by (auto || lia).
  rewrite <- (masked_select (xpow 3 a) b 3) by (auto || lia).
  rewrite <- (masked_select (xpow 4 a) b 4) by (auto || lia).
  rewrite <- (masked_select (xpow 5 a) b 5) by (auto || lia).
  rewrite <- (masked_select (xpow 6 a) b 6) by (auto || lia).
  rewrite <- (masked_select (xpow 7 a) b 7) by (auto || lia).
  cbv beta iota zeta delta [xpow Nat.iter nat_rect]. reflexivity.
Qed.

Lemma select_u8 b k c : u8 c -> u8 (select b k c).
Proof. intros. unfold select. destruct (Z.testbit b k); [done|unfold uint; lia]. Qed.

Lemma mul_u8 a b : u8 a -> u8 (mul a b).
Proof.
  intros Ha. rewrite mul_select by done.
  repeat apply uint_lxor; try lia; apply select_u8; by apply xpow_u8.
Qed.
#[export] Hint Resolve xtime_u8 xpow_u8 mul_u8 : leelo.

Lemma additive_congr n f g :
  0 <= n -> (forall a, uint n a -> f a = g a) -> additive n g -> additive n f.
Proof.
  intros Hn H Hg a b Ha Hb. rewrite !H by (done || by apply uint_lxor). by apply Hg.
Qed.

Lemma mul_additive_r a : u8 a -> additive 8 (mul a).
Proof.
  intros Ha. eapply additive_congr; [lia|intros b _; by apply mul_select|].
  repeat apply additive_lxor; apply additive_bit.
Qed.

Lemma mul_additive_l b : additive 8 (fun a => mul a b).
Proof.
  eapply additive_congr; [lia|intros a Ha; by apply mul_select|].
  repeat apply additive_lxor; unfold select; apply additive_if; try lia; apply xpow_additive.
Qed.

(** * The specification is bilinear as well *)

Lemma reduced_term_bit value k basis :
  0 <= k -> reduced_term value (2 ^ k) basis = if Z.testbit value k then basis else 0.
Proof.
  intros Hk. unfold reduced_term. rewrite testbit_land_pow2 by done.
  by destruct (Z.testbit value k).
Qed.

Lemma polynomial_reduce_additive n : additive n polynomial_reduce.
Proof.
  assert (forall k basis, 0 <= k -> additive n (fun v => reduced_term v (2 ^ k) basis)) as Hr.
  { intros k basis Hk a b Ha Hb. rewrite !reduced_term_bit by done.
    by apply (additive_bit n k basis). }
  unfold polynomial_reduce.
  repeat apply additive_lxor;
    [ intros a b _ _; by apply wrap_lxor
    | apply (Hr 8); lia | apply (Hr 9); lia | apply (Hr 10); lia | apply (Hr 11); lia
    | apply (Hr 12); lia | apply (Hr 13); lia | apply (Hr 14); lia | apply (Hr 15); lia ].
Qed.

Lemma polynomial_term_bit a b k :
  0 <= k < 16 -> polynomial_term a b k = if Z.testbit b k then wrap 16 (Z.shiftl a k) else 0.
Proof.
  intros Hk. unfold polynomial_term. rewrite Z.shiftl_1_l.
  rewrite (wrap_id 16 (2 ^ k)) by (split; [lia|apply Z.pow_lt_mono_r; lia]).
  rewrite testbit_land_pow2 by lia. by destruct (Z.testbit b k).
Qed.

Lemma carryless_additive_r n a : additive n (carryless_product a).
Proof.
  assert (forall k, 0 <= k < 16 -> additive n (fun b => polynomial_term a b k)) as H.
  { intros k Hk b c Hb Hc. rewrite !polynomial_term_bit by done.
    by apply (additive_bit n k). }
  unfold carryless_product. repeat apply additive_lxor; apply H; lia.
Qed.

Lemma carryless_additive_l n b : 0 <= n -> additive n (fun a => carryless_product a b).
Proof.
  intros Hn.
  assert (forall k, 0 <= k < 16 -> additive n (fun a => polynomial_term a b k)) as H.
  { intros k Hk a c Ha Hc. rewrite !polynomial_term_bit by done.
    by apply (additive_if n (Z.testbit b k) _ Hn (additive_wrap_shl 16 n k ltac:(lia))). }
  unfold carryless_product. repeat apply additive_lxor; apply H; lia.
Qed.

(** Two bilinear operations that agree on the 64 pairs of powers of two are equal. *)
Lemma bilinear_ext (f g : Z -> Z -> Z) :
  (forall b, u8 b -> additive 8 (fun a => f a b)) -> (forall b, u8 b -> additive 8 (fun a => g a b)) ->
  (forall a, u8 a -> additive 8 (f a)) -> (forall a, u8 a -> additive 8 (g a)) ->
  forallb (fun i => forallb (fun j => Z.eqb (f (2 ^ i) (2 ^ j)) (g (2 ^ i) (2 ^ j)))
                      [0;1;2;3;4;5;6;7]) [0;1;2;3;4;5;6;7] = true ->
  forall a b, u8 a -> u8 b -> f a b = g a b.
Proof.
  intros Hfl Hgl Hfr Hgr Hb a b Ha Hb8.
  apply (additive_ext 8 (fun a => f a b) (fun a => g a b)); [by apply Hfl|by apply Hgl| |done].
  intros i Hi. apply (additive_ext 8 (f (2 ^ i)) (g (2 ^ i))); [| | |done].
  1-2: (apply Hfr || apply Hgr); split; [lia|apply Z.pow_lt_mono_r; lia].
  intros j Hj. rewrite forallb_forall in Hb. specialize (Hb i).
  rewrite forallb_forall in Hb. apply Z.eqb_eq, Hb; simpl; lia.
Qed.

(** * Refinement and field laws *)

Lemma uint_pow2 n k : 0 <= k < n -> uint n (2 ^ k).
Proof. intros. split; [lia|apply Z.pow_lt_mono_r; lia]. Qed.

Lemma mul_product_spec a b : u8 a -> u8 b -> mul a b = product_spec a b.
Proof.
  apply (bilinear_ext mul product_spec).
  - intros c _. apply mul_additive_l.
  - intros c _. apply (additive_comp 8 16 (fun a => carryless_product a c) polynomial_reduce).
    + by apply carryless_additive_l.
    + intros x _. unfold carryless_product.
      repeat apply uint_lxor; try lia; unfold polynomial_term; destruct (Z.eqb _ _);
        (apply uint_wrap || (unfold uint; lia)); lia.
    + apply polynomial_reduce_additive.
  - intros c Hc. by apply mul_additive_r.
  - intros c _. apply (additive_comp 8 16 (carryless_product c) polynomial_reduce).
    + apply carryless_additive_r.
    + intros x _. unfold carryless_product.
      repeat apply uint_lxor; try lia; unfold polynomial_term; destruct (Z.eqb _ _);
        (apply uint_wrap || (unfold uint; lia)); lia.
    + apply polynomial_reduce_additive.
  - vm_compute. reflexivity.
Qed.

Lemma division_step_additive n k : 0 <= k -> additive n (division_step k).
Proof.
  intros Hk a b Ha Hb.
  assert (forall v, division_step k v
            = Z.lxor v (if Z.testbit v (8 + k) then wrap 16 (Z.shiftl 0x11b k) else 0)) as E.
  { intros v. unfold division_step. rewrite Z.shiftl_1_l, testbit_land_pow2 by lia.
    destruct (Z.testbit v (8 + k)); simpl; [done|by rewrite Z.lxor_0_r]. }
  rewrite !E.
  by apply (additive_lxor n (fun v => v) (fun v => if Z.testbit v (8 + k) then _ else 0)
             (fun _ _ _ _ => eq_refl) (additive_bit n (8 + k) _)).
Qed.

Lemma division_step_u16 k v : 0 <= k -> u16 v -> u16 (division_step k v).
Proof.
  intros Hk Hv. unfold division_step. destruct (Z.eqb _ _); [done|].
  apply uint_lxor; [lia|done|apply uint_wrap; lia].
Qed.

Lemma long_division_additive : additive 16 long_division.
Proof.
  unfold long_division.
  do 7 (eapply (additive_comp 16 16); [| intros ? ?; by repeat apply division_step_u16
                                       | apply division_step_additive; lia]).
  apply division_step_additive; lia.
Qed.

Lemma reduction_matches_long_division v :
  u16 v -> polynomial_reduce v = long_division v.
Proof.
  apply (additive_ext 16); [apply polynomial_reduce_additive|apply long_division_additive|].
  intros k Hk.
  assert (forallb (fun k => Z.eqb (polynomial_reduce (2 ^ k)) (long_division (2 ^ k)))
            [0;1;2;3;4;5;6;7;8;9;10;11;12;13;14;15] = true) as H by reflexivity.
  rewrite forallb_forall in H. apply Z.eqb_eq, H. simpl; lia.
Qed.

Lemma mul_comm a b : u8 a -> u8 b -> mul a b = mul b a.
Proof.
  intros Ha Hb. apply (bilinear_ext mul (fun a b => mul b a)); try done.
  - intros c _. apply mul_additive_l.
  - intros c Hc. by apply mul_additive_r.
  - intros c Hc. by apply mul_additive_r.
  - intros c _. apply mul_additive_l.
Qed.

Lemma mul_assoc a b c : u8 a -> u8 b -> u8 c -> mul (mul a b) c = mul a (mul b c).
Proof.
  intros Ha Hb Hc. revert c Hc.
  assert (forall c, u8 c -> forallb (fun i => forallb (fun j =>
            Z.eqb (mul (mul (2 ^ i) (2 ^ j)) c) (mul (2 ^ i) (mul (2 ^ j) c)))
            [0;1;2;3;4;5;6;7]) [0;1;2;3;4;5;6;7] = true) as Hbasis.
  { intros c Hc. apply forallb_forall. intros i Hi. apply forallb_forall. intros j Hj.
    assert (0 <= i < 8) as Hi' by (simpl in Hi; lia).
    assert (0 <= j < 8) as Hj' by (simpl in Hj; lia).
    apply Z.eqb_eq.
    apply (additive_ext 8 (mul (mul (2 ^ i) (2 ^ j))) (fun c => mul (2 ^ i) (mul (2 ^ j) c)));
      [| | |done].
    - apply mul_additive_r, mul_u8, uint_pow2; lia.
    - apply (additive_comp 8 8); [apply mul_additive_r, uint_pow2; lia| |].
      + intros x _. apply mul_u8, uint_pow2; lia.
      + apply mul_additive_r, uint_pow2; lia.
    - clear Hi Hj Ha Hb Hc. intros k Hk.
      assert (forallb (fun i => forallb (fun j => forallb (fun k =>
                Z.eqb (mul (mul (2 ^ i) (2 ^ j)) (2 ^ k)) (mul (2 ^ i) (mul (2 ^ j) (2 ^ k))))
                [0;1;2;3;4;5;6;7]) [0;1;2;3;4;5;6;7]) [0;1;2;3;4;5;6;7] = true) as H
        by (vm_compute; reflexivity).
      rewrite forallb_forall in H. specialize (H i ltac:(simpl; lia)).
      rewrite forallb_forall in H. specialize (H j ltac:(simpl; lia)).
      rewrite forallb_forall in H. apply Z.eqb_eq, H. simpl; lia. }
  intros c Hc. apply (bilinear_ext (fun a b => mul (mul a b) c) (fun a b => mul a (mul b c)));
    try done.
  - intros y _. apply (additive_comp 8 8 (fun a => mul a y) (fun x => mul x c)).
    + apply mul_additive_l.
    + auto with leelo.
    + apply mul_additive_l.
  - intros y _. apply mul_additive_l.
  - intros x Hx. apply (additive_comp 8 8 (mul x) (fun y => mul y c)).
    + by apply mul_additive_r.
    + intros. by apply mul_u8.
    + apply mul_additive_l.
  - intros x Hx. apply (additive_comp 8 8 (fun y => mul y c) (mul x)).
    + apply mul_additive_l.
    + auto with leelo.
    + by apply mul_additive_r.
  - by apply Hbasis.
Qed.

Lemma mul_1_l a : u8 a -> mul 1 a = a.
Proof.
  apply (additive_ext 8 (mul 1) (fun a => a)).
  - apply mul_additive_r. unfold uint; lia.
  - by intros ? ?.
  - intros k Hk.
    assert (forallb (fun k => Z.eqb (mul 1 (2 ^ k)) (2 ^ k)) [0;1;2;3;4;5;6;7] = true) as H
      by reflexivity.
    rewrite forallb_forall in H. apply Z.eqb_eq, H. simpl; lia.
Qed.

Lemma mul_0_l a : mul 0 a = 0.
Proof.
  apply (additive_0 8 (fun x => mul x a)); [lia|apply mul_additive_l].
Qed.

Lemma inverse_u8 a : u8 a -> u8 (inverse_nonzero a).
Proof.
  intros. unfold inverse_nonzero, inverse_chain. auto 20 with leelo.
Qed.

Lemma u8_seq a : u8 a -> In a (map Z.of_nat (seq 0 256)).
Proof.
  intros [? ?]. apply in_map_iff. exists (Z.to_nat a). split; [lia|]. apply in_seq. lia.
Qed.

Lemma inverse_table a :
  u8 a -> mul a (inverse_nonzero a) = if Z.eqb a 0 then 0 else 1.
Proof.
  intros Ha. apply u8_seq in Ha. revert a Ha.
  assert (forallb (fun a => Z.eqb (mul a (inverse_nonzero a)) (if Z.eqb a 0 then 0 else 1))
            (map Z.of_nat (seq 0 256)) = true) as H by (vm_compute; reflexivity).
  rewrite forallb_forall in H. intros a Ha. by apply Z.eqb_eq, H.
Qed.

Lemma inverse_identity a : u8 a -> a <> 0 -> mul a (inverse_nonzero a) = 1.
Proof. intros Ha Hne. rewrite inverse_table by done. by apply Z.eqb_neq in Hne as ->. Qed.

Lemma carryless_u16 a b : u16 (carryless_product a b).
Proof.
  unfold carryless_product.
  repeat apply uint_lxor; try lia; unfold polynomial_term; destruct (Z.eqb _ _);
    (apply uint_wrap || (unfold uint; lia)); lia.
Qed.

(** * Properties *)

(** C18: the constant-time multiplication is multiplication of polynomials over GF(2) modulo
    [x^8 + x^4 + x^3 + x + 1]: the carry-less product reduced by schoolbook long division. *)
Theorem mul_is_reduced_product a b :
  u8 a -> u8 b -> mul a b = long_division (carryless_product a b).
Proof.
  intros Ha Hb. rewrite mul_product_spec by done. apply reduction_matches_long_division, carryless_u16.
Qed.

(** Bytes under exclusive or and [mul] form a field: [mul] is commutative, associative and
    distributive, 1 is neutral, and [inverse_nonzero] (a fixed chain of eleven multiplications)
    inverts every nonzero byte; all results are bytes. *)
Theorem mul_field_laws a b c :
  u8 a -> u8 b -> u8 c ->
  u8 (mul a b) /\ mul a b = mul b a /\ mul (mul a b) c = mul a (mul b c) /\
  mul a (Z.lxor b c) = Z.lxor (mul a b) (mul a c) /\ mul 1 a = a /\
  (a <> 0 -> u8 (inverse_nonzero a) /\ mul a (inverse_nonzero a) = 1).
Proof.
  intros Ha Hb Hc. split_and!.
  - by apply mul_u8.
  - by apply mul_comm.
  - by apply mul_assoc.
  - by apply (mul_additive_r a Ha).
  - by apply mul_1_l.
  - intros Hne. split; [by apply inverse_u8|by apply inverse_identity].
Qed.

(** * Witnesses *)

Lemma mul_is_reduced_product_witness : mul 87 131 = long_division (carryless_product 87 131) /\ mul 87 131 = 193.
Proof. split; [apply (mul_is_reduced_product 87 131); unfold uint; lia|reflexivity]. Defined.

Lemma mul_field_laws_witness : mul 83 (inverse_nonzero 83) = 1.
Proof.
  destruct (mul_field_laws 83 2 3) as (_ & _ & _ & _ & _ & H); [unfold uint; lia..|]. apply H. discriminate.
Defined.
