(* ===== verification/Field.v ===== *)
(** GF(2^8) as a field type with the [ring] tactic, and polynomials over it: root
    counting, existence and uniqueness of interpolation. *)
From stdpp Require Import base list.
From Stdlib Require Import ZArith Lia Ring Eqdep_dec.
From S2P Require Import Prelude Gf256.

Open Scope Z_scope.

(** * Field elements *)

Definition u8b (z : Z) : bool := (0 <=? z) && (z <? 256).

Record gf : Type := GF { gf_val : Z; gf_range : u8b gf_val = true }.

Lemma u8b_spec z : u8b z = true <-> u8 z.
Proof. unfold u8b, uint. rewrite andb_true_iff, Z.leb_le, Z.ltb_lt. change (2 ^ 8) with 256. done. Qed.

Lemma gf_u8 (x : gf) : u8 (gf_val x).
Proof. apply u8b_spec, gf_range. Qed.

Lemma gf_eq (x y : gf) : gf_val x = gf_val y -> x = y.
Proof.
  destruct x as [x Hx], y as [y Hy]; simpl. intros ->. f_equal. apply UIP_dec, bool_dec.
Qed.

#[export] Instance gf_eq_dec : EqDecision gf.
Proof.
  intros x y. destruct (decide (gf_val x = gf_val y)) as [E|E].
  - left. by apply gf_eq.
  - right. congruence.
Defined.

Lemma wrap_u8b z : u8b (wrap 8 z) = true.
Proof. apply u8b_spec, uint_wrap. lia. Qed.

(** A byte as a field element; total, by wrapping. *)
Definition to_gf (z : Z) : gf := GF (wrap 8 z) (wrap_u8b z).

Lemma to_gf_val z : u8 z -> gf_val (to_gf z) = z.
Proof. intros. simpl. by apply wrap_id. Qed.

Lemma to_gf_of (x : gf) : to_gf (gf_val x) = x.
Proof. apply gf_eq, to_gf_val, gf_u8. Qed.

Definition gf_0 : gf := to_gf 0.
Definition gf_1 : gf := to_gf 1.
Definition gf_add (x y : gf) : gf := to_gf (Z.lxor (gf_val x) (gf_val y)).
Definition gf_mul (x y : gf) : gf := to_gf (mul (gf_val x) (gf_val y)).
Definition gf_inv (x : gf) : gf := to_gf (inverse_nonzero (gf_val x)).

Declare Scope gf_scope.
Delimit Scope gf_scope with gf.
Bind Scope gf_scope with gf.
Notation "0" := gf_0 : gf_scope.
Notation "1" := gf_1 : gf_scope.
Notation "x + y" := (gf_add x y) : gf_scope.
Notation "x * y" := (gf_mul x y) : gf_scope.
(** Characteristic two: subtraction is addition, and negation is the identity. *)
Notation "x - y" := (gf_add x y) (only parsing) : gf_scope.

Lemma gf_add_val x y : gf_val (gf_add x y) = Z.lxor (gf_val x) (gf_val y).
Proof. apply to_gf_val, uint_lxor; [lia|apply gf_u8..]. Qed.

Lemma gf_mul_val x y : gf_val (gf_mul x y) = mul (gf_val x) (gf_val y).
Proof. apply to_gf_val, mul_u8, gf_u8. Qed.

Lemma gf_inv_val x : gf_val (gf_inv x) = inverse_nonzero (gf_val x).
Proof. apply to_gf_val, inverse_u8, gf_u8. Qed.

Lemma to_gf_lxor a b : u8 a -> u8 b -> to_gf (Z.lxor a b) = gf_add (to_gf a) (to_gf b).
Proof. intros. apply gf_eq. rewrite gf_add_val, !to_gf_val; auto with leelo. apply uint_lxor; done. Qed.

Lemma to_gf_mul a b : u8 a -> u8 b -> to_gf (mul a b) = gf_mul (to_gf a) (to_gf b).
Proof. intros. apply gf_eq. rewrite gf_mul_val, !to_gf_val; auto with leelo. Qed.

Lemma to_gf_inv a : u8 a -> to_gf (inverse_nonzero a) = gf_inv (to_gf a).
Proof. intros. apply gf_eq. rewrite gf_inv_val, !to_gf_val; auto using inverse_u8. Qed.

Lemma to_gf_inj a b : u8 a -> u8 b -> to_gf a = to_gf b -> a = b.
Proof. intros Ha Hb H. rewrite <- (to_gf_val a), <- (to_gf_val b), H; done. Qed.

Lemma gf_ring_theory : ring_theory gf_0 gf_1 gf_add gf_mul gf_add (fun x => x) (@eq gf).
Proof.
  constructor; intros; apply gf_eq; rewrite ?gf_mul_val, ?gf_add_val, ?gf_mul_val, ?gf_add_val.
  - apply Z.lxor_0_l.
  - apply Z.lxor_comm.
  - symmetry. apply Z.lxor_assoc.
  - apply mul_1_l, gf_u8.
  - apply mul_comm; apply gf_u8.
  - symmetry. apply mul_assoc; apply gf_u8.
  - apply (mul_additive_l (gf_val z)); apply gf_u8.
  - done.
  - apply Z.lxor_nilpotent.
Qed.

(** Coefficients of normal forms are booleans, so that [x + x] normalises to zero. *)
Definition gf_of_bool (b : bool) : gf := if b then gf_1 else gf_0.

Lemma gf_bool_morphism :
  ring_morph gf_0 gf_1 gf_add gf_mul gf_add (fun x => x) (@eq gf)
    false true xorb andb xorb (fun b => b) Bool.eqb gf_of_bool.
Proof.
  constructor; try done; try (intros [] []; apply gf_eq; reflexivity).
  intros [] []; simpl; done.
Qed.

Add Ring gf_ring : gf_ring_theory (morphism gf_bool_morphism).

Open Scope gf_scope.

Lemma gf_inv_r (x : gf) : x <> 0 -> x * gf_inv x = 1.
Proof.
  intros Hx. apply gf_eq. rewrite gf_mul_val, gf_inv_val. apply inverse_identity; [apply gf_u8|].
  intros H. apply Hx, gf_eq. done.
Qed.

Lemma gf_1_neq_0 : 1 <> 0.
Proof. intros H. apply (f_equal gf_val) in H. discriminate. Qed.

Lemma gf_add_self x : x + x = 0.
Proof. ring. Qed.

Lemma gf_add_0_eq x y : x + y = 0 -> x = y.
Proof. intros H. transitivity (x + y + y); [ring|]. rewrite H. ring. Qed.

Lemma gf_mul_eq_0 x y : x * y = 0 -> x = 0 \/ y = 0.
Proof.
  intros H. destruct (decide (x = 0)) as [|Hx]; [by left|right].
  transitivity (x * gf_inv x * y); [rewrite gf_inv_r by done; ring|].
  transitivity (gf_inv x * (x * y)); [ring|]. rewrite H. ring.
Qed.

(** * Polynomials as coefficient lists, lowest degree first *)

Fixpoint horner (cs : list gf) (x : gf) : gf :=
  match cs with
  | [] => 0
  | c :: rest => c + x * horner rest x
  end.

(** A function that some list of [n] coefficients evaluates to. *)
Definition is_poly (n : nat) (f : gf -> gf) : Prop :=
  exists cs, length cs = n /\ forall x, f x = horner cs x.

Lemma is_poly_horner cs : is_poly (length cs) (horner cs).
Proof. by exists cs. Qed.

Fixpoint poly_add (p q : list gf) : list gf :=
  match p, q with
  | a :: p', b :: q' => (a + b) :: poly_add p' q'
  | _, _ => []
  end.

Lemma poly_add_horner p q x :
  length p = length q -> horner (poly_add p q) x = horner p x + horner q x.
Proof.
  revert q. induction p as [|a p IH]; intros [|b q]; simpl; intros; try lia; [ring|].
  rewrite IH by lia. ring.
Qed.

Lemma poly_add_length p q : length p = length q -> length (poly_add p q) = length p.
Proof. revert q. induction p; intros []; simpl; intros; try lia. rewrite IHp; lia. Qed.

Lemma is_poly_0 n : is_poly n (fun _ => 0).
Proof.
  exists (replicate n 0). split; [apply length_replicate|].
  intros x. induction n; simpl; [done|]. rewrite <- IHn. ring.
Qed.

Lemma is_poly_add n f g : is_poly n f -> is_poly n g -> is_poly n (fun x => f x + g x).
Proof.
  intros (p & Hp & Ep) (q & Hq & Eq). exists (poly_add p q). split.
  - rewrite poly_add_length; lia.
  - intros x. rewrite poly_add_horner, Ep, Eq by lia. done.
Qed.

Lemma is_poly_scale n c f : is_poly n f -> is_poly n (fun x => c * f x).
Proof.
  intros (p & Hp & Ep). exists (map (gf_mul c) p). split; [by rewrite length_map|].
  intros x. rewrite Ep. clear Ep Hp. induction p as [|a p IH]; simpl; [ring|]. rewrite <- IH. ring.
Qed.

Lemma is_poly_shift n f : is_poly n f -> is_poly (S n) (fun x => x * f x).
Proof. intros (p & <- & Ep). exists (0 :: p). split; [done|]. intros x. simpl. rewrite Ep. ring. Qed.

Lemma is_poly_weaken n f : is_poly n f -> is_poly (S n) f.
Proof.
  intros (p & <- & Ep). exists (p ++ [0]). split; [rewrite length_app; simpl; lia|].
  intros x. rewrite Ep. clear Ep. induction p as [|a p IH]; simpl; [ring|]. rewrite <- IH. ring.
Qed.

Lemma is_poly_ext n f g : (forall x, f x = g x) -> is_poly n f -> is_poly n g.
Proof. intros H (p & ? & E). exists p. split; [done|]. intros x. by rewrite <- H. Qed.

Lemma is_poly_linear n c f : is_poly n f -> is_poly (S n) (fun x => (x + c) * f x).
Proof.
  intros H. apply (is_poly_ext _ (fun x => x * f x + c * f x)); [intros; ring|].
  apply is_poly_add; [by apply is_poly_shift|]. by apply is_poly_weaken, is_poly_scale.
Qed.

Lemma is_poly_const n c : is_poly (S n) (fun _ => c).
Proof.
  destruct (is_poly_0 n) as (p & Hp & E). exists (c :: p). split; [simpl; lia|].
  intros x. simpl. rewrite <- E. ring.
Qed.

(** Factor theorem: a root divides. *)
Lemma is_poly_factor n f r :
  is_poly (S n) f -> f r = 0 -> exists g, is_poly n g /\ forall x, f x = (x + r) * g x.
Proof.
  assert (forall cs n, length cs = S n -> exists g, is_poly n g /\
            forall x, horner cs x = (x + r) * g x + horner cs r) as Hdiv.
  { clear. induction cs as [|c cs IH]; intros n Hn; [discriminate|].
    destruct n as [|n]; simpl in Hn.
    - exists (fun _ => 0). split; [apply is_poly_0|]. intros x.
      destruct cs; [simpl; ring|discriminate].
    - destruct (IH n) as (g & Hg & E); [lia|].
      exists (fun x => x * g x + horner cs r). split.
      + apply is_poly_add; [by apply is_poly_shift|apply is_poly_const].
      + intros x. simpl. rewrite (E x). ring. }
  intros (cs & Hcs & E) Hr. destruct (Hdiv cs n Hcs) as (g & Hg & Eg).
  exists g. split; [done|]. intros x. rewrite E, Eg, <- E, Hr. ring.
Qed.

(** A polynomial of [n] coefficients with [n] distinct roots is zero everywhere. *)
Lemma is_poly_roots n f xs :
  is_poly n f -> NoDup xs -> length xs = n -> (forall x, x ∈ xs -> f x = 0) ->
  forall x, f x = 0.
Proof.
  revert f xs. induction n as [|n IH]; intros f xs Hf Hnd Hlen Hroots x.
  - destruct Hf as (cs & Hcs & E). rewrite E. by destruct cs.
  - destruct xs as [|r xs]; [discriminate|]. apply NoDup_cons in Hnd as [Hr Hnd].
    destruct (is_poly_factor n f r Hf) as (g & Hg & E); [apply Hroots; constructor|].
    rewrite E. rewrite (IH g xs Hg Hnd); [ring|simpl in Hlen; lia|].
    intros y Hy. assert (f y = 0) as Hy0 by (apply Hroots; by right).
    rewrite E in Hy0. apply gf_mul_eq_0 in Hy0 as [Hy0|]; [|done].
    apply gf_add_0_eq in Hy0 as ->. done.
Qed.

Lemma is_poly_unique n f g xs :
  is_poly n f -> is_poly n g -> NoDup xs -> length xs = n ->
  (forall x, x ∈ xs -> f x = g x) -> forall x, f x = g x.
Proof.
  intros Hf Hg Hnd Hlen Hagree x. apply gf_add_0_eq.
  apply (is_poly_roots n (fun x => f x + g x) xs); [by apply is_poly_add|done..|].
  intros y Hy. rewrite Hagree by done. apply gf_add_self.
Qed.
