(* ===== verification/Interpolation.v ===== *)
(** Bytewise polynomial evaluation and Lagrange interpolation of
    [leelo-sss/src/interpolation.rs], with the general [t]-of-[n] interpolation
    theorem over GF(2^8). *)
From stdpp Require Import base list.
From Stdlib Require Import ZArith Lia Ring.
From S2P Require Import Prelude Gf256 Field.

Open Scope Z_scope.

(** * Specifications of the source *)

Fixpoint polynomial_tail (coefficients : list Z) (x : Z) : Z :=
  match coefficients with
  | [] => 0
  | c :: rest => Z.lxor (product_spec (polynomial_tail rest x) x) c
  end.

Definition polynomial (secret : Z) (coefficients : list Z) (x : Z) : Z :=
  Z.lxor (product_spec (polynomial_tail coefficients x) x) secret.

Fixpoint numerator (indices : list Z) (target : Z) (selected n : nat) : Z :=
  match n with
  | O => 1
  | S n' =>
      if Nat.eqb n' selected then numerator indices target selected n'
      else product_spec (numerator indices target selected n') (Z.lxor target (nth n' indices 0))
  end.

Fixpoint denominator (indices : list Z) (selected n : nat) : Z :=
  match n with
  | O => 1
  | S n' =>
      if Nat.eqb n' selected then denominator indices selected n'
      else product_spec (denominator indices selected n')
             (Z.lxor (nth selected indices 0) (nth n' indices 0))
  end.

Definition weight (indices : list Z) (target : Z) (selected : nat) : Z :=
  product_spec (numerator indices target selected (length indices))
    (inverse_spec (denominator indices selected (length indices))).

Fixpoint weighted_prefix (values weights : list Z) (n : nat) : Z :=
  match n with
  | O => 0
  | S n' => Z.lxor (weighted_prefix values weights n')
              (product_spec (nth n' values 0) (nth n' weights 0))
  end.

(** * Executable functions *)

(** The loop of [evaluate]: [remaining] counts down over the coefficients. *)
Fixpoint evaluate_loop (coefficients : list Z) (x : Z) (remaining : nat) (value : Z) : Z :=
  match remaining with
  | O => value
  | S remaining' =>
      evaluate_loop coefficients x remaining'
        (Z.lxor (mul value x) (nth remaining' coefficients 0))
  end.

Definition evaluate (secret : Z) (coefficients : list Z) (x : Z) : Z :=
  Z.lxor (mul (evaluate_loop coefficients x (length coefficients) 0) x) secret.

(** The inner loop of [weights]: [(top, bottom)] after the positions [js]. *)
Definition weight_loop (indices : list Z) (target : Z) (i : nat) (js : list nat)
    (acc : Z * Z) : Z * Z :=
  fold_left (fun '(top, bottom) j =>
    if Nat.eqb i j then (top, bottom)
    else (mul top (Z.lxor target (nth j indices 0)),
          mul bottom (Z.lxor (nth i indices 0) (nth j indices 0)))) js acc.

Definition weights (indices : list Z) (target : Z) : list Z :=
  map (fun i =>
         let '(top, bottom) := weight_loop indices target i (seq 0 (length indices)) (1, 1) in
         mul top (inverse_nonzero bottom))
    (seq 0 (length indices)).

Definition weighted_sum (values weights : list Z) : Z :=
  fold_left (fun result i => Z.lxor result (mul (nth i values 0) (nth i weights 0)))
    (seq 0 (length values)) 0.

(** * The executable functions refine the specifications *)

Lemma product_spec_mul a b : u8 a -> u8 b -> product_spec a b = mul a b.
Proof. intros. symmetry. by apply mul_product_spec. Qed.

Lemma u8_nth l i : byte_slice l -> u8 (nth i l 0).
Proof.
  intros H. destruct (nth_in_or_default i l 0) as [Hin| ->].
  - rewrite Forall_forall in H. by apply H, list_elem_of_In.
  - unfold uint; lia.
Qed.

Lemma u8_0 : u8 0. Proof. unfold uint; lia. Qed.
Lemma u8_1 : u8 1. Proof. unfold uint; lia. Qed.

Lemma u8_lxor a b : u8 a -> u8 b -> u8 (Z.lxor a b).
Proof. by apply uint_lxor. Qed.
#[export] Hint Resolve u8_nth u8_0 u8_1 u8_lxor inverse_u8 : leelo.

(** * Transfer to the field *)

(** The selected-out product [prod_(j <> i) (t + x_j)], positions from [k]. *)
Fixpoint basis_product (k : nat) (xs : list gf) (t : gf) (i : nat) : gf :=
  match xs with
  | [] => 1%gf
  | x :: rest => ((if Nat.eqb k i then 1 else t + x) * basis_product (S k) rest t i)%gf
  end.

Definition gf_weight (xs : list gf) (t : gf) (i : nat) : gf :=
  (basis_product 0 xs t i * gf_inv (basis_product 0 xs (nth i xs 0) i))%gf.

Fixpoint gf_sum (l : list nat) (f : nat -> gf) : gf :=
  match l with
  | [] => 0%gf
  | i :: rest => (f i + gf_sum rest f)%gf
  end.

Open Scope gf_scope.

Lemma evaluate_gf s cs x :
  u8 s -> byte_slice cs -> u8 x ->
  u8 (evaluate s cs x) /\
  to_gf (evaluate s cs x) = horner (to_gf s :: map to_gf cs) (to_gf x).
Proof.
  intros Hs Hcs Hx.
  assert (forall post pre v, cs = pre ++ post -> u8 v ->
            to_gf v = horner (map to_gf post) (to_gf x) ->
            u8 (evaluate_loop cs x (length pre) v) /\
            to_gf (evaluate_loop cs x (length pre) v) = horner (map to_gf cs) (to_gf x)) as Hloop.
  { intros post pre. revert post. induction pre as [|c pre IH] using rev_ind; intros post v Ecs Hv Ev.
    - by rewrite Ecs.
    - rewrite length_app, Nat.add_comm. simpl.
      assert (nth (length pre) cs 0%Z = c) as ->.
      { rewrite Ecs, <- app_assoc, app_nth2, Nat.sub_diag by lia. done. }
      assert (u8 c) as Hc.
      { rewrite Ecs, <- app_assoc in Hcs. apply Forall_app in Hcs as [_ Hcs].
        by inversion Hcs. }
      apply (IH (c :: post)); [by rewrite Ecs, <- app_assoc|auto with leelo|].
      simpl. rewrite to_gf_lxor, to_gf_mul, Ev by auto with leelo. ring. }
  destruct (Hloop [] cs 0%Z) as [Hu E]; [by rewrite app_nil_r|apply u8_0|done|].
  unfold evaluate. split; [auto with leelo|].
  rewrite to_gf_lxor, to_gf_mul, E by auto with leelo. simpl. ring.
Qed.

Lemma weight_loop_gf indices t i js top bottom :
  byte_slice indices -> u8 t -> u8 top -> u8 bottom ->
  u8 (weight_loop indices t i js (top, bottom)).1 /\
  u8 (weight_loop indices t i js (top, bottom)).2 /\
  to_gf (weight_loop indices t i js (top, bottom)).1 =
    fold_left (fun acc j => if Nat.eqb i j then acc else acc * (to_gf t + to_gf (nth j indices 0%Z)))
      js (to_gf top) /\
  to_gf (weight_loop indices t i js (top, bottom)).2 =
    fold_left (fun acc j => if Nat.eqb i j then acc
                            else acc * (to_gf (nth i indices 0%Z) + to_gf (nth j indices 0%Z)))
      js (to_gf bottom).
Proof.
  intros Hidx Ht. revert top bottom. induction js as [|j js IH]; intros top bottom Htop Hbot; [done|].
  simpl. destruct (Nat.eqb i j); [by apply IH|].
  rewrite <- !to_gf_lxor, <- !to_gf_mul by auto with leelo.
  apply IH; auto with leelo.
Qed.

Lemma fold_basis xs t i k acc :
  fold_left (fun acc j => if Nat.eqb i j then acc else acc * (t + nth (j - k) xs 0))
    (seq k (length xs)) acc = acc * basis_product k xs t i.
Proof.
  revert k acc. induction xs as [|x xs IH]; intros k acc; simpl; [ring|].
  rewrite Nat.sub_diag.
  rewrite <- (fold_left_ext_in (fun acc j => if Nat.eqb i j then acc else acc * (t + nth (j - S k) xs 0))).
  - rewrite IH. rewrite (Nat.eqb_sym k i). destruct (Nat.eqb i k); ring.
  - intros a j Hj. apply list_elem_of_In, in_seq in Hj. destruct (Nat.eqb i j); [done|].
    replace (j - k)%nat with (S (j - S k)) by lia. done.
Qed.

Lemma nth_to_gf i l : nth i (map to_gf l) 0 = to_gf (nth i l 0%Z).
Proof. apply (map_nth to_gf l 0%Z i). Qed.

Lemma weights_gf indices t i :
  byte_slice indices -> u8 t -> (i < length indices)%nat ->
  u8 (nth i (weights indices t) 0%Z) /\
  to_gf (nth i (weights indices t) 0%Z) = gf_weight (map to_gf indices) (to_gf t) i.
Proof.
  intros Hidx Ht Hi. unfold weights.
  set (F := fun i => let '(top, bottom) := _ in _).
  rewrite (nth_indep _ 0%Z (F 0%nat)) by (rewrite length_map, length_seq; done).
  rewrite map_nth, seq_nth by done. rewrite Nat.add_0_l. subst F. cbv beta.
  destruct (weight_loop_gf indices t i (seq 0 (length indices)) 1 1) as (H1 & H2 & E1 & E2);
    auto with leelo.
  destruct (weight_loop indices t i (seq 0 (length indices)) (1%Z, 1%Z)) as [top bottom].
  simpl in *. split; [auto with leelo|].
  rewrite to_gf_mul, to_gf_inv by auto with leelo. unfold gf_weight.
  assert (forall s, fold_left (fun acc j => if Nat.eqb i j then acc
              else acc * (s + to_gf (nth j indices 0%Z))) (seq 0 (length indices)) (to_gf 1)
            = basis_product 0 (map to_gf indices) s i) as Hfold.
  { intros s. transitivity (1 * basis_product 0 (map to_gf indices) s i); [|ring].
    rewrite <- fold_basis, length_map. apply fold_left_ext_in. intros a j _.
    by rewrite Nat.sub_0_r, nth_to_gf. }
  by rewrite E1, E2, nth_to_gf, !Hfold.
Qed.

Lemma weights_length indices t : length (weights indices t) = length indices.
Proof. unfold weights. by rewrite length_map, length_seq. Qed.

Lemma weighted_sum_gf values ws :
  byte_slice values -> byte_slice ws ->
  u8 (weighted_sum values ws) /\
  to_gf (weighted_sum values ws) =
    gf_sum (seq 0 (length values)) (fun i => to_gf (nth i values 0%Z) * to_gf (nth i ws 0%Z)).
Proof.
  intros Hv Hw. unfold weighted_sum.
  assert (forall l acc, u8 acc ->
    let r := fold_left (fun result i => Z.lxor result (mul (nth i values 0%Z) (nth i ws 0%Z))) l acc in
    u8 r /\ to_gf r = to_gf acc + gf_sum l (fun i => to_gf (nth i values 0%Z) * to_gf (nth i ws 0%Z)))
    as H.
  { induction l as [|i l IH]; intros acc Hacc; simpl; [split; [done|ring]|].
    destruct (IH (Z.lxor acc (mul (nth i values 0%Z) (nth i ws 0%Z)))) as [Hu E];
      [auto with leelo|]. split; [done|].
    rewrite E, to_gf_lxor, to_gf_mul by auto with leelo. ring. }
  destruct (H (seq 0 (length values)) 0%Z u8_0) as [Hu E]. split; [done|].
  rewrite E. change (to_gf 0) with 0. ring.
Qed.

(** * Lagrange interpolation *)

Lemma basis_product_poly k xs i :
  is_poly (S (length xs)) (fun t => basis_product k xs t i) /\
  ((k <= i < k + length xs)%nat -> is_poly (length xs) (fun t => basis_product k xs t i)).
Proof.
  revert k. induction xs as [|x xs IH]; intros k; simpl.
  - split; [apply is_poly_const|lia].
  - destruct (IH (S k)) as [IH1 IH2]. destruct (Nat.eqb_spec k i) as [->|Hne].
    + assert (is_poly (S (length xs)) (fun t => 1 * basis_product (S i) xs t i)) as H
        by by apply is_poly_scale.
      split; [by apply is_poly_weaken|done].
    + assert (forall n f, is_poly n f -> is_poly (S n) (fun t => (t + x) * f t)) as Hl
        by (intros; by apply is_poly_linear).
      split; [by apply Hl|]. intros. apply Hl, IH2. lia.
Qed.

Lemma basis_product_root k xs i j :
  (j < length xs)%nat -> (k + j)%nat <> i -> basis_product k xs (nth j xs 0) i = 0.
Proof.
  revert k j. induction xs as [|x xs IH]; intros k j Hj Hne; simpl in *; [lia|].
  destruct j as [|j]; simpl.
  - rewrite Nat.add_0_r in Hne. apply Nat.eqb_neq in Hne as ->. rewrite gf_add_self. ring.
  - rewrite (IH (S k) j) by lia. ring.
Qed.

Lemma basis_product_nonzero k xs i t :
  (forall j, (j < length xs)%nat -> (k + j)%nat <> i -> nth j xs 0 <> t) ->
  basis_product k xs t i <> 0.
Proof.
  revert k. induction xs as [|x xs IH]; intros k H; simpl; [apply gf_1_neq_0|].
  intros [E|E]%gf_mul_eq_0.
  - destruct (Nat.eqb_spec k i) as [->|Hne]; [by apply gf_1_neq_0|].
    apply gf_add_0_eq in E. apply (H 0%nat); simpl; [lia|lia|done].
  - revert E. apply IH. intros j Hj Hne. apply (H (S j)); simpl; lia.
Qed.

Lemma gf_sum_poly n l (f : nat -> gf -> gf) :
  (forall i, i ∈ l -> is_poly n (f i)) -> is_poly n (fun t => gf_sum l (fun i => f i t)).
Proof.
  induction l as [|i l IH]; intros H; simpl; [apply is_poly_0|].
  apply is_poly_add; [apply H; constructor|]. apply IH. intros. apply H. by right.
Qed.

Lemma gf_sum_ext l f g : (forall i, i ∈ l -> f i = g i) -> gf_sum l f = gf_sum l g.
Proof.
  induction l as [|i l IH]; intros H; simpl; [done|].
  rewrite H by constructor. f_equal. apply IH. intros. apply H. by right.
Qed.

Lemma gf_sum_single l f k :
  NoDup l -> k ∈ l -> (forall i, i ∈ l -> i <> k -> f i = 0) -> gf_sum l f = f k.
Proof.
  induction l as [|i l IH]; intros Hnd Hk H; [by apply elem_of_nil in Hk|].
  apply NoDup_cons in Hnd as [Hi Hnd]. simpl. destruct (decide (i = k)) as [->|Hne].
  - rewrite (gf_sum_ext l f (fun _ => 0)).
    + assert (gf_sum l (fun _ => 0) = 0) as ->; [|ring].
      clear. induction l as [|? ? IH]; simpl; [done|]. rewrite IH. ring.
    + intros j Hj. apply H; [by right|]. by intros ->.
  - rewrite (H i), IH; [ring|done| |..|constructor|done].
    + apply elem_of_cons in Hk as [->|]; [congruence|done].
    + intros. apply H; [by right|done].
Qed.

(** The weighted sum of arbitrary values is a polynomial in the target that takes those
    values on the points. *)
Lemma interpolant (v : nat -> gf) xs :
  NoDup xs ->
  is_poly (length xs) (fun t => gf_sum (seq 0 (length xs)) (fun i => v i * gf_weight xs t i)) /\
  forall k, (k < length xs)%nat ->
    gf_sum (seq 0 (length xs)) (fun i => v i * gf_weight xs (nth k xs 0) i) = v k.
Proof.
  intros Hnd. split.
  - apply gf_sum_poly. intros i Hi. apply list_elem_of_In, in_seq in Hi.
    apply (is_poly_ext _ (fun t =>
      (v i * gf_inv (basis_product 0 xs (nth i xs 0) i)) * basis_product 0 xs t i)).
    { intros x. unfold gf_weight. ring. }
    apply is_poly_scale, basis_product_poly. lia.
  - intros k Hk. rewrite (gf_sum_single _ _ k).
    + unfold gf_weight. rewrite gf_inv_r; [ring|].
      apply basis_product_nonzero. intros j Hj Hne Heq. apply Hne. simpl.
      apply NoDup_ListNoDup in Hnd. eapply NoDup_nth; eauto.
    + apply NoDup_ListNoDup, seq_NoDup.
    + apply list_elem_of_In, in_seq. lia.
    + intros i Hi Hne. unfold gf_weight.
      rewrite basis_product_root by lia. ring.
Qed.

(** Lagrange: a polynomial of [length xs] coefficients is determined by its values on
    the distinct points [xs], by the weighted sum. *)
Lemma lagrange xs f t :
  NoDup xs -> is_poly (length xs) f ->
  gf_sum (seq 0 (length xs)) (fun i => f (nth i xs 0) * gf_weight xs t i) = f t.
Proof.
  intros Hnd Hf. revert t. destruct (interpolant (fun i => f (nth i xs 0)) xs Hnd) as [Hp Hn].
  apply (is_poly_unique (length xs) _ f xs); [done|done|done|done|].
  intros x Hx. apply list_elem_of_In in Hx. apply (In_nth _ _ 0) in Hx as (k & Hk & <-).
  by apply Hn.
Qed.

(** * Refinement of the source's recursive specifications *)

Lemma polynomial_tail_u8 cs x : byte_slice cs -> u8 x -> u8 (polynomial_tail cs x).
Proof.
  intros Hcs Hx. induction Hcs as [|c cs Hc Hcs IH]; simpl; [apply u8_0|].
  rewrite product_spec_mul by done. auto with leelo.
Qed.

Lemma evaluate_polynomial s cs x :
  u8 s -> byte_slice cs -> u8 x -> evaluate s cs x = polynomial s cs x.
Proof.
  intros Hs Hcs Hx. destruct (evaluate_gf s cs x) as [Hu E]; [done..|].
  pose proof (polynomial_tail_u8 cs x Hcs Hx) as Ht. unfold polynomial.
  rewrite product_spec_mul by done.
  apply to_gf_inj; [done|auto with leelo|]. rewrite E, to_gf_lxor, to_gf_mul by auto with leelo.
  simpl. assert (horner (map to_gf cs) (to_gf x) = to_gf (polynomial_tail cs x)) as ->; [|ring].
  clear Ht E Hu Hs. induction Hcs as [|c cs Hc Hcs IH]; simpl; [done|].
  pose proof (polynomial_tail_u8 cs x Hcs Hx).
  rewrite product_spec_mul, to_gf_lxor, to_gf_mul, IH by auto with leelo. ring.
Qed.

Lemma weight_loop_spec indices t i n :
  byte_slice indices -> u8 t ->
  u8 (numerator indices t i n) /\ u8 (denominator indices i n) /\
  weight_loop indices t i (seq 0 n) (1%Z, 1%Z) =
    (numerator indices t i n, denominator indices i n).
Proof.
  intros Hidx Ht. induction n as [|n (IH1 & IH2 & IH3)]; [simpl; auto with leelo|].
  rewrite seq_S. unfold weight_loop in *. rewrite fold_left_app, IH3. simpl.
  rewrite (Nat.eqb_sym i n). destruct (Nat.eqb n i); [done|].
  rewrite !product_spec_mul by auto with leelo. auto with leelo.
Qed.

Lemma product_spec_u8 a b : u8 a -> u8 b -> u8 (product_spec a b).
Proof. intros. rewrite product_spec_mul by done. by apply mul_u8. Qed.

Lemma inverse_spec_inverse a : u8 a -> inverse_spec a = inverse_nonzero a.
Proof.
  intros Ha. unfold inverse_spec, inverse_nonzero, inverse_chain. cbv zeta.
  rewrite (product_spec_mul a a) by done. set (a2 := mul a a).
  assert (u8 a2) by by apply mul_u8.
  do 6 (match goal with |- context [product_spec ?x ?x] =>
          let y := fresh "y" in
          rewrite (product_spec_mul x x) by done; set (y := mul x x);
          assert (u8 y) by by apply mul_u8 end).
  repeat (rewrite product_spec_mul by auto 20 using product_spec_u8, mul_u8). done.
Qed.

Lemma weights_weight indices t i :
  byte_slice indices -> u8 t -> (i < length indices)%nat ->
  nth i (weights indices t) 0%Z = weight indices t i.
Proof.
  intros Hidx Ht Hi. unfold weights, weight.
  set (F := fun i => let '(top, bottom) := _ in _).
  rewrite (nth_indep _ 0%Z (F 0%nat)) by (rewrite length_map, length_seq; done).
  rewrite map_nth, seq_nth by done. subst F. cbv beta. rewrite Nat.add_0_l.
  destruct (weight_loop_spec indices t i (length indices)) as (H1 & H2 & ->); [done..|].
  rewrite inverse_spec_inverse, product_spec_mul by auto with leelo. done.
Qed.

Lemma weighted_sum_prefix values ws :
  byte_slice values -> byte_slice ws ->
  weighted_sum values ws = weighted_prefix values ws (length values).
Proof.
  intros Hv Hw. unfold weighted_sum. generalize (length values) as n.
  induction n as [|n IH]; [done|].
  rewrite seq_S, fold_left_app, IH. simpl. by rewrite product_spec_mul by auto with leelo.
Qed.

(** * Coefficients are determined by the function *)

Lemma horner_app_zero cs n x : horner (cs ++ replicate n 0) x = horner cs x.
Proof.
  induction cs as [|c cs IH]; simpl; [|by rewrite IH].
  induction n as [|n IH]; simpl; [done|]. rewrite IH. ring.
Qed.

(** Distinct nonzero points: 255 of them, enough for every threshold of the source. *)
Definition nonzero_points : list gf := map (fun n => to_gf (Z.of_nat n)) (seq 1 255).

Lemma nonzero_points_spec : NoDup nonzero_points /\ forall x, x ∈ nonzero_points -> x <> 0.
Proof.
  unfold nonzero_points. split.
  - apply NoDup_fmap_2_strong; [|apply NoDup_ListNoDup, seq_NoDup].
    intros a b Ha Hb E. apply list_elem_of_In, in_seq in Ha. apply list_elem_of_In, in_seq in Hb.
    apply to_gf_inj in E; unfold uint; lia.
  - intros x Hx E. apply list_elem_of_In, in_map_iff in Hx as (n & <- & Hn).
    apply in_seq in Hn. apply to_gf_inj in E; unfold uint; lia.
Qed.

Lemma horner_zero_coefficients cs :
  (length cs <= 255)%nat -> (forall x, x <> 0 -> horner cs x = 0) -> cs = replicate (length cs) 0.
Proof.
  induction cs as [|c cs IH]; intros Hlen Hz; [done|]. simpl in *.
  destruct nonzero_points_spec as [Hnd Hnz].
  assert (forall x, horner (c :: cs) x = 0) as Hall.
  { pose proof (is_poly_horner (c :: cs)) as Hp.
    apply (is_poly_roots _ _ (take (length (c :: cs)) nonzero_points) Hp).
    - eapply sublist_NoDup; [done|apply sublist_take].
    - rewrite length_take. unfold nonzero_points. rewrite length_map, length_seq. simpl. lia.
    - intros x Hx. apply Hz, Hnz. by eapply subseteq_take. }
  assert (c = 0) as ->. { specialize (Hall 0). simpl in Hall. rewrite <- Hall. ring. }
  f_equal. apply IH; [lia|]. intros x Hx. specialize (Hall x). simpl in Hall.
  destruct (gf_mul_eq_0 x (horner cs x)) as [|]; [|congruence|done].
  rewrite <- Hall. ring.
Qed.

Lemma horner_inj cs ds :
  length cs = length ds -> (length cs <= 255)%nat ->
  (forall x, horner cs x = horner ds x) -> cs = ds.
Proof.
  intros Hlen Hmax Heq.
  assert (poly_add cs ds = replicate (length (poly_add cs ds)) 0) as Hz.
  { apply horner_zero_coefficients; [rewrite poly_add_length; lia|].
    intros x _. rewrite poly_add_horner, Heq by done. apply gf_add_self. }
  rewrite poly_add_length in Hz by done. clear Heq Hmax. revert ds Hlen Hz.
  induction cs as [|c cs IH]; intros [|d ds] Hlen Hz; try done.
  assert (c + d = 0) as E by exact (f_equal (hd 0) Hz).
  apply (f_equal (@tail gf)) in Hz. f_equal; [by apply gf_add_0_eq|].
  apply IH; [simpl in Hlen; lia|done].
Qed.

(** * Interpolation at the byte level *)

Lemma map_to_gf_of (cs : list gf) : map to_gf (map gf_val cs) = cs.
Proof. rewrite map_map. rewrite <- (map_id cs) at 2. apply map_ext. apply to_gf_of. Qed.

Lemma gf_val_slice (cs : list gf) : byte_slice (map gf_val cs).
Proof. apply Forall_map, Forall_true. intros x. apply gf_u8. Qed.

Lemma map_to_gf_inj l k : byte_slice l -> byte_slice k -> map to_gf l = map to_gf k -> l = k.
Proof.
  intros Hl. revert k. induction Hl as [|a l Ha Hl IH]; intros [|b k] Hk E; try done.
  inversion Hk; subst. pose proof (f_equal (hd 0) E) as E1. apply (f_equal (@tail gf)) in E.
  f_equal; [by apply to_gf_inj|by apply IH].
Qed.

Lemma NoDup_to_gf (xs : list Z) : byte_slice xs -> NoDup xs -> NoDup (map to_gf xs).
Proof.
  intros Hx Hnd. apply NoDup_fmap_2_strong; [|done].
  intros a b Ha Hb E. rewrite Forall_forall in Hx. apply to_gf_inj; auto.
Qed.

(** Through [n] points with distinct coordinates passes a polynomial with [n] coefficients,
    and [evaluate] of its constant term and its tail gives the points. *)
Lemma interpolating_bytes xs (v : nat -> Z) :
  byte_slice xs -> NoDup xs -> xs <> [] -> (forall i, (i < length xs)%nat -> u8 (v i)) ->
  exists s cs, u8 s /\ byte_array (length xs - 1) cs /\
    forall i, (i < length xs)%nat -> evaluate s cs (nth i xs 0%Z) = v i.
Proof.
  intros Hx Hnd Hne Hv. pose proof (NoDup_to_gf xs Hx Hnd) as Hnd'.
  destruct (interpolant (fun i => to_gf (v i)) (map to_gf xs) Hnd') as [(cs & Hlen & Hcs) Hpts].
  rewrite length_map in *. destruct cs as [|c cs]; [destruct xs; done|]. simpl in Hlen.
  exists (gf_val c), (map gf_val cs). split; [apply gf_u8|].
  split; [split; [rewrite length_map; lia|apply gf_val_slice]|].
  intros i Hi.
  destruct (evaluate_gf (gf_val c) (map gf_val cs) (nth i xs 0%Z)) as [Hu E];
    [apply gf_u8|apply gf_val_slice|by apply u8_nth|].
  apply to_gf_inj; [done|by apply Hv|]. rewrite E, to_gf_of, map_to_gf_of.
  rewrite <- nth_to_gf, <- Hcs. by apply Hpts.
Qed.

(** [length xs] values of a polynomial with that many coefficients determine them. *)
Lemma evaluate_determined s s' cs cs' xs :
  u8 s -> u8 s' -> byte_slice cs -> byte_slice cs' -> length cs = length cs' ->
  byte_slice xs -> NoDup xs -> length xs = S (length cs) -> (length cs < 255)%nat ->
  (forall x, x ∈ xs -> evaluate s cs x = evaluate s' cs' x) -> s = s' /\ cs = cs'.
Proof.
  intros Hs Hs' Hcs Hcs' Hlen Hx Hnd Hxl Hmax Heq.
  assert (to_gf s :: map to_gf cs = to_gf s' :: map to_gf cs') as E.
  { pose proof (NoDup_to_gf xs Hx Hnd) as Hnd'.
    apply horner_inj; [simpl; rewrite !length_map; lia|simpl; rewrite length_map; lia|].
    apply (is_poly_unique (S (length cs)) _ _ (map to_gf xs)); [| |done|by rewrite length_map|].
    - exists (to_gf s :: map to_gf cs). split; [simpl; rewrite length_map; lia|done].
    - exists (to_gf s' :: map to_gf cs'). split; [simpl; rewrite length_map; lia|done].
    - intros x Hin. apply list_elem_of_In, in_map_iff in Hin as (y & <- & Hin).
      apply list_elem_of_In in Hin. rewrite Forall_forall in Hx.
      destruct (evaluate_gf s cs y) as [_ E1]; [done|done|by apply Hx|].
      destruct (evaluate_gf s' cs' y) as [_ E2]; [done|done|by apply Hx|].
      rewrite <- E1, <- E2, Heq; done. }
  pose proof (f_equal (hd 0) E) as E1. apply (f_equal (@tail gf)) in E.
  split; [by apply to_gf_inj|by apply map_to_gf_inj].
Qed.

(** * Properties *)

(** The loops of the interpolation refine their recursive specifications: Horner evaluation is
    the polynomial, each entry of [weights] is the Lagrange weight of its coordinate and
    [weighted_sum] is the ghost prefix sum, all stated over the polynomial product. *)
Theorem loops_refine_specs s cs x xs t i values ws :
  u8 s -> byte_slice cs -> u8 x -> byte_slice xs -> u8 t -> (i < length xs)%nat ->
  byte_slice values -> byte_slice ws ->
  evaluate s cs x = polynomial s cs x /\ nth i (weights xs t) 0%Z = weight xs t i /\
  weighted_sum values ws = weighted_prefix values ws (length values).
Proof.
  intros. split_and!; [by apply evaluate_polynomial|by apply weights_weight|by apply weighted_sum_prefix].
Qed.

Lemma loops_refine_specs_witness :
  evaluate 7 [1; 2; 3]%Z 5 = polynomial 7 [1; 2; 3]%Z 5 /\
  nth 1 (weights [1; 2; 3]%Z 0) 0%Z = weight [1; 2; 3]%Z 0 1 /\
  weighted_sum [9; 8; 7]%Z [1; 2; 3]%Z = weighted_prefix [9; 8; 7]%Z [1; 2; 3]%Z 3.
Proof.
  apply (loops_refine_specs 7 [1; 2; 3]%Z 5 [1; 2; 3]%Z 0 1 [9; 8; 7]%Z [1; 2; 3]%Z);
    first [decided | unfold uint; lia | simpl; lia].
Defined.
