(* ===== verification/Sss.v ===== *)
(** Shamir sharing of 32-byte secrets, [leelo-sss/src/lib.rs]: [split] and
    [reconstruct] with their validation, general [t]-of-[n] recovery and perfect
    secrecy of fewer than [t] shares. *)
From stdpp Require Import base list.
From Stdlib Require Import ZArith Lia Ring.
From S2P Require Import Prelude Gf256 Field Interpolation.

Open Scope Z_scope.

(** * Randomness

    [CryptoRng + RngCore]: the generator is code outside the repository, so its state
    and its fallible [try_fill_bytes] are a parameter. *)
Class Rng (R : Type) := try_fill_bytes : R -> nat -> option (list Z) * R.

(** A generator that succeeds fills exactly the requested bytes. *)
Class RngSound (R : Type) `{Rng R} := try_fill_bytes_sound :
  forall r n bs r', try_fill_bytes r n = (Some bs, r') -> byte_array n bs.

(** A generator that replays a tape of answers: one list per request. *)
Definition tape : Type := list (list Z).

#[export] Instance tape_rng : Rng tape := fun t n =>
  match t with
  | bs :: rest => (if decide (byte_array n bs) then Some bs else None, rest)
  | [] => (None, [])
  end.

#[export] Instance tape_rng_sound : RngSound tape.
Proof.
  intros [|b t] n bs r' H; [discriminate|]. unfold try_fill_bytes, tape_rng in H.
  case_decide; congruence.
Qed.

(** * Data *)

Definition SECRET_LEN : nat := 32.
Definition MAX_SHARES : Z := 31.

Record Share : Type := mk_share { index : Z; value : list Z }.

Inductive Error : Type :=
| InvalidThreshold (threshold : Z)
| InvalidShareCount (count : nat)
| InsufficientShares (required : Z) (provided : nat)
| ZeroIndex
| DuplicateIndex (index : Z)
| EntropyUnavailable
| InconsistentShares.

#[export] Instance Share_eq_dec : EqDecision Share.
Proof. solve_decision. Defined.
#[export] Instance Error_eq_dec : EqDecision Error.
Proof. solve_decision. Defined.

Definition from_parts (index : Z) (value : list Z) : result Error Share :=
  if Z.eqb index 0 then Err ZeroIndex else Ok (mk_share index value).

Definition validate_threshold (threshold : Z) : result Error unit :=
  if Z.eqb threshold 0 || (MAX_SHARES <? threshold) then Err (InvalidThreshold threshold)
  else Ok tt.

(** * Splitting *)

Definition blank_shares (count : Z) : list Share :=
  map (fun index => mk_share (Z.of_nat index) (replicate SECRET_LEN 0)) (seq 1 (Z.to_nat count)).

Definition store_byte (byte : nat) (secret_byte : Z) (coefficients : list Z) (share : Share) : Share :=
  mk_share (index share)
    (<[byte := evaluate secret_byte coefficients (index share)]> (value share)).

(** The loop over the secret bytes, one request for [degree] coefficients per byte. *)
Fixpoint split_loop {R} `{Rng R} (degree : nat) (secret : list Z) (byte : nat)
    (shares : list Share) (rng : R) : result Error (list Share) * R :=
  match secret with
  | [] => (Ok shares, rng)
  | secret_byte :: rest =>
      match try_fill_bytes rng degree with
      | (None, rng') => (Err EntropyUnavailable, rng')
      | (Some coefficients, rng') =>
          split_loop degree rest (S byte) (map (store_byte byte secret_byte coefficients) shares) rng'
      end
  end.

Definition split {R} `{Rng R} (secret : list Z) (threshold count : Z) (rng : R)
    : result Error (list Share) * R :=
  match validate_threshold threshold with
  | Err e => (Err e, rng)
  | Ok _ =>
      if Z.eqb count 0 || (MAX_SHARES <? count) then (Err (InvalidShareCount (Z.to_nat count)), rng)
      else if count <? threshold then (Err (InsufficientShares threshold (Z.to_nat count)), rng)
      else split_loop (Z.to_nat (threshold - 1)) secret 0 (blank_shares count) rng
  end.

(** * Reconstruction *)

Definition share_weights (shares : list Share) (target : Z) : list Z :=
  weights (map index shares) target.

Definition interpolate (shares : list Share) (target : Z) : list Z :=
  let coefficients := share_weights shares target in
  map (fun byte => weighted_sum (map (fun share => nth byte (value share) 0) shares) coefficients)
    (seq 0 SECRET_LEN).

(** The validation loop: coordinates are nonzero and new, in order. *)
Fixpoint check_coordinates (seen : list Z) (shares : list Share) : result Error unit :=
  match shares with
  | [] => Ok tt
  | share :: rest =>
      if Z.eqb (index share) 0 then Err ZeroIndex
      else if existsb (Z.eqb (index share)) seen then Err (DuplicateIndex (index share))
      else check_coordinates (seen ++ [index share]) rest
  end.

Definition share_disagreement (expected : list Z) (share : Share) (disagreement : Z) : Z :=
  fold_left (fun d byte => Z.lor d (Z.lxor (nth byte expected 0) (nth byte (value share) 0)))
    (seq 0 SECRET_LEN) disagreement.

Definition reconstruct (threshold : Z) (shares : list Share) : result Error (list Z) :=
  _ ← validate_threshold threshold;
  if (Z.to_nat MAX_SHARES <? length shares)%nat then Err (InvalidShareCount (length shares))
  else if (length shares <? Z.to_nat threshold)%nat
  then Err (InsufficientShares threshold (length shares))
  else
    _ ← check_coordinates [] shares;
    let basis := take (Z.to_nat threshold) shares in
    let disagreement :=
      fold_left (fun d share => share_disagreement (interpolate basis (index share)) share d)
        (drop (Z.to_nat threshold) shares) 0 in
    if Z.eqb disagreement 0 then Ok (interpolate basis 0) else Err InconsistentShares.

#[global] Arguments share_disagreement : simpl never.
#[global] Arguments interpolate : simpl never.

(** * Specification *)

(** A share whose fields have their Rust types. *)
Definition share_ok (share : Share) : Prop :=
  u8 (index share) /\ byte_array SECRET_LEN (value share).

(** Coordinates the library accepts: nonzero and pairwise distinct. *)
Definition coordinates_ok (shares : list Share) : Prop :=
  Forall (fun share => index share <> 0) shares /\ NoDup (map index shares).

(** Bytewise coefficients of the sharing polynomials: [threshold - 1] per secret byte. *)
Definition coefficients_ok (threshold : Z) (coefficients : list (list Z)) : Prop :=
  length coefficients = SECRET_LEN /\
  Forall (byte_array (Z.to_nat (threshold - 1))) coefficients.

(** The sharing polynomials at one coordinate. *)
Definition points_at (secret : list Z) (coefficients : list (list Z)) (x : Z) : list Z :=
  zip_with (fun s cs => evaluate s cs x) secret coefficients.

Definition share_at (secret : list Z) (coefficients : list (list Z)) (x : Z) : Share :=
  mk_share x (points_at secret coefficients x).

(** * Split *)

(** The answers of successive successful requests for [degree] bytes. *)
Inductive fills {R} `{Rng R} (degree : nat) : R -> list (list Z) -> R -> Prop :=
| fills_nil r : fills degree r [] r
| fills_cons r cs r1 rest r' :
    try_fill_bytes r degree = (Some cs, r1) -> fills degree r1 rest r' ->
    fills degree r (cs :: rest) r'.

Lemma fills_tape degree (t : tape) rest t' : fills degree t rest t' -> t = rest ++ t'.
Proof.
  induction 1 as [|[|bs t] cs r1 rest r' Hf _ IH]; [done|discriminate|].
  unfold try_fill_bytes, tape_rng in Hf. case_decide; [|discriminate].
  injection Hf as <- <-. simpl. by rewrite <- IH.
Qed.

Lemma split_loop_spec {R} `{RngSound R} degree :
  forall secret prefix coefs shares (rng : R) out rng',
  (forall share, share ∈ shares -> length (value share) = (length prefix + length secret)%nat /\
     take (length prefix) (value share) = points_at prefix coefs (index share)) ->
  length coefs = length prefix ->
  split_loop degree secret (length prefix) shares rng = (Ok out, rng') ->
  exists rest, fills degree rng rest rng' /\
    length rest = length secret /\ Forall (byte_array degree) rest /\
    out = map (fun share => share_at (prefix ++ secret) (coefs ++ rest) (index share)) shares.
Proof.
  induction secret as [|s secret IH]; intros prefix coefs shares rng out rng' Hinv Hlen Hrun.
  - injection Hrun as <- <-. exists []. split; [constructor|]. split; [done|]. split; [constructor|].
    rewrite !app_nil_r. rewrite <- (map_id shares) at 1. apply map_ext_in.
    intros share Hin. apply list_elem_of_In in Hin. destruct (Hinv share Hin) as [Hl Ht].
    unfold share_at. rewrite <- Ht, take_ge by (simpl in Hl; lia). by destruct share.
  - simpl in Hrun. destruct (try_fill_bytes rng degree) as [[cs|] rng1] eqn:Efill; [|discriminate].
    pose proof (try_fill_bytes_sound _ _ _ _ Efill) as Hcs.
    replace (S (length prefix)) with (length (prefix ++ [s])) in Hrun by (rewrite length_app; simpl; lia).
    apply (IH (prefix ++ [s]) (coefs ++ [cs])) in Hrun as (rest & Hf & Hrl & Hrok & ->).
    + exists (cs :: rest). split; [by econstructor|]. split; [simpl; lia|]. split; [by constructor|].
      rewrite map_map. apply map_ext. intros share. unfold share_at, store_byte. simpl.
      by rewrite <- !app_assoc.
    + intros share Hin. apply list_elem_of_In, in_map_iff in Hin as (share0 & <- & Hin).
      apply list_elem_of_In in Hin. destruct (Hinv share0 Hin) as [Hl Ht]. simpl in *.
      rewrite length_insert, length_app. simpl. split; [lia|].
      rewrite Nat.add_1_r.
      rewrite (take_S_r _ _ (evaluate s cs (index share0)))
        by (apply list_lookup_insert_eq; lia).
      rewrite take_insert_ge by lia. rewrite Ht. unfold points_at.
      by rewrite zip_with_app by done.
    + rewrite !length_app. simpl. lia.
Qed.

Lemma split_Ok {R} `{RngSound R} secret threshold count (rng : R) shares rng' :
  byte_array SECRET_LEN secret -> u8 threshold -> u8 count ->
  split secret threshold count rng = (Ok shares, rng') ->
  1 <= threshold <= count /\ count <= MAX_SHARES /\
  exists coefs, fills (Z.to_nat (threshold - 1)) rng coefs rng' /\ coefficients_ok threshold coefs /\
    shares = map (fun i => share_at secret coefs (Z.of_nat i)) (seq 1 (Z.to_nat count)).
Proof.
  intros [Hlen Hbytes] Ht Hc Hrun. unfold split, validate_threshold in Hrun.
  destruct (Z.eqb_spec threshold 0) as [|Ht0]; [discriminate|].
  destruct (Z.ltb_spec MAX_SHARES threshold) as [|Htm]; [discriminate|]. simpl in Hrun.
  destruct (Z.eqb_spec count 0) as [|Hc0]; [discriminate|].
  destruct (Z.ltb_spec MAX_SHARES count) as [|Hcm]; [discriminate|]. simpl in Hrun.
  destruct (Z.ltb_spec count threshold) as [|Htc]; [discriminate|].
  unfold uint in *. split; [lia|]. split; [done|].
  apply (split_loop_spec _ secret [] []) in Hrun as (coefs & Hf & Hl & Hok & ->).
  - exists coefs. split; [done|]. split; [split; [congruence|done]|].
    unfold blank_shares. rewrite map_map. done.
  - intros share Hin. apply list_elem_of_In, in_map_iff in Hin as (i & <- & _). simpl.
    split; [|done]. by rewrite Hlen.
  - done.
Qed.

Lemma split_loop_Err {R} `{Rng R} degree :
  forall secret byte shares (rng : R) e rng',
  split_loop degree secret byte shares rng = (Err e, rng') ->
  e = EntropyUnavailable /\ exists prefix r, fills degree rng prefix r /\
    (length prefix < length secret)%nat /\ try_fill_bytes r degree = (None, rng').
Proof.
  induction secret as [|s secret IH]; intros byte shares rng e rng' Hrun; simpl in Hrun; [done|].
  destruct (try_fill_bytes rng degree) as [[cs|] rng1] eqn:Efill.
  - apply IH in Hrun as (-> & prefix & r & Hf & Hl & Hn). split; [done|].
    exists (cs :: prefix), r. split; [by econstructor|]. split; [simpl; lia|done].
  - injection Hrun as <- <-. split; [done|]. exists [], rng. split; [constructor|].
    split; [simpl; lia|done].
Qed.

(** * Interpolation of shares *)

Lemma points_at_0 secret coefs :
  byte_slice secret -> Forall (fun cs => byte_slice cs) coefs -> length coefs = length secret ->
  points_at secret coefs 0 = secret.
Proof.
  unfold points_at. intros Hs. revert coefs.
  induction Hs as [|s secret Hs Hss IH]; intros [|cs coefs] Hcs Hlen; simpl in *; try done.
  inversion Hcs; subst. rewrite IH by (done || lia). f_equal.
  destruct (evaluate_gf s cs 0) as [Hu E]; [done|done|apply u8_0|].
  apply to_gf_inj; [done|done|]. rewrite E. simpl.
  change (to_gf 0) with gf_0. ring.
Qed.

Lemma points_at_ok secret coefs x :
  byte_slice secret -> Forall (fun cs => byte_slice cs) coefs -> length coefs = length secret -> u8 x ->
  byte_array (length secret) (points_at secret coefs x).
Proof.
  unfold points_at. intros Hs Hcs Hlen Hx. split; [rewrite length_zip_with; lia|].
  revert coefs Hcs Hlen. induction Hs as [|s secret Hs Hss IH]; intros [|cs coefs] Hcs Hlen;
    simpl in *; try constructor.
  - inversion Hcs; subst. by apply evaluate_gf.
  - inversion Hcs; subst. apply IH; [done|lia].
Qed.

Lemma nth_points_at secret coefs x byte :
  length coefs = length secret -> (byte < length secret)%nat ->
  nth byte (points_at secret coefs x) 0 = evaluate (nth byte secret 0) (nth byte coefs []) x.
Proof.
  unfold points_at. revert coefs byte.
  induction secret as [|s secret IH]; intros [|cs coefs] byte Hlen Hb; simpl in *; try lia.
  destruct byte; [done|]. apply IH; lia.
Qed.

(** One byte position: the weighted sum of [n] values of a polynomial with [n]
    coefficients is the polynomial at the target. *)
Lemma weighted_sum_lagrange xs ys f t :
  byte_slice xs -> byte_slice ys -> u8 t -> NoDup xs -> length ys = length xs ->
  is_poly (length xs) f ->
  (forall i, (i < length xs)%nat -> to_gf (nth i ys 0) = f (to_gf (nth i xs 0))) ->
  u8 (weighted_sum ys (weights xs t)) /\ to_gf (weighted_sum ys (weights xs t)) = f (to_gf t).
Proof.
  intros Hx Hy Ht Hnd Hlen Hf Hpts.
  assert (byte_slice (weights xs t)) as Hw.
  { apply Forall_forall. intros w Hw. apply list_elem_of_In in Hw.
    apply (In_nth _ _ 0) in Hw as (i & Hi & <-). rewrite weights_length in Hi.
    by apply weights_gf. }
  destruct (weighted_sum_gf ys (weights xs t)) as [Hu E]; [done..|]. split; [done|].
  rewrite E, Hlen. rewrite <- (lagrange (map to_gf xs) f (to_gf t)).
  - rewrite length_map. apply gf_sum_ext. intros i Hi. apply list_elem_of_In, in_seq in Hi.
    rewrite Hpts, nth_to_gf by lia. f_equal. apply weights_gf; [done|done|lia].
  - by apply NoDup_to_gf.
  - by rewrite length_map.
Qed.

Lemma nth_map_share {A} (f : Share -> A) shares i d :
  (i < length shares)%nat -> exists share, share ∈ shares /\
  nth i (map f shares) d = f share /\ nth i (map index shares) 0 = index share.
Proof.
  intros Hi. set (d0 := mk_share 0 []). exists (nth i shares d0). split; [|split].
  - apply list_elem_of_In, nth_In. done.
  - rewrite (nth_indep _ d (f d0)) by by rewrite length_map. apply map_nth.
  - apply (map_nth index shares d0 i).
Qed.

Lemma list_ext_nth (l k : list Z) n :
  length l = n -> length k = n -> (forall i, (i < n)%nat -> nth i l 0 = nth i k 0) -> l = k.
Proof. intros Hl Hk H. apply (nth_ext l k 0 0); [congruence|]. intros i Hi. apply H. lia. Qed.

Lemma interpolate_length shares t : length (interpolate shares t) = SECRET_LEN.
Proof. unfold interpolate. by rewrite length_map, length_seq. Qed.

Lemma nth_interpolate shares t byte :
  (byte < SECRET_LEN)%nat ->
  nth byte (interpolate shares t) 0 =
    weighted_sum (map (fun share => nth byte (value share) 0) shares) (weights (map index shares) t).
Proof.
  intros Hb. unfold interpolate, share_weights.
  set (F := fun byte => weighted_sum _ _).
  rewrite (nth_indep _ 0 (F 0%nat)) by (rewrite length_map, length_seq; done).
  rewrite map_nth, seq_nth by done. done.
Qed.

Lemma shares_slices shares :
  Forall share_ok shares -> byte_slice (map index shares) /\
  forall byte, byte_slice (map (fun share => nth byte (value share) 0) shares).
Proof.
  intros H. split; [|intros byte]; apply Forall_map; eapply Forall_impl; try done;
    intros sh [? [? ?]]; [done|by apply u8_nth].
Qed.

(** Interpolating any [threshold] shares of a sharing gives the sharing polynomials at the
    target. *)
Lemma interpolate_sharing threshold secret coefs basis t :
  1 <= threshold -> byte_array SECRET_LEN secret -> coefficients_ok threshold coefs ->
  length basis = Z.to_nat threshold -> NoDup (map index basis) ->
  Forall share_ok basis -> (forall share, share ∈ basis -> value share = points_at secret coefs (index share)) ->
  u8 t -> interpolate basis t = points_at secret coefs t.
Proof.
  intros Ht1 [Hsl Hs] [Hcl Hc] Hbl Hnd Hok Hon Ht.
  assert (Forall (fun cs => byte_slice cs) coefs) as Hcs
    by (eapply Forall_impl; [exact Hc|by intros cs [? ?]]).
  destruct (shares_slices basis Hok) as [Hx Hy].
  apply (list_ext_nth _ _ SECRET_LEN); [apply interpolate_length| |].
  { rewrite <- Hsl. apply points_at_ok; try done. congruence. }
  intros byte Hb. rewrite nth_interpolate by done.
  rewrite nth_points_at by congruence.
  assert (byte_array (Z.to_nat (threshold - 1)) (nth byte coefs [])) as [Hbl2 Hbs].
  { rewrite Forall_forall in Hc. apply Hc, list_elem_of_In, nth_In. congruence. }
  destruct (evaluate_gf (nth byte secret 0) (nth byte coefs []) t) as [Hu E];
    [by apply u8_nth|done..|].
  set (cs := to_gf (nth byte secret 0) :: map to_gf (nth byte coefs [])) in *.
  destruct (weighted_sum_lagrange (map index basis)
              (map (fun share => nth byte (value share) 0) basis) (horner cs) t) as [Hu2 E2];
    try done.
  - by rewrite !length_map.
  - rewrite length_map, Hbl. replace (Z.to_nat threshold) with (length cs); [apply is_poly_horner|].
    subst cs. simpl. rewrite length_map, Hbl2. lia.
  - intros i Hi. rewrite length_map in Hi.
    destruct (nth_map_share (fun share => nth byte (value share) 0) basis i 0 Hi)
      as (share & Hin & -> & ->).
    rewrite Forall_forall in Hok. destruct (Hok share Hin) as [Hi8 _].
    rewrite Hon, nth_points_at by (done || congruence). apply evaluate_gf; [by apply u8_nth|done..].
  - apply to_gf_inj; [done..|]. by rewrite E2, E.
Qed.

(** * Reconstruct *)

Lemma check_coordinates_Ok seen shares :
  check_coordinates seen shares = Ok tt <->
  Forall (fun share => index share <> 0 /\ index share ∉ seen) shares /\ NoDup (map index shares).
Proof.
  revert seen. induction shares as [|share shares IH]; intros seen; simpl.
  - split; [intros; split; constructor|done].
  - rewrite Forall_cons, NoDup_cons.
    destruct (Z.eqb_spec (index share) 0) as [E|Hne]; [split; [done|tauto]|].
    destruct (existsb (Z.eqb (index share)) seen) eqn:Es.
    + apply existsb_exists in Es as (x & Hx & ->%Z.eqb_eq). apply list_elem_of_In in Hx.
      split; [done|tauto].
    + assert (index share ∉ seen) as Hns.
      { intros Hin. apply list_elem_of_In in Hin. apply not_true_iff_false in Es. apply Es.
        apply existsb_exists. exists (index share). split; [done|apply Z.eqb_refl]. }
      rewrite IH. rewrite !Forall_forall. setoid_rewrite not_elem_of_app.
      split.
      * intros [H1 H2]. split; [split; [by split|intros sh Hsh; apply H1 in Hsh; tauto]|].
        split; [|done].
        intros Hin. apply list_elem_of_In, in_map_iff in Hin as (sh & E & Hsh).
        apply list_elem_of_In in Hsh. destruct (H1 _ Hsh) as [_ [_ Hn]]. apply Hn.
        rewrite E. constructor.
      * intros [[_ H1] [Hn H2]]. split; [|done]. intros sh Hsh.
        destruct (H1 _ Hsh) as [Ha Hb]. split; [done|]. split; [done|].
        intros Hin. apply Hn. rewrite list_elem_of_singleton in Hin. rewrite <- Hin.
        apply list_elem_of_In, in_map_iff. exists sh. split; [done|]. by apply list_elem_of_In.
Qed.

Lemma lor_eq_0_nonneg a b : Z.lor a b = 0 <-> a = 0 /\ b = 0.
Proof. apply Z.lor_eq_0_iff. Qed.

Lemma share_disagreement_0 expected share d :
  length expected = SECRET_LEN -> length (value share) = SECRET_LEN ->
  share_disagreement expected share d = 0 <-> d = 0 /\ expected = value share.
Proof.
  intros He Hv. unfold share_disagreement.
  assert (forall l d, fold_left (fun d byte =>
      Z.lor d (Z.lxor (nth byte expected 0) (nth byte (value share) 0))) l d = 0 <->
      d = 0 /\ forall i, i ∈ l -> nth i expected 0 = nth i (value share) 0) as H.
  { clear. induction l as [|i l IH]; intros d; simpl.
    - split; [intros ->; split; [done|]; intros i Hi; by apply elem_of_nil in Hi|by intros [-> _]].
    - rewrite IH, lor_eq_0_nonneg, Z.lxor_eq_0_iff. setoid_rewrite elem_of_cons.
      clear. firstorder congruence. }
  rewrite H. split; intros [-> Heq]; (split; [done|]).
  - apply (list_ext_nth _ _ SECRET_LEN); [done..|]. intros i Hi. apply Heq.
    apply list_elem_of_In, in_seq. lia.
  - by rewrite Heq.
Qed.

Lemma fold_left_nil {A B} (f : A -> B -> A) a : fold_left f [] a = a.
Proof. done. Qed.

Lemma fold_left_cons {A B} (f : A -> B -> A) b l a : fold_left f (b :: l) a = fold_left f l (f a b).
Proof. done. Qed.

Lemma fold_disagreement (expected : Share -> list Z) surplus d :
  (forall share, length (expected share) = SECRET_LEN) -> Forall share_ok surplus ->
  fold_left (fun d share => share_disagreement (expected share) share d) surplus d = 0
  <-> d = 0 /\ forall share, share ∈ surplus -> expected share = value share.
Proof.
  intros He Hok. revert d. induction Hok as [|share surplus [_ [Hl _]] _ IH]; intros d.
  - rewrite fold_left_nil. split; [intros ->; split; [done|]; intros i Hi; by apply elem_of_nil in Hi|by intros [-> _]].
  - rewrite fold_left_cons, IH, (share_disagreement_0 _ _ _ (He share) Hl). split.
    + intros [[-> E] Hs]. split; [done|]. intros sh [->|Hsh]%elem_of_cons; [done|by apply Hs].
    + intros [-> Hs]. split; [split; [done|]|]; [apply Hs; constructor|].
      intros sh Hsh. apply Hs. by constructor.
Qed.

Lemma disagreement_0 basis surplus d :
  Forall share_ok surplus ->
  fold_left (fun d share => share_disagreement (interpolate basis (index share)) share d) surplus d = 0
  <-> d = 0 /\ forall share, share ∈ surplus -> interpolate basis (index share) = value share.
Proof.
  exact (fold_disagreement (fun share => interpolate basis (index share)) surplus d
    (fun share => interpolate_length basis (index share))).
Qed.

Lemma coordinates_checked shares : check_coordinates [] shares = Ok tt <-> coordinates_ok shares.
Proof.
  rewrite check_coordinates_Ok. unfold coordinates_ok. rewrite !Forall_forall.
  split; intros [H1 H2]; (split; [|done]); intros sh Hsh; apply H1 in Hsh; [tauto|].
  split; [done|]. apply not_elem_of_nil.
Qed.

(** The returned value is the interpolation at zero of the first [threshold] shares, and
    it is returned exactly when every validation passes and every surplus share agrees. *)
Lemma reconstruct_Ok threshold shares s :
  Forall share_ok shares -> u8 threshold ->
  reconstruct threshold shares = Ok s <->
  1 <= threshold <= MAX_SHARES /\ Z.of_nat (length shares) <= MAX_SHARES /\
  threshold <= Z.of_nat (length shares) /\ coordinates_ok shares /\
  (forall share, share ∈ drop (Z.to_nat threshold) shares ->
     interpolate (take (Z.to_nat threshold) shares) (index share) = value share) /\
  s = interpolate (take (Z.to_nat threshold) shares) 0.
Proof.
  intros Hok Ht. unfold reconstruct, validate_threshold.
  destruct (Z.eqb_spec threshold 0) as [->|Ht0]; simpl; [split; [done|lia]|].
  destruct (Z.ltb_spec MAX_SHARES threshold) as [|Htm]; simpl; [split; [done|lia]|].
  destruct (Nat.ltb_spec (Z.to_nat MAX_SHARES) (length shares)) as [|Hm];
    [split; [done|unfold MAX_SHARES in *; lia]|].
  destruct (Nat.ltb_spec (length shares) (Z.to_nat threshold)) as [|Htl]; [split; [done|lia]|].
  rewrite <- coordinates_checked.
  destruct (check_coordinates [] shares) as [[]|]; simpl; [|split; [done|naive_solver]].
  destruct (Z.eqb_spec (fold_left (fun d share => share_disagreement
      (interpolate (take (Z.to_nat threshold) shares) (index share)) share d)
      (drop (Z.to_nat threshold) shares) 0) 0) as [Hd|Hd].
  - apply disagreement_0 in Hd as [_ Hd]; [|by apply Forall_drop].
    unfold uint, MAX_SHARES in *. split; [intros [= <-]|intros (_ & _ & _ & _ & _ & ->); done].
    repeat split; try done; lia.
  - split; [done|]. intros (_ & _ & _ & _ & Hs & _). exfalso. apply Hd.
    apply disagreement_0; [by apply Forall_drop|done].
Qed.

(** Completeness: enough shares of one sharing reconstruct its secret, whatever their
    order and number. *)
Lemma reconstruct_sharing threshold secret coefs shares :
  1 <= threshold <= MAX_SHARES -> byte_array SECRET_LEN secret -> coefficients_ok threshold coefs ->
  threshold <= Z.of_nat (length shares) <= MAX_SHARES ->
  Forall share_ok shares -> coordinates_ok shares ->
  (forall share, share ∈ shares -> value share = points_at secret coefs (index share)) ->
  reconstruct threshold shares = Ok secret.
Proof.
  intros Ht Hs Hc Hlen Hok [Hnz Hnd] Hon.
  assert (forall t, u8 t -> interpolate (take (Z.to_nat threshold) shares) t = points_at secret coefs t)
    as Hint.
  { intros t Ht8. apply (interpolate_sharing threshold); try done; [lia| | | |].
    - rewrite length_take. lia.
    - rewrite <- firstn_map. eapply sublist_NoDup; [exact Hnd|apply sublist_take].
    - by apply Forall_take.
    - intros share Hin. apply Hon. by eapply subseteq_take. }
  apply reconstruct_Ok; [done|unfold uint, MAX_SHARES in *; lia|].
  repeat split; try done; try lia.
  - intros share Hin. assert (share ∈ shares) as Hin' by by eapply subseteq_drop.
    rewrite Hint, Hon; [done|done|]. rewrite Forall_forall in Hok. by apply Hok.
  - rewrite Hint by apply u8_0. destruct Hs as [Hsl Hs], Hc as [Hcl Hc].
    symmetry. apply points_at_0; [done| |congruence].
    eapply Forall_impl; [exact Hc|by intros cs [? ?]].
Qed.

(** * Soundness of reconstruction *)

Lemma finite_choice {A} (P : nat -> A -> Prop) (d : A) n :
  (forall i, (i < n)%nat -> exists a, P i a) ->
  exists l, length l = n /\ forall i, (i < n)%nat -> P i (nth i l d).
Proof.
  induction n as [|n IH]; intros H; [exists []; split; [done|lia]|].
  destruct IH as (l & Hl & IH); [intros; apply H; lia|]. destruct (H n) as [a Ha]; [lia|].
  exists (l ++ [a]). split; [rewrite length_app; simpl; lia|]. intros i Hi.
  destruct (decide (i = n)) as [->|Hne].
  - by rewrite app_nth2, Hl, Nat.sub_diag by lia.
  - rewrite app_nth1 by lia. apply IH. lia.
Qed.

Lemma Forall_nth_intro {A} (P : A -> Prop) (l : list A) d :
  (forall i, (i < length l)%nat -> P (nth i l d)) -> Forall P l.
Proof.
  intros H. apply Forall_forall. intros x Hx. apply list_elem_of_In, (In_nth _ _ d) in Hx as (i & Hi & <-).
  by apply H.
Qed.

(** Any [threshold] shares with distinct coordinates lie on one sharing. *)
Lemma sharing_through threshold basis :
  1 <= threshold -> length basis = Z.to_nat threshold -> NoDup (map index basis) ->
  Forall share_ok basis ->
  exists secret coefs, byte_array SECRET_LEN secret /\ coefficients_ok threshold coefs /\
    forall share, share ∈ basis -> value share = points_at secret coefs (index share).
Proof.
  intros Ht Hlen Hnd Hok. destruct (shares_slices basis Hok) as [Hx Hy].
  destruct (finite_choice (fun byte '(s, cs) => u8 s /\ byte_array (Z.to_nat (threshold - 1)) cs /\
      forall i, (i < length basis)%nat -> evaluate s cs (nth i (map index basis) 0) =
        nth i (map (fun share => nth byte (value share) 0) basis) 0) (0, []) SECRET_LEN)
    as (l & Hl & Hpts).
  { intros byte Hb.
    destruct (interpolating_bytes (map index basis)
      (fun i => nth i (map (fun share => nth byte (value share) 0) basis) 0)) as (s & cs & Hs & Hcs & Hev);
      [done|done| |intros; by apply u8_nth|].
    - destruct basis; [simpl in Hlen; lia|done].
    - exists (s, cs). rewrite length_map in *.
      replace (Z.to_nat (threshold - 1)) with (length basis - 1)%nat by lia. done. }
  exists (map fst l), (map snd l).
  assert (forall i, (i < SECRET_LEN)%nat -> u8 (nth i (map fst l) 0) /\
     byte_array (Z.to_nat (threshold - 1)) (nth i (map snd l) []) /\
     forall share, share ∈ basis ->
       evaluate (nth i (map fst l) 0) (nth i (map snd l) []) (index share) = nth i (value share) 0) as Hall.
  { intros i Hi. specialize (Hpts i Hi).
    pose proof (map_nth fst l (0, []) i) as E1. pose proof (map_nth snd l (0, []) i) as E2.
    simpl in E1, E2. rewrite E1, E2. clear E1 E2. destruct (nth i l (0, [])) as [s cs]. cbn [fst snd].
    destruct Hpts as (H1 & H2 & H3).
    split; [done|]. split; [done|]. intros share Hin. apply list_elem_of_In in Hin.
    apply (In_nth _ _ (mk_share 0 [])) in Hin as (k & Hk & <-). specialize (H3 k Hk).
    rewrite (map_nth index basis (mk_share 0 [])) in H3. rewrite H3.
    set (d := mk_share 0 []). rewrite <- (map_nth (fun share => nth i (value share) 0) basis d).
    apply nth_indep. by rewrite length_map. }
  split; [|split].
  - split; [by rewrite length_map|]. apply (Forall_nth_intro _ _ 0). rewrite length_map, Hl.
    intros i Hi. by apply Hall.
  - split; [by rewrite length_map|]. apply (Forall_nth_intro _ _ []). rewrite length_map, Hl.
    intros i Hi. by apply Hall.
  - intros share Hin. rewrite Forall_forall in Hok. destruct (Hok share Hin) as [_ [Hv _]].
    apply (list_ext_nth _ _ SECRET_LEN); [done| |].
    + unfold points_at. rewrite length_zip_with, !length_map. lia.
    + intros i Hi. rewrite nth_points_at by (rewrite !length_map; lia). symmetry. by apply Hall.
Qed.

Definition on_sharing (threshold : Z) (secret : list Z) (shares : list Share) : Prop :=
  byte_array SECRET_LEN secret /\ exists coefs, coefficients_ok threshold coefs /\
    forall share, share ∈ shares -> value share = points_at secret coefs (index share).

Lemma reconstruct_iff threshold shares secret :
  Forall share_ok shares -> u8 threshold ->
  reconstruct threshold shares = Ok secret <->
  1 <= threshold <= MAX_SHARES /\ threshold <= Z.of_nat (length shares) <= MAX_SHARES /\
  coordinates_ok shares /\ on_sharing threshold secret shares.
Proof.
  intros Hok Ht. split.
  - intros H. apply reconstruct_Ok in H as (H1 & H2 & H3 & H4 & Hsur & ->); [|done..].
    split; [done|]. split; [lia|]. split; [done|].
    set (basis := take (Z.to_nat threshold) shares) in *.
    assert (NoDup (map index basis)) as Hnd.
    { unfold basis. rewrite <- firstn_map. eapply sublist_NoDup; [apply H4|apply sublist_take]. }
    assert (length basis = Z.to_nat threshold) as Hbl by (unfold basis; rewrite length_take; lia).
    assert (Forall share_ok basis) as Hbok by by apply Forall_take.
    destruct (sharing_through threshold basis) as (secret & coefs & Hs & Hc & Hon); [lia|done..|].
    assert (forall t, u8 t -> interpolate basis t = points_at secret coefs t) as Hint.
    { intros t Ht8. apply (interpolate_sharing threshold); try done. lia. }
    assert (interpolate basis 0 = secret) as ->.
    { rewrite Hint by apply u8_0. destruct Hs as [Hsl Hs], Hc as [Hcl Hc].
      apply points_at_0; [done| |congruence]. eapply Forall_impl; [exact Hc|by intros cs [? ?]]. }
    split; [done|]. exists coefs. split; [done|]. intros share Hin.
    rewrite <- (take_drop (Z.to_nat threshold) shares), elem_of_app in Hin.
    destruct Hin as [Hin|Hin]; [by apply Hon|]. rewrite <- Hsur by done. apply Hint.
    rewrite Forall_forall in Hok. apply Hok. by eapply subseteq_drop.
  - intros (H1 & H2 & H3 & Hs & coefs & Hc & Hon). by apply (reconstruct_sharing _ _ coefs).
Qed.

(** * Splitting with a given tape of coefficients *)

Lemma split_loop_tape degree :
  forall secret (coefs : tape) prefix shares,
  length coefs = length secret -> Forall (byte_array degree) coefs ->
  exists out, split_loop degree secret prefix shares coefs = (Ok out, []).
Proof.
  induction secret as [|s secret IH]; intros [|cs coefs] prefix shares Hlen Hok; try discriminate.
  - eexists; done.
  - inversion Hok; subst. simpl. unfold try_fill_bytes, tape_rng.
    rewrite decide_True by done. apply IH; [by injection Hlen|done].
Qed.

Lemma split_tape secret threshold count coefs :
  byte_array SECRET_LEN secret -> 1 <= threshold <= count -> count <= MAX_SHARES ->
  coefficients_ok threshold coefs ->
  split secret threshold count (coefs : tape) =
    (Ok (map (fun i => share_at secret coefs (Z.of_nat i)) (seq 1 (Z.to_nat count))), []).
Proof.
  intros Hs Ht Hc [Hcl Hcok]. unfold MAX_SHARES in Hc.
  assert (exists out, split secret threshold count (coefs : tape) = (Ok out, [])) as [out Hout].
  { unfold split, validate_threshold, MAX_SHARES.
    destruct (Z.eqb_spec threshold 0) as [|_]; [lia|].
    destruct (Z.ltb_spec 31 threshold) as [|_]; [lia|]. simpl.
    destruct (Z.eqb_spec count 0) as [|_]; [lia|].
    destruct (Z.ltb_spec 31 count) as [|_]; [lia|]. simpl.
    destruct (Z.ltb_spec count threshold) as [|_]; [lia|].
    apply split_loop_tape; [by destruct Hs; congruence|done]. }
  apply split_Ok in Hout as Hok; [|done|unfold uint; lia..].
  destruct Hok as (_ & _ & coefs' & Hf & _ & Eout). apply fills_tape in Hf.
  rewrite app_nil_r in Hf. rewrite Hf in Hout |- *. by rewrite Hout, Eout.
Qed.

(** * Secrecy *)

Lemma evaluate_0 s cs : u8 s -> byte_slice cs -> evaluate s cs 0 = s.
Proof.
  intros Hs Hcs. destruct (evaluate_gf s cs 0) as [Hu E]; [done|done|apply u8_0|].
  apply to_gf_inj; [done|done|]. rewrite E. simpl. change (to_gf 0) with gf_0. ring.
Qed.

Lemma secrecy_byte s cs s' observed :
  u8 s -> byte_slice cs -> u8 s' -> byte_slice observed -> 0 ∉ observed -> NoDup observed ->
  length observed = length cs -> (length cs < 255)%nat ->
  exists cs', byte_array (length cs) cs' /\
    (forall x, x ∈ observed -> evaluate s' cs' x = evaluate s cs x) /\
    forall cs'', byte_array (length cs) cs'' ->
      (forall x, x ∈ observed -> evaluate s' cs'' x = evaluate s cs x) -> cs'' = cs'.
Proof.
  intros Hs Hcs Hs' Hobs H0 Hnd Hlen Hmax.
  assert (byte_slice (0 :: observed)) as Hx by (constructor; [apply u8_0|done]).
  assert (NoDup (0 :: observed)) as Hnd0 by by constructor.
  destruct (interpolating_bytes (0 :: observed)
    (fun i => match i with O => s' | S i => evaluate s cs (nth i observed 0) end))
    as (s0 & cs' & Hs0 & [Hl Hcs'] & Hpts); [done|done|done| |].
  { intros [|i] _; [done|]. apply evaluate_gf; [done|done|by apply u8_nth]. }
  simpl in Hl. rewrite Nat.sub_0_r in Hl.
  assert (s0 = s') as ->.
  { rewrite <- (evaluate_0 s0 cs') by done. apply (Hpts 0%nat). simpl. lia. }
  assert (forall x, x ∈ observed -> evaluate s' cs' x = evaluate s cs x) as Hobs'.
  { intros x Hin. apply list_elem_of_In, (In_nth _ _ 0) in Hin as (i & Hi & <-).
    apply (Hpts (S i)). simpl. lia. }
  exists cs'. split; [split; [lia|done]|]. split; [done|]. intros cs'' [Hl2 Hcs2] Heq.
  apply (evaluate_determined s' s' cs'' cs' (0 :: observed)); try done; try lia; [simpl; lia|].
  intros x [->|Hin]%elem_of_cons; [by rewrite !evaluate_0|]. by rewrite Heq, Hobs'.
Qed.

Lemma points_at_agree secret coefs secret' coefs' x :
  length secret = SECRET_LEN -> length coefs = SECRET_LEN ->
  length secret' = SECRET_LEN -> length coefs' = SECRET_LEN ->
  points_at secret coefs x = points_at secret' coefs' x <->
  forall byte, (byte < SECRET_LEN)%nat ->
    evaluate (nth byte secret 0) (nth byte coefs []) x =
    evaluate (nth byte secret' 0) (nth byte coefs' []) x.
Proof.
  intros H1 H2 H3 H4. split.
  - intros E byte Hb. rewrite <- !nth_points_at by congruence. by rewrite E.
  - intros E. apply (list_ext_nth _ _ SECRET_LEN).
    + unfold points_at. rewrite length_zip_with. lia.
    + unfold points_at. rewrite length_zip_with. lia.
    + intros byte Hb. rewrite !nth_points_at by congruence. by apply E.
Qed.

Lemma coefficients_ok_nth threshold coefs byte :
  coefficients_ok threshold coefs -> (byte < SECRET_LEN)%nat ->
  byte_array (Z.to_nat (threshold - 1)) (nth byte coefs []).
Proof.
  intros [Hl Hc] Hb. rewrite Forall_forall in Hc. apply Hc, list_elem_of_In, nth_In. congruence.
Qed.

(** For each secret exactly one choice of coefficients explains [threshold - 1] points. *)
Lemma secrecy_coefficients threshold secret coefs secret' observed :
  1 <= threshold <= MAX_SHARES ->
  byte_array SECRET_LEN secret -> coefficients_ok threshold coefs -> byte_array SECRET_LEN secret' ->
  byte_slice observed -> 0 ∉ observed -> NoDup observed ->
  length observed = Z.to_nat (threshold - 1) ->
  exists coefs', (coefficients_ok threshold coefs' /\
      forall x, x ∈ observed -> points_at secret' coefs' x = points_at secret coefs x) /\
    forall coefs'', coefficients_ok threshold coefs'' ->
      (forall x, x ∈ observed -> points_at secret' coefs'' x = points_at secret coefs x) ->
      coefs'' = coefs'.
Proof.
  intros Ht [Hsl Hs] Hc [Hsl' Hs'] Hobs H0 Hnd Hlen. unfold MAX_SHARES in Ht.
  destruct (finite_choice (fun byte cs' =>
      byte_array (Z.to_nat (threshold - 1)) cs' /\
      (forall x, x ∈ observed -> evaluate (nth byte secret' 0) cs' x =
         evaluate (nth byte secret 0) (nth byte coefs []) x) /\
      forall cs'', byte_array (Z.to_nat (threshold - 1)) cs'' ->
        (forall x, x ∈ observed -> evaluate (nth byte secret' 0) cs'' x =
           evaluate (nth byte secret 0) (nth byte coefs []) x) -> cs'' = cs') [] SECRET_LEN)
    as (coefs' & Hl & Hall).
  { intros byte Hb. destruct (coefficients_ok_nth _ _ byte Hc Hb) as [Hcl Hcs].
    rewrite <- Hcl. apply secrecy_byte; try done; try (by apply u8_nth); lia. }
  assert (coefficients_ok threshold coefs') as Hc'.
  { split; [done|]. apply (Forall_nth_intro _ _ []). rewrite Hl. intros i Hi. by apply Hall. }
  exists coefs'. split; [split; [done|]|].
  - intros x Hin. apply points_at_agree; try done; [by destruct Hc|].
    intros byte Hb. by apply Hall.
  - intros coefs'' Hc'' Heq. apply (nth_ext _ _ [] []); [destruct Hc''; congruence|].
    destruct Hc'' as [Hl'' Hc2]. rewrite Hl''. intros byte Hb. apply Hall; [done| |].
    + by apply coefficients_ok_nth.
    + intros x Hin. specialize (Heq x Hin). destruct Hc as [Hcl _].
      rewrite (points_at_agree _ _ _ _ x Hsl' Hl'' Hsl Hcl) in Heq. by apply Heq.
Qed.

(** * Properties *)

(** What the holders of the coordinates [observed] learn from a split. *)
Definition view (observed : list Z) (outcome : result Error (list Share) * tape) : option (list Share) :=
  match outcome.1 with
  | Ok shares => Some (filter (fun share => index share ∈ observed) shares)
  | Err _ => None
  end.

Lemma view_split observed secret threshold count coefs :
  byte_array SECRET_LEN secret -> 1 <= threshold <= count -> count <= MAX_SHARES ->
  coefficients_ok threshold coefs ->
  view observed (split secret threshold count (coefs : tape)) =
  Some (map (fun i => share_at secret coefs (Z.of_nat i))
         (filter (fun i => Z.of_nat i ∈ observed) (seq 1 (Z.to_nat count)))).
Proof.
  intros. rewrite split_tape by done. unfold view. cbn [fst]. f_equal.
  generalize (seq 1 (Z.to_nat count)) as l. induction l as [|i l IH]; [done|].
  simpl map. rewrite !filter_cons. simpl index.
  destruct (decide (Z.of_nat i ∈ observed)); simpl; by rewrite IH.
Qed.

Lemma coordinate_in (observed : list Z) (count x : Z) :
  (forall x, x ∈ observed -> 1 <= x <= count) -> x ∈ observed ->
  exists i, Z.of_nat i = x /\ i ∈ filter (fun i => Z.of_nat i ∈ observed) (seq 1 (Z.to_nat count)).
Proof.
  intros H Hx. specialize (H x Hx). exists (Z.to_nat x). split; [lia|].
  apply list_elem_of_filter. rewrite Z2Nat.id by lia. split; [done|].
  apply list_elem_of_In, in_seq. lia.
Qed.

Lemma view_agree observed secret threshold count coefs secret' coefs' :
  byte_array SECRET_LEN secret -> byte_array SECRET_LEN secret' ->
  1 <= threshold <= count -> count <= MAX_SHARES ->
  coefficients_ok threshold coefs -> coefficients_ok threshold coefs' ->
  (forall x, x ∈ observed -> 1 <= x <= count) ->
  view observed (split secret' threshold count (coefs' : tape)) =
    view observed (split secret threshold count (coefs : tape)) <->
  forall x, x ∈ observed -> points_at secret' coefs' x = points_at secret coefs x.
Proof.
  intros Hs Hs' Ht Hm Hc Hc' Hobs. rewrite !view_split by done. split.
  - intros [= E] x Hx. destruct (coordinate_in observed count x Hobs Hx) as (i & <- & Hi).
    apply list_elem_of_In in Hi. rewrite map_ext_in_iff in E. specialize (E i Hi). by injection E.
  - intros E. f_equal. apply map_ext_in. intros i Hi. apply list_elem_of_In, list_elem_of_filter in Hi.
    unfold share_at. by rewrite E by apply Hi.
Qed.

Lemma split_reconstruct {R} `{RngSound R} secret threshold count (rng : R) shares rng' subset :
  byte_array SECRET_LEN secret -> u8 threshold -> u8 count ->
  split secret threshold count rng = (Ok shares, rng') ->
  subset ⊆ shares -> NoDup subset -> threshold <= Z.of_nat (length subset) ->
  reconstruct threshold subset = Ok secret.
Proof.
  intros Hs Ht Hc Hrun Hsub Hnd Hlen.
  apply split_Ok in Hrun as (H1 & H2 & coefs & _ & Hcok & ->); [|done..].
  set (all := map _ _) in Hsub. unfold MAX_SHARES in *.
  assert (forall share, share ∈ subset ->
    share = share_at secret coefs (index share) /\ 1 <= index share <= count) as Hin.
  { intros share Hsh. apply Hsub, list_elem_of_In, in_map_iff in Hsh as (i & <- & Hi).
    apply in_seq in Hi. split; [done|simpl; lia]. }
  apply (reconstruct_sharing _ _ coefs); try done; unfold MAX_SHARES; [lia|..].
  - split; [done|]. apply (NoDup_submseteq subset all Hnd), submseteq_length in Hsub.
    unfold all in Hsub. rewrite length_map, length_seq in Hsub. lia.
  - apply Forall_forall. intros share Hsh. destruct (Hin share Hsh) as [-> Hi]. simpl in Hi.
    split; [unfold uint; simpl; lia|]. destruct Hs as [Hsl Hs], Hcok as [Hcl Hcok]. simpl.
    rewrite <- Hsl at 1. apply points_at_ok; [done| |congruence|unfold uint; lia].
    eapply Forall_impl; [exact Hcok|by intros cs [? ?]].
  - split.
    + apply Forall_forall. intros share Hsh. apply Hin in Hsh. lia.
    + apply NoDup_fmap_2_strong; [|done]. intros a b Ha Hb E.
      destruct (Hin a Ha) as [-> _], (Hin b Hb) as [-> _]. by rewrite E.
  - intros share Hsh. by destruct (Hin share Hsh) as [-> _].
Qed.

(** C16: any subset of at least [threshold] distinct shares produced by a successful [split],
    in any order, makes [reconstruct] return the secret that was split; this holds for every
    32-byte secret, every threshold and count the library accepts and every generator that
    fills what it is asked for. *)
Theorem threshold_recovery {R} `{RngSound R} secret threshold count (rng : R) shares rng' subset :
  byte_array SECRET_LEN secret -> u8 threshold -> u8 count ->
  split secret threshold count rng = (Ok shares, rng') ->
  subset ⊆ shares -> NoDup subset -> threshold <= Z.of_nat (length subset) ->
  reconstruct threshold subset = Ok secret.
Proof. apply split_reconstruct. Qed.

(** [reconstruct] returns a secret exactly when the counts are in bounds, the coordinates
    are nonzero and distinct, and one polynomial of [threshold] coefficients per byte, with
    that secret as constant terms, passes through every supplied share. *)
Theorem reconstruct_characterised threshold shares secret :
  Forall share_ok shares -> u8 threshold ->
  reconstruct threshold shares = Ok secret <->
  1 <= threshold <= MAX_SHARES /\ threshold <= Z.of_nat (length shares) <= MAX_SHARES /\
  coordinates_ok shares /\ on_sharing threshold secret shares.
Proof. apply reconstruct_iff. Qed.

(** C17: perfect secrecy. Whatever the [threshold - 1] coordinates observed, every secret
    [secret'] explains the observed shares with exactly one assignment of the random
    coefficients: the view of uniformly random coefficients is independent of the secret. *)
Theorem split_secrecy secret secret' threshold count coefs observed :
  byte_array SECRET_LEN secret -> byte_array SECRET_LEN secret' ->
  1 <= threshold <= count -> count <= MAX_SHARES -> coefficients_ok threshold coefs ->
  (forall x, x ∈ observed -> 1 <= x <= count) -> NoDup observed ->
  length observed = Z.to_nat (threshold - 1) ->
  exists! coefs', coefficients_ok threshold coefs' /\
    view observed (split secret' threshold count (coefs' : tape)) =
    view observed (split secret threshold count (coefs : tape)).
Proof.
  intros Hs Hs' Ht Hm Hc Hobs Hnd Hlen.
  destruct (secrecy_coefficients threshold secret coefs secret' observed)
    as (coefs' & [Hc' Heq] & Huniq); try done.
  - lia.
  - apply Forall_forall. intros x Hx. apply Hobs in Hx. unfold uint, MAX_SHARES in *. lia.
  - intros H0. apply Hobs in H0. lia.
  - exists coefs'. split; [split; [done|]; by apply view_agree|].
    intros coefs'' [Hc'' Hv]. symmetry. apply Huniq; [done|]. by eapply view_agree.
Qed.

(** [split] rejects, in this order and without consuming randomness, a threshold outside
    [1, 31], a count outside [1, 31] and a count below the threshold; a generator failure on any
    byte is [EntropyUnavailable]; otherwise it returns [count] well-formed shares with the
    coordinates [1 .. count]. *)
Theorem split_branches {R} `{RngSound R} secret threshold count (rng : R) :
  byte_array SECRET_LEN secret -> u8 threshold -> u8 count ->
  match split secret threshold count rng with
  | (Err (InvalidThreshold t), rng') => t = threshold /\ rng' = rng /\ ~ 1 <= threshold <= 31
  | (Err (InvalidShareCount n), rng') =>
      Z.of_nat n = count /\ rng' = rng /\ 1 <= threshold <= 31 /\ ~ 1 <= count <= 31
  | (Err (InsufficientShares r n), rng') =>
      r = threshold /\ Z.of_nat n = count /\ rng' = rng /\ 1 <= count < threshold
  | (Err EntropyUnavailable, _) =>
      exists prefix r r', fills (Z.to_nat (threshold - 1)) rng prefix r /\
        (length prefix < SECRET_LEN)%nat /\
        try_fill_bytes r (Z.to_nat (threshold - 1)) = (None, r')
  | (Err _, _) => False
  | (Ok shares, _) => 1 <= threshold <= count /\ count <= 31 /\ Forall share_ok shares /\
      map index shares = map Z.of_nat (seq 1 (Z.to_nat count))
  end.
Proof.
  intros Hs Ht Hc. destruct (split secret threshold count rng) as [[shares|e] rng'] eqn:Hrun.
  - pose proof Hrun as Hok. apply split_Ok in Hok as (H1 & H2 & coefs & _ & [Hcl Hcok] & ->); [|done..].
    unfold MAX_SHARES in H2. split; [done|]. split; [done|]. split; [|by rewrite map_map].
    apply Forall_forall. intros share Hin. apply list_elem_of_In, in_map_iff in Hin as (i & <- & Hi).
    apply in_seq in Hi. destruct Hs as [Hsl Hs]. split; [simpl; unfold uint; lia|]. simpl.
    rewrite <- Hsl at 1. apply points_at_ok; [done| |congruence|unfold uint; lia].
    eapply Forall_impl; [exact Hcok|by intros cs [? ?]].
  - unfold split, validate_threshold, MAX_SHARES in Hrun. unfold uint in *.
    destruct (Z.eqb_spec threshold 0), (Z.ltb_spec 31 threshold); simpl in Hrun;
      try (injection Hrun as <- <-; repeat split; lia).
    destruct (Z.eqb_spec count 0), (Z.ltb_spec 31 count); simpl in Hrun;
      try (injection Hrun as <- <-; repeat split; lia).
    destruct (Z.ltb_spec count threshold); [injection Hrun as <- <-; repeat split; lia|].
    apply split_loop_Err in Hrun as (-> & prefix & r & Hf & Hl & Hn). exists prefix, r, rng'.
    destruct Hs as [<- _]. done.
Qed.

(** * Witnesses *)

Definition demo_secret : list Z := map Z.of_nat (seq 100 32).
Definition demo_coefficients : list (list Z) := map (fun i => [Z.of_nat i; 17]) (seq 200 32).
Definition demo_split : result Error (list Share) * tape :=
  split demo_secret 3 5 (demo_coefficients : tape).
Definition demo_shares : list Share := match demo_split.1 with Ok shares => shares | Err _ => [] end.

Lemma threshold_recovery_witness :
  reconstruct 3 (reverse (drop 1 demo_shares)) = Ok demo_secret.
Proof.
  apply (threshold_recovery demo_secret 3 5 (demo_coefficients : tape) demo_shares []).
  - decided.
  - decided.
  - decided.
  - vm_compute. reflexivity.
  - intros x Hx. rewrite elem_of_reverse in Hx. by apply drop_subseteq in Hx.
  - decided.
  - vm_compute. discriminate.
Defined.

Lemma reconstruct_characterised_witness :
  on_sharing 3 demo_secret (take 4 demo_shares).
Proof.
  refine (proj2 (proj2 (proj2 (proj1 (reconstruct_characterised 3 (take 4 demo_shares) demo_secret _ _) _)))).
  - unfold share_ok. decided.
  - decided.
  - vm_compute. reflexivity.
Defined.

Lemma split_secrecy_witness :
  exists! coefs', coefficients_ok 3 coefs' /\
    view [2; 5] (split (replicate 32 0) 3 5 (coefs' : tape)) = view [2; 5] demo_split.
Proof.
  apply (split_secrecy demo_secret (replicate 32 0) 3 5 demo_coefficients [2; 5]).
  - decided.
  - decided.
  - lia.
  - unfold MAX_SHARES. lia.
  - split; [reflexivity|]. decided.
  - intros x Hx. apply elem_of_cons in Hx as [->|Hx]; [lia|].
    apply list_elem_of_singleton in Hx as ->. lia.
  - decided.
  - reflexivity.
Defined.

Lemma split_branches_witness :
  match split demo_secret 3 2 (demo_coefficients : tape) with
  | (Err (InsufficientShares r n), rng') =>
      r = 3 /\ Z.of_nat n = 2 /\ rng' = demo_coefficients /\ 1 <= 2 < r
  | _ => False
  end.
Proof.
  pose proof (split_branches demo_secret 3 2 (demo_coefficients : tape)) as H.
  assert (byte_array SECRET_LEN demo_secret) as H1 by decided.
  specialize (H H1 ltac:(decided) ltac:(decided)). cbn in H |- *. exact H.
Defined.
