(* ===== verification/Plan.v ===== *)
(** Postorder gate networks and their certificate checker:
    [leelo-policy/src/verified.rs] and [leelo-policy/src/verified_compile.rs]. *)
From stdpp Require Import base list.
From Stdlib Require Import ZArith Lia.
From S2P Require Import Prelude.

Open Scope Z_scope.

(** * Data *)

Inductive Gate : Type :=
| GateLeaf (response_index : nat)
| GateThreshold (required : nat) (children : list nat).

#[export] Instance Gate_eq_dec : EqDecision Gate.
Proof. solve_decision. Defined.

Inductive NetworkNode : Type :=
| Leaf (id : Z) (provider_id : list Z)
| Threshold (id : Z) (required : Z) (children : list NetworkNode).

(** The nested induction principle. *)
Lemma NetworkNode_nested_ind (P : NetworkNode -> Prop) :
  (forall id provider_id, P (Leaf id provider_id)) ->
  (forall id required children, Forall P children -> P (Threshold id required children)) ->
  forall node, P node.
Proof.
  intros Hleaf Hthr. refine (fix go node := _). destruct node as [id p|id r children]; [apply Hleaf|].
  apply Hthr. induction children as [|c children IH]; constructor; [apply go|apply IH].
Defined.

#[export] Instance NetworkNode_eq_dec : EqDecision NetworkNode.
Proof.
  unfold EqDecision. fix go 1. intros x y. destruct x as [i p|i r cs], y as [i' p'|i' r' cs'].
  - destruct (decide (i = i')) as [->|H]; [|right; congruence].
    destruct (decide (p = p')) as [->|H]; [by left|right; congruence].
  - right; congruence.
  - right; congruence.
  - destruct (decide (i = i')) as [->|H]; [|right; congruence].
    destruct (decide (r = r')) as [->|H]; [|right; congruence].
    assert (Decision (cs = cs')) as [->|H]; [|by left|right; congruence].
    revert cs'. induction cs as [|c cs IH]; intros [|c' cs'].
    + by left.
    + right; congruence.
    + right; congruence.
    + destruct (go c c') as [->|H]; [|right; congruence].
      destruct (IH cs') as [->|H]; [by left|right; congruence].
Defined.

(** * Gate evaluation *)

(** Rust's checked read [i < v.len() && v[i]]. *)
Definition read (values : list bool) (i : nat) : bool := nth i values false.

Definition count_selected (children : list nat) (values : list bool) (n : nat) : nat :=
  length (filter (fun child => read values child = true) (take n children)).

Definition children_valid (children : list nat) (values : list bool) (n : nat) : bool :=
  forallb (fun child => child <? length values)%nat (take n children).

Definition gate_value (gate : Gate) (values responses : list bool) : bool :=
  match gate with
  | GateLeaf response_index => read responses response_index
  | GateThreshold required children =>
      ((0 <? required) && (required <=? length children))%nat
      && children_valid children values (length children)
      && (required <=? count_selected children values (length children))%nat
  end.

(** The scan of [evaluate_gate]: [(successes, valid)]. *)
Fixpoint scan_children (children : list nat) (values : list bool) (successes : nat) (valid : bool)
    : nat * bool :=
  match children with
  | [] => (successes, valid)
  | child :: rest =>
      if (child <? length values)%nat
      then scan_children rest values (if nth child values false then S successes else successes) valid
      else scan_children rest values successes false
  end.

Definition evaluate_gate (gate : Gate) (values responses : list bool) : bool :=
  match gate with
  | GateLeaf response_index => (response_index <? length responses)%nat && nth response_index responses false
  | GateThreshold required children =>
      if ((required =? 0) || (length children <? required))%nat then false
      else let '(successes, valid) := scan_children children values 0 true in
           valid && (required <=? successes)%nat
  end.

Fixpoint evaluated_prefix (gates : list Gate) (responses : list bool) (n : nat) : list bool :=
  match n with
  | O => []
  | S n' =>
      let previous := evaluated_prefix gates responses n' in
      previous ++ [gate_value (nth n' gates (GateLeaf 0)) previous responses]
  end.

(** The loop of [evaluate_network]: the values pushed so far. *)
Fixpoint evaluate_gates (gates : list Gate) (responses values : list bool) : list bool :=
  match gates with
  | [] => values
  | gate :: rest => evaluate_gates rest responses (values ++ [evaluate_gate gate values responses])
  end.

Definition evaluate_network (gates : list Gate) (responses : list bool) : bool :=
  match last (evaluate_gates gates responses []) with Some value => value | None => false end.

(** [record_response]: acceptance and the updated vector. *)
Definition record_response (responses : list bool) (index : nat) : bool * list bool :=
  match responses !! index with
  | Some false => (true, <[index := true]> responses)
  | _ => (false, responses)
  end.

(** * Release state *)

Record ReleaseState : Type := mk_release_state {
  envelope_authenticated : bool;
  tpm_authenticated : bool;
  network_satisfied_flag : bool;
  live_authorized : bool;
  root_authenticated : bool;
  released : bool;
}.

#[export] Instance ReleaseState_eq_dec : EqDecision ReleaseState.
Proof. solve_decision. Defined.

Definition can_release (state : ReleaseState) (require_live : bool) : bool :=
  envelope_authenticated state && tpm_authenticated state && network_satisfied_flag state
  && (negb require_live || live_authorized state) && root_authenticated state
  && negb (released state).

Definition set_released (state : ReleaseState) : ReleaseState :=
  mk_release_state (envelope_authenticated state) (tpm_authenticated state)
    (network_satisfied_flag state) (live_authorized state) (root_authenticated state) true.

Definition try_release (state : ReleaseState) (require_live : bool) : bool * ReleaseState :=
  if can_release state require_live then (true, set_released state) else (false, state).

(** * Direct semantics of the source tree *)

Fixpoint node_count (depth : nat) (node : NetworkNode) : nat :=
  match depth with
  | O => 0
  | S depth' =>
      match node with
      | Leaf _ _ => 1
      | Threshold _ _ children => S (list_sum (map (node_count depth') children))
      end
  end.

Definition forest_nodes (depth : nat) (nodes : list NetworkNode) (n : nat) : nat :=
  match depth with O => 0 | S depth' => list_sum (map (node_count depth') (take n nodes)) end.

Fixpoint leaf_count (depth : nat) (node : NetworkNode) : nat :=
  match depth with
  | O => 0
  | S depth' =>
      match node with
      | Leaf _ _ => 1
      | Threshold _ _ children => list_sum (map (leaf_count depth') children)
      end
  end.

Definition forest_leaves (depth : nat) (nodes : list NetworkNode) (n : nat) : nat :=
  match depth with O => 0 | S depth' => list_sum (map (leaf_count depth') (take n nodes)) end.

(** [source_successes], with the recursive call for one child as a parameter. *)
Fixpoint source_successes (value : NetworkNode -> nat -> bool) (leaves : NetworkNode -> nat)
    (nodes : list NetworkNode) (leaf_start : nat) : nat :=
  match nodes with
  | [] => 0
  | node :: rest =>
      (if value node leaf_start then 1 else 0)
      + source_successes value leaves rest (leaf_start + leaves node)
  end%nat.

Fixpoint source_value (depth : nat) (node : NetworkNode) (responses : list bool) (leaf_start : nat) : bool :=
  match depth with
  | O => false
  | S depth' =>
      match node with
      | Leaf _ _ => read responses leaf_start
      | Threshold _ required children =>
          (0 <? required) && (required <=? Z.of_nat (length children))
          && (required <=? Z.of_nat (source_successes
                (fun child start => source_value depth' child responses start)
                (leaf_count depth') children leaf_start))
      end
  end.

Abbreviation leaf_table := (list (Z * list Z)).

(** The plan has the node's gates at [gate_start] and its leaves at [leaf_start]. *)
Fixpoint compiled_at (depth : nat) (node : NetworkNode) (gates : list Gate) (leaves : leaf_table)
    (gate_start leaf_start : nat) : Prop :=
  match depth with
  | O => False
  | S depth' =>
      let nc := node_count depth node in
      let lc := leaf_count depth node in
      (0 < nc)%nat /\ (0 < lc)%nat /\
      (gate_start + nc <= length gates)%nat /\ (leaf_start + lc <= length leaves)%nat /\
      match node with
      | Leaf id provider_id =>
          leaves !! leaf_start = Some (id, provider_id) /\
          gates !! gate_start = Some (GateLeaf leaf_start)
      | Threshold _ required children =>
          0 < required <= Z.of_nat (length children) /\
          exists edges, gates !! (gate_start + nc - 1)%nat = Some (GateThreshold (Z.to_nat required) edges) /\
            length edges = length children /\
            forall i child edge, children !! i = Some child -> edges !! i = Some edge ->
              let begin := (gate_start + forest_nodes depth children i)%nat in
              edge = (begin + node_count depth' child - 1)%nat /\
              (edge < gate_start + nc - 1)%nat /\
              compiled_at depth' child gates leaves begin (leaf_start + forest_leaves depth children i)
      end
  end.

(** * The certificate checker *)

Definition same_provider (a b : list Z) : bool := scan_equal 32 a b 0.

(** The loop over the children: the consumed endpoints and the expected edges. *)
Fixpoint check_children (check : NetworkNode -> nat -> nat -> bool * nat * nat)
    (children : list NetworkNode) (gc lc : nat) (expected : list nat) : option (nat * nat * list nat) :=
  match children with
  | [] => Some (gc, lc, expected)
  | child :: rest =>
      match check child gc lc with
      | (true, gc', lc') => check_children check rest gc' lc' (expected ++ [gc' - 1]%nat)
      | (false, _, _) => None
      end
  end.

Fixpoint same_edges (edges expected : list nat) : bool :=
  match edges, expected with
  | [], _ => true
  | e :: edges', x :: expected' => if negb (Nat.eqb e x) then false else same_edges edges' expected'
  | _ :: _, [] => false
  end.

Fixpoint check_subtree (depth : nat) (node : NetworkNode) (gates : list Gate) (leaves : leaf_table)
    (gate_start leaf_start : nat) : bool * nat * nat :=
  match depth with
  | O => (false, gate_start, leaf_start)
  | S depth' =>
      if ((length gates <=? gate_start) || (length leaves <=? leaf_start))%nat
      then (false, gate_start, leaf_start)
      else
      match node with
      | Leaf id provider_id =>
          let leaf := nth leaf_start leaves (0, []) in
          if negb (Z.eqb leaf.1 id) || negb (same_provider leaf.2 provider_id)
          then (false, gate_start, leaf_start)
          else
          match nth gate_start gates (GateLeaf 0) with
          | GateLeaf response_index =>
              if negb (Nat.eqb response_index leaf_start) then (false, gate_start, leaf_start)
              else (true, S gate_start, S leaf_start)
          | GateThreshold _ _ => (false, gate_start, leaf_start)
          end
      | Threshold _ required children =>
          if Z.eqb required 0 || (Z.of_nat (length children) <? required)
          then (false, gate_start, leaf_start)
          else
          match check_children (fun child gc lc => check_subtree depth' child gates leaves gc lc)
                  children gate_start leaf_start [] with
          | None => (false, gate_start, leaf_start)
          | Some (gc, lc, expected) =>
              if (length gates <=? gc)%nat then (false, gate_start, leaf_start)
              else
              match nth gc gates (GateLeaf 0) with
              | GateThreshold actual edges =>
                  if negb (Nat.eqb actual (Z.to_nat required))
                     || negb (Nat.eqb (length edges) (length expected))
                  then (false, gate_start, leaf_start)
                  else if negb (same_edges edges expected) then (false, gate_start, leaf_start)
                  else (true, S gc, lc)
              | GateLeaf _ => (false, gate_start, leaf_start)
              end
          end
      end
  end.

Definition check_compilation (node : NetworkNode) (gates : list Gate) (leaves : leaf_table) : bool :=
  let '(ok, g, l) := check_subtree 3 node gates leaves 0 0 in
  ok && Nat.eqb g (length gates) && Nat.eqb l (length leaves).

(** * Well-typed trees: fields in the range of their Rust types *)

Inductive node_typed : NetworkNode -> Prop :=
| typed_leaf id provider_id : u8 id -> byte_array 32 provider_id -> node_typed (Leaf id provider_id)
| typed_threshold id required children :
    u8 id -> u8 required -> Forall node_typed children -> node_typed (Threshold id required children).

Definition leaves_typed (leaves : leaf_table) : Prop :=
  Forall (fun leaf => u8 leaf.1 /\ byte_array 32 leaf.2) leaves.

(** * Gate evaluation meets its contract *)

Lemma scan_children_spec children values successes valid :
  scan_children children values successes valid =
  ((successes + length (filter (fun child => read values child = true) children))%nat,
   valid && forallb (fun child => child <? length values)%nat children).
Proof.
  revert successes valid. induction children as [|child children IH]; intros successes valid; simpl.
  - by rewrite Nat.add_0_r, andb_true_r.
  - rewrite filter_cons. change (nth child values false) with (read values child).
    destruct (Nat.ltb_spec child (length values)) as [Hlt|Hge]; rewrite IH.
    + destruct (decide (read values child = true)) as [E|E]; [|apply not_true_is_false in E];
        rewrite E; simpl; f_equal; lia.
    + rewrite decide_False by (unfold read; by rewrite nth_overflow). simpl. by rewrite andb_false_r.
Qed.

Lemma evaluate_gate_value gate values responses :
  evaluate_gate gate values responses = gate_value gate values responses.
Proof.
  destruct gate as [i|required children]; simpl.
  - unfold read. destruct (Nat.ltb_spec i (length responses)); [done|]. by rewrite nth_overflow.
  - rewrite scan_children_spec. unfold children_valid, count_selected. rewrite !firstn_all.
    destruct (Nat.eqb_spec required 0) as [->|Hr]; simpl; [done|].
    destruct (Nat.ltb_spec (length children) required), (Nat.ltb_spec 0 required),
      (Nat.leb_spec required (length children)); simpl; try lia; done.
Qed.

Lemma prefix_length gates responses n : length (evaluated_prefix gates responses n) = n.
Proof. induction n as [|n IH]; simpl; [done|]. rewrite length_app, IH. simpl. lia. Qed.

Lemma prefix_index gates responses n i :
  (i < n)%nat -> read (evaluated_prefix gates responses n) i =
    gate_value (nth i gates (GateLeaf 0)) (evaluated_prefix gates responses i) responses.
Proof.
  unfold read. induction n as [|n IH]; intros Hi; [lia|]. simpl.
  destruct (decide (i = n)) as [->|Hne].
  - rewrite app_nth2; rewrite prefix_length; [|lia]. by rewrite Nat.sub_diag.
  - rewrite app_nth1 by (rewrite prefix_length; lia). apply IH. lia.
Qed.

Lemma evaluate_gates_prefix gates responses :
  evaluate_gates gates responses [] = evaluated_prefix gates responses (length gates).
Proof.
  assert (forall rest pre, gates = pre ++ rest ->
    evaluate_gates rest responses (evaluated_prefix gates responses (length pre)) =
    evaluated_prefix gates responses (length gates)) as H.
  { induction rest as [|gate rest IH]; intros pre ->; simpl.
    - by rewrite app_nil_r.
    - rewrite evaluate_gate_value.
      rewrite <- (IH (pre ++ [gate])) by by rewrite <- app_assoc. f_equal.
      rewrite length_app, Nat.add_1_r. simpl. f_equal. f_equal. f_equal.
      by rewrite nth_middle. }
  by apply (H gates []).
Qed.

Lemma evaluate_network_root gates responses :
  gates <> [] ->
  evaluate_network gates responses =
  gate_value (nth (length gates - 1) gates (GateLeaf 0))
    (evaluated_prefix gates responses (length gates - 1)) responses.
Proof.
  intros Hne. unfold evaluate_network. rewrite evaluate_gates_prefix.
  destruct (length gates) as [|n] eqn:E; [by destruct gates|]. simpl.
  rewrite last_snoc, Nat.sub_0_r. done.
Qed.

(** * A certified plan has the semantics of its source tree *)

Lemma forest_semantics value leaves values edges children start :
  length edges = length children ->
  (forall i child edge, children !! i = Some child -> edges !! i = Some edge ->
     read values edge = value child (start + list_sum (map leaves (take i children)))%nat) ->
  length (filter (fun child => read values child = true) edges) =
    source_successes value leaves children start.
Proof.
  revert edges start. induction children as [|child children IH]; intros [|edge edges] start Hlen H;
    try discriminate; [done|].
  rewrite filter_cons. simpl. rewrite <- (IH edges (start + leaves child)%nat).
  - pose proof (H 0%nat child edge eq_refl eq_refl) as H0. simpl in H0. rewrite Nat.add_0_r in H0.
    destruct (decide (read values edge = true)) as [E|E]; rewrite <- H0.
    + by rewrite E.
    + apply not_true_is_false in E. by rewrite E.
  - by injection Hlen.
  - intros i c e Hc He. rewrite (H (S i) c e Hc He). simpl. f_equal. lia.
Qed.

Lemma compiled_semantics responses gates leaves depth :
  forall node gate_start leaf_start,
  compiled_at depth node gates leaves gate_start leaf_start ->
  let root := (gate_start + node_count depth node - 1)%nat in
  gate_value (nth root gates (GateLeaf 0)) (evaluated_prefix gates responses root) responses =
    source_value depth node responses leaf_start.
Proof.
  induction depth as [|depth IH]; intros node g l Hc root; [done|].
  destruct Hc as (Hnc & Hlc & Hg & Hl & Hc). destruct node as [id p|id required children].
  - destruct Hc as [_ Hgate]. unfold root. simpl. rewrite Nat.add_sub.
    by rewrite (nth_lookup_Some _ _ _ _ Hgate).
  - destruct Hc as (Hreq & edges & Hgate & Hlen & Hch).
    fold root in Hgate, Hch. rewrite (nth_lookup_Some _ _ _ _ Hgate). simpl source_value. simpl gate_value.
    unfold children_valid, count_selected. rewrite !firstn_all.
    assert (forallb (fun child => child <? length (evaluated_prefix gates responses root))%nat edges = true)
      as ->.
    { apply forallb_forall. intros e He. apply list_elem_of_In, list_elem_of_lookup in He as [i Hi].
      rewrite prefix_length. apply Nat.ltb_lt.
      destruct (lookup_lt_is_Some_2 children i) as [c Hci].
      { rewrite <- Hlen. by eapply lookup_lt_Some. }
      apply (Hch i c e Hci Hi). }
    rewrite (forest_semantics (fun child start => source_value depth child responses start)
      (leaf_count depth) _ _ children l Hlen).
    + destruct (Z.ltb_spec 0 required), (Z.leb_spec required (Z.of_nat (length children))); try lia.
      destruct (Nat.ltb_spec 0 (Z.to_nat required)), (Nat.leb_spec (Z.to_nat required) (length edges));
        try lia. simpl.
      match goal with |- (?a <=? ?b)%nat = (?c <=? ?d) =>
        destruct (Nat.leb_spec a b), (Z.leb_spec c d); try done; lia end.
    + intros i c e Hci Hei. destruct (Hch i c e Hci Hei) as (-> & Hlt & Hcc).
      rewrite prefix_index by done. simpl in Hcc |- *. apply (IH c _ _ Hcc).
Qed.

(** * The checker decides the certificate *)

Lemma same_provider_eq a b :
  length a = 32%nat -> length b = 32%nat -> same_provider a b = true <-> a = b.
Proof. apply scan_equal_eq. Qed.

Lemma same_edges_eq edges expected :
  length edges = length expected -> same_edges edges expected = true <-> edges = expected.
Proof.
  revert expected. induction edges as [|e edges IH]; intros [|x expected] Hlen; try discriminate; [done|].
  injection Hlen as Hlen. simpl. destruct (Nat.eqb_spec e x) as [->|Hne]; simpl.
  - rewrite IH by done. split; congruence.
  - split; congruence.
Qed.

Section CheckChildren.
Context (check : NetworkNode -> nat -> nat -> bool * nat * nat).
Context (nodes leaves : NetworkNode -> nat).

Abbreviation node_offset children i := (list_sum (map nodes (take i children))).
Abbreviation leaf_offset children i := (list_sum (map leaves (take i children))).

(** [edges] are the roots of consecutive children. *)
Definition consecutive (children : list NetworkNode) (gc : nat) (edges : list nat) : Prop :=
  length edges = length children /\
  forall i child edge, children !! i = Some child -> edges !! i = Some edge ->
    edge = (gc + node_offset children i + nodes child - 1)%nat.

Lemma consecutive_cons child children gc edge edges :
  consecutive (child :: children) gc (edge :: edges) <->
  edge = (gc + nodes child - 1)%nat /\ consecutive children (gc + nodes child) edges.
Proof.
  unfold consecutive. split.
  - intros [Hl H]. injection Hl as Hl. split.
    + rewrite (H 0%nat child edge) by done. simpl. lia.
    + split; [done|]. intros i c e Hc He. rewrite (H (S i) c e Hc He). simpl. lia.
  - intros [-> [Hl H]]. split; [simpl; lia|]. intros [|i] c e Hc He; simpl in *.
    + injection Hc as <-. injection He as <-. lia.
    + rewrite (H i c e Hc He). lia.
Qed.

Lemma consecutive_unique children gc edges edges' :
  consecutive children gc edges -> consecutive children gc edges' -> edges = edges'.
Proof.
  revert gc edges edges'. induction children as [|c children IH]; intros gc [|e edges] [|e' edges'] H H';
    try (by destruct H); try (by destruct H').
  apply consecutive_cons in H as [-> H]. apply consecutive_cons in H' as [-> H']. f_equal. by eapply IH.
Qed.

Lemma check_children_spec children :
  (forall child g l g' l', child ∈ children -> check child g l = (true, g', l') ->
     g' = (g + nodes child)%nat /\ l' = (l + leaves child)%nat) ->
  forall gc lc expected gc' lc' expected',
  check_children check children gc lc expected = Some (gc', lc', expected') <->
  gc' = (gc + list_sum (map nodes children))%nat /\ lc' = (lc + list_sum (map leaves children))%nat /\
  (exists edges, expected' = expected ++ edges /\ consecutive children gc edges) /\
  forall i child, children !! i = Some child ->
    let g := (gc + node_offset children i)%nat in
    let l := (lc + leaf_offset children i)%nat in
    check child g l = (true, (g + nodes child)%nat, (l + leaves child)%nat).
Proof.
  induction children as [|child children IH]; intros Hchk gc lc expected gc' lc' expected'; simpl.
  - rewrite !Nat.add_0_r. split.
    + intros [= -> -> ->]. repeat split; try done. exists []. by rewrite app_nil_r.
    + intros (-> & -> & (edges & -> & [Hl _]) & _). destruct edges; [|done]. by rewrite app_nil_r.
  - destruct (check child gc lc) as [[ok g1] l1] eqn:E. destruct ok.
    + destruct (Hchk child gc lc g1 l1) as [-> ->]; [constructor|done|].
      rewrite IH by (intros; eapply Hchk; [by right|done]).
      split.
      * intros (-> & -> & (edges & -> & Hcons) & Hall). split; [lia|]. split; [lia|]. split.
        { exists ((gc + nodes child - 1)%nat :: edges). rewrite <- app_assoc. split; [done|].
          by apply consecutive_cons. }
        intros [|i] c Hc; simpl in *.
        { injection Hc as <-. rewrite !Nat.add_0_r. done. }
        specialize (Hall i c Hc). rewrite !Nat.add_assoc in *. done.
      * intros (-> & -> & (edges & -> & Hcons) & Hall). split; [lia|]. split; [lia|]. split.
        { destruct edges as [|e edges]; [by destruct Hcons|]. apply consecutive_cons in Hcons as [-> Hcons].
          exists edges. by rewrite <- app_assoc. }
        intros i c Hc. specialize (Hall (S i) c Hc). simpl in Hall.
        rewrite !Nat.add_assoc in Hall. done.
    + split; [done|]. intros (_ & _ & _ & Hall). specialize (Hall 0%nat child eq_refl). simpl in Hall.
      rewrite !Nat.add_0_r in Hall. congruence.
Qed.
End CheckChildren.

Lemma list_sum_take_le (f : NetworkNode -> nat) children i child :
  children !! i = Some child ->
  (list_sum (map f (take i children)) + f child <= list_sum (map f children))%nat.
Proof.
  revert i. induction children as [|c children IH]; intros [|i] H; simpl in *; try done.
  - injection H as ->. lia.
  - specialize (IH i H). lia.
Qed.

Lemma list_sum_last (f : NetworkNode -> nat) children :
  children <> [] -> exists child i, children !! i = Some child /\
  list_sum (map f children) = (list_sum (map f (take i children)) + f child)%nat.
Proof.
  induction children as [|c children IH]; intros Hne; [done|]. destruct children as [|c' children].
  - exists c, 0%nat. split; [done|]. simpl. lia.
  - destruct IH as (child & i & Hi & E); [done|]. exists child, (S i). split; [done|].
    change (map f (c :: c' :: children)) with (f c :: map f (c' :: children)). simpl list_sum at 1.
    simpl take. simpl map at 2. simpl list_sum at 2. simpl in E. simpl. lia.
Qed.

Lemma compiled_at_counts depth node gates leaves g l :
  compiled_at depth node gates leaves g l ->
  (0 < node_count depth node)%nat /\ (0 < leaf_count depth node)%nat /\
  (g + node_count depth node <= length gates)%nat /\ (l + leaf_count depth node <= length leaves)%nat.
Proof. destruct depth; [done|]. intros (H1 & H2 & H3 & H4 & _). done. Qed.

Lemma check_leaf_iff depth id provider_id gates leaves g l g' l' :
  byte_array 32 provider_id -> leaves_typed leaves ->
  check_subtree (S depth) (Leaf id provider_id) gates leaves g l = (true, g', l') <->
  compiled_at (S depth) (Leaf id provider_id) gates leaves g l /\ g' = S g /\ l' = S l.
Proof.
  intros [Hp _] Hleaves. simpl.
  destruct (Nat.leb_spec (length gates) g) as [Hg|Hg]; simpl; [split; [done|lia]|].
  destruct (Nat.leb_spec (length leaves) l) as [Hl|Hl]; simpl; [split; [done|lia]|].
  destruct (lookup_lt_is_Some_2 leaves l Hl) as [[id' p'] El].
  destruct (lookup_lt_is_Some_2 gates g Hg) as [gate Eg].
  rewrite (nth_lookup_Some _ _ _ _ El), (nth_lookup_Some _ _ _ _ Eg), El, Eg.
  assert (length p' = 32%nat) as Hp'.
  { unfold leaves_typed in Hleaves. rewrite Forall_lookup in Hleaves. apply (Hleaves l _ El). }
  cbn [fst snd]. destruct (Z.eqb_spec id' id) as [->|Hne]; simpl.
  2: { split; [done|]. intros [(_ & _ & _ & _ & E & _) _]. congruence. }
  destruct (same_provider p' provider_id) eqn:Esame; simpl.
  2: { split; [done|]. intros [(_ & _ & _ & _ & E & _) _]. apply not_true_iff_false in Esame.
       exfalso. apply Esame, same_provider_eq; congruence. }
  apply same_provider_eq in Esame as ->; [|done..].
  destruct gate as [ri|]; [|split; [done|intros [(_ & _ & _ & _ & _ & E) _]; congruence]].
  destruct (Nat.eqb_spec ri l) as [->|Hne]; simpl.
  - split; [intros [= <- <-]; repeat split; lia|by intros [_ [-> ->]]].
  - split; [done|]. intros [(_ & _ & _ & _ & _ & E) _]. congruence.
Qed.

Abbreviation nodes_before depth children i := (list_sum (map (node_count depth) (take i children))).
Abbreviation leaves_before depth children i := (list_sum (map (leaf_count depth) (take i children))).

(** The certificate of a threshold, from the certificates of its children. *)
Lemma compiled_threshold_iff depth id required children gates leaves g l :
  compiled_at (S depth) (Threshold id required children) gates leaves g l <->
  0 < required <= Z.of_nat (length children) /\
  (forall i child, children !! i = Some child ->
     compiled_at depth child gates leaves (g + nodes_before depth children i)
       (l + leaves_before depth children i)) /\
  exists edges,
    gates !! (g + list_sum (map (node_count depth) children))%nat =
      Some (GateThreshold (Z.to_nat required) edges) /\
    consecutive (node_count depth) children g edges.
Proof.
  split.
  - intros (_ & _ & _ & _ & Hreq & edges & Hgate & Hlen & Hch). split; [done|]. split.
    + intros i child Hi. destruct (lookup_lt_is_Some_2 edges i) as [edge He].
      { rewrite Hlen. by eapply lookup_lt_Some. }
      by destruct (Hch i child edge Hi He) as (_ & _ & Hc).
    + exists edges. split; [|split; [done|]].
      * rewrite <- Hgate. f_equal. simpl. lia.
      * intros i child edge Hi He. destruct (Hch i child edge Hi He) as (-> & _ & _). done.
  - intros (Hreq & Hch & edges & Hgate & Hlen & Hcons).
    assert (children <> []) as Hne by (intros ->; simpl in Hreq; lia).
    destruct (list_sum_last (leaf_count depth) children Hne) as (child & i & Hi & E).
    pose proof (compiled_at_counts _ _ _ _ _ _ (Hch i child Hi)) as (_ & Hpos & _ & Hlb).
    apply lookup_lt_Some in Hgate as Hlt.
    assert ((g + S (list_sum (map (node_count depth) children)) - 1)%nat =
            (g + list_sum (map (node_count depth) children))%nat) as Eroot by lia.
    cbn [compiled_at node_count leaf_count]. rewrite Eroot.
    split; [lia|]. split; [lia|]. split; [lia|]. split; [lia|]. split; [done|].
    exists edges. split; [done|]. split; [done|]. intros j c e Hc He.
    pose proof (compiled_at_counts _ _ _ _ _ _ (Hch j c Hc)) as (Hp & _).
    pose proof (list_sum_take_le (node_count depth) children j c Hc).
    rewrite (Hcons j c e Hc He). simpl. split; [done|]. split; [lia|]. by apply Hch.
Qed.

Lemma check_subtree_iff gates leaves depth :
  leaves_typed leaves ->
  forall node g l g' l', node_typed node ->
  check_subtree depth node gates leaves g l = (true, g', l') <->
  compiled_at depth node gates leaves g l /\
  g' = (g + node_count depth node)%nat /\ l' = (l + leaf_count depth node)%nat.
Proof.
  intros Hleaves. induction depth as [|depth IH]; intros node g l g' l' Hty; [by split; [|intros [[] _]]|].
  destruct Hty as [id p Hid Hp|id required children Hid Hr Hch].
  { rewrite check_leaf_iff by done. simpl. by rewrite !Nat.add_1_r. }
  rewrite Forall_forall in Hch. unfold uint in Hr.
  cbn [check_subtree].
  destruct ((length gates <=? g) || (length leaves <=? l))%nat eqn:Eb.
  { split; [done|]. intros [Hc _]. apply compiled_at_counts in Hc.
    apply orb_true_iff in Eb as [Eb|Eb]; apply Nat.leb_le in Eb; lia. }
  apply orb_false_iff in Eb as [Eg El]. apply Nat.leb_gt in Eg, El.
  destruct (Z.eqb_spec required 0) as [->|Hr0]; simpl orb; cbv match.
  { split; [done|]. intros [[E _]%compiled_threshold_iff _]. lia. }
  destruct (Z.ltb_spec (Z.of_nat (length children)) required) as [Hlt|Hle].
  { split; [done|]. intros [[E _]%compiled_threshold_iff _]. lia. }
  pose proof (check_children_spec (fun child gc lc => check_subtree depth child gates leaves gc lc)
    (node_count depth) (leaf_count depth) children) as Hspec.
  specialize (Hspec ltac:(intros child g0 l0 g1 l1 Hin E; apply IH in E; [tauto|by apply Hch])).
  specialize (Hspec g l []).
  rewrite compiled_threshold_iff. cbn [node_count leaf_count].
  destruct (check_children _ children g l []) as [[[gc lc] expected]|] eqn:Ecc.
  - destruct (proj1 (Hspec gc lc expected) eq_refl) as (-> & -> & (edges & -> & Hcons) & Hall).
    rewrite app_nil_l.
    assert (forall i child, children !! i = Some child ->
      compiled_at depth child gates leaves (g + nodes_before depth children i)
        (l + leaves_before depth children i)) as Hcomp.
    { intros i child Hi. specialize (Hall i child Hi). apply IH in Hall; [tauto|].
      by eapply Hch, list_elem_of_lookup_2. }
    set (gc := (g + list_sum (map (node_count depth) children))%nat) in *.
    destruct (Nat.leb_spec (length gates) gc) as [Hge|Hlt].
    { split; [done|]. intros [(_ & _ & ? & Hgate & _) _]. apply lookup_lt_Some in Hgate. lia. }
    destruct (lookup_lt_is_Some_2 gates gc Hlt) as [gate Egate].
    rewrite (nth_lookup_Some _ _ _ _ Egate), Egate.
    destruct gate as [ri|actual actual_edges].
    { split; [done|]. by intros [(_ & _ & ? & Hgate & _) _]. }
    split.
    + intros Hrun. destruct (Nat.eqb_spec actual (Z.to_nat required)) as [->|]; [|done].
      destruct (Nat.eqb_spec (length actual_edges) (length edges)) as [Hl|]; [|done]. simpl in Hrun.
      destruct (same_edges actual_edges edges) eqn:Es; [|done]. simpl in Hrun.
      apply same_edges_eq in Es as ->; [|done]. injection Hrun as <- <-.
      split; [|unfold gc; lia]. split; [lia|]. split; [done|]. by exists edges.
    + intros [(_ & _ & edges' & [= -> ->] & Hcons') [-> ->]].
      assert (edges' = edges) as ->.
      { eapply consecutive_unique; done. }
      rewrite !Nat.eqb_refl. simpl. rewrite (proj2 (same_edges_eq edges edges eq_refl) eq_refl). simpl.
      f_equal. f_equal. unfold gc. lia.
  - split; [done|]. intros [(Hreq & Hcomp & edges & Hgate & Hcons) _]. exfalso.
    assert (None = Some (g + list_sum (map (node_count depth) children),
      l + list_sum (map (leaf_count depth) children), edges)%nat) as E; [|done].
    apply Hspec. split; [done|]. split; [done|]. split; [by exists edges|].
    intros i child Hi. apply IH; [by eapply Hch, list_elem_of_lookup_2|].
    split; [by apply Hcomp|done].
Qed.

(** What [check_compilation] promises: every gate and leaf of the plan is accounted for, and
    the plan evaluates like the source tree. *)
Lemma check_compilation_iff node gates leaves :
  node_typed node -> leaves_typed leaves ->
  check_compilation node gates leaves = true <->
  compiled_at 3 node gates leaves 0 0 /\ length gates = node_count 3 node /\
  length leaves = leaf_count 3 node.
Proof.
  intros Hn Hl. unfold check_compilation.
  destruct (check_subtree 3 node gates leaves 0 0) as [[ok g] l] eqn:E. split.
  - intros H. apply andb_true_iff in H as [H Hl2]. apply andb_true_iff in H as [-> Hg2].
    apply Nat.eqb_eq in Hg2, Hl2. subst g l. apply check_subtree_iff in E; [|done..].
    simpl in E. simpl. tauto.
  - intros (Hc & Hg & Hll).
    assert (check_subtree 3 node gates leaves 0 0 = (true, node_count 3 node, leaf_count 3 node)) as E'
      by (apply check_subtree_iff; done).
    rewrite E in E'. injection E' as -> -> ->. rewrite Hg, Hll, !Nat.eqb_refl. done.
Qed.

Lemma compiled_network_value node gates leaves responses :
  compiled_at 3 node gates leaves 0 0 -> length gates = node_count 3 node ->
  evaluate_network gates responses = source_value 3 node responses 0.
Proof.
  intros Hc Hlen. apply compiled_at_counts in Hc as Hcounts.
  rewrite evaluate_network_root by (intros ->; simpl in *; lia).
  rewrite Hlen. exact (compiled_semantics responses gates leaves 3 node 0 0 Hc).
Qed.

(** * Properties *)

(** The certificate check is sound: gates and leaves that [check_compilation] accepts for a
    tree evaluate, for every vector of responses, to the direct threshold semantics of the tree,
    whoever produced them. *)
Theorem certificate_sound node gates leaves responses :
  node_typed node -> leaves_typed leaves -> check_compilation node gates leaves = true ->
  evaluate_network gates responses = source_value 3 node responses 0.
Proof.
  intros Hn Hl Hc. apply check_compilation_iff in Hc as (Hc & Hg & _); [|done..].
  by eapply compiled_network_value.
Qed.

Lemma certificate_sound_witness :
  evaluate_network [GateLeaf 0; GateLeaf 1; GateThreshold 2 [0; 1]%nat] [true; false] =
  source_value 3 (Threshold 9 2 [Leaf 1 (replicate 32 1); Leaf 2 (replicate 32 2)]) [true; false] 0.
Proof.
  apply (certificate_sound _ _ [(1, replicate 32 1); (2, replicate 32 2)] [true; false]).
  - repeat (constructor; try decided).
  - unfold leaves_typed. decided.
  - vm_compute. reflexivity.
Defined.
