(* ===== verification/Policy.v ===== *)
(** Production policies and network sharing: [ProductionPolicy], [NetworkPlan] and [compile_node]
    of [leelo-policy/src/lib.rs]. *)
From stdpp Require Import base list gmap.
From Stdlib Require Import ZArith Lia.
From S2P Require Import Prelude Gf256 Field Interpolation Sss Plan.

Open Scope Z_scope.

(** * Data *)

Definition MAX_NODES : nat := 31.
Definition MAX_DEPTH : nat := 4.

(** A network leaf ID and its secret payload. *)
Abbreviation NetworkShare := (Z * list Z)%type.

Inductive Mode : Type := NetworkBound | Attested.
#[export] Instance Mode_eq_dec : EqDecision Mode.
Proof. solve_decision. Defined.

Definition node_id (node : NetworkNode) : Z :=
  match node with Leaf id _ => id | Threshold id _ _ => id end.

Inductive PolicyError : Type :=
| TooManyNodes
| TooDeep
| DuplicateNodeId (id : Z)
| DuplicateProvider
| InvalidThreshold
| InvalidCompilation
| EnvelopeNotAuthenticated
| UnknownNetworkLeaf (id : Z)
| DuplicateResponse (id : Z)
| FactorsNotSatisfied
| RootNotAuthenticated
| AlreadyReleased
| Sharing (error : Sss.Error).
#[export] Instance PolicyError_eq_dec : EqDecision PolicyError.
Proof. solve_decision. Defined.

(** The outcome of code that indexes a vector: an error value, or a panic. *)
Inductive fault (E : Type) : Type := Fault (e : E) | Panic.
Arguments Fault {E} e.
Arguments Panic {E}.

Definition fallible {E A} (m : result E A) : result (fault E) A := map_err Fault m.
Definition indexed {E A} (m : option A) : result (fault E) A := ok_or m Panic.

Record NetworkPlan : Type := mk_plan { gates : list Gate; leaves : leaf_table }.
#[export] Instance NetworkPlan_eq_dec : EqDecision NetworkPlan.
Proof. solve_decision. Defined.

Record ProductionPolicy : Type := mk_policy {
  mode : Mode;
  tpm_node_id : Z;
  network : NetworkNode;
  plan : NetworkPlan;
}.

(** * Compilation *)

(** The mutable arguments of [compile_node]. *)
Record compile_state : Type := mk_compile_state {
  count : nat;
  ids : gset Z;
  providers : gset (list Z);
  compiling : NetworkPlan;
}.

Definition push_leaf (st : compile_state) (id : Z) (provider_id : list Z) : compile_state :=
  mk_compile_state (count st) (ids st) ({[provider_id]} ∪ providers st)
    (mk_plan (gates (compiling st)) (leaves (compiling st) ++ [(id, provider_id)])).

Definition push_gate (st : compile_state) (gate : Gate) : compile_state :=
  mk_compile_state (count st) (ids st) (providers st)
    (mk_plan (gates (compiling st) ++ [gate]) (leaves (compiling st))).

Section Children.
Context (compile : NetworkNode -> compile_state -> result PolicyError (nat * compile_state)).

(** The loop over the children, collecting their gate indices. *)
Fixpoint compile_children (children : list NetworkNode) (st : compile_state)
    : result PolicyError (list nat * compile_state) :=
  match children with
  | [] => Ok ([], st)
  | child :: rest =>
      '(index, st1) ← compile child st;
      '(indices, st2) ← compile_children rest st1;
      Ok (index :: indices, st2)
  end.
End Children.

Fixpoint compile_node (node : NetworkNode) (depth : nat) (st : compile_state)
    : result PolicyError (nat * compile_state) :=
  if (MAX_DEPTH <? depth)%nat then Err TooDeep
  else if (MAX_NODES <=? count st)%nat then Err TooManyNodes
  else if decide (node_id node ∈ ids st) then Err (DuplicateNodeId (node_id node))
  else
  let st := mk_compile_state (S (count st)) ({[node_id node]} ∪ ids st) (providers st) (compiling st) in
  '(gate, st) ←
    match node with
    | Leaf id provider_id =>
        if decide (provider_id ∈ providers st) then Err DuplicateProvider
        else Ok (GateLeaf (length (leaves (compiling st))), push_leaf st id provider_id)
    | Threshold _ required children =>
        if Z.eqb required 0 || (Z.of_nat (length children) <? required) then Err InvalidThreshold
        else
          '(indices, st') ← compile_children (fun child st => compile_node child (S depth) st) children st;
          Ok (GateThreshold (Z.to_nat required) indices, st')
    end;
  Ok (length (gates (compiling st)), push_gate st gate).

Definition new_policy (mode : Mode) (tpm_node_id : Z) (network : NetworkNode)
    : result PolicyError ProductionPolicy :=
  '(_, st) ← compile_node network 2 (mk_compile_state 2 {[tpm_node_id]} ∅ (mk_plan [] []));
  let plan := compiling st in
  if negb (check_compilation network (gates plan) (leaves plan)) then Err InvalidCompilation
  else Ok (mk_policy mode tpm_node_id network plan).

Definition policy_node_count (policy : ProductionPolicy) : nat :=
  (length (gates (plan policy)) + 2)%nat.

Definition network_leaf_ids (policy : ProductionPolicy) : list Z :=
  map fst (leaves (plan policy)).

(** * Responses *)

Definition leaf_position (leaves : leaf_table) (id : Z) : option nat :=
  fst <$> list_find (fun leaf => leaf.1 = id) leaves.

Fixpoint record_all (leaves : leaf_table) (available : list Z) (responses : list bool)
    : result PolicyError (list bool) :=
  match available with
  | [] => Ok responses
  | id :: rest =>
      index ← ok_or (leaf_position leaves id) (UnknownNetworkLeaf id);
      let '(accepted, responses') := record_response responses index in
      if negb accepted then Err (DuplicateResponse id) else record_all leaves rest responses'
  end.

Definition responses (plan : NetworkPlan) (available : list Z) : result PolicyError (list bool) :=
  record_all (leaves plan) available (replicate (length (leaves plan)) false).

Definition network_satisfied (policy : ProductionPolicy) (available : list Z) : result PolicyError bool :=
  responses ← responses (plan policy) available;
  Ok (evaluate_network (gates (plan policy)) responses).

(** * Splitting *)

Section SplitChildren.
Context {R : Type} (split_child : nat -> list Z -> R -> result (fault PolicyError) (list NetworkShare) * R).

(** The loop over the zipped children and shares; leaves are pushed in this order. *)
Fixpoint split_children (children : list nat) (shares : list Share) (rng : R)
    : result (fault PolicyError) (list NetworkShare) * R :=
  match children, shares with
  | child :: children', share :: shares' =>
      match split_child child (value share) rng with
      | (Err e, rng1) => (Err e, rng1)
      | (Ok pushed, rng1) =>
          match split_children children' shares' rng1 with
          | (Err e, rng2) => (Err e, rng2)
          | (Ok rest, rng2) => (Ok (pushed ++ rest), rng2)
          end
      end
  | _, _ => (Ok [], rng)
  end.
End SplitChildren.

(** [fuel] bounds the recursion depth; running out is a stack overflow. *)
Fixpoint split_gate {R} `{Rng R} (fuel : nat) (plan : NetworkPlan) (index : nat) (secret : list Z) (rng : R)
    : result (fault PolicyError) (list NetworkShare) * R :=
  match fuel with
  | O => (Err Panic, rng)
  | S fuel' =>
      match gates plan !! index with
      | None => (Err Panic, rng)
      | Some (GateLeaf response_index) =>
          match leaves plan !! response_index with
          | None => (Err Panic, rng)
          | Some leaf => (Ok [(leaf.1, secret)], rng)
          end
      | Some (GateThreshold required children) =>
          match split secret (wrap 8 (Z.of_nat required)) (wrap 8 (Z.of_nat (length children))) rng with
          | (Err e, rng1) => (Err (Fault (Sharing e)), rng1)
          | (Ok shares, rng1) =>
              split_children (fun child secret rng => split_gate fuel' plan child secret rng)
                children shares rng1
          end
      end
  end.

Definition split_network {R} `{Rng R} (policy : ProductionPolicy) (secret : list Z) (rng : R)
    : result (fault PolicyError) (list NetworkShare) * R :=
  let n := length (gates (plan policy)) in
  if (n =? 0)%nat then (Err Panic, rng)
  else split_gate n (plan policy) (n - 1) secret rng.

(** * Recovery *)

(** The loop over the children of a threshold: [values[child].take()]. *)
Fixpoint take_shares (children : list nat) (position : nat) (values : list (option (list Z)))
    (shares : list Share) : result (fault PolicyError) (list (option (list Z)) * list Share) :=
  match children with
  | [] => Ok (values, shares)
  | child :: rest =>
      slot ← indexed (values !! child);
      match slot with
      | None => take_shares rest (S position) values shares
      | Some secret =>
          share ← fallible (map_err Sharing (from_parts (wrap 8 (Z.of_nat (S position))) secret));
          take_shares rest (S position) (<[child := None]> values) (shares ++ [share])
      end
  end.

Definition recover_gate (plan : NetworkPlan) (recovered : list NetworkShare) (gate : Gate)
    (values : list (option (list Z))) : result (fault PolicyError) (list (option (list Z))) :=
  match gate with
  | GateLeaf response_index =>
      leaf ← indexed (leaves plan !! response_index);
      Ok (values ++ [snd <$> find (fun '(node, _) => Z.eqb node leaf.1) recovered])
  | GateThreshold required children =>
      '(values, shares) ← take_shares children 0 values [];
      if (length shares <? required)%nat then Ok (values ++ [None])
      else
        secret ← fallible (map_err Sharing (reconstruct (wrap 8 (Z.of_nat required)) shares));
        Ok (values ++ [Some secret])
  end.

Fixpoint recover_gates (plan : NetworkPlan) (recovered : list NetworkShare) (gates : list Gate)
    (values : list (option (list Z))) : result (fault PolicyError) (list (option (list Z))) :=
  match gates with
  | [] => Ok values
  | gate :: rest =>
      values ← recover_gate plan recovered gate values;
      recover_gates plan recovered rest values
  end.

Definition recover_network (policy : ProductionPolicy) (recovered : list NetworkShare)
    : result (fault PolicyError) (list Z) :=
  _ ← fallible (responses (plan policy) (map fst recovered));
  values ← recover_gates (plan policy) recovered (gates (plan policy)) [];
  ok_or (mjoin (last values)) (Fault FactorsNotSatisfied).

(** * Specification of the source tree *)

(** Leaves, identifiers and size of a tree, in source order. *)
Fixpoint leaves_of (node : NetworkNode) : leaf_table :=
  match node with
  | Leaf id provider_id => [(id, provider_id)]
  | Threshold _ _ children => concat (map leaves_of children)
  end.

Fixpoint ids_of (node : NetworkNode) : list Z :=
  match node with
  | Leaf id _ => [id]
  | Threshold id _ children => id :: concat (map ids_of children)
  end.

Fixpoint tree_size (node : NetworkNode) : nat :=
  match node with
  | Leaf _ _ => 1
  | Threshold _ _ children => S (list_sum (map tree_size children))
  end.

Fixpoint tree_height (node : NetworkNode) : nat :=
  match node with
  | Leaf _ _ => 1
  | Threshold _ _ children => S (list_max (map tree_height children))
  end.

Fixpoint thresholds_ok (node : NetworkNode) : bool :=
  match node with
  | Leaf _ _ => true
  | Threshold _ required children =>
      (1 <=? required) && (required <=? Z.of_nat (length children)) && forallb thresholds_ok children
  end.

(** The public limits of a policy, declaratively. *)
Definition well_formed (tpm_node_id : Z) (network : NetworkNode) : Prop :=
  (S (tree_height network) <= MAX_DEPTH)%nat /\ (2 + tree_size network <= MAX_NODES)%nat /\
  NoDup (tpm_node_id :: ids_of network) /\ NoDup (map snd (leaves_of network)) /\
  thresholds_ok network = true.

(** A tree is satisfied by the leaves with these identifiers. *)
Fixpoint satisfied (available : Z -> bool) (node : NetworkNode) : bool :=
  match node with
  | Leaf id _ => available id
  | Threshold _ required children =>
      (0 <? required) && (required <=? Z.of_nat (length children))
      && (required <=? Z.of_nat (length (List.filter (satisfied available) children)))
  end.

(** The gates of a tree whose first gate and first leaf have these positions. *)
Section GatesOf.
Context (gates_of : nat -> nat -> NetworkNode -> list Gate).

Fixpoint forest_gates (g l : nat) (children : list NetworkNode) : list Gate * list nat :=
  match children with
  | [] => ([], [])
  | child :: rest =>
      let '(gs, edges) := forest_gates (g + tree_size child) (l + length (leaves_of child)) rest in
      (gates_of g l child ++ gs, (g + tree_size child - 1)%nat :: edges)
  end.
End GatesOf.

Fixpoint gates_of (g l : nat) (node : NetworkNode) : list Gate :=
  match node with
  | Leaf _ _ => [GateLeaf l]
  | Threshold _ required children =>
      let '(gs, edges) := forest_gates (fun g l child => gates_of g l child) g l children in
      gs ++ [GateThreshold (Z.to_nat required) edges]
  end.

(** * Compilation succeeds exactly on well-formed trees *)

Abbreviation forest_size cs := (list_sum (map tree_size cs)).
Abbreviation forest_ids cs := (concat (map ids_of cs)).
Abbreviation forest_leaf_table cs := (concat (map leaves_of cs)).
Abbreviation gates_at := (fun g l child => gates_of g l child).

Definition admissible (depth : nat) (st : compile_state) (node : NetworkNode) : Prop :=
  (depth + tree_height node <= S MAX_DEPTH)%nat /\ (count st + tree_size node <= MAX_NODES)%nat /\
  NoDup (ids_of node) /\ (forall id, id ∈ ids_of node -> id ∉ ids st) /\
  NoDup (map snd (leaves_of node)) /\ (forall p, p ∈ map snd (leaves_of node) -> p ∉ providers st) /\
  thresholds_ok node = true.

Definition admissible_forest (depth : nat) (st : compile_state) (cs : list NetworkNode) : Prop :=
  Forall (fun c => depth + tree_height c <= S MAX_DEPTH)%nat cs /\
  (count st + forest_size cs <= MAX_NODES)%nat /\
  NoDup (forest_ids cs) /\ (forall id, id ∈ forest_ids cs -> id ∉ ids st) /\
  NoDup (map snd (forest_leaf_table cs)) /\
  (forall p, p ∈ map snd (forest_leaf_table cs) -> p ∉ providers st) /\
  forallb thresholds_ok cs = true.

Definition after_forest (st : compile_state) (cs : list NetworkNode) : compile_state :=
  mk_compile_state (count st + forest_size cs) (ids st ∪ list_to_set (forest_ids cs))
    (providers st ∪ list_to_set (map snd (forest_leaf_table cs)))
    (mk_plan (gates (compiling st) ++
                (forest_gates gates_at (length (gates (compiling st))) (length (leaves (compiling st))) cs).1)
             (leaves (compiling st) ++ forest_leaf_table cs)).

Definition after (st : compile_state) (node : NetworkNode) : compile_state :=
  mk_compile_state (count st + tree_size node) (ids st ∪ list_to_set (ids_of node))
    (providers st ∪ list_to_set (map snd (leaves_of node)))
    (mk_plan (gates (compiling st) ++
                gates_of (length (gates (compiling st))) (length (leaves (compiling st))) node)
             (leaves (compiling st) ++ leaves_of node)).

Lemma forest_gates_length g l cs :
  Forall (fun c => forall g l, length (gates_of g l c) = tree_size c) cs ->
  length (forest_gates gates_at g l cs).1 = forest_size cs /\
  length (forest_gates gates_at g l cs).2 = length cs.
Proof.
  intros H. revert g l. induction H as [|c cs Hc _ IH]; intros g l; [done|]. simpl.
  specialize (IH (g + tree_size c)%nat (l + length (leaves_of c))%nat).
  destruct (forest_gates _ _ _ cs) as [gs es]. simpl in *. rewrite length_app, Hc. lia.
Qed.

Lemma gates_of_length node : forall g l, length (gates_of g l node) = tree_size node.
Proof.
  induction node as [|id required children IH] using NetworkNode_nested_ind; intros g l; [done|].
  simpl. destruct (forest_gates_length g l children IH) as [H _].
  destruct (forest_gates _ g l children) as [gs es]. simpl in *. rewrite length_app. simpl. lia.
Qed.

Lemma forest_gates_sizes g l cs :
  length (forest_gates gates_at g l cs).1 = forest_size cs /\
  length (forest_gates gates_at g l cs).2 = length cs.
Proof. apply forest_gates_length, Forall_true. intros c. apply gates_of_length. Qed.

Lemma after_forest_gates st cs :
  length (gates (compiling (after_forest st cs))) = (length (gates (compiling st)) + forest_size cs)%nat.
Proof. unfold after_forest. cbn [compiling gates]. by rewrite length_app, (proj1 (forest_gates_sizes _ _ _)). Qed.

Lemma after_forest_nil st : after_forest st [] = st.
Proof.
  destruct st as [n i p [g l]]. unfold after_forest. simpl. rewrite !app_nil_r, Nat.add_0_r.
  f_equal; set_solver.
Qed.

Lemma after_forest_cons st c cs : after_forest st (c :: cs) = after_forest (after st c) cs.
Proof.
  unfold after_forest, after. simpl. rewrite !length_app, gates_of_length.
  destruct (forest_gates _ _ _ cs) as [gs es]. simpl. rewrite map_app, !list_to_set_app_L, <- !app_assoc.
  f_equal; [lia|set_solver..].
Qed.

Lemma admissible_forest_cons depth st c cs :
  admissible_forest depth st (c :: cs) <-> admissible depth st c /\ admissible_forest depth (after st c) cs.
Proof.
  unfold admissible_forest, admissible. simpl.
  rewrite Forall_cons, map_app, !NoDup_app, andb_true_iff.
  setoid_rewrite elem_of_app. setoid_rewrite elem_of_union. setoid_rewrite elem_of_list_to_set.
  split.
  - intros (H1 & H2 & H3 & H4 & H5 & H6 & H7). destruct_and!.
    repeat match goal with |- _ /\ _ => split end; try done; try lia; naive_solver.
  - intros [H H']. destruct_and!.
    repeat match goal with |- _ /\ _ => split end; try done; try lia; naive_solver.
Qed.

Lemma admissible_mono depth st c : admissible depth st c -> (count (after st c) <= MAX_NODES)%nat.
Proof. intros (_ & H & _). done. Qed.

(** [compile_node] at one depth computes [after] exactly on admissible nodes. *)
Definition compiles (depth : nat) (node : NetworkNode) : Prop :=
  forall st i st', compile_node node depth st = Ok (i, st') <->
    admissible depth st node /\ i = (length (gates (compiling st)) + tree_size node - 1)%nat /\
    st' = after st node.

Lemma compile_children_iff depth cs :
  Forall (compiles depth) cs ->
  forall st edges st', (count st <= MAX_NODES)%nat ->
  compile_children (fun child st => compile_node child depth st) cs st = Ok (edges, st') <->
  admissible_forest depth st cs /\
  edges = (forest_gates gates_at (length (gates (compiling st))) (length (leaves (compiling st))) cs).2 /\
  st' = after_forest st cs.
Proof.
  induction 1 as [|c cs Hc _ IH]; intros st edges st' Hst.
  - rewrite after_forest_nil. simpl. split.
    + intros [= <- <-]. split; [|done]. unfold admissible_forest. simpl. rewrite Nat.add_0_r.
      split_and!; try done; try constructor; intros ? Hin; by apply elem_of_nil in Hin.
    + by intros (_ & -> & ->).
  - rewrite after_forest_cons, admissible_forest_cons. simpl compile_children. simpl forest_gates.
    destruct (compile_node c depth st) as [[i st1]|e] eqn:E; simpl.
    + apply Hc in E as (Hadm & -> & ->). pose proof (admissible_mono _ _ _ Hadm) as Hm.
      specialize (IH (after st c)). simpl in IH. rewrite !length_app, gates_of_length in IH.
      destruct (forest_gates _ (length _ + _) _ cs) as [gs es] eqn:Ef. simpl in IH |- *.
      destruct (compile_children _ cs (after st c)) as [[edges2 st2]|e] eqn:Ecc; simpl.
      * destruct (IH edges2 st2) as [IH1 _]; [done|]. destruct IH1 as (Ha & -> & ->); [done|].
        split; [by intros [= <- <-]|by intros (_ & -> & ->)].
      * split; [done|]. intros ([_ Ha] & _ & _).
        destruct (IH es (after_forest (after st c) cs) Hm) as [_ IH2]. discriminate IH2. done.
    + split; [done|]. intros ([Ha _] & _ & _).
      destruct (Hc st (length (gates (compiling st)) + tree_size c - 1)%nat (after st c)) as [_ Hc2].
      rewrite E in Hc2. discriminate Hc2. done.
Qed.

Lemma list_max_Forall (f : NetworkNode -> nat) cs n :
  (list_max (map f cs) <= n)%nat <-> Forall (fun c => f c <= n)%nat cs.
Proof. rewrite list_max_le. split; intros H; [by apply Forall_map in H|by apply Forall_map]. Qed.

Lemma Forall_compiles depth cs :
  Forall (fun c => node_typed c -> forall depth, compiles depth c) cs -> Forall node_typed cs ->
  Forall (compiles depth) cs.
Proof. intros H Hty. rewrite Forall_forall in *. intros c Hc. apply H; auto. Qed.

Lemma compile_node_iff node : node_typed node -> forall depth, compiles depth node.
Proof.
  induction node as [id p|id required children IH] using NetworkNode_nested_ind;
    intros Hty depth st i st'.
  - cbn [compile_node node_id]. destruct (Nat.ltb_spec MAX_DEPTH depth) as [Hd|Hd];
      [split; [done|]; intros [[H _] _]; simpl in H; lia|].
    destruct (Nat.leb_spec MAX_NODES (count st)) as [Hn|Hn];
      [split; [done|]; intros [[_ [H _]] _]; simpl in H; lia|].
    destruct (decide (id ∈ ids st)) as [Hid|Hid].
    { split; [done|]. intros [(_ & _ & _ & H & _) _]. exfalso. apply (H id); [constructor|done]. }
    simpl. destruct (decide (p ∈ providers st)) as [Hp|Hp].
    { split; [done|]. intros [(_ & _ & _ & _ & _ & H & _) _]. exfalso. apply (H p); [constructor|done]. }
    assert (forall st1, st1 = mk_compile_state (S (count st)) ({[id]} ∪ ids st) (providers st) (compiling st) ->
      push_gate (push_leaf st1 id p) (GateLeaf (length (leaves (compiling st)))) = after st (Leaf id p)) as Est.
    { intros st1 ->. unfold push_gate, push_leaf, after. simpl. f_equal; [lia|set_solver..]. }
    simpl. rewrite Est by done. split.
    + intros [= <- <-]. split; [|split; [simpl; lia|done]]. unfold admissible. simpl.
      split_and!; try done; try lia; try apply NoDup_singleton; intros ? ->%list_elem_of_singleton; done.
    + intros (_ & -> & ->). do 2 f_equal. simpl. lia.
  - cbn [compile_node node_id]. destruct (Nat.ltb_spec MAX_DEPTH depth) as [Hd|Hd];
      [split; [done|]; intros [[H _] _]; simpl in H; lia|].
    destruct (Nat.leb_spec MAX_NODES (count st)) as [Hn|Hn];
      [split; [done|]; intros [[_ [H _]] _]; simpl in H; lia|].
    destruct (decide (id ∈ ids st)) as [Hid|Hid].
    { split; [done|]. intros [(_ & _ & _ & H & _) _]. exfalso. apply (H id); [constructor|done]. }
    inversion Hty as [|? ? ? _ Hreq Htys]; subst. unfold uint in Hreq.
    simpl. set (st1 := mk_compile_state _ _ _ _).
    assert (admissible depth st (Threshold id required children) <->
      1 <= required <= Z.of_nat (length children) /\ admissible_forest (S depth) st1 children) as ->.
    { unfold admissible, admissible_forest. simpl. rewrite NoDup_cons, !andb_true_iff, !Z.leb_le.
      setoid_rewrite elem_of_cons.
      rewrite <- (list_max_Forall (fun c => S depth + tree_height c)%nat).
      assert (list_max (map (fun c => S depth + tree_height c)%nat children) <= S MAX_DEPTH <->
        depth + S (list_max (map tree_height children)) <= S MAX_DEPTH)%nat as ->.
      { rewrite list_max_Forall.
        transitivity (list_max (map tree_height children) <= MAX_DEPTH - depth)%nat; [|lia].
        rewrite list_max_Forall. apply Forall_iff. intros c. lia. }
      setoid_rewrite elem_of_union. setoid_rewrite elem_of_singleton.
      split; intros; destruct_and!; split_and!; try done; try lia; clear IH Htys Hty; naive_solver. }
    destruct (Z.eqb_spec required 0) as [->|Hr0]; simpl orb; cbv match; simpl; [split; [done|lia]|].
    destruct (Z.ltb_spec (Z.of_nat (length children)) required) as [Hlt|Hle]; simpl; [split; [done|lia]|].
    pose proof (compile_children_iff (S depth) children
      (Forall_compiles (S depth) children IH Htys) st1) as Hcc.
    assert (count st1 <= MAX_NODES)%nat as Hst1 by (simpl; lia).
    assert (push_gate (after_forest st1 children) (GateThreshold (Z.to_nat required)
       (forest_gates gates_at (length (gates (compiling st1))) (length (leaves (compiling st1))) children).2)
       = after st (Threshold id required children)) as Est.
    { unfold push_gate, after_forest, after. simpl.
      destruct (forest_gates _ _ _ children) as [gs es]. simpl. rewrite <- app_assoc.
      f_equal; [lia|set_solver]. }
    destruct (compile_children _ children st1) as [[edges st2]|e] eqn:E; simpl.
    + destruct (proj1 (Hcc edges st2 Hst1) eq_refl) as (Ha & -> & ->). rewrite Est. split.
      * intros [= <- <-]. split; [split; [lia|done]|]. split; [|done].
        rewrite length_app, (proj1 (forest_gates_sizes _ _ _)). lia.
      * intros (_ & -> & ->). do 2 f_equal. rewrite after_forest_gates. simpl. lia.
    + split; [done|]. intros [[_ Ha] _].
      pose proof (proj2 (Hcc _ _ Hst1) (conj Ha (conj eq_refl eq_refl))). done.
Qed.

(** * Compiled plans pass their certificate check *)

Lemma counts_at_depth node : forall depth,
  (tree_height node <= depth)%nat ->
  node_count depth node = tree_size node /\ leaf_count depth node = length (leaves_of node).
Proof.
  induction node as [id p|id required children IH] using NetworkNode_nested_ind; intros [|depth] Hd;
    simpl in Hd; try lia; [done|].
  apply le_S_n, list_max_Forall in Hd. simpl.
  assert (map (node_count depth) children = map tree_size children /\
          map (leaf_count depth) children = map (fun c => length (leaves_of c)) children) as [-> ->].
  { rewrite Forall_forall in IH, Hd. split; apply map_ext_in; intros c Hc%list_elem_of_In;
      by destruct (IH c Hc depth (Hd c Hc)). }
  split; [done|]. rewrite length_concat, map_map. done.
Qed.

Abbreviation size_before cs i := (list_sum (map tree_size (take i cs))).
Abbreviation leaf_before cs i := (list_sum (map (fun c => length (leaves_of c)) (take i cs))).

(** The gates of a forest are the gates of its trees at consecutive offsets. *)
Lemma forest_gates_segments table gates cs : forall g l,
  segment gates g (forest_gates gates_at g l cs).1 -> segment table l (forest_leaf_table cs) ->
  consecutive tree_size cs g (forest_gates gates_at g l cs).2 /\
  forall i c, cs !! i = Some c ->
    segment gates (g + size_before cs i) (gates_of (g + size_before cs i) (l + leaf_before cs i) c) /\
    segment table (l + leaf_before cs i) (leaves_of c).
Proof.
  induction cs as [|c cs IH]; intros g l Hg Hl; [split; [split; [done|]|]; done|].
  simpl in Hg, Hl. apply segment_app in Hl as [Hl1 Hl2].
  specialize (IH (g + tree_size c)%nat (l + length (leaves_of c))%nat). simpl.
  destruct (forest_gates _ _ _ cs) as [gs es]. simpl in *.
  apply segment_app in Hg as [Hg1 Hg2]. rewrite gates_of_length in Hg2.
  destruct (IH Hg2 Hl2) as [Hcons Hall]. split; [by apply consecutive_cons|].
  intros [|i] c' Hc'; simpl in *.
  - injection Hc' as ->. by rewrite !Nat.add_0_r.
  - rewrite !Nat.add_assoc. by apply Hall.
Qed.

Lemma consecutive_ext f f' cs g edges :
  Forall (fun c => f c = f' c) cs -> consecutive f cs g edges -> consecutive f' cs g edges.
Proof.
  intros H. revert g edges. induction H as [|c cs Hc _ IH]; intros g [|e edges] Hcons;
    try (by destruct Hcons).
  apply consecutive_cons in Hcons as [-> Hcons]. apply consecutive_cons. rewrite <- Hc. auto.
Qed.

Lemma sums_at_depth depth children :
  Forall (fun c => tree_height c <= depth)%nat children ->
  map (node_count depth) children = map tree_size children /\
  map (leaf_count depth) children = map (fun c => length (leaves_of c)) children.
Proof.
  intros H. rewrite Forall_forall in H.
  split; apply map_ext_in; intros c Hc%list_elem_of_In; by apply counts_at_depth, H.
Qed.

Lemma gates_of_compiled table gates node : forall depth g l,
  thresholds_ok node = true -> (tree_height node <= depth)%nat ->
  segment gates g (gates_of g l node) -> segment table l (leaves_of node) ->
  compiled_at depth node gates table g l.
Proof.
  induction node as [id p|id required children IH] using NetworkNode_nested_ind;
    intros [|depth] g l Hok Hd Hg Hl; simpl in Hd; try lia.
  - apply segment_cons in Hg as [Hg _]. apply segment_cons in Hl as [Hl _].
    apply lookup_lt_Some in Hg as Hg'. apply lookup_lt_Some in Hl as Hl'. simpl. split_and!; try done; lia.
  - simpl in Hok. rewrite !andb_true_iff, !Z.leb_le, forallb_forall in Hok.
    destruct Hok as [[Hr1 Hr2] Hok]. apply le_S_n, list_max_Forall in Hd.
    destruct (sums_at_depth depth children Hd) as [E1 E2].
    pose proof (forest_gates_segments table gates children g l) as Hseg.
    pose proof (forest_gates_sizes g l children) as [Hsz _].
    simpl in Hg. destruct (forest_gates _ g l children) as [gs es]. simpl in Hseg, Hsz.
    apply segment_app in Hg as [Hgs Hroot]. apply segment_cons in Hroot as [Hroot _].
    destruct (Hseg Hgs Hl) as [Hcons Hall].
    apply compiled_threshold_iff. split; [lia|]. split.
    + intros i c Hc. rewrite <- !firstn_map, E1, E2, !firstn_map.
      assert (c ∈ children) as Hin by by eapply list_elem_of_lookup_2.
      rewrite Forall_forall in IH, Hd. destruct (Hall i c Hc).
      apply IH; auto. apply Hok. by apply list_elem_of_In.
    + exists es. rewrite E1, <- Hsz. split; [done|].
      eapply consecutive_ext; [|exact Hcons]. rewrite Forall_forall in Hd |- *.
      intros c Hc. symmetry. by apply counts_at_depth, Hd.
Qed.

Definition plan_of (network : NetworkNode) : NetworkPlan :=
  mk_plan (gates_of 0 0 network) (leaves_of network).

Lemma leaves_of_typed node : node_typed node -> leaves_typed (leaves_of node).
Proof.
  induction node as [id p|id required children IH] using NetworkNode_nested_ind; intros Hty;
    inversion Hty as [? ? ? ?|? ? ? ? ? Htys]; subst; unfold leaves_typed; simpl.
  - by constructor.
  - apply Forall_concat, Forall_map. rewrite Forall_forall in IH, Htys |- *. intros c Hc.
    apply IH; auto.
Qed.

Lemma plan_certified network :
  node_typed network -> thresholds_ok network = true -> (tree_height network <= 3)%nat ->
  check_compilation network (gates (plan_of network)) (leaves (plan_of network)) = true.
Proof.
  intros Hty Hok Hh. apply check_compilation_iff; [done|by apply leaves_of_typed|].
  destruct (counts_at_depth network 3 Hh) as [-> ->]. split; [|by rewrite <- (gates_of_length network 0 0)].
  apply gates_of_compiled; auto using segment_self.
Qed.

(** The whole constructor. *)
Lemma new_policy_iff mode tpm network policy :
  node_typed network ->
  new_policy mode tpm network = Ok policy <->
  well_formed tpm network /\ policy = mk_policy mode tpm network (plan_of network).
Proof.
  intros Hty. unfold new_policy.
  set (st0 := mk_compile_state 2 {[tpm]} ∅ (mk_plan [] [])).
  assert (admissible 2 st0 network <-> well_formed tpm network) as Hwf.
  { unfold admissible, well_formed. simpl. setoid_rewrite elem_of_singleton. rewrite NoDup_cons.
    unfold MAX_DEPTH. split; intros; destruct_and!; split_and!; try done; try lia; set_solver. }
  pose proof (compile_node_iff network Hty 2 st0) as Hc.
  destruct (compile_node network 2 st0) as [[i st]|e]; simpl.
  - destruct (proj1 (Hc i st) eq_refl) as (Ha & _ & ->). apply Hwf in Ha.
    change (compiling (after st0 network)) with (plan_of network).
    destruct Ha as (Hh & Hn & Hids & Hps & Hok) eqn:E. unfold MAX_DEPTH in Hh.
    rewrite plan_certified by (done || lia). simpl. split; [by intros [= <-]|by intros [_ ->]].
  - split; [done|]. intros [H%Hwf _].
    pose proof (proj2 (Hc _ _) (conj H (conj eq_refl eq_refl))). done.
Qed.

(** * Responses and satisfaction *)

Definition marks (table : leaf_table) (seen : list Z) : list bool :=
  map (fun leaf => bool_decide (leaf.1 ∈ seen)) table.

Lemma marks_length table seen : length (marks table seen) = length table.
Proof. apply length_map. Qed.

Lemma marks_nil table : marks table [] = replicate (length table) false.
Proof. induction table as [|leaf table IH]; [done|]. simpl. by rewrite <- IH. Qed.

Lemma marks_lookup table seen i leaf :
  table !! i = Some leaf -> marks table seen !! i = Some (bool_decide (leaf.1 ∈ seen)).
Proof. intros H. unfold marks. change (map ?f table) with (f <$> table). by rewrite list_lookup_fmap, H. Qed.

Lemma leaf_position_Some table id i :
  leaf_position table id = Some i -> exists p, table !! i = Some (id, p).
Proof.
  unfold leaf_position. intros H. apply fmap_Some in H as ([j [x p]] & H & ->).
  apply list_find_Some in H as (H & <- & _). by exists p.
Qed.

Lemma leaf_position_None table id : leaf_position table id = None <-> id ∉ map fst table.
Proof.
  unfold leaf_position. rewrite fmap_None, list_find_None, Forall_forall. split.
  - intros H Hin. apply list_elem_of_In, in_map_iff in Hin as (leaf & <- & Hl).
    apply (H leaf); [by apply list_elem_of_In|done].
  - intros H leaf Hl <-. apply H, list_elem_of_In, in_map. by apply list_elem_of_In.
Qed.

Lemma ids_lookup_inj (table : leaf_table) i j a b :
  NoDup (map fst table) -> table !! i = Some a -> table !! j = Some b -> a.1 = b.1 -> i = j.
Proof.
  intros Hnd Ha Hb E. eapply (NoDup_lookup (map fst table)); [done| |].
  - change (map fst table) with (fst <$> table). by rewrite list_lookup_fmap, Ha.
  - change (map fst table) with (fst <$> table). rewrite list_lookup_fmap, Hb. simpl. congruence.
Qed.

(** Recording an identifier marks exactly its leaf. *)
Lemma record_marks table seen id i p :
  NoDup (map fst table) -> table !! i = Some (id, p) ->
  record_response (marks table seen) i =
    if decide (id ∈ seen) then (false, marks table seen) else (true, marks table (id :: seen)).
Proof.
  intros Hnd Hi. unfold record_response. rewrite (marks_lookup _ _ _ _ Hi). simpl.
  destruct (decide (id ∈ seen)) as [Hin|Hin].
  - by rewrite bool_decide_true.
  - rewrite bool_decide_false by done. f_equal. apply list_eq. intros j.
    destruct (table !! j) as [[id' p']|] eqn:Hj.
    + rewrite (marks_lookup _ (id :: seen) _ _ Hj). destruct (decide (i = j)) as [->|Hne].
      * rewrite list_lookup_insert_eq by (rewrite marks_length; by eapply lookup_lt_Some).
        simplify_eq. by rewrite bool_decide_true by constructor.
      * rewrite list_lookup_insert_ne, (marks_lookup _ _ _ _ Hj) by done. f_equal.
        apply bool_decide_ext. simpl. rewrite elem_of_cons. split; [by right|].
        intros [->|]; [|done]. exfalso. apply Hne. by eapply ids_lookup_inj.
    + rewrite !(proj2 (lookup_ge_None _ _)); [done|..];
        rewrite ?length_insert, marks_length; by apply lookup_ge_None.
Qed.

Lemma marks_perm table seen seen' : (forall id, id ∈ seen <-> id ∈ seen') -> marks table seen = marks table seen'.
Proof. intros H. apply map_ext. intros leaf. by apply bool_decide_ext. Qed.

Lemma record_all_iff table available : NoDup (map fst table) -> forall seen rs,
  record_all table available (marks table seen) = Ok rs <->
  (forall id, id ∈ available -> id ∈ map fst table /\ id ∉ seen) /\ NoDup available /\
  rs = marks table (available ++ seen).
Proof.
  intros Hnd. induction available as [|id available IH]; intros seen rs; simpl.
  - split; [intros [= <-]|by intros (_ & _ & ->)]. split; [|split; [constructor|done]].
    intros id Hid. by apply elem_of_nil in Hid.
  - rewrite NoDup_cons. setoid_rewrite elem_of_cons.
    destruct (leaf_position table id) as [i|] eqn:Ei; simpl.
    + apply leaf_position_Some in Ei as [p Ei]. rewrite (record_marks _ _ _ _ _ Hnd Ei).
      assert (id ∈ map fst table) as Hid.
      { apply list_elem_of_In, (in_map fst _ (id, p)), list_elem_of_In. by eapply list_elem_of_lookup_2. }
      destruct (decide (id ∈ seen)) as [Hs|Hs]; simpl.
      * split; [done|]. intros (H & _). exfalso. apply (H id); [by left|done].
      * rewrite IH. setoid_rewrite elem_of_cons.
        rewrite (marks_perm table (available ++ id :: seen) (id :: available ++ seen))
          by (intros; rewrite !elem_of_app, !elem_of_cons, elem_of_app; tauto).
        split; intros (H1 & H2 & H3); split_and!; try done; naive_solver.
    + apply leaf_position_None in Ei. split; [done|]. intros (H & _). exfalso. apply Ei, H. by left.
Qed.

Lemma responses_iff table available gs rs :
  NoDup (map fst table) ->
  responses (mk_plan gs table) available = Ok rs <->
  (forall id, id ∈ available -> id ∈ map fst table) /\ NoDup available /\ rs = marks table available.
Proof.
  intros Hnd. unfold responses. simpl. rewrite <- marks_nil, record_all_iff by done.
  rewrite app_nil_r. split; intros (H1 & H2 & ->); split_and!; try done.
  - intros id Hid. by apply H1.
  - intros id Hid. split; [by apply H1|]. apply not_elem_of_nil.
Qed.

Lemma source_value_satisfied available rs node : forall depth l,
  (tree_height node <= depth)%nat ->
  segment rs l (map (fun leaf => available leaf.1) (leaves_of node)) ->
  source_value depth node rs l = satisfied available node.
Proof.
  induction node as [id p|id required children IH] using NetworkNode_nested_ind;
    intros [|depth] l Hd Hseg; simpl in Hd; try lia; simpl.
  - apply segment_cons in Hseg as [Hl _]. unfold read. by rewrite (nth_lookup_Some _ _ _ _ Hl).
  - apply le_S_n, list_max_Forall in Hd. f_equal. f_equal. f_equal. simpl in Hseg.
    revert l Hseg. induction IH as [|c cs Hc _ IHcs]; intros l Hseg; [done|].
    inversion Hd as [|? ? Hdc Hdcs]; subst. simpl in Hseg |- *. rewrite map_app in Hseg.
    apply segment_app in Hseg as [H1 H2]. rewrite length_map in H2.
    rewrite (Hc depth l Hdc H1). destruct (counts_at_depth c depth Hdc) as [_ ->].
    rewrite IHcs by done. by destruct (satisfied available c).
Qed.

Lemma network_value available network :
  node_typed network -> thresholds_ok network = true -> (tree_height network <= 3)%nat ->
  evaluate_network (gates_of 0 0 network) (marks (leaves_of network) available) =
    satisfied (fun id => bool_decide (id ∈ available)) network.
Proof.
  intros Hty Hok Hh. rewrite (compiled_network_value network _ (leaves_of network)).
  - apply source_value_satisfied; [done|]. apply segment_self.
  - apply gates_of_compiled; auto using segment_self.
  - destruct (counts_at_depth network 3 Hh) as [-> _]. apply gates_of_length.
Qed.

(** Satisfaction is monotone in the available leaves. *)
Lemma satisfied_mono (a b : Z -> bool) node :
  (forall id, a id = true -> b id = true) -> satisfied a node = true -> satisfied b node = true.
Proof.
  intros Hab. induction node as [id p|id required children IH] using NetworkNode_nested_ind; simpl; [auto|].
  rewrite !andb_true_iff, !Z.leb_le. intros [Hr Hc]. split; [done|].
  assert (length (List.filter (satisfied a) children) <= length (List.filter (satisfied b) children))%nat;
    [|lia].
  clear Hr Hc. induction IH as [|c cs Hc _ IHcs]; simpl; [done|].
  destruct (satisfied a c) eqn:Ea; [rewrite (Hc eq_refl)|destruct (satisfied b c)]; simpl; lia.
Qed.

(** * Sharing along the tree *)

Section SplitForest.
Context {R : Type} (split_node : NetworkNode -> list Z -> R -> result (fault PolicyError) (list NetworkShare) * R).

Fixpoint split_forest (children : list NetworkNode) (shares : list Share) (rng : R)
    : result (fault PolicyError) (list NetworkShare) * R :=
  match children, shares with
  | child :: children', share :: shares' =>
      match split_node child (value share) rng with
      | (Err e, rng1) => (Err e, rng1)
      | (Ok pushed, rng1) =>
          match split_forest children' shares' rng1 with
          | (Err e, rng2) => (Err e, rng2)
          | (Ok rest, rng2) => (Ok (pushed ++ rest), rng2)
          end
      end
  | _, _ => (Ok [], rng)
  end.
End SplitForest.

(** The recursive sharing of a secret down the source tree. *)
Fixpoint split_tree {R} `{Rng R} (node : NetworkNode) (secret : list Z) (rng : R)
    : result (fault PolicyError) (list NetworkShare) * R :=
  match node with
  | Leaf id _ => (Ok [(id, secret)], rng)
  | Threshold _ required children =>
      match split secret required (Z.of_nat (length children)) rng with
      | (Err e, rng1) => (Err (Fault (Sharing e)), rng1)
      | (Ok shares, rng1) =>
          split_forest (fun child secret rng => split_tree child secret rng) children shares rng1
      end
  end.

Definition supplied (recovered : list NetworkShare) (id : Z) : option (list Z) :=
  snd <$> find (fun '(node, _) => Z.eqb node id) recovered.

(** Present values as shares with their position as coordinate. *)
Fixpoint collect (position : nat) (values : list (option (list Z))) : list Share :=
  match values with
  | [] => []
  | None :: rest => collect (S position) rest
  | Some secret :: rest => mk_share (Z.of_nat (S position)) secret :: collect (S position) rest
  end.

Section RecoverForest.
Context (recover_node : NetworkNode -> result (fault PolicyError) (option (list Z))).

Fixpoint recover_forest (children : list NetworkNode) : result (fault PolicyError) (list (option (list Z))) :=
  match children with
  | [] => Ok []
  | child :: rest => v ← recover_node child; vs ← recover_forest rest; Ok (v :: vs)
  end.
End RecoverForest.

(** The recursive recovery up the source tree. *)
Fixpoint recover_tree (recovered : list NetworkShare) (node : NetworkNode)
    : result (fault PolicyError) (option (list Z)) :=
  match node with
  | Leaf id _ => Ok (supplied recovered id)
  | Threshold _ required children =>
      vs ← recover_forest (fun child => recover_tree recovered child) children;
      let shares := collect 0 vs in
      if (length shares <? Z.to_nat required)%nat then Ok None
      else secret ← fallible (map_err Sharing (reconstruct required shares)); Ok (Some secret)
  end.

Lemma forest_length_size cs : (length cs <= forest_size cs)%nat.
Proof.
  induction cs as [|c cs IH]; simpl; [done|]. assert (1 <= tree_size c)%nat by (destruct c; simpl; lia). lia.
Qed.

Lemma tree_size_pos node : (1 <= tree_size node)%nat.
Proof. destruct node; simpl; lia. Qed.

Lemma wrap8_id z : 0 <= z < 256 -> wrap 8 z = z.
Proof. intros. apply wrap_id. unfold uint. lia. Qed.

Lemma split_gate_tree {R} `{Rng R} table gs node : forall fuel g l secret (rng : R),
  thresholds_ok node = true -> (tree_size node <= 255)%nat -> (tree_height node <= fuel)%nat ->
  segment gs g (gates_of g l node) -> segment table l (leaves_of node) ->
  split_gate fuel (mk_plan gs table) (g + tree_size node - 1) secret rng = split_tree node secret rng.
Proof.
  induction node as [id p|id required children IH] using NetworkNode_nested_ind;
    intros [|fuel] g l secret rng Hok Hsz Hd Hg Hl; simpl in Hd; try lia.
  - apply segment_cons in Hg as [Hg _]. apply segment_cons in Hl as [Hl _].
    simpl. by rewrite Nat.add_sub, Hg, Hl.
  - simpl in Hok. rewrite !andb_true_iff, !Z.leb_le in Hok. destruct Hok as [[Hr1 Hr2] Hok].
    apply le_S_n, list_max_Forall in Hd. pose proof (forest_length_size children) as Hlen.
    pose proof (forest_gates_segments table gs children g l) as Hseg.
    pose proof (forest_gates_sizes g l children) as [Hs1 Hs2]. simpl in Hg, Hsz.
    simpl split_gate. simpl split_tree. simpl tree_size.
    destruct (forest_gates _ g l children) as [fg es]. simpl in Hseg, Hs1, Hs2.
    apply segment_app in Hg as [Hgs Hroot]. apply segment_cons in Hroot as [Hroot _].
    replace (g + S (forest_size children) - 1)%nat with (g + length fg)%nat by lia.
    rewrite Hroot, Hs2, !wrap8_id by lia. rewrite Z2Nat.id by lia.
    destruct (split secret required (Z.of_nat (length children)) rng) as [[shares|e] rng1]; [|done].
    destruct (Hseg Hgs Hl) as [Hcons Hall]. clear Hseg Hgs Hl Hroot Hs1 Hs2 Hr1 Hr2 Hlen fg.
    revert g l es shares rng1 Hcons Hall Hsz Hok Hd.
    induction IH as [|c cs Hc _ IHcs]; intros g l [|e es] [|sh shares] rng1 Hcons Hall Hsz Hok Hd;
      try (by destruct Hcons).
    apply consecutive_cons in Hcons as [-> Hcons]. inversion Hd; subst.
    simpl in Hok. apply andb_true_iff in Hok as [Hokc Hok]. simpl in Hsz. simpl.
    destruct (Hall 0%nat c eq_refl) as [Hg0 Hl0]. simpl in Hg0, Hl0.
    rewrite !Nat.add_0_r in Hg0. rewrite Nat.add_0_r in Hl0.
    rewrite (Hc fuel g l) by (done || lia).
    destruct (split_tree c (value sh) rng1) as [[pushed|e] rng2]; [|done].
    rewrite (IHcs (g + tree_size c)%nat (l + length (leaves_of c))%nat); try done; [|lia].
    intros i c' Hc'. specialize (Hall (S i) c' Hc'). simpl in Hall. by rewrite !Nat.add_assoc in Hall.
Qed.

(** The values left by a forest: its inner values are consumed, its roots remain. *)
Fixpoint forest_values (cs : list NetworkNode) (vs : list (option (list Z))) : list (option (list Z)) :=
  match cs, vs with
  | c :: cs', v :: vs' => replicate (tree_size c - 1) None ++ [v] ++ forest_values cs' vs'
  | _, _ => []
  end.

Lemma take_shares_forest cs : forall vs edges position pre acc,
  length vs = length cs -> (position + length cs <= 255)%nat -> consecutive tree_size cs (length pre) edges ->
  take_shares edges position (pre ++ forest_values cs vs) acc =
    Ok (pre ++ replicate (forest_size cs) None, acc ++ collect position vs).
Proof.
  induction cs as [|c cs IH]; intros [|v vs] [|e edges] position pre acc Hlen Hpos Hcons;
    try discriminate; try (by destruct Hcons).
  - simpl. by rewrite !app_nil_r.
  - apply consecutive_cons in Hcons as [-> Hcons]. pose proof (tree_size_pos c) as Hsz. simpl in Hpos.
    simpl take_shares. simpl forest_values. rewrite (app_assoc pre).
    set (pre1 := pre ++ replicate (tree_size c - 1) None).
    assert (length pre1 = length pre + tree_size c - 1)%nat as Hpre1
      by (unfold pre1; rewrite length_app, length_replicate; lia).
    assert (pre1 ++ [None] = pre ++ replicate (tree_size c) None) as Enone.
    { unfold pre1. rewrite <- app_assoc. f_equal. replace (tree_size c) with (S (tree_size c - 1)) at 2 by lia.
      by rewrite replicate_S_end. }
    rewrite <- Hpre1 at 1. rewrite (list_lookup_middle _ _ v _ eq_refl). simpl.
    assert (length (pre ++ replicate (tree_size c) None) = length pre + tree_size c)%nat as Hlp
      by (by rewrite length_app, length_replicate).
    rewrite <- Hlp in Hcons.
    destruct v as [s|].
    + unfold from_parts. rewrite wrap8_id by lia. destruct (Z.eqb_spec (Z.of_nat (S position)) 0); [lia|].
      simpl. rewrite <- Hpre1, insert_app_r_alt, Nat.sub_diag by lia. simpl.
      change (None :: forest_values cs vs) with ([None] ++ forest_values cs vs).
      rewrite app_assoc, Enone, IH; [|by injection Hlen|lia|done].
      by rewrite replicate_add, <- !app_assoc.
    + change (None :: forest_values cs vs) with ([None] ++ forest_values cs vs).
      rewrite app_assoc, Enone, IH; [|by injection Hlen|lia|done].
      by rewrite replicate_add, <- !app_assoc.
Qed.

Lemma recover_gates_app plan recovered gs1 gs2 values :
  recover_gates plan recovered (gs1 ++ gs2) values =
  (values' ← recover_gates plan recovered gs1 values; recover_gates plan recovered gs2 values').
Proof.
  revert values. induction gs1 as [|gate gs1 IH]; intros values; simpl; [done|].
  destruct (recover_gate plan recovered gate values); simpl; [apply IH|done].
Qed.

Lemma recover_forest_length recover cs vs : recover_forest recover cs = Ok vs -> length vs = length cs.
Proof.
  revert vs. induction cs as [|c cs IH]; intros vs H; simpl in H; [by simplify_eq|].
  destruct (recover c); [|done]. simpl in H. destruct (recover_forest recover cs); [|done].
  simpl in H. injection H as <-. simpl. f_equal. by apply IH.
Qed.

(** The loop over the gates of a tree is the recovery of the tree: it appends the recovered
    value of the root after consumed slots. *)
Definition recovers (table : leaf_table) (gs : list Gate) (recovered : list NetworkShare)
    (node : NetworkNode) : Prop :=
  forall g l values,
  thresholds_ok node = true -> (tree_size node <= 255)%nat -> length values = g ->
  segment table l (leaves_of node) ->
  recover_gates (mk_plan gs table) recovered (gates_of g l node) values =
  (v ← recover_tree recovered node; Ok (values ++ replicate (tree_size node - 1) None ++ [v])).

Lemma recover_gates_forest table gs recovered cs :
  Forall (recovers table gs recovered) cs -> forall g l values,
  forallb thresholds_ok cs = true -> (forest_size cs <= 255)%nat -> length values = g ->
  segment table l (forest_leaf_table cs) ->
  recover_gates (mk_plan gs table) recovered (forest_gates gates_at g l cs).1 values =
  (vs ← recover_forest (fun child => recover_tree recovered child) cs;
   Ok (values ++ forest_values cs vs)) /\
  consecutive tree_size cs g (forest_gates gates_at g l cs).2.
Proof.
  induction 1 as [|c cs Hc _ IH]; intros g l values Hok Hsz Hg Hl; simpl.
  - rewrite app_nil_r. split; [done|]. split; [done|]. done.
  - simpl in Hok, Hsz, Hl. apply andb_true_iff in Hok as [Hokc Hok].
    apply segment_app in Hl as [Hl1 Hl2].
    specialize (IH (g + tree_size c)%nat (l + length (leaves_of c))%nat).
    destruct (forest_gates _ _ _ cs) as [fg es]. simpl in IH |- *.
    rewrite recover_gates_app, (Hc g l values) by (done || lia). pose proof (tree_size_pos c).
    split.
    + destruct (recover_tree recovered c) as [v|e]; simpl; [|done].
      destruct (IH (values ++ replicate (tree_size c - 1) None ++ [v])) as [-> _]; try done; [lia| |].
      { rewrite !length_app, length_replicate. simpl. lia. }
      destruct (recover_forest _ cs) as [vs|e]; simpl; [|done].
      by rewrite <- !app_assoc.
    + apply consecutive_cons. split; [done|].
      destruct (IH (replicate (g + tree_size c) None)) as [_ Hcons]; try done; [lia|].
      by rewrite length_replicate.
Qed.

Lemma recover_gates_tree table gs recovered node : recovers table gs recovered node.
Proof.
  induction node as [id p|id required children IH] using NetworkNode_nested_ind;
    intros g l values Hok Hsz Hg Hl.
  - apply segment_cons in Hl as [Hl _]. simpl. by rewrite Hl.
  - simpl in Hok. rewrite !andb_true_iff, !Z.leb_le in Hok. destruct Hok as [[Hr1 Hr2] Hok].
    pose proof (forest_length_size children) as Hlen. simpl in Hsz, Hl. simpl.
    destruct (recover_gates_forest table gs recovered children IH g l values Hok ltac:(lia) Hg Hl)
      as [Hrun Hcons].
    destruct (forest_gates _ g l children) as [fg es]. simpl in Hrun, Hcons |- *.
    rewrite recover_gates_app, Hrun.
    destruct (recover_forest _ children) as [vs|e] eqn:Evs; simpl; [|done].
    apply recover_forest_length in Evs. subst g.
    rewrite take_shares_forest by (done || lia). simpl. rewrite Nat.sub_0_r.
    destruct (length (collect 0 vs) <? Z.to_nat required)%nat; simpl; [by rewrite <- app_assoc|].
    rewrite Z2Nat.id, wrap8_id by lia.
    destruct (reconstruct required (collect 0 vs)); simpl; [by rewrite <- app_assoc|done].
Qed.

Lemma recover_network_tree policy recovered :
  plan policy = plan_of (network policy) -> thresholds_ok (network policy) = true ->
  (tree_size (network policy) <= 255)%nat ->
  recover_network policy recovered =
  (_ ← fallible (responses (plan policy) (map fst recovered));
   v ← recover_tree recovered (network policy);
   ok_or v (Fault FactorsNotSatisfied)).
Proof.
  intros Hp Hok Hsz. unfold recover_network. rewrite Hp.
  pose proof (recover_gates_tree (leaves_of (network policy)) (gates_of 0 0 (network policy)) recovered
    (network policy) 0%nat 0%nat [] Hok Hsz eq_refl (segment_self _)) as E.
  change (mk_plan (gates_of 0 0 (network policy)) (leaves_of (network policy)))
    with (plan_of (network policy)) in E.
  change (gates (plan_of (network policy))) with (gates_of 0 0 (network policy)). rewrite E.
  destruct (fallible _); simpl; [|done].
  destruct (recover_tree recovered (network policy)) as [v|e]; simpl; [|done].
  rewrite last_snoc. by destruct v.
Qed.

(** * Sharing then recovering a tree *)

Definition has (recovered : list NetworkShare) (id : Z) : bool :=
  match supplied recovered id with Some _ => true | None => false end.

Lemma collect_spec position vs i v :
  collect position vs !! i = Some v ->
  exists j s, vs !! j = Some (Some s) /\ v = mk_share (Z.of_nat (S (position + j))) s.
Proof.
  revert position i. induction vs as [|[s|] vs IH]; intros position i H; simpl in H; [done|..].
  - destruct i as [|i].
    + injection H as <-. exists 0%nat, s. by rewrite Nat.add_0_r.
    + apply IH in H as (j & s' & Hj & ->). exists (S j), s'. split; [done|]. f_equal. lia.
  - apply IH in H as (j & s' & Hj & ->). exists (S j), s'. split; [done|]. f_equal. lia.
Qed.

Lemma collect_length position vs : length (collect position vs) = length (List.filter (fun v => match v with Some _ => true | None => false end) vs).
Proof. revert position. induction vs as [|[s|] vs IH]; intros position; simpl; [done|by rewrite IH|apply IH]. Qed.

Lemma collect_NoDup position vs :
  NoDup (map index (collect position vs)) /\
  forall x, x ∈ map index (collect position vs) -> Z.of_nat position < x <= Z.of_nat (position + length vs).
Proof.
  revert position. induction vs as [|v vs IH]; intros position; simpl.
  - split; [constructor|]. intros x Hx. by apply elem_of_nil in Hx.
  - destruct (IH (S position)) as [Hnd Hb]. destruct v as [s|]; simpl.
    + split.
      * constructor; [|done]. intros Hin. apply Hb in Hin. lia.
      * intros x [->|Hx]%elem_of_cons; [lia|]. apply Hb in Hx. lia.
    + split; [done|]. intros x Hx. apply Hb in Hx. lia.
Qed.

(** The present shares of a split, at least [required] of them, reconstruct its secret. *)
Lemma reconstruct_collect required secret coefs n vs :
  1 <= required <= Z.of_nat n -> (n <= 31)%nat -> byte_array SECRET_LEN secret ->
  coefficients_ok required coefs -> length vs = n ->
  (forall j s, vs !! j = Some (Some s) -> s = points_at secret coefs (Z.of_nat (S j))) ->
  (Z.to_nat required <= length (collect 0 vs))%nat ->
  reconstruct required (collect 0 vs) = Ok secret.
Proof.
  intros Hr Hn Hs Hc Hlen Hvs Hcount.
  destruct (collect_NoDup 0 vs) as [Hnd Hb].
  assert (forall v, v ∈ collect 0 vs -> 0 < index v <= Z.of_nat n /\ value v = points_at secret coefs (index v))
    as Hin.
  { intros v Hv. split.
    - rewrite <- Hlen. apply (Hb (index v)), list_elem_of_In, in_map. by apply list_elem_of_In.
    - apply list_elem_of_lookup in Hv as [i Hi]. apply collect_spec in Hi as (j & s & Hj & ->). by apply Hvs. }
  apply (reconstruct_sharing _ _ coefs); try done; unfold MAX_SHARES; [lia| | | |].
  - split; [lia|]. pose proof (filter_length_le (fun v : option (list Z) => match v with Some _ => true | None => false end) vs) as Hle.
    rewrite collect_length. lia.
  - apply Forall_forall. intros v Hv. destruct (Hin v Hv) as [Hi Hval]. split; [unfold uint; lia|].
    rewrite Hval. destruct Hs as [Hsl Hs], Hc as [Hcl Hc]. rewrite <- Hsl at 1.
    apply points_at_ok; [done| |congruence|unfold uint; lia].
    eapply Forall_impl; [exact Hc|by intros cs [? ?]].
  - split; [|done]. apply Forall_forall. intros v Hv. apply Hin in Hv. lia.
  - intros v Hv. by apply Hin.
Qed.

Definition network_limits (node : NetworkNode) : Prop :=
  node_typed node /\ thresholds_ok node = true /\ (tree_size node <= 31)%nat.

Lemma split_children_shares {R} `{RngSound R} id required children secret (rng : R) shares rng' :
  network_limits (Threshold id required children) -> byte_array SECRET_LEN secret ->
  split secret required (Z.of_nat (length children)) rng = (Ok shares, rng') ->
  Forall network_limits children /\ 1 <= required <= Z.of_nat (length children) /\
  (length children <= 31)%nat /\ length shares = length children /\
  exists coefs, coefficients_ok required coefs /\
    forall j sh, shares !! j = Some sh ->
      value sh = points_at secret coefs (Z.of_nat (S j)) /\ byte_array SECRET_LEN (value sh).
Proof.
  intros (Hty & Hok & Hsz) Hs Hrun. inversion Hty as [|? ? ? _ Hr Htys]; subst.
  simpl in Hok, Hsz. rewrite !andb_true_iff, !Z.leb_le, forallb_forall in Hok. destruct Hok as [Hr2 Hok].
  pose proof (forest_length_size children) as Hlen.
  assert (u8 (Z.of_nat (length children))) as Hu by (unfold uint; lia).
  apply split_Ok in Hrun as (_ & _ & coefs & _ & Hc & ->); [|done..].
  split; [|split; [done|split; [lia|split]]].
  - apply Forall_lookup. intros i c Hi. rewrite Forall_forall in Htys.
    assert (c ∈ children) as Hin by by eapply list_elem_of_lookup_2.
    split_and!; [by apply Htys|by apply Hok, list_elem_of_In|].
    pose proof (list_sum_take_le tree_size children i c Hi). lia.
  - rewrite length_map, length_seq. lia.
  - exists coefs. split; [done|]. intros j sh Hj. change (map ?f ?l) with (f <$> l) in Hj.
    rewrite list_lookup_fmap in Hj. apply fmap_Some in Hj as (i & Hi & ->).
    apply lookup_seq in Hi as [-> Hi]. simpl. split; [done|].
    destruct Hs as [Hsl Hs], Hc as [Hcl Hc]. rewrite <- Hsl at 1.
    apply points_at_ok; [done| |congruence|unfold uint; lia].
    eapply Forall_impl; [exact Hc|by intros cs [? ?]].
Qed.

(** A successful sharing lists the leaves of the tree, in order, with 32-byte payloads. *)
Definition shares_leaves {R} `{RngSound R} (node : NetworkNode) : Prop :=
  forall secret (rng : R) out rng', network_limits node -> byte_array SECRET_LEN secret ->
  split_tree node secret rng = (Ok out, rng') ->
  map fst out = map fst (leaves_of node) /\ Forall (fun leaf => byte_array SECRET_LEN leaf.2) out.

Lemma split_forest_leaves {R} `{RngSound R} cs :
  Forall shares_leaves cs -> Forall network_limits cs ->
  forall shares (rng : R) out rng', length shares = length cs ->
  Forall (fun sh => byte_array SECRET_LEN (value sh)) shares ->
  split_forest (fun child secret rng => split_tree child secret rng) cs shares rng = (Ok out, rng') ->
  map fst out = map fst (forest_leaf_table cs) /\ Forall (fun leaf => byte_array SECRET_LEN leaf.2) out.
Proof.
  induction 1 as [|c cs Hc _ IH]; intros Hlim [|sh shares] rng out rng' Hlen Hsh Hrun;
    try discriminate; simpl in Hrun.
  - simplify_eq. done.
  - destruct (split_tree c (value sh) rng) as [[pushed|e] rng1] eqn:Ec; [|done].
    destruct (split_forest _ cs shares rng1) as [[rest|e] rng2] eqn:Ef; [|done].
    inversion Hlim; inversion Hsh; subst.
    injection Hrun as <- <-. simpl. rewrite !map_app.
    apply Hc in Ec as [-> Hp]; [|done..].
    apply IH in Ef as [-> Hr]; [|done|by injection Hlen|done].
    split; [done|]. by apply Forall_app.
Qed.

Lemma split_tree_leaves {R} `{RngSound R} node : shares_leaves (R := R) node.
Proof.
  induction node as [id p|id required children IH] using NetworkNode_nested_ind;
    intros secret rng out rng' Hlim Hs Hrun; simpl in Hrun.
  - simplify_eq. split; [done|]. by constructor.
  - destruct (split secret required (Z.of_nat (length children)) rng) as [[shares|e] rng1] eqn:Es; [|done].
    destruct (split_children_shares _ _ _ _ _ _ _ Hlim Hs Es) as (Hlims & _ & _ & Hl & coefs & _ & Hsh).
    apply (split_forest_leaves children) in Hrun; try done.
    apply Forall_lookup. intros i sh Hi. by apply (Hsh i).
Qed.

(** The supplied payloads are those of the sharing [out], for the leaves of the node. *)
Definition genuine (recovered : list NetworkShare) (out : list NetworkShare) (node : NetworkNode) : Prop :=
  forall id v, id ∈ map fst (leaves_of node) -> supplied recovered id = Some v -> (id, v) ∈ out.

(** Recovery of a shared tree from any of its leaves. *)
Definition recovers_shared {R} `{RngSound R} (recovered : list NetworkShare) (node : NetworkNode) : Prop :=
  forall secret (rng : R) out rng',
  network_limits node -> NoDup (map fst (leaves_of node)) -> byte_array SECRET_LEN secret ->
  split_tree node secret rng = (Ok out, rng') -> genuine recovered out node ->
  recover_tree recovered node = Ok (if satisfied (has recovered) node then Some secret else None).

Definition present (recovered : list NetworkShare) (child : NetworkNode) (share : Share) : option (list Z) :=
  if satisfied (has recovered) child then Some (value share) else None.

Lemma recover_shared_forest {R} `{RngSound R} recovered cs :
  Forall (recovers_shared (R := R) recovered) cs -> Forall network_limits cs ->
  NoDup (map fst (forest_leaf_table cs)) ->
  forall shares (rng : R) out rng', length shares = length cs ->
  Forall (fun sh => byte_array SECRET_LEN (value sh)) shares ->
  split_forest (fun child secret rng => split_tree child secret rng) cs shares rng = (Ok out, rng') ->
  (forall id v, id ∈ map fst (forest_leaf_table cs) -> supplied recovered id = Some v -> (id, v) ∈ out) ->
  recover_forest (fun child => recover_tree recovered child) cs =
    Ok (zip_with (present recovered) cs shares).
Proof.
  induction 1 as [|c cs Hc _ IH]; intros Hlim Hnd [|sh shares] rng out rng' Hlen Hsh Hrun Hgen;
    try discriminate; simpl in Hrun; [done|].
  destruct (split_tree c (value sh) rng) as [[pushed|e] rng1] eqn:Ec; [|done].
  destruct (split_forest _ cs shares rng1) as [[rest|e] rng2] eqn:Ef; [|done].
  injection Hrun as <- <-. inversion Hlim as [|? ? Hlc Hlcs]; inversion Hsh as [|? ? Hv Hvs]; subst.
  simpl in Hnd, Hgen. rewrite map_app in Hnd, Hgen. apply NoDup_app in Hnd as (Hnd1 & Hdisj & Hnd2).
  destruct (split_tree_leaves c _ _ _ _ Hlc Hv Ec) as [Eids _].
  assert (map fst rest = map fst (forest_leaf_table cs)) as Erest.
  { eapply split_forest_leaves; [|done..|by injection Hlen|done|done]. apply Forall_true. apply split_tree_leaves. }
  assert (forall (l : list NetworkShare) id v, (id, v) ∈ l -> id ∈ map fst l) as Hfst.
  { intros l id v Hl. apply list_elem_of_In, (in_map fst _ (id, v)), list_elem_of_In, Hl. }
  simpl. rewrite (Hc (value sh) rng pushed rng1); try done.
  - simpl. rewrite (IH Hlcs Hnd2 shares rng1 rest rng2); try done.
    + by injection Hlen.
    + intros id v Hid Hv'. destruct (proj1 (elem_of_app _ _ _) (Hgen id v (proj2 (elem_of_app _ _ _) (or_intror Hid)) Hv')) as [Hin|]; [|done].
      exfalso. apply (Hdisj id); [|done]. rewrite <- Eids. by eapply Hfst.
  - intros id v Hid Hv'. destruct (proj1 (elem_of_app _ _ _) (Hgen id v (proj2 (elem_of_app _ _ _) (or_introl Hid)) Hv')) as [|Hin]; [done|].
    exfalso. apply (Hdisj id); [done|]. rewrite <- Erest. by eapply Hfst.
Qed.

Lemma count_present recovered cs shares :
  length shares = length cs ->
  length (collect 0 (zip_with (present recovered) cs shares)) =
  length (List.filter (satisfied (has recovered)) cs).
Proof.
  rewrite collect_length. revert shares.
  induction cs as [|c cs IH]; intros [|sh shares] Hlen; try discriminate; [done|]. simpl.
  unfold present at 1. injection Hlen as Hlen. specialize (IH shares Hlen).
  destruct (satisfied (has recovered) c); simpl; lia.
Qed.

Lemma recover_shared_tree {R} `{RngSound R} recovered node : recovers_shared (R := R) recovered node.
Proof.
  induction node as [id p|id required children IH] using NetworkNode_nested_ind;
    intros secret rng out rng' Hlim Hnd Hs Hrun Hgen; simpl in Hrun.
  - injection Hrun as <- <-. simpl. unfold has. destruct (supplied recovered id) as [v|] eqn:Ev; [|done].
    assert ((id, v) ∈ [(id, secret)]) as Hin by (apply Hgen; [constructor|done]).
    apply list_elem_of_singleton in Hin. by injection Hin as ->.
  - destruct (split secret required (Z.of_nat (length children)) rng) as [[shares|e] rng1] eqn:Es; [|done].
    destruct (split_children_shares _ _ _ _ _ _ _ Hlim Hs Es) as (Hlims & Hr & Hn & Hl & coefs & Hc & Hsh).
    simpl recover_tree. rewrite (recover_shared_forest recovered children IH Hlims Hnd shares rng1 out rng');
      try done; [|apply Forall_lookup; intros i sh Hi; by apply (Hsh i)].
    simpl. set (vs := zip_with _ children shares). pose proof (count_present recovered children shares Hl) as Hcount.
    fold vs in Hcount. rewrite Hcount.
    destruct (Z.ltb_spec 0 required), (Z.leb_spec required (Z.of_nat (length children))); try lia. simpl.
    destruct (Nat.ltb_spec (length (List.filter (satisfied (has recovered)) children)) (Z.to_nat required)) as [Hlt|Hge].
    + destruct (Z.leb_spec required (Z.of_nat (length (List.filter (satisfied (has recovered)) children)))); [lia|done].
    + destruct (Z.leb_spec required (Z.of_nat (length (List.filter (satisfied (has recovered)) children)))); [|lia].
      rewrite (reconstruct_collect required secret coefs (length children)); try done.
      * unfold vs. rewrite length_zip_with. lia.
      * intros j s Hj. unfold vs in Hj. apply lookup_zip_with_Some in Hj as (c & sh & E & Hcj & Hsj).
        unfold present in E. destruct (satisfied _ c); [|done]. injection E as ->. by apply Hsh.
      * by rewrite Hcount.
Qed.

(** * No panic *)

Lemma recover_tree_no_panic recovered node : recover_tree recovered node <> Err Panic.
Proof.
  induction node as [id p|id required children IH] using NetworkNode_nested_ind; [done|]. simpl.
  destruct (recover_forest _ children) as [vs|e] eqn:Ef; simpl.
  - destruct (_ <? _)%nat; [done|]. by destruct (reconstruct required (collect 0 vs)).
  - intros [= ->]. revert Ef. induction IH as [|c cs Hc _ IHcs]; simpl; [done|].
    destruct (recover_tree recovered c) as [v|e] eqn:Ec; simpl; [|congruence].
    destruct (recover_forest _ cs); simpl; [done|]. intros [= ->]. by apply IHcs.
Qed.

Lemma split_tree_no_panic {R} `{Rng R} node : forall secret (rng : R), (split_tree node secret rng).1 <> Err Panic.
Proof.
  induction node as [id p|id required children IH] using NetworkNode_nested_ind; intros secret rng; [done|].
  simpl. destruct (split secret required _ rng) as [[shares|e] rng1]; [|done].
  revert shares rng1. induction IH as [|c cs Hc _ IHcs]; intros [|sh shares] rng1; simpl; try done.
  specialize (Hc (value sh) rng1). destruct (split_tree c (value sh) rng1) as [[pushed|e] rng2]; [|done].
  specialize (IHcs shares rng2). by destruct (split_forest _ cs shares rng2) as [[rest|e] rng3].
Qed.

(** * Policies built by the constructor *)

Lemma tree_height_size node : (tree_height node <= tree_size node)%nat.
Proof.
  induction node as [id p|id required children IH] using NetworkNode_nested_ind; simpl; [done|].
  apply le_n_S. induction IH as [|c cs Hc _ IHcs]; simpl; [done|lia].
Qed.

Lemma leaf_ids_sublist node : sublist (map fst (leaves_of node)) (ids_of node).
Proof.
  induction node as [id p|id required children IH] using NetworkNode_nested_ind; [done|].
  simpl. apply sublist_cons. induction IH as [|c cs Hc _ IHcs]; simpl; [done|].
  rewrite map_app. by apply sublist_app.
Qed.

Lemma well_formed_facts tpm network :
  well_formed tpm network ->
  NoDup (map fst (leaves_of network)) /\ thresholds_ok network = true /\
  (tree_height network <= 3)%nat /\ (tree_size network <= 29)%nat.
Proof.
  intros (Hh & Hn & Hids & _ & Hok). unfold MAX_DEPTH, MAX_NODES in *. split; [|split_and!; [done|lia..]].
  apply NoDup_cons in Hids as [_ Hids]. eapply sublist_NoDup; [done|apply leaf_ids_sublist].
Qed.

(** A policy value the constructor can return: its fields are private to the crate. *)
Definition policy_ok (policy : ProductionPolicy) : Prop :=
  node_typed (network policy) /\ well_formed (tpm_node_id policy) (network policy) /\
  plan policy = plan_of (network policy).

Lemma new_policy_ok mode tpm network policy :
  node_typed network -> new_policy mode tpm network = Ok policy -> policy_ok policy.
Proof. intros Hty H. apply new_policy_iff in H as [Hwf ->]; [|done]. done. Qed.

Lemma split_network_tree {R} `{Rng R} policy secret (rng : R) :
  policy_ok policy -> split_network policy secret rng = split_tree (network policy) secret rng.
Proof.
  intros (Hty & Hwf & Hp). apply well_formed_facts in Hwf as (_ & Hok & Hh & Hn).
  pose proof (tree_height_size (network policy)) as Hhs. pose proof (tree_size_pos (network policy)) as Hpos.
  unfold split_network. rewrite Hp. unfold plan_of. cbn [gates]. rewrite gates_of_length.
  destruct (Nat.eqb_spec (tree_size (network policy)) 0) as [|_]; [lia|].
  apply (split_gate_tree (leaves_of (network policy)) (gates_of 0 0 (network policy)) (network policy)
    (tree_size (network policy)) 0%nat 0%nat); auto using segment_self. lia.
Qed.

Lemma supplied_Some recovered id v : supplied recovered id = Some v -> (id, v) ∈ recovered.
Proof.
  unfold supplied. intros H. apply fmap_Some in H as ([x w] & H & ->).
  apply find_some in H as [H ->%Z.eqb_eq]. by apply list_elem_of_In.
Qed.

Lemma has_elem recovered id : has recovered id = bool_decide (id ∈ map fst recovered).
Proof.
  unfold has, supplied. induction recovered as [|[x v] recovered IH]; simpl.
  - done.
  - destruct (Z.eqb_spec x id) as [->|Hne]; simpl.
    + symmetry. apply bool_decide_eq_true_2. constructor.
    + rewrite IH. apply bool_decide_ext. rewrite elem_of_cons. naive_solver.
Qed.

Lemma satisfied_ext (a b : Z -> bool) node : (forall id, a id = b id) -> satisfied a node = satisfied b node.
Proof.
  intros H. apply eq_true_iff_eq. split; apply satisfied_mono; intros id; by rewrite H.
Qed.

Lemma compile_never_invalid node : forall depth st, compile_node node depth st <> Err InvalidCompilation.
Proof.
  induction node as [id p|id required children IH] using NetworkNode_nested_ind; intros depth st;
    cbn [compile_node]; (destruct (MAX_DEPTH <? depth)%nat; [done|]);
    (destruct (MAX_NODES <=? count st)%nat; [done|]); (destruct (decide (_ ∈ ids st)); [done|]).
  { simpl. by destruct (decide (p ∈ providers st)). }
  destruct (Z.eqb required 0 || _); simpl; [done|].
  destruct (compile_children _ children _) as [[es st1]|e] eqn:E; simpl; [done|]. intros [= ->].
  revert E. match goal with |- compile_children _ _ ?st1 = _ -> _ => generalize st1 end.
  induction IH as [|c cs Hc _ IHcs]; intros st1; simpl; [done|].
  destruct (compile_node c (S depth) st1) as [[i st2]|e] eqn:Ec; simpl.
  - destruct (compile_children _ cs st2) as [[es st3]|e] eqn:Ecs; simpl; [done|].
    intros [= ->]. by eapply IHcs.
  - intros [= ->]. by eapply Hc.
Qed.

(** Only the leaves of the tree matter. *)
Lemma satisfied_on (a b : Z -> bool) node :
  (forall id, id ∈ map fst (leaves_of node) -> a id = b id) -> satisfied a node = satisfied b node.
Proof.
  induction node as [id p|id required children IH] using NetworkNode_nested_ind; intros H; simpl.
  - apply H. constructor.
  - f_equal. f_equal. f_equal. f_equal. simpl in H. induction IH as [|c cs Hc _ IHcs]; [done|].
    simpl in H |- *. rewrite map_app in H. setoid_rewrite elem_of_app in H.
    rewrite Hc, IHcs by auto. done.
Qed.

(** C14: [ProductionPolicy::new] succeeds exactly on the trees within the public limits (depth,
    node count, unique identifiers including the TPM node, unique providers, attainable
    thresholds); the plan it returns is the postorder compilation of the tree and always passes
    the certificate check, so [InvalidCompilation] is unreachable. *)
Theorem new_policy_characterised mode tpm network :
  node_typed network ->
  (forall policy, new_policy mode tpm network = Ok policy <->
     well_formed tpm network /\ policy = mk_policy mode tpm network (plan_of network)) /\
  new_policy mode tpm network <> Err InvalidCompilation.
Proof.
  intros Hty. split; [intros policy; by apply new_policy_iff|]. intros H.
  unfold new_policy in H.
  set (st0 := mk_compile_state 2 {[tpm]} ∅ (mk_plan [] [])) in H.
  pose proof (compile_node_iff network Hty 2 st0) as Hc.
  assert (compile_node network 2 st0 <> Err InvalidCompilation) as Hne by apply compile_never_invalid.
  destruct (compile_node network 2 st0) as [[i st]|e]; simpl in H; [|congruence].
  destruct (proj1 (Hc i st) eq_refl) as (Ha & _ & ->).
  change (compiling (after st0 network)) with (plan_of network) in H.
  rewrite plan_certified in H; [done|done|apply Ha|]. destruct Ha as [Ha _]. unfold MAX_DEPTH in Ha. lia.
Qed.

Lemma network_satisfied_iff policy available answer :
  policy_ok policy ->
  network_satisfied policy available = Ok answer <->
  (forall id, id ∈ available -> id ∈ network_leaf_ids policy) /\ NoDup available /\
  answer = satisfied (fun id => bool_decide (id ∈ available)) (network policy).
Proof.
  intros (Hty & Hwf & Hp). apply well_formed_facts in Hwf as (Hnd & Hok & Hh & Hn).
  unfold network_satisfied, network_leaf_ids. rewrite Hp. unfold plan_of. cbn [leaves gates].
  pose proof (responses_iff (leaves_of (network policy)) available (gates_of 0 0 (network policy))) as Hr.
  destruct (responses _ available) as [rs|e]; simpl.
  - destruct (proj1 (Hr rs Hnd) eq_refl) as (H1 & H2 & ->). rewrite network_value by done.
    split; [by intros [= <-]|by intros (_ & _ & ->)].
  - split; [done|]. intros (H1 & H2 & _). by pose proof (proj2 (Hr _ Hnd) (conj H1 (conj H2 eq_refl))).
Qed.

(** The compiled network decision is the source tree's: [network_satisfied] accepts exactly
    duplicate-free lists of leaf identifiers of the policy, and its answer is the direct
    threshold semantics of the tree. *)
Theorem network_satisfied_correct policy available answer :
  policy_ok policy ->
  network_satisfied policy available = Ok answer <->
  (forall id, id ∈ available -> id ∈ network_leaf_ids policy) /\ NoDup available /\
  answer = satisfied (fun id => bool_decide (id ∈ available)) (network policy).
Proof. apply network_satisfied_iff. Qed.

Lemma split_network_recovers {R} `{RngSound R} policy secret (rng : R) shares rng' recovered :
  policy_ok policy -> byte_array SECRET_LEN secret ->
  split_network policy secret rng = (Ok shares, rng') ->
  recovered ⊆ shares -> NoDup recovered ->
  recover_network policy recovered =
  if satisfied (fun id => bool_decide (id ∈ map fst recovered)) (network policy)
  then Ok secret else Err (Fault FactorsNotSatisfied).
Proof.
  intros Hpol Hs Hrun Hsub Hnd. rewrite split_network_tree in Hrun by done.
  destruct Hpol as (Hty & Hwf & Hp). apply well_formed_facts in Hwf as (Hids & Hok & Hh & Hn).
  assert (network_limits (network policy)) as Hlim by (split_and!; [done|done|lia]).
  destruct (split_tree_leaves _ _ _ _ _ Hlim Hs Hrun) as [Eids _].
  assert (NoDup (map fst recovered)) as Hndr.
  { apply NoDup_fmap_2_strong; [|done]. intros [i v] [j w] Hi Hj E. simpl in E. subst j.
    apply Hsub in Hi. apply Hsub in Hj. rewrite <- Eids in Hids.
    apply list_elem_of_lookup in Hi as [a Ha]. apply list_elem_of_lookup in Hj as [b Hb].
    assert (a = b) as -> by by eapply (ids_lookup_inj shares). congruence. }
  rewrite recover_network_tree by (done || lia). rewrite Hp. unfold plan_of.
  rewrite (proj2 (responses_iff _ (map fst recovered) _ (marks (leaves_of (network policy)) (map fst recovered)) Hids)).
  - simpl. rewrite (recover_shared_tree recovered (network policy) secret rng shares rng'); try done.
    + simpl. rewrite (satisfied_ext (has recovered) _ (network policy) (has_elem recovered)).
      by destruct (satisfied _ _).
    + intros id v _ Hv. by apply Hsub, supplied_Some.
  - split_and!; try done. intros id Hid. rewrite <- Eids.
    apply list_elem_of_In, in_map_iff in Hid as (leaf & <- & Hl). apply list_elem_of_In, in_map.
    apply list_elem_of_In, Hsub. by apply list_elem_of_In.
Qed.

(** C13: sharing round trip. After [split_network] succeeds, [recover_network] on any subset of
    the leaf shares, in any order, returns the secret when the subset satisfies the policy tree
    and [FactorsNotSatisfied] otherwise. *)
Theorem split_recover_network {R} `{RngSound R} policy secret (rng : R) shares rng' recovered :
  policy_ok policy -> byte_array SECRET_LEN secret ->
  split_network policy secret rng = (Ok shares, rng') ->
  recovered ⊆ shares -> NoDup recovered ->
  recover_network policy recovered =
  if satisfied (fun id => bool_decide (id ∈ map fst recovered)) (network policy)
  then Ok secret else Err (Fault FactorsNotSatisfied).
Proof. apply split_network_recovers. Qed.

Lemma network_never_panics {R} `{Rng R} policy secret (rng : R) recovered :
  policy_ok policy ->
  (split_network policy secret rng).1 <> Err Panic /\ recover_network policy recovered <> Err Panic.
Proof.
  intros Hpol. split; [rewrite split_network_tree by done; apply split_tree_no_panic|].
  destruct Hpol as (Hty & Hwf & Hp). apply well_formed_facts in Hwf as (Hids & Hok & Hh & Hn).
  rewrite recover_network_tree by (done || lia).
  destruct (responses (plan policy) (map fst recovered)); simpl; [|done].
  pose proof (recover_tree_no_panic recovered (network policy)).
  destruct (recover_tree recovered (network policy)) as [[v|]|e]; simpl; try done. by intros [= ->].
Qed.

(** Neither sharing nor recovery panics: for every policy the constructor returns, every
    generator and every list of supplied shares, all vector indexing of the plan stays in range
    and the recursion over gates terminates. *)
Theorem network_no_panic {R} `{Rng R} policy secret (rng : R) recovered :
  policy_ok policy ->
  (split_network policy secret rng).1 <> Err Panic /\ recover_network policy recovered <> Err Panic.
Proof. apply network_never_panics. Qed.

(** * Witnesses *)

Definition demo_provider (n : Z) : list Z := replicate 32 n.
Definition demo_network : NetworkNode :=
  Threshold 10 2 [Leaf 1 (demo_provider 1); Leaf 2 (demo_provider 2);
    Threshold 11 1 [Leaf 3 (demo_provider 3); Leaf 4 (demo_provider 4)]].
Definition demo_policy : ProductionPolicy := mk_policy Attested 0 demo_network (plan_of demo_network).

Ltac typed_node := repeat (constructor; try decided).

Lemma demo_network_typed : node_typed demo_network.
Proof. typed_node. Qed.

Lemma demo_policy_ok : policy_ok demo_policy.
Proof.
  apply (new_policy_ok Attested 0 demo_network); [apply demo_network_typed|]. vm_compute. reflexivity.
Qed.

Definition demo_network_tape : tape := replicate 32 [9] ++ replicate 32 [].
Definition demo_leaf_shares : list NetworkShare :=
  match (split_network demo_policy demo_secret demo_network_tape).1 with Ok shares => shares | Err _ => [] end.

Lemma new_policy_characterised_witness : well_formed 0 demo_network.
Proof.
  apply (proj1 (new_policy_characterised Attested 0 demo_network demo_network_typed) demo_policy).
  vm_compute. reflexivity.
Defined.

Lemma network_satisfied_correct_witness :
  true = satisfied (fun id => bool_decide (id ∈ [4; 1])) demo_network.
Proof.
  refine (proj2 (proj2 (proj1 (network_satisfied_correct demo_policy [4; 1] true demo_policy_ok) _))).
  vm_compute. reflexivity.
Defined.

Lemma split_recover_network_witness :
  recover_network demo_policy (reverse (take 3 demo_leaf_shares)) = Ok demo_secret /\
  recover_network demo_policy (drop 2 demo_leaf_shares) = Err (Fault FactorsNotSatisfied).
Proof.
  split.
  - rewrite (split_recover_network demo_policy demo_secret demo_network_tape demo_leaf_shares []
      (reverse (take 3 demo_leaf_shares)) demo_policy_ok).
    + vm_compute. reflexivity.
    + decided.
    + vm_compute. reflexivity.
    + apply reverse_take_subseteq.
    + decided.
  - rewrite (split_recover_network demo_policy demo_secret demo_network_tape demo_leaf_shares []
      (drop 2 demo_leaf_shares) demo_policy_ok).
    + vm_compute. reflexivity.
    + decided.
    + vm_compute. reflexivity.
    + apply drop_subseteq.
    + decided.
Defined.

Lemma network_no_panic_witness :
  recover_network demo_policy [(1, []); (2, [])] <> Err Panic.
Proof. exact (proj2 (network_no_panic demo_policy demo_secret demo_network_tape [(1, []); (2, [])] demo_policy_ok)). Defined.
