(* ===== verification/Session.v ===== *)
(** The release session, [PolicySession] of [leelo-policy/src/lib.rs]: a state machine that
    releases at most once, after every mandatory observation. *)
From stdpp Require Import base list gmap.
From Stdlib Require Import ZArith Lia.
From S2P Require Import Prelude Plan Policy.

Open Scope Z_scope.

(** * The release session *)

Record PolicySession : Type := mk_session {
  require_live : bool;
  session_plan : NetworkPlan;
  session_responses : list bool;
  state : ReleaseState;
}.

Definition new_session (policy : ProductionPolicy) : PolicySession :=
  mk_session (bool_decide (mode policy = Attested)) (plan policy)
    (replicate (length (leaves (plan policy))) false)
    (mk_release_state false false false false false false).

Definition with_state (session : PolicySession) (state : ReleaseState) : PolicySession :=
  mk_session (require_live session) (session_plan session) (session_responses session) state.

Definition authenticate_envelope (session : PolicySession) : result PolicyError unit * PolicySession :=
  let st := state session in
  if released st then (Err AlreadyReleased, session)
  else (Ok tt, with_state session (mk_release_state true (tpm_authenticated st)
          (network_satisfied_flag st) (live_authorized st) (root_authenticated st) (released st))).

Definition require_authenticated (session : PolicySession) : result PolicyError unit :=
  if released (state session) then Err AlreadyReleased
  else if negb (envelope_authenticated (state session)) then Err EnvelopeNotAuthenticated
  else Ok tt.

Definition accept_network (session : PolicySession) (node_id : Z) : result PolicyError unit * PolicySession :=
  match require_authenticated session with
  | Err e => (Err e, session)
  | Ok _ =>
      match leaf_position (leaves (session_plan session)) node_id with
      | None => (Err (UnknownNetworkLeaf node_id), session)
      | Some index =>
          let '(accepted, responses) := record_response (session_responses session) index in
          if negb accepted then (Err (DuplicateResponse node_id), session)
          else
            let st := state session in
            (Ok tt, mk_session (require_live session) (session_plan session) responses
              (mk_release_state (envelope_authenticated st) (tpm_authenticated st)
                (evaluate_network (gates (session_plan session)) responses)
                (live_authorized st) (root_authenticated st) (released st)))
      end
  end.

Definition confirm_tpm (session : PolicySession) : result PolicyError unit * PolicySession :=
  match require_authenticated session with
  | Err e => (Err e, session)
  | Ok _ =>
      let st := state session in
      (Ok tt, with_state session (mk_release_state (envelope_authenticated st) true
        (network_satisfied_flag st) (live_authorized st) (root_authenticated st) (released st)))
  end.

Definition confirm_live_authorization (session : PolicySession) : result PolicyError unit * PolicySession :=
  match require_authenticated session with
  | Err e => (Err e, session)
  | Ok _ =>
      let st := state session in
      (Ok tt, with_state session (mk_release_state (envelope_authenticated st) (tpm_authenticated st)
        (network_satisfied_flag st) true (root_authenticated st) (released st)))
  end.

Definition can_reconstruct (session : PolicySession) : bool :=
  let st := state session in
  envelope_authenticated st && tpm_authenticated st && network_satisfied_flag st
  && (negb (require_live session) || live_authorized st) && negb (released st).

Definition authenticate_root (session : PolicySession) : result PolicyError unit * PolicySession :=
  match require_authenticated session with
  | Err e => (Err e, session)
  | Ok _ =>
      if negb (can_reconstruct session) then (Err FactorsNotSatisfied, session)
      else
        let st := state session in
        (Ok tt, with_state session (mk_release_state (envelope_authenticated st) (tpm_authenticated st)
          (network_satisfied_flag st) (live_authorized st) true (released st)))
  end.

Definition session_can_release (session : PolicySession) : bool :=
  can_release (state session) (require_live session).

Definition release (session : PolicySession) : result PolicyError unit * PolicySession :=
  match require_authenticated session with
  | Err e => (Err e, session)
  | Ok _ =>
      if negb (can_reconstruct session) then (Err FactorsNotSatisfied, session)
      else if negb (root_authenticated (state session)) then (Err RootNotAuthenticated, session)
      else
        let '(allowed, st) := try_release (state session) (require_live session) in
        if allowed then (Ok tt, with_state session st)
        else (Err AlreadyReleased, with_state session st)
  end.

(** * Histories *)

Inductive op : Type :=
| AuthenticateEnvelope
| AcceptNetwork (node_id : Z)
| ConfirmTpm
| ConfirmLiveAuthorization
| AuthenticateRoot
| Release.
#[export] Instance op_eq_dec : EqDecision op.
Proof. solve_decision. Defined.

Definition step (o : op) (session : PolicySession) : result PolicyError unit * PolicySession :=
  match o with
  | AuthenticateEnvelope => authenticate_envelope session
  | AcceptNetwork id => accept_network session id
  | ConfirmTpm => confirm_tpm session
  | ConfirmLiveAuthorization => confirm_live_authorization session
  | AuthenticateRoot => authenticate_root session
  | Release => release session
  end.

Abbreviation history := (list (op * result PolicyError unit)).

(** The sessions a policy can reach, with the calls made so far and their results. *)
Inductive reachable (policy : ProductionPolicy) : history -> PolicySession -> Prop :=
| reach_new : reachable policy [] (new_session policy)
| reach_step h session o r session' :
    reachable policy h session -> step o session = (r, session') ->
    reachable policy (h ++ [(o, r)]) session'.

Definition done_before (o : op) (h : history) : bool := bool_decide ((o, Ok tt) ∈ h).

(** The leaves accepted in a history. *)
Definition accepted (h : history) (id : Z) : bool := done_before (AcceptNetwork id) h.

(** * Invariant *)

(** The flags record exactly the successful calls of the history. *)
Record flags_recorded (policy : ProductionPolicy) (h : history) (session : PolicySession) : Prop := {
  recorded_live : require_live session = bool_decide (mode policy = Attested);
  recorded_plan : session_plan session = plan policy;
  recorded_responses : session_responses session = map (fun leaf => accepted h leaf.1) (leaves (plan policy));
  recorded_envelope : envelope_authenticated (state session) = done_before AuthenticateEnvelope h;
  recorded_tpm : tpm_authenticated (state session) = done_before ConfirmTpm h;
  recorded_live_flag : live_authorized (state session) = done_before ConfirmLiveAuthorization h;
  recorded_root : root_authenticated (state session) = done_before AuthenticateRoot h;
  recorded_released : released (state session) = done_before Release h;
  recorded_network : network_satisfied_flag (state session) = satisfied (accepted h) (network policy);
}.

Lemma done_before_app o h h' : done_before o (h ++ h') = done_before o h || done_before o h'.
Proof.
  unfold done_before. rewrite <- bool_decide_or. apply bool_decide_ext, elem_of_app.
Qed.

Lemma done_before_one o o' r : done_before o [(o', r)] = bool_decide (o = o' /\ r = Ok tt).
Proof. apply bool_decide_ext. rewrite list_elem_of_singleton. naive_solver. Qed.

Lemma satisfied_none node : satisfied (fun _ => false) node = false.
Proof.
  induction node as [id p|id required children IH] using NetworkNode_nested_ind; [done|]. simpl.
  assert (List.filter (satisfied (fun _ => false)) children = []) as ->.
  { induction IH as [|c cs Hc _ IHcs]; [done|]. simpl. by rewrite Hc. }
  simpl. destruct (Z.ltb_spec 0 required); simpl; [|done].
  rewrite (proj2 (Z.leb_gt required (Z.of_nat 0))) by lia. apply andb_false_r.
Qed.

Lemma flags_recorded_new policy : flags_recorded policy [] (new_session policy).
Proof.
  constructor; try done; simpl.
  - clear. induction (leaves (plan policy)) as [|leaf table IH]; [done|]. simpl. by rewrite <- IH.
  - symmetry. apply satisfied_none.
Qed.

(** A failed call changes neither the session nor what the history records. *)
Lemma step_Err o session e session' : step o session = (Err e, session') -> session' = session.
Proof.
  destruct o; simpl; unfold authenticate_envelope, accept_network, confirm_tpm, confirm_live_authorization,
    authenticate_root, release, try_release, can_release, can_reconstruct, require_authenticated;
    intros H; repeat (case_match; simplify_eq; try done); by destruct session as [? ? ? []].
Qed.

Lemma step_live_plan o session r session' :
  step o session = (r, session') ->
  require_live session' = require_live session /\ session_plan session' = session_plan session.
Proof.
  destruct o; simpl; unfold authenticate_envelope, accept_network, confirm_tpm, confirm_live_authorization,
    authenticate_root, release, try_release; intros H; repeat (case_match; simplify_eq; try done).
Qed.

Lemma done_before_snoc_Err o h o' e : done_before o (h ++ [(o', Err e)]) = done_before o h.
Proof. rewrite done_before_app, done_before_one. rewrite bool_decide_false by naive_solver. apply orb_false_r. Qed.

Lemma done_before_snoc_Ok o h o' : done_before o (h ++ [(o', Ok tt)]) = done_before o h || bool_decide (o = o').
Proof. rewrite done_before_app, done_before_one. f_equal. apply bool_decide_ext. naive_solver. Qed.

(** Rewrite what a longer history records. *)
Ltac snoc := repeat (first [rewrite done_before_snoc_Ok | rewrite done_before_snoc_Err]);
  repeat (first [rewrite bool_decide_true by congruence | rewrite bool_decide_false by congruence]);
  rewrite ?orb_true_r, ?orb_false_r.

Lemma accepted_other h o id :
  (forall id', o <> AcceptNetwork id') -> accepted (h ++ [(o, Ok tt)]) id = accepted h id.
Proof. intros H. unfold accepted. rewrite done_before_snoc_Ok, bool_decide_false by naive_solver. apply orb_false_r. Qed.

Lemma accepted_Err h o e id : accepted (h ++ [(o, Err e)]) id = accepted h id.
Proof. apply done_before_snoc_Err. Qed.

Lemma flags_recorded_Err policy h session o e :
  flags_recorded policy h session -> flags_recorded policy (h ++ [(o, Err e)]) session.
Proof.
  intros [H1 H2 H3 H4 H5 H6 H7 H8 H9]. constructor; rewrite ?done_before_snoc_Err; try done.
  - rewrite H3. apply map_ext. intros leaf. by rewrite accepted_Err.
  - rewrite H9. apply satisfied_ext. intros id. by rewrite accepted_Err.
Qed.

(** A successful call other than [accept_network] sets one flag. *)
Lemma flags_recorded_flag policy h session o st :
  flags_recorded policy h session -> (forall id, o <> AcceptNetwork id) ->
  envelope_authenticated st = envelope_authenticated (state session) || bool_decide (AuthenticateEnvelope = o) ->
  tpm_authenticated st = tpm_authenticated (state session) || bool_decide (ConfirmTpm = o) ->
  live_authorized st = live_authorized (state session) || bool_decide (ConfirmLiveAuthorization = o) ->
  root_authenticated st = root_authenticated (state session) || bool_decide (AuthenticateRoot = o) ->
  released st = released (state session) || bool_decide (Release = o) ->
  network_satisfied_flag st = network_satisfied_flag (state session) ->
  flags_recorded policy (h ++ [(o, Ok tt)]) (with_state session st).
Proof.
  intros [H1 H2 H3 H4 H5 H6 H7 H8 H9] Ho E1 E2 E3 E4 E5 E6.
  constructor; simpl; rewrite ?done_before_snoc_Ok; try congruence.
  - rewrite H3. apply map_ext. intros leaf. by rewrite accepted_other.
  - rewrite E6, H9. apply satisfied_ext. intros id. by rewrite accepted_other.
Qed.

(** A successful [accept_network] marks one leaf and re-evaluates the plan. *)
Lemma flags_recorded_accept policy h session id session' :
  policy_ok policy -> flags_recorded policy h session ->
  accept_network session id = (Ok tt, session') ->
  flags_recorded policy (h ++ [(AcceptNetwork id, Ok tt)]) session'.
Proof.
  intros (Hty & Hwf & Hp) [H1 H2 H3 H4 H5 H6 H7 H8 H9] Hrun.
  apply well_formed_facts in Hwf as (Hnd & Hok & Hh & Hn).
  unfold accept_network in Hrun. destruct (require_authenticated session); [|done].
  rewrite H2, Hp in Hrun. cbn [leaves plan_of] in Hrun.
  destruct (leaf_position (leaves_of (network policy)) id) as [i|] eqn:Ei; [|done].
  apply leaf_position_Some in Ei as [p Ei].
  set (seen := filter (fun id => accepted h id = true) (map fst (leaves_of (network policy)))).
  assert (forall id, id ∈ map fst (leaves_of (network policy)) -> accepted h id = bool_decide (id ∈ seen)) as Hseen.
  { intros id' Hid. unfold seen. destruct (accepted h id') eqn:E; symmetry.
    - apply bool_decide_eq_true_2, list_elem_of_filter. done.
    - apply bool_decide_eq_false_2. intros [E' _]%list_elem_of_filter. congruence. }
  assert (session_responses session = marks (leaves_of (network policy)) seen) as Ers.
  { rewrite H3, Hp. apply map_ext_in. intros leaf Hl. apply Hseen, list_elem_of_In, in_map, Hl. }
  rewrite Ers, (record_marks _ _ _ _ _ Hnd Ei) in Hrun.
  destruct (decide (id ∈ seen)) as [|Hns]; simpl in Hrun; [done|]. injection Hrun as <-.
  assert (forall id', id' ∈ map fst (leaves_of (network policy)) ->
    accepted (h ++ [(AcceptNetwork id, Ok tt)]) id' = bool_decide (id' ∈ id :: seen)) as Hacc.
  { intros id' Hid. unfold accepted. rewrite done_before_snoc_Ok. fold (accepted h id').
    rewrite (Hseen id' Hid), <- bool_decide_or. apply bool_decide_ext. rewrite elem_of_cons. naive_solver. }
  constructor; simpl; rewrite ?done_before_snoc_Ok, ?bool_decide_false, ?orb_false_r by done; try done;
    try congruence.
  - rewrite Hp. apply map_ext_in. intros leaf Hl. symmetry. apply Hacc, list_elem_of_In, in_map, Hl.
  - rewrite network_value by done. apply satisfied_on. intros id' Hid. symmetry. by apply Hacc.
Qed.

Lemma flags_recorded_reachable policy h session :
  policy_ok policy -> reachable policy h session -> flags_recorded policy h session.
Proof.
  intros Hp. induction 1 as [|h session o r session' Hreach IH Hstep]; [apply flags_recorded_new|].
  destruct r as [[]|e].
  - destruct o; simpl in Hstep; [..|exact (flags_recorded_accept _ _ _ _ _ Hp IH Hstep)| | | |].
    all: unfold authenticate_envelope, confirm_tpm, confirm_live_authorization, authenticate_root, release,
           try_release in Hstep; repeat (case_match; simplify_eq).
    all: apply flags_recorded_flag; simpl; try done; rewrite ?bool_decide_false, ?bool_decide_true by done;
      rewrite ?orb_true_r, ?orb_false_r; try done.
  - apply step_Err in Hstep as ->. by apply flags_recorded_Err.
Qed.

(** * Order of the calls *)

(** Every successful [release] and [authenticate_root] comes after the mandatory observations. *)
Definition observed (policy : ProductionPolicy) (h : history) : Prop :=
  (AuthenticateEnvelope, Ok tt) ∈ h /\ (ConfirmTpm, Ok tt) ∈ h /\
  (mode policy = Attested -> (ConfirmLiveAuthorization, Ok tt) ∈ h) /\
  satisfied (accepted h) (network policy) = true.

Lemma done_before_true o h : done_before o h = true <-> (o, Ok tt) ∈ h.
Proof. apply bool_decide_eq_true. Qed.

Lemma can_reconstruct_observed policy h session :
  flags_recorded policy h session -> can_reconstruct session = true -> observed policy h.
Proof.
  intros [H1 H2 H3 H4 H5 H6 H7 H8 H9] Hc. unfold can_reconstruct in Hc.
  rewrite H1, H4, H5, H6, H9, !andb_true_iff, orb_true_iff, negb_true_iff, bool_decide_eq_false in Hc.
  rewrite !done_before_true in Hc. unfold observed. destruct_and!. split_and!; try done. naive_solver.
Qed.

(** Once released, every call fails. *)
Lemma step_released o session :
  released (state session) = true -> exists e, step o session = (Err e, session).
Proof.
  intros H. destruct o; simpl; unfold authenticate_envelope, accept_network, confirm_tpm,
    confirm_live_authorization, authenticate_root, release, require_authenticated; rewrite H; by eexists.
Qed.

Lemma release_Ok_iff session :
  (release session).1 = Ok tt <-> session_can_release session = true.
Proof.
  unfold release, session_can_release, try_release, can_release, can_reconstruct, require_authenticated.
  destruct (released (state session)), (envelope_authenticated (state session)),
    (tpm_authenticated (state session)), (network_satisfied_flag (state session)),
    (require_live session), (live_authorized (state session)), (root_authenticated (state session));
    simpl; done.
Qed.

(** * Properties *)

(** In every history of calls, the session flags record exactly the successful calls, and the
    network flag is the policy tree evaluated on the accepted leaves. *)
Theorem session_records_history policy h session :
  policy_ok policy -> reachable policy h session -> flags_recorded policy h session.
Proof. apply flags_recorded_reachable. Qed.

(** C11: release safety. If a release succeeded in a history then, before it, the envelope and the
    TPM were authenticated, live authorization was confirmed when the mode requires it, the
    accepted leaves satisfied the policy tree and the root was authenticated; no other release
    succeeded, and every later call failed. *)
Theorem release_once_after_factors policy h session :
  policy_ok policy -> reachable policy h session -> (Release, Ok tt) ∈ h ->
  exists before later, h = before ++ (Release, Ok tt) :: later /\ observed policy before /\
    (AuthenticateRoot, Ok tt) ∈ before /\ (Release, Ok tt) ∉ before /\
    forall o r, (o, r) ∈ later -> exists e, r = Err e.
Proof.
  intros Hp. induction 1 as [|h session o r session' Hreach IH Hstep]; [by intros ?%elem_of_nil|].
  pose proof (flags_recorded_reachable _ _ _ Hp Hreach) as Hrec. intros Hin.
  destruct (decide ((Release, Ok tt) ∈ h)) as [Hh|Hh].
  - destruct (IH Hh) as (before & later & -> & Hobs & Hroot & Hno & Hlater).
    exists before, (later ++ [(o, r)]). rewrite <- app_assoc. split_and!; try done.
    intros o' r' Hin'. apply elem_of_app in Hin' as [Hin'|Hin']; [by eapply Hlater|].
    apply list_elem_of_singleton in Hin'. injection Hin' as -> ->.
    destruct (step_released o session) as [e He]; [|rewrite He in Hstep; injection Hstep as <- _; by exists e].
    rewrite (recorded_released _ _ _ Hrec). by apply done_before_true.
  - apply elem_of_app in Hin as [|Hin]; [done|]. apply list_elem_of_singleton in Hin.
    injection Hin as <- <-. exists h, []. split_and!; try done.
    + apply (can_reconstruct_observed _ _ _ Hrec). simpl in Hstep. unfold release in Hstep.
      destruct (require_authenticated session); [|done]. by destruct (can_reconstruct session).
    + apply done_before_true. rewrite <- (recorded_root _ _ _ Hrec). simpl in Hstep. unfold release in Hstep.
      destruct (require_authenticated session); [|done]. destruct (can_reconstruct session); [|done].
      by destruct (root_authenticated (state session)).
    + intros o r Hin. by apply elem_of_nil in Hin.
Qed.

Lemma release_ready policy h session :
  policy_ok policy -> reachable policy h session ->
  observed policy h -> (AuthenticateRoot, Ok tt) ∈ h -> (Release, Ok tt) ∉ h ->
  exists session', release session = (Ok tt, session') /\ released (state session') = true.
Proof.
  intros Hp Hreach (H1 & H2 & H3 & H4) Hroot Hno.
  destruct (flags_recorded_reachable _ _ _ Hp Hreach) as [R1 R2 R3 R4 R5 R6 R7 R8 R9].
  assert (session_can_release session = true) as Hcan.
  { unfold session_can_release, can_release. rewrite R1, R4, R5, R6, R7, R8, R9.
    rewrite !andb_true_iff, orb_true_iff, !negb_true_iff, !done_before_true, bool_decide_eq_false.
    split_and!; try done.
    - destruct (decide (mode policy = Attested)) as [E|E]; [right; by apply H3|by left].
    - apply not_true_iff_false. by rewrite done_before_true. }
  apply release_Ok_iff in Hcan. destruct (release session) as [r session'] eqn:E. simpl in Hcan. subst r.
  exists session'. split; [done|]. unfold release, try_release in E.
  repeat (case_match; simplify_eq); done.
Qed.

(** release availability. A session whose history has every mandatory observation, an
    authenticated root and no release yet releases on the next call. *)
Theorem release_available policy h session :
  policy_ok policy -> reachable policy h session ->
  observed policy h -> (AuthenticateRoot, Ok tt) ∈ h -> (Release, Ok tt) ∉ h ->
  exists session', release session = (Ok tt, session') /\ released (state session') = true.
Proof. apply release_ready. Qed.

(** * Witnesses *)

Fixpoint run_ops (ops : list op) (session : PolicySession) : history * PolicySession :=
  match ops with
  | [] => ([], session)
  | o :: rest =>
      let '(r, session1) := step o session in
      let '(h, session2) := run_ops rest session1 in ((o, r) :: h, session2)
  end.

Lemma run_ops_reachable policy ops : forall h session,
  reachable policy h session ->
  reachable policy (h ++ (run_ops ops session).1) (run_ops ops session).2.
Proof.
  induction ops as [|o ops IH]; intros h session Hr; simpl; [by rewrite app_nil_r|].
  destruct (step o session) as [r session1] eqn:E. specialize (IH (h ++ [(o, r)]) session1).
  destruct (run_ops ops session1) as [h2 session2]. simpl in *. rewrite <- app_assoc in IH.
  apply IH. by econstructor.
Qed.

Definition demo_ops : list op :=
  [ConfirmTpm; AuthenticateEnvelope; AcceptNetwork 3; ConfirmTpm; AcceptNetwork 3; AuthenticateRoot;
   ConfirmLiveAuthorization; AcceptNetwork 2; AuthenticateRoot].
Definition demo_before := run_ops demo_ops (new_session demo_policy).
Definition demo_released := run_ops (demo_ops ++ [Release; Release]) (new_session demo_policy).

Lemma demo_before_reachable : reachable demo_policy demo_before.1 demo_before.2.
Proof. apply (run_ops_reachable demo_policy demo_ops []). constructor. Qed.

Lemma demo_released_reachable : reachable demo_policy demo_released.1 demo_released.2.
Proof. apply (run_ops_reachable demo_policy _ []). constructor. Qed.

Lemma session_records_history_witness :
  network_satisfied_flag (state demo_before.2) = satisfied (accepted demo_before.1) demo_network.
Proof.
  exact (recorded_network _ _ _ (session_records_history demo_policy demo_before.1 demo_before.2
    demo_policy_ok demo_before_reachable)).
Defined.

Lemma release_once_after_factors_witness :
  exists before later, demo_released.1 = before ++ (Release, Ok tt) :: later /\
    observed demo_policy before.
Proof.
  destruct (release_once_after_factors demo_policy demo_released.1 demo_released.2 demo_policy_ok
    demo_released_reachable) as (before & later & H1 & H2 & _).
  - decided.
  - exists before, later. split; [exact H1|exact H2].
Defined.

Lemma release_available_witness :
  exists session', release demo_before.2 = (Ok tt, session') /\ released (state session') = true.
Proof.
  apply (release_available demo_policy demo_before.1 demo_before.2 demo_policy_ok demo_before_reachable).
  - split; [decided|]. split; [decided|]. split; [intros _; decided|]. vm_compute. reflexivity.
  - decided.
  - decided.
Defined.
