(* ===== verification/Release.v ===== *)
(** The release gate, [leelo-engine/src/release.rs]: one context, four ordered phases, one release. *)
From stdpp Require Import base list.
From Stdlib Require Import ZArith Lia.
From S2P Require Import Prelude.

Open Scope Z_scope.

(** * The gate *)

Record ReleaseGate : Type := mk_gate { gate_context : list Z; phase : Z; gate_live : bool }.

Definition new_gate (context : list Z) (require_live : bool) : ReleaseGate :=
  mk_gate context 0 require_live.

Definition matches (gate : ReleaseGate) (context : list Z) : bool :=
  scan_equal 48 (gate_context gate) context 0.

Definition advance (gate : ReleaseGate) (context : list Z) (expected : Z) (live : bool)
    : bool * ReleaseGate :=
  if negb (matches gate context) || negb (Z.eqb (phase gate) expected)
     || (Z.eqb expected 1 && gate_live gate && negb live)
  then (false, gate)
  else (true, mk_gate (gate_context gate) (wrap 8 (expected + 1)) (gate_live gate)).

Definition gate_network (gate : ReleaseGate) (context : list Z) : bool * ReleaseGate :=
  advance gate context 0 false.
Definition gate_tpm (gate : ReleaseGate) (context : list Z) (live : bool) : bool * ReleaseGate :=
  advance gate context 1 live.
Definition gate_payload (gate : ReleaseGate) (context : list Z) : bool * ReleaseGate :=
  advance gate context 2 false.
Definition gate_release (gate : ReleaseGate) (context : list Z) (within_deadline : bool)
    : bool * ReleaseGate :=
  if negb within_deadline then (false, gate) else advance gate context 3 false.

(** * Calls and histories *)

Inductive gate_call : Type :=
| CallNetwork (context : list Z)
| CallTpm (context : list Z) (live : bool)
| CallPayload (context : list Z)
| CallRelease (context : list Z) (within_deadline : bool).
#[export] Instance gate_call_eq_dec : EqDecision gate_call.
Proof. solve_decision. Defined.

Definition call (c : gate_call) (gate : ReleaseGate) : bool * ReleaseGate :=
  match c with
  | CallNetwork context => gate_network gate context
  | CallTpm context live => gate_tpm gate context live
  | CallPayload context => gate_payload gate context
  | CallRelease context within => gate_release gate context within
  end.

(** Run a list of calls, keeping the accepted ones in order. *)
Fixpoint run_calls (calls : list gate_call) (gate : ReleaseGate) : list gate_call * ReleaseGate :=
  match calls with
  | [] => ([], gate)
  | c :: rest =>
      let '(accepted, gate1) := call c gate in
      let '(kept, gate2) := run_calls rest gate1 in
      (if accepted then c :: kept else kept, gate2)
  end.

Definition call_context (c : gate_call) : list Z :=
  match c with
  | CallNetwork context | CallTpm context _ | CallPayload context | CallRelease context _ => context
  end.

(** The one accepted order of calls on a context. *)
Definition script (context : list Z) (live : bool) : list gate_call :=
  [CallNetwork context; CallTpm context live; CallPayload context; CallRelease context true].

(** * Lemmas *)

Lemma matches_eq gate context :
  length (gate_context gate) = 48%nat -> length context = 48%nat ->
  matches gate context = bool_decide (gate_context gate = context).
Proof.
  intros Ha Hb. apply eq_true_iff_eq. rewrite bool_decide_eq_true. by apply scan_equal_eq.
Qed.

Lemma matches_refl gate : matches gate (gate_context gate) = true.
Proof. by apply scan_equal_from. Qed.

(** Acceptance of [advance], and the only change it makes. *)
Lemma advance_spec gate context expected live :
  length (gate_context gate) = 48%nat -> length context = 48%nat -> 0 <= expected < 4 ->
  advance gate context expected live =
  if decide (gate_context gate = context /\ phase gate = expected /\
             (expected = 1 -> gate_live gate = true -> live = true))
  then (true, mk_gate (gate_context gate) (expected + 1) (gate_live gate)) else (false, gate).
Proof.
  intros Ha Hb He. unfold advance. rewrite matches_eq by done.
  rewrite wrap_id by (unfold uint; lia).
  case_bool_decide as Hc; simpl; [|rewrite decide_False by naive_solver; done].
  destruct (Z.eqb_spec (phase gate) expected) as [Hp|Hp]; simpl;
    [|rewrite decide_False by naive_solver; done].
  destruct (Z.eqb_spec expected 1), (gate_live gate), live; simpl;
    first [rewrite decide_True by naive_solver; done | rewrite decide_False by naive_solver; done].
Qed.

Definition call_ok (c : gate_call) : Prop := length (call_context c) = 48%nat.

Lemma run_calls_app calls calls' gate :
  run_calls (calls ++ calls') gate =
  ((run_calls calls gate).1 ++ (run_calls calls' (run_calls calls gate).2).1,
   (run_calls calls' (run_calls calls gate).2).2).
Proof.
  revert gate. induction calls as [|c calls IH]; intros gate; simpl; [by destruct (run_calls calls' gate)|].
  destruct (call c gate) as [accepted gate1]. rewrite IH.
  destruct (run_calls calls gate1) as [kept gate2]. simpl.
  destruct (run_calls calls' gate2) as [kept' gate3]. by destruct accepted.
Qed.

(** The gate after some calls, and the calls it accepted. *)
Definition follows_script (context : list Z) (require_live : bool) (kept : list gate_call)
    (gate : ReleaseGate) : Prop :=
  gate_context gate = context /\ gate_live gate = require_live /\ 0 <= phase gate <= 4 /\
  exists live, (require_live = true -> live = true) /\
    kept = take (Z.to_nat (phase gate)) (script context live).

(** An accepted call is the next line of the script, for the liveness the call asserts. *)
Lemma call_accepted c gate gate' :
  length (gate_context gate) = 48%nat -> call_ok c -> call c gate = (true, gate') ->
  0 <= phase gate < 4 /\ gate' = mk_gate (gate_context gate) (phase gate + 1) (gate_live gate) /\
  exists live, (phase gate = 1 -> gate_live gate = true -> live = true) /\
    forall live', (phase gate = 1 -> live' = live) ->
      script (gate_context gate) live' !! Z.to_nat (phase gate) = Some c.
Proof.
  unfold call_ok. intros Hlen Hc Hrun.
  destruct c as [context|context live|context|context within]; simpl in Hc, Hrun;
    unfold gate_network, gate_tpm, gate_payload, gate_release in Hrun.
  4: destruct within; simpl in Hrun; [|done].
  all: rewrite advance_spec in Hrun by (done || lia); case_decide as Hd; [|done]; injection Hrun as <-;
    destruct Hd as (<- & Hp & Hlive); rewrite Hp; split; [lia|]; split; [done|].
  - exists true. split; [done|]. by intros live' _.
  - exists live. split; [by intros _; apply Hlive|]. intros live' ->; done.
  - exists true. split; [done|]. by intros live' _.
  - exists true. split; [done|]. by intros live' _.
Qed.

Lemma call_rejected c gate gate' : call c gate = (false, gate') -> gate' = gate.
Proof.
  destruct c as [context|context live|context|context within]; simpl;
    unfold gate_network, gate_tpm, gate_payload, gate_release, advance; intros H;
    repeat (case_match; simplify_eq; try done).
Qed.

Lemma script_start context live live' n : (n <= 1)%nat -> take n (script context live) = take n (script context live').
Proof. intros H. destruct n as [|[|n]]; [done|done|lia]. Qed.

Lemma run_calls_script context require_live calls :
  length context = 48%nat -> Forall call_ok calls ->
  follows_script context require_live (run_calls calls (new_gate context require_live)).1
    (run_calls calls (new_gate context require_live)).2.
Proof.
  intros Hlen. induction calls as [|c calls IH] using rev_ind; intros Hok.
  - simpl. split_and!; simpl; try done; try lia. by exists true.
  - apply Forall_app in Hok as [Hok Hc]. inversion Hc as [|? ? Hc1 _]; subst. rewrite run_calls_app. simpl.
    destruct (run_calls calls (new_gate context require_live)) as [kept gate]. simpl in IH |- *.
    destruct (IH Hok) as (Hctx & Hlive & Hph & live & Hl & ->). simpl in *.
    destruct (call c gate) as [[] gate'] eqn:E; simpl.
    + rewrite <- Hctx in Hlen. destruct (call_accepted c gate gate' Hlen Hc1 E) as (Hp & -> & live1 & Hl1 & Hn).
      rewrite Hctx in *. split_and!; simpl; try done; try lia.
      exists (if Z.eqb (phase gate) 1 then live1 else live). split.
      * destruct (Z.eqb_spec (phase gate) 1); [intros H; apply Hl1; congruence|done].
      * rewrite Z2Nat.inj_add by lia. change (Z.to_nat 1) with 1%nat. rewrite Nat.add_1_r.
        rewrite (take_S_r _ _ c).
        -- f_equal. destruct (Z.eqb_spec (phase gate) 1) as [E1|]; [|done].
           apply script_start. lia.
        -- apply Hn. destruct (Z.eqb_spec (phase gate) 1); done.
    + apply call_rejected in E as ->. rewrite app_nil_r. split_and!; try done; try lia. by exists live.
Qed.

Lemma advance_next context expected live require_live :
  Z.eqb expected 1 && require_live && negb live = false ->
  advance (mk_gate context expected require_live) context expected live =
    (true, mk_gate context (wrap 8 (expected + 1)) require_live).
Proof.
  intros H. unfold advance. pose proof (matches_refl (mk_gate context expected require_live)) as E.
  cbn [gate_context] in E. rewrite E. simpl. by rewrite Z.eqb_refl, H.
Qed.

(** * Properties *)

(** C12: whatever calls are made, in whatever order and with whatever evidence, the accepted ones
    are a prefix of network, TPM, payload, release, each on exactly the gate's 48-byte context;
    the TPM call asserted live authorization when the gate requires it and the release was within
    the deadline. In particular at most one release is accepted. *)
Theorem release_gate_order context require_live calls :
  length context = 48%nat -> Forall call_ok calls ->
  exists live n, (require_live = true -> live = true) /\
    (run_calls calls (new_gate context require_live)).1 = take n (script context live).
Proof.
  intros Hlen Hok. destruct (run_calls_script context require_live calls Hlen Hok) as (_ & _ & _ & live & Hl & ->).
  by exists live, (Z.to_nat (phase (run_calls calls (new_gate context require_live)).2)).
Qed.

(** the gate is live: the four calls in order on its context are all accepted. *)
Theorem release_gate_complete context require_live :
  run_calls (script context true) (new_gate context require_live) =
  (script context true, mk_gate context 4 require_live).
Proof.
  unfold new_gate, script, run_calls, call, gate_network, gate_tpm, gate_payload, gate_release.
  rewrite (advance_next context 0), (advance_next context 1), (advance_next context 2),
    (advance_next context 3); by destruct require_live.
Qed.

(** * Witnesses *)

Definition demo_context : list Z := replicate 48 7.

Lemma release_gate_order_witness :
  exists live n, (true = true -> live = true) /\
    (run_calls [CallTpm demo_context true; CallNetwork (replicate 48 8); CallNetwork demo_context;
       CallTpm demo_context false; CallTpm demo_context true; CallRelease demo_context true]
       (new_gate demo_context true)).1 = take n (script demo_context live).
Proof.
  apply (release_gate_order demo_context true).
  - reflexivity.
  - unfold call_ok. decided.
Defined.
