(* ===== verification/Crypto.v ===== *)
(** The cryptographic wrappers of [leelo-crypto]: bounds checks, framing and error mapping
    around primitives whose implementations are third-party crates. *)
From stdpp Require Import base list strings.
From Stdlib Require Import ZArith Lia.
From S2P Require Import Prelude Sss.

Open Scope Z_scope.

(** * Constants and errors, [lib.rs] *)

Definition POINT_BYTES : nat := 49.
Definition PROOF_BYTES : nat := 96.
Definition OUTPUT_BYTES : nat := 48.
Definition KEY_BYTES : nat := 32.
Definition MAX_INPUT_BYTES : Z := 1024.
Definition MAX_CONTEXT_BYTES : Z := 65536.

Module CryptoError.
Inductive Error : Type :=
| InvalidInput
| InvalidEncoding
| InvalidProof
| Authentication
| Randomness
| CryptographicOperation.
End CryptoError.
Import CryptoError.

#[export] Instance crypto_error_dec : EqDecision CryptoError.Error.
Proof. solve_decision. Defined.

Abbreviation len l := (Z.of_nat (length l)).

(** The stream of [operation_rng.rs]: a ChaCha20 key and the bytes already drawn. *)
Record OperationRng : Type := mk_operation_rng { stream_seed : list Z; stream_offset : Z }.

(** * The primitives

    [Primitives] is what the source calls of [sha2], [hkdf], [chacha20poly1305], [chacha20],
    [ed25519-dalek], [p384] and [voprf]; [PrimitiveLaws] is what their documentation promises and
    the repository relies on. *)
Class Primitives : Type := {
  (** [Sha384::digest] *)
  sha384 : list Z -> list Z;
  (** [Hkdf::<Sha384>::new(Some(salt), ikm).expand_multi_info(info, out)], on the concatenated info *)
  hkdf_sha384 : list Z -> list Z -> list Z -> nat -> option (list Z);
  (** [encrypt_in_place_detached] and [decrypt_in_place_detached] of ChaCha20-Poly1305:
      key, nonce, associated data, body *)
  aead_encrypt : list Z -> list Z -> list Z -> list Z -> option (list Z * list Z);
  aead_decrypt : list Z -> list Z -> list Z -> list Z -> list Z -> option (list Z);
  (** [ChaCha20::try_apply_keystream] over zeros: key, offset, length; [None] past the counter *)
  keystream : list Z -> Z -> nat -> option (list Z);
  (** Ed25519: public key of a seed, signature, decoding of a public key, strict verification *)
  ed25519_public : list Z -> list Z;
  ed25519_sign : list Z -> list Z -> list Z;
  ed25519_decode : list Z -> bool;
  ed25519_verify_strict : list Z -> list Z -> list Z -> bool;
  (** P-384 group elements and the RFC 9497 VOPRF *)
  element : Type;
  deserialize_elem : list Z -> option element;
  serialize_elem : element -> list Z;
  proof : Type;
  deserialize_proof : list Z -> option proof;
  serialize_proof : proof -> list Z;
  client : Type;
  client_blind : list Z -> OperationRng -> option (client * element);
  client_finalize : client -> list Z -> element -> proof -> element -> option (list Z);
  server : Type;
  server_from_seed : list Z -> list Z -> option server;
  server_from_key : list Z -> option server;
  server_serialize : server -> list Z;
  server_public : server -> element;
  server_evaluate : server -> OperationRng -> element -> element * proof;
}.

(** The pseudorandom function a server key computes, [voprf_output server input]. *)
Class PrimitiveLaws `{Primitives} : Type := {
  sha384_bytes : forall m, byte_array 48 (sha384 m);
  hkdf_total : forall salt ikm info n, (n <= 255 * 48)%nat ->
    exists key, hkdf_sha384 salt ikm info n = Some key /\ byte_array n key;
  aead_bytes : forall key nonce aad body ct tag, byte_slice body ->
    aead_encrypt key nonce aad body = Some (ct, tag) -> byte_array (length body) ct /\ byte_array 16 tag;
  aead_round_trip : forall key nonce aad body ct tag, byte_slice body ->
    aead_encrypt key nonce aad body = Some (ct, tag) -> aead_decrypt key nonce aad ct tag = Some body;
  ed25519_public_bytes : forall seed, byte_array 32 seed -> byte_array 32 (ed25519_public seed);
  ed25519_signature_bytes : forall seed m, byte_array 64 (ed25519_sign seed m);
  ed25519_public_decodes : forall seed, byte_array 32 seed -> ed25519_decode (ed25519_public seed) = true;
  ed25519_correct : forall seed m, byte_array 32 seed ->
    ed25519_verify_strict (ed25519_public seed) m (ed25519_sign seed m) = true;
  element_bytes : forall e, byte_array POINT_BYTES (serialize_elem e);
  element_round_trip : forall e, deserialize_elem (serialize_elem e) = Some e;
  proof_bytes : forall p, byte_array PROOF_BYTES (serialize_proof p);
  proof_round_trip : forall p, deserialize_proof (serialize_proof p) = Some p;
  voprf_output : server -> list Z -> list Z;
  voprf_output_bytes : forall s input, byte_array OUTPUT_BYTES (voprf_output s input);
  voprf_correct : forall s input rng rng' c blinded,
    client_blind input rng = Some (c, blinded) ->
    let '(evaluated, p) := server_evaluate s rng' blinded in
    client_finalize c input evaluated p (server_public s) = Some (voprf_output s input);
}.

Section Wrappers.
Context `{Primitives}.

Definition hash_context (bytes : list Z) : list Z := sha384 bytes.

(** * Randomness *)

Definition random_bytes {R} `{Rng R} (n : nat) (rng : R) : result CryptoError.Error (list Z) * R :=
  match try_fill_bytes rng n with
  | (Some bytes, rng') => (Ok bytes, rng')
  | (None, rng') => (Err Randomness, rng')
  end.

(** [OperationRng::from_entropy] *)
Definition from_entropy {R} `{Rng R} (entropy : R) : result CryptoError.Error OperationRng * R :=
  match try_fill_bytes entropy 32 with
  | (Some seed, entropy') => (Ok (mk_operation_rng seed 0), entropy')
  | (None, entropy') => (Err Randomness, entropy')
  end.

(** [RngCore::try_fill_bytes] of the stream; the output is zeros when the stream is exhausted. *)
#[export] Instance operation_rng : Rng OperationRng := fun rng n =>
  match keystream (stream_seed rng) (stream_offset rng) n with
  | Some bytes => (Some bytes, mk_operation_rng (stream_seed rng) (stream_offset rng + Z.of_nat n))
  | None => (None, rng)
  end.

(** * [aead.rs] *)

Record WrappedKey : Type := mk_wrapped { nonce : list Z; ciphertext : list Z }.

Definition HKDF_SALT : list Z := bytes_of_string "leelo/v1/hkdf-sha384".

(** The five pieces of info, framed by their lengths. *)
Definition derive_info (context purpose : list Z) : list Z :=
  bytes_of_string "leelo/v1/key" ++ be_bytes 4 (wrap 32 (len purpose)) ++ purpose
  ++ be_bytes 4 (wrap 32 (len context)) ++ context.

Definition derive_secret_key (ikm context purpose : list Z) : result CryptoError.Error (list Z) :=
  if (len ikm <? 32) || (MAX_CONTEXT_BYTES <? len ikm) || (MAX_CONTEXT_BYTES <? len context)
     || (length purpose =? 0)%nat || (128 <? len purpose)
  then Err InvalidInput
  else ok_or (hkdf_sha384 HKDF_SALT ikm (derive_info context purpose) 32) CryptographicOperation.

Definition derive_wrap_key (output context : list Z) : result CryptoError.Error (list Z) :=
  derive_secret_key output context (bytes_of_string "voprf-leaf-wrap").

Definition seal_key {R} `{Rng R} (key plaintext aad : list Z) (rng : R)
    : result CryptoError.Error WrappedKey * R :=
  if MAX_CONTEXT_BYTES <? len aad then (Err InvalidInput, rng)
  else
  match random_bytes 12 rng with
  | (Err e, rng') => (Err e, rng')
  | (Ok nonce, rng') =>
      (match aead_encrypt key nonce aad plaintext with
       | None => Err CryptographicOperation
       | Some (body, tag) => Ok (mk_wrapped nonce (body ++ tag))
       end, rng')
  end.

Definition open_key (key : list Z) (wrapped : WrappedKey) (aad : list Z)
    : result CryptoError.Error (list Z) :=
  if MAX_CONTEXT_BYTES <? len aad then Err InvalidInput
  else ok_or (aead_decrypt key (nonce wrapped) aad (take 32 (ciphertext wrapped))
                (drop 32 (ciphertext wrapped))) Authentication.

(** * [signing.rs] *)

(** [SecretSigningKey] holds its seed. *)
Record SecretSigningKey : Type := mk_signing_key { seed : list Z }.

Definition generate_signing_key {R} `{Rng R} (rng : R) : result CryptoError.Error SecretSigningKey * R :=
  match random_bytes 32 rng with
  | (Ok seed, rng') => (Ok (mk_signing_key seed), rng')
  | (Err e, rng') => (Err e, rng')
  end.

Definition signing_public_key (key : SecretSigningKey) : list Z := ed25519_public (seed key).

Definition sign (key : SecretSigningKey) (message : list Z) : result CryptoError.Error (list Z) :=
  if MAX_CONTEXT_BYTES <? len message then Err InvalidInput
  else Ok (ed25519_sign (seed key) message).

Definition verify (public message signature : list Z) : result CryptoError.Error unit :=
  if MAX_CONTEXT_BYTES <? len message then Err InvalidInput
  else if negb (ed25519_decode public) then Err InvalidEncoding
  else if ed25519_verify_strict public message signature then Ok tt else Err Authentication.

(** * [voprf.rs] *)

(** [ServerPublicKey::from_bytes]: a canonical point encoding. *)
Definition server_public_key_from_bytes (bytes : list Z) : result CryptoError.Error (list Z) :=
  point ← ok_or (deserialize_elem bytes) InvalidEncoding;
  if bool_decide (serialize_elem point = bytes) then Ok bytes else Err InvalidEncoding.

Record Evaluation : Type := mk_evaluation { evaluated_element : list Z; evaluation_proof : list Z }.

Definition generate_server {R} `{Rng R} (rng : R) : result CryptoError.Error server * R :=
  match random_bytes 48 rng with
  | (Err e, rng') => (Err e, rng')
  | (Ok seed, rng') =>
      (ok_or (server_from_seed seed (bytes_of_string "leelo/v1/evaluation-key")) CryptographicOperation, rng')
  end.

Definition server_from_secret_bytes (bytes : list Z) : result CryptoError.Error server :=
  ok_or (server_from_key bytes) InvalidEncoding.

Definition export_secret_bytes (s : server) : list Z := take 48 (server_serialize s).

Definition server_public_key (s : server) : list Z := serialize_elem (server_public s).

Definition evaluate_with_entropy {R} `{Rng R} (s : server) (blinded : list Z) (entropy : R)
    : result CryptoError.Error Evaluation * R :=
  match deserialize_elem blinded with
  | None => (Err InvalidEncoding, entropy)
  | Some message =>
      match from_entropy entropy with
      | (Err e, entropy') => (Err e, entropy')
      | (Ok rng, entropy') =>
          let '(element, proof) := server_evaluate s rng message in
          (Ok (mk_evaluation (serialize_elem element) (serialize_proof proof)), entropy')
      end
  end.

Record BlindState : Type := mk_blind_state { blind_client : client; blind_input : list Z }.

Definition blind_with_entropy {R} `{Rng R} (input : list Z) (entropy : R)
    : result CryptoError.Error (BlindState * list Z) * R :=
  if (length input =? 0)%nat || (MAX_INPUT_BYTES <? len input) then (Err InvalidInput, entropy)
  else
  match from_entropy entropy with
  | (Err e, entropy') => (Err e, entropy')
  | (Ok rng, entropy') =>
      (match client_blind input rng with
       | None => Err CryptographicOperation
       | Some (state, message) => Ok (mk_blind_state state input, serialize_elem message)
       end, entropy')
  end.

Definition finalize (state : BlindState) (response : Evaluation) (pin : list Z)
    : result CryptoError.Error (list Z) :=
  message ← ok_or (deserialize_elem (evaluated_element response)) InvalidEncoding;
  proof ← ok_or (deserialize_proof (evaluation_proof response)) InvalidEncoding;
  public ← ok_or (deserialize_elem pin) InvalidEncoding;
  ok_or (client_finalize (blind_client state) (blind_input state) message proof public) InvalidProof.
End Wrappers.

(** * Framing *)

Lemma framed_inj n a b a' b' :
  len a < 256 ^ Z.of_nat n -> len a' < 256 ^ Z.of_nat n ->
  be_bytes n (len a) ++ a ++ b = be_bytes n (len a') ++ a' ++ b' -> a = a' /\ b = b'.
Proof.
  intros Ha Ha' E. apply app_inj_1 in E as [E1 E2]; [|by rewrite !be_bytes_length].
  apply be_bytes_inj in E1; [|lia..]. apply app_inj_1 in E2; [done|lia].
Qed.

(** The framing of the HKDF info separates purposes and contexts. *)
Lemma derive_info_inj context purpose context' purpose' :
  len purpose < 2 ^ 32 -> len purpose' < 2 ^ 32 -> len context < 2 ^ 32 -> len context' < 2 ^ 32 ->
  derive_info context purpose = derive_info context' purpose' -> context = context' /\ purpose = purpose'.
Proof.
  intros H1 H2 H3 H4 E. unfold derive_info in E. apply app_inv_head in E.
  rewrite !wrap_id in E by (unfold uint; lia).
  apply (framed_inj 4) in E as [-> E]; [|done..].
  apply app_inj_1 in E as [_ ->]; [done|by rewrite !be_bytes_length].
Qed.

Section Properties.
Context `{PrimitiveLaws}.

Lemma random_bytes_Ok {R} `{RngSound R} n (rng : R) bytes rng' :
  random_bytes n rng = (Ok bytes, rng') -> byte_array n bytes.
Proof.
  unfold random_bytes. destruct (try_fill_bytes rng n) as [[bs|] r] eqn:E; [|done].
  intros [= <- <-]. by eapply try_fill_bytes_sound.
Qed.

Definition derive_bounds (ikm context purpose : list Z) : Prop :=
  32 <= len ikm <= MAX_CONTEXT_BYTES /\ len context <= MAX_CONTEXT_BYTES /\ 1 <= len purpose <= 128.

Lemma derive_secret_key_spec ikm context purpose :
  derive_bounds ikm context purpose ->
  exists key, derive_secret_key ikm context purpose = Ok key /\ byte_array 32 key /\
    hkdf_sha384 HKDF_SALT ikm (derive_info context purpose) 32 = Some key.
Proof.
  unfold derive_bounds, derive_secret_key, MAX_CONTEXT_BYTES. intros (H1 & H2 & H3).
  destruct (Z.ltb_spec (len ikm) 32); [lia|]. destruct (Z.ltb_spec 65536 (len ikm)); [lia|].
  destruct (Z.ltb_spec 65536 (len context)); [lia|]. destruct (Nat.eqb_spec (length purpose) 0); [lia|].
  destruct (Z.ltb_spec 128 (len purpose)); [lia|]. simpl.
  destruct (hkdf_total HKDF_SALT ikm (derive_info context purpose) 32) as (key & -> & Hk); [lia|].
  by exists key.
Qed.

Lemma derive_secret_key_Ok ikm context purpose key :
  derive_secret_key ikm context purpose = Ok key ->
  derive_bounds ikm context purpose /\ byte_array 32 key.
Proof.
  intros Hd. assert (derive_bounds ikm context purpose) as Hb.
  { unfold derive_bounds, derive_secret_key, MAX_CONTEXT_BYTES in *.
    destruct (Z.ltb_spec (len ikm) 32); [done|]. destruct (Z.ltb_spec 65536 (len ikm)); [done|].
    destruct (Z.ltb_spec 65536 (len context)); [done|]. destruct (Nat.eqb_spec (length purpose) 0); [done|].
    destruct (Z.ltb_spec 128 (len purpose)); [done|]. lia. }
  split; [done|]. destruct (derive_secret_key_spec _ _ _ Hb) as (key' & E & Hk & _). congruence.
Qed.

Definition wrapped_ok (w : WrappedKey) : Prop := byte_array 12 (nonce w) /\ byte_array 48 (ciphertext w).

Lemma seal_key_Ok {R} `{RngSound R} key plaintext aad (rng : R) w rng' :
  byte_array 32 plaintext -> seal_key key plaintext aad rng = (Ok w, rng') ->
  wrapped_ok w /\ open_key key w aad = Ok plaintext.
Proof.
  intros [Hl Hb] Hrun. unfold seal_key in Hrun. unfold open_key.
  destruct (Z.ltb_spec MAX_CONTEXT_BYTES (len aad)); [done|].
  destruct (random_bytes 12 rng) as [[n|e] r] eqn:En; [|done]. apply random_bytes_Ok in En.
  destruct (aead_encrypt key n aad plaintext) as [[body tag]|] eqn:Ee; [|done].
  injection Hrun as <- <-. destruct (aead_bytes _ _ _ _ _ _ Hb Ee) as [Hbody Htag].
  unfold wrapped_ok. cbn [nonce ciphertext]. split.
  - split; [done|]. rewrite Hl in Hbody. exact (byte_array_app _ _ _ _ Hbody Htag).
  - destruct Hbody as [Hbl _]. rewrite take_app_length', drop_app_length' by lia.
    by rewrite (aead_round_trip _ _ _ _ _ _ Hb Ee).
Qed.

Lemma sign_verify key message signature :
  byte_array 32 (seed key) -> sign key message = Ok signature ->
  byte_array 64 signature /\ verify (signing_public_key key) message signature = Ok tt.
Proof.
  unfold sign, verify, signing_public_key. intros Hs Hrun.
  destruct (MAX_CONTEXT_BYTES <? len message); [done|]. injection Hrun as <-.
  split; [apply ed25519_signature_bytes|]. rewrite ed25519_public_decodes, ed25519_correct by done. done.
Qed.

Lemma server_public_key_valid s :
  server_public_key_from_bytes (server_public_key s) = Ok (server_public_key s).
Proof.
  unfold server_public_key_from_bytes, server_public_key. rewrite element_round_trip. simpl.
  by rewrite bool_decide_true.
Qed.

Lemma voprf_run {R R'} `{Rng R} `{Rng R'} s input (entropy : R) state blinded entropy'
    (server_entropy : R') evaluation server_entropy' :
  blind_with_entropy input entropy = (Ok (state, blinded), entropy') ->
  evaluate_with_entropy s blinded server_entropy = (Ok evaluation, server_entropy') ->
  byte_array POINT_BYTES blinded /\
  byte_array POINT_BYTES (evaluated_element evaluation) /\ byte_array PROOF_BYTES (evaluation_proof evaluation) /\
  finalize state evaluation (server_public_key s) = Ok (voprf_output s input).
Proof.
  unfold blind_with_entropy, evaluate_with_entropy, finalize, server_public_key. intros Hb He.
  destruct ((length input =? 0)%nat || (MAX_INPUT_BYTES <? len input)); [done|].
  destruct (from_entropy entropy) as [[rng|e] r1]; [|done].
  destruct (client_blind input rng) as [[c m]|] eqn:Ec; [|done]. injection Hb as <- <- <-.
  rewrite element_round_trip in He.
  destruct (from_entropy server_entropy) as [[rng'|e] r2]; [|done].
  pose proof (voprf_correct s input rng rng' c m Ec) as Hv.
  destruct (server_evaluate s rng' m) as [el pr]. injection He as <- <-. cbn [evaluated_element evaluation_proof].
  split; [apply element_bytes|]. split; [apply element_bytes|]. split; [apply proof_bytes|].
  rewrite element_round_trip, proof_round_trip, element_round_trip. simpl. by rewrite Hv.
Qed.

(** The wrapping key derivation separates roles: for inputs the code accepts, equal HKDF info
    strings mean equal context and equal purpose, so the purpose/context framing is prefix-free. *)
Theorem derive_separates ikm ikm' context context' purpose purpose' :
  derive_bounds ikm context purpose -> derive_bounds ikm' context' purpose' ->
  derive_info context purpose = derive_info context' purpose' -> context = context' /\ purpose = purpose'.
Proof.
  unfold derive_bounds, MAX_CONTEXT_BYTES. intros (_ & H1 & H2) (_ & H3 & H4). apply derive_info_inj; lia.
Qed.

(** sealing then opening with the same key and associated data returns the 32-byte plaintext,
    and the wrapped value has its wire lengths. *)
Theorem seal_open_round_trip {R} `{RngSound R} key plaintext aad (rng : R) w rng' :
  byte_array 32 plaintext -> seal_key key plaintext aad rng = (Ok w, rng') ->
  wrapped_ok w /\ open_key key w aad = Ok plaintext.
Proof. apply seal_key_Ok. Qed.

(** A client that blinds an input, has the server evaluate it and finalizes against the
    server's public key obtains the server's pseudorandom output for that input, whatever entropy
    either side drew; the messages have their fixed wire lengths. *)
Theorem voprf_round_trip {R R'} `{Rng R} `{Rng R'} s input (entropy : R) state blinded entropy'
    (server_entropy : R') evaluation server_entropy' :
  blind_with_entropy input entropy = (Ok (state, blinded), entropy') ->
  evaluate_with_entropy s blinded server_entropy = (Ok evaluation, server_entropy') ->
  byte_array POINT_BYTES blinded /\
  byte_array POINT_BYTES (evaluated_element evaluation) /\ byte_array PROOF_BYTES (evaluation_proof evaluation) /\
  finalize state evaluation (server_public_key s) = Ok (voprf_output s input).
Proof. apply voprf_run. Qed.
End Properties.
