(* ===== verification/ToyCrypto.v ===== *)
(** A concrete, insecure instance of the cryptographic primitives: the laws the development
    relies on are satisfiable, and whole operations can be evaluated on concrete inputs. *)
From stdpp Require Import base list strings.
From Stdlib Require Import ZArith Lia Eqdep_dec.
From S2P Require Import Prelude Gf256 Sss Crypto.

Open Scope Z_scope.

(** * Mixing bytes *)

Definition toy_mix (l : list Z) : Z := fold_left (fun a b => (a * 257 + b + 1) mod 4294967291) l 5381.

Definition toy_hash (n : nat) (l : list Z) : list Z :=
  let m := toy_mix l in map (fun i => (m * (2 * Z.of_nat i + 1) / 7) mod 256) (seq 0 n).

Lemma mod256_u8 z : u8 (z mod 256).
Proof. unfold uint. pose proof (Z.mod_pos_bound z 256). lia. Qed.

Lemma toy_hash_ok n l : byte_array n (toy_hash n l).
Proof.
  split; [unfold toy_hash; by rewrite length_map, length_seq|].
  apply Forall_map, Forall_true. intros i. apply mod256_u8.
Qed.

(** * Group elements: 49 bytes under exclusive or *)

Definition elem : Type := { l : list Z | bool_decide (byte_array 49 l) = true }.

Definition raw (e : elem) : list Z := proj1_sig e.

Definition normal (l : list Z) : list Z := map (fun i => nth i l 0 mod 256) (seq 0 49).

Lemma normal_ok l : bool_decide (byte_array 49 (normal l)) = true.
Proof.
  apply bool_decide_eq_true. split; [unfold normal; by rewrite length_map, length_seq|].
  apply Forall_map, Forall_true. intros i. apply mod256_u8.
Qed.

Definition to_elem (l : list Z) : elem := exist _ (normal l) (normal_ok l).

Lemma elem_bytes (e : elem) : byte_array 49 (raw e).
Proof. destruct e as [l Hl]. simpl. by apply bool_decide_eq_true in Hl. Qed.

Lemma elem_eq (a b : elem) : raw a = raw b -> a = b.
Proof. destruct a as [a Ha], b as [b Hb]. simpl. intros ->. f_equal. apply UIP_dec, bool_dec. Qed.

Lemma normal_id l : byte_array 49 l -> normal l = l.
Proof.
  intros [Hl Hb]. apply (nth_ext _ _ 0 0); [unfold normal; by rewrite length_map, length_seq|].
  intros i Hi. unfold normal in *. rewrite length_map, length_seq in Hi.
  rewrite (nth_indep _ 0 (nth 0 l 0 mod 256)) by by rewrite length_map, length_seq.
  rewrite (map_nth (fun i => nth i l 0 mod 256)), seq_nth by done. simpl.
  apply Z.mod_small. apply (Forall_nth (fun z => 0 <= z < 256) 0 l); [|lia].
  eapply Forall_impl; [exact Hb|]. intros z. unfold uint. lia.
Qed.

Definition xor (a b : elem) : elem := to_elem (zip_with Z.lxor (raw a) (raw b)).

Lemma xor_bytes a b : raw (xor a b) = zip_with Z.lxor (raw a) (raw b).
Proof.
  apply normal_id. destruct (elem_bytes a) as [Hla Hba], (elem_bytes b) as [Hlb Hbb].
  split; [rewrite length_zip_with; lia|].
  revert Hba Hbb. generalize (raw a) as x, (raw b) as y. clear. intros x y Hx. revert y.
  induction Hx as [|u x Hu _ IH]; intros [|v y] Hy; simpl; try constructor.
  - inversion Hy; subst. by apply uint_lxor.
  - inversion Hy; subst. by apply IH.
Qed.

Lemma zip_lxor_cancel : forall (h m s : list Z), length m = length h -> length s = length h ->
  zip_with Z.lxor (zip_with Z.lxor (zip_with Z.lxor h m) s) m = zip_with Z.lxor h s.
Proof.
  induction h as [|x h IH]; intros [|y m] [|z s] H1 H2; try discriminate; [done|].
  simpl. rewrite IH by (simpl in *; lia). f_equal. apply Z.bits_inj'. intros n _.
  rewrite !Z.lxor_spec. by destruct (Z.testbit x n), (Z.testbit y n), (Z.testbit z n).
Qed.

Lemma xor_cancel h m s : xor (xor (xor h m) s) m = xor h s.
Proof.
  apply elem_eq. rewrite !xor_bytes. destruct (elem_bytes h), (elem_bytes m), (elem_bytes s).
  apply zip_lxor_cancel; lia.
Qed.

#[export] Instance elem_eq_dec : EqDecision elem.
Proof.
  intros a b. destruct (decide (raw a = raw b)) as [E|E]; [left; by apply elem_eq|right; congruence].
Defined.

#[global] Arguments xor : simpl never.
#[global] Arguments to_elem : simpl never.

Definition toy_point (input : list Z) : elem := to_elem (toy_hash 49 input).

Definition toy_finalize (point mask evaluated public : elem) : option (list Z) :=
  if decide (evaluated = xor (xor point mask) public)
  then Some (take 48 (raw (xor evaluated mask))) else None.

Lemma toy_correct s point mask c blinded :
  Some (mask, xor point mask) = Some (c, blinded) ->
  toy_finalize point c (xor blinded s) s = Some (take 48 (raw (xor point s))).
Proof.
  intros E. assert (c = mask /\ blinded = xor point mask) as [-> ->].
  { split; [exact (f_equal (fun o => match o with Some p => p.1 | None => c end) (eq_sym E))|].
    exact (f_equal (fun o => match o with Some p => p.2 | None => c end) (eq_sym E)). }
  unfold toy_finalize. rewrite decide_True by done. by rewrite xor_cancel.
Qed.

(** * The instance *)

Definition toy_output (s : elem) (input : list Z) : list Z :=
  take 48 (raw (xor (toy_point input) s)).

#[export] Instance toy_primitives : Primitives := {|
  sha384 := toy_hash 48;
  hkdf_sha384 salt ikm info n := Some (toy_hash n (salt ++ ikm ++ info));
  aead_encrypt key nonce aad body :=
    let ct := map (Z.lxor (toy_mix (key ++ nonce) mod 256)) body in
    Some (ct, toy_hash 16 (key ++ nonce ++ aad ++ ct));
  aead_decrypt key nonce aad ct tag :=
    if decide (tag = toy_hash 16 (key ++ nonce ++ aad ++ ct))
    then Some (map (Z.lxor (toy_mix (key ++ nonce) mod 256)) ct) else None;
  keystream key offset n := Some (toy_hash n (key ++ [offset]));
  ed25519_public seed := seed;
  ed25519_sign seed m := toy_hash 64 (seed ++ m);
  ed25519_decode _ := true;
  ed25519_verify_strict public m signature := bool_decide (signature = toy_hash 64 (public ++ m));
  element := elem;
  deserialize_elem l := if decide (byte_array 49 l) then Some (to_elem l) else None;
  serialize_elem e := raw e;
  proof := unit;
  deserialize_proof l := if decide (l = replicate 96 0) then Some tt else None;
  serialize_proof _ := replicate 96 0;
  client := elem;
  client_blind input rng :=
    let mask := toy_point (stream_seed rng) in Some (mask, xor (toy_point input) mask);
  client_finalize mask input evaluated _ public := toy_finalize (toy_point input) mask evaluated public;
  server := elem;
  server_from_seed seed info := Some (to_elem (toy_hash 48 (seed ++ info)));
  server_from_key bytes := Some (to_elem bytes);
  server_serialize s := raw s;
  server_public s := s;
  server_evaluate s _ blinded := (xor blinded s, tt);
|}.

Lemma lxor_map_cancel k l : map (Z.lxor k) (map (Z.lxor k) l) = l.
Proof.
  rewrite map_map. rewrite <- (map_id l) at 2. apply map_ext. intros z.
  by rewrite <- Z.lxor_assoc, Z.lxor_nilpotent, Z.lxor_0_l.
Qed.

#[export] Instance toy_laws : PrimitiveLaws.
Proof.
  refine {| voprf_output := toy_output : server -> list Z -> list Z |}.
  - intros m. apply toy_hash_ok.
  - intros salt ikm info n _. simpl. eexists. split; [done|]. apply toy_hash_ok.
  - intros key nonce aad body ct tag Hb [= <- <-]. split; [|apply toy_hash_ok].
    split; [by rewrite length_map|]. apply Forall_map. eapply Forall_impl; [exact Hb|].
    intros z Hz. apply uint_lxor; [lia|apply mod256_u8|done].
  - intros key nonce aad body ct tag Hb [= <- <-]. simpl. rewrite decide_True by done.
    by rewrite lxor_map_cancel.
  - done.
  - intros seed m. apply toy_hash_ok.
  - done.
  - intros seed m _. simpl. by rewrite bool_decide_true.
  - intros e. apply elem_bytes.
  - intros e. simpl. pose proof (elem_bytes e) as He. rewrite decide_True by done. f_equal.
    apply elem_eq. simpl. by apply normal_id.
  - intros p. split; [done|]. apply Forall_replicate. unfold uint. simpl. lia.
  - intros []. simpl. done.
  - intros s input. unfold toy_output. pose proof (elem_bytes (xor (toy_point input) s)) as [Hl Hb].
    split; [rewrite length_take; unfold OUTPUT_BYTES; lia|by apply Forall_take].
  - intros s input rng rng' c blinded E. exact (toy_correct s (toy_point input) (toy_point (stream_seed rng)) c blinded E).
Defined.

(** * Witnesses of the wrapper properties *)

Definition toy_tape : tape := [replicate 12 9; replicate 32 1; replicate 32 2].

Lemma derive_separates_witness :
  bytes_of_string "c" = bytes_of_string "c" /\ bytes_of_string "ab" = bytes_of_string "ab".
Proof.
  apply (derive_separates demo_secret demo_secret (bytes_of_string "c") (bytes_of_string "c")
    (bytes_of_string "ab") (bytes_of_string "ab")).
  - split; [split; vm_compute; discriminate|]. split; [vm_compute; discriminate|split; vm_compute; discriminate].
  - split; [split; vm_compute; discriminate|]. split; [vm_compute; discriminate|split; vm_compute; discriminate].
  - reflexivity.
Defined.

Definition toy_wrapped : WrappedKey :=
  match (seal_key (replicate 32 4) demo_secret [1; 2] toy_tape).1 with
  | Ok w => w | Err _ => mk_wrapped [] [] end.

Lemma seal_open_round_trip_witness :
  wrapped_ok toy_wrapped /\ open_key (replicate 32 4) toy_wrapped [1; 2] = Ok demo_secret.
Proof.
  apply (seal_open_round_trip (replicate 32 4) demo_secret [1; 2] toy_tape toy_wrapped (drop 1 toy_tape)).
  - decided.
  - vm_compute. reflexivity.
Defined.

Definition toy_server : server := to_elem (replicate 49 77).

(** One exchange against the toy server, as a boolean. *)
Definition toy_exchange (input : list Z) (entropy server_entropy : tape) : bool :=
  match blind_with_entropy input entropy with
  | (Ok (_, blinded), _) =>
      match evaluate_with_entropy toy_server blinded server_entropy with (Ok _, _) => true | (Err _, _) => false end
  | (Err _, _) => false
  end.

Lemma toy_exchange_runs input entropy server_entropy :
  toy_exchange input entropy server_entropy = true ->
  exists state blinded entropy' evaluation server_entropy',
    blind_with_entropy input entropy = (Ok (state, blinded), entropy') /\
    evaluate_with_entropy toy_server blinded server_entropy = (Ok evaluation, server_entropy').
Proof.
  unfold toy_exchange. destruct (blind_with_entropy input entropy) as [[[state blinded]|e] r]; [|done].
  destruct (evaluate_with_entropy toy_server blinded server_entropy) as [[ev|e] r'] eqn:E; [|done].
  intros _. by exists state, blinded, r, ev, r'.
Qed.

Lemma toy_exchange_ok : toy_exchange (bytes_of_string "input") (drop 1 toy_tape) (drop 2 toy_tape) = true.
Proof. vm_compute. reflexivity. Qed.

Lemma voprf_round_trip_witness :
  exists state evaluation, finalize state evaluation (server_public_key toy_server) =
    Ok (voprf_output toy_server (bytes_of_string "input")).
Proof.
  destruct (toy_exchange_runs (bytes_of_string "input") (drop 1 toy_tape) (drop 2 toy_tape) toy_exchange_ok)
    as (state & blinded & r & ev & r' & Hb & He).
  exists state, ev.
  exact (proj2 (proj2 (proj2 (voprf_round_trip toy_server (bytes_of_string "input") (drop 1 toy_tape)
    state blinded r (drop 2 toy_tape) ev r' Hb He)))).
Defined.
