(* ===== verification/Wire.v ===== *)
(** The network-bound wire protocol, [leelo-protocol]: fixed-length messages with an exact header. *)
From stdpp Require Import base list strings.
From Stdlib Require Import ZArith Lia.
From S2P Require Import Prelude Sss Crypto.

Open Scope Z_scope.

(** * Data *)

Definition REQUEST_BYTES : nat := 89.
Definition RESPONSE_BYTES : nat := 153.
Definition HEADER : list Z := bytes_of_string "LEEL" ++ [1; 1; 1; 0].

Inductive InvalidMessage : Type := invalid_message.

Record Request : Type := mk_request { request_key_id : list Z; request_point : list Z }.

(** [copy_from_slice] into a fixed buffer at an offset. *)
Definition copy_at (buffer : list Z) (start : nat) (source : list Z) : list Z :=
  take start buffer ++ source ++ drop (start + length source) buffer.

(** * Operations *)

Definition key_id `{Primitives} (public : list Z) : list Z := take 32 (hash_context public).

Definition encode_request (key_id point : list Z) : list Z :=
  let message := replicate REQUEST_BYTES 0 in
  let message := copy_at message 0 HEADER in
  let message := copy_at message 8 key_id in
  copy_at message 40 point.

Definition decode_request (bytes : list Z) : result InvalidMessage Request :=
  if negb (length bytes =? REQUEST_BYTES)%nat || negb (bool_decide (take 8 bytes = HEADER))
  then Err invalid_message
  else Ok (mk_request (take 32 (drop 8 bytes)) (drop 40 bytes)).

Definition encode_response (evaluation : Evaluation) : list Z :=
  let message := replicate RESPONSE_BYTES 0 in
  let message := copy_at message 0 HEADER in
  let message := copy_at message 8 (evaluated_element evaluation) in
  copy_at message 57 (evaluation_proof evaluation).

Definition decode_response (bytes : list Z) : result InvalidMessage Evaluation :=
  if negb (length bytes =? RESPONSE_BYTES)%nat || negb (bool_decide (take 8 bytes = HEADER))
  then Err invalid_message
  else Ok (mk_evaluation (take 49 (drop 8 bytes)) (drop 57 bytes)).

(** * Lemmas *)

(** Filling a buffer with consecutive pieces. *)
Lemma copy_at_append done_part piece rest :
  copy_at (done_part ++ replicate (length piece + rest) 0) (length done_part) piece =
  (done_part ++ piece) ++ replicate rest 0.
Proof.
  unfold copy_at. rewrite take_app_length, drop_app_ge, replicate_add by lia.
  replace (length done_part + length piece - length done_part)%nat with (length piece) by lia.
  rewrite drop_app_length' by by rewrite length_replicate. by rewrite <- app_assoc.
Qed.

Lemma encode_three head a b n :
  n = (length head + length a + length b)%nat ->
  copy_at (copy_at (copy_at (replicate n 0) 0 head) (length head) a) (length head + length a) b =
  head ++ a ++ b.
Proof.
  intros ->. pose proof (copy_at_append [] head (length a + length b)) as E. simpl in E.
  replace (length head + length a + length b)%nat with (length head + (length a + length b))%nat by lia.
  rewrite E, copy_at_append. rewrite <- length_app.
  rewrite <- (Nat.add_0_r (length b)) at 1. rewrite copy_at_append. simpl. by rewrite app_nil_r, app_assoc.
Qed.

Lemma encode_request_bytes key_id point :
  length key_id = 32%nat -> length point = 49%nat -> encode_request key_id point = HEADER ++ key_id ++ point.
Proof.
  intros Hk Hp. unfold encode_request.
  pose proof (encode_three HEADER key_id point REQUEST_BYTES) as E. rewrite Hk in E. apply E. by rewrite Hp.
Qed.

Lemma encode_response_bytes evaluation :
  length (evaluated_element evaluation) = 49%nat -> length (evaluation_proof evaluation) = 96%nat ->
  encode_response evaluation = HEADER ++ evaluated_element evaluation ++ evaluation_proof evaluation.
Proof.
  intros He Hp. unfold encode_response.
  pose proof (encode_three HEADER (evaluated_element evaluation) (evaluation_proof evaluation) RESPONSE_BYTES) as E.
  rewrite He in E. apply E. by rewrite Hp.
Qed.

Lemma decode_request_iff bytes request :
  byte_slice bytes ->
  decode_request bytes = Ok request <->
  byte_array 32 (request_key_id request) /\ byte_array 49 (request_point request) /\
  bytes = HEADER ++ request_key_id request ++ request_point request.
Proof.
  intros Hb. unfold decode_request. split.
  - destruct (Nat.eqb_spec (length bytes) REQUEST_BYTES) as [Hl|]; cbn [negb orb]; [|done].
    case_bool_decide as Hh; cbn [negb]; [|done]. intros E. injection E as <-. cbn [request_key_id request_point].
    unfold REQUEST_BYTES in Hl. split_and!.
    + split; [rewrite length_take, length_drop; lia|by apply Forall_take, Forall_drop].
    + split; [rewrite length_drop; lia|by apply Forall_drop].
    + rewrite <- Hh. rewrite <- (take_drop 8 bytes) at 1. f_equal.
      rewrite <- (take_drop 32 (drop 8 bytes)) at 1. by rewrite drop_drop.
  - intros ([Hk _] & [Hp _] & ->). rewrite !length_app, Hk, Hp.
    rewrite (take_app_length' HEADER), bool_decide_true, (drop_app_length' HEADER _ 8) by done.
    rewrite (app_assoc HEADER), (drop_app_length' (HEADER ++ request_key_id request)) by (rewrite length_app, Hk; done).
    rewrite take_app_length' by done. by destruct request.
Qed.

Lemma decode_response_iff bytes evaluation :
  byte_slice bytes ->
  decode_response bytes = Ok evaluation <->
  byte_array 49 (evaluated_element evaluation) /\ byte_array 96 (evaluation_proof evaluation) /\
  bytes = HEADER ++ evaluated_element evaluation ++ evaluation_proof evaluation.
Proof.
  intros Hb. unfold decode_response. split.
  - destruct (Nat.eqb_spec (length bytes) RESPONSE_BYTES) as [Hl|]; cbn [negb orb]; [|done].
    case_bool_decide as Hh; cbn [negb]; [|done]. intros E. injection E as <-. cbn [evaluated_element evaluation_proof].
    unfold RESPONSE_BYTES in Hl. split_and!.
    + split; [rewrite length_take, length_drop; lia|by apply Forall_take, Forall_drop].
    + split; [rewrite length_drop; lia|by apply Forall_drop].
    + rewrite <- Hh. rewrite <- (take_drop 8 bytes) at 1. f_equal.
      rewrite <- (take_drop 49 (drop 8 bytes)) at 1. by rewrite drop_drop.
  - intros ([Hk _] & [Hp _] & ->). rewrite !length_app, Hk, Hp.
    rewrite (take_app_length' HEADER), bool_decide_true, (drop_app_length' HEADER _ 8) by done.
    rewrite (app_assoc HEADER), (drop_app_length' (HEADER ++ evaluated_element evaluation)) by (rewrite length_app, Hk; done).
    rewrite take_app_length' by done. by destruct evaluation.
Qed.

(** * Properties *)

(** The wire codec is a bijection between well-formed values and accepted byte strings: a
    request decodes exactly when the bytes are the encoding of that request, a response likewise;
    so every other length, header or truncation is rejected, and encoding then decoding returns
    the value. *)
Theorem wire_codec_exact bytes :
  byte_slice bytes ->
  (forall request, decode_request bytes = Ok request <->
     byte_array 32 (request_key_id request) /\ byte_array 49 (request_point request) /\
     bytes = encode_request (request_key_id request) (request_point request)) /\
  (forall evaluation, decode_response bytes = Ok evaluation <->
     byte_array 49 (evaluated_element evaluation) /\ byte_array 96 (evaluation_proof evaluation) /\
     bytes = encode_response evaluation).
Proof.
  intros Hb. split.
  - intros request. rewrite decode_request_iff by done. split; intros (H1 & H2 & ->); split_and!; try done;
      destruct H1, H2; by rewrite encode_request_bytes.
  - intros evaluation. rewrite decode_response_iff by done. split; intros (H1 & H2 & ->); split_and!; try done;
      destruct H1, H2; by rewrite encode_response_bytes.
Qed.

(** * Witnesses *)

Lemma wire_codec_exact_witness :
  decode_request (encode_request (replicate 32 4) (replicate 49 2)) =
    Ok (mk_request (replicate 32 4) (replicate 49 2)).
Proof.
  apply (proj1 (wire_codec_exact (encode_request (replicate 32 4) (replicate 49 2)) ltac:(decided))).
  split; [decided|]. split; [decided|]. reflexivity.
Defined.
