(* ===== verification/Cbor.v ===== *)
(** The CBOR codec the envelope uses, [minicbor]: an interface with the laws the repository relies
    on, and a reference instance following RFC 8949. *)
From stdpp Require Import base list.
From Stdlib Require Import ZArith Lia.
From S2P Require Import Prelude.

Open Scope Z_scope.

(** * Interface *)

(** [Encoder] appends to a vector and cannot fail there; [Decoder] reads from the remaining bytes.
    [dec_array] returns [None] for an indefinite length. *)
Class Cbor : Type := {
  enc_uint : Z -> list Z;
  enc_bytes : list Z -> list Z;
  enc_str : list Z -> list Z;
  enc_array : Z -> list Z;
  dec_uint : Z -> list Z -> option (Z * list Z);
  dec_bytes : list Z -> option (list Z * list Z);
  dec_str : list Z -> option (list Z * list Z);
  dec_array : list Z -> option (option Z * list Z);
}.

(** Size of the head of a data item with argument [n], in preferred serialization. *)
Definition head_size (n : Z) : Z :=
  if n <? 24 then 1 else if n <? 2 ^ 8 then 2 else if n <? 2 ^ 16 then 3 else if n <? 2 ^ 32 then 5 else 9.

Class CborLaws `{Cbor} : Prop := {
  uint_round_trip : forall w n rest, 8 <= w <= 64 -> uint w n ->
    dec_uint w (enc_uint n ++ rest) = Some (n, rest);
  bytes_round_trip : forall b rest, byte_slice b -> Z.of_nat (length b) < 2 ^ 64 ->
    dec_bytes (enc_bytes b ++ rest) = Some (b, rest);
  str_round_trip : forall b rest, Forall (uint 7) b -> Z.of_nat (length b) < 2 ^ 64 ->
    dec_str (enc_str b ++ rest) = Some (b, rest);
  array_round_trip : forall n rest, u64 n -> dec_array (enc_array n ++ rest) = Some (Some n, rest);
  uint_size : forall n, u64 n -> Z.of_nat (length (enc_uint n)) = head_size n;
  bytes_size : forall b, Z.of_nat (length b) < 2 ^ 64 ->
    Z.of_nat (length (enc_bytes b)) = head_size (Z.of_nat (length b)) + Z.of_nat (length b);
  str_size : forall b, Z.of_nat (length b) < 2 ^ 64 ->
    Z.of_nat (length (enc_str b)) = head_size (Z.of_nat (length b)) + Z.of_nat (length b);
  array_size : forall n, u64 n -> Z.of_nat (length (enc_array n)) = head_size n;
  uint_bytes : forall n, byte_slice (enc_uint n);
  bytes_bytes : forall b, byte_slice b -> byte_slice (enc_bytes b);
  str_bytes : forall b, byte_slice b -> byte_slice (enc_str b);
  array_bytes : forall n, byte_slice (enc_array n);
  dec_uint_sound : forall w l n rest, byte_slice l -> dec_uint w l = Some (n, rest) ->
    uint w n /\ byte_slice rest;
  dec_bytes_sound : forall l b rest, byte_slice l -> dec_bytes l = Some (b, rest) ->
    byte_slice b /\ byte_slice rest;
  dec_str_sound : forall l b rest, byte_slice l -> dec_str l = Some (b, rest) -> byte_slice rest;
  dec_array_sound : forall l n rest, byte_slice l -> dec_array l = Some (n, rest) ->
    byte_slice rest /\ match n with Some n => u64 n | None => True end;
}.

(** * Reference instance *)

Module Reference.
Definition head (major n : Z) : list Z :=
  if n <? 24 then [wrap 8 (major * 32 + n)]
  else if n <? 2 ^ 8 then wrap 8 (major * 32 + 24) :: be_bytes 1 n
  else if n <? 2 ^ 16 then wrap 8 (major * 32 + 25) :: be_bytes 2 n
  else if n <? 2 ^ 32 then wrap 8 (major * 32 + 26) :: be_bytes 4 n
  else wrap 8 (major * 32 + 27) :: be_bytes 8 n.

Definition be_value (l : list Z) : Z := fold_left (fun acc b => acc * 256 + b) l 0.

Definition argument (n : nat) (rest : list Z) : option (Z * list Z) :=
  if (n <=? length rest)%nat then Some (be_value (take n rest), drop n rest) else None.

(** The head of a definite-length item of one major type. *)
Definition read_head (major : Z) (l : list Z) : option (Z * list Z) :=
  match l with
  | [] => None
  | b :: rest =>
      if negb (b / 32 =? major) then None
      else let info := b mod 32 in
      if info <? 24 then Some (info, rest)
      else if info =? 24 then argument 1 rest
      else if info =? 25 then argument 2 rest
      else if info =? 26 then argument 4 rest
      else if info =? 27 then argument 8 rest
      else None
  end.

Definition read_string (major : Z) (l : list Z) : option (list Z * list Z) :=
  match read_head major l with
  | Some (n, rest) =>
      if n <=? Z.of_nat (length rest) then Some (take (Z.to_nat n) rest, drop (Z.to_nat n) rest) else None
  | None => None
  end.

#[export] Instance reference_cbor : Cbor := {|
  enc_uint := head 0;
  enc_bytes b := head 2 (Z.of_nat (length b)) ++ b;
  enc_str b := head 3 (Z.of_nat (length b)) ++ b;
  enc_array := head 4;
  dec_uint w l :=
    match read_head 0 l with
    | Some (n, rest) => if n <? 2 ^ w then Some (n, rest) else None
    | None => None
    end;
  dec_bytes := read_string 2;
  dec_str := read_string 3;
  dec_array l :=
    match read_head 4 l with
    | Some (n, rest) => Some (Some n, rest)
    | None => match l with b :: rest => if b =? 159 then Some (None, rest) else None | [] => None end
    end;
|}.

Lemma be_value_app l k : be_value (l ++ k) = fold_left (fun acc b => acc * 256 + b) k (be_value l).
Proof. apply fold_left_app. Qed.

Lemma be_value_bytes n z : 0 <= z < 256 ^ Z.of_nat n -> be_value (be_bytes n z) = z.
Proof.
  revert z. induction n as [|n IH]; intros z Hz; [simpl in *; unfold be_value; simpl; lia|].
  simpl be_bytes. rewrite be_value_app. simpl.
  rewrite Nat2Z.inj_succ, Z.pow_succ_r in Hz by lia. rewrite IH.
  - pose proof (Z.div_mod z 256). lia.
  - split; [apply Z.div_pos; lia|apply Z.div_lt_upper_bound; lia].
Qed.

Lemma argument_be k n rest :
  0 <= n < 256 ^ Z.of_nat k -> argument k (be_bytes k n ++ rest) = Some (n, rest).
Proof.
  intros Hn. unfold argument. rewrite length_app, be_bytes_length.
  destruct (Nat.leb_spec k (k + length rest)); [|lia].
  rewrite take_app_length', drop_app_length' by by rewrite be_bytes_length.
  by rewrite be_value_bytes.
Qed.

Lemma info_byte major info : 0 <= major < 8 -> 0 <= info < 32 ->
  wrap 8 (major * 32 + info) / 32 = major /\ wrap 8 (major * 32 + info) mod 32 = info.
Proof.
  intros Hm Hi. rewrite wrap_id by (unfold uint; lia). split.
  - rewrite Z.div_add_l by lia. rewrite (Z.div_small info) by lia. lia.
  - rewrite Z.add_comm, Z.mod_add by lia. apply Z.mod_small. lia.
Qed.

Lemma read_head_head major n rest :
  0 <= major < 8 -> u64 n -> read_head major (head major n ++ rest) = Some (n, rest).
Proof.
  intros Hm Hn. unfold head, read_head. unfold uint in Hn.
  destruct (Z.ltb_spec n 24); [|destruct (Z.ltb_spec n (2 ^ 8)); [|destruct (Z.ltb_spec n (2 ^ 16));
    [|destruct (Z.ltb_spec n (2 ^ 32))]]].
  - destruct (info_byte major n) as [E1 E2]; [done|lia|]. cbn [app]. rewrite E1, E2, Z.eqb_refl. simpl.
    destruct (Z.ltb_spec n 24); [done|lia].
  - destruct (info_byte major 24) as [E1 E2]; [done|lia|].
    rewrite <- app_comm_cons, E1, E2, Z.eqb_refl. apply argument_be. lia.
  - destruct (info_byte major 25) as [E1 E2]; [done|lia|].
    rewrite <- app_comm_cons, E1, E2, Z.eqb_refl. apply argument_be. lia.
  - destruct (info_byte major 26) as [E1 E2]; [done|lia|].
    rewrite <- app_comm_cons, E1, E2, Z.eqb_refl. apply argument_be. lia.
  - destruct (info_byte major 27) as [E1 E2]; [done|lia|].
    rewrite <- app_comm_cons, E1, E2, Z.eqb_refl. apply argument_be. lia.
Qed.

Lemma head_length major n : u64 n -> Z.of_nat (length (head major n)) = head_size n.
Proof.
  intros _. unfold head, head_size.
  destruct (n <? 24), (n <? 2 ^ 8), (n <? 2 ^ 16), (n <? 2 ^ 32);
    cbn [length]; rewrite ?be_bytes_length; done.
Qed.

Lemma head_bytes major n : byte_slice (head major n).
Proof.
  unfold head. repeat case_match; (constructor; [apply uint_wrap; lia|]);
    first [apply be_bytes_ok | constructor].
Qed.

Lemma read_string_ok major b rest :
  0 <= major < 8 -> Z.of_nat (length b) < 2 ^ 64 ->
  read_string major ((head major (Z.of_nat (length b)) ++ b) ++ rest) = Some (b, rest).
Proof.
  intros Hm Hb. unfold read_string. rewrite <- app_assoc, read_head_head by (done || (unfold uint; lia)).
  rewrite length_app. destruct (Z.leb_spec (Z.of_nat (length b)) (Z.of_nat (length b + length rest))); [|lia].
  by rewrite Nat2Z.id, take_app_length, drop_app_length.
Qed.

Lemma be_value_range l : byte_slice l -> 0 <= be_value l < 256 ^ Z.of_nat (length l).
Proof.
  intros H. induction l as [|b l IH] using rev_ind; [unfold be_value; simpl; lia|].
  apply Forall_app in H as [Hl Hb]. inversion Hb as [|? ? Hb' _]; subst. specialize (IH Hl).
  rewrite be_value_app, length_app. cbn [length fold_left].
  rewrite Nat.add_1_r, Nat2Z.inj_succ, Z.pow_succ_r by lia. unfold uint in Hb'. lia.
Qed.

Lemma argument_sound k l n rest :
  (k <= 8)%nat -> byte_slice l -> argument k l = Some (n, rest) -> u64 n /\ byte_slice rest.
Proof.
  intros Hk Hl H. unfold argument in H. destruct (Nat.leb_spec k (length l)); [|done].
  injection H as <- <-. split; [|by apply Forall_drop].
  pose proof (be_value_range (take k l) (Forall_take _ _ _ Hl)) as Hr. rewrite length_take, Nat.min_l in Hr by done.
  unfold uint. split; [lia|]. eapply Z.lt_le_trans; [apply Hr|].
  transitivity (256 ^ 8); [apply Z.pow_le_mono_r; lia|done].
Qed.

Lemma read_head_sound major l n rest :
  byte_slice l -> read_head major l = Some (n, rest) -> u64 n /\ byte_slice rest.
Proof.
  intros Hl H. destruct l as [|b l]; [done|]. inversion Hl as [|? ? Hb Hl']; subst. unfold read_head in H.
  destruct (negb _); [done|].
  destruct (b mod 32 <? 24).
  { injection H as <- <-. split; [|done]. unfold uint. pose proof (Z.mod_pos_bound b 32). lia. }
  destruct (b mod 32 =? 24); [by eapply argument_sound; [|exact Hl'|exact H]; lia|].
  destruct (b mod 32 =? 25); [by eapply argument_sound; [|exact Hl'|exact H]; lia|].
  destruct (b mod 32 =? 26); [by eapply argument_sound; [|exact Hl'|exact H]; lia|].
  destruct (b mod 32 =? 27); [by eapply argument_sound; [|exact Hl'|exact H]; lia|done].
Qed.

Lemma read_string_sound major l b rest :
  byte_slice l -> read_string major l = Some (b, rest) -> byte_slice b /\ byte_slice rest.
Proof.
  intros Hl H. unfold read_string in H. destruct (read_head major l) as [[n r]|] eqn:E; [|done].
  apply read_head_sound in E as [_ Hr]; [|done]. destruct (_ <=? _); [|done]. injection H as <- <-.
  split; [by apply Forall_take|by apply Forall_drop].
Qed.

#[export] Instance reference_laws : CborLaws.
Proof.
  constructor; simpl.
  - intros w n rest Hw Hn. assert (u64 n) as Hn64.
    { unfold uint in *. split; [lia|]. eapply Z.lt_le_trans; [apply Hn|]. apply Z.pow_le_mono_r; lia. }
    rewrite read_head_head by (done || lia). unfold uint in Hn. destruct (Z.ltb_spec n (2 ^ w)); [done|lia].
  - intros b rest _ Hb. apply read_string_ok; [lia|done].
  - intros b rest _ Hb. apply read_string_ok; [lia|done].
  - intros n rest Hn. by rewrite read_head_head by (done || lia).
  - intros n Hn. by apply head_length.
  - intros b Hb. rewrite length_app, Nat2Z.inj_add, head_length by (unfold uint; lia). done.
  - intros b Hb. rewrite length_app, Nat2Z.inj_add, head_length by (unfold uint; lia). done.
  - intros n Hn. by apply head_length.
  - intros n. apply head_bytes.
  - intros b Hb. apply Forall_app. split; [apply head_bytes|done].
  - intros b Hb. apply Forall_app. split; [apply head_bytes|done].
  - intros n. apply head_bytes.
  - intros w l n rest Hl. destruct (read_head 0 l) as [[m r]|] eqn:E; [|done].
    apply read_head_sound in E as [Hm Hr]; [|done]. destruct (Z.ltb_spec m (2 ^ w)); [|done].
    intros [= <- <-]. unfold uint in *. split; [lia|done].
  - intros l b rest Hl. by apply read_string_sound.
  - intros l b rest Hl Hr. by eapply read_string_sound in Hr as [_ Hr].
  - intros l n rest Hl. destruct (read_head 4 l) as [[m r]|] eqn:E.
    + apply read_head_sound in E as [Hm Hr]; [|done]. by intros [= <- <-].
    + destruct Hl as [|b l Hb Hl]; [done|]. destruct (b =? 159); [|done]. by intros [= <- <-].
Qed.
End Reference.
