(* ===== verification/Envelope.v ===== *)
(** Signed envelopes, [leelo-envelope/src/lib.rs]: the deterministic-CBOR codec of descriptors and
    bodies, validation, contexts, signing and authentication. *)
From stdpp Require Import base list strings.
From Stdlib Require Import ZArith Lia.
From S2P Require Import Prelude Sss Plan Policy Crypto Wire Cbor.

Open Scope Z_scope.

(** * Data *)

Definition VERSION : Z := 1.
Definition SUITE : Z := 1.
Definition MAX_ENVELOPE : Z := 64 * 1024.
Definition MAX_TPM_BLOB : Z := 4096.
Definition SIGN_DOMAIN : list Z := bytes_of_string "leelo/v1/envelope" ++ [0].

Module EnvelopeError.
Inductive Error : Type :=
| TooLarge
| Malformed
| NonCanonical
| Unsupported
| InvalidPolicy
| InvalidProvider
| InvalidSignature.
End EnvelopeError.
Import EnvelopeError.
#[export] Instance envelope_error_dec : EqDecision EnvelopeError.Error.
Proof. solve_decision. Defined.

Record NetworkBinding : Type := mk_binding {
  node_id : Z;
  provider_id : list Z;
  binding_key_id : list Z;
  public_key : list Z;
  input_seed : list Z;
}.

Record Descriptor : Type := mk_descriptor {
  binding_id : list Z;
  volume_uuid : list Z;
  slot : Z;
  generation : Z;
  policy : ProductionPolicy;
  networks : list NetworkBinding;
  tpm_pcr_mask : Z;
  tpm_pcr_digest : list Z;
}.

Record TpmBlob : Type := mk_tpm_blob {
  tpm_public : list Z;
  tpm_private : list Z;
  tpm_name : list Z;
  parent_name : list Z;
}.

Record WrappedLeaf : Type := mk_wrapped_leaf { leaf_node_id : Z; leaf_value : WrappedKey }.

Record EnvelopeBody : Type := mk_body {
  descriptor : Descriptor;
  tpm : TpmBlob;
  body_leaves : list WrappedLeaf;
  payload : WrappedKey;
}.

Record AuthenticatedEnvelope : Type := mk_authenticated { body : EnvelopeBody; context : list Z }.

(** * Decoding monad

    A decoder takes the remaining input and returns a value with what is left. *)

Definition dec (A : Type) : Type := list Z -> result EnvelopeError.Error (A * list Z).

#[export] Instance dec_ret : MRet dec := fun A a d => Ok (a, d).
#[export] Instance dec_bind : MBind dec := fun A B f m d =>
  match m d with Ok (a, d') => f a d' | Err e => Err e end.

Definition fail {A} (e : EnvelopeError.Error) : dec A := fun _ => Err e.
Definition guard_that (b : bool) (e : EnvelopeError.Error) : dec unit := if b then mret tt else fail e.

(** [map_err(malformed)] around a CBOR read. *)
Definition read {A} (f : list Z -> option (A * list Z)) : dec A := fun d => ok_or (f d) Malformed.

(** [for _ in 0..count]: run a decoder [count] times. *)
Fixpoint repeat_dec {A} (m : dec A) (count : nat) : dec (list A) :=
  match count with
  | O => mret []
  | S count' => a ← m; rest ← repeat_dec m count'; mret (a :: rest)
  end.

Section Codec.
Context `{Primitives} `{Cbor}.

Definition read_u8 : dec Z := read (dec_uint 8).
Definition read_u32 : dec Z := read (dec_uint 32).
Definition read_u64 : dec Z := read (dec_uint 64).
Definition read_bytes : dec (list Z) := read dec_bytes.
Definition read_str : dec (list Z) := read dec_str.

Definition arr (size : Z) : dec unit :=
  n ← read dec_array; guard_that (bool_decide (n = Some size)) Malformed.

(** [bytes::<N>] *)
Definition bytes_n (n : nat) : dec (list Z) :=
  b ← read_bytes; _ ← guard_that (length b =? n)%nat Malformed; mret b.

Definition bounded_bytes (max : Z) : dec (list Z) :=
  b ← read_bytes; _ ← guard_that (negb ((length b =? 0)%nat || (max <? len b))) TooLarge; mret b.

Definition definite (n : option Z) : dec Z := match n with Some n => mret n | None => fail Malformed end.

Definition bounded_array (max : Z) : dec nat :=
  n ← read dec_array; n ← definite n; _ ← guard_that (negb (max <? n)) TooLarge; mret (Z.to_nat n).

(** ** Policy trees *)

Fixpoint put_node (n : NetworkNode) : list Z :=
  match n with
  | Leaf id provider_id => enc_array 3 ++ enc_uint 0 ++ enc_uint id ++ enc_bytes provider_id
  | Threshold id required children =>
      enc_array 4 ++ enc_uint 1 ++ enc_uint id ++ enc_uint required ++ enc_array (len children)
      ++ concat (map put_node children)
  end.

(** The loop over the children, threading the node counter. *)
Fixpoint get_nodes (get : nat -> dec (NetworkNode * nat)) (count : nat) (nodes : nat)
    : dec (list NetworkNode * nat) :=
  match count with
  | O => mret ([], nodes)
  | S count' =>
      '(child, nodes) ← get nodes;
      '(rest, nodes) ← get_nodes get count' nodes;
      mret (child :: rest, nodes)
  end.

(** [levels] is the recursion bound; the depth check stops before it is used up. *)
Fixpoint get_node (levels : nat) (depth : nat) (nodes : nat) : dec (NetworkNode * nat) :=
  if ((4 <? depth) || (30 <=? nodes))%nat then fail TooLarge
  else
  match levels with
  | O => fail TooLarge
  | S levels' =>
      let nodes := S nodes in
      n ← read dec_array; n ← definite n;
      tag ← read_u8;
      id ← read_u8;
      if (n =? 3) && (tag =? 0) then
        provider_id ← bytes_n 32; mret (Leaf id provider_id, nodes)
      else if (n =? 4) && (tag =? 1) then
        required ← read_u8;
        count ← bounded_array 30;
        '(children, nodes) ← get_nodes (fun nodes => get_node levels' (S depth) nodes) count nodes;
        mret (Threshold id required children, nodes)
      else fail Malformed
  end.

(** ** Descriptors *)

Definition bits_set (mask bits : Z) : bool := negb (Z.land mask bits =? 0).

(** The zipped loop over leaves and bindings. *)
Fixpoint check_bindings (leaves : leaf_table) (networks : list NetworkBinding) : result EnvelopeError.Error unit :=
  match leaves, networks with
  | (id, provider) :: leaves', binding :: networks' =>
      if negb (Z.eqb id (node_id binding)) || negb (bool_decide (provider = provider_id binding))
         || negb (bool_decide (binding_key_id binding = key_id (public_key binding)))
      then Err InvalidProvider
      else
        _ ← map_err (fun _ => InvalidProvider) (server_public_key_from_bytes (public_key binding));
        check_bindings leaves' networks'
  | _, _ => Ok tt
  end.

(** The quadratic uniqueness loop: [seen] is [networks[..i]]. *)
Fixpoint check_unique (seen networks : list NetworkBinding) : result EnvelopeError.Error unit :=
  match networks with
  | [] => Ok tt
  | binding :: rest =>
      if existsb (fun other => bool_decide (binding_key_id other = binding_key_id binding)
                               || bool_decide (public_key other = public_key binding)) seen
      then Err InvalidProvider
      else check_unique (seen ++ [binding]) rest
  end.

Definition validate_descriptor (d : Descriptor) : result EnvelopeError.Error unit :=
  if (32 <=? slot d) || (generation d =? 0) || bool_decide (binding_id d = replicate 32 0)
     || bool_decide (volume_uuid d = replicate 16 0) || (tpm_pcr_mask d =? 0)
     || bits_set (tpm_pcr_mask d) 4278190080
  then Err InvalidPolicy
  else
  let leaves := leaves (plan (policy d)) in
  if negb (length leaves =? length (networks d))%nat then Err InvalidProvider
  else
  _ ← check_bindings leaves (networks d);
  check_unique [] (networks d).

Definition put_binding (n : NetworkBinding) : list Z :=
  enc_array 5 ++ enc_uint (node_id n) ++ enc_bytes (provider_id n) ++ enc_bytes (binding_key_id n)
  ++ enc_bytes (public_key n) ++ enc_bytes (input_seed n).

Definition mode_code (m : Mode) : Z := match m with NetworkBound => 0 | Attested => 1 end.

Definition SLOT_LABEL : list Z := bytes_of_string "luks2-slot".

Definition put_descriptor (d : Descriptor) : list Z :=
  enc_array 13 ++ enc_uint VERSION ++ enc_uint SUITE ++ enc_bytes (binding_id d)
  ++ enc_bytes (volume_uuid d) ++ enc_uint (slot d) ++ enc_uint (generation d)
  ++ enc_uint (mode_code (mode (policy d))) ++ enc_uint (tpm_node_id (policy d))
  ++ put_node (network (policy d)) ++ enc_array (len (networks d))
  ++ concat (map put_binding (networks d)) ++ enc_uint (tpm_pcr_mask d)
  ++ enc_bytes (tpm_pcr_digest d) ++ enc_str SLOT_LABEL.

Definition descriptor_bytes (d : Descriptor) : result EnvelopeError.Error (list Z) :=
  _ ← validate_descriptor d; Ok (put_descriptor d).

Definition get_binding : dec NetworkBinding :=
  _ ← arr 5;
  node_id ← read_u8;
  provider_id ← bytes_n 32;
  key_id ← bytes_n 32;
  public_key ← bytes_n 49;
  input_seed ← bytes_n 32;
  mret (mk_binding node_id provider_id key_id public_key input_seed).

Definition lift {A} (m : result EnvelopeError.Error A) : dec A := fun d => a ← m; Ok (a, d).

Definition get_descriptor : dec Descriptor :=
  _ ← arr 13;
  version ← read_u8;
  _ ← guard_that (version =? VERSION) Unsupported;
  suite ← read_u8;
  _ ← guard_that (suite =? SUITE) Unsupported;
  binding_id ← bytes_n 32;
  volume_uuid ← bytes_n 16;
  slot ← read_u8;
  generation ← read_u64;
  code ← read_u8;
  mode ← (if code =? 0 then mret NetworkBound else if code =? 1 then mret Attested else fail Unsupported);
  tpm_id ← read_u8;
  '(network, _) ← get_node 4 1 0;
  policy ← lift (map_err (fun _ => InvalidPolicy) (new_policy mode tpm_id network));
  count ← bounded_array 30;
  networks ← repeat_dec get_binding count;
  tpm_pcr_mask ← read_u32;
  tpm_pcr_digest ← bytes_n 32;
  label ← read_str;
  _ ← guard_that (bool_decide (label = SLOT_LABEL)) Malformed;
  mret (mk_descriptor binding_id volume_uuid slot generation policy networks tpm_pcr_mask tpm_pcr_digest).

(** [d.position() != raw.len()]: nothing may remain. *)
Definition finished {A} (m : dec A) (raw : list Z) : result EnvelopeError.Error A :=
  '(a, rest) ← m raw; if (length rest =? 0)%nat then Ok a else Err Malformed.

Definition read_descriptor (raw : list Z) : result EnvelopeError.Error Descriptor :=
  desc ← finished get_descriptor raw;
  encoded ← descriptor_bytes desc;
  if bool_decide (encoded = raw) then Ok desc else Err NonCanonical.

(** ** Contexts *)

Definition CONTEXT_DOMAIN : list Z := bytes_of_string "leelo/v1/context" ++ [0].

Definition context_hash (d : Descriptor) : result EnvelopeError.Error (list Z) :=
  bytes ← descriptor_bytes d; Ok (sha384 (CONTEXT_DOMAIN ++ bytes)).

Definition leaf_context (context : list Z) (node_id : Z) : list Z :=
  (bytes_of_string "leelo/v1/leaf" ++ [0]) ++ context ++ [node_id].

Definition network_input (d : Descriptor) (n : NetworkBinding) : list Z :=
  (bytes_of_string "leelo/v1/network-input" ++ [0]) ++ binding_id d ++ [node_id n] ++ input_seed n.

(** ** Bodies *)

Definition put_wrapped (w : WrappedKey) : list Z :=
  enc_array 2 ++ enc_bytes (nonce w) ++ enc_bytes (ciphertext w).

Definition get_wrapped : dec WrappedKey :=
  _ ← arr 2; nonce ← bytes_n 12; ciphertext ← bytes_n 48; mret (mk_wrapped nonce ciphertext).

Definition put_leaf (leaf : WrappedLeaf) : list Z :=
  enc_array 2 ++ enc_uint (leaf_node_id leaf) ++ put_wrapped (leaf_value leaf).

Definition get_leaf : dec WrappedLeaf :=
  _ ← arr 2; node_id ← read_u8; value ← get_wrapped; mret (mk_wrapped_leaf node_id value).

Definition out_of_bounds (b : list Z) (max : Z) : bool := (length b =? 0)%nat || (max <? len b).

Definition put_body (desc : list Z) (b : EnvelopeBody) : list Z :=
  enc_array 4 ++ enc_bytes desc ++ enc_array 4 ++ enc_bytes (tpm_public (tpm b))
  ++ enc_bytes (tpm_private (tpm b)) ++ enc_bytes (tpm_name (tpm b)) ++ enc_bytes (parent_name (tpm b))
  ++ enc_array (len (body_leaves b)) ++ concat (map put_leaf (body_leaves b)) ++ put_wrapped (payload b).

Definition body_bytes (b : EnvelopeBody) : result EnvelopeError.Error (list Z) :=
  desc ← descriptor_bytes (descriptor b);
  if out_of_bounds (tpm_public (tpm b)) MAX_TPM_BLOB || out_of_bounds (tpm_private (tpm b)) MAX_TPM_BLOB
     || out_of_bounds (tpm_name (tpm b)) 68 || out_of_bounds (parent_name (tpm b)) 68
  then Err TooLarge
  else
  let expected := tpm_node_id (policy (descriptor b)) :: map node_id (networks (descriptor b)) in
  if negb (bool_decide (map leaf_node_id (body_leaves b) = expected)) then Err Malformed
  else
  let result := put_body desc b in
  if MAX_ENVELOPE - 128 <? len result then Err TooLarge else Ok result.

Definition get_body : dec EnvelopeBody :=
  _ ← arr 4;
  raw ← read_bytes;
  descriptor ← lift (read_descriptor raw);
  _ ← arr 4;
  public ← bounded_bytes MAX_TPM_BLOB;
  private ← bounded_bytes MAX_TPM_BLOB;
  name ← bounded_bytes 68;
  parent ← bounded_bytes 68;
  count ← bounded_array 31;
  leaves ← repeat_dec get_leaf count;
  payload ← get_wrapped;
  mret (mk_body descriptor (mk_tpm_blob public private name parent) leaves payload).

Definition read_body (raw : list Z) : result EnvelopeError.Error EnvelopeBody :=
  body ← finished get_body raw;
  encoded ← body_bytes body;
  if bool_decide (encoded = raw) then Ok body else Err NonCanonical.

(** ** Signing and authentication *)

Definition sign_input (body : list Z) : list Z := SIGN_DOMAIN ++ body.

Definition put_signed (bytes signature : list Z) : list Z :=
  enc_array 2 ++ enc_bytes bytes ++ enc_bytes signature.

Definition sign_envelope (body : EnvelopeBody) (key : SecretSigningKey) : result EnvelopeError.Error (list Z) :=
  bytes ← body_bytes body;
  signature ← map_err (fun _ => InvalidSignature) (sign key (sign_input bytes));
  Ok (put_signed bytes signature).

Definition get_signed : dec (list Z * list Z) :=
  _ ← arr 2; raw_body ← read_bytes; signature ← bytes_n 64; mret (raw_body, signature).

Definition authenticate (raw trusted_key : list Z) : result EnvelopeError.Error AuthenticatedEnvelope :=
  if MAX_ENVELOPE <? len raw then Err TooLarge
  else
  '(raw_body, signature) ← finished get_signed raw;
  _ ← map_err (fun _ => InvalidSignature) (verify trusted_key (sign_input raw_body) signature);
  if negb (bool_decide (put_signed raw_body signature = raw)) then Err NonCanonical
  else
  body ← read_body raw_body;
  context ← context_hash (descriptor body);
  Ok (mk_authenticated body context).
End Codec.

(** * Decoders that read back an encoding *)

(** [m] reads [a] from [bytes] and leaves whatever follows. *)
Definition decodes {A} (m : dec A) (bytes : list Z) (a : A) : Prop :=
  forall rest, m (bytes ++ rest) = Ok (a, rest).

Lemma decodes_ret {A} (a : A) : decodes (mret a) [] a.
Proof. done. Qed.

Lemma decodes_bind {A B} (m : dec A) (f : A -> dec B) b1 b2 a c :
  decodes m b1 a -> decodes (f a) b2 c -> decodes (m ≫= f) (b1 ++ b2) c.
Proof.
  intros H1 H2 rest. unfold mbind, dec_bind. by rewrite <- app_assoc, H1, H2.
Qed.

Lemma decodes_last {A B} (m : dec A) (f : A -> dec B) b a c :
  decodes m b a -> decodes (f a) [] c -> decodes (m ≫= f) b c.
Proof. intros H1 H2. rewrite <- (app_nil_r b). by eapply decodes_bind. Qed.

Lemma decodes_guard {B} (b : bool) e (f : unit -> dec B) bytes c :
  b = true -> decodes (f tt) bytes c -> decodes (guard_that b e ≫= f) bytes c.
Proof. intros -> H. exact H. Qed.

Lemma decodes_lift {A B} (r : result EnvelopeError.Error A) a (f : A -> dec B) bytes c :
  r = Ok a -> decodes (f a) bytes c -> decodes (lift r ≫= f) bytes c.
Proof. intros -> H. exact H. Qed.

Lemma decodes_finished {A} (m : dec A) bytes a : decodes m bytes a -> finished m bytes = Ok a.
Proof. intros H. unfold finished. specialize (H []). rewrite app_nil_r in H. by rewrite H. Qed.

Lemma decodes_repeat {A} (m : dec A) (enc : A -> list Z) l :
  Forall (fun a => decodes m (enc a) a) l -> decodes (repeat_dec m (length l)) (concat (map enc l)) l.
Proof.
  induction 1 as [|a l Ha _ IH]; [apply decodes_ret|]. simpl.
  eapply decodes_bind; [exact Ha|]. eapply decodes_last; [exact IH|]. apply decodes_ret.
Qed.

Section RoundTrip.
Context `{Primitives} `{CborLaws}.

Lemma decodes_uint w n : 8 <= w <= 64 -> uint w n -> decodes (read (dec_uint w)) (enc_uint n) n.
Proof. intros Hw Hn rest. unfold read. by rewrite uint_round_trip. Qed.

Lemma decodes_u8 n : u8 n -> decodes read_u8 (enc_uint n) n.
Proof. apply decodes_uint. lia. Qed.
Lemma decodes_u32 n : u32 n -> decodes read_u32 (enc_uint n) n.
Proof. apply decodes_uint. lia. Qed.
Lemma decodes_u64 n : u64 n -> decodes read_u64 (enc_uint n) n.
Proof. apply decodes_uint. lia. Qed.

Lemma decodes_bytes b : byte_slice b -> len b < 2 ^ 64 -> decodes read_bytes (enc_bytes b) b.
Proof. intros Hb Hl rest. unfold read_bytes, read. by rewrite bytes_round_trip. Qed.

Lemma decodes_str b : Forall (uint 7) b -> len b < 2 ^ 64 -> decodes read_str (enc_str b) b.
Proof. intros Hb Hl rest. unfold read_str, read. by rewrite str_round_trip. Qed.

Lemma decodes_arr n : u64 n -> decodes (arr n) (enc_array n) tt.
Proof.
  intros Hn rest. unfold arr, read, mbind, dec_bind. rewrite array_round_trip by done. simpl.
  by rewrite bool_decide_true.
Qed.

Lemma decodes_bytes_n n b : byte_array n b -> Z.of_nat n <= 65536 -> decodes (bytes_n n) (enc_bytes b) b.
Proof.
  intros [Hl Hb] Hn. eapply decodes_last; [apply decodes_bytes; [done|lia]|].
  apply decodes_guard; [by apply Nat.eqb_eq|]. apply decodes_ret.
Qed.

Lemma decodes_bounded_bytes max b :
  byte_slice b -> max <= 65536 -> out_of_bounds b max = false -> decodes (bounded_bytes max) (enc_bytes b) b.
Proof.
  intros Hb Hm Hout. unfold out_of_bounds in Hout.
  eapply decodes_last; [apply decodes_bytes; [done|]|].
  - apply orb_false_iff in Hout as [_ Hout]. apply Z.ltb_ge in Hout. lia.
  - apply decodes_guard; [by rewrite Hout|]. apply decodes_ret.
Qed.

Lemma decodes_bounded_array max n :
  Z.of_nat n <= max -> max < 2 ^ 64 -> decodes (bounded_array max) (enc_array (Z.of_nat n)) n.
Proof.
  intros Hn Hm rest. unfold bounded_array, read, mbind, dec_bind.
  rewrite array_round_trip by (unfold uint; lia). simpl.
  destruct (Z.ltb_spec max (Z.of_nat n)); [lia|]. simpl. by rewrite Nat2Z.id.
Qed.
End RoundTrip.

#[export] Hint Resolve decodes_u8 decodes_u32 decodes_u64 decodes_bytes_n decodes_arr decodes_ret
  decodes_bounded_bytes : leelo.

(** One field of a record: read it and continue. *)
Ltac field := eapply decodes_bind; [eauto with leelo; try (apply decodes_arr; unfold uint; lia)|].

Section Nodes.
Context `{Primitives} `{CborLaws}.

(** The node [n] is read back and counted. *)
Definition reads_node (n : NetworkNode) : Prop :=
  forall levels depth nodes, node_typed n ->
  (tree_height n <= levels)%nat -> (depth + tree_height n <= 5)%nat -> (nodes + tree_size n <= 30)%nat ->
  decodes (get_node levels depth nodes) (put_node n) (n, (nodes + tree_size n)%nat).

Lemma decodes_get_nodes levels depth cs :
  Forall reads_node cs -> Forall node_typed cs ->
  Forall (fun c => tree_height c <= levels)%nat cs -> Forall (fun c => depth + tree_height c <= 5)%nat cs ->
  forall nodes, (nodes + forest_size cs <= 30)%nat ->
  decodes (get_nodes (fun nodes => get_node levels depth nodes) (length cs) nodes)
    (concat (map put_node cs)) (cs, (nodes + forest_size cs)%nat).
Proof.
  induction 1 as [|c cs Hc _ IH]; intros Hty Hl Hd nodes Hn; simpl.
  - rewrite Nat.add_0_r. apply decodes_ret.
  - inversion Hty; inversion Hl; inversion Hd; subst. simpl in Hn.
    eapply decodes_bind; [apply Hc; try done; lia|]. cbn beta iota.
    eapply decodes_last; [apply IH; try done; lia|]. cbn beta iota. rewrite Nat.add_assoc. apply decodes_ret.
Qed.

Lemma decodes_node_head levels depth nodes n tag id bytes r :
  (depth <= 4)%nat -> (nodes < 30)%nat -> u64 n -> u8 tag -> u8 id ->
  decodes (if (n =? 3) && (tag =? 0) then
        provider_id ← bytes_n 32; mret (Leaf id provider_id, S nodes)
      else if (n =? 4) && (tag =? 1) then
        required ← read_u8;
        count ← bounded_array 30;
        '(children, nodes) ← get_nodes (fun nodes => get_node levels (S depth) nodes) count (S nodes);
        mret (Threshold id required children, nodes)
      else fail Malformed) bytes r ->
  decodes (get_node (S levels) depth nodes) (enc_array n ++ enc_uint tag ++ enc_uint id ++ bytes) r.
Proof.
  intros Hd Hn Hu Ht Hi Hrest. cbn [get_node].
  destruct (Nat.ltb_spec 4 depth); [lia|]. destruct (Nat.leb_spec 30 nodes); [lia|]. cbn [orb].
  eapply decodes_bind.
  { intros rest. unfold read. rewrite array_round_trip by done. simpl. reflexivity. }
  eapply (decodes_bind (definite (Some n)) _ []); [apply decodes_ret|].
  eapply decodes_bind; [by apply decodes_u8|]. eapply decodes_bind; [by apply decodes_u8|]. exact Hrest.
Qed.

Lemma node_round_trip n : reads_node n.
Proof.
  induction n as [id p|id required children IH] using NetworkNode_nested_ind;
    intros [|levels] depth nodes Hty Hl Hd Hn; simpl in Hl, Hd, Hn; try lia.
  - inversion Hty; subst. apply decodes_node_head; try done; try lia. simpl.
    eapply decodes_last; [by apply decodes_bytes_n; [|lia]|]. rewrite Nat.add_1_r. apply decodes_ret.
  - inversion Hty as [|? ? ? Hid Hreq Hch]; subst. apply decodes_node_head; try done; try lia. simpl.
    pose proof (forest_length_size children) as Hlen.
    eapply decodes_bind; [by apply decodes_u8|].
    eapply decodes_bind; [apply decodes_bounded_array; lia|].
    eapply decodes_last.
    + apply decodes_get_nodes; try done; [| |lia].
      * apply le_S_n in Hl. by apply list_max_Forall.
      * assert (list_max (map tree_height children) <= 5 - S depth)%nat as Hm by lia.
        apply list_max_Forall in Hm. eapply Forall_impl; [exact Hm|]. intros c. simpl. lia.
    + cbn beta iota. replace (nodes + S (forest_size children))%nat with (S nodes + forest_size children)%nat by lia.
      apply decodes_ret.
Qed.
End Nodes.

(** * Decoders return well-typed values *)

(** On bytes, [m] returns a value with [P] and leaves bytes. *)
Definition produces {A} (m : dec A) (P : A -> Prop) : Prop :=
  forall d a d', byte_slice d -> m d = Ok (a, d') -> P a /\ byte_slice d'.

Lemma produces_ret {A} (a : A) (P : A -> Prop) : P a -> produces (mret a) P.
Proof. intros Ha d b d' Hd [= <- <-]. done. Qed.

Lemma produces_bind {A B} (m : dec A) (f : A -> dec B) P Q :
  produces m P -> (forall a, P a -> produces (f a) Q) -> produces (m ≫= f) Q.
Proof.
  intros Hm Hf d b d' Hd Hrun. unfold mbind, dec_bind in Hrun.
  destruct (m d) as [[a d1]|e] eqn:E; [|done]. destruct (Hm d a d1 Hd E) as [Ha Hd1].
  by eapply (Hf a Ha).
Qed.

Lemma produces_fail {A} e (P : A -> Prop) : produces (fail e) P.
Proof. by intros d a d' _. Qed.

Lemma produces_guard (b : bool) e : produces (guard_that b e) (fun _ => b = true).
Proof. destruct b; [by apply produces_ret|apply produces_fail]. Qed.

Lemma produces_lift {A} (r : result EnvelopeError.Error A) (P : A -> Prop) :
  (forall a, r = Ok a -> P a) -> produces (lift r) P.
Proof. intros Hr d a d' Hd Hrun. unfold lift in Hrun. destruct r; simpl in Hrun; [|done]. simplify_eq. auto. Qed.

Lemma produces_repeat {A} (m : dec A) P n : produces m P -> produces (repeat_dec m n) (Forall P).
Proof.
  intros Hm. induction n as [|n IH]; simpl; [by apply produces_ret|].
  eapply produces_bind; [exact Hm|]. intros a Ha. eapply produces_bind; [exact IH|].
  intros l Hl. by apply produces_ret, Forall_cons.
Qed.

Section Typed.
Context `{Primitives} `{CborLaws}.

Lemma produces_uint w : produces (read (dec_uint w)) (uint w).
Proof.
  intros d a d' Hd Hrun. unfold read in Hrun. destruct (dec_uint w d) as [[n r]|] eqn:E; simpl in Hrun; [|done].
  simplify_eq. by eapply dec_uint_sound.
Qed.

Lemma produces_u8 : produces read_u8 u8.
Proof. apply produces_uint. Qed.

Lemma produces_bytes : produces read_bytes (fun b => byte_slice b).
Proof.
  intros d a d' Hd Hrun. unfold read_bytes, read in Hrun.
  destruct (dec_bytes d) as [[n r]|] eqn:E; simpl in Hrun; [|done]. simplify_eq. by eapply dec_bytes_sound.
Qed.

Lemma produces_str : produces read_str (fun _ => True).
Proof.
  intros d a d' Hd Hrun. unfold read_str, read in Hrun.
  destruct (dec_str d) as [[n r]|] eqn:E; simpl in Hrun; [|done]. simplify_eq. split; [done|].
  by eapply dec_str_sound.
Qed.

Lemma produces_array : produces (read dec_array) (fun n => match n with Some n => u64 n | None => True end).
Proof.
  intros d a d' Hd Hrun. unfold read in Hrun. destruct (dec_array d) as [[n r]|] eqn:E; simpl in Hrun; [|done].
  simplify_eq. by apply dec_array_sound in E as [? ?].
Qed.

Lemma produces_arr n : produces (arr n) (fun _ => True).
Proof.
  eapply produces_bind; [apply produces_array|]. intros o _ d a d' Hd Hrun.
  destruct (produces_guard (bool_decide (o = Some n)) Malformed d a d' Hd Hrun). done.
Qed.

Lemma produces_bytes_n n : produces (bytes_n n) (byte_array n).
Proof.
  eapply produces_bind; [apply produces_bytes|]. intros b Hb.
  eapply produces_bind; [apply produces_guard|]. intros _ E%Nat.eqb_eq. by apply produces_ret.
Qed.

Lemma produces_bounded_bytes max : produces (bounded_bytes max) (fun b => byte_slice b).
Proof.
  eapply produces_bind; [apply produces_bytes|]. intros b Hb.
  eapply produces_bind; [apply produces_guard|]. intros _ _. by apply produces_ret.
Qed.

Lemma produces_bounded_array max : produces (bounded_array max) (fun _ => True).
Proof.
  eapply produces_bind; [apply produces_array|]. intros o _.
  eapply (produces_bind (definite o) _ (fun _ => True)); [destruct o; [by apply produces_ret|apply produces_fail]|].
  intros n _. eapply produces_bind; [apply produces_guard|]. intros _ _. by apply produces_ret.
Qed.

Lemma produces_nodes get count : (forall nodes, produces (get nodes) (fun r => node_typed r.1)) ->
  forall nodes, produces (get_nodes get count nodes) (fun r => Forall node_typed r.1).
Proof.
  intros Hg. induction count as [|count IH]; intros nodes; simpl; [by apply produces_ret|].
  eapply produces_bind; [apply Hg|]. intros [c n1] Hc. eapply produces_bind; [apply IH|].
  intros [cs n2] Hcs. apply produces_ret. by constructor.
Qed.

Lemma produces_node levels : forall depth nodes, produces (get_node levels depth nodes) (fun r => node_typed r.1).
Proof.
  induction levels as [|levels IH]; intros depth nodes; cbn [get_node];
    (destruct (_ || _); [apply produces_fail|]); [apply produces_fail|].
  eapply produces_bind; [apply produces_array|]. intros o _.
  eapply (produces_bind (definite o) _ (fun _ => True)); [destruct o; [by apply produces_ret|apply produces_fail]|].
  intros n _. eapply produces_bind; [apply produces_u8|]. intros tag _.
  eapply produces_bind; [apply produces_u8|]. intros id Hid.
  destruct ((n =? 3) && (tag =? 0)).
  { eapply produces_bind; [apply produces_bytes_n|]. intros p Hp. apply produces_ret. by constructor. }
  destruct ((n =? 4) && (tag =? 1)); [|apply produces_fail].
  eapply produces_bind; [apply produces_u8|]. intros required Hr.
  eapply produces_bind; [apply produces_bounded_array|]. intros count _.
  eapply produces_bind; [apply produces_nodes; intros; apply IH|]. intros [cs n2] Hcs.
  apply produces_ret. by constructor.
Qed.
End Typed.

(** * Descriptors *)

Definition binding_typed (b : NetworkBinding) : Prop :=
  u8 (node_id b) /\ byte_array 32 (provider_id b) /\ byte_array 32 (binding_key_id b) /\
  byte_array 49 (public_key b) /\ byte_array 32 (input_seed b).

Definition descriptor_typed (d : Descriptor) : Prop :=
  byte_array 32 (binding_id d) /\ byte_array 16 (volume_uuid d) /\ u8 (slot d) /\ u64 (generation d) /\
  policy_ok (policy d) /\ u8 (tpm_node_id (policy d)) /\ Forall binding_typed (networks d) /\
  u32 (tpm_pcr_mask d) /\ byte_array 32 (tpm_pcr_digest d).

Lemma leaves_of_size node : (length (leaves_of node) <= tree_size node)%nat.
Proof.
  induction node as [id p|id required children IH] using NetworkNode_nested_ind; simpl; [done|].
  rewrite length_concat, map_map. apply Nat.le_le_succ_r.
  induction IH as [|c cs Hc _ IHcs]; simpl; [done|lia].
Qed.

Section Descriptors.
Context `{Primitives} `{CborLaws}.

Lemma binding_round_trip b : binding_typed b -> decodes get_binding (put_binding b) b.
Proof.
  intros (H1' & H2 & H3 & H4 & H5). unfold get_binding, put_binding.
  eapply decodes_bind; [apply decodes_arr; unfold uint; lia|].
  eapply decodes_bind; [by apply decodes_u8|].
  do 3 (eapply decodes_bind; [by apply decodes_bytes_n; [|lia]|]).
  eapply decodes_last; [by apply decodes_bytes_n; [|lia]|]. destruct b. apply decodes_ret.
Qed.

Lemma validate_networks d :
  descriptor_typed d -> validate_descriptor d = Ok tt ->
  length (networks d) = length (leaves_of (network (policy d))) /\ (length (networks d) <= 29)%nat.
Proof.
  intros (_ & _ & _ & _ & (Hty & Hwf & Hp) & _) Hv. unfold validate_descriptor in Hv.
  destruct (_ || _); [done|].
  destruct (Nat.eqb_spec (length (leaves (plan (policy d)))) (length (networks d))) as [E|]; [|done].
  apply well_formed_facts in Hwf as (_ & _ & _ & Hn). rewrite Hp in E. simpl in E.
  pose proof (leaves_of_size (network (policy d))). lia.
Qed.

Lemma policy_rebuilds policy :
  policy_ok policy -> new_policy (mode policy) (tpm_node_id policy) (network policy) = Ok policy.
Proof.
  intros (Hty & Hwf & Hp). apply new_policy_iff; [done|]. split; [done|]. destruct policy. simpl in *. by subst.
Qed.

Lemma SLOT_LABEL_ascii : Forall (uint 7) SLOT_LABEL.
Proof. decided. Qed.

Lemma descriptor_decodes d :
  descriptor_typed d -> (length (networks d) <= 29)%nat -> decodes get_descriptor (put_descriptor d) d.
Proof.
  intros (T1 & T2 & T3 & T4 & T5 & T6 & T7 & T8 & T9) Hn. unfold get_descriptor, put_descriptor.
  pose proof (policy_rebuilds _ T5) as Hnew. destruct T5 as (Hty & Hwf & Hp).
  apply well_formed_facts in Hwf as (_ & _ & Hh & Hs).
  eapply decodes_bind; [apply decodes_arr; unfold uint; lia|].
  eapply decodes_bind; [apply decodes_u8; unfold uint, VERSION; lia|]. apply decodes_guard; [done|].
  eapply decodes_bind; [apply decodes_u8; unfold uint, SUITE; lia|]. apply decodes_guard; [done|].
  do 2 (eapply decodes_bind; [by apply decodes_bytes_n; [|lia]|]).
  eapply decodes_bind; [by apply decodes_u8|]. eapply decodes_bind; [by apply decodes_u64|].
  eapply decodes_bind; [apply decodes_u8; unfold mode_code, uint; destruct (mode (policy d)); lia|].
  eapply (decodes_bind _ _ [] _ (mode (policy d))); [by destruct (mode (policy d))|].
  eapply decodes_bind; [by apply decodes_u8|].
  eapply decodes_bind; [apply node_round_trip; [done|lia..]|]. cbn beta iota.
  eapply decodes_lift; [by rewrite Hnew|].
  eapply decodes_bind; [apply decodes_bounded_array; lia|].
  eapply decodes_bind.
  { apply decodes_repeat. eapply Forall_impl; [exact T7|]. intros b. apply binding_round_trip. }
  eapply decodes_bind; [by apply decodes_u32|]. eapply decodes_bind; [by apply decodes_bytes_n; [|lia]|].
  eapply decodes_last; [apply decodes_str; [apply SLOT_LABEL_ascii|done]|].
  apply decodes_guard; [done|]. destruct d. apply decodes_ret.
Qed.

Lemma read_descriptor_canonical raw d : read_descriptor raw = Ok d -> descriptor_bytes d = Ok raw.
Proof.
  unfold read_descriptor. destruct (finished get_descriptor raw) as [desc|]; simpl; [|done].
  destruct (descriptor_bytes desc) as [encoded|] eqn:E; simpl; [|done].
  case_bool_decide as Eq; [|done]. intros [= <-]. by subst.
Qed.

Lemma descriptor_round_trip d raw :
  descriptor_typed d -> descriptor_bytes d = Ok raw -> read_descriptor raw = Ok d.
Proof.
  intros Ht Hb. unfold read_descriptor. pose proof Hb as Hb'. unfold descriptor_bytes in Hb'.
  destruct (validate_descriptor d) as [[]|] eqn:Ev; simpl in Hb'; [|done]. injection Hb' as <-.
  destruct (validate_networks d Ht Ev) as [_ Hn].
  rewrite (decodes_finished _ _ _ (descriptor_decodes d Ht Hn)). simpl. rewrite Hb. simpl.
  by rewrite bool_decide_true.
Qed.

Lemma produces_binding : produces get_binding binding_typed.
Proof.
  unfold get_binding. eapply produces_bind; [apply produces_arr|]. intros _ _.
  eapply produces_bind; [apply produces_u8|]. intros id Hid.
  do 4 (eapply produces_bind; [apply produces_bytes_n|]; intros ? ?). by apply produces_ret.
Qed.

Lemma produces_descriptor : produces get_descriptor descriptor_typed.
Proof.
  unfold get_descriptor. eapply produces_bind; [apply produces_arr|]. intros _ _.
  eapply produces_bind; [apply produces_u8|]. intros v _. eapply produces_bind; [apply produces_guard|]. intros _ _.
  eapply produces_bind; [apply produces_u8|]. intros su _. eapply produces_bind; [apply produces_guard|]. intros _ _.
  eapply produces_bind; [apply produces_bytes_n|]. intros bid Hbid.
  eapply produces_bind; [apply produces_bytes_n|]. intros vol Hvol.
  eapply produces_bind; [apply produces_u8|]. intros sl Hsl.
  eapply produces_bind; [apply (produces_uint 64)|]. intros gen Hgen.
  eapply produces_bind; [apply produces_u8|]. intros code _.
  eapply (produces_bind _ _ (fun _ => True)).
  { destruct (code =? 0); [by apply produces_ret|]. destruct (code =? 1); [by apply produces_ret|apply produces_fail]. }
  intros m _. eapply produces_bind; [apply produces_u8|]. intros tid Htid.
  eapply produces_bind; [apply produces_node|]. intros [net k] Hnet. simpl in Hnet.
  eapply (produces_bind _ _ (fun p => policy_ok p /\ tpm_node_id p = tid)).
  { apply produces_lift. intros p Hp. destruct (new_policy m tid net) as [p'|] eqn:E; simpl in Hp; [|done].
    injection Hp as <-. split; [by eapply new_policy_ok|]. apply new_policy_iff in E as [_ ->]; done. }
  intros pol [Hpol Etid]. eapply produces_bind; [apply produces_bounded_array|]. intros count _.
  eapply produces_bind; [apply produces_repeat, produces_binding|]. intros nets Hnets.
  eapply produces_bind; [apply (produces_uint 32)|]. intros mask Hmask.
  eapply produces_bind; [apply produces_bytes_n|]. intros dig Hdig.
  eapply produces_bind; [apply produces_str|]. intros lab _. eapply produces_bind; [apply produces_guard|]. intros _ _.
  apply produces_ret. unfold descriptor_typed. simpl. subst tid. split_and!; done.
Qed.

Lemma produces_finished {A} (m : dec A) P raw a :
  produces m P -> byte_slice raw -> finished m raw = Ok a -> P a.
Proof.
  intros Hm Hraw Hrun. unfold finished in Hrun. destruct (m raw) as [[b r]|] eqn:E; simpl in Hrun; [|done].
  destruct (length r =? 0)%nat; [|done]. injection Hrun as <-. by eapply Hm.
Qed.

Lemma read_descriptor_typed raw d : byte_slice raw -> read_descriptor raw = Ok d -> descriptor_typed d.
Proof.
  intros Hraw. unfold read_descriptor. destruct (finished get_descriptor raw) as [desc|] eqn:E; simpl; [|done].
  apply (produces_finished _ _ _ _ produces_descriptor Hraw) in E.
  destruct (descriptor_bytes desc); simpl; [|done]. case_bool_decide; [|done]. by intros [= <-].
Qed.
End Descriptors.

(** * Sizes *)

Lemma head_size_256 n : n < 256 -> head_size n <= 2.
Proof. intros. unfold head_size. destruct (Z.ltb_spec n 24); [lia|]. destruct (Z.ltb_spec n (2 ^ 8)); lia. Qed.

Lemma head_size_65536 n : n < 65536 -> head_size n <= 3.
Proof.
  intros. unfold head_size. destruct (Z.ltb_spec n 24); [lia|]. destruct (Z.ltb_spec n (2 ^ 8)); [lia|].
  destruct (Z.ltb_spec n (2 ^ 16)); lia.
Qed.

Lemma head_size_9 n : head_size n <= 9.
Proof. unfold head_size. repeat case_match; lia. Qed.

Section Sizes.
Context `{Primitives} `{CborLaws}.

Lemma uint_len n : u64 n -> len (enc_uint n) <= 9.
Proof. intros Hn. rewrite uint_size by done. apply head_size_9. Qed.

Lemma u8_len n : u8 n -> len (enc_uint n) <= 2.
Proof. intros Hn. rewrite uint_size by (unfold uint in *; lia). apply head_size_256. apply Hn. Qed.

Lemma array_len n : 0 <= n < 256 -> len (enc_array n) <= 2.
Proof. intros Hn. rewrite array_size by (unfold uint; lia). apply head_size_256. lia. Qed.

Lemma bytes_len n b : byte_array n b -> Z.of_nat n < 256 -> len (enc_bytes b) <= Z.of_nat n + 2.
Proof.
  intros [Hl _] Hn. rewrite bytes_size by lia. rewrite Hl. pose proof (head_size_256 (Z.of_nat n)). lia.
Qed.

Lemma bytes_len_64k b : len b < 65536 -> len (enc_bytes b) <= len b + 3.
Proof. intros Hl. rewrite bytes_size by lia. pose proof (head_size_65536 (len b)). lia. Qed.

Lemma len_app (a b : list Z) : len (a ++ b) = len a + len b.
Proof. rewrite length_app. lia. Qed.

Lemma len_concat {A} (f : A -> list Z) l bound :
  Forall (fun a => len (f a) <= bound) l -> len (concat (map f l)) <= bound * len l.
Proof. induction 1 as [|a l Ha _ IH]; simpl; [lia|]. rewrite len_app. lia. Qed.

Lemma put_node_len n : node_typed n -> (tree_size n <= 255)%nat -> len (put_node n) <= 40 * Z.of_nat (tree_size n).
Proof.
  induction n as [id p|id required children IH] using NetworkNode_nested_ind; intros Hty Hs;
    inversion Hty as [? ? Hid Hp|? ? ? Hid Hr Hch]; subst; simpl put_node; rewrite !len_app.
  - pose proof (array_len 3). pose proof (u8_len 0 ltac:(unfold uint; lia)). pose proof (u8_len id Hid).
    pose proof (bytes_len 32 p Hp). simpl tree_size. lia.
  - simpl in Hs. pose proof (forest_length_size children). pose proof (array_len 4).
    pose proof (u8_len 1 ltac:(unfold uint; lia)). pose proof (u8_len id Hid). pose proof (u8_len required Hr).
    pose proof (array_len (len children)). simpl tree_size.
    assert (len (concat (map put_node children)) <= 40 * Z.of_nat (forest_size children)) as Hc; [|lia].
    clear -IH Hch Hs. induction IH as [|c cs Hc _ IHcs]; simpl; [lia|].
    inversion Hch; subst. simpl in Hs. rewrite len_app.
    specialize (IHcs ltac:(lia) ltac:(done)). specialize (Hc ltac:(done) ltac:(lia)). lia.
Qed.

Lemma put_binding_len b : binding_typed b -> len (put_binding b) <= 160.
Proof.
  intros (T1 & T2 & T3 & T4 & T5). unfold put_binding. rewrite !len_app.
  pose proof (array_len 5). pose proof (u8_len _ T1). pose proof (bytes_len _ _ T2). pose proof (bytes_len _ _ T3).
  pose proof (bytes_len _ _ T4). pose proof (bytes_len _ _ T5). lia.
Qed.

Lemma put_descriptor_len d :
  descriptor_typed d -> (length (networks d) <= 29)%nat -> len (put_descriptor d) <= 6000.
Proof.
  intros (T1 & T2 & T3 & T4 & (Hty & Hwf & _) & T6 & T7 & T8 & T9) Hn.
  apply well_formed_facts in Hwf as (_ & _ & _ & Hs). unfold put_descriptor. rewrite !len_app.
  pose proof (array_len 13). pose proof (u8_len VERSION ltac:(unfold uint, VERSION; lia)).
  pose proof (u8_len SUITE ltac:(unfold uint, SUITE; lia)).
  pose proof (bytes_len _ _ T1). pose proof (bytes_len _ _ T2). pose proof (u8_len _ T3). pose proof (uint_len _ T4).
  pose proof (u8_len (mode_code (mode (policy d))) ltac:(unfold uint, mode_code; destruct (mode (policy d)); lia)).
  pose proof (u8_len _ T6). pose proof (put_node_len _ Hty ltac:(lia)). pose proof (array_len (len (networks d))).
  pose proof (len_concat put_binding (networks d) 160) as Hc.
  assert (Forall (fun a => len (put_binding a) <= 160) (networks d)) as Hf
    by (eapply Forall_impl; [exact T7|apply put_binding_len]).
  pose proof (uint_len (tpm_pcr_mask d) ltac:(unfold uint in *; lia)). pose proof (bytes_len _ _ T9).
  assert (len (enc_str SLOT_LABEL) <= 12).
  { rewrite str_size by done. change (len SLOT_LABEL) with 10. pose proof (head_size_256 10). lia. }
  specialize (Hc Hf). lia.
Qed.
End Sizes.

(** * Bodies *)

Definition leaf_typed (leaf : WrappedLeaf) : Prop := u8 (leaf_node_id leaf) /\ wrapped_ok (leaf_value leaf).

Definition body_typed (b : EnvelopeBody) : Prop :=
  descriptor_typed (descriptor b) /\
  byte_slice (tpm_public (tpm b)) /\ byte_slice (tpm_private (tpm b)) /\
  byte_slice (tpm_name (tpm b)) /\ byte_slice (parent_name (tpm b)) /\
  Forall leaf_typed (body_leaves b) /\ wrapped_ok (payload b).

Section Bodies.
Context `{Primitives} `{CborLaws}.

(** What [body_bytes] requires besides well-typed fields. *)
Definition body_valid (b : EnvelopeBody) : Prop :=
  validate_descriptor (descriptor b) = Ok tt /\
  out_of_bounds (tpm_public (tpm b)) MAX_TPM_BLOB = false /\
  out_of_bounds (tpm_private (tpm b)) MAX_TPM_BLOB = false /\
  out_of_bounds (tpm_name (tpm b)) 68 = false /\ out_of_bounds (parent_name (tpm b)) 68 = false /\
  map leaf_node_id (body_leaves b) =
    tpm_node_id (policy (descriptor b)) :: map node_id (networks (descriptor b)).

Lemma put_wrapped_len w : wrapped_ok w -> len (put_wrapped w) <= 66.
Proof.
  intros [T1 T2]. unfold put_wrapped. rewrite !len_app. pose proof (array_len 2).
  pose proof (bytes_len _ _ T1). pose proof (bytes_len _ _ T2). lia.
Qed.

Lemma put_leaf_len leaf : leaf_typed leaf -> len (put_leaf leaf) <= 70.
Proof.
  intros [T1 T2]. unfold put_leaf. rewrite !len_app. pose proof (array_len 2). pose proof (u8_len _ T1).
  pose proof (put_wrapped_len _ T2). lia.
Qed.

Lemma bounded_len b max : out_of_bounds b max = false -> 1 <= len b <= max.
Proof.
  unfold out_of_bounds. intros [Hn Hm]%orb_false_iff. apply Nat.eqb_neq in Hn. apply Z.ltb_ge in Hm. lia.
Qed.

Lemma body_facts b :
  body_typed b -> body_valid b ->
  (length (networks (descriptor b)) <= 29)%nat /\ (length (body_leaves b) <= 30)%nat /\
  len (put_body (put_descriptor (descriptor b)) b) <= 17000.
Proof.
  intros (T1 & _ & _ & _ & _ & T6 & T7) (Hv & B1 & B2 & B3 & B4 & Hids).
  destruct (validate_networks _ T1 Hv) as [_ Hn].
  assert (length (body_leaves b) <= 30)%nat as Hl.
  { apply (f_equal length) in Hids. rewrite length_map in Hids. simpl in Hids. rewrite length_map in Hids. lia. }
  split; [done|]. split; [done|]. unfold put_body. rewrite !len_app.
  unfold MAX_TPM_BLOB in *. apply bounded_len in B1, B2, B3, B4.
  pose proof (array_len 4). pose proof (put_descriptor_len _ T1 Hn) as Hd.
  pose proof (bytes_len_64k (put_descriptor (descriptor b)) (Z.le_lt_trans _ 6000 65536 Hd eq_refl)).
  pose proof (bytes_len_64k (tpm_public (tpm b)) ltac:(lia)).
  pose proof (bytes_len_64k (tpm_private (tpm b)) ltac:(lia)).
  pose proof (bytes_len_64k (tpm_name (tpm b)) ltac:(lia)).
  pose proof (bytes_len_64k (parent_name (tpm b)) ltac:(lia)).
  pose proof (array_len (len (body_leaves b))).
  pose proof (len_concat put_leaf (body_leaves b) 70
    ltac:(eapply Forall_impl; [exact T6|apply put_leaf_len])).
  pose proof (put_wrapped_len _ T7). lia.
Qed.

Lemma body_bytes_iff b raw :
  body_typed b ->
  body_bytes b = Ok raw <-> body_valid b /\ raw = put_body (put_descriptor (descriptor b)) b.
Proof.
  intros Hty. unfold body_bytes, descriptor_bytes.
  destruct (validate_descriptor (descriptor b)) as [[]|e] eqn:Ev; simpl.
  2: { split; [done|]. intros [(Hv & _) _]. congruence. }
  destruct (_ || _) eqn:Eo.
  { split; [done|]. intros [(_ & B1 & B2 & B3 & B4 & _) _]. by rewrite B1, B2, B3, B4 in Eo. }
  rewrite !orb_false_iff in Eo. case_bool_decide as Ei; simpl.
  2: { split; [done|]. intros [(_ & _ & _ & _ & _ & Hi) _]. done. }
  assert (body_valid b) as Hval by (unfold body_valid; destruct_and!; done).
  destruct (body_facts b Hty Hval) as (_ & _ & Hlen). unfold MAX_ENVELOPE.
  destruct (Z.ltb_spec (64 * 1024 - 128) (len (put_body (put_descriptor (descriptor b)) b))); [lia|].
  split; [by intros [= <-]|by intros [_ ->]].
Qed.

Lemma wrapped_round_trip w : wrapped_ok w -> decodes get_wrapped (put_wrapped w) w.
Proof.
  intros [T1 T2]. unfold get_wrapped, put_wrapped.
  eapply decodes_bind; [apply decodes_arr; unfold uint; lia|].
  eapply decodes_bind; [by apply decodes_bytes_n; [|lia]|].
  eapply decodes_last; [by apply decodes_bytes_n; [|lia]|]. destruct w. apply decodes_ret.
Qed.

Lemma leaf_round_trip leaf : leaf_typed leaf -> decodes get_leaf (put_leaf leaf) leaf.
Proof.
  intros [T1 T2]. unfold get_leaf, put_leaf.
  eapply decodes_bind; [apply decodes_arr; unfold uint; lia|].
  eapply decodes_bind; [by apply decodes_u8|].
  eapply decodes_last; [by apply wrapped_round_trip|]. destruct leaf. apply decodes_ret.
Qed.

Lemma body_decodes b raw_desc :
  body_typed b -> body_valid b -> byte_slice raw_desc -> len raw_desc < 2 ^ 64 ->
  read_descriptor raw_desc = Ok (descriptor b) -> decodes get_body (put_body raw_desc b) b.
Proof.
  intros Hty Hval Hs Hl Hr. destruct (body_facts b Hty Hval) as (_ & Hn & _).
  destruct Hty as (T1 & T2 & T3 & T4 & T5 & T6 & T7), Hval as (_ & B1 & B2 & B3 & B4 & _).
  unfold get_body, put_body.
  eapply decodes_bind; [apply decodes_arr; unfold uint; lia|].
  eapply decodes_bind; [by apply decodes_bytes|].
  eapply decodes_lift; [exact Hr|].
  eapply decodes_bind; [apply decodes_arr; unfold uint; lia|].
  do 4 (eapply decodes_bind; [apply decodes_bounded_bytes; [done|unfold MAX_TPM_BLOB; lia|done]|]).
  eapply decodes_bind; [apply decodes_bounded_array; lia|].
  eapply decodes_bind.
  { apply decodes_repeat. eapply Forall_impl; [exact T6|]. intros leaf. apply leaf_round_trip. }
  eapply decodes_last; [by apply wrapped_round_trip|]. destruct b as [? [] ? ?]. apply decodes_ret.
Qed.

Lemma read_body_canonical raw b : read_body raw = Ok b -> body_bytes b = Ok raw.
Proof.
  unfold read_body. destruct (finished get_body raw) as [body|]; simpl; [|done].
  destruct (body_bytes body) as [encoded|] eqn:E; simpl; [|done].
  case_bool_decide as Eq; [|done]. intros [= <-]. by subst.
Qed.
End Bodies.

(** * Encodings are bytes *)

Section Bytes.
Context `{Primitives} `{CborLaws}.

Ltac slices := repeat (apply Forall_app; split);
  try (apply uint_bytes); try (apply array_bytes); try (apply bytes_bytes; done); try (apply str_bytes).

Lemma concat_slices {A} (f : A -> list Z) l :
  Forall (fun a => byte_slice (f a)) l -> byte_slice (concat (map f l)).
Proof. intros Hf. by apply Forall_concat, Forall_map. Qed.

Lemma put_node_bytes n : node_typed n -> byte_slice (put_node n).
Proof.
  induction n as [id p|id required children IH] using NetworkNode_nested_ind; intros Hty;
    inversion Hty as [? ? Hid [? Hp]|? ? ? Hid Hr Hch]; subst; simpl put_node; slices.
  apply concat_slices. rewrite Forall_forall in IH, Hch |- *. auto.
Qed.

Lemma put_binding_bytes b : binding_typed b -> byte_slice (put_binding b).
Proof. intros (T1 & [? T2] & [? T3] & [? T4] & [? T5]). unfold put_binding. slices. Qed.

Lemma put_descriptor_bytes d : descriptor_typed d -> byte_slice (put_descriptor d).
Proof.
  intros ([? T1] & [? T2] & T3 & T4 & (Hty & _) & T6 & T7 & T8 & [? T9]). unfold put_descriptor. slices.
  - by apply put_node_bytes.
  - apply concat_slices. eapply Forall_impl; [exact T7|apply put_binding_bytes].
  - apply bytes_of_string_u8.
Qed.

Lemma put_wrapped_bytes w : wrapped_ok w -> byte_slice (put_wrapped w).
Proof. intros [[? T1] [? T2]]. unfold put_wrapped. slices. Qed.

Lemma put_body_bytes desc b : byte_slice desc -> body_typed b -> byte_slice (put_body desc b).
Proof.
  intros Hd (T1 & T2 & T3 & T4 & T5 & T6 & [[? T7] [? T8]]). unfold put_body. slices.
  apply concat_slices. eapply Forall_impl; [exact T6|]. intros leaf [L1 [[? L2] [? L3]]].
  unfold put_leaf. slices.
Qed.
End Bytes.

(** * Bodies read back, and read bodies are well-typed *)

Section ReadBody.
Context `{Primitives} `{CborLaws}.

Lemma body_round_trip b raw : body_typed b -> body_bytes b = Ok raw -> read_body raw = Ok b.
Proof.
  intros Hty Hb. pose proof Hb as Hb'. apply body_bytes_iff in Hb' as [Hval ->]; [|done].
  destruct (body_facts b Hty Hval) as (Hn & _ & _). pose proof Hty as (T1 & _). pose proof Hval as (Hv & _).
  assert (descriptor_bytes (descriptor b) = Ok (put_descriptor (descriptor b))) as Hd
    by (unfold descriptor_bytes; by rewrite Hv).
  pose proof (put_descriptor_len _ T1 Hn) as Hl.
  unfold read_body. rewrite (decodes_finished _ _ b).
  - simpl. rewrite Hb. simpl. by rewrite bool_decide_true.
  - apply body_decodes; try done; [by apply put_descriptor_bytes|lia|by apply descriptor_round_trip].
Qed.

Lemma produces_wrapped : produces get_wrapped wrapped_ok.
Proof.
  unfold get_wrapped. eapply produces_bind; [apply produces_arr|]. intros _ _.
  do 2 (eapply produces_bind; [apply produces_bytes_n|]; intros ? ?). by apply produces_ret.
Qed.

Lemma produces_leaf : produces get_leaf leaf_typed.
Proof.
  unfold get_leaf. eapply produces_bind; [apply produces_arr|]. intros _ _.
  eapply produces_bind; [apply produces_u8|]. intros id Hid.
  eapply produces_bind; [apply produces_wrapped|]. intros w Hw. by apply produces_ret.
Qed.

Lemma produces_body : produces get_body body_typed.
Proof.
  unfold get_body. eapply produces_bind; [apply produces_arr|]. intros _ _.
  eapply produces_bind; [apply produces_bytes|]. intros raw Hraw.
  eapply (produces_bind _ _ descriptor_typed).
  { apply produces_lift. intros d. by apply read_descriptor_typed. }
  intros d Hd. eapply produces_bind; [apply produces_arr|]. intros _ _.
  do 4 (eapply produces_bind; [apply produces_bounded_bytes|]; intros ? ?).
  eapply produces_bind; [apply produces_bounded_array|]. intros count _.
  eapply produces_bind; [apply produces_repeat, produces_leaf|]. intros ls Hls.
  eapply produces_bind; [apply produces_wrapped|]. intros w Hw. apply produces_ret.
  unfold body_typed. simpl. split_and!; done.
Qed.

Lemma read_body_typed raw b : byte_slice raw -> read_body raw = Ok b -> body_typed b.
Proof.
  intros Hraw. unfold read_body. destruct (finished get_body raw) as [body|] eqn:E; simpl; [|done].
  apply (produces_finished _ _ _ _ produces_body Hraw) in E.
  destruct (body_bytes body); simpl; [|done]. case_bool_decide; [|done]. by intros [= <-].
Qed.
End ReadBody.

(** * Signing *)

Section Signing.
Context `{PrimitiveLaws} `{CborLaws}.

Lemma sign_domain_len : len SIGN_DOMAIN = 18.
Proof. done. Qed.

Lemma signed_round_trip raw_body signature :
  byte_slice raw_body -> len raw_body < 2 ^ 64 -> byte_array 64 signature ->
  decodes get_signed (put_signed raw_body signature) (raw_body, signature).
Proof.
  intros Hb Hl Hs. unfold get_signed, put_signed.
  eapply decodes_bind; [apply decodes_arr; unfold uint; lia|].
  eapply decodes_bind; [by apply decodes_bytes|].
  eapply decodes_last; [by apply decodes_bytes_n; [|lia]|]. apply decodes_ret.
Qed.

Lemma produces_signed : produces get_signed (fun r => byte_slice r.1 /\ byte_array 64 r.2).
Proof.
  unfold get_signed. eapply produces_bind; [apply produces_arr|]. intros _ _.
  eapply produces_bind; [apply produces_bytes|]. intros b Hb.
  eapply produces_bind; [apply produces_bytes_n|]. intros s Hs. by apply produces_ret.
Qed.

(** Signing a well-typed body succeeds exactly when the body is valid, within all size limits. *)
Lemma sign_envelope_iff b key raw :
  body_typed b -> byte_array 32 (seed key) ->
  sign_envelope b key = Ok raw <->
  body_valid b /\ exists bytes, body_bytes b = Ok bytes /\
    raw = put_signed bytes (ed25519_sign (seed key) (sign_input bytes)).
Proof.
  intros Hty Hs. unfold sign_envelope. destruct (body_bytes b) as [bytes|e] eqn:Eb; simpl.
  - apply body_bytes_iff in Eb as [Hval ->]; [|done]. destruct (body_facts b Hty Hval) as (_ & _ & Hlen).
    unfold sign, sign_input. rewrite len_app, sign_domain_len. unfold MAX_CONTEXT_BYTES.
    destruct (Z.ltb_spec 65536 (18 + len (put_body (put_descriptor (descriptor b)) b))); [lia|]. simpl.
    split; [intros [= <-]; split; [done|]; by eexists|]. intros [_ (bytes & [= <-] & ->)]. done.
  - split; [done|]. intros [_ (bytes & E & _)]. done.
Qed.

Lemma put_signed_len bytes signature :
  len bytes < 65536 -> byte_array 64 signature -> len (put_signed bytes signature) <= len bytes + 71.
Proof.
  intros Hb Hs. unfold put_signed. rewrite !len_app. pose proof (array_len 2).
  pose proof (bytes_len_64k bytes Hb). pose proof (bytes_len _ _ Hs). lia.
Qed.

Lemma sign_authenticate b key raw :
  body_typed b -> byte_array 32 (seed key) -> sign_envelope b key = Ok raw ->
  len raw <= MAX_ENVELOPE /\
  exists ctx, context_hash (descriptor b) = Ok ctx /\
    authenticate raw (signing_public_key key) = Ok (mk_authenticated b ctx).
Proof.
  intros Hty Hs Hsign. pose proof Hsign as Hiff. apply sign_envelope_iff in Hiff as [Hval (bytes & Hb & ->)]; [|done..].
  pose proof Hb as Hb'. apply body_bytes_iff in Hb' as [_ Ebytes]; [|done].
  destruct (body_facts b Hty Hval) as (_ & _ & Hlen). rewrite <- Ebytes in Hlen.
  set (signature := ed25519_sign (seed key) (sign_input bytes)).
  assert (byte_array 64 signature) as Hsig by apply ed25519_signature_bytes.
  pose proof (put_signed_len bytes signature ltac:(lia) Hsig) as Hraw.
  split; [unfold MAX_ENVELOPE; lia|].
  assert (descriptor_bytes (descriptor b) = Ok (put_descriptor (descriptor b))) as Hd.
  { destruct Hval as (Hv & _). unfold descriptor_bytes. by rewrite Hv. }
  unfold context_hash. rewrite Hd. simpl. eexists. split; [done|].
  unfold authenticate, MAX_ENVELOPE. destruct (Z.ltb_spec (64 * 1024) (len (put_signed bytes signature))); [lia|].
  rewrite (decodes_finished _ _ (bytes, signature)).
  2: { apply signed_round_trip; [|lia|done]. subst bytes. apply put_body_bytes; [|done].
       by apply put_descriptor_bytes, Hty. }
  simpl. destruct (sign_verify key (sign_input bytes) signature Hs) as [_ ->].
  { unfold sign, sign_input. rewrite len_app, sign_domain_len. unfold MAX_CONTEXT_BYTES.
    destruct (Z.ltb_spec 65536 (18 + len bytes)); [lia|done]. }
  simpl. rewrite bool_decide_true by done. simpl. rewrite (body_round_trip b bytes Hty Hb). simpl.
  unfold context_hash. by rewrite Hd.
Qed.

(** What acceptance of raw bytes means. *)
Lemma authenticate_frame raw pk env :
  byte_slice raw -> authenticate raw pk = Ok env ->
  exists bytes signature, finished get_signed raw = Ok (bytes, signature) /\ raw = put_signed bytes signature /\
    verify pk (sign_input bytes) signature = Ok tt /\
    body_bytes (body env) = Ok bytes /\ body_typed (body env) /\ body_valid (body env) /\
    context_hash (descriptor (body env)) = Ok (context env).
Proof.
  intros Hraw Hauth. unfold authenticate in Hauth. destruct (MAX_ENVELOPE <? len raw); [done|].
  destruct (finished get_signed raw) as [[bytes signature]|] eqn:Ef; simpl in Hauth; [|done].
  destruct (verify pk (sign_input bytes) signature) as [[]|] eqn:Ev; simpl in Hauth; [|done].
  case_bool_decide as Eq; simpl in Hauth; [|done].
  destruct (read_body bytes) as [b|] eqn:Er; simpl in Hauth; [|done].
  destruct (context_hash (descriptor b)) as [ctx|] eqn:Ec; simpl in Hauth; [|done].
  injection Hauth as <-. simpl.
  destruct (produces_finished _ _ _ _ produces_signed Hraw Ef) as [Hbytes _]. simpl in Hbytes.
  pose proof (read_body_typed _ _ Hbytes Er) as Hty. apply read_body_canonical in Er as Hb.
  pose proof (proj1 (proj1 (body_bytes_iff b bytes Hty) Hb)) as Hval.
  exists bytes, signature. split_and!; done.
Qed.
Lemma authenticate_sound raw pk env :
  byte_slice raw -> authenticate raw pk = Ok env ->
  exists bytes signature, raw = put_signed bytes signature /\
    verify pk (sign_input bytes) signature = Ok tt /\
    body_bytes (body env) = Ok bytes /\ body_typed (body env) /\ body_valid (body env) /\
    context_hash (descriptor (body env)) = Ok (context env).
Proof. intros Hr Ha. destruct (authenticate_frame raw pk env Hr Ha) as (bytes & signature & _ & Hall). by exists bytes, signature. Qed.
End Signing.

(** * Properties *)

Section Claims.
Context `{PrimitiveLaws} `{CborLaws}.

(** The descriptor codec is exact: bytes decode to a descriptor if and only if they are its
    encoding, so encoding is injective and no second encoding is accepted. *)
Theorem descriptor_codec_exact d raw :
  descriptor_typed d -> read_descriptor raw = Ok d <-> descriptor_bytes d = Ok raw.
Proof. intros Hty. split; [apply read_descriptor_canonical|by apply descriptor_round_trip]. Qed.

(** C20: the envelope body codec is exact, and every valid body encodes: the total-size check can
    never reject a body whose parts are within their own bounds. *)
Theorem body_codec_exact b raw :
  body_typed b ->
  (read_body raw = Ok b <-> body_bytes b = Ok raw) /\
  (body_valid b -> exists bytes, body_bytes b = Ok bytes /\ len bytes <= 17000).
Proof.
  intros Hty. split; [split; [apply read_body_canonical|by apply body_round_trip]|].
  intros Hval. exists (put_body (put_descriptor (descriptor b)) b).
  split; [by apply body_bytes_iff|]. by apply body_facts.
Qed.

(** A signed envelope is within the size limit and authenticates, under the signer's public
    key, to the body that was signed and the context hash of its descriptor. *)
Theorem sign_then_authenticate b key raw :
  body_typed b -> byte_array 32 (seed key) -> sign_envelope b key = Ok raw ->
  len raw <= MAX_ENVELOPE /\
  exists ctx, context_hash (descriptor b) = Ok ctx /\
    authenticate raw (signing_public_key key) = Ok (mk_authenticated b ctx).
Proof. apply sign_authenticate. Qed.

(** C19: accepted bytes are authentic: if [authenticate] returns an envelope then the raw bytes are
    exactly the signed frame of a body encoding whose signature verifies under the external key,
    the returned body is well-typed and valid and encodes to those bytes, and the context is the
    hash of its descriptor. *)
Theorem authenticate_only_signed raw pk env :
  byte_slice raw -> authenticate raw pk = Ok env ->
  exists bytes signature, raw = put_signed bytes signature /\
    verify pk (sign_input bytes) signature = Ok tt /\
    body_bytes (body env) = Ok bytes /\ body_typed (body env) /\ body_valid (body env) /\
    context_hash (descriptor (body env)) = Ok (context env).
Proof. apply authenticate_sound. Qed.
End Claims.
