(* ===== verification/Observation.v ===== *)
(** Operation reports, [leelo-engine/src/observation.rs], with the error and failure categories of
    [leelo-engine/src/lib.rs]. Instants and durations are nanoseconds; every clock reading is an
    argument. *)
From stdpp Require Import base list strings.
From Stdlib Require Import ZArith Lia.
From S2P Require Import Prelude Plan Policy Crypto Envelope.

Open Scope Z_scope.

(** * Failure categories of the engine *)

Inductive NetworkFailure : Type :=
| Configuration
| Unavailable
| Timeout
| RemoteRejected
| InvalidResponse
| NetInvalidProof
| NetAuthentication
| NetCryptography.
#[export] Instance NetworkFailure_eq_dec : EqDecision NetworkFailure.
Proof. solve_decision. Defined.

Record ProviderFailure : Type := mk_provider_failure { failed_provider : list Z; kind : NetworkFailure }.
#[export] Instance ProviderFailure_eq_dec : EqDecision ProviderFailure.
Proof. solve_decision. Defined.

Module EngineError.
Inductive Error : Type :=
| Envelope (e : EnvelopeError.Error)
| Crypto
| Sharing
| Policy
| Provider (what : string)
| Tpm (operation : string) (detail : string)
| InsufficientFactors (failures : list ProviderFailure)
| DeadlineExceeded (failures : list ProviderFailure)
| InconsistentShares
| TargetMismatch
| UnsupportedMode
| Runtime.
End EngineError.

(** * Report data *)

Definition MAX_PROVIDER_OBSERVATIONS : nat := MAX_NODES.
Definition MAX_STAGES : nat := 8.

Inductive Phase : Type := Prepare | Recover.
Inductive Stage : Type :=
| Validate | TpmSeal | ShareGeneration | Network | TpmUnseal | PreparePayload | AuthenticatePayload.

Module ObservedFailure.
Inductive Failure : Type :=
| Envelope | Cryptography | Sharing | Policy | Tpm | InsufficientFactors | Deadline
| InconsistentShares | TargetMismatch | UnsupportedMode | Runtime.
End ObservedFailure.

(** [Failure::from_error] *)
Definition from_error (error : EngineError.Error) : ObservedFailure.Failure :=
  match error with
  | EngineError.Envelope _ => ObservedFailure.Envelope
  | EngineError.Crypto => ObservedFailure.Cryptography
  | EngineError.Sharing => ObservedFailure.Sharing
  | EngineError.Policy => ObservedFailure.Policy
  | EngineError.Provider _ | EngineError.Tpm _ _ => ObservedFailure.Tpm
  | EngineError.InsufficientFactors _ => ObservedFailure.InsufficientFactors
  | EngineError.DeadlineExceeded _ => ObservedFailure.Deadline
  | EngineError.InconsistentShares => ObservedFailure.InconsistentShares
  | EngineError.TargetMismatch => ObservedFailure.TargetMismatch
  | EngineError.UnsupportedMode => ObservedFailure.UnsupportedMode
  | EngineError.Runtime => ObservedFailure.Runtime
  end.

Inductive ProviderOutcome : Type :=
| NotStarted
| Authenticated
| Failed (kind : NetworkFailure)
| CanceledQuorum
| CanceledDeadline
| CanceledOperation.
#[export] Instance ProviderOutcome_eq_dec : EqDecision ProviderOutcome.
Proof. solve_decision. Defined.

Record ProviderObservation : Type := mk_provider_observation {
  observed_provider : list Z; outcome : ProviderOutcome; provider_duration : Z }.
Record StageObservation : Type := mk_stage_observation {
  stage : Stage; stage_duration : Z; stage_failure : option ObservedFailure.Failure }.

Record OperationReport : Type := mk_report {
  report_phase : Phase;
  report_mode : option Mode;
  report_duration : Z;
  report_failure : option ObservedFailure.Failure;
  providers : list (option ProviderObservation);
  stages : list (option StageObservation);
  active_stage : option (Stage * Z);
}.

(** * Operations *)

Definition new_report (phase : Phase) : OperationReport :=
  mk_report phase None 0 None (replicate MAX_PROVIDER_OBSERVATIONS None) (replicate MAX_STAGES None) None.

(** [Instant::elapsed]: zero when the clock reads before the start. *)
Definition elapsed (now start : Z) : Z := saturating_sub now start.

Definition observed_providers (r : OperationReport) : list ProviderObservation := omap id (providers r).
Definition observed_stages (r : OperationReport) : list StageObservation := omap id (stages r).

Definition degraded (r : OperationReport) : bool :=
  existsb (fun p => match outcome p with Failed _ => true | _ => false end) (observed_providers r).

(** Write into the first empty slot, if there is one. *)
Fixpoint fill_slot {A} (slots : list (option A)) (a : A) : list (option A) :=
  match slots with
  | [] => []
  | None :: rest => Some a :: rest
  | Some b :: rest => Some b :: fill_slot rest a
  end.

Definition close_stage (r : OperationReport) (failure : option ObservedFailure.Failure) (now : Z)
    : OperationReport :=
  match active_stage r with
  | Some (stage, started) =>
      mk_report (report_phase r) (report_mode r) (report_duration r) (report_failure r) (providers r)
        (fill_slot (stages r) (mk_stage_observation stage (elapsed now started) failure)) None
  | None => r
  end.

Definition enter (r : OperationReport) (stage : Stage) (now now' : Z) : OperationReport :=
  let r := close_stage r None now in
  mk_report (report_phase r) (report_mode r) (report_duration r) (report_failure r) (providers r)
    (stages r) (Some (stage, now')).

Definition begin_report (phase : Phase) (now now' : Z) : OperationReport :=
  enter (new_report phase) Validate now now'.

(** The zipped loop of [configure]. *)
Fixpoint configure_entries (entries : list (option ProviderObservation)) (bindings : list NetworkBinding)
    : list (option ProviderObservation) :=
  match entries, bindings with
  | _ :: entries', binding :: bindings' =>
      Some (mk_provider_observation (provider_id binding) NotStarted 0) :: configure_entries entries' bindings'
  | entries, _ => entries
  end.

Definition configure (r : OperationReport) (mode : Mode) (bindings : list NetworkBinding) : OperationReport :=
  mk_report (report_phase r) (Some mode) (report_duration r) (report_failure r)
    (configure_entries (providers r) bindings) (stages r) (active_stage r).

Definition finish (r : OperationReport) (started : Z) (failure : option ObservedFailure.Failure) (now now' : Z)
    : OperationReport :=
  let r := mk_report (report_phase r) (report_mode r) (report_duration r) failure (providers r) (stages r)
             (active_stage r) in
  let r := close_stage r failure now in
  mk_report (report_phase r) (report_mode r) (elapsed now' started) (report_failure r) (providers r) (stages r)
    (active_stage r).

(** [OperationReport::provider] *)
Definition observe (r : OperationReport) (index : nat) (outcome : ProviderOutcome) (duration : Z) : OperationReport :=
  match providers r !! index with
  | Some (Some entry) =>
      mk_report (report_phase r) (report_mode r) (report_duration r) (report_failure r)
        (<[index := Some (mk_provider_observation (observed_provider entry) outcome duration)]> (providers r))
        (stages r) (active_stage r)
  | _ => r
  end.

(** [OperationReport::pending] *)
Definition pending (r : OperationReport) (index : nat) : bool :=
  match providers r !! index with
  | Some (Some entry) => bool_decide (outcome entry = NotStarted)
  | _ => false
  end.

(** * Well-formed reports *)

(** The arrays keep their fixed sizes, and the stages used are a prefix. *)
Definition report_ok (r : OperationReport) : Prop :=
  length (providers r) = MAX_PROVIDER_OBSERVATIONS /\ length (stages r) = MAX_STAGES /\
  exists filled, stages r = map Some filled ++ replicate (MAX_STAGES - length filled) None /\
    (length filled <= MAX_STAGES)%nat.

Lemma fill_slot_length {A} (slots : list (option A)) a : length (fill_slot slots a) = length slots.
Proof. induction slots as [|[b|] slots IH]; simpl; [done|by rewrite IH|done]. Qed.

Lemma fill_slot_prefix {A} (filled : list A) n a :
  fill_slot (map Some filled ++ replicate n None) a =
  match n with
  | O => map Some filled
  | S n' => map Some (filled ++ [a]) ++ replicate n' None
  end.
Proof.
  induction filled as [|b filled IH]; simpl; [by destruct n|]. rewrite IH. by destruct n.
Qed.

Lemma configure_entries_length entries bindings :
  length (configure_entries entries bindings) = length entries.
Proof. revert bindings. induction entries as [|e entries IH]; intros [|b bindings]; simpl; auto. Qed.

Lemma close_stage_ok r failure now : report_ok r -> report_ok (close_stage r failure now).
Proof.
  intros (H1 & H2 & filled & H3 & H4). unfold close_stage. destruct (active_stage r) as [[st started]|].
  - unfold report_ok. cbn [providers stages]. split; [done|]. split; [by rewrite fill_slot_length|].
    rewrite H3, fill_slot_prefix. destruct (MAX_STAGES - length filled)%nat as [|n] eqn:E.
    + exists filled. rewrite E. simpl. by rewrite app_nil_r.
    + exists (filled ++ [mk_stage_observation st (elapsed now started) failure]). rewrite length_app. simpl.
      replace (MAX_STAGES - (length filled + 1))%nat with n by lia. split; [done|lia].
  - split; [done|]. split; [done|]. by exists filled.
Qed.

Lemma new_report_ok phase : report_ok (new_report phase).
Proof. split; [done|]. split; [done|]. exists []. split; [done|simpl; lia]. Qed.

Lemma enter_ok r st now now' : report_ok r -> report_ok (enter r st now now').
Proof. intros H. by apply (close_stage_ok r None now). Qed.

Lemma configure_ok r mode bindings : report_ok r -> report_ok (configure r mode bindings).
Proof. intros (H1 & H2). split; [|done]. simpl. by rewrite configure_entries_length. Qed.

Lemma finish_ok r started failure now now' : report_ok r -> report_ok (finish r started failure now now').
Proof.
  intros H. unfold finish. apply (close_stage_ok (mk_report (report_phase r) (report_mode r) (report_duration r)
    failure (providers r) (stages r) (active_stage r)) failure now). done.
Qed.

Lemma observe_ok r index outcome duration : report_ok r -> report_ok (observe r index outcome duration).
Proof.
  intros (H1 & H2). unfold observe. repeat case_match; try done. split; [|done]. simpl. by rewrite length_insert.
Qed.
#[export] Hint Resolve close_stage_ok enter_ok configure_ok finish_ok observe_ok new_report_ok : leelo.
