(* ===== verification/Engine.v ===== *)
(** Enrollment and recovery, [leelo-engine/src/lib.rs] and [leelo-engine/src/recovery.rs]: state
    passing over the operating system's randomness, the clock, the TPM and the report, with network
    completions as an explicit schedule. *)
From stdpp Require Import base list strings.
From Stdlib Require Import ZArith Lia.
From S2P Require Import Prelude Sss Plan Policy Session Release Crypto Wire Cbor Envelope Observation.

Open Scope Z_scope.

(** * Interfaces of the trusted adapters *)

Inductive TpmAuthorization : Type := LocalMeasuredBoot | FreshSessionAuthorization.
#[export] Instance TpmAuthorization_eq_dec : EqDecision TpmAuthorization.
Proof. solve_decision. Defined.
Record UnsealedSeed : Type := mk_unsealed { unsealed_seed : list Z; authorization : TpmAuthorization }.

(** [TpmProvider], over the device state. *)
Class TpmProvider (T : Type) : Type := {
  supports_mode : T -> Mode -> bool;
  tpm_seal : T -> Descriptor -> list Z -> result EngineError.Error TpmBlob * T;
  tpm_unseal : T -> AuthenticatedEnvelope -> result EngineError.Error UnsealedSeed * T;
}.

(** What one call of [NetworkProvider::evaluate] answers to a binding and a blinded point. *)
Abbreviation answer := (NetworkBinding -> list Z -> result NetworkFailure Evaluation).

(** [OPERATION_BUDGET], in nanoseconds. *)
Definition OPERATION_BUDGET : Z := 30 * 1000000000.
Definition MAX_NETWORK_OPERATIONS : nat := 4.

Record PreparedEnrollment : Type := mk_prepared { prepared_envelope : list Z; prepared_credential : list Z }.
Record UnlockResult : Type := mk_unlock { credential : list Z; diagnostics : list ProviderFailure }.

(** * The world an operation runs in *)

(** Randomness, the TPM, the number of clock readings so far and the report. *)
Record World (R T : Type) : Type := mk_world {
  entropy : R; device : T; ticks : nat; report : OperationReport }.
Arguments mk_world {R T}.
Arguments entropy {R T}.
Arguments device {R T}.
Arguments ticks {R T}.
Arguments report {R T}.

(** Errors leave the world as it is at that point: the report survives failed operations. *)
Definition M (R T A : Type) : Type := World R T -> result (fault EngineError.Error) A * World R T.

#[export] Instance M_ret {R T} : MRet (M R T) := fun A a w => (Ok a, w).
#[export] Instance M_bind {R T} : MBind (M R T) := fun A B f m w =>
  match m w with (Ok a, w') => f a w' | (Err e, w') => (Err e, w') end.

Section Engine.
Context `{Primitives} `{Cbor}.
Context {R T : Type} `{Rng R} `{TpmProvider T}.
Context (clock : nat -> Z) (runtime_ok : bool).

Definition throw {A} (e : EngineError.Error) : M R T A := fun w => (Err (Fault e), w).

Definition of_result {E A} (f : E -> EngineError.Error) (r : result E A) : M R T A :=
  fun w => (map_err (fun e => Fault (f e)) r, w).

(** Run an operation that draws from [OsRng]. *)
Definition draw {E A} (f : E -> EngineError.Error) (op : R -> result E A * R) : M R T A := fun w =>
  let '(r, rng) := op (entropy w) in
  (map_err (fun e => Fault (f e)) r, mk_world rng (device w) (ticks w) (report w)).

(** [Instant::now] *)
Definition now : M R T Z := fun w =>
  (Ok (clock (ticks w)), mk_world (entropy w) (device w) (S (ticks w)) (report w)).

Definition update_report (f : OperationReport -> OperationReport) : M R T unit := fun w =>
  (Ok tt, mk_world (entropy w) (device w) (ticks w) (f (report w))).

Definition enter_stage (stage : Stage) : M R T unit :=
  t ← now; t' ← now; update_report (fun r => enter r stage t t').

(** [report.provider(index, outcome, started.elapsed())] *)
Definition observe_since (index : nat) (outcome : ProviderOutcome) (started : Z) : M R T unit :=
  t ← now; update_report (fun r => observe r index outcome (elapsed t started)).

Definition runtime : M R T unit := if runtime_ok then mret tt else throw EngineError.Runtime.

Definition check_deadline (deadline : Z) : M R T unit :=
  t ← now; if deadline <=? t then throw (EngineError.DeadlineExceeded []) else mret tt.

Definition fresh_secret : M R T (list Z) := draw (fun _ => EngineError.Crypto) (random_bytes 32).

Definition derive (ikm context purpose : list Z) : M R T (list Z) :=
  of_result (fun _ => EngineError.Crypto) (derive_secret_key ikm context purpose).

(** [network_key]: [None] when the deadline elapses while the provider has not answered. *)
Definition network_key (d : Descriptor) (b : NetworkBinding) (context : list Z) (rng : R)
    (net : list Z -> option (result NetworkFailure Evaluation))
    : option (result NetworkFailure (list Z)) * R :=
  let input := network_input d b in
  match blind_with_entropy input rng with
  | (Err _, rng') => (Some (Err NetCryptography), rng')
  | (Ok (state, blinded), rng') =>
      (match net blinded with
       | None => None
       | Some (Err kind) => Some (Err kind)
       | Some (Ok evaluation) => Some (
           pk ← map_err (fun _ => Configuration) (server_public_key_from_bytes (public_key b));
           output ← map_err (fun _ => NetInvalidProof) (finalize state evaluation pk);
           map_err (fun _ => NetCryptography)
             (derive_wrap_key output (leaf_context context (node_id b))))
       end, rng')
  end.

Definition policy_error (error : fault PolicyError) : fault EngineError.Error :=
  match error with
  | Fault FactorsNotSatisfied => Fault (EngineError.InsufficientFactors [])
  | Fault (Sharing Sss.InconsistentShares) => Fault EngineError.InconsistentShares
  | Fault _ => Fault EngineError.Policy
  | Panic => Panic
  end.

Definition of_policy {A} (r : result (fault PolicyError) A) : M R T A := fun w => (map_err policy_error r, w).

(** ** Enrollment *)

Definition TPM_WRAP : list Z := bytes_of_string "leelo/v1/tpm-wrap".
Definition LUKS_SLOT : list Z := bytes_of_string "leelo/v1/luks-slot".

(** One iteration of the loop over leaves and bindings. *)
Definition wrap_leaf (d : Descriptor) (context : list Z)
    (net : nat -> NetworkBinding -> list Z -> option (result NetworkFailure Evaluation))
    (index : nat) (share : NetworkShare) (binding : NetworkBinding) : M R T WrappedLeaf :=
  let '(id, secret) := share in
  if negb (Z.eqb id (node_id binding)) then throw EngineError.Policy
  else
  provider_started ← now;
  key_result ← (fun w => let '(r, rng) := network_key d binding context (entropy w) (net index binding) in
                         (Ok r, mk_world rng (device w) (ticks w) (report w)));
  match key_result with
  | None =>
      _ ← observe_since index CanceledDeadline provider_started;
      throw (EngineError.DeadlineExceeded [mk_provider_failure (provider_id binding) Timeout])
  | Some (Err kind) =>
      _ ← observe_since index (Failed kind) provider_started;
      throw (EngineError.InsufficientFactors [mk_provider_failure (provider_id binding) kind])
  | Some (Ok key) =>
      let leaf_ctx := leaf_context context id in
      sealed ← (fun w => let '(r, rng) := seal_key key secret leaf_ctx (entropy w) in
                         (Ok r, mk_world rng (device w) (ticks w) (report w)));
      match sealed with
      | Err _ =>
          _ ← observe_since index (Failed NetCryptography) provider_started; throw EngineError.Crypto
      | Ok value =>
          match open_key key value leaf_ctx with
          | Err _ =>
              _ ← observe_since index (Failed NetAuthentication) provider_started; throw EngineError.Crypto
          | Ok checked =>
              if negb (bool_decide (checked = secret)) then
                _ ← observe_since index (Failed NetAuthentication) provider_started;
                throw EngineError.InconsistentShares
              else
                _ ← observe_since index Authenticated provider_started;
                mret (mk_wrapped_leaf id value)
          end
      end
  end.

Fixpoint wrap_leaves (d : Descriptor) (context : list Z)
    (net : nat -> NetworkBinding -> list Z -> option (result NetworkFailure Evaluation))
    (index : nat) (shares : list NetworkShare) (bindings : list NetworkBinding) : M R T (list WrappedLeaf) :=
  match shares, bindings with
  | share :: shares', binding :: bindings' =>
      leaf ← wrap_leaf d context net index share binding;
      rest ← wrap_leaves d context net (S index) shares' bindings';
      mret (leaf :: rest)
  | _, _ => mret []
  end.

Definition seal_device (d : Descriptor) (seed : list Z) : M R T TpmBlob := fun w =>
  let '(r, device') := tpm_seal (device w) d seed in
  (map_err Fault r, mk_world (entropy w) device' (ticks w) (report w)).

Definition prepare_inner (d : Descriptor) (signer : SecretSigningKey)
    (net : nat -> NetworkBinding -> list Z -> option (result NetworkFailure Evaluation))
    : M R T PreparedEnrollment :=
  started ← now;
  let deadline := started + OPERATION_BUDGET in
  context ← of_result EngineError.Envelope (context_hash d);
  _ ← update_report (fun r => configure r (mode (policy d)) (networks d));
  supported ← (fun w => (Ok (supports_mode (device w) (mode (policy d))), w));
  if negb supported then throw EngineError.UnsupportedMode
  else
  _ ← runtime;
  credential ← fresh_secret;
  root ← fresh_secret;
  root_shares ← draw (fun _ => EngineError.Sharing) (split root 2 2);
  tpm_seed ← fresh_secret;
  _ ← enter_stage TpmSeal;
  blob ← seal_device d tpm_seed;
  _ ← check_deadline deadline;
  _ ← enter_stage ShareGeneration;
  let tpm_context := leaf_context context (tpm_node_id (policy d)) in
  tpm_key ← derive tpm_seed tpm_context TPM_WRAP;
  first ← (fun w => (indexed (root_shares !! 0%nat), w));
  tpm_value ← draw (fun _ => EngineError.Crypto) (seal_key tpm_key (value first) tpm_context);
  second ← (fun w => (indexed (root_shares !! 1%nat), w));
  network_shares ← (fun w => let '(r, rng) := split_network (policy d) (value second) (entropy w) in
                             (map_err policy_error r, mk_world rng (device w) (ticks w) (report w)));
  reconstructed ← of_policy (recover_network (policy d) network_shares);
  if negb (bool_decide (reconstructed = value second)) then throw EngineError.InconsistentShares
  else
  _ ← enter_stage Network;
  wrapped ← wrap_leaves d context net 0 network_shares (networks d);
  _ ← enter_stage PreparePayload;
  payload_key ← derive root context LUKS_SLOT;
  payload ← draw (fun _ => EngineError.Crypto) (seal_key payload_key credential context);
  let body := mk_body d blob (mk_wrapped_leaf (tpm_node_id (policy d)) tpm_value :: wrapped) payload in
  envelope ← of_result EngineError.Envelope (sign_envelope body signer);
  _ ← check_deadline deadline;
  mret (mk_prepared envelope credential).

(** [report.begin], run, [report.finish]: the report is completed on both branches. *)
Definition observed_operation {A} (phase : Phase) (operation : M R T A) : M R T A := fun w =>
  let started := clock (ticks w) in
  let w := mk_world (entropy w) (device w) (S (S (S (ticks w))))
             (begin_report phase (clock (S (ticks w))) (clock (S (S (ticks w))))) in
  let '(r, w) := operation w in
  let failure := match r with Ok _ => None | Err (Fault e) => Some (from_error e) | Err Panic => None end in
  match r with
  | Err Panic => (r, w)
  | _ => (r, mk_world (entropy w) (device w) (S (S (ticks w)))
            (finish (report w) started failure (clock (ticks w)) (clock (S (ticks w)))))
  end.

Definition prepare_observed (d : Descriptor) (signer : SecretSigningKey)
    (net : nat -> NetworkBinding -> list Z -> option (result NetworkFailure Evaluation))
    : M R T PreparedEnrollment :=
  observed_operation Prepare (prepare_inner d signer net).

(** ** Network recovery *)

(** The body of one leaf operation once its provider has answered. Each concurrent operation draws
    its own randomness from the operating system. *)
Definition recover_leaf (envelope : AuthenticatedEnvelope) (binding : NetworkBinding) (rng : R) (net : answer)
    : result NetworkFailure (list Z) :=
  match (network_key (descriptor (body envelope)) binding (context envelope) rng (fun p => Some (net binding p))).1 with
  | None => Err Timeout
  | Some (Err kind) => Err kind
  | Some (Ok key) =>
      wrapped ← ok_or (find (fun leaf => Z.eqb (leaf_node_id leaf) (node_id binding))
                         (body_leaves (body envelope))) Configuration;
      map_err (fun _ => NetAuthentication)
        (open_key key (leaf_value wrapped) (leaf_context (context envelope) (node_id binding)))
  end.

(** What the executor does next: first poll of a pending operation, completion of one, or the
    deadline. Positions are taken modulo the number of pending operations. *)
Inductive event : Type :=
| Started (position : nat)
| Completes (position : nat) (rng : R) (net : answer)
| Elapsed.

(** The locals of [recover_network_observed]. *)
Record recovery : Type := mk_recovery {
  remaining : list (nat * NetworkBinding);
  starts : list (option Z);
  in_flight : list (nat * NetworkBinding);
  recovered : list NetworkShare;
  available : list Z;
  failures : list ProviderFailure;
}.

(** The loop of [cancel_observations] from one index on. *)
Fixpoint cancel_from (index : nat) (starts : list (option Z)) (outcome : ProviderOutcome) : M R T unit :=
  match starts with
  | [] => mret tt
  | start :: rest =>
      is_pending ← (fun w => (Ok (pending (report w) index), w));
      _ ← match is_pending, start with
          | true, Some start => observe_since index outcome start
          | _, _ => mret tt
          end;
      cancel_from (S index) rest outcome
  end.

Definition cancel_observations (starts : list (option Z)) (outcome : ProviderOutcome) : M R T unit :=
  cancel_from 0 starts outcome.

(** Queued providers that neither answered nor failed are reported as timed out. *)
Definition timeout_failures (networks : list NetworkBinding) (available : list Z)
    (failures : list ProviderFailure) : list ProviderFailure :=
  fold_left (fun failures binding =>
    if negb (bool_decide (node_id binding ∈ available))
       && negb (existsb (fun failure => bool_decide (failed_provider failure = provider_id binding)) failures)
    then failures ++ [mk_provider_failure (provider_id binding) Timeout] else failures) networks failures.

Definition binding_position (networks : list NetworkBinding) (id : Z) : option nat :=
  fst <$> list_find (fun binding => node_id binding = id) networks.

Definition start_of (starts : list (option Z)) (index : nat) : option Z := mjoin (starts !! index).

(** [started.set(Some(Instant::now()))] at the first poll. *)
Definition mark_started (st : recovery) (index : nat) : M R T recovery :=
  match start_of (starts st) index with
  | Some _ => mret st
  | None =>
      t ← now;
      mret (mk_recovery (remaining st) (<[index := Some t]> (starts st)) (in_flight st)
              (recovered st) (available st) (failures st))
  end.

Definition push_next (st : recovery) : recovery :=
  match remaining st with
  | [] => st
  | next :: rest =>
      mk_recovery rest (starts st) (in_flight st ++ [next]) (recovered st) (available st) (failures st)
  end.

(** A finished operation leaves the pending set and records its result. *)
Definition settle (st : recovery) (position : nat) (binding : NetworkBinding)
    (outcome : result NetworkFailure (list Z)) : recovery :=
  let in_flight := delete position (in_flight st) in
  match outcome with
  | Ok share => mk_recovery (remaining st) (starts st) in_flight
      (recovered st ++ [(node_id binding, share)]) (available st ++ [node_id binding]) (failures st)
  | Err kind => mk_recovery (remaining st) (starts st) in_flight (recovered st) (available st)
      (failures st ++ [mk_provider_failure (provider_id binding) kind])
  end.

Definition observe_completion (d : Descriptor) (st : recovery) (binding : NetworkBinding)
    (outcome : result NetworkFailure (list Z)) : M R T unit :=
  match binding_position (networks d) (node_id binding) with
  | None => mret tt
  | Some index =>
      let observed := match outcome with Ok _ => Authenticated | Err kind => Failed kind end in
      match start_of (starts st) index with
      | Some start => observe_since index observed start
      | None => update_report (fun r => observe r index observed 0)
      end
  end.

Definition deadline_reached (d : Descriptor) (st : recovery)
    : M R T (list Z * list ProviderFailure * list Z) :=
  let queued := (length (networks d) - length (remaining st))%nat in
  let failures := timeout_failures (take queued (networks d)) (available st) (failures st) in
  _ ← cancel_observations (starts st) CanceledDeadline;
  throw (EngineError.DeadlineExceeded failures).

(** The loop: [inl] continues with the next event. *)
Definition complete (envelope : AuthenticatedEnvelope) (st : recovery) (position : nat) (rng : R) (net : answer)
    : M R T (recovery + (list Z * list ProviderFailure * list Z)) :=
  let d := descriptor (body envelope) in
  match in_flight st !! position with
  | None => mret (inl st)
  | Some (index, binding) =>
      st ← mark_started st index;
      let outcome := recover_leaf envelope binding rng net in
      _ ← observe_completion d st binding outcome;
      let st := settle st position binding outcome in
      match network_satisfied (policy d) (available st) with
      | Err e =>
          _ ← cancel_observations (starts st) CanceledOperation;
          of_policy (Err (Fault e))
      | Ok true =>
          _ ← cancel_observations (starts st) CanceledQuorum;
          share ← of_policy (recover_network (policy d) (recovered st));
          mret (inr (share, failures st, available st))
      | Ok false => mret (inl (push_next st))
      end
  end.

Fixpoint recovery_loop (envelope : AuthenticatedEnvelope) (schedule : list event) (st : recovery)
    : M R T (list Z * list ProviderFailure * list Z) :=
  match in_flight st with
  | [] => throw (EngineError.InsufficientFactors (failures st))
  | _ =>
      match schedule with
      | [] | Elapsed :: _ => deadline_reached (descriptor (body envelope)) st
      | Started k :: rest =>
          match in_flight st !! (k mod length (in_flight st))%nat with
          | Some (index, _) => st ← mark_started st index; recovery_loop envelope rest st
          | None => recovery_loop envelope rest st
          end
      | Completes k rng net :: rest =>
          next ← complete envelope st (k mod length (in_flight st))%nat rng net;
          match next with
          | inl st => recovery_loop envelope rest st
          | inr outcome => mret outcome
          end
      end
  end.

Definition recover_network_observed (envelope : AuthenticatedEnvelope) (schedule : list event)
    : M R T (list Z * list ProviderFailure * list Z) :=
  let enumerated := imap (fun i b => (i, b)) (networks (descriptor (body envelope))) in
  recovery_loop envelope schedule
    (mk_recovery (drop MAX_NETWORK_OPERATIONS enumerated) (replicate MAX_PROVIDER_OBSERVATIONS None)
       (take MAX_NETWORK_OPERATIONS enumerated) [] [] []).

(** ** Unlock *)

Record TpmEvidence : Type := mk_tpm_evidence { tpm_ev_context : list Z; tpm_ev_share : list Z; tpm_ev_live : bool }.
Record PayloadEvidence : Type := mk_payload_evidence { payload_context : list Z; payload_credential : list Z }.

(** [TpmEvidence::authenticate] *)
Definition authenticate_tpm (unsealed : UnsealedSeed) (envelope : AuthenticatedEnvelope) : M R T TpmEvidence :=
  let ctx := context envelope in
  let d := descriptor (body envelope) in
  let live := match authorization unsealed with FreshSessionAuthorization => true | LocalMeasuredBoot => false end in
  if bool_decide (mode (policy d) = Attested) && negb live then throw EngineError.UnsupportedMode
  else
  let leaf_ctx := leaf_context ctx (tpm_node_id (policy d)) in
  key ← derive (unsealed_seed unsealed) leaf_ctx TPM_WRAP;
  leaf ← (fun w => (indexed (body_leaves (body envelope) !! 0%nat), w));
  share ← of_result (fun _ => EngineError.Crypto) (open_key key (leaf_value leaf) leaf_ctx);
  mret (mk_tpm_evidence ctx share live).

(** [PayloadEvidence::authenticate] *)
Definition authenticate_payload (root : list Z) (envelope : AuthenticatedEnvelope) : M R T PayloadEvidence :=
  let ctx := context envelope in
  key ← derive root ctx LUKS_SLOT;
  credential ← of_result (fun _ => EngineError.Crypto) (open_key key (payload (body envelope)) ctx);
  mret (mk_payload_evidence ctx credential).

Record UnlockOperation : Type := mk_operation {
  op_envelope : AuthenticatedEnvelope; op_deadline : Z; op_policy : PolicySession; op_release : ReleaseGate }.

(** A session call whose error becomes an engine error. *)
Definition session_call (r : result PolicyError unit * PolicySession) : M R T PolicySession :=
  match r with
  | (Ok _, session) => mret session
  | (Err e, _) => of_policy (Err (Fault e))
  end.

(** A gate call that must be accepted. *)
Definition gate_call_ok (r : bool * ReleaseGate) : M R T ReleaseGate :=
  match r with (true, gate) => mret gate | (false, _) => throw EngineError.Policy end.

Definition begin_unlock (raw signer volume : list Z) (expected_slot : Z) (deadline : Z) : M R T UnlockOperation :=
  envelope ← of_result EngineError.Envelope (authenticate raw signer);
  let d := descriptor (body envelope) in
  _ ← update_report (fun r => configure r (mode (policy d)) (networks d));
  if negb (bool_decide (volume_uuid d = volume)) || negb (slot d =? expected_slot)
  then throw EngineError.TargetMismatch
  else
  supported ← (fun w => (Ok (supports_mode (device w) (mode (policy d))), w));
  if negb supported then throw EngineError.UnsupportedMode
  else
  _ ← check_deadline deadline;
  session ← session_call (authenticate_envelope (new_session (policy d)));
  mret (mk_operation envelope deadline session
          (new_gate (context envelope) (bool_decide (mode (policy d) = Attested)))).

Fixpoint accept_all (session : PolicySession) (ids : list Z) : M R T PolicySession :=
  match ids with
  | [] => mret session
  | id :: rest => session ← session_call (accept_network session id); accept_all session rest
  end.

Definition unseal_device (envelope : AuthenticatedEnvelope) : M R T UnsealedSeed := fun w =>
  let '(r, device') := tpm_unseal (device w) envelope in
  (map_err Fault r, mk_world (entropy w) device' (ticks w) (report w)).

(** The last part of [run]: from the two opened shares to the credential. *)
Definition release_phase (operation : UnlockOperation) (share : list Z) (diagnostics : list ProviderFailure)
    (tpm : TpmEvidence) (session : PolicySession) (gate : ReleaseGate) : M R T UnlockResult :=
  let envelope := op_envelope operation in
  let deadline := op_deadline operation in
  share1 ← of_result (fun _ => EngineError.Sharing) (from_parts 1 (tpm_ev_share tpm));
  share2 ← of_result (fun _ => EngineError.Sharing) (from_parts 2 share);
  root ← of_result (fun _ => EngineError.Sharing) (reconstruct 2 [share1; share2]);
  payload ← authenticate_payload root envelope;
  session ← session_call (authenticate_root session);
  gate ← gate_call_ok (gate_payload gate (payload_context payload));
  _ ← check_deadline deadline;
  _ ← session_call (release session);
  t ← now;
  let '(accepted, _) := gate_release gate (payload_context payload) (t <? deadline) in
  if negb accepted then _ ← check_deadline deadline; throw EngineError.Policy
  else mret (mk_unlock (payload_credential payload) diagnostics).

Definition run_unlock (operation : UnlockOperation) (schedule : list event) : M R T UnlockResult :=
  let envelope := op_envelope operation in
  let deadline := op_deadline operation in
  let ctx := context envelope in
  _ ← runtime;
  _ ← enter_stage Network;
  '(share, diagnostics, available) ← recover_network_observed envelope schedule;
  session ← accept_all (op_policy operation) available;
  gate ← gate_call_ok (gate_network (op_release operation) ctx);
  _ ← check_deadline deadline;
  _ ← enter_stage TpmUnseal;
  unsealed ← unseal_device envelope;
  _ ← check_deadline deadline;
  _ ← enter_stage AuthenticatePayload;
  tpm ← authenticate_tpm unsealed envelope;
  session ← (if tpm_ev_live tpm then session_call (confirm_live_authorization session) else mret session);
  session ← session_call (confirm_tpm session);
  gate ← gate_call_ok (gate_tpm gate (tpm_ev_context tpm) (tpm_ev_live tpm));
  release_phase operation share diagnostics tpm session gate.

Definition unlock_before_observed (raw signer volume : list Z) (expected_slot deadline : Z)
    (schedule : list event) : M R T UnlockResult :=
  operation ← begin_unlock raw signer volume expected_slot deadline;
  run_unlock operation schedule.

Definition unlock_observed (raw signer volume : list Z) (expected_slot : Z) (schedule : list event)
    : M R T UnlockResult := fun w =>
  observed_operation Recover
    (unlock_before_observed raw signer volume expected_slot (clock (ticks w) + OPERATION_BUDGET) schedule) w.
End Engine.

(** * Reasoning about runs *)

Lemma M_bind_Ok {R T A B} (m : M R T A) (f : A -> M R T B) w b w' :
  (m ≫= f) w = (Ok b, w') <-> exists a w1, m w = (Ok a, w1) /\ f a w1 = (Ok b, w').
Proof.
  unfold mbind, M_bind. destruct (m w) as [[a|e] w1]; split.
  - intros H. by exists a, w1.
  - intros (a' & w1' & [= <- <-] & H). done.
  - done.
  - intros (a' & w1' & H & _). done.
Qed.

(** Split a successful run into its steps. *)
Ltac unbind H := apply M_bind_Ok in H as (? & ? & ? & H).
Ltac step_of H E := apply M_bind_Ok in H as (? & ? & E & H).
Ltac step_as H E a w := apply M_bind_Ok in H as (a & w & E & H).
