(* ===== verification/Recovery.v ===== *)
(** Network recovery: the loop over concurrent leaf operations of [leelo-engine/src/lib.rs] keeps its
    accounting invariant, never has more than four operations in flight, returns only a share that
    the policy recovers from genuinely opened leaves, and decides the policy on the providers that
    answer. *)
From stdpp Require Import base list strings.
From Stdlib Require Import ZArith Lia.
From S2P Require Import Prelude Sss Plan Policy Session Release Crypto Wire Cbor Envelope Observation Engine.

Open Scope Z_scope.

(** * Validated bindings *)

Section Bindings.
Context `{Primitives}.

Lemma check_bindings_ids table nets :
  length table = length nets -> check_bindings table nets = Ok tt -> map node_id nets = map fst table.
Proof.
  revert nets. induction table as [|[id p] table IH]; intros [|b nets]; simpl; try done.
  intros [= Hl] Hc. destruct (Z.eqb_spec id (node_id b)) as [->|]; simpl in Hc; [|done].
  destruct (_ || _); [done|]. destruct (server_public_key_from_bytes _); simpl in Hc; [|done].
  f_equal. by apply IH.
Qed.

Lemma validate_ids d : validate_descriptor d = Ok tt -> map node_id (networks d) = network_leaf_ids (policy d).
Proof.
  intros Hv. unfold validate_descriptor in Hv. destruct (_ || _); [done|].
  destruct (Nat.eqb_spec (length (leaves (plan (policy d)))) (length (networks d))) as [E|]; [|done]. simpl in Hv.
  destruct (check_bindings _ _) as [[]|] eqn:Ec; [|done]. by apply check_bindings_ids.
Qed.

Lemma network_ids_NoDup policy : policy_ok policy -> NoDup (network_leaf_ids policy).
Proof.
  intros (_ & Hwf & Hp). apply well_formed_facts in Hwf as (Hnd & _). unfold network_leaf_ids. by rewrite Hp.
Qed.

(** What recovery needs of an authenticated envelope. *)
Definition network_ready (envelope : AuthenticatedEnvelope) : Prop :=
  policy_ok (policy (descriptor (body envelope))) /\
  map node_id (networks (descriptor (body envelope))) = network_leaf_ids (policy (descriptor (body envelope))).

Lemma body_network_ready envelope :
  body_typed (body envelope) -> body_valid (body envelope) -> network_ready envelope.
Proof. intros (Hd & _) (Hv & _). split; [apply Hd|by apply validate_ids]. Qed.
End Bindings.

(** * Accounting *)

Abbreviation enumerate networks := (imap (fun i b => (i, b)) networks).

Definition initial_recovery (envelope : AuthenticatedEnvelope) : recovery :=
  let enumerated := enumerate (networks (descriptor (body envelope))) in
  mk_recovery (drop MAX_NETWORK_OPERATIONS enumerated) (replicate MAX_PROVIDER_OBSERVATIONS None)
    (take MAX_NETWORK_OPERATIONS enumerated) [] [] [].

(** A finished operation: its index and binding, and its outcome. *)
Abbreviation settlement := (nat * NetworkBinding * result NetworkFailure (list Z))%type.

Definition share_of (s : settlement) : option NetworkShare :=
  match s.2 with Ok share => Some (node_id s.1.2, share) | Err _ => None end.
Definition failure_of (s : settlement) : option ProviderFailure :=
  match s.2 with Ok _ => None | Err kind => Some (mk_provider_failure (provider_id s.1.2) kind) end.

(** The identifiers of the bindings that are up. *)
Definition up_ids (bs : list NetworkBinding) (up : NetworkBinding -> bool) (id : Z) : bool :=
  existsb (fun b => Z.eqb (node_id b) id && up b) bs.

#[local] Opaque recover_leaf recover_network network_satisfied.

Section Recovery.
Context `{Primitives} `{Cbor}.
Context {R T : Type} `{Rng R} `{TpmProvider T}.
Context (clock : nat -> Z).
Context (envelope : AuthenticatedEnvelope).

Abbreviation bindings := (networks (descriptor (body envelope))).
Abbreviation rule := (policy (descriptor (body envelope))).

(** The outcome is what the leaf operation returned for some completion of the schedule. *)
Definition settled_by (past : list (@event R)) (s : settlement) : Prop :=
  exists k rng net, Completes k rng net ∈ past /\ s.2 = recover_leaf envelope s.1.2 rng net.

(** The ledger of a state: the settled operations explain the collected shares, identifiers and
    failures, and every binding is settled, in flight or queued, exactly once. *)
Record ledger (past : list (@event R)) (st : recovery) (log : list settlement) : Prop := {
  led_settled : Forall (settled_by past) log;
  led_recovered : recovered st = omap share_of log;
  led_available : available st = map fst (recovered st);
  led_failures : failures st = omap failure_of log;
  led_partition : enumerate bindings ≡ₚ map fst log ++ in_flight st ++ remaining st;
}.

(** The invariant of the loop head. *)
Record accounted (past : list (@event R)) (st : recovery) : Prop := {
  acc_ledger : exists log, ledger past st log;
  acc_limit : (length (in_flight st) <= MAX_NETWORK_OPERATIONS)%nat;
  acc_queue : (length (in_flight st) < MAX_NETWORK_OPERATIONS)%nat -> remaining st = [];
}.

(** The states at the loop head, with the events consumed so far. *)
Inductive loop_state : list (@event R) -> recovery -> Prop :=
| loop_initial : loop_state [] (initial_recovery envelope)
| loop_started past st k index binding (w : World R T) st' w' :
    loop_state past st -> in_flight st !! (k mod length (in_flight st))%nat = Some (index, binding) ->
    mark_started clock st index w = (Ok st', w') -> loop_state (past ++ [Started k]) st'
| loop_completed past st k rng net (w : World R T) st' w' :
    loop_state past st -> in_flight st <> [] ->
    complete clock envelope st (k mod length (in_flight st))%nat rng net w = (Ok (inl st'), w') ->
    loop_state (past ++ [Completes k rng net]) st'.

Lemma settled_by_mono past past' s : past ⊆ past' -> settled_by past s -> settled_by past' s.
Proof. intros Hsub (k & rng & net & Hin & E). exists k, rng, net. split; [by apply Hsub|done]. Qed.

Lemma ledger_mono past past' st log : past ⊆ past' -> ledger past st log -> ledger past' st log.
Proof.
  intros Hsub []. constructor; try done. eapply Forall_impl; [done|]. intros s. by apply settled_by_mono.
Qed.

Lemma accounted_mono past past' st : past ⊆ past' -> accounted past st -> accounted past' st.
Proof. intros Hsub [[log Hl] ? ?]. constructor; try done. exists log. by eapply ledger_mono. Qed.

Lemma accounted_initial past : accounted past (initial_recovery envelope).
Proof.
  constructor; simpl.
  - exists []. constructor; try done. simpl. by rewrite take_drop.
  - rewrite length_take. lia.
  - rewrite length_take. intros Hl. apply length_zero_iff_nil. rewrite length_drop. lia.
Qed.

Lemma past_app (past rest : list (@event R)) : past ⊆ past ++ rest.
Proof. intros e He. apply elem_of_app. by left. Qed.

Lemma past_snoc (past : list (@event R)) e : e ∈ past ++ [e].
Proof. apply elem_of_app. right. by apply list_elem_of_singleton. Qed.

(** ** The parts of one completion *)

Definition same_ledger (st st' : recovery) : Prop :=
  remaining st' = remaining st /\ in_flight st' = in_flight st /\ recovered st' = recovered st /\
  available st' = available st /\ failures st' = failures st.

Lemma mark_started_frame (st : recovery) index (w : World R T) st' w' :
  mark_started clock st index w = (Ok st', w') -> same_ledger st st'.
Proof.
  unfold mark_started. destruct (start_of (starts st) index); [by intros [= <- <-]|].
  intros Hrun. unbind Hrun. by injection Hrun as <- _.
Qed.

Lemma accounted_frame past st st' : same_ledger st st' -> accounted past st -> accounted past st'.
Proof.
  intros (E1 & E2 & E3 & E4 & E5) [[log []] ? ?]. constructor; rewrite ?E1, ?E2; try done.
  exists log. constructor; rewrite ?E1, ?E2, ?E3, ?E4, ?E5; done.
Qed.

Lemma ledger_settle past st log position index binding k rng net :
  ledger past st log -> in_flight st !! position = Some (index, binding) -> Completes k rng net ∈ past ->
  let outcome := recover_leaf envelope binding rng net in
  ledger past (settle st position binding outcome) (log ++ [(index, binding, outcome)]).
Proof.
  intros [L1 L2 L3 L4 L5] Hpos Hev outcome.
  assert (in_flight st ≡ₚ (index, binding) :: delete position (in_flight st)) as Hdel by by apply delete_Permutation.
  assert (enumerate bindings ≡ₚ
    map fst (log ++ [(index, binding, outcome)]) ++ delete position (in_flight st) ++ remaining st) as Hperm.
  { rewrite map_app, <- app_assoc. etransitivity; [exact L5|]. apply Permutation_app_head.
    exact (Permutation_app_tail (remaining st) Hdel). }
  assert (Forall (settled_by past) (log ++ [(index, binding, outcome)])) as Hlog.
  { apply Forall_app. split; [done|]. constructor; [|done]. by exists k, rng, net. }
  unfold settle. destruct outcome as [share|kind] eqn:Eo; constructor; simpl; try done;
    rewrite ?omap_app, ?map_app, ?app_nil_r; simpl; by rewrite ?L2, ?L3, ?L4, ?L2, ?app_nil_r.
Qed.

Lemma settle_frame st position binding outcome :
  in_flight (settle st position binding outcome) = delete position (in_flight st) /\
  remaining (settle st position binding outcome) = remaining st.
Proof. by destruct outcome. Qed.

Lemma accounted_push past st log :
  ledger past st log -> (length (in_flight st) < MAX_NETWORK_OPERATIONS)%nat ->
  (S (length (in_flight st)) < MAX_NETWORK_OPERATIONS -> remaining st = [])%nat ->
  accounted past (push_next st).
Proof.
  intros [L1 L2 L3 L4 L5] Hlt Hq. unfold push_next. destruct (remaining st) as [|next rest] eqn:Er.
  - constructor; [|lia|done]. exists log. constructor; try done. by rewrite Er.
  - constructor; simpl.
    + exists log. constructor; simpl; try done. rewrite L5, <- app_assoc. done.
    + rewrite length_app. simpl. lia.
    + rewrite length_app. simpl. intros Hlt'. specialize (Hq ltac:(lia)). done.
Qed.

Lemma delete_flight_length st position entry :
  in_flight st !! position = Some entry -> S (length (delete position (in_flight st))) = length (in_flight st).
Proof.
  intros Hpos. apply delete_Permutation in Hpos. by rewrite (Permutation_length Hpos).
Qed.

(** Clock readings and report updates never fail. *)
Lemma mark_started_runs (st : recovery) index (w : World R T) :
  exists st' w', mark_started clock st index w = (Ok st', w') /\ same_ledger st st'.
Proof.
  destruct (mark_started clock st index w) as [[st'|e] w'] eqn:E.
  - exists st', w'. split; [done|]. by eapply mark_started_frame.
  - exfalso. revert E. unfold mark_started. by destruct (start_of (starts st) index).
Qed.

Lemma observe_since_runs index outcome started (w : World R T) :
  exists w', observe_since clock index outcome started w = (Ok tt, w').
Proof. by eexists. Qed.

Lemma observe_completion_runs d (st : recovery) binding outcome (w : World R T) :
  exists w', observe_completion clock d st binding outcome w = (Ok tt, w').
Proof.
  unfold observe_completion. destruct (binding_position _ _) as [index|]; [|by eexists].
  destruct (start_of (starts st) index); by eexists.
Qed.

Lemma cancel_from_runs starts : forall index outcome (w : World R T),
  exists w', cancel_from clock index starts outcome w = (Ok tt, w').
Proof.
  induction starts as [|start starts IH]; intros index outcome w; [by eexists|].
  simpl. unfold mbind, M_bind. destruct (pending (report w) index), start; apply IH.
Qed.

(** One completion, branch by branch. *)
Definition completion (st2 : recovery) (w : World R T)
    : result (fault EngineError.Error) (recovery + (list Z * list ProviderFailure * list Z)) * World R T :=
  match network_satisfied rule (available st2) with
  | Err e => (Err (policy_error (Fault e)), w)
  | Ok true =>
      match recover_network rule (recovered st2) with
      | Ok share => (Ok (inr (share, failures st2, available st2)), w)
      | Err e => (Err (policy_error e), w)
      end
  | Ok false => (Ok (inl (push_next st2)), w)
  end.

Lemma completion_inl st2 (w : World R T) st' w' : completion st2 w = (Ok (inl st'), w') -> st' = push_next st2.
Proof.
  unfold completion. destruct (network_satisfied rule (available st2)) as [[]|]; [|by intros [= <- _]|done].
  by destruct (recover_network rule (recovered st2)).
Qed.

Lemma complete_runs st position index binding rng net (w : World R T) :
  in_flight st !! position = Some (index, binding) ->
  exists st1 w1, same_ledger st st1 /\
    complete clock envelope st position rng net w =
    completion (settle st1 position binding (recover_leaf envelope binding rng net)) w1.
Proof.
  intros Hpos. unfold complete. rewrite Hpos. unfold mbind, M_bind.
  destruct (mark_started_runs st index w) as (st1 & w1 & -> & Hsame).
  destruct (observe_completion_runs (descriptor (body envelope)) st1 binding
    (recover_leaf envelope binding rng net) w1) as [w2 ->].
  exists st1. generalize (settle st1 position binding (recover_leaf envelope binding rng net)). intros st2.
  unfold completion. destruct (network_satisfied rule (available st2)) as [[]|e].
  - destruct (cancel_from_runs (starts st2) 0 CanceledQuorum w2) as [w3 Hc]. exists w3. split; [done|].
    unfold cancel_observations. rewrite Hc. unfold of_policy.
    by destruct (recover_network rule (recovered st2)).
  - by exists w2.
  - destruct (cancel_from_runs (starts st2) 0 CanceledOperation w2) as [w3 Hc]. exists w3. split; [done|].
    unfold cancel_observations. by rewrite Hc.
Qed.

(** A completion settles one operation and, unless it decides, refills the pending set. *)
Lemma accounted_settle past st st1 position index binding k rng net :
  accounted past st -> same_ledger st st1 -> in_flight st !! position = Some (index, binding) ->
  Completes k rng net ∈ past ->
  let st2 := settle st1 position binding (recover_leaf envelope binding rng net) in
  (exists log, ledger past st2 log) /\ accounted past (push_next st2).
Proof.
  intros Hacc Hsame Hpos Hev st2. apply (accounted_frame _ _ _ Hsame) in Hacc as [[log Hled] Hlim Hq].
  destruct Hsame as (_ & Ef & _). rewrite <- Ef in Hpos.
  pose proof (ledger_settle _ _ _ _ _ _ _ _ _ Hled Hpos Hev) as Hled2.
  destruct (settle_frame st1 position binding (recover_leaf envelope binding rng net)) as [F1 F2].
  split; [by eexists|]. pose proof (delete_flight_length _ _ _ Hpos) as Hlen.
  apply (accounted_push _ _ _ Hled2); unfold st2; rewrite F1, ?F2; [lia|]. intros ?. apply Hq. lia.
Qed.

Lemma loop_state_accounted past st : loop_state past st -> accounted past st.
Proof.
  induction 1 as [|past st k index binding w st' w' _ IH Hpos Hrun|past st k rng net w st' w' _ IH Hne Hrun].
  - apply accounted_initial.
  - apply mark_started_frame in Hrun. apply (accounted_frame _ _ _ Hrun).
    eapply accounted_mono; [apply past_app|exact IH].
  - destruct (lookup_lt_is_Some_2 (in_flight st) (k mod length (in_flight st))) as [[index binding] Hpos].
    { apply Nat.mod_upper_bound. by destruct (in_flight st). }
    destruct (complete_runs st _ index binding rng net w Hpos) as (st1 & w1 & Hsame & Hc).
    rewrite Hc in Hrun. apply (accounted_mono past (past ++ [Completes k rng net])) in IH; [|apply past_app].
    destruct (accounted_settle _ _ _ _ _ _ k rng net IH Hsame Hpos) as [_ Hacc]; [apply past_snoc|].
    apply completion_inl in Hrun. by rewrite Hrun.
Qed.

(** ** The loop *)

(** What a successful run hands to the unlock operation. *)
Definition quorum (past : list (@event R)) (share : list Z) (fails : list ProviderFailure) (ids : list Z) : Prop :=
  exists st log, ledger past st log /\ network_satisfied rule (available st) = Ok true /\
    recover_network rule (recovered st) = Ok share /\ fails = failures st /\ ids = available st.

Lemma loop_sound rest : forall past st (w : World R T) share fails ids w',
  accounted past st ->
  recovery_loop clock envelope rest st w = (Ok (share, fails, ids), w') ->
  quorum (past ++ rest) share fails ids.
Proof.
  induction rest as [|ev rest IH]; intros past st w share fails ids w' Hacc; simpl;
    destruct (in_flight st) as [|e0 fl] eqn:Efl; try done.
  { unfold deadline_reached. intros Hrun. unbind Hrun. done. }
  assert (length (in_flight st) <> 0%nat) as Hne by (by rewrite Efl).
  replace (past ++ ev :: rest) with ((past ++ [ev]) ++ rest) by by rewrite <- app_assoc.
  apply (accounted_mono past (past ++ [ev])) in Hacc; [|apply past_app].
  rewrite <- Efl. clear e0 fl Efl. destruct ev as [k|k rng net|].
  - destruct (in_flight st !! _) as [[index binding]|]; [|by apply IH].
    intros Hrun. unbind Hrun. eapply IH; [|exact Hrun]. eapply accounted_frame; [|exact Hacc].
    by eapply mark_started_frame.
  - destruct (lookup_lt_is_Some_2 (in_flight st) (k mod length (in_flight st))) as [[index binding] Hpos].
    { by apply Nat.mod_upper_bound. }
    destruct (complete_runs st _ index binding rng net w Hpos) as (st1 & w1 & Hsame & Hc).
    unfold mbind, M_bind. rewrite Hc.
    destruct (accounted_settle _ _ _ _ _ _ k rng net Hacc Hsame Hpos) as [[log Hled] Hnext]; [apply past_snoc|].
    revert Hled Hnext. generalize (settle st1 (k mod length (in_flight st)) binding (recover_leaf envelope binding rng net)).
    intros st2 Hled Hnext. unfold completion.
    destruct (network_satisfied rule (available st2)) as [[]|e] eqn:Esat; [|by apply IH|done].
    destruct (recover_network rule (recovered st2)) as [sh|e] eqn:Erec; [|done].
    intros [= <- <- <- <-]. exists st2, log. split_and!; try done.
    eapply ledger_mono; [apply past_app|exact Hled].
  - unfold deadline_reached. intros Hrun. unbind Hrun. done.
Qed.

Lemma recover_network_sound schedule (w : World R T) share fails ids w' :
  recover_network_observed clock envelope schedule w = (Ok (share, fails, ids), w') ->
  quorum schedule share fails ids.
Proof. apply (loop_sound schedule [] (initial_recovery envelope)), accounted_initial. Qed.

Lemma enumerate_snd (l : list NetworkBinding) : map snd (enumerate l) = l.
Proof. apply list_eq. intros i. rewrite list_lookup_fmap, list_lookup_imap. by destruct (l !! i). Qed.

(** The identifiers collected so far are distinct leaves of the policy. *)
Lemma ledger_ids past st log :
  network_ready envelope -> ledger past st log ->
  NoDup (available st) /\ (forall id, id ∈ available st -> id ∈ network_leaf_ids rule) /\
  map fst (recovered st) = available st.
Proof.
  intros [Hpol Hids] [L1 L2 L3 L4 L5].
  assert (sublist (available st) (map (fun s => node_id s.1.2) log)) as Hsub.
  { rewrite L3, L2. clear. induction log as [|[[i b] [v|e]] log IH]; simpl; [done| |].
    - by apply sublist_skip.
    - by apply sublist_cons. }
  assert (map (fun s => node_id s.1.2) log ⊆+ network_leaf_ids rule) as Hsm.
  { rewrite <- Hids, <- (enumerate_snd bindings), map_map.
    rewrite (Permutation_map (fun e => node_id (snd e)) L5), map_app, map_map. by apply submseteq_inserts_r. }
  pose proof (submseteq_trans _ _ _ (sublist_submseteq _ _ Hsub) Hsm) as Hall.
  split_and!; [|intros id Hid; by eapply elem_of_submseteq|done].
  destruct (submseteq_Permutation _ _ Hall) as [rest Hp]. pose proof (network_ids_NoDup _ Hpol) as Hnd.
  rewrite Hp in Hnd. apply NoDup_app in Hnd as [Hnd _]. exact Hnd.
Qed.

(** ** Liveness *)

(** The leaf operations of the providers that are up open the leaf's share; the others fail. *)
Definition answering (shares : list NetworkShare) (up : NetworkBinding -> bool) (schedule : list (@event R)) : Prop :=
  forall k rng net b, Completes k rng net ∈ schedule -> b ∈ bindings ->
    match recover_leaf envelope b rng net with
    | Ok share => up b = true /\ (node_id b, share) ∈ shares
    | Err _ => up b = false
    end.

Definition completions (schedule : list (@event R)) : nat :=
  length (List.filter (fun e => match e with Completes _ _ _ => true | _ => false end) schedule).

Lemma ledger_answering shares up past st log :
  answering shares up past -> ledger past st log ->
  recovered st ⊆ shares /\ (forall id, id ∈ available st -> up_ids bindings up id = true) /\
  (forall s, s ∈ log -> up s.1.2 = true -> node_id s.1.2 ∈ available st).
Proof.
  intros Hans [L1 L2 L3 L4 L5]. rewrite L3, L2.
  assert (forall s, s ∈ log -> s.1.2 ∈ bindings /\
    match s.2 with Ok share => up s.1.2 = true /\ (node_id s.1.2, share) ∈ shares | Err _ => up s.1.2 = false end) as Hlog.
  { intros [[i b] r] Hs. assert (b ∈ bindings) as Hb.
    { assert ((i, b) ∈ enumerate bindings) as He.
      { rewrite L5. apply elem_of_app. left. by apply (list_elem_of_fmap_2 fst log (i, b, r)). }
      apply elem_of_lookup_imap in He as (j & b' & [= -> ->] & Hj). by eapply list_elem_of_lookup_2. }
    split; [done|]. rewrite Forall_forall in L1. destruct (L1 _ Hs) as (k & rng & net & Hin & ->).
    exact (Hans k rng net b Hin Hb). }
  assert (forall id v, (id, v) ∈ omap share_of log <-> exists s, s ∈ log /\ s.2 = Ok v /\ node_id s.1.2 = id) as Hom.
  { intros id v. rewrite list_elem_of_omap. unfold share_of. split; intros (s & Hs & E); exists s; split; try done.
    - destruct (s.2); [|done]. by injection E as -> ->.
    - destruct E as [-> <-]. done. }
  split_and!.
  - intros [id v] (s & Hs & Ev & <-)%Hom. destruct (Hlog s Hs) as [_ Hm]. rewrite Ev in Hm. apply Hm.
  - intros id ([id' v] & -> & (s & Hs & Ev & <-)%Hom)%list_elem_of_fmap. destruct (Hlog s Hs) as [Hb Hm].
    rewrite Ev in Hm. apply existsb_exists. exists (s.1.2). split; [by apply list_elem_of_In|].
    simpl. by rewrite Z.eqb_refl, (proj1 Hm).
  - intros s Hs Hup. destruct (Hlog s Hs) as [_ Hm]. destruct (s.2) as [v|e] eqn:Ev; [|congruence].
    apply list_elem_of_fmap. exists (node_id s.1.2, v). split; [done|]. apply Hom. by exists s.
Qed.

(** With nothing in flight the collected identifiers are exactly those that are up. *)
Lemma ledger_exhausted shares up past st log :
  answering shares up past -> ledger past st log -> in_flight st = [] -> remaining st = [] ->
  forall id, up_ids bindings up id = bool_decide (id ∈ available st).
Proof.
  intros Hans Hled Ef Er id. destruct (ledger_answering _ _ _ _ _ Hans Hled) as (_ & H1' & H2').
  destruct (up_ids bindings up id) eqn:E; symmetry.
  - apply bool_decide_eq_true. apply existsb_exists in E as (b & Hb & [Eid Hup]%andb_true_iff). apply Z.eqb_eq in Eid. subst id.
    apply list_elem_of_In in Hb. destruct Hled as [_ _ _ _ Hperm]. rewrite Ef, Er, app_nil_r in Hperm.
    rewrite <- (enumerate_snd bindings) in Hb. apply list_elem_of_fmap in Hb as (e & -> & He).
    rewrite Hperm in He. apply list_elem_of_fmap in He as (s & -> & Hs). by apply (H2' s).
  - apply bool_decide_eq_false. intros Hin%H1'. congruence.
Qed.

(** ** Unfolding the loop *)

Lemma loop_unfold_started k rest st (w : World R T) index binding :
  in_flight st !! (k mod length (in_flight st))%nat = Some (index, binding) ->
  recovery_loop clock envelope (Started k :: rest) st w =
  match mark_started clock st index w with
  | (Ok st', w') => recovery_loop clock envelope rest st' w'
  | (Err e, w') => (Err e, w')
  end.
Proof. intros Hpos. simpl. rewrite Hpos. by destruct (in_flight st). Qed.

Lemma loop_unfold_completes k rng net rest st (w : World R T) :
  in_flight st <> [] ->
  recovery_loop clock envelope (Completes k rng net :: rest) st w =
  match complete clock envelope st (k mod length (in_flight st))%nat rng net w with
  | (Ok (inl st'), w') => recovery_loop clock envelope rest st' w'
  | (Ok (inr outcome), w') => (Ok outcome, w')
  | (Err e, w') => (Err e, w')
  end.
Proof.
  intros Hne. cbn [recovery_loop]. destruct (in_flight st) as [|e fl]; [done|]. unfold mbind, M_bind.
  destruct (complete _ _ _ _ _ _ _) as [[[st'|o]|e'] w']; done.
Qed.

(** Settling one operation and refilling leaves one unit of work less. *)
Lemma settled_work st st1 position binding outcome entry :
  same_ledger st st1 -> in_flight st !! position = Some entry ->
  let st2 := push_next (settle st1 position binding outcome) in
  (S (length (in_flight st2) + length (remaining st2)) = length (in_flight st) + length (remaining st))%nat.
Proof.
  intros (E1 & E2 & _) Hpos st2. apply delete_flight_length in Hpos.
  destruct (settle_frame st1 position binding outcome) as [F1 F2]. rewrite E1 in F2. rewrite E2 in F1.
  unfold st2, push_next. destruct (remaining (settle _ _ _ _)) eqn:Er; simpl.
  - rewrite F1, Er, <- F2. simpl. lia.
  - rewrite F1, length_app, <- F2. simpl. lia.
Qed.

Section Decides.
Context `{!RngSound R}.
Context (secret : list Z) (rng0 rng1 : R) (shares : list NetworkShare) (up : NetworkBinding -> bool).
Context (Hready : network_ready envelope) (Hsecret : byte_array SECRET_LEN secret).
Context (Hsplit : split_network rule secret rng0 = (Ok shares, rng1)).

(** The collected shares decide as the policy tree does, and recover the shared secret. *)
Lemma ledger_decides past st log :
  answering shares up past -> ledger past st log ->
  let sat := satisfied (fun id => bool_decide (id ∈ available st)) (network rule) in
  network_satisfied rule (available st) = Ok sat /\
  (sat = true -> recover_network rule (recovered st) = Ok secret /\ satisfied (up_ids bindings up) (network rule) = true).
Proof.
  intros Hans Hled sat. destruct (ledger_answering _ _ _ _ _ Hans Hled) as (Hsub & Hup & _).
  destruct (ledger_ids _ _ _ Hready Hled) as (Hnd & Hin & Eids). destruct Hready as [Hpol _].
  split; [by apply network_satisfied_iff|]. intros Hsat. split.
  - rewrite (split_network_recovers rule secret rng0 shares rng1); try done.
    + rewrite Eids. unfold sat in Hsat. by rewrite Hsat.
    + eapply NoDup_fmap_1. rewrite <- Eids in Hnd. exact Hnd.
  - revert Hsat. apply satisfied_mono. intros id Hid%bool_decide_eq_true. by apply Hup.
Qed.

(** With nothing in flight the loop has asked every provider and reports the missing factors. *)
Lemma loop_exhausted rest past st (w : World R T) :
  answering shares up (past ++ rest) -> accounted past st -> in_flight st = [] ->
  satisfied (fun id => bool_decide (id ∈ available st)) (network rule) = false ->
  satisfied (up_ids bindings up) (network rule) = false /\
  recovery_loop clock envelope rest st w = (Err (Fault (EngineError.InsufficientFactors (failures st))), w).
Proof.
  intros Hans [[log Hled] _ Hq] Efl Hunsat.
  assert (remaining st = []) as Er by (apply Hq; rewrite Efl; unfold MAX_NETWORK_OPERATIONS; simpl; lia).
  apply (ledger_mono past (past ++ rest) _ _ (past_app _ _)) in Hled.
  rewrite (satisfied_ext _ _ _ (ledger_exhausted _ _ _ _ _ Hans Hled Efl Er)). split; [done|].
  destruct rest; simpl; by rewrite Efl.
Qed.

Lemma loop_decides rest : forall past st (w : World R T),
  answering shares up (past ++ rest) -> accounted past st -> Elapsed ∉ rest ->
  (length (in_flight st) + length (remaining st) <= completions rest)%nat ->
  satisfied (fun id => bool_decide (id ∈ available st)) (network rule) = false ->
  if satisfied (up_ids bindings up) (network rule)
  then exists fails ids w', recovery_loop clock envelope rest st w = (Ok (secret, fails, ids), w')
  else exists fails w', recovery_loop clock envelope rest st w = (Err (Fault (EngineError.InsufficientFactors fails)), w').
Proof.
  induction rest as [|ev rest IH]; intros past st w Hans Hacc Hel Hcount Hunsat.
  all: destruct (decide (in_flight st = [])) as [Efl|Efl];
    [destruct (loop_exhausted _ _ _ w Hans Hacc Efl Hunsat) as [-> ->]; by do 2 eexists|].
  { unfold completions in Hcount. simpl in Hcount. destruct (in_flight st); [done|simpl in Hcount; lia]. }
  assert (length (in_flight st) <> 0%nat) as Hne by (by destruct (in_flight st)).
  replace (past ++ ev :: rest) with ((past ++ [ev]) ++ rest) in Hans by by rewrite <- app_assoc.
  apply (accounted_mono past (past ++ [ev])) in Hacc; [|apply past_app].
  apply not_elem_of_cons in Hel as [Hev Hel]. destruct ev as [k|k rng net|]; [| |done].
  all: destruct (lookup_lt_is_Some_2 (in_flight st) (k mod length (in_flight st))) as [[index binding] Hpos];
    [by apply Nat.mod_upper_bound|].
  - rewrite loop_unfold_started with (index := index) (binding := binding) by done.
    destruct (mark_started_runs st index w) as (st1 & w1 & -> & Hsame).
    pose proof (accounted_frame _ _ _ Hsame Hacc) as Hacc1. destruct Hsame as (E1 & E2 & _ & E4 & _).
    apply (IH (past ++ [Started k])); rewrite ?E1, ?E2, ?E4; done.
  - destruct (complete_runs st _ index binding rng net w Hpos) as (st1 & w1 & Hsame & Hc).
    rewrite loop_unfold_completes, Hc by done.
    destruct (accounted_settle _ _ _ _ _ _ k rng net Hacc Hsame Hpos) as [[log Hled] Hnext]; [apply past_snoc|].
    pose proof (settled_work st st1 (k mod length (in_flight st)) binding
      (recover_leaf envelope binding rng net) _ Hsame Hpos) as Hwork.
    revert Hled Hnext Hwork. generalize (settle st1 (k mod length (in_flight st)) binding (recover_leaf envelope binding rng net)).
    intros st2 Hled Hnext Hwork. pose proof (ledger_mono _ _ _ _ (past_app _ rest) Hled) as Hled'.
    destruct (ledger_decides _ _ _ Hans Hled') as [Hsat Hdec]. unfold completion. rewrite Hsat.
    destruct (satisfied (fun id => bool_decide (id ∈ available st2)) (network rule)) eqn:Es.
    + destruct (Hdec eq_refl) as [-> ->]. by do 3 eexists.
    + apply (IH (past ++ [Completes k rng net])); try done.
      * unfold completions in *. simpl in Hcount. lia.
      * unfold push_next. by destruct (remaining st2).
Qed.

Lemma recover_network_decides schedule (w : World R T) :
  answering shares up schedule -> Elapsed ∉ schedule -> (length bindings <= completions schedule)%nat ->
  if satisfied (up_ids bindings up) (network rule)
  then exists fails ids w', recover_network_observed clock envelope schedule w = (Ok (secret, fails, ids), w')
  else exists fails w', recover_network_observed clock envelope schedule w =
    (Err (Fault (EngineError.InsufficientFactors fails)), w').
Proof.
  intros Hans Hel Hcount. apply (loop_decides schedule [] (initial_recovery envelope) w); try done.
  - apply accounted_initial.
  - simpl. rewrite length_take, length_drop, length_imap. lia.
  - apply satisfied_none.
Qed.
End Decides.

(** An opened share: the operation on the binding of that identifier returned it. *)
Definition opened (schedule : list (@event R)) (share : NetworkShare) : Prop :=
  exists b k rng net, b ∈ bindings /\ node_id b = share.1 /\ Completes k rng net ∈ schedule /\
    recover_leaf envelope b rng net = Ok share.2.

Lemma ledger_opened past st log : ledger past st log -> Forall (opened past) (recovered st).
Proof.
  intros [L1 L2 L3 L4 L5]. apply Forall_forall. intros [id v]. rewrite L2, list_elem_of_omap.
  intros (s & Hs & E). unfold share_of in E. destruct (s.2) as [v'|] eqn:Ev; [|done]. injection E as <- ->.
  rewrite Forall_forall in L1. destruct (L1 s Hs) as (k & rng & net & Hin & Er).
  exists (s.1.2), k, rng, net. split_and!; try done; [|by rewrite <- Er, Ev].
  assert (s.1 ∈ enumerate bindings) as He.
  { rewrite L5. apply elem_of_app. left. by apply list_elem_of_fmap_2. }
  apply elem_of_lookup_imap in He as (j & b & E & Hj). rewrite E. by eapply list_elem_of_lookup_2.
Qed.

Lemma quorum_shares schedule share fails ids :
  network_ready envelope -> quorum schedule share fails ids ->
  NoDup ids /\ (forall id, id ∈ ids -> id ∈ network_leaf_ids rule) /\
  satisfied (fun id => bool_decide (id ∈ ids)) (network rule) = true /\
  exists shares, map fst shares = ids /\ Forall (opened schedule) shares /\ recover_network rule shares = Ok share.
Proof.
  intros Hready (st & log & Hled & Hsat & Hrec & -> & ->).
  destruct (ledger_ids _ _ _ Hready Hled) as (Hnd & Hin & Eids).
  apply network_satisfied_iff in Hsat as (_ & _ & Hsat); [|apply Hready]. split_and!; try done.
  exists (recovered st). split_and!; try done. by eapply ledger_opened.
Qed.
End Recovery.

(** * Properties *)

Section Claims.
Context `{Primitives} `{Cbor}.
Context {R T : Type} `{RngSound R} `{TpmProvider T}.
Context (clock : nat -> Z).

(** C10: accounting of the concurrent recovery loop. In every state at the loop head, after any
    interleaving of first polls and completions, at most four operations are in flight, a free
    place means that nothing is queued, every binding of the descriptor is settled, in flight or
    queued exactly once, and the collected shares, identifiers and failures are exactly the
    outcomes of the settled operations. *)
Theorem recovery_accounting envelope past st :
  loop_state (T := T) clock envelope past st -> accounted (R := R) envelope past st.
Proof. apply loop_state_accounted. Qed.

(** Soundness of network recovery. A returned share is what the policy recovers from shares
    that completed operations opened from the envelope, under distinct leaf identifiers that
    satisfy the policy tree. *)
Theorem recovery_sound envelope schedule (w : World R T) share fails ids w' :
  network_ready envelope ->
  recover_network_observed clock envelope schedule w = (Ok (share, fails, ids), w') ->
  NoDup ids /\ (forall id, id ∈ ids -> id ∈ network_leaf_ids (policy (descriptor (body envelope)))) /\
  satisfied (fun id => bool_decide (id ∈ ids)) (network (policy (descriptor (body envelope)))) = true /\
  exists shares, map fst shares = ids /\ Forall (opened envelope schedule) shares /\
    recover_network (policy (descriptor (body envelope))) shares = Ok share.
Proof. intros Hready Hrun. eapply quorum_shares; [done|]. by eapply recover_network_sound. Qed.

(** C9: network recovery decides the policy. When no deadline event occurs and every provider
    completes, in any order, recovery returns the shared secret if the providers that open their
    leaf satisfy the policy tree and reports insufficient factors otherwise: failing providers
    never block it. *)
Theorem recovery_decides envelope schedule (w : World R T) secret (rng0 rng1 : R) shares up :
  network_ready envelope -> byte_array SECRET_LEN secret ->
  split_network (policy (descriptor (body envelope))) secret rng0 = (Ok shares, rng1) ->
  answering envelope shares up schedule -> Elapsed ∉ schedule ->
  (length (networks (descriptor (body envelope))) <= completions schedule)%nat ->
  if satisfied (up_ids (networks (descriptor (body envelope))) up) (network (policy (descriptor (body envelope))))
  then exists fails ids w', recover_network_observed clock envelope schedule w = (Ok (secret, fails, ids), w')
  else exists fails w', recover_network_observed clock envelope schedule w =
    (Err (Fault (EngineError.InsufficientFactors fails)), w').
Proof. intros ? ? ? ? ? ?. by eapply recover_network_decides. Qed.
End Claims.
