(* ===== verification/Unlock.v ===== *)
(** The unlock operation of [leelo-engine/src/recovery.rs]: what a released credential means, and
    that an enrolled volume unlocks when its TPM and enough of its providers answer. *)
From stdpp Require Import base list strings.
From Stdlib Require Import ZArith Lia.
From S2P Require Import Prelude Sss Plan Policy Session Release Crypto Wire Cbor Envelope Observation Engine Recovery.

Open Scope Z_scope.

(** * Inverting and running single steps *)

Section Steps.
Context {R T : Type}.
Context (clock : nat -> Z).

Lemma M_bind_run {A B} (m : M R T A) (f : A -> M R T B) w a w1 :
  m w = (Ok a, w1) -> (m ≫= f) w = f a w1.
Proof. intros E. unfold mbind, M_bind. by rewrite E. Qed.

Lemma of_result_Ok {E A} (f : E -> EngineError.Error) (r : result E A) a (w w' : World R T) :
  of_result f r w = (Ok a, w') -> r = Ok a /\ w' = w.
Proof. unfold of_result. destruct r; [by intros [= -> ->]|done]. Qed.

Lemma check_deadline_Ok deadline (w w' : World R T) u :
  check_deadline clock deadline w = (Ok u, w') ->
  clock (ticks w) < deadline /\ w' = mk_world (entropy w) (device w) (S (ticks w)) (report w).
Proof.
  unfold check_deadline, mbind, M_bind, now. destruct (Z.leb_spec deadline (clock (ticks w))); [done|].
  by intros [= _ <-].
Qed.

Lemma session_call_Ok r session (w w' : World R T) :
  session_call r w = (Ok session, w') -> r = (Ok tt, session) /\ w' = w.
Proof. destruct r as [[[]|e] s]; simpl; [by intros [= -> ->]|done]. Qed.

Lemma gate_call_Ok r gate (w w' : World R T) :
  gate_call_ok r w = (Ok gate, w') -> r = (true, gate) /\ w' = w.
Proof. destruct r as [[] g]; simpl; [by intros [= -> ->]|done]. Qed.

(** Steps that leave the TPM alone. *)
Definition keeps_device {A} (m : M R T A) : Prop := forall w, device (m w).2 = device w.

Lemma keeps_ret {A} (a : A) : keeps_device (mret a).
Proof. done. Qed.

Lemma keeps_bind {A B} (m : M R T A) (f : A -> M R T B) :
  keeps_device m -> (forall a, keeps_device (f a)) -> keeps_device (m ≫= f).
Proof.
  intros Hm Hf w. unfold mbind, M_bind. specialize (Hm w). destruct (m w) as [[a|e] w1]; simpl in *; [|done].
  by rewrite Hf.
Qed.

Lemma keeps_run {A} (m : M R T A) w r w' : keeps_device m -> m w = (r, w') -> device w' = device w.
Proof. intros Hm E. specialize (Hm w). by rewrite E in Hm. Qed.
End Steps.

#[export] Hint Resolve keeps_ret : leelo.
#[export] Hint Extern 1 (keeps_device _) => done : leelo.

Section Frames.
Context `{Primitives} `{Cbor}.
Context {R T : Type} `{Rng R} `{TpmProvider T}.
Context (clock : nat -> Z) (runtime_ok : bool).

Lemma keeps_enter_stage stage : keeps_device (R := R) (T := T) (enter_stage clock stage).
Proof. done. Qed.

Lemma keeps_mark_started st index : keeps_device (R := R) (T := T) (mark_started clock st index).
Proof. unfold mark_started. by destruct (start_of _ _). Qed.

Lemma keeps_cancel starts : forall index outcome,
  keeps_device (R := R) (T := T) (cancel_from clock index starts outcome).
Proof.
  induction starts as [|start starts IH]; intros index outcome; [done|]. simpl.
  apply keeps_bind; [done|]. intros p. apply keeps_bind; [by destruct p, start|]. intros _. apply IH.
Qed.

Lemma keeps_complete envelope st position rng net :
  keeps_device (R := R) (T := T) (complete clock envelope st position rng net).
Proof.
  unfold complete. destruct (_ !! _) as [[index binding]|]; [|done].
  apply keeps_bind; [apply keeps_mark_started|]. intros st1.
  apply keeps_bind.
  { unfold observe_completion. destruct (binding_position _ _); [|done]. by destruct (start_of _ _). }
  intros _. generalize (settle st1 position binding (recover_leaf envelope binding rng net)). intros st2.
  destruct (network_satisfied _ _) as [[]|e]; [|done|apply keeps_bind; [apply keeps_cancel|done]].
  apply keeps_bind; [apply keeps_cancel|]. intros _. by apply keeps_bind.
Qed.

Lemma keeps_loop envelope schedule : forall st,
  keeps_device (R := R) (T := T) (recovery_loop clock envelope schedule st).
Proof.
  induction schedule as [|ev schedule IH]; intros st; simpl; destruct (in_flight st) as [|e fl]; try done.
  { apply keeps_bind; [apply keeps_cancel|done]. }
  destruct ev as [k|k rng net|].
  - destruct (_ !! _) as [[index binding]|]; [|done]. apply keeps_bind; [apply keeps_mark_started|done].
  - apply keeps_bind; [apply keeps_complete|]. by intros [st'|o].
  - apply keeps_bind; [apply keeps_cancel|done].
Qed.

Lemma accept_all_frame ids : forall session (w : World R T) r w', accept_all session ids w = (r, w') -> w' = w.
Proof.
  induction ids as [|id ids IH]; intros session w r w'; simpl; [by intros [= _ ->]|].
  unfold mbind, M_bind, session_call. destruct (accept_network session id) as [[[]|e] s]; simpl; [apply IH|].
  by intros [= _ ->].
Qed.
End Frames.

(** * Soundness *)

Section Sound.
Context `{Primitives} `{Cbor}.
Context {R T : Type} `{Rng R} `{TpmProvider T}.
Context (clock : nat -> Z) (runtime_ok : bool).

(** The TPM share of an envelope, opened under the seed the TPM released. *)
Definition tpm_share (envelope : AuthenticatedEnvelope) (unsealed : UnsealedSeed) (share : list Z) : Prop :=
  let leaf_ctx := leaf_context (context envelope) (tpm_node_id (policy (descriptor (body envelope)))) in
  exists key leaf, derive_secret_key (unsealed_seed unsealed) leaf_ctx TPM_WRAP = Ok key /\
    body_leaves (body envelope) !! 0%nat = Some leaf /\ open_key key (leaf_value leaf) leaf_ctx = Ok share.

(** The credential of an envelope, opened under the root. *)
Definition payload_opens (envelope : AuthenticatedEnvelope) (root credential : list Z) : Prop :=
  exists key, derive_secret_key root (context envelope) LUKS_SLOT = Ok key /\
    open_key key (payload (body envelope)) (context envelope) = Ok credential.

Lemma authenticate_tpm_Ok unsealed envelope ev (w w' : World R T) :
  authenticate_tpm unsealed envelope w = (Ok ev, w') ->
  w' = w /\ tpm_ev_context ev = context envelope /\
  tpm_ev_live ev = bool_decide (authorization unsealed = FreshSessionAuthorization) /\
  (mode (policy (descriptor (body envelope))) = Attested -> authorization unsealed = FreshSessionAuthorization) /\
  tpm_share envelope unsealed (tpm_ev_share ev).
Proof.
  unfold authenticate_tpm. intros Hrun.
  replace (match authorization unsealed with LocalMeasuredBoot => false | FreshSessionAuthorization => true end)
    with (bool_decide (authorization unsealed = FreshSessionAuthorization)) in Hrun by by destruct (authorization unsealed).
  destruct (_ && negb _) eqn:Elive; [done|].
  step_of Hrun Hs1. unfold derive in Hs1. apply of_result_Ok in Hs1 as [Hkey ->]. step_of Hrun Hs1.
  destruct (body_leaves (body envelope) !! 0%nat) as [leaf|] eqn:Eleaf; [|done]. injection Hs1 as <- <-.
  step_of Hrun Hs1. apply of_result_Ok in Hs1 as [Hopen ->]. injection Hrun as <- <-. simpl.
  split_and!; try done.
  - intros Hm. rewrite (bool_decide_true (_ = Attested)) in Elive by done. by apply negb_false_iff, bool_decide_eq_true in Elive.
  - by exists x, leaf.
Qed.

Lemma authenticate_payload_Ok root envelope ev (w w' : World R T) :
  authenticate_payload root envelope w = (Ok ev, w') ->
  w' = w /\ payload_context ev = context envelope /\ payload_opens envelope root (payload_credential ev).
Proof.
  unfold authenticate_payload. intros Hrun. step_of Hrun Hs1. unfold derive in Hs1. apply of_result_Ok in Hs1 as [Hkey ->].
  step_of Hrun Hs1. apply of_result_Ok in Hs1 as [Hopen ->]. injection Hrun as <- <-. split_and!; try done. by exists x.
Qed.

Lemma begin_Ok raw signer volume expected deadline op (w w' : World R T) :
  begin_unlock clock raw signer volume expected deadline w = (Ok op, w') ->
  authenticate raw signer = Ok (op_envelope op) /\
  volume_uuid (descriptor (body (op_envelope op))) = volume /\
  slot (descriptor (body (op_envelope op))) = expected /\ op_deadline op = deadline /\
  op_policy op = (authenticate_envelope (new_session (policy (descriptor (body (op_envelope op)))))).2 /\
  op_release op = new_gate (context (op_envelope op))
    (bool_decide (mode (policy (descriptor (body (op_envelope op)))) = Attested)) /\
  device w' = device w.
Proof.
  unfold begin_unlock. intros Hrun. step_of Hrun Hs1. apply of_result_Ok in Hs1 as [Hauth ->]. step_of Hrun Hs1.
  injection Hs1 as _ <-. case_bool_decide as Hvol; cbn [negb orb] in Hrun; [|done].
  destruct (Z.eqb_spec (slot (descriptor (body x))) expected) as [Hslot|]; cbn [negb orb] in Hrun; [|done].
  step_of Hrun Hs1. injection Hs1 as <- <-. destruct (supports_mode _ _); cbn [negb orb] in Hrun; [|done].
  step_of Hrun Hs1. apply check_deadline_Ok in Hs1 as [_ ->]. step_of Hrun Hs1.
  apply session_call_Ok in Hs1 as [Hs ->]. injection Hrun as <- <-. cbn [op_envelope op_deadline op_policy op_release]. by rewrite Hs.
Qed.

(** What a successful [run] established, from the operation it started with. *)
Record released_by (op : UnlockOperation) (schedule : list (@event R)) (w w' : World R T)
    (res : UnlockResult) : Prop := {
  rel_factors : exists share tshare root ids unsealed,
    quorum (op_envelope op) schedule share (diagnostics res) ids /\
    tpm_unseal (device w) (op_envelope op) = (Ok unsealed, device w') /\
    (mode (policy (descriptor (body (op_envelope op)))) = Attested ->
       authorization unsealed = FreshSessionAuthorization) /\
    tpm_share (op_envelope op) unsealed tshare /\
    reconstruct 2 [mk_share 1 tshare; mk_share 2 share] = Ok root /\
    payload_opens (op_envelope op) root (credential res);
  rel_deadline : exists last, ticks w' = S last /\ clock last < op_deadline op;
}.

(** The last clock reading gates the release. *)
Lemma release_gate_deadline gate context deadline t gate' :
  gate_release gate context (t <? deadline) = (true, gate') -> t < deadline.
Proof. unfold gate_release. destruct (Z.ltb_spec t deadline); [done|done]. Qed.

(** The release phase: from the opened TPM share to the credential. *)
Lemma release_phase_Ok op share diags tev session gate (w w' : World R T) res :
  release_phase clock op share diags tev session gate w = (Ok res, w') ->
  diagnostics res = diags /\ device w' = device w /\
  (exists root, reconstruct 2 [mk_share 1 (tpm_ev_share tev); mk_share 2 share] = Ok root /\
     payload_opens (op_envelope op) root (credential res)) /\
  exists last, ticks w' = S last /\ clock last < op_deadline op.
Proof.
  unfold release_phase. intros Hrun.
  step_as Hrun H1' s1 w1. apply of_result_Ok in H1' as [[= <-] ->].
  step_as Hrun H2' s2 w2. apply of_result_Ok in H2' as [[= <-] ->].
  step_as Hrun H3' root w3. apply of_result_Ok in H3' as [Hroot ->].
  step_as Hrun H4' pev w4. apply authenticate_payload_Ok in H4' as (-> & _ & Hopen).
  step_as Hrun H5' session1 w5. apply session_call_Ok in H5' as [_ ->].
  step_as Hrun H6' gate1 w6. apply gate_call_Ok in H6' as [_ ->].
  step_as Hrun H7' u7 w7. apply check_deadline_Ok in H7' as [_ ->].
  step_as Hrun H8' session2 w8. apply session_call_Ok in H8' as [_ ->].
  step_as Hrun H9' t w9. unfold now in H9'. injection H9' as <- <-.
  destruct (gate_release _ _ _) as [accepted gate2] eqn:Eg.
  destruct accepted; cbn [negb] in Hrun; [|step_as Hrun H10' u10 w10; done].
  apply release_gate_deadline in Eg. injection Hrun as <- <-. cbn [diagnostics credential device ticks] in *.
  split_and!; try done; by eexists.
Qed.

Lemma run_Ok op schedule (w w' : World R T) res :
  run_unlock clock runtime_ok op schedule w = (Ok res, w') -> released_by op schedule w w' res.
Proof.
  unfold run_unlock. intros Hrun.
  step_as Hrun H1' u1 w1. assert (device w1 = device w) as D1.
  { unfold runtime in H1'. destruct runtime_ok; [by injection H1' as _ ->|done]. }
  step_as Hrun H2' u2 w2. apply (keeps_run _ _ _ _ (keeps_enter_stage clock Network)) in H2' as D2.
  step_as Hrun H3' o3 w3. destruct o3 as [[share diags] ids].
  pose proof (keeps_run _ _ _ _ (keeps_loop clock (op_envelope op) schedule _) H3') as D3.
  apply recover_network_sound in H3'.
  step_as Hrun H4' session4 w4. apply accept_all_frame in H4' as ->.
  step_as Hrun H5' gate5 w5. apply gate_call_Ok in H5' as [_ ->].
  step_as Hrun H6' u6 w6. apply check_deadline_Ok in H6' as [_ ->].
  step_as Hrun H7' u7 w7. apply (keeps_run _ _ _ _ (keeps_enter_stage clock TpmUnseal)) in H7' as D7.
  step_as Hrun H8' unsealed w8. step_as Hrun H9' u9 w9. apply check_deadline_Ok in H9' as [_ ->].
  step_as Hrun H10' u10 w10. apply (keeps_run _ _ _ _ (keeps_enter_stage clock AuthenticatePayload)) in H10' as D10.
  step_as Hrun H11' tev w11. apply authenticate_tpm_Ok in H11' as (-> & _ & _ & Hlive & Hshare).
  step_as Hrun H12' session12 w12. assert (w12 = w10) as ->.
  { destruct (tpm_ev_live tev); [by apply session_call_Ok in H12' as [_ ->]|by injection H12' as _ ->]. }
  step_as Hrun H13' session13 w13. apply session_call_Ok in H13' as [_ ->].
  step_as Hrun H14' gate14 w14. apply gate_call_Ok in H14' as [_ ->].
  apply release_phase_Ok in Hrun as (Ediag & D15 & (root & Hroot & Hopen) & Hlast).
  constructor; [|done]. exists share, (tpm_ev_share tev), root, ids, unsealed. rewrite Ediag.
  unfold unseal_device in H8'. cbn [device] in *. rewrite D7, D3, D2, D1 in H8'.
  destruct (tpm_unseal (device w) (op_envelope op)) as [[u|e] dev]; [|done]. injection H8' as -> <-.
  cbn [device] in D10. rewrite D15, D10. split_and!; done.
Qed.
End Sound.

(** * Completeness *)

Section SessionRuns.
Context {R T : Type}.

Lemma accept_network_runs policy h session id :
  policy_ok policy -> flags_recorded policy h session ->
  (AuthenticateEnvelope, Ok tt) ∈ h -> (Release, Ok tt) ∉ h ->
  id ∈ network_leaf_ids policy -> accepted h id = false ->
  exists session', accept_network session id = (Ok tt, session').
Proof.
  intros Hp [H1 H2 H3 H4 H5 H6 H7 H8 H9] Henv Hrel Hid Hacc.
  unfold accept_network, require_authenticated. rewrite H4, H8, H2.
  rewrite (proj2 (done_before_true _ _) Henv). replace (done_before Release h) with false.
  2: { symmetry. apply not_true_iff_false. by rewrite done_before_true. }
  cbn [negb]. destruct (leaf_position (leaves (plan policy)) id) as [i|] eqn:Ei.
  2: { by apply leaf_position_None in Ei. }
  apply leaf_position_Some in Ei as [p Ei]. unfold record_response. rewrite H3.
  change (map ?f (leaves (plan policy))) with (f <$> leaves (plan policy)).
  rewrite list_lookup_fmap, Ei. simpl. rewrite Hacc. by eexists.
Qed.

Lemma accept_all_runs policy ids : forall h session (w : World R T),
  policy_ok policy -> reachable policy h session ->
  (AuthenticateEnvelope, Ok tt) ∈ h -> (Release, Ok tt) ∉ h ->
  NoDup ids -> (forall id, id ∈ ids -> id ∈ network_leaf_ids policy /\ accepted h id = false) ->
  exists session', accept_all session ids w = (Ok session', w) /\
    reachable policy (h ++ map (fun id => (AcceptNetwork id, Ok tt)) ids) session'.
Proof.
  induction ids as [|id ids IH]; intros h session w Hp Hr Henv Hrel Hnd Hids.
  { exists session. split; [done|]. by rewrite app_nil_r. }
  apply NoDup_cons in Hnd as [Hni Hnd].
  destruct (Hids id) as [Hin Hacc]; [constructor|].
  destruct (accept_network_runs policy h session id) as [session1 E]; try done; [by apply flags_recorded_reachable|].
  destruct (IH (h ++ [(AcceptNetwork id, Ok tt)]) session1 w) as (session2 & Hrun & Hr2); try done.
  - eapply reach_step; [exact Hr|exact E].
  - apply elem_of_app. by left.
  - rewrite elem_of_app, list_elem_of_singleton. naive_solver.
  - intros id' Hid'. destruct (Hids id') as [Hin' Hacc']; [by constructor|]. split; [done|].
    unfold accepted in *. rewrite done_before_snoc_Ok, Hacc', bool_decide_false by naive_solver. done.
  - exists session2. simpl. unfold mbind, M_bind, session_call. rewrite E. split; [exact Hrun|].
    by rewrite <- app_assoc in Hr2.
Qed.

(** The whole session of a successful unlock. *)
Lemma session_runs policy ids live (w : World R T) :
  policy_ok policy -> NoDup ids -> (forall id, id ∈ ids -> id ∈ network_leaf_ids policy) ->
  (mode policy = Attested -> live = true) ->
  satisfied (fun id => bool_decide (id ∈ ids)) (network policy) = true ->
  exists s1 s2 s3 s4 s5,
    accept_all (authenticate_envelope (new_session policy)).2 ids w = (Ok s1, w) /\
    (if live then confirm_live_authorization s1 = (Ok tt, s2) else s2 = s1) /\
    confirm_tpm s2 = (Ok tt, s3) /\ authenticate_root s3 = (Ok tt, s4) /\ release s4 = (Ok tt, s5).
Proof.
  intros Hp Hnd Hids Hlive Hsat.
  destruct (accept_all_runs policy ids [(AuthenticateEnvelope, Ok tt)]
    (authenticate_envelope (new_session policy)).2 w) as (s1 & E1 & R1); try done.
  { apply (reach_step policy [] (new_session policy) AuthenticateEnvelope); [constructor|done]. }
  { constructor. }
  { by rewrite list_elem_of_singleton. }
  { intros id Hid. split; [by apply Hids|]. apply bool_decide_eq_false. by rewrite list_elem_of_singleton. }
  destruct (flags_recorded_reachable _ _ _ Hp R1) as [F1 _ _ F4 F5 F6 F7 F8 F9].
  set (h1 := [_] ++ _) in *.
  assert (forall o, (forall id, o <> AcceptNetwork id) -> done_before o h1 = bool_decide (o = AuthenticateEnvelope)) as Hh.
  { intros o Ho. apply bool_decide_ext. unfold h1. rewrite elem_of_app, list_elem_of_singleton, list_elem_of_fmap.
    naive_solver. }
  rewrite Hh in F4, F5, F6, F7, F8 by done.
  rewrite (satisfied_ext _ (fun id => bool_decide (id ∈ ids))), Hsat in F9.
  2: { intros id. apply bool_decide_ext. unfold h1. rewrite elem_of_app, list_elem_of_singleton, list_elem_of_fmap.
       naive_solver. }
  exists s1. destruct s1 as [rl pl rs [e1 e2 e3 e4 e5 e6]]. cbn in F1, F4, F5, F6, F7, F8, F9. subst.
  destruct (decide (mode policy = Attested)) as [Em|Em]; [rewrite (Hlive Em), bool_decide_true in * by done|
    rewrite bool_decide_false in * by done; destruct live]; by do 4 eexists.
Qed.
End SessionRuns.

Section Completes.
Context `{Primitives} `{Cbor}.
Context {R T : Type} `{Rng R} `{TpmProvider T}.
Context (clock : nat -> Z) (deadline : Z) (Hclock : forall n, clock n < deadline).

Lemma check_deadline_runs (w : World R T) :
  check_deadline clock deadline w = (Ok tt, mk_world (entropy w) (device w) (S (ticks w)) (report w)).
Proof.
  unfold check_deadline, mbind, M_bind, now. destruct (Z.leb_spec deadline (clock (ticks w))); [|done].
  specialize (Hclock (ticks w)). lia.
Qed.

Lemma enter_stage_runs stage (w : World R T) :
  exists w', enter_stage clock stage w = (Ok tt, w') /\ device w' = device w.
Proof. by eexists. Qed.

Lemma authenticate_tpm_runs unsealed envelope share (w : World R T) :
  (mode (policy (descriptor (body envelope))) = Attested -> authorization unsealed = FreshSessionAuthorization) ->
  tpm_share envelope unsealed share ->
  authenticate_tpm unsealed envelope w =
    (Ok (mk_tpm_evidence (context envelope) share
      (bool_decide (authorization unsealed = FreshSessionAuthorization))), w).
Proof.
  intros Hlive (key & leaf & Hk & Hl & Ho). unfold authenticate_tpm.
  replace (match authorization unsealed with LocalMeasuredBoot => false | FreshSessionAuthorization => true end)
    with (bool_decide (authorization unsealed = FreshSessionAuthorization)) by by destruct (authorization unsealed).
  replace (_ && negb _) with false.
  2: { symmetry. apply andb_false_iff. rewrite negb_false_iff, bool_decide_eq_true, bool_decide_eq_false.
       destruct (decide (mode (policy (descriptor (body envelope))) = Attested)); auto. }
  unfold mbind, M_bind, derive, of_result. rewrite Hk. simpl. rewrite Hl. simpl. by rewrite Ho.
Qed.

Lemma authenticate_payload_runs root envelope cred (w : World R T) :
  payload_opens envelope root cred ->
  authenticate_payload root envelope w = (Ok (mk_payload_evidence (context envelope) cred), w).
Proof.
  intros (key & Hk & Ho). unfold authenticate_payload, mbind, M_bind, derive, of_result. rewrite Hk. simpl.
  by rewrite Ho.
Qed.

Lemma session_call_run r session (w : World R T) : r = (Ok tt, session) -> session_call r w = (Ok session, w).
Proof. by intros ->. Qed.

Lemma gate_call_run r gate (w : World R T) : r = (true, gate) -> gate_call_ok r w = (Ok gate, w).
Proof. by intros ->. Qed.

Lemma of_result_run {E A} (f : E -> EngineError.Error) (r : result E A) a (w : World R T) :
  r = Ok a -> of_result f r w = (Ok a, w).
Proof. by intros ->. Qed.

Definition started_operation (envelope : AuthenticatedEnvelope) : UnlockOperation :=
  mk_operation envelope deadline (authenticate_envelope (new_session (policy (descriptor (body envelope))))).2
    (new_gate (context envelope) (bool_decide (mode (policy (descriptor (body envelope))) = Attested))).

Lemma begin_runs raw signer envelope (w : World R T) :
  authenticate raw signer = Ok envelope ->
  supports_mode (device w) (mode (policy (descriptor (body envelope)))) = true ->
  exists w', begin_unlock clock raw signer (volume_uuid (descriptor (body envelope)))
    (slot (descriptor (body envelope))) deadline w = (Ok (started_operation envelope), w') /\ device w' = device w.
Proof.
  intros Hauth Hsup. unfold begin_unlock.
  rewrite (M_bind_run _ _ _ _ _ (of_result_run _ _ _ _ Hauth)).
  unfold mbind at 1, M_bind at 1. cbn [update_report]. rewrite bool_decide_true, Z.eqb_refl by done. cbn [negb orb].
  unfold mbind at 1, M_bind at 1. cbn [device]. rewrite Hsup. cbn [negb].
  rewrite (M_bind_run _ _ _ _ _ (check_deadline_runs _)).
  rewrite (M_bind_run _ _ _ (authenticate_envelope (new_session (policy (descriptor (body envelope))))).2 _
    (session_call_run _ _ _ eq_refl)). by eexists.
Qed.

Lemma release_phase_runs envelope share diags tshare live root cred s3 s4 s5 (w : World R T) :
  reconstruct 2 [mk_share 1 tshare; mk_share 2 share] = Ok root -> payload_opens envelope root cred ->
  authenticate_root s3 = (Ok tt, s4) -> release s4 = (Ok tt, s5) ->
  exists w', release_phase clock (started_operation envelope) share diags
    (mk_tpm_evidence (context envelope) tshare live) s3
    (mk_gate (context envelope) 2 (bool_decide (mode (policy (descriptor (body envelope))) = Attested))) w =
    (Ok (mk_unlock cred diags), w').
Proof.
  intros Hroot Hpay Es4 Es5. unfold release_phase. cbn [op_envelope op_deadline started_operation tpm_ev_share].
  rewrite (M_bind_run _ _ _ (mk_share 1 tshare) w) by done.
  rewrite (M_bind_run _ _ _ (mk_share 2 share) w) by done.
  rewrite (M_bind_run _ _ _ _ _ (of_result_run _ _ _ _ Hroot)).
  rewrite (M_bind_run _ _ _ _ _ (authenticate_payload_runs _ _ _ _ Hpay)).
  cbn [payload_context payload_credential].
  rewrite (M_bind_run _ _ _ _ _ (session_call_run _ _ _ Es4)).
  unfold gate_payload. rewrite (M_bind_run _ _ _ _ _ (gate_call_run _ _ _ (advance_next _ 2 _ _ eq_refl))).
  rewrite (M_bind_run _ _ _ _ _ (check_deadline_runs _)).
  rewrite (M_bind_run _ _ _ _ _ (session_call_run _ _ _ Es5)).
  unfold mbind, M_bind, now. change (wrap 8 (2 + 1)) with 3. cbn [ticks]. unfold gate_release.
  rewrite (proj2 (Z.ltb_lt _ _) (Hclock _)), (advance_next _ 3) by done. by eexists.
Qed.

Lemma run_completes envelope schedule (w : World R T) share unsealed tshare root cred dev' :
  network_ready envelope ->
  (forall w0 : World R T, exists fails ids w1,
     recover_network_observed clock envelope schedule w0 = (Ok (share, fails, ids), w1)) ->
  tpm_unseal (device w) envelope = (Ok unsealed, dev') ->
  (mode (policy (descriptor (body envelope))) = Attested -> authorization unsealed = FreshSessionAuthorization) ->
  tpm_share envelope unsealed tshare ->
  reconstruct 2 [mk_share 1 tshare; mk_share 2 share] = Ok root ->
  payload_opens envelope root cred ->
  exists diags w', run_unlock clock true (started_operation envelope) schedule w = (Ok (mk_unlock cred diags), w').
Proof.
  intros Hready Hnet Hun Hlive Htpm Hroot Hpay. unfold run_unlock. cbn [op_envelope op_deadline op_policy op_release started_operation].
  rewrite (M_bind_run _ _ _ tt w) by done.
  destruct (enter_stage_runs Network w) as (w1 & E1 & D1). rewrite (M_bind_run _ _ _ _ _ E1).
  destruct (Hnet w1) as (fails & ids & w2 & E2). rewrite (M_bind_run _ _ _ _ _ E2).
  pose proof (keeps_run _ _ _ _ (keeps_loop clock envelope schedule _) E2) as D2.
  apply recover_network_sound in E2. destruct (quorum_shares _ _ _ _ _ Hready E2) as (Hnd & Hin & Hsat & _).
  destruct (session_runs (policy (descriptor (body envelope))) ids
    (bool_decide (authorization unsealed = FreshSessionAuthorization)) w2) as (s1 & s2 & s3 & s4 & s5 & Es1 & Es2 & Es3 & Es4 & Es5);
    [apply Hready|done|done|intros; by apply bool_decide_eq_true, Hlive|done|].
  rewrite (M_bind_run _ _ _ _ _ Es1).
  unfold gate_network, new_gate. rewrite (M_bind_run _ _ _ _ _ (gate_call_run _ _ _ (advance_next _ 0 false _ eq_refl))).
  rewrite (M_bind_run _ _ _ _ _ (check_deadline_runs _)).
  match goal with |- context [(enter_stage clock TpmUnseal ≫= _) ?w0] => destruct (enter_stage_runs TpmUnseal w0) as (w3 & E3 & D3) end.
  rewrite (M_bind_run _ _ _ _ _ E3). cbn [device] in D3. rewrite D2, D1 in D3.
  rewrite (M_bind_run _ _ _ unsealed (mk_world (entropy w3) dev' (ticks w3) (report w3)))
    by (unfold unseal_device; by rewrite D3, Hun).
  rewrite (M_bind_run _ _ _ _ _ (check_deadline_runs _)).
  match goal with |- context [(enter_stage clock AuthenticatePayload ≫= _) ?w0] =>
    destruct (enter_stage_runs AuthenticatePayload w0) as (w4 & E4 & D4) end.
  rewrite (M_bind_run _ _ _ _ _ E4).
  rewrite (M_bind_run _ _ _ _ _ (authenticate_tpm_runs _ _ _ _ Hlive Htpm)). cbn [tpm_ev_live tpm_ev_context tpm_ev_share].
  rewrite (M_bind_run _ _ _ s2 w4) by (destruct (bool_decide _); [by apply session_call_run|by subst]).
  rewrite (M_bind_run _ _ _ _ _ (session_call_run _ _ _ Es3)).
  unfold gate_tpm. change (wrap 8 (0 + 1)) with 1. rewrite (advance_next _ 1).
  { rewrite (M_bind_run _ _ _ _ _ (gate_call_run _ _ _ eq_refl)). exists fails.
    by apply release_phase_runs with (root := root) (s4 := s4) (s5 := s5). }
  { destruct (decide (mode (policy (descriptor (body envelope))) = Attested)) as [Em|Em].
       - rewrite (bool_decide_true _ (Hlive Em)). by rewrite andb_false_r.
       - by rewrite (bool_decide_false _ Em). }
Qed.
End Completes.
