(* ===== verification/Enroll.v ===== *)
(** Enrollment ([prepare] of [leelo-engine/src/lib.rs]) and its agreement with unlock: the envelope an
    enrollment signs releases the enrolled credential when the TPM and enough providers answer. *)
From stdpp Require Import base list strings.
From Stdlib Require Import ZArith Lia.
From S2P Require Import Prelude Sss Plan Policy Session Release Crypto Wire Cbor Envelope Observation Engine Recovery Unlock.

Open Scope Z_scope.

(** What a [TpmProvider] promises. [seals]: the device made this blob of a seed; [holds]: the device can
    also open it now. A seed that the device holds is unsealed for the descriptor and blob it was sealed
    with, and attested policies get a fresh session. *)
Class TpmLaws (T : Type) `{TpmProvider T} : Type := {
  seals : T -> Descriptor -> TpmBlob -> list Z -> Prop;
  holds : T -> Descriptor -> TpmBlob -> list Z -> Prop;
  seal_seals : forall t d seed blob t', byte_array 32 seed -> tpm_seal t d seed = (Ok blob, t') ->
    seals t' d blob seed /\ byte_slice (tpm_public blob) /\ byte_slice (tpm_private blob) /\
    byte_slice (tpm_name blob) /\ byte_slice (parent_name blob);
  unseal_holds : forall t envelope seed, holds t (descriptor (body envelope)) (tpm (body envelope)) seed ->
    exists unsealed t', tpm_unseal t envelope = (Ok unsealed, t') /\ unsealed_seed unsealed = seed /\
      (mode (policy (descriptor (body envelope))) = Attested -> authorization unsealed = FreshSessionAuthorization);
}.

(** * Network keys *)

Section Keys.
Context `{PrimitiveLaws} `{Cbor}.
Context {R : Type} `{Rng R}.
Context (server_of : NetworkBinding -> server).

(** The wrap key of a leaf: derived from the server's pseudorandom output. *)
Definition leaf_key (d : Descriptor) (b : NetworkBinding) (context : list Z) : result CryptoError.Error (list Z) :=
  derive_wrap_key (voprf_output (server_of b) (network_input d b)) (leaf_context context (node_id b)).

Definition evaluated (b : NetworkBinding) (blinded : list Z) (evaluation : Evaluation) : Prop :=
  exists entropy entropy' : R, evaluate_with_entropy (server_of b) blinded entropy = (Ok evaluation, entropy').

Lemma network_key_Ok d b ctx (rng : R) net key rng' :
  public_key b = server_public_key (server_of b) ->
  (forall p ev, net p = Some (Ok ev) -> evaluated b p ev) ->
  network_key d b ctx rng net = (Some (Ok key), rng') -> leaf_key d b ctx = Ok key.
Proof.
  intros Hpk Hnet. unfold network_key. destruct (blind_with_entropy _ _) as [[[st p]|e] r] eqn:Eb; [|done].
  destruct (net p) as [[ev|kind]|] eqn:En; [|done|done]. rewrite Hpk, server_public_key_valid. simpl.
  destruct (Hnet _ _ En) as (e & e' & He). destruct (voprf_run _ _ _ _ _ _ _ _ _ Eb He) as (_ & _ & _ & ->). simpl.
  unfold leaf_key. destruct (derive_wrap_key _ _); [by intros [= -> _]|done].
Qed.

Lemma network_key_runs d b ctx (rng : R) net st p rng' ev key :
  public_key b = server_public_key (server_of b) ->
  blind_with_entropy (network_input d b) rng = (Ok (st, p), rng') ->
  net p = Some (Ok ev) -> evaluated b p ev -> leaf_key d b ctx = Ok key ->
  network_key d b ctx rng net = (Some (Ok key), rng').
Proof.
  intros Hpk Hb Hn (e & e' & He) Hk. unfold network_key. rewrite Hb, Hn, Hpk, server_public_key_valid. simpl.
  destruct (voprf_run _ _ _ _ _ _ _ _ _ Hb He) as (_ & _ & _ & ->). simpl. unfold leaf_key in Hk. by rewrite Hk.
Qed.
End Keys.

(** * Enrollment *)

Section Enroll.
Context `{PrimitiveLaws} `{CborLaws}.
Context {R T : Type} `{RngSound R} `{TpmLaws T}.
Context (clock : nat -> Z) (runtime_ok : bool) (server_of : NetworkBinding -> server).
Context (d : Descriptor) (net : nat -> NetworkBinding -> list Z -> option (result NetworkFailure Evaluation)).
Context (Hkeys : forall b, b ∈ networks d -> public_key b = server_public_key (server_of b)).
Context (Hnet : forall i b p ev, net i b p = Some (Ok ev) -> evaluated (R := R) server_of b p ev).

(** A wrapped leaf opens, under its leaf key, to the share of its node. *)
Definition wraps (ctx : list Z) (share : NetworkShare) (b : NetworkBinding) (leaf : WrappedLeaf) : Prop :=
  leaf_node_id leaf = node_id b /\ share.1 = node_id b /\ wrapped_ok (leaf_value leaf) /\
  exists key, leaf_key server_of d b ctx = Ok key /\
    open_key key (leaf_value leaf) (leaf_context ctx (node_id b)) = Ok share.2.

Lemma draw_Ok {E A} (f : E -> EngineError.Error) (op : R -> result E A * R) a (w w' : World R T) :
  draw f op w = (Ok a, w') -> exists rng', op (entropy w) = (Ok a, rng') /\ device w' = device w.
Proof.
  unfold draw. destruct (op (entropy w)) as [[b|e] r]; [|done]. intros [= -> <-]. by exists r.
Qed.

Lemma wrap_leaf_Ok ctx index share b leaf (w w' : World R T) :
  b ∈ networks d -> byte_array 32 share.2 ->
  wrap_leaf clock d ctx net index share b w = (Ok leaf, w') -> wraps ctx share b leaf /\ device w' = device w.
Proof.
  intros Hb Hs. unfold wrap_leaf. destruct share as [id secret]. simpl in Hs.
  destruct (Z.eqb_spec id (node_id b)) as [->|]; cbn [negb]; [|done]. intros Hrun.
  step_as Hrun H1' t w1. injection H1' as <- <-.
  step_as Hrun H2' r w2. cbn [entropy] in H2'. destruct (network_key d b ctx _ _) as [kr rng] eqn:Ek. injection H2' as <- <-.
  destruct kr as [[key|kind]|]; [|by step_as Hrun H3' u w3|by step_as Hrun H3' u w3].
  apply (network_key_Ok server_of) in Ek; [|by apply Hkeys|by intros p ev; apply Hnet].
  step_as Hrun H3' sealed w3. cbn [entropy] in H3'. destruct (seal_key _ _ _ _) as [sr rng2] eqn:Es. injection H3' as <- <-.
  destruct sr as [value|e]; [|by step_as Hrun H4' u w4].
  destruct (seal_key_Ok _ _ _ _ _ _ Hs Es) as [Hok Hopen]. rewrite Hopen, bool_decide_true in Hrun by done.
  cbn [negb] in Hrun. step_as Hrun H4' u w4. injection H4' as _ <-. injection Hrun as <- <-.
  split; [|done]. split_and!; try done. by exists key.
Qed.

(** The triple relation along the zipped lists. *)
Inductive all_wrapped (ctx : list Z) : list NetworkShare -> list NetworkBinding -> list WrappedLeaf -> Prop :=
| wrapped_nil : all_wrapped ctx [] [] []
| wrapped_cons share b leaf shares bs ls :
    wraps ctx share b leaf -> all_wrapped ctx shares bs ls ->
    all_wrapped ctx (share :: shares) (b :: bs) (leaf :: ls).

Lemma wrap_leaves_Ok ctx shares : forall index bs leaves (w w' : World R T),
  length shares = length bs -> bs ⊆ networks d -> Forall (fun s => byte_array 32 s.2) shares ->
  wrap_leaves clock d ctx net index shares bs w = (Ok leaves, w') ->
  all_wrapped ctx shares bs leaves /\ device w' = device w.
Proof.
  induction shares as [|share shares IH]; intros index [|b bs] leaves w w' Hlen Hsub Hbytes; simpl; try done.
  { intros [= <- <-]. split; [constructor|done]. }
  intros Hrun. inversion Hbytes as [|? ? Hb1 Hb2]; subst.
  step_as Hrun H1' leaf w1. apply wrap_leaf_Ok in H1' as [Hw D1]; [|by apply Hsub; constructor|done].
  step_as Hrun H2' rest w2. apply IH in H2' as [Hall D2]; [|by injection Hlen| |done].
  - injection Hrun as <- <-. split; [by constructor|]. by rewrite D2.
  - intros x Hx. apply Hsub. by constructor.
Qed.

Lemma all_wrapped_leaves ctx shares bs ls :
  all_wrapped ctx shares bs ls ->
  map leaf_node_id ls = map node_id bs /\ map fst shares = map node_id bs /\
  (Forall binding_typed bs -> Forall leaf_typed ls).
Proof.
  induction 1 as [|share b leaf shares bs ls (E1 & E2 & Hok & _) _ (IH1 & IH2 & IH3)]; [done|].
  simpl. rewrite E1, E2, IH1, IH2. split_and!; try done. intros Hty. inversion Hty as [|? ? Hb Hbs]; subst.
  constructor; [|by apply IH3]. split; [|done]. rewrite E1. apply Hb.
Qed.

(** The leaf of a binding is found under its identifier. *)
Lemma all_wrapped_find ctx shares bs ls b :
  all_wrapped ctx shares bs ls -> NoDup (map node_id bs) -> b ∈ bs ->
  exists share leaf, share ∈ shares /\ wraps ctx share b leaf /\
    find (fun leaf => Z.eqb (leaf_node_id leaf) (node_id b)) ls = Some leaf.
Proof.
  induction 1 as [|share b' leaf shares bs ls Hw Hall IH]; intros Hnd Hb; [by apply elem_of_nil in Hb|].
  simpl in Hnd. apply NoDup_cons in Hnd as [Hni Hnd]. apply elem_of_cons in Hb as [->|Hb].
  - exists share, leaf. split; [constructor|]. split; [done|]. simpl. destruct Hw as (-> & _). by rewrite Z.eqb_refl.
  - destruct (IH Hnd Hb) as (share' & leaf' & Hs & Hw' & Hf). exists share', leaf'. split; [by constructor|].
    split; [done|]. simpl. destruct Hw as (-> & _). destruct (Z.eqb_spec (node_id b') (node_id b)) as [E|]; [|done].
    exfalso. apply Hni. rewrite E. by apply list_elem_of_fmap_2.
Qed.

Lemma points_at_secret threshold secret coefs x :
  byte_array 32 secret -> coefficients_ok threshold coefs -> u8 x -> byte_array 32 (points_at secret coefs x).
Proof.
  intros [Hl Hs] [Hcl Hc] Hx. rewrite <- Hl at 1. apply points_at_ok; try done; [|by rewrite Hl].
  eapply Forall_impl; [exact Hc|by intros cs [_ ?]].
Qed.

(** The two root shares. *)
Lemma root_shares_Ok (root : list Z) (rng : R) shares rng' :
  byte_array 32 root -> split root 2 2 rng = (Ok shares, rng') ->
  exists s1 s2, shares = [mk_share 1 s1; mk_share 2 s2] /\ byte_array 32 s1 /\ byte_array 32 s2 /\
    reconstruct 2 shares = Ok root.
Proof.
  intros Hroot Hrun. pose proof Hrun as Hrun'.
  apply split_Ok in Hrun as (_ & _ & coefs & _ & Hc & ->); [|done|unfold uint; lia..].
  exists (points_at root coefs 1), (points_at root coefs 2). split; [done|]. split_and!.
  - by apply (points_at_secret 2).
  - by apply (points_at_secret 2).
  - apply (split_reconstruct root 2 2 rng _ rng' _ Hroot ltac:(done) ltac:(done) Hrun'); [done| |done].
    apply (NoDup_fmap_1 index). change (NoDup [1; 2]). decided.
Qed.

(** What a successful enrollment leaves behind. *)
Record enrolled (dev : T) (signer : SecretSigningKey) (prepared : PreparedEnrollment) (ctx : list Z)
    (b : EnvelopeBody) (seed s1 s2 root : list Z) (shares : list NetworkShare) : Prop := {
  enr_descriptor : descriptor b = d;
  enr_context : context_hash d = Ok ctx;
  enr_device : seals dev d (tpm b) seed;
  enr_blob : byte_slice (tpm_public (tpm b)) /\ byte_slice (tpm_private (tpm b)) /\
    byte_slice (tpm_name (tpm b)) /\ byte_slice (parent_name (tpm b));
  enr_root : reconstruct 2 [mk_share 1 s1; mk_share 2 s2] = Ok root;
  enr_share : byte_array 32 s2;
  enr_split : exists rng0 rng1 : R, split_network (policy d) s2 rng0 = (Ok shares, rng1);
  enr_tpm : exists value key leaves, body_leaves b = mk_wrapped_leaf (tpm_node_id (policy d)) value :: leaves /\
    wrapped_ok value /\ derive_secret_key seed (leaf_context ctx (tpm_node_id (policy d))) TPM_WRAP = Ok key /\
    open_key key value (leaf_context ctx (tpm_node_id (policy d))) = Ok s1 /\
    all_wrapped ctx shares (networks d) leaves;
  enr_payload : wrapped_ok (payload b) /\ exists key, derive_secret_key root ctx LUKS_SLOT = Ok key /\
    open_key key (payload b) ctx = Ok (prepared_credential prepared);
  enr_signed : sign_envelope b signer = Ok (prepared_envelope prepared);
}.

Lemma fresh_secret_Ok a (w w' : World R T) :
  fresh_secret w = (Ok a, w') -> byte_array 32 a /\ device w' = device w.
Proof. intros (rng & E & D)%draw_Ok. apply random_bytes_Ok in E. done. Qed.

Lemma split_network_leaves policy secret (rng : R) shares rng' :
  policy_ok policy -> byte_array SECRET_LEN secret -> split_network policy secret rng = (Ok shares, rng') ->
  map fst shares = network_leaf_ids policy /\ Forall (fun leaf => byte_array SECRET_LEN leaf.2) shares.
Proof.
  intros Hpol Hs. rewrite split_network_tree by done. destruct Hpol as (Hty & Hwf & Hp).
  apply well_formed_facts in Hwf as (_ & Hok & _ & Hn). intros Hrun. unfold network_leaf_ids. rewrite Hp.
  apply (split_tree_leaves _ secret rng shares rng'); try done. split_and!; [done|done|lia].
Qed.

Lemma prepare_Ok signer (w w' : World R T) prepared :
  descriptor_typed d -> prepare_inner clock runtime_ok d signer net w = (Ok prepared, w') ->
  exists ctx b seed s1 s2 root shares, enrolled (device w') signer prepared ctx b seed s1 s2 root shares.
Proof.
  intros Hty. unfold prepare_inner. intros Hrun.
  step_as Hrun H1' t w1. injection H1' as <- <-.
  step_as Hrun H2' ctx w2. apply of_result_Ok in H2' as [Hctx ->].
  step_as Hrun H3' u3 w3. step_as Hrun H4' sup w4. destruct (negb sup); [done|].
  step_as Hrun H5' u5 w5. step_as Hrun H6' cred w6. apply fresh_secret_Ok in H6' as [Hcred _].
  step_as Hrun H7' root w7. apply fresh_secret_Ok in H7' as [Hroot _].
  step_as Hrun H8' rshares w8. apply draw_Ok in H8' as (rng8 & H8' & _).
  destruct (root_shares_Ok _ _ _ _ Hroot H8') as (s1 & s2 & -> & Hs1 & Hs2 & Hrec).
  step_as Hrun H9' tseed w9. apply fresh_secret_Ok in H9' as [Hseed _].
  step_as Hrun H10' u10 w10. step_as Hrun H11' blob w11. unfold seal_device in H11'.
  destruct (tpm_seal (device w10) d tseed) as [[blob0|e] dev] eqn:Eseal; [|done]. injection H11' as -> <-.
  destruct (seal_seals _ _ _ _ _ Hseed Eseal) as [Hholds Hblob].
  step_as Hrun H12' u12 w12. apply check_deadline_Ok in H12' as [_ ->].
  step_as Hrun H13' u13 w13. apply (keeps_run _ _ _ _ (keeps_enter_stage clock ShareGeneration)) in H13' as D13.
  step_as Hrun H14' tkey w14. apply of_result_Ok in H14' as [Htkey ->].
  step_as Hrun H15' f1 w15. injection H15' as <- <-. cbn [value] in Hrun.
  step_as Hrun H16' tvalue w16. apply draw_Ok in H16' as (rng16 & H16' & D16).
  destruct (seal_key_Ok _ _ _ _ _ _ Hs1 H16') as [Htok Htopen].
  step_as Hrun H17' f2 w17. injection H17' as <- <-. cbn [value] in Hrun.
  step_as Hrun H18' shares w18. destruct (split_network (policy d) s2 (entropy w16)) as [[sh|e] rng18] eqn:Esp; [|done].
  injection H18' as -> <-. step_as Hrun H19' rec w19. unfold of_policy in H19'.
  destruct (recover_network (policy d) shares); [|done]. injection H19' as -> <-.
  destruct (negb (bool_decide _)); [done|].
  step_as Hrun H20' u20 w20. apply (keeps_run _ _ _ _ (keeps_enter_stage clock Network)) in H20' as D20.
  assert (validate_descriptor d = Ok tt) as Hval.
  { unfold context_hash, descriptor_bytes in Hctx. by destruct (validate_descriptor d) as [[]|]. }
  destruct (split_network_leaves _ _ _ _ _ (proj1 (proj2 (proj2 (proj2 (proj2 Hty))))) Hs2 Esp) as [Eids Hbytes].
  step_as Hrun H21' wrapped w21. apply wrap_leaves_Ok in H21' as [Hall D21]; [| |done|done].
  2: { rewrite <- (length_map fst), Eids, <- (validate_ids d Hval). apply length_map. }
  step_as Hrun H22' u22 w22. apply (keeps_run _ _ _ _ (keeps_enter_stage clock PreparePayload)) in H22' as D22.
  step_as Hrun H23' pkey w23. apply of_result_Ok in H23' as [Hpkey ->].
  step_as Hrun H24' pay w24. apply draw_Ok in H24' as (rng24 & H24' & D24).
  destruct (seal_key_Ok _ _ _ _ _ _ Hcred H24') as [Hpok Hpopen].
  step_as Hrun H25' raw w25. apply of_result_Ok in H25' as [Hsign ->].
  step_as Hrun H26' u26 w26. apply check_deadline_Ok in H26' as [_ ->]. injection Hrun as <- <-.
  exists ctx, (mk_body d blob (mk_wrapped_leaf (tpm_node_id (policy d)) tvalue :: wrapped) pay), tseed, s1, s2, root, shares.
  cbn [device] in *. rewrite D24, D22, D21, D20, D16, D13. constructor; cbn [descriptor tpm body_leaves payload]; try done.
  - by exists (entropy w16), rng18.
  - by exists tvalue, tkey, wrapped.
  - split; [done|]. by exists pkey.
Qed.

Lemma enrolled_typed dev signer prepared ctx b tseed s1 s2 root shares :
  descriptor_typed d -> enrolled dev signer prepared ctx b tseed s1 s2 root shares -> body_typed b.
Proof.
  intros Hty [E1 _ _ (B1 & B2 & B3 & B4) _ _ _ (v & key & ls & El & Hv & _ & _ & Hall) [Hp _] _].
  destruct (all_wrapped_leaves _ _ _ _ Hall) as (_ & _ & Hls). unfold body_typed. rewrite E1, El.
  destruct Hty as (T1 & T2 & T3 & T4 & T5 & T6 & T7 & T8 & T9).
  split_and!; try done. constructor; [done|]. by apply Hls.
Qed.

(** Providers that are up answer with an evaluation of the blinded input; the others fail. *)
Definition serving (up : NetworkBinding -> bool) (schedule : list (@event R)) : Prop :=
  forall k rng reply b, Completes k rng reply ∈ schedule -> b ∈ networks d ->
    if up b then exists st p rng' ev, blind_with_entropy (network_input d b) rng = (Ok (st, p), rng') /\
      reply b p = Ok ev /\ evaluated (R := R) server_of b p ev
    else forall p, exists kind, reply b p = Err kind.

Lemma leaf_not_tpm b : policy_ok (policy d) -> map node_id (networks d) = network_leaf_ids (policy d) ->
  b ∈ networks d -> tpm_node_id (policy d) <> node_id b.
Proof.
  intros (_ & (_ & _ & Hnd & _) & Hp) Hids Hb E. apply NoDup_cons in Hnd as [Hni _]. apply Hni.
  eapply elem_of_submseteq; [|apply sublist_submseteq, leaf_ids_sublist]. unfold network_leaf_ids in Hids. rewrite Hp in Hids. simpl in Hids.
  rewrite <- Hids, E. by apply list_elem_of_fmap_2.
Qed.

Lemma serving_answers dev signer prepared ctx b tseed s1 s2 root shares up schedule :
  policy_ok (policy d) -> map node_id (networks d) = network_leaf_ids (policy d) ->
  enrolled dev signer prepared ctx b tseed s1 s2 root shares -> serving up schedule ->
  answering (mk_authenticated b ctx) shares up schedule.
Proof.
  intros Hpol Hids [E1 _ _ _ _ _ _ (v & key & ls & El & _ & _ & _ & Hall) _ _] Hserve k rng reply bd Hev Hb.
  cbn [body] in Hb. rewrite E1 in Hb. specialize (Hserve k rng reply bd Hev Hb).
  unfold recover_leaf. cbn [body context]. rewrite E1.
  destruct (up bd) eqn:Eup.
  - destruct Hserve as (st & p & rng' & ev & Hbl & Hr & He).
    destruct (all_wrapped_find _ _ _ _ bd Hall) as (share & leaf & Hs & (L1 & L2 & L3 & lk & Hk & Ho) & Hf); [|done|].
    { rewrite Hids. by apply network_ids_NoDup. }
    rewrite (network_key_runs server_of d bd ctx rng _ st p rng' ev lk); [|by apply Hkeys|done|by rewrite Hr|done|done].
    cbn [fst]. rewrite El. cbn [find leaf_node_id].
    destruct (Z.eqb_spec (tpm_node_id (policy d)) (node_id bd)) as [E|_]; [by apply (leaf_not_tpm bd) in E|].
    rewrite Hf. simpl. rewrite Ho. simpl. split; [done|]. rewrite <- L2. by destruct share.
  - unfold network_key. destruct (blind_with_entropy _ _) as [[[st p]|e] rng']; [|done]. simpl.
    destruct (Hserve p) as [kind ->]. done.
Qed.

(** An enrolled envelope unlocks. *)
Lemma enrolled_unlocks dev signer prepared ctx b tseed s1 s2 root shares uclock deadline up schedule (u : World R T) :
  descriptor_typed d -> byte_array 32 (seed signer) ->
  enrolled dev signer prepared ctx b tseed s1 s2 root shares ->
  (forall blob sd, seals dev d blob sd -> holds (device u) d blob sd) ->
  supports_mode (device u) (mode (policy d)) = true -> (forall n, uclock n < deadline) ->
  serving up schedule -> Elapsed ∉ schedule -> (length (networks d) <= completions schedule)%nat ->
  satisfied (up_ids (networks d) up) (network (policy d)) = true ->
  exists diags u', unlock_before_observed uclock true (prepared_envelope prepared) (signing_public_key signer)
    (volume_uuid d) (slot d) deadline schedule u = (Ok (mk_unlock (prepared_credential prepared) diags), u').
Proof.
  intros Hty Hseed Henr Hdev Hsup Hclk Hserve Hel Hcount Hsat.
  pose proof (enrolled_typed _ _ _ _ _ _ _ _ _ _ Hty Henr) as Hbty.
  pose proof Henr as [E1 E2 E3 _ E5 E6 (rng0 & rng1 & E7) (v & key & ls & El & _ & Hk & Ho & _) [_ (pk & Hpk & Hpo)] E10].
  pose proof (proj1 (proj1 (sign_envelope_iff b signer _ Hbty Hseed) E10)) as Hval.
  destruct (sign_authenticate b signer _ Hbty Hseed E10) as (_ & ctx' & Ec & Hauth).
  rewrite E1, E2 in Ec. injection Ec as <-.
  set (env := mk_authenticated b ctx) in *.
  pose proof (body_network_ready env Hbty Hval) as Hready.
  assert (policy_ok (policy d) /\ map node_id (networks d) = network_leaf_ids (policy d)) as [Hpol Hids].
  { destruct Hready as [Hp Hi]. cbn [env body] in Hp, Hi. by rewrite E1 in Hp, Hi. }
  destruct (begin_runs uclock deadline Hclk (prepared_envelope prepared) (signing_public_key signer) env u Hauth)
    as (u1 & Hbegin & Du); [by cbn [env body]; rewrite E1|].
  cbn [env body] in Hbegin. rewrite E1 in Hbegin.
  unfold unlock_before_observed. rewrite (M_bind_run _ _ _ _ _ Hbegin).
  destruct (unseal_holds (device u1) env tseed) as (un & dev' & Hun & Eseed & Hlive).
  { cbn [env body]. rewrite E1, Du. by apply Hdev. }
  apply (run_completes uclock deadline Hclk env schedule u1 s2 un s1 root (prepared_credential prepared) dev'); try done.
  - intros w0. pose proof (serving_answers _ _ _ _ _ _ _ _ _ _ _ _ Hpol Hids Henr Hserve) as Hans.
    pose proof (recover_network_decides (T := T) uclock env s2 rng0 rng1 shares up Hready E6) as Hdec.
    cbn [env body] in Hdec. rewrite E1 in Hdec. specialize (Hdec E7 schedule w0 Hans Hel Hcount). by rewrite Hsat in Hdec.
  - exists key. eexists. cbn [env body context]. rewrite E1, El, Eseed. split; [exact Hk|]. split; [done|exact Ho].
  - by exists pk.
Qed.
End Enroll.

Section Observed.
Context {R T A : Type} (clock : nat -> Z).

(** [finish] does not change the result. *)
Lemma observed_result (ph : Phase) (operation : M R T A) (w : World R T) :
  exists w0, (observed_operation clock ph operation w).1 = (operation w0).1 /\
    entropy w0 = entropy w /\ device w0 = device w /\
    device (observed_operation clock ph operation w).2 = device (operation w0).2.
Proof.
  exists (mk_world (entropy w) (device w) (S (S (S (ticks w))))
    (begin_report ph (clock (S (ticks w))) (clock (S (S (ticks w)))))).
  unfold observed_operation. by destruct (operation _) as [[a|[e|]] w1].
Qed.
End Observed.

Section Prepared.
Context `{PrimitiveLaws} `{CborLaws}.
Context {R T : Type} `{RngSound R} `{TpmLaws T}.

(** A prepared enrollment unlocks, for every interleaving in which the providers that are up suffice. *)
Lemma prepared_unlocks clock runtime_ok uclock (server_of : NetworkBinding -> server) d signer net
    (w w' : World R T) prepared up schedule (u : World R T) :
  descriptor_typed d -> byte_array 32 (seed signer) ->
  (forall b, b ∈ networks d -> public_key b = server_public_key (server_of b)) ->
  (forall i b p ev, net i b p = Some (Ok ev) -> evaluated (R := R) server_of b p ev) ->
  prepare_observed clock runtime_ok d signer net w = (Ok prepared, w') ->
  (forall blob sd, seals (device w') d blob sd -> holds (device u) d blob sd) ->
  supports_mode (device u) (mode (policy d)) = true ->
  (forall n, uclock n < uclock (ticks u) + OPERATION_BUDGET) ->
  serving server_of d up schedule -> Elapsed ∉ schedule ->
  (length (networks d) <= completions schedule)%nat ->
  satisfied (up_ids (networks d) up) (network (policy d)) = true ->
  exists diags, (unlock_observed uclock true (prepared_envelope prepared) (signing_public_key signer)
    (volume_uuid d) (slot d) schedule u).1 = Ok (mk_unlock (prepared_credential prepared) diags).
Proof.
  intros Hty Hseed Hkeys Hnet Hprep Hdev Hsup Hclk Hserve Hel Hcount Hsat.
  destruct (observed_result clock Prepare (prepare_inner clock runtime_ok d signer net) w) as (w0 & Hres & _ & _ & D0).
  unfold prepare_observed in Hprep. rewrite Hprep in Hres, D0. cbn [fst snd] in Hres, D0.
  destruct (prepare_inner clock runtime_ok d signer net w0) as [r w1] eqn:Einner. cbn [fst snd] in Hres, D0. subst r.
  destruct (prepare_Ok clock runtime_ok server_of d net Hkeys Hnet signer w0 w1 prepared Hty Einner)
    as (ctx & b & sd & s1 & s2 & root & shares & Henr).
  unfold unlock_observed.
  destruct (observed_result uclock Recover (unlock_before_observed uclock true (prepared_envelope prepared)
    (signing_public_key signer) (volume_uuid d) (slot d) (uclock (ticks u) + OPERATION_BUDGET) schedule) u)
    as (u0 & -> & _ & Du & _).
  destruct (enrolled_unlocks server_of d Hkeys _ _ _ _ _ _ _ _ _ _ uclock (uclock (ticks u) + OPERATION_BUDGET) up
    schedule u0 Hty Hseed Henr) as (diags & u' & ->); rewrite ?Du, <- ?D0; try done.
  by exists diags.
Qed.
End Prepared.

(** * Properties *)

Section Claims.
Context `{PrimitiveLaws} `{CborLaws}.
Context {R T : Type} `{RngSound R} `{TpmLaws T}.

(** C8: soundness of unlock. A credential is released only from an envelope that authenticates
    under the trusted signer and names the expected volume and slot; its network share was
    recovered from leaves opened by completed provider operations whose identifiers satisfy the
    policy tree; the TPM released its seed, with a fresh session when the policy is attested; the
    root was reconstructed from the two shares and opens the payload to exactly that credential;
    and the last clock reading was before the deadline. *)
Theorem unlock_sound clock runtime_ok raw signer volume expected deadline schedule (w w' : World R T) res :
  byte_slice raw ->
  unlock_before_observed clock runtime_ok raw signer volume expected deadline schedule w = (Ok res, w') ->
  exists env share tshare root ids shares unsealed last,
    authenticate raw signer = Ok env /\ body_valid (body env) /\
    volume_uuid (descriptor (body env)) = volume /\ slot (descriptor (body env)) = expected /\
    NoDup ids /\ satisfied (fun id => bool_decide (id ∈ ids)) (network (policy (descriptor (body env)))) = true /\
    map fst shares = ids /\ Forall (opened env schedule) shares /\
    recover_network (policy (descriptor (body env))) shares = Ok share /\
    tpm_unseal (device w) env = (Ok unsealed, device w') /\
    (mode (policy (descriptor (body env))) = Attested -> authorization unsealed = FreshSessionAuthorization) /\
    tpm_share env unsealed tshare /\
    reconstruct 2 [mk_share 1 tshare; mk_share 2 share] = Ok root /\
    payload_opens env root (credential res) /\
    ticks w' = S last /\ clock last < deadline.
Proof.
  intros Hraw Hrun. unfold unlock_before_observed in Hrun. step_as Hrun Hb operation w1.
  apply begin_Ok in Hb as (Hauth & Hvol & Hslot & Hdl & _ & _ & D1).
  apply run_Ok in Hrun as [(share & tshare & root & ids & un & Hq & Hun & Hlive & Ht & Hr & Hp) (last & Hl & Hc)].
  destruct (authenticate_sound _ _ _ Hraw Hauth) as (_ & _ & _ & _ & _ & Hty & Hval & _).
  destruct (quorum_shares _ _ _ _ _ (body_network_ready _ Hty Hval) Hq) as (Hnd & _ & Hsat & shares & E1 & E2 & E3).
  rewrite D1 in Hun. rewrite Hdl in Hc.
  exists (op_envelope operation), share, tshare, root, ids, shares, un, last. split_and!; done.
Qed.

(** Enrollment and unlock agree, end to end. If enrollment of a well-typed descriptor succeeds
    against the servers whose public keys are pinned, then, on a TPM that still holds what it
    sealed, unlocking with any interleaving of provider completions in which the providers that
    are up satisfy the policy tree, whatever the others answer with, returns exactly the enrolled
    credential within the operation budget. *)
Theorem enroll_then_unlock clock runtime_ok uclock (server_of : NetworkBinding -> server) d signer net
    (w w' : World R T) prepared up schedule (u : World R T) :
  descriptor_typed d -> byte_array 32 (seed signer) ->
  (forall b, b ∈ networks d -> public_key b = server_public_key (server_of b)) ->
  (forall i b p ev, net i b p = Some (Ok ev) -> evaluated (R := R) server_of b p ev) ->
  prepare_observed clock runtime_ok d signer net w = (Ok prepared, w') ->
  (forall blob sd, seals (device w') d blob sd -> holds (device u) d blob sd) ->
  supports_mode (device u) (mode (policy d)) = true ->
  (forall n, uclock n < uclock (ticks u) + OPERATION_BUDGET) ->
  serving server_of d up schedule -> Elapsed ∉ schedule ->
  (length (networks d) <= completions schedule)%nat ->
  satisfied (up_ids (networks d) up) (network (policy d)) = true ->
  exists diags, (unlock_observed uclock true (prepared_envelope prepared) (signing_public_key signer)
    (volume_uuid d) (slot d) schedule u).1 = Ok (mk_unlock (prepared_credential prepared) diags).
Proof. apply prepared_unlocks. Qed.
End Claims.
