(* ===== verification/Report.v ===== *)
(** What operations report ([leelo-engine/src/observation.rs] as used by [lib.rs] and [recovery.rs]):
    the stages a run went through, in order, with the failure on the stage it stopped in; and
    freedom from index panics of enrollment and unlock. *)
From stdpp Require Import base list strings.
From Stdlib Require Import ZArith Lia.
From S2P Require Import Prelude Sss Plan Policy Session Release Crypto Wire Cbor Envelope Observation Engine Recovery Unlock Enroll.

Open Scope Z_scope.

(** * Progress of a report *)

(** A running report: its stages so far, the last one active, none failed. *)
Record progress (r : OperationReport) (entered : list Stage) : Prop := {
  prog_providers : length (providers r) = MAX_PROVIDER_OBSERVATIONS;
  prog_stages : exists filled s t, active_stage r = Some (s, t) /\
    stages r = map Some filled ++ replicate (MAX_STAGES - length filled) None /\
    Forall (fun o => stage_failure o = None) filled /\
    entered = map stage filled ++ [s];
  prog_room : (length entered <= MAX_STAGES)%nat;
}.

Lemma progress_begin ph t t' : progress (begin_report ph t t') [Validate].
Proof. constructor; [done| |simpl; unfold MAX_STAGES; lia]. by exists [], Validate, t'. Qed.

Lemma close_room r entered failure now :
  progress r entered ->
  exists filled s t, active_stage r = Some (s, t) /\ entered = map stage filled ++ [s] /\
    Forall (fun o => stage_failure o = None) filled /\
    let filled' := filled ++ [mk_stage_observation s (elapsed now t) failure] in
    close_stage r failure now = mk_report (report_phase r) (report_mode r) (report_duration r) (report_failure r)
      (providers r) (map Some filled' ++ replicate (MAX_STAGES - length filled') None) None.
Proof.
  intros [_ (filled & s & t & Ha & Hs & Hf & He) Hroom]. exists filled, s, t. split_and!; try done.
  unfold close_stage. rewrite Ha. f_equal. rewrite Hs, fill_slot_prefix.
  rewrite He, length_app, length_map in Hroom. simpl in Hroom. rewrite length_app. simpl.
  destruct (MAX_STAGES - length filled)%nat as [|n] eqn:E; [lia|]. do 2 f_equal. lia.
Qed.

Lemma progress_enter r entered st t t' :
  progress r entered -> (length entered < MAX_STAGES)%nat -> progress (enter r st t t') (entered ++ [st]).
Proof.
  intros Hp Hroom. destruct (close_room r entered None t Hp) as (filled & s & t0 & Ha & He & Hf & Hc).
  unfold enter. rewrite Hc. constructor; cbn [providers stages active_stage].
  - apply Hp.
  - exists (filled ++ [mk_stage_observation s (elapsed t t0) None]), st, t'. split_and!; try done.
    + apply Forall_app. split; [done|]. by constructor.
    + by rewrite He, map_app.
  - rewrite length_app. simpl. lia.
Qed.

Lemma progress_observe r entered index outcome duration :
  progress r entered -> progress (observe r index outcome duration) entered.
Proof.
  intros [H1 H2 H3]. unfold observe. repeat case_match; try done. constructor; simpl; try done.
  by rewrite length_insert.
Qed.

Lemma progress_configure r entered m bs : progress r entered -> progress (configure r m bs) entered.
Proof. intros [H1 H2 H3]. constructor; simpl; try done. by rewrite configure_entries_length. Qed.

(** A finished report: one observation per stage entered; the failure is on the last. *)
Definition finished_report (r : OperationReport) (entered : list Stage) (failure : option ObservedFailure.Failure) : Prop :=
  report_failure r = failure /\ active_stage r = None /\
  exists before last, observed_stages r = before ++ [last] /\ map stage (before ++ [last]) = entered /\
    Forall (fun o => stage_failure o = None) before /\ stage_failure last = failure.

Lemma observed_filled (filled : list StageObservation) n :
  omap id (map Some filled ++ replicate n None) = filled.
Proof.
  induction filled as [|o filled IH]; [by induction n|].
  exact (f_equal (cons o) IH).
Qed.

Lemma progress_finish r entered started failure t t' :
  progress r entered -> finished_report (finish r started failure t t') entered failure.
Proof.
  intros [H1 H2 H3]. set (r' := mk_report (report_phase r) (report_mode r) (report_duration r) failure
    (providers r) (stages r) (active_stage r)).
  assert (progress r' entered) as Hp by by constructor.
  destruct (close_room r' entered failure t Hp) as (filled & s & t0 & Ha & He & Hf & Hc).
  unfold finish. fold r'. rewrite Hc. unfold finished_report, observed_stages. cbn [report_failure active_stage stages].
  rewrite observed_filled. split_and!; try done. exists filled, (mk_stage_observation s (elapsed t t0) failure).
  split_and!; try done. by rewrite He, map_app.
Qed.
#[export] Hint Resolve progress_observe progress_configure : leelo.

(** * Runs and their stages *)

Section Tracks.
Context {R T : Type}.

(** From any running report, [m] enters a prefix of [l], all of it when it succeeds. *)
Definition tracks {A} (m : M R T A) (l : list Stage) : Prop :=
  forall w entered, progress (report w) entered -> (length entered + length l <= MAX_STAGES)%nat ->
  exists l', l' `prefix_of` l /\ progress (report (m w).2) (entered ++ l') /\ (forall a, (m w).1 = Ok a -> l' = l).

Lemma tracks_quiet {A} (m : M R T A) :
  (forall w entered, progress (report w) entered -> progress (report (m w).2) entered) -> tracks m [].
Proof. intros Hm w entered Hp _. exists []. rewrite app_nil_r. split; [done|]. split; [by apply Hm|done]. Qed.

Lemma tracks_keep {A} (m : M R T A) : (forall w, report (m w).2 = report w) -> tracks m [].
Proof. intros Hm. apply tracks_quiet. intros w entered Hp. by rewrite Hm. Qed.

Lemma tracks_bind {A B} (m : M R T A) (f : A -> M R T B) l1 l2 :
  tracks m l1 -> (forall a, tracks (f a) l2) -> tracks (m ≫= f) (l1 ++ l2).
Proof.
  intros Hm Hf w entered Hp Hroom. rewrite length_app in Hroom. unfold mbind, M_bind.
  destruct (Hm w entered Hp) as (l1' & Hpre & Hp1 & Hok); [lia|]. destruct (m w) as [[a|e] w1]; simpl in *.
  - rewrite (Hok a eq_refl) in Hp1.
    destruct (Hf a w1 (entered ++ l1) Hp1) as (l2' & Hpre2 & Hp2 & Hok2); [rewrite length_app; lia|].
    exists (l1 ++ l2'). split_and!.
    + by apply prefix_app.
    + by rewrite app_assoc.
    + intros b Hb. by rewrite (Hok2 b Hb).
  - exists l1'. split_and!; try done. by apply prefix_app_r.
Qed.

Lemma tracks_then {A B} (m : M R T A) (f : A -> M R T B) l :
  tracks m [] -> (forall a, tracks (f a) l) -> tracks (m ≫= f) l.
Proof. intros Hm Hf. exact (tracks_bind m f [] l Hm Hf). Qed.

Lemma tracks_throw {A} e l : tracks (throw (A := A) e) l.
Proof.
  intros w entered Hp _. exists []. rewrite app_nil_r. split; [apply prefix_nil|]. by split.
Qed.

Lemma tracks_if {A} (b : bool) (m m' : M R T A) l : tracks m l -> tracks m' l -> tracks (if b then m else m') l.
Proof. by destruct b. Qed.

Lemma tracks_enter clock st : tracks (enter_stage clock st) [st].
Proof.
  intros w entered Hp Hroom. exists [st]. split; [done|]. split; [|done]. simpl.
  apply progress_enter; [done|]. simpl in Hroom. lia.
Qed.

Lemma tracks_report f : (forall r entered, progress r entered -> progress (f r) entered) ->
  tracks (update_report f) [].
Proof. intros Hf. apply tracks_quiet. intros w entered. apply Hf. Qed.

Lemma tracks_observe_since clock index outcome started : tracks (observe_since clock index outcome started) [].
Proof. apply tracks_quiet. intros w entered. apply progress_observe. Qed.
End Tracks.

(** Steps that only read the clock, the generator or pure results. *)
Ltac quiet := apply tracks_keep; intros ?;
  unfold fresh_secret, derive, check_deadline, session_call, gate_call_ok, runtime;
  unfold mbind, M_bind, now, draw, of_result, of_policy, seal_device, unseal_device;
  repeat case_match; simplify_eq/=; done.

(** Consume one step of a run. *)
Ltac track :=
  lazymatch goal with
  | |- tracks (enter_stage _ ?s ≫= _) (?s :: ?l) => apply (tracks_bind _ _ [s] l); [apply tracks_enter|intros _]
  | |- tracks (_ ≫= _) _ => apply tracks_then; [first [solve [auto with leelo] | quiet]|intros ?]
  | |- tracks (throw _) _ => apply tracks_throw
  | |- tracks (if _ then _ else _) _ => apply tracks_if
  | |- tracks (mret _) [] => quiet
  end.

#[export] Hint Resolve tracks_observe_since : leelo.

Section EngineTracks.
Context `{Primitives} `{Cbor}.
Context {R T : Type} `{Rng R} `{TpmProvider T}.
Context (clock : nat -> Z) (runtime_ok : bool).

Lemma tracks_configure m bs : tracks (R := R) (T := T) (update_report (fun r => configure r m bs)) [].
Proof. apply tracks_report. intros r entered. apply progress_configure. Qed.
Hint Resolve tracks_configure : leelo.

Lemma tracks_mark_started st index : tracks (R := R) (T := T) (mark_started clock st index) [].
Proof. unfold mark_started. destruct (start_of _ _); quiet. Qed.

Lemma tracks_observe_completion d st binding outcome :
  tracks (R := R) (T := T) (observe_completion clock d st binding outcome) [].
Proof.
  unfold observe_completion. destruct (binding_position _ _); [|quiet].
  destruct (start_of _ _); [auto with leelo|]. apply tracks_report. intros r entered. apply progress_observe.
Qed.

Lemma tracks_cancel starts : forall index outcome,
  tracks (R := R) (T := T) (cancel_from clock index starts outcome) [].
Proof.
  induction starts as [|start starts IH]; intros index outcome; [quiet|]. cbn [cancel_from]. track.
  apply tracks_then; [destruct a, start; auto with leelo; quiet|]. intros _. apply IH.
Qed.
Hint Resolve tracks_mark_started tracks_observe_completion tracks_cancel : leelo.

#[local] Opaque recover_leaf network_satisfied recover_network.

Lemma tracks_complete envelope st position rng net :
  tracks (R := R) (T := T) (complete clock envelope st position rng net) [].
Proof.
  unfold complete, cancel_observations. destruct (_ !! _) as [[index binding]|]; [|quiet]. do 2 track.
  generalize (settle a position binding (recover_leaf envelope binding rng net)). intros st2.
  destruct (network_satisfied _ _) as [[]|e]; [|quiet|track; quiet]. do 3 track.
Qed.
Hint Resolve tracks_complete : leelo.

Lemma tracks_loop envelope schedule : forall st,
  tracks (R := R) (T := T) (recovery_loop clock envelope schedule st) [].
Proof.
  induction schedule as [|ev schedule IH]; intros st; cbn [recovery_loop]; destruct (in_flight st) as [|e fl];
    try apply tracks_throw; unfold deadline_reached, cancel_observations.
  { do 2 track. }
  destruct ev as [k|k rng net|]; [|track|do 2 track].
  - destruct (_ !! _) as [[index binding]|]; [|done]. by track.
  - destruct a; [done|quiet].
Qed.

Lemma tracks_recover envelope schedule :
  tracks (R := R) (T := T) (recover_network_observed clock envelope schedule) [].
Proof. apply tracks_loop. Qed.

Lemma tracks_wrap_leaf d ctx net index share b :
  tracks (R := R) (T := T) (wrap_leaf clock d ctx net index share b) [].
Proof.
  unfold wrap_leaf. destruct share as [id secret]. track; [track|]. do 2 track. destruct a0 as [[key|kind]|]; [|do 2 track..].
  track. destruct a0 as [value|e]; [|do 2 track]. destruct (open_key _ _ _); [|do 2 track].
  track; do 2 track.
Qed.
Hint Resolve tracks_wrap_leaf : leelo.

Lemma tracks_wrap_leaves d ctx net shares : forall index bs,
  tracks (R := R) (T := T) (wrap_leaves clock d ctx net index shares bs) [].
Proof.
  induction shares as [|share shares IH]; intros index bs; [quiet|]. cbn [wrap_leaves]. destruct bs; [quiet|].
  track. apply tracks_then; [apply IH|]. intros rest. track.
Qed.
Hint Resolve tracks_wrap_leaves tracks_recover : leelo.

Lemma tracks_accept_all ids : forall session, tracks (R := R) (T := T) (accept_all session ids) [].
Proof. induction ids as [|id ids IH]; intros session; [quiet|]. cbn [accept_all]. by track. Qed.
Hint Resolve tracks_accept_all : leelo.

Definition prepare_stages : list Stage := [TpmSeal; ShareGeneration; Network; PreparePayload].
Definition unlock_stages : list Stage := [Network; TpmUnseal; AuthenticatePayload].

Lemma tracks_prepare d signer net : tracks (R := R) (T := T) (prepare_inner clock runtime_ok d signer net) prepare_stages.
Proof. unfold prepare_inner, prepare_stages. repeat track. Qed.

Lemma tracks_authenticate_tpm unsealed envelope : tracks (R := R) (T := T) (authenticate_tpm unsealed envelope) [].
Proof. unfold authenticate_tpm. repeat track. Qed.

Lemma tracks_authenticate_payload root envelope : tracks (R := R) (T := T) (authenticate_payload root envelope) [].
Proof. unfold authenticate_payload. repeat track. Qed.
Hint Resolve tracks_authenticate_tpm tracks_authenticate_payload : leelo.

Lemma tracks_begin raw signer volume expected deadline :
  tracks (R := R) (T := T) (begin_unlock clock raw signer volume expected deadline) [].
Proof. unfold begin_unlock. repeat track. Qed.

Lemma tracks_release operation share diags tev session gate :
  tracks (R := R) (T := T) (release_phase clock operation share diags tev session gate) [].
Proof.
  unfold release_phase. do 9 track. destruct (gate_release _ _ _) as [ok g]. repeat track.
Qed.

Lemma tracks_run operation schedule :
  tracks (R := R) (T := T) (run_unlock clock runtime_ok operation schedule) unlock_stages.
Proof.
  unfold run_unlock, unlock_stages. do 3 track. destruct a0 as [[share diags] ids]. repeat track.
  all: try apply tracks_release.
Qed.

Lemma tracks_unlock raw signer volume expected deadline schedule :
  tracks (R := R) (T := T) (unlock_before_observed clock runtime_ok raw signer volume expected deadline schedule) unlock_stages.
Proof. unfold unlock_before_observed. apply tracks_then; [apply tracks_begin|]. intros op. apply tracks_run. Qed.
End EngineTracks.

(** * Panic freedom *)

Section Safe.
Context {R T : Type}.

(** Every result of [m] is a value satisfying [P] or an error value, never an index panic. *)
Definition safe {A} (m : M R T A) (P : A -> Prop) : Prop :=
  forall w, match (m w).1 with Ok a => P a | Err (Fault _) => True | Err Panic => False end.

Lemma safe_bind {A B} (m : M R T A) (f : A -> M R T B) P Q :
  safe m P -> (forall a, P a -> safe (f a) Q) -> safe (m ≫= f) Q.
Proof.
  intros Hm Hf w. unfold mbind, M_bind. specialize (Hm w). destruct (m w) as [[a|[e|]] w1]; simpl in *; [|done|done].
  by apply Hf.
Qed.

Lemma safe_ret {A} (a : A) (P : A -> Prop) : P a -> safe (mret a) P.
Proof. by intros Ha w. Qed.

Lemma safe_throw {A} e (P : A -> Prop) : safe (throw e) P.
Proof. by intros w. Qed.

Lemma safe_result {E A} (f : E -> EngineError.Error) (r : result E A) : safe (of_result f r) (fun a => r = Ok a).
Proof. intros w. unfold of_result. by destruct r. Qed.

Lemma safe_if {A} (b : bool) (m m' : M R T A) P : safe m P -> safe m' P -> safe (if b then m else m') P.
Proof. by destruct b. Qed.

Lemma safe_indexed {A} (o : option A) : is_Some o -> safe (fun w => (indexed o, w)) (fun a => o = Some a).
Proof. intros [a ->] w. done. Qed.

Lemma safe_policy {A} (r : result (fault PolicyError) A) : r <> Err Panic -> safe (of_policy r) (fun _ => True).
Proof.
  intros Hr w. unfold of_policy. destruct r as [a|[e|]]; [done| |done]. simpl.
  destruct e as [| | | | | | | | | | | |err]; try done; by destruct err.
Qed.

Lemma safe_session r : safe (session_call r) (fun _ => True).
Proof. destruct r as [[[]|e] s]; [done|]. by apply safe_policy. Qed.

Lemma safe_gate r : safe (gate_call_ok r) (fun _ => True).
Proof. by destruct r as [[] g]. Qed.
End Safe.

(** One step of a panic-freedom proof: steps whose errors are all values. *)
Ltac calm := intros ?; unfold fresh_secret, derive, check_deadline, runtime;
  unfold mbind, M_bind, now, draw, of_result, seal_device, unseal_device; repeat case_match; simplify_eq/=; done.
Ltac safely :=
  lazymatch goal with
  | |- safe (session_call _ ≫= _) _ => eapply safe_bind; [apply safe_session|intros ? _]
  | |- safe (gate_call_ok _ ≫= _) _ => eapply safe_bind; [apply safe_gate|intros ? _]
  | |- safe (of_result _ _ ≫= _) _ => eapply safe_bind; [apply safe_result|intros ? ?]
  | |- safe (derive _ _ _ ≫= _) _ => eapply safe_bind; [apply safe_result|intros ? ?]
  | |- safe (_ ≫= _) _ => eapply (safe_bind _ _ (fun _ => True)); [solve [auto with leelo] || calm|intros ? _]
  | |- safe (throw _) _ => apply safe_throw
  | |- safe (mret _) _ => apply safe_ret; exact I
  | |- safe (if _ then _ else _) _ => apply safe_if
  end.

Section EngineSafe.
Context `{Primitives} `{Cbor}.
Context {R T : Type} `{Rng R} `{TpmProvider T}.
Context (clock : nat -> Z) (runtime_ok : bool).
#[local] Opaque recover_leaf network_satisfied recover_network.

Lemma safe_unseal envelope : safe (R := R) (T := T) (unseal_device envelope) (fun _ => True).
Proof. intros w. unfold unseal_device. by destruct (tpm_unseal _ _) as [[u|e] t]. Qed.

Lemma safe_seal d seed : safe (R := R) (T := T) (seal_device d seed) (fun _ => True).
Proof. intros w. unfold seal_device. by destruct (tpm_seal _ _ _) as [[u|e] t]. Qed.

Lemma safe_draw {E A} (f : E -> EngineError.Error) (op : R -> result E A * R) :
  safe (R := R) (T := T) (draw f op) (fun a => exists rng rng', op rng = (Ok a, rng')).
Proof. intros w. unfold draw. destruct (op (entropy w)) as [[a|e] r] eqn:Eo; [|done]. simpl. by eexists _, _. Qed.
Hint Resolve safe_unseal safe_seal : leelo.

Lemma safe_cancel starts : forall index outcome,
  safe (R := R) (T := T) (cancel_from clock index starts outcome) (fun _ => True).
Proof.
  induction starts as [|start starts IH]; intros index outcome; [done|]. cbn [cancel_from]. safely.
  apply (safe_bind _ _ (fun _ => True)); [destruct a, start; calm|]. intros _ _. apply IH.
Qed.
Hint Resolve safe_cancel : leelo.

Lemma safe_mark st index : safe (R := R) (T := T) (mark_started clock st index) (fun _ => True).
Proof. unfold mark_started. destruct (start_of _ _); calm. Qed.

Lemma safe_observe d st binding outcome :
  safe (R := R) (T := T) (observe_completion clock d st binding outcome) (fun _ => True).
Proof. unfold observe_completion. destruct (binding_position _ _); [destruct (start_of _ _)|]; calm. Qed.
Hint Resolve safe_mark safe_observe : leelo.

Lemma safe_complete envelope st position rng net :
  policy_ok (policy (descriptor (body envelope))) ->
  safe (R := R) (T := T) (complete clock envelope st position rng net) (fun _ => True).
Proof.
  intros Hp. unfold complete, cancel_observations. destruct (_ !! _) as [[index binding]|]; [|done]. do 2 safely.
  generalize (settle a position binding (recover_leaf envelope binding rng net)). intros st2.
  destruct (network_satisfied _ _) as [[]|e]; [|done|safely; by apply safe_policy].
  safely. eapply safe_bind; [apply safe_policy|by intros]. by apply (network_never_panics _ [] ([] : tape)).
Qed.

Lemma safe_loop envelope schedule : policy_ok (policy (descriptor (body envelope))) ->
  forall st, safe (R := R) (T := T) (recovery_loop clock envelope schedule st) (fun _ => True).
Proof.
  intros Hp. induction schedule as [|ev schedule IH]; intros st; cbn [recovery_loop]; destruct (in_flight st) as [|e fl];
    try apply safe_throw; unfold deadline_reached, cancel_observations.
  { do 2 safely. }
  destruct ev as [k|k rng net|]; [| |do 2 safely].
  - destruct (_ !! _) as [[index binding]|]; [|done]. safely. apply IH.
  - eapply safe_bind; [by apply safe_complete|]. intros [st'|o] _; [apply IH|done].
Qed.

Lemma safe_accept_all ids : forall session, safe (R := R) (T := T) (accept_all session ids) (fun _ => True).
Proof. induction ids as [|id ids IH]; intros session; [done|]. cbn [accept_all]. safely. apply IH. Qed.
Hint Resolve safe_accept_all : leelo.

Lemma safe_tpm unsealed envelope : body_valid (body envelope) ->
  safe (R := R) (T := T) (authenticate_tpm unsealed envelope) (fun _ => True).
Proof.
  intros (_ & _ & _ & _ & _ & Hids). unfold authenticate_tpm. safely; [safely|]. safely.
  eapply safe_bind; [apply safe_indexed|intros leaf _; by do 2 safely].
  destruct (body_leaves (body envelope)) as [|leaf rest]; [done|by exists leaf].
Qed.

Lemma safe_release operation share diags tev session gate :
  safe (R := R) (T := T) (release_phase clock operation share diags tev session gate) (fun _ => True).
Proof.
  unfold release_phase. do 3 safely.
  eapply (safe_bind _ _ (fun _ => True)); [unfold authenticate_payload; do 3 safely|intros ? _].
  do 5 safely. destruct (gate_release _ _ _) as [ok g]. repeat safely.
Qed.

Lemma safe_run operation schedule :
  policy_ok (policy (descriptor (body (op_envelope operation)))) -> body_valid (body (op_envelope operation)) ->
  safe (R := R) (T := T) (run_unlock clock runtime_ok operation schedule) (fun _ => True).
Proof.
  intros Hp Hv. unfold run_unlock. do 2 safely.
  eapply safe_bind; [apply (safe_loop _ _ Hp)|]. intros [[share diags] ids] _. do 7 safely.
  eapply safe_bind; [by apply safe_tpm|]. intros tev _.
  eapply (safe_bind _ _ (fun _ => True)); [destruct (tpm_ev_live tev); [apply safe_session|done]|intros ? _].
  do 2 safely. apply safe_release.
Qed.
End EngineSafe.

Section Observed.
Context `{PrimitiveLaws} `{CborLaws}.
Context {R T : Type} `{RngSound R} `{TpmProvider T}.
Context (clock : nat -> Z) (runtime_ok : bool).
#[local] Opaque recover_leaf network_satisfied recover_network split_network.

Hint Resolve safe_seal safe_unseal : leelo.

Lemma safe_unlock raw signer volume expected deadline schedule :
  byte_slice raw ->
  safe (R := R) (T := T) (unlock_before_observed clock runtime_ok raw signer volume expected deadline schedule) (fun _ => True).
Proof.
  intros Hraw. unfold unlock_before_observed.
  apply (safe_bind _ _ (fun op => authenticate raw signer = Ok (op_envelope op))).
  - unfold begin_unlock. safely. do 2 safely; [safely|]. do 2 safely; [safely|]. do 2 safely. by apply safe_ret.
  - intros op Hauth. destruct (authenticate_sound _ _ _ Hraw Hauth) as (_ & _ & _ & _ & _ & Hty & Hval & _).
    apply safe_run; [apply Hty|done].
Qed.

Lemma safe_wrap_leaf d ctx net index share b :
  safe (R := R) (T := T) (wrap_leaf clock d ctx net index share b) (fun _ => True).
Proof.
  unfold wrap_leaf. destruct share as [id secret]. safely; [safely|]. do 2 safely.
  destruct a0 as [[key|kind]|]; [|do 2 safely..]. safely. destruct a0 as [value|e]; [|do 2 safely].
  destruct (open_key _ _ _); [|do 2 safely]. safely; do 2 safely.
Qed.
Hint Resolve safe_wrap_leaf : leelo.

Lemma safe_wrap_leaves d ctx net shares : forall index bs,
  safe (R := R) (T := T) (wrap_leaves clock d ctx net index shares bs) (fun _ => True).
Proof.
  induction shares as [|share shares IH]; intros index bs; [done|]. cbn [wrap_leaves]. destruct bs; [done|].
  safely. apply (safe_bind _ _ (fun _ => True)); [apply IH|]. intros rest _. safely.
Qed.
Hint Resolve safe_wrap_leaves : leelo.

Lemma safe_fresh : safe (R := R) (T := T) fresh_secret (byte_array 32).
Proof.
  intros w. pose proof (safe_draw (R := R) (T := T) (fun _ : CryptoError.Error => EngineError.Crypto) (random_bytes 32) w) as Hd.
  unfold fresh_secret. destruct (draw _ _ w) as [[a|[e|]] w']; simpl in *; try done.
  destruct Hd as (rng & rng' & Hr). by eapply random_bytes_Ok.
Qed.

Lemma safe_split_network policy secret :
  policy_ok policy ->
  safe (R := R) (T := T) (fun w => let '(r, rng) := split_network policy secret (entropy w) in
    (map_err policy_error r, mk_world rng (device w) (ticks w) (report w))) (fun _ => True).
Proof.
  intros Hp w. destruct (network_never_panics policy secret (entropy w) [] Hp) as [Hs _].
  destruct (split_network policy secret (entropy w)) as [r rng]. exact (safe_policy r Hs w).
Qed.

Lemma safe_prepare d signer net :
  policy_ok (policy d) ->
  safe (R := R) (T := T) (prepare_inner clock runtime_ok d signer net) (fun _ => True).
Proof.
  intros Hp. unfold prepare_inner. do 4 safely. safely; [safely|]. safely.
  eapply safe_bind; [apply safe_fresh|intros cred _]. eapply safe_bind; [apply safe_fresh|intros root Hroot].
  eapply safe_bind; [apply safe_draw|intros shares (rng & rng' & Hsp)].
  destruct (root_shares_Ok _ _ _ _ Hroot Hsp) as (s1 & s2 & -> & _).
  eapply safe_bind; [apply safe_fresh|intros tseed _]. do 5 safely.
  eapply safe_bind; [by apply safe_indexed; eexists|intros f1 _].
  eapply safe_bind; [apply safe_draw|intros tvalue _].
  eapply safe_bind; [by apply safe_indexed; eexists|intros f2 _].
  eapply safe_bind; [by apply safe_split_network|intros nshares _].
  eapply safe_bind; [apply safe_policy, (network_never_panics _ [] ([] : tape) nshares Hp)|intros rec _].
  safely; [safely|]. do 4 safely. eapply safe_bind; [apply safe_draw|intros pay _]. repeat safely.
Qed.

(** [begin], the operation and [finish] together. *)
Lemma observed_reports {A} ph (m : M R T A) l w :
  safe m (fun _ => True) -> tracks m l -> (length l < MAX_STAGES)%nat ->
  let '(r, w') := observed_operation clock ph m w in
  r <> Err Panic /\ exists l', l' `prefix_of` l /\ (forall a, r = Ok a -> l' = l) /\
    finished_report (report w') (Validate :: l')
      (match r with Err (Fault e) => Some (from_error e) | _ => None end).
Proof.
  intros Hsafe Htr Hroom. unfold observed_operation.
  set (w1 := mk_world _ _ _ _). destruct (Htr w1 [Validate]) as (l' & Hpre & Hp & Hok); [apply progress_begin|simpl; lia|].
  specialize (Hsafe w1). destruct (m w1) as [[a|[e|]] w2]; simpl in *; [| |done];
    (split; [done|]); exists l'; (split; [done|]); (split; [naive_solver|]); by apply progress_finish.
Qed.
End Observed.

(** * Properties *)

Section Claims.
Context `{PrimitiveLaws} `{CborLaws}.
Context {R T : Type} `{RngSound R} `{TpmProvider T}.

(** An unlock never panics on an index, whatever bytes it is given, and its report is faithful:
    the stages observed are validation followed by a prefix of network, TPM unseal and payload
    authentication (all of them on success), in order; every stage before the last is recorded as
    passed, the last carries the category of the returned error, as does the report. *)
Theorem unlock_report clock runtime_ok raw signer volume expected schedule (w : World R T) :
  byte_slice raw ->
  let '(r, w') := unlock_observed clock runtime_ok raw signer volume expected schedule w in
  r <> Err Panic /\ exists l, l `prefix_of` unlock_stages /\ (forall a, r = Ok a -> l = unlock_stages) /\
    finished_report (report w') (Validate :: l)
      (match r with Err (Fault e) => Some (from_error e) | _ => None end).
Proof.
  intros Hraw. apply observed_reports; [by apply safe_unlock|apply tracks_unlock|unfold MAX_STAGES; simpl; lia].
Qed.

(** An enrollment of a descriptor whose policy was built by the constructor never panics, and
    its report is faithful in the same sense, over the stages TPM seal, share generation, network
    and payload preparation. *)
Theorem prepare_report clock runtime_ok d signer net (w : World R T) :
  policy_ok (policy d) ->
  let '(r, w') := prepare_observed clock runtime_ok d signer net w in
  r <> Err Panic /\ exists l, l `prefix_of` prepare_stages /\ (forall a, r = Ok a -> l = prepare_stages) /\
    finished_report (report w') (Validate :: l)
      (match r with Err (Fault e) => Some (from_error e) | _ => None end).
Proof.
  intros Hp. apply observed_reports; [by apply safe_prepare|apply tracks_prepare|unfold MAX_STAGES; simpl; lia].
Qed.
End Claims.
