(* ===== verification/Demo.v ===== *)
(** Witnesses: one enrollment and one unlock evaluated end to end on the toy primitives, the
    reference CBOR codec, a counting generator and a TPM that keeps its seeds in the blob. Every
    hypothesis of the envelope, recovery and unlock properties holds on it. *)
From stdpp Require Import base list strings.
From Stdlib Require Import ZArith Lia.
From S2P Require Import Prelude Gf256 Sss Plan Policy Session Release Crypto ToyCrypto Wire Cbor Envelope Observation Engine Recovery Unlock Enroll Report.
Import Cbor.Reference.

Open Scope Z_scope.

(** * A generator and a TPM *)

Definition counter_bytes (c : Z) (n : nat) : list Z := map (fun i => (c * 31 + Z.of_nat i * 7 + 1) mod 256) (seq 0 n).

#[export] Instance counter_rng : Rng Z := fun c n => (Some (counter_bytes c n), c + 1).

#[export] Instance counter_rng_sound : RngSound Z.
Proof.
  intros c n bs c' [= <- _]. split; [unfold counter_bytes; by rewrite length_map, length_seq|].
  apply Forall_map, Forall_true. intros i. apply mod256_u8.
Qed.

Record toy_device : Type := mk_toy_device { uses : nat }.

#[export] Instance toy_tpm : TpmProvider toy_device := {|
  supports_mode _ _ := true;
  tpm_seal t d seed :=
    (if bool_decide (byte_slice seed) then Ok (mk_tpm_blob [1] seed [2] [3]) else Err EngineError.Crypto,
     mk_toy_device (S (uses t)));
  tpm_unseal t envelope :=
    (Ok (mk_unsealed (tpm_private (tpm (body envelope))) FreshSessionAuthorization), mk_toy_device (S (uses t)));
|}.

#[export] Instance toy_tpm_laws : TpmLaws toy_device.
Proof.
  refine {| seals := fun _ _ blob seed => tpm_private blob = seed; holds := fun _ _ blob seed => tpm_private blob = seed |}.
  - intros t d seed blob t' _. simpl. case_bool_decide as Hs; [|done]. intros [= <- <-].
    split; [done|]. simpl. split_and!; [decided|done|decided|decided].
  - intros t envelope seed <-. by do 2 eexists.
Defined.

Lemma toy_holds (t t' : toy_device) d blob sd : seals t d blob sd -> holds t' d blob sd.
Proof. intros E. exact E. Qed.

(** * An enrollment *)

Definition demo_server (n : Z) : server := to_elem (replicate 49 n).
Definition demo_binding (n : Z) : NetworkBinding :=
  mk_binding n (demo_provider n) (key_id (server_public_key (demo_server n)))
    (server_public_key (demo_server n)) (replicate 32 (n + 40)).
Definition demo_server_of (b : NetworkBinding) : server := to_elem (public_key b).

Definition demo_descriptor : Descriptor :=
  mk_descriptor (replicate 32 9) (replicate 16 8) 3 1 demo_policy (map demo_binding [1; 2; 3; 4]) 7 (replicate 32 5).

Definition demo_signer : SecretSigningKey := mk_signing_key (replicate 32 6).

Definition demo_net (index : nat) (b : NetworkBinding) (p : list Z) : option (result NetworkFailure Evaluation) :=
  Some (map_err (fun _ => Timeout) (evaluate_with_entropy (demo_server_of b) p 500).1).

Definition demo_clock (n : nat) : Z := 0.
Definition demo_world : World Z toy_device := mk_world 0 (mk_toy_device 0) 0 (new_report Prepare).

Definition demo_enrollment : result (fault EngineError.Error) PreparedEnrollment * World Z toy_device :=
  prepare_observed demo_clock true demo_descriptor demo_signer demo_net demo_world.
Definition prepared_of (r : result (fault EngineError.Error) PreparedEnrollment) : PreparedEnrollment :=
  match r with Ok p => p | Err _ => mk_prepared [] [] end.
Definition demo_prepared : PreparedEnrollment := prepared_of (fst demo_enrollment).

Definition demo_world' : World Z toy_device := snd demo_enrollment.

Lemma demo_enrolls :
  prepare_observed demo_clock true demo_descriptor demo_signer demo_net demo_world = (Ok demo_prepared, demo_world').
Proof. vm_compute. reflexivity. Qed.

Lemma demo_descriptor_typed : descriptor_typed demo_descriptor.
Proof.
  unfold descriptor_typed. split; [decided|]. split; [decided|]. split; [done|]. split; [done|].
  split; [apply demo_policy_ok|]. split; [done|]. split; [|split; [done|decided]].
  repeat (constructor; [split; [done|]; split; [decided|]; split; [decided|]; split; [decided|decided]|]). constructor.
Qed.

Definition envelope_of (r : result EnvelopeError.Error AuthenticatedEnvelope) : AuthenticatedEnvelope :=
  match r with
  | Ok env => env
  | Err _ => mk_authenticated (mk_body demo_descriptor (mk_tpm_blob [] [] [] []) [] (mk_wrapped [] [])) []
  end.
Definition demo_raw : list Z := prepared_envelope demo_prepared.
Definition demo_public : list Z := signing_public_key demo_signer.
Definition demo_envelope : AuthenticatedEnvelope := envelope_of (authenticate demo_raw demo_public).

Lemma demo_authenticates : authenticate demo_raw demo_public = Ok demo_envelope.
Proof. vm_compute. reflexivity. Qed.

Lemma demo_raw_bytes : byte_slice demo_raw.
Proof. decided. Qed.

Lemma demo_body_sound : body_typed (body demo_envelope) /\ body_valid (body demo_envelope).
Proof.
  destruct (authenticate_sound _ _ _ demo_raw_bytes demo_authenticates) as (bytes & signature & _ & _ & _ & Ht & Hv & _).
  split; [exact Ht|exact Hv].
Qed.

Lemma demo_ready : network_ready demo_envelope.
Proof. destruct demo_body_sound as [Ht Hv]. apply body_network_ready; [exact Ht|exact Hv]. Qed.

(** * Envelope *)

Definition demo_descriptor_bytes : list Z := put_descriptor demo_descriptor.

Lemma descriptor_codec_exact_witness : read_descriptor demo_descriptor_bytes = Ok demo_descriptor.
Proof.
  apply (proj2 (descriptor_codec_exact demo_descriptor demo_descriptor_bytes demo_descriptor_typed)).
  vm_compute. reflexivity.
Defined.

Definition demo_body_bytes : list Z := put_body demo_descriptor_bytes (body demo_envelope).

Lemma body_codec_exact_witness : read_body demo_body_bytes = Ok (body demo_envelope).
Proof.
  apply (proj2 (proj1 (body_codec_exact (body demo_envelope) demo_body_bytes (proj1 demo_body_sound)))).
  vm_compute. reflexivity.
Defined.

Lemma sign_then_authenticate_witness :
  len demo_raw <= MAX_ENVELOPE /\
  exists ctx, context_hash (descriptor (body demo_envelope)) = Ok ctx /\
    authenticate demo_raw demo_public = Ok (mk_authenticated (body demo_envelope) ctx).
Proof.
  apply (sign_then_authenticate (body demo_envelope) demo_signer demo_raw).
  - exact (proj1 demo_body_sound).
  - decided.
  - vm_compute. reflexivity.
Defined.

Lemma authenticate_only_signed_witness :
  exists bytes signature, demo_raw = put_signed bytes signature /\
    verify demo_public (sign_input bytes) signature = Ok tt.
Proof.
  destruct (authenticate_only_signed demo_raw demo_public demo_envelope demo_raw_bytes demo_authenticates)
    as (bytes & signature & E & V & _).
  exists bytes, signature. split; [exact E|exact V].
Defined.

(** * Recovery *)

(** Providers 1 and 4 are up. *)
Definition demo_up (b : NetworkBinding) : bool := Z.eqb (node_id b) 1 || Z.eqb (node_id b) 4.

Definition demo_reply : answer := fun b p =>
  if demo_up b then map_err (fun _ => Timeout) (evaluate_with_entropy (demo_server_of b) p 700).1
  else Err Timeout.

Definition demo_schedule : list (@event Z) :=
  [Started 1; Completes 3 900 demo_reply; Completes 1 910 demo_reply; Completes 1 920 demo_reply;
   Completes 0 930 demo_reply].

Definition demo_unlock_world : World Z toy_device := mk_world 40 (mk_toy_device 5) 0 (new_report Recover).

(** The blinded point of an up provider is answered. *)
Definition answers (b : NetworkBinding) (rng : Z) : bool :=
  match fst (blind_with_entropy (network_input demo_descriptor b) rng) with
  | Ok (_, p) => match demo_reply b p with Ok _ => true | Err _ => false end
  | Err _ => false
  end.

Lemma answers_spec b rng :
  demo_up b = true -> answers b rng = true ->
  exists st p rng' ev, blind_with_entropy (network_input demo_descriptor b) rng = (Ok (st, p), rng') /\
    demo_reply b p = Ok ev /\ evaluated (R := Z) demo_server_of b p ev.
Proof.
  unfold answers. intros Hup Ha.
  destruct (blind_with_entropy (network_input demo_descriptor b) rng) as [[[st p]|e] rng']; [|done]. cbn [fst] in Ha.
  destruct (demo_reply b p) as [ev|e] eqn:Er; [|done]. exists st, p, rng', ev. split; [done|]. split; [exact Er|].
  unfold demo_reply in Er. rewrite Hup in Er.
  destruct (evaluate_with_entropy (demo_server_of b) p 700) as [[ev'|e] rng2] eqn:Ee; [|done].
  injection Er as ->. exists 700, rng2. exact Ee.
Qed.

Lemma demo_events k rng reply :
  Completes k rng reply ∈ demo_schedule -> reply = demo_reply /\ rng ∈ [900; 910; 920; 930].
Proof.
  unfold demo_schedule. rewrite !elem_of_cons, elem_of_nil.
  intros [E|[E|[E|[E|[E|[]]]]]]; inversion E; subst; (split; [reflexivity|decided]).
Qed.

Lemma demo_answers : forallb (fun b => forallb (fun rng => negb (demo_up b) || answers b rng) [900; 910; 920; 930])
  (networks demo_descriptor) = true.
Proof. vm_compute. reflexivity. Qed.

Lemma demo_serving : serving demo_server_of demo_descriptor demo_up demo_schedule.
Proof.
  intros k rng reply b Hev Hb. apply demo_events in Hev as [-> Hrng]. destruct (demo_up b) eqn:Eup.
  - apply answers_spec; [exact Eup|]. pose proof demo_answers as Ha. rewrite forallb_forall in Ha.
    specialize (Ha b (proj1 (list_elem_of_In _ _) Hb)). rewrite forallb_forall in Ha.
    specialize (Ha rng (proj1 (list_elem_of_In _ _) Hrng)). by rewrite Eup in Ha.
  - intros p. exists Timeout. unfold demo_reply. by rewrite Eup.
Qed.

Lemma demo_keys b : b ∈ networks demo_descriptor -> public_key b = server_public_key (demo_server_of b).
Proof.
  cbn [networks demo_descriptor map]. intros Hb.
  repeat (apply elem_of_cons in Hb as [->|Hb]; [vm_compute; reflexivity|]). by apply elem_of_nil in Hb.
Qed.

Lemma demo_net_honest i b p ev : demo_net i b p = Some (Ok ev) -> evaluated (R := Z) demo_server_of b p ev.
Proof.
  unfold demo_net. destruct (evaluate_with_entropy (demo_server_of b) p 500) as [[ev'|e] rng] eqn:E; [|done].
  intros [= <-]. exists 500, rng. exact E.
Qed.

Lemma demo_not_elapsed : Elapsed ∉ demo_schedule.
Proof.
  unfold demo_schedule. rewrite !not_elem_of_cons. repeat (split; [discriminate|]). apply not_elem_of_nil.
Qed.

Lemma enroll_then_unlock_witness :
  exists diags, (unlock_observed demo_clock true (prepared_envelope demo_prepared) (signing_public_key demo_signer)
    (volume_uuid demo_descriptor) (slot demo_descriptor) demo_schedule demo_unlock_world).1 =
    Ok (mk_unlock (prepared_credential demo_prepared) diags).
Proof.
  apply (enroll_then_unlock demo_clock true demo_clock demo_server_of demo_descriptor demo_signer demo_net demo_world
    demo_world' demo_prepared demo_up demo_schedule demo_unlock_world).
  - exact demo_descriptor_typed.
  - decided.
  - exact demo_keys.
  - exact demo_net_honest.
  - exact demo_enrolls.
  - exact (toy_holds (device demo_world') (device demo_unlock_world) demo_descriptor).
  - reflexivity.
  - intros n. reflexivity.
  - exact demo_serving.
  - exact demo_not_elapsed.
  - vm_compute. lia.
  - vm_compute. reflexivity.
Defined.

(** A successful run, with its result and world. *)
Definition run_value {A} (default : A) (r : result (fault EngineError.Error) A * World Z toy_device) : A :=
  match fst r with Ok a => a | Err _ => default end.

Definition demo_unlock : result (fault EngineError.Error) UnlockResult * World Z toy_device :=
  unlock_before_observed demo_clock true demo_raw demo_public (replicate 16 8) 3 OPERATION_BUDGET demo_schedule
    demo_unlock_world.
Definition demo_unlocked : UnlockResult := run_value (mk_unlock [] []) demo_unlock.
Definition demo_unlock_end : World Z toy_device := snd demo_unlock.

Lemma demo_unlocks :
  unlock_before_observed demo_clock true demo_raw demo_public (replicate 16 8) 3 OPERATION_BUDGET demo_schedule
    demo_unlock_world = (Ok demo_unlocked, demo_unlock_end).
Proof. vm_compute. reflexivity. Qed.

Lemma unlock_sound_witness :
  exists env root, authenticate demo_raw demo_public = Ok env /\ payload_opens env root (credential demo_unlocked).
Proof.
  destruct (unlock_sound demo_clock true demo_raw demo_public (replicate 16 8) 3 OPERATION_BUDGET demo_schedule
    demo_unlock_world demo_unlock_end demo_unlocked demo_raw_bytes demo_unlocks)
    as (env & share & tshare & root & ids & shares & unsealed & last & H1 & _ & _ & _ & _ & _ & _ & _ & _ & _ & _ & _ & _ & H2 & _).
  exists env, root. split; [exact H1|exact H2].
Defined.

Definition demo_recovery : result (fault EngineError.Error) (list Z * list ProviderFailure * list Z) * World Z toy_device :=
  recover_network_observed demo_clock demo_envelope demo_schedule demo_unlock_world.
Definition demo_network_share : list Z := fst (fst (run_value ([], [], []) demo_recovery)).
Definition demo_recovery_failures : list ProviderFailure := snd (fst (run_value ([], [], []) demo_recovery)).
Definition demo_recovery_ids : list Z := snd (run_value ([], [], []) demo_recovery).
Definition demo_recovery_end : World Z toy_device := snd demo_recovery.

Lemma demo_recovers : recover_network_observed demo_clock demo_envelope demo_schedule demo_unlock_world =
  (Ok (demo_network_share, demo_recovery_failures, demo_recovery_ids), demo_recovery_end).
Proof. vm_compute. reflexivity. Qed.

Lemma recovery_sound_witness :
  NoDup demo_recovery_ids /\ exists shares, map fst shares = demo_recovery_ids /\
    Forall (opened demo_envelope demo_schedule) shares.
Proof.
  destruct (recovery_sound demo_clock demo_envelope demo_schedule demo_unlock_world demo_network_share
    demo_recovery_failures demo_recovery_ids demo_recovery_end demo_ready demo_recovers)
    as (H1 & _ & _ & shares & H2 & H3 & _).
  split; [exact H1|]. exists shares. split; [exact H2|exact H3].
Defined.

(** ** The loop, one event at a time *)

Definition started_state : recovery :=
  run_value (initial_recovery demo_envelope)
    (mark_started demo_clock (initial_recovery demo_envelope) 1 demo_unlock_world).

Definition next_state (r : recovery + (list Z * list ProviderFailure * list Z)) : recovery :=
  match r with inl st => st | inr _ => initial_recovery demo_envelope end.

Definition first_completion
    : result (fault EngineError.Error) (recovery + (list Z * list ProviderFailure * list Z)) * World Z toy_device :=
  complete demo_clock demo_envelope started_state 3 900 demo_reply demo_unlock_world.

Definition completed_state : recovery := next_state (run_value (inl started_state) first_completion).

Lemma demo_loop_state :
  loop_state (R := Z) (T := toy_device) demo_clock demo_envelope
    (([] ++ [Started 1]) ++ [Completes 3 900 demo_reply]) completed_state.
Proof.
  eapply (loop_completed demo_clock demo_envelope ([] ++ [Started 1]) started_state 3 900 demo_reply demo_unlock_world
    completed_state (snd first_completion)).
  - eapply (loop_started demo_clock demo_envelope [] (initial_recovery demo_envelope) 1 1 (demo_binding 2) demo_unlock_world
      started_state (snd (mark_started demo_clock (initial_recovery demo_envelope) 1 demo_unlock_world))).
    + constructor.
    + vm_compute. reflexivity.
    + vm_compute. reflexivity.
  - vm_compute. discriminate.
  - vm_compute. reflexivity.
Qed.

Lemma recovery_accounting_witness : (length (in_flight completed_state) <= MAX_NETWORK_OPERATIONS)%nat.
Proof. exact (acc_limit _ _ _ (recovery_accounting demo_clock demo_envelope _ completed_state demo_loop_state)). Defined.

(** ** Deciding the policy *)

(** The generator when enrollment shared the network secret. *)
Definition demo_sharing_rng : Z := 36.
Definition demo_sharing : result (fault PolicyError) (list NetworkShare) * Z :=
  split_network (policy (descriptor (body demo_envelope))) demo_network_share demo_sharing_rng.
Definition shares_of (r : result (fault PolicyError) (list NetworkShare)) : list NetworkShare :=
  match r with Ok shares => shares | Err _ => [] end.
Definition demo_network_shares : list NetworkShare := shares_of (fst demo_sharing).

Lemma demo_shares_network :
  split_network (policy (descriptor (body demo_envelope))) demo_network_share demo_sharing_rng =
  (Ok demo_network_shares, snd demo_sharing).
Proof. vm_compute. reflexivity. Qed.

Definition leaf_answers (env : AuthenticatedEnvelope) (shares : list NetworkShare) (b : NetworkBinding) (rng : Z) : bool :=
  match recover_leaf env b rng demo_reply with
  | Ok share => demo_up b && bool_decide ((node_id b, share) ∈ shares)
  | Err _ => negb (demo_up b)
  end.

Lemma leaf_answers_schedule env shares :
  forallb (fun b => forallb (leaf_answers env shares b) [900; 910; 920; 930]) (networks (descriptor (body env))) = true ->
  answering env shares demo_up demo_schedule.
Proof.
  intros Ha k rng reply b Hev Hb. apply demo_events in Hev as [-> Hrng]. rewrite forallb_forall in Ha.
  specialize (Ha b (proj1 (list_elem_of_In _ _) Hb)). rewrite forallb_forall in Ha.
  specialize (Ha rng (proj1 (list_elem_of_In _ _) Hrng)). unfold leaf_answers in Ha.
  destruct (recover_leaf env b rng demo_reply) as [share|kind].
  - apply andb_true_iff in Ha as [Hup Hin]. apply bool_decide_eq_true in Hin. split; [exact Hup|exact Hin].
  - apply negb_true_iff in Ha. exact Ha.
Qed.

Lemma demo_answering : answering demo_envelope demo_network_shares demo_up demo_schedule.
Proof. apply leaf_answers_schedule. vm_compute. reflexivity. Qed.

Lemma recovery_decides_witness :
  if satisfied (up_ids (networks (descriptor (body demo_envelope))) demo_up)
       (network (policy (descriptor (body demo_envelope))))
  then exists fails ids w', recover_network_observed demo_clock demo_envelope demo_schedule demo_unlock_world =
    (Ok (demo_network_share, fails, ids), w')
  else exists fails w', recover_network_observed demo_clock demo_envelope demo_schedule demo_unlock_world =
    (Err (Fault (EngineError.InsufficientFactors fails)), w').
Proof.
  apply (recovery_decides demo_clock demo_envelope demo_schedule demo_unlock_world demo_network_share
    demo_sharing_rng (snd demo_sharing) demo_network_shares demo_up).
  - exact demo_ready.
  - decided.
  - exact demo_shares_network.
  - exact demo_answering.
  - exact demo_not_elapsed.
  - vm_compute. lia.
Defined.

(** * Reports *)

Lemma unlock_report_witness :
  (unlock_observed demo_clock true demo_raw demo_public (replicate 16 8) 3 demo_schedule demo_unlock_world).1 <> Err Panic.
Proof.
  pose proof (unlock_report demo_clock true demo_raw demo_public (replicate 16 8) 3 demo_schedule demo_unlock_world
    demo_raw_bytes) as H.
  destruct (unlock_observed demo_clock true demo_raw demo_public (replicate 16 8) 3 demo_schedule demo_unlock_world) as [r w'].
  exact (proj1 H).
Defined.

Lemma prepare_report_witness :
  (prepare_observed demo_clock true demo_descriptor demo_signer demo_net demo_world).1 <> Err Panic.
Proof.
  pose proof (prepare_report demo_clock true demo_descriptor demo_signer demo_net demo_world demo_policy_ok) as H.
  destruct (prepare_observed demo_clock true demo_descriptor demo_signer demo_net demo_world) as [r w'].
  exact (proj1 H).
Defined.
