(* ===== verification/Tpm.v ===== *)
(** The TPM adapter, [leelo-tpm/src/linux.rs]: sealing and unsealing of the enrolled seed under a PCR policy.
    The types and pure functions of [tss-esapi] are the classes [TssTypes] and [TssLibrary]; what it sends to
    the device are the values of [Command], answered by a [TssDevice]. Errors of the library are their debug
    texts, all that the adapter keeps of them. *)
From stdpp Require Import base list strings.
From Stdlib Require Import ZArith Lia.
From S2P Require Import Prelude Policy Crypto Cbor Envelope Observation Engine.

Open Scope Z_scope.

(** * The library *)

Inductive HashingAlgorithm : Type := Sha256 | OtherHash (code : Z).
Inductive PublicAlgorithm : Type := KeyedHashAlgorithm | EccAlgorithm.
Inductive KeyedHashScheme : Type := NullScheme | OtherScheme (code : Z).
Inductive SymmetricDefinition : Type := AES_128_CFB.
Inductive EccCurve : Type := NistP256.
Inductive Hierarchy : Type := Owner.
Inductive SessionType : Type := Hmac | PolicyAuth | Trial.
Inductive CommandCode : Type := UnsealCode.
Inductive ObjectFlag : Type :=
| FixedTpm | FixedParent | NoDa | AdminWithPolicy | UserWithAuth | SensitiveDataOrigin | Restricted
| DecryptFlag | SignEncrypt.

#[export] Instance HashingAlgorithm_eq_dec : EqDecision HashingAlgorithm.
Proof. solve_decision. Defined.
#[export] Instance KeyedHashScheme_eq_dec : EqDecision KeyedHashScheme.
Proof. solve_decision. Defined.
#[export] Instance SessionType_eq_dec : EqDecision SessionType.
Proof. solve_decision. Defined.

Class TssTypes : Type := {
  TctiNameConf : Type;
  PcrSlot : Type;
  PcrSelectionList : Type;
  ObjectAttributes : Type;
  EccParameters : Type;
  Public : Type;
  (** Handles of keys and sealed objects; sessions other than the password. *)
  Handle : Type;
  Session : Type;
  PolicySession : Type;
  selection_dec :: EqDecision PcrSelectionList;
  attributes_dec :: EqDecision ObjectAttributes;
  handle_dec :: EqDecision Handle;
  session_dec :: EqDecision Session;
  policy_session_dec :: EqDecision PolicySession;
}.

Section Data.
Context `{TssTypes}.

Inductive AuthSession : Type := Password | Auth (s : Session).
#[global] Instance AuthSession_eq_dec : EqDecision AuthSession.
Proof. solve_decision. Defined.

(** What a [PublicBuilder] is given. *)
Inductive PublicParameters : Type := KeyedHashParameters (s : KeyedHashScheme) | EccKeyParameters (p : EccParameters).
Inductive UniqueIdentifier : Type := KeyedHashUnique (d : list Z) | EccUnique (x y : list Z).
Record PublicBuilder : Type := mk_public_builder {
  with_public_algorithm : PublicAlgorithm;
  with_name_hashing_algorithm : HashingAlgorithm;
  with_object_attributes : ObjectAttributes;
  with_auth_policy : option (list Z);
  with_parameters : PublicParameters;
  with_unique_identifier : UniqueIdentifier;
}.

(** The variant [Public::KeyedHash]. *)
Record KeyedHashPublic : Type := mk_keyed_hash {
  object_attributes : ObjectAttributes;
  kh_name_hashing_algorithm : HashingAlgorithm;
  auth_policy : list Z;
  parameters : KeyedHashScheme;
  unique : list Z;
}.

Record SessionAttributes : Type := mk_session_attributes {
  continue_session : bool; session_decrypt : bool; session_encrypt : bool }.
End Data.

(** Builders, conversions and marshalling. [Digest], [SensitiveData] and [Private] are their bytes. *)
Class TssLibrary `{TssTypes} : Type := {
  sha256 : list Z -> list Z;
  tcti_from_str : string -> result string TctiNameConf;
  pcr_slot_try_from : Z -> result string PcrSlot;
  build_selection : HashingAlgorithm -> list PcrSlot -> result string PcrSelectionList;
  build_attributes : list (ObjectFlag * bool) -> result string ObjectAttributes;
  build_ecc_parameters : SymmetricDefinition -> EccCurve -> result string EccParameters;
  build_public : PublicBuilder -> result string Public;
  name_hashing_algorithm : Public -> HashingAlgorithm;
  as_keyed_hash : Public -> option KeyedHashPublic;
  marshall : Public -> result string (list Z);
  unmarshall : list Z -> result string Public;
  digest_try_from : list Z -> result string (list Z);
  sensitive_try_from : list Z -> result string (list Z);
  private_try_from : list Z -> result string (list Z);
  policy_try_from : AuthSession -> result string PolicySession;
}.

(** The calls of a [Context], with the session they are executed with; the index is the answer. *)
Inductive Command `{TssTypes} : Type -> Type :=
| ContextNew (tcti : TctiNameConf) : Command unit
| ContextDrop : Command unit
| PcrRead (selected : PcrSelectionList) : Command (Z * PcrSelectionList * list (list Z))
| CreatePrimary (session : AuthSession) (hierarchy : Hierarchy) (template : Public) : Command (Handle * Public)
| TrGetName (object : Handle) : Command (list Z)
| StartAuthSession (key : option Handle) (kind : SessionType) (symmetric : SymmetricDefinition)
    (hash : HashingAlgorithm) : Command (option AuthSession)
| TrSessSetAttributes (session : AuthSession) (attributes : SessionAttributes) : Command unit
| PolicyPcr (policy : PolicySession) (digest : list Z) (selected : PcrSelectionList) : Command unit
| PolicyCommandCode (policy : PolicySession) (code : CommandCode) : Command unit
| PolicyGetDigest (policy : PolicySession) : Command (list Z)
| FlushContext (session : AuthSession) : Command unit
| Create (session : AuthSession) (parent : Handle) (template : Public) (sensitive : list Z)
    : Command (Public * list Z)
| Load (session : AuthSession) (parent : Handle) (private : list Z) (public : Public) : Command Handle
| Unseal (session : AuthSession) (object : Handle) : Command (list Z).

Class TssDevice (T : Type) `{TssTypes} : Type :=
  exec : forall X, Command X -> T -> result string X * T.
Arguments exec {T _ _ X} _ _.

(** * Operations of the adapter *)

Definition Esys (T A : Type) : Type := T -> result EngineError.Error A * T.
#[export] Instance Esys_ret {T} : MRet (Esys T) := fun A a t => (Ok a, t).
#[export] Instance Esys_bind {T} : MBind (Esys T) := fun A B f m t =>
  match m t with
  | (Ok a, t') => f a t'
  | (Err e, t') => (Err e, t')
  end.

Definition tss_error (operation : string) (error : string) : EngineError.Error := EngineError.Tpm operation error.

Section Adapter.
Context `{TssLibrary} {T : Type} `{!TssDevice T}.

(** Results of library functions and calls, with the operation their error is reported under. *)
Definition of_tss {A} (operation : string) (r : result string A) : Esys T A := fun t =>
  (map_err (tss_error operation) r, t).
Definition call {A} (operation : string) (c : Command A) : Esys T A := fun t =>
  let '(r, t') := exec c t in (map_err (tss_error operation) r, t').
Definition reject {A} (what : string) : Esys T A := fun t => (Err (EngineError.Provider what), t).

(** A context is dropped on every way out of the operation that opened it. *)
Definition dropping {A} (operation : Esys T A) : Esys T A := fun t =>
  let '(r, t') := operation t in (r, (exec ContextDrop t').2).
Definition with_context {A} (tcti : TctiNameConf) (operation : Esys T A) : Esys T A :=
  _ ← call "context" (ContextNew tcti); dropping operation.

Definition validate_mask (mask : Z) : Esys T unit :=
  if (mask =? 0) || negb (Z.land mask 0xff000000 =? 0)
  then reject "PCR selection must use SHA256 PCRs 0 through 23" else mret tt.

(** The indices of a mask, in increasing order. *)
Definition mask_indices (mask : Z) : list Z :=
  filter (fun index => Z.land mask (Z.shiftl 1 index) <> 0) (seqZ 0 24).

(** [collect] into a [Result] of a vector: the first error wins. *)
Fixpoint collect {E A B} (f : A -> result E B) (l : list A) : result E (list B) :=
  match l with
  | [] => Ok []
  | a :: l => b ← f a; bs ← collect f l; Ok (b :: bs)
  end.

Definition selection (mask : Z) : Esys T PcrSelectionList :=
  _ ← validate_mask mask;
  slots ← of_tss "selection" (collect (fun index => pcr_slot_try_from (Z.shiftl 1 index)) (mask_indices mask));
  of_tss "selection" (build_selection Sha256 slots).

(** One round of the loop of [pcr_digest]: the counter and the hashed bytes. *)
Definition read_pcr (index : Z) (st : option Z * list Z) : Esys T (option Z * list Z) :=
  selected ← selection (Z.shiftl 1 index);
  '(current, returned, digests) ← call "pcr_digest" (PcrRead selected);
  match digests with
  | [digest] =>
      if negb (bool_decide (returned = selected)) || negb (length digest =? 32)%nat
      then reject "selected SHA256 PCR is unavailable"
      else if match st.1 with Some previous => negb (previous =? current) | None => false end
      then reject "PCR state changed during snapshot"
      else mret (Some current, st.2 ++ digest)
  | _ => reject "selected SHA256 PCR is unavailable"
  end.

Fixpoint read_pcrs (mask : Z) (indices : list Z) (st : option Z * list Z) : Esys T (option Z * list Z) :=
  match indices with
  | [] => mret st
  | index :: indices =>
      if Z.land mask (Z.shiftl 1 index) =? 0 then read_pcrs mask indices st
      else st ← read_pcr index st; read_pcrs mask indices st
  end.

Definition pcr_digest (tcti : TctiNameConf) (mask : Z) : Esys T (list Z) :=
  _ ← validate_mask mask;
  with_context tcti (
    '(_, hashed) ← read_pcrs mask (seqZ 0 24) (None, []);
    mret (sha256 hashed)).

Definition SEALED_FLAGS : list (ObjectFlag * bool) :=
  [(FixedTpm, true); (FixedParent, true); (NoDa, true); (AdminWithPolicy, true); (UserWithAuth, false);
   (SensitiveDataOrigin, false); (Restricted, false); (DecryptFlag, false); (SignEncrypt, false)].
Definition sealed_attributes : Esys T ObjectAttributes := of_tss "sealed_attributes" (build_attributes SEALED_FLAGS).

Definition sealed_public (policy : list Z) : Esys T Public :=
  attributes ← sealed_attributes;
  of_tss "sealed_public" (build_public (mk_public_builder KeyedHashAlgorithm Sha256 attributes (Some policy)
    (KeyedHashParameters NullScheme) (KeyedHashUnique []))).

Definition PARENT_FLAGS : list (ObjectFlag * bool) :=
  [(FixedTpm, true); (FixedParent, true); (SensitiveDataOrigin, true); (UserWithAuth, true); (NoDa, true);
   (Restricted, true); (DecryptFlag, true); (SignEncrypt, false)].
Definition parent_public : Esys T Public :=
  attributes ← of_tss "parent_public" (build_attributes PARENT_FLAGS);
  parameters ← of_tss "parent_public" (build_ecc_parameters AES_128_CFB NistP256);
  of_tss "parent_public" (build_public (mk_public_builder EccAlgorithm Sha256 attributes None
    (EccKeyParameters parameters) (EccUnique [] []))).

(** The Name of an object: the code of SHA-256, big endian, and the digest of its public area. *)
Definition sha256_name (public : Public) : Esys T (list Z) :=
  if negb (bool_decide (name_hashing_algorithm public = Sha256)) then reject "TPM object Name must use SHA256"
  else bytes ← of_tss "sha256_name" (marshall public); mret ([0x00; 0x0b] ++ sha256 bytes).

Definition create_parent : Esys T (Handle * list Z) :=
  template ← parent_public;
  '(key_handle, out_public) ← call "create_parent" (CreatePrimary Password Owner template);
  name ← sha256_name out_public;
  loaded ← call "create_parent" (TrGetName key_handle);
  if negb (bool_decide (loaded = name)) then reject "primary object Name mismatch"
  else mret (key_handle, name).

Definition start_session (parent : option Handle) (kind : SessionType) : Esys T AuthSession :=
  session ← call "start_session" (StartAuthSession parent kind AES_128_CFB Sha256);
  match session with
  | Some session => mret session
  | None => reject "TPM returned no session"
  end.

Definition set_protection (session : AuthSession) (decrypt encrypt : bool) : Esys T unit :=
  call "set_protection" (TrSessSetAttributes session (mk_session_attributes true decrypt encrypt)).

Definition apply_policy (session : AuthSession) (d : Descriptor) : Esys T PolicySession :=
  policy ← of_tss "apply_policy" (policy_try_from session);
  digest ← of_tss "apply_policy" (digest_try_from (tpm_pcr_digest d));
  selected ← selection (tpm_pcr_mask d);
  _ ← call "apply_policy" (PolicyPcr policy digest selected);
  _ ← call "apply_policy" (PolicyCommandCode policy UnsealCode);
  mret policy.

Definition expected_policy (d : Descriptor) : Esys T (list Z) :=
  session ← start_session None Trial;
  policy ← apply_policy session d;
  digest ← call "expected_policy" (PolicyGetDigest policy);
  _ ← call "expected_policy" (FlushContext session);
  mret digest.

Definition validate_public (public : Public) (expected : list Z) : Esys T unit :=
  match as_keyed_hash public with
  | Some k =>
      attributes ← sealed_attributes;
      if bool_decide (object_attributes k = attributes) && bool_decide (kh_name_hashing_algorithm k = Sha256)
         && bool_decide (auth_policy k = expected) && bool_decide (parameters k = NullScheme)
         && (length (unique k) =? 32)%nat
      then mret tt else reject "sealed object has unexpected policy or attributes"
  | None => reject "sealed object has unexpected policy or attributes"
  end.

Definition require_network_bound `{Primitives} `{Cbor} (d : Descriptor) : Esys T unit := fun t =>
  if negb (bool_decide (mode (policy d) = NetworkBound)) then (Err EngineError.UnsupportedMode, t)
  else match descriptor_bytes d with
       | Ok _ => (Ok tt, t)
       | Err e => (Err (EngineError.Envelope e), t)
       end.

Section Seed.
Context `{Primitives} `{Cbor}.

(** [seal] in its open context. *)
Definition create_sealed (d : Descriptor) (seed : list Z) : Esys T TpmBlob :=
  auth_policy ← expected_policy d;
  '(parent, parent_name) ← create_parent;
  session ← start_session (Some parent) Hmac;
  _ ← set_protection session true true;
  public ← sealed_public auth_policy;
  sensitive ← of_tss "seal" (sensitive_try_from seed);
  '(out_public, out_private) ← call "seal" (Create session parent public sensitive);
  _ ← validate_public out_public auth_policy;
  name ← sha256_name out_public;
  bytes ← of_tss "seal" (marshall out_public);
  mret (mk_tpm_blob bytes out_private name parent_name).

Definition seal (tcti : TctiNameConf) (d : Descriptor) (seed : list Z) : Esys T TpmBlob :=
  _ ← require_network_bound d; with_context tcti (create_sealed d seed).

(** The checks of [unseal] before the context is opened: the public area is canonical and has the Name. *)
Definition parse_blob (blob : TpmBlob) : Esys T (Public * list Z) :=
  public ← of_tss "unseal" (unmarshall (tpm_public blob));
  bytes ← of_tss "unseal" (marshall public);
  if negb (bool_decide (bytes = tpm_public blob))
  then reject "noncanonical TPM public or mismatched object Name"
  else
    name ← sha256_name public;
    if negb (bool_decide (name = tpm_name blob)) || negb (length (parent_name blob) =? 34)%nat
    then reject "noncanonical TPM public or mismatched object Name"
    else private ← of_tss "unseal" (private_try_from (tpm_private blob)); mret (public, private).

(** The part of [unseal] from the loaded object on: a fresh policy session, and the seed it releases. *)
Definition unseal_object (parent object : Handle) (d : Descriptor) : Esys T UnsealedSeed :=
  session ← start_session (Some parent) PolicyAuth;
  _ ← apply_policy session d;
  _ ← set_protection session false true;
  sensitive ← call "unseal" (Unseal session object);
  if negb (length sensitive =? 32)%nat then reject "unsealed seed has unexpected length"
  else mret (mk_unsealed sensitive LocalMeasuredBoot).

(** [unseal] in its open context. *)
Definition open_sealed (d : Descriptor) (blob : TpmBlob) (public : Public) (private : list Z) : Esys T UnsealedSeed :=
  auth_policy ← expected_policy d;
  _ ← validate_public public auth_policy;
  '(parent, name) ← create_parent;
  if negb (bool_decide (name = parent_name blob)) then reject "TPM storage parent identity changed"
  else
    object ← call "unseal" (Load Password parent private public);
    loaded ← call "unseal" (TrGetName object);
    if negb (bool_decide (loaded = tpm_name blob)) then reject "loaded TPM object Name mismatch"
    else unseal_object parent object d.

Definition unseal (tcti : TctiNameConf) (envelope : AuthenticatedEnvelope) : Esys T UnsealedSeed :=
  let d := descriptor (body envelope) in
  let blob := tpm (body envelope) in
  _ ← require_network_bound d;
  '(public, private) ← parse_blob blob;
  with_context tcti (open_sealed d blob public private).
End Seed.
End Adapter.

(** [Tpm2Provider]: the parsed transport, here with the device behind it. *)
Record Tpm2Provider `{TssTypes} (T : Type) : Type := mk_tpm2 { tcti : TctiNameConf; tss : T }.
Arguments mk_tpm2 {_ T}.
Arguments tcti {_ T}.
Arguments tss {_ T}.

Definition new_tpm2 `{TssLibrary} {T} (text : string) (t : T) : result EngineError.Error (Tpm2Provider T) :=
  map_err (tss_error "new") (c ← tcti_from_str text; Ok (mk_tpm2 c t)).

#[export] Instance tpm2_provider `{TssLibrary} {T} `{!TssDevice T} `{Primitives} `{Cbor}
    : TpmProvider (Tpm2Provider T) := {|
  supports_mode _ m := bool_decide (m = NetworkBound);
  tpm_seal p d seed := let '(r, t) := seal (tcti p) d seed (tss p) in (r, mk_tpm2 (tcti p) t);
  tpm_unseal p envelope := let '(r, t) := unseal (tcti p) envelope (tss p) in (r, mk_tpm2 (tcti p) t);
|}.

(** * Steps that do not reach the device *)

Section Inert.
Context `{TssLibrary} {T : Type} `{!TssDevice T}.

Definition inert {A} (m : Esys T A) : Prop := forall t, (m t).2 = t.

Lemma inert_ret {A} (a : A) : inert (mret a).
Proof. done. Qed.
Lemma inert_of_tss {A} op (r : result string A) : inert (of_tss op r).
Proof. done. Qed.
Lemma inert_reject {A} what : inert (reject (A := A) what).
Proof. done. Qed.
Lemma inert_bind {A B} (m : Esys T A) (f : A -> Esys T B) : inert m -> (forall a, inert (f a)) -> inert (m ≫= f).
Proof.
  intros Hm Hf t. unfold mbind, Esys_bind. specialize (Hm t). destruct (m t) as [[a|e] t']; simpl in *; [|done].
  rewrite (Hf a). done.
Qed.
Lemma inert_if {A} (b : bool) (m n : Esys T A) : inert m -> inert n -> inert (if b then m else n).
Proof. by destruct b. Qed.
End Inert.
#[export] Hint Resolve inert_ret inert_of_tss inert_reject inert_bind inert_if : leelo.

Section Pure.
Context `{TssLibrary} {T : Type} `{!TssDevice T}.

Lemma inert_mask mask : inert (validate_mask (T := T) mask).
Proof. unfold validate_mask. auto with leelo. Qed.
Lemma inert_selection mask : inert (selection (T := T) mask).
Proof. unfold selection. auto using inert_mask with leelo. Qed.
Lemma inert_sealed_public policy : inert (sealed_public (T := T) policy).
Proof. unfold sealed_public, sealed_attributes. auto with leelo. Qed.
Lemma inert_parent_public : inert (parent_public (T := T)).
Proof. unfold parent_public. auto with leelo. Qed.
Lemma inert_validate_public public expected : inert (validate_public (T := T) public expected).
Proof. unfold validate_public, sealed_attributes. destruct (as_keyed_hash public); auto with leelo. Qed.
Lemma inert_sha256_name public : inert (sha256_name (T := T) public).
Proof. unfold sha256_name. auto with leelo. Qed.
Lemma inert_parse_blob blob : inert (parse_blob (T := T) blob).
Proof. unfold parse_blob. auto 10 using inert_sha256_name with leelo. Qed.
Lemma inert_require_network_bound `{Primitives} `{Cbor} d : inert (require_network_bound (T := T) d).
Proof. intros t. unfold require_network_bound. destruct (negb _); [done|]. by destruct (descriptor_bytes d). Qed.
End Pure.
