(* ===== verification/TpmDiscipline.v ===== *)
(** The discipline of the TPM adapter on the wire: a monitor reads the commands of an operation with their
    answers, and rejects one that opens a second context, uses a key whose Name was not checked, lets a seed
    travel outside a session salted to the storage key, or leaves the context open. It accepts every run,
    whatever the device answers. *)
From stdpp Require Import base list strings.
From Stdlib Require Import ZArith Lia.
From S2P Require Import Prelude Policy Crypto Cbor Envelope Observation Engine Tpm.

Open Scope Z_scope.

(** * The monitor *)

Section Monitor.
Context `{TssLibrary}.

(** A session with its salt key, its kind and the parameter encryption set on it. *)
Record SessionUse : Type := mk_use {
  use_session : AuthSession; use_key : option Handle; use_kind : SessionType; use_protection : option (bool * bool) }.

(** What is known in an open context: storage keys with their public areas, keys whose Name was checked, loaded
    objects, sessions, and policy sessions bound to PCRs and to the Unseal command. *)
Record Open : Type := mk_open {
  primaries : list (Handle * Public);
  verified : list Handle;
  objects : list Handle;
  sessions : list SessionUse;
  pcr_bound : list PolicySession;
  code_bound : list PolicySession;
}.

Definition find_session (o : Open) (s : AuthSession) : option SessionUse :=
  snd <$> list_find (fun u => use_session u = s) (sessions o).
Definition known_policy (o : Open) (p : PolicySession) : bool :=
  existsb (fun u => bool_decide (policy_try_from (use_session u) = Ok p)) (sessions o).
Definition salted (o : Open) (u : SessionUse) (kind : SessionType) : bool :=
  bool_decide (use_kind u = kind) && match use_key u with Some k => bool_decide (k ∈ verified o) | None => false end.

Definition allowed {X} (o : Open) (c : Command X) : bool :=
  match c with
  | ContextNew _ | ContextDrop => false
  | PcrRead _ => true
  | CreatePrimary session _ _ => bool_decide (session = Password)
  | TrGetName object => bool_decide (object ∈ map fst (primaries o) ++ objects o)
  | StartAuthSession key kind _ _ =>
      match kind, key with
      | Trial, None => true
      | Trial, Some _ | _, None => false
      | _, Some key => bool_decide (key ∈ verified o)
      end
  | TrSessSetAttributes session _ | FlushContext session => bool_decide (is_Some (find_session o session))
  | PolicyPcr policy _ _ | PolicyCommandCode policy _ | PolicyGetDigest policy => known_policy o policy
  | Create session parent _ _ =>
      match find_session o session with
      | Some u => salted o u Hmac && bool_decide (use_key u = Some parent) && bool_decide (use_protection u = Some (true, true))
      | None => false
      end
  | Load session parent _ _ => bool_decide (session = Password) && bool_decide (parent ∈ verified o)
  | Unseal session object =>
      match find_session o session, policy_try_from session with
      | Some u, Ok p =>
          salted o u PolicyAuth && bool_decide (use_protection u = Some (false, true)) && bool_decide (object ∈ objects o)
          && bool_decide (p ∈ pcr_bound o) && bool_decide (p ∈ code_bound o)
      | _, _ => false
      end
  end.

Definition with_session (o : Open) (u : SessionUse) : Open :=
  let others := filter (fun p => policy_try_from (use_session u) <> Ok p) in
  mk_open (primaries o) (verified o) (objects o) (u :: sessions o) (others (pcr_bound o)) (others (code_bound o)).
Definition protect (o : Open) (s : AuthSession) (decrypt encrypt : bool) : Open :=
  mk_open (primaries o) (verified o) (objects o)
    (map (fun u => if bool_decide (use_session u = s)
                   then mk_use (use_session u) (use_key u) (use_kind u) (Some (decrypt, encrypt)) else u) (sessions o))
    (pcr_bound o) (code_bound o).

(** A Name that is the code of SHA-256 and the digest of the public area the device returned for the key. *)
Definition name_checked (o : Open) (key : Handle) (name : list Z) : bool :=
  match list_find (fun k => k.1 = key) (primaries o) with
  | Some (_, (_, public)) =>
      match marshall public with Ok bytes => bool_decide (name = [0x00; 0x0b] ++ sha256 bytes) | Err _ => false end
  | None => false
  end.

Definition update {X} (o : Open) (c : Command X) : result string X -> Open :=
  match c in Command X return result string X -> Open with
  | CreatePrimary _ _ _ => fun a => match a with
      | Ok (key, public) =>
          mk_open ((key, public) :: primaries o) (filter (fun k => k <> key) (verified o)) (objects o) (sessions o)
            (pcr_bound o) (code_bound o)
      | Err _ => o end
  | TrGetName key => fun a => match a with
      | Ok name => if name_checked o key name
                   then mk_open (primaries o) (key :: verified o) (objects o) (sessions o) (pcr_bound o) (code_bound o)
                   else o
      | Err _ => o end
  | StartAuthSession key kind _ _ => fun a => match a with
      | Ok (Some session) => with_session o (mk_use session key kind None)
      | _ => o end
  | TrSessSetAttributes session attributes => fun a => match a with
      | Ok _ => protect o session (session_decrypt attributes) (session_encrypt attributes)
      | Err _ => o end
  | PolicyPcr policy _ _ => fun a => match a with
      | Ok _ => mk_open (primaries o) (verified o) (objects o) (sessions o) (policy :: pcr_bound o) (code_bound o)
      | Err _ => o end
  | PolicyCommandCode policy _ => fun a => match a with
      | Ok _ => mk_open (primaries o) (verified o) (objects o) (sessions o) (pcr_bound o) (policy :: code_bound o)
      | Err _ => o end
  | FlushContext session => fun a => match a with
      | Ok _ => mk_open (primaries o) (verified o) (objects o) (filter (fun u => use_session u <> session) (sessions o))
                  (pcr_bound o) (code_bound o)
      | Err _ => o end
  | Load _ _ _ _ => fun a => match a with
      | Ok object => mk_open (primaries o) (verified o) (object :: objects o) (sessions o) (pcr_bound o) (code_bound o)
      | Err _ => o end
  | _ => fun _ => o
  end.

(** An issued command with its answer. The monitor's state is [None] outside a context. *)
Inductive Issued : Type :=
| Issue {X : Type} (c : Command X) (answer : result string X).

Definition step (st : option Open) (i : Issued) : option (option Open) :=
  match i, st with
  | Issue (ContextNew _) a, None => Some (if is_ok a then Some (mk_open [] [] [] [] [] []) else None)
  | Issue ContextDrop _, Some _ => Some None
  | Issue c a, Some o => if allowed o c then Some (Some (update o c a)) else None
  | _, None => None
  end.

Definition monitor (log : list Issued) : option (option Open) :=
  foldl (fun st i => st ≫= fun o => step o i) (Some None) log.

(** The same device, with a log of what is issued. *)
#[export] Instance logged {T} `{!TssDevice T} : TssDevice (T * list Issued) := fun X c tl =>
  let '(r, t') := exec c tl.1 in (r, (t', tl.2 ++ [Issue c r])).

Lemma monitor_snoc log i : monitor (log ++ [i]) = monitor log ≫= fun o => step o i.
Proof. unfold monitor. by rewrite foldl_app. Qed.
End Monitor.

(** * Rules *)

Section Rules.
Context `{TssLibrary} {T : Type} `{!TssDevice T}.

Lemma exec_logged {X} (c : Command X) (t : T) log :
  exec c (t, log) = ((exec c t).1, ((exec c t).2, log ++ [Issue c (exec c t).1])).
Proof. unfold exec at 1, logged. simpl. by destruct (exec c t). Qed.

(** In an open context: the operation keeps the monitor content and the context open; [Q] when it succeeds. *)
Definition keeps_to {A} (o : Open) (m : Esys (T * list Issued) A) (Q : A -> Open -> Prop) : Prop :=
  forall t log, monitor log = Some (Some o) ->
    exists o', monitor (m (t, log)).2.2 = Some (Some o') /\ match (m (t, log)).1 with Ok a => Q a o' | Err _ => True end.

Lemma keeps_to_ret {A} o (a : A) (Q : A -> Open -> Prop) : Q a o -> keeps_to o (mret a) Q.
Proof. intros HQ t log Hm. by exists o. Qed.

Lemma keeps_to_reject {A} o what (Q : A -> Open -> Prop) : keeps_to o (reject what) Q.
Proof. intros t log Hm. by exists o. Qed.

Lemma keeps_to_inert {A} o (m : Esys (T * list Issued) A) : inert m -> keeps_to o m (fun _ o' => o' = o).
Proof. intros Hm t log Hl. exists o. rewrite (Hm (t, log)). split; [done|]. by destruct (m (t, log)).1. Qed.

Lemma keeps_to_of_tss {A} o op (r : result string A) :
  keeps_to o (of_tss op r) (fun a o' => o' = o /\ r = Ok a).
Proof. intros t log Hm. exists o. split; [done|]. simpl. by destruct r. Qed.

Lemma keeps_to_bind {A B} o (m : Esys (T * list Issued) A) (f : A -> Esys (T * list Issued) B) P Q :
  keeps_to o m P -> (forall a o', P a o' -> keeps_to o' (f a) Q) -> keeps_to o (m ≫= f) Q.
Proof.
  intros Hm Hf t log Hl. destruct (Hm t log Hl) as (o' & Ho & HP). unfold mbind, Esys_bind.
  destruct (m (t, log)) as [[a|e] [t' log']]; [|by exists o']. by apply (Hf a o').
Qed.

Lemma keeps_to_call {X} o op (c : Command X) (Q : X -> Open -> Prop) :
  allowed o c = true -> (forall a, Q a (update o c (Ok a))) -> keeps_to o (call op c) Q.
Proof.
  intros Ha HQ t log Hm. unfold call. rewrite exec_logged. destruct (exec c t) as [r t'].
  exists (update o c r). simpl. rewrite monitor_snoc, Hm. simpl. split.
  - destruct c; try done; simpl in *; by rewrite Ha.
  - destruct r; simpl; auto.
Qed.

Lemma keeps_to_weaken {A} o (m : Esys (T * list Issued) A) (P Q : A -> Open -> Prop) :
  keeps_to o m P -> (forall a o', P a o' -> Q a o') -> keeps_to o m Q.
Proof.
  intros Hm HPQ t log Hl. destruct (Hm t log Hl) as (o' & Ho & HP). exists o'. split; [done|].
  destruct (m (t, log)).1; auto.
Qed.

(** An operation in a context of its own. *)
Lemma with_context_closed {A} c (m : Esys (T * list Issued) A) t log :
  monitor log = Some None -> keeps_to (mk_open [] [] [] [] [] []) m (fun _ _ => True) ->
  monitor (with_context c m (t, log)).2.2 = Some None.
Proof.
  intros Hl Hm. unfold with_context, call, mbind, Esys_bind. rewrite exec_logged.
  destruct (exec (ContextNew c) t) as [[u|e] t']; cbn [fst snd map_err].
  2: { by rewrite monitor_snoc, Hl. }
  unfold dropping. destruct (Hm t' (log ++ [Issue (ContextNew c) (Ok u)])) as (o' & Ho & _).
  { by rewrite monitor_snoc, Hl. }
  destruct (m _) as [r [t2 log2]]. cbn [fst snd] in *. rewrite exec_logged. cbn [fst snd]. by rewrite monitor_snoc, Ho.
Qed.

(** * The operations *)

Lemma keeps_to_read_pcrs mask indices st o : keeps_to o (read_pcrs mask indices st) (fun _ _ => True).
Proof.
  revert st o. induction indices as [|i indices IH]; intros st o; simpl; [by apply keeps_to_ret|].
  destruct (_ =? 0); [apply IH|]. eapply keeps_to_bind; [|intros; apply IH].
  unfold read_pcr. eapply keeps_to_bind; [apply keeps_to_inert, inert_selection|]. intros sel ? ->.
  eapply keeps_to_bind; [apply (keeps_to_call _ _ _ (fun _ _ => True)); done|]. intros [[cur ret] ds] o' _.
  destruct ds as [|d []]; try apply keeps_to_reject. destruct (_ || _); [apply keeps_to_reject|].
  destruct (match st.1 with Some _ => _ | None => _ end); [apply keeps_to_reject|].
  by apply (keeps_to_ret _ _ (fun _ _ => True)).
Qed.

Lemma keeps_to_sha256_name o public :
  keeps_to o (sha256_name public) (fun name o' => o' = o /\
    exists bytes, marshall public = Ok bytes /\ name = [0x00; 0x0b] ++ sha256 bytes).
Proof.
  unfold sha256_name. destruct (negb _); [apply keeps_to_reject|].
  eapply keeps_to_bind; [apply keeps_to_of_tss|].
  intros b ? [-> Hb]. apply keeps_to_ret. eauto.
Qed.

(** The storage key is verified. *)
Lemma keeps_to_create_parent o :
  keeps_to o create_parent (fun parent o' => parent.1 ∈ verified o' /\ sessions o' = sessions o).
Proof.
  unfold create_parent.
  eapply keeps_to_bind; [apply keeps_to_inert, inert_parent_public|]. intros template ? ->.
  eapply keeps_to_bind; [apply (keeps_to_call _ _ _ (fun a o' => o' = update o (CreatePrimary Password Owner template) (Ok a)));
    [by apply bool_decide_eq_true|done]|].
  intros [key pub] ? ->. eapply keeps_to_bind; [apply keeps_to_sha256_name|].
  intros name ? (-> & bytes & Hb & Hn).
  eapply keeps_to_bind; [apply (keeps_to_call _ _ _ (fun a o' => o' =
    update (update o (CreatePrimary Password Owner template) (Ok (key, pub))) (TrGetName key) (Ok a))); [|done]|].
  { simpl. apply bool_decide_eq_true. by left. }
  intros loaded ? ->. case_bool_decide as E; [|apply keeps_to_reject]. apply keeps_to_ret. subst loaded.
  simpl. unfold name_checked. simpl. rewrite decide_True by done. simpl. rewrite Hb, Hn.
  rewrite bool_decide_eq_true_2 by done. simpl. split; [by left|done].
Qed.

Lemma keeps_to_start_session o key kind :
  allowed o (StartAuthSession key kind AES_128_CFB Sha256) = true ->
  keeps_to o (start_session key kind) (fun s o' => o' = with_session o (mk_use s key kind None)).
Proof.
  intros Ha. eapply keeps_to_bind; [apply (keeps_to_call _ _ _ (fun a o' => o' =
    update o (StartAuthSession key kind AES_128_CFB Sha256) (Ok a))); done|].
  intros [s|] ? ->; [by apply keeps_to_ret|apply keeps_to_reject].
Qed.

Definition bound (o : Open) (p : PolicySession) : Open :=
  mk_open (primaries o) (verified o) (objects o) (sessions o) (p :: pcr_bound o) (p :: code_bound o).

Lemma keeps_to_apply_policy o u rest d :
  sessions o = u :: rest ->
  keeps_to o (apply_policy (use_session u) d)
    (fun p o' => policy_try_from (use_session u) = Ok p /\ o' = bound o p).
Proof.
  intros Hs. eapply keeps_to_bind; [apply keeps_to_of_tss|].
  intros p ? [-> Hp]. assert (known_policy o p = true) as Hk.
  { unfold known_policy. rewrite Hs. simpl. by rewrite bool_decide_eq_true_2. }
  eapply keeps_to_bind; [apply keeps_to_of_tss|]. intros digest ? [-> _].
  eapply keeps_to_bind; [apply keeps_to_inert, inert_selection|]. intros sel ? ->.
  eapply keeps_to_bind; [apply (keeps_to_call _ _ _ (fun a o' => o' = update o (PolicyPcr p digest sel) (Ok a))); done|].
  intros [] ? ->. eapply keeps_to_bind; [apply (keeps_to_call _ _ _ (fun _ o' => o' = bound o p)); done|].
  intros _ ? ->. by apply keeps_to_ret.
Qed.

Lemma keeps_to_expected_policy o :
  forall d, keeps_to o (expected_policy d) (fun _ o' => verified o' = verified o).
Proof.
  intros d. eapply keeps_to_bind; [by apply keeps_to_start_session|]. intros s ? ->.
  set (o1 := with_session o _). assert (sessions o1 = mk_use s None Trial None :: sessions o) as Hs by done.
  eapply keeps_to_bind; [exact (keeps_to_apply_policy o1 _ _ d Hs)|]. intros p ? [Hp ->].
  assert (known_policy (bound o1 p) p = true) as Hk.
  { unfold known_policy. simpl. simpl in Hp. by rewrite bool_decide_eq_true_2. }
  eapply keeps_to_bind; [apply (keeps_to_call _ _ _ (fun _ o' => o' = bound o1 p)); done|]. intros digest ? ->.
  eapply keeps_to_bind; [apply (keeps_to_call _ _ _ (fun _ o' => verified o' = verified o)); [|done]|].
  { simpl. apply bool_decide_eq_true. unfold find_session. simpl. rewrite decide_True by done. by eexists. }
  intros a o' Ho. by apply keeps_to_ret.
Qed.

Lemma keeps_to_set_protection o u rest decrypt encrypt :
  sessions o = u :: rest ->
  keeps_to o (set_protection (use_session u) decrypt encrypt)
    (fun _ o' => o' = protect o (use_session u) decrypt encrypt).
Proof.
  intros Hs. apply (keeps_to_call _ _ (TrSessSetAttributes _ _)); [|done]. simpl. apply bool_decide_eq_true.
  unfold find_session. rewrite Hs. simpl. rewrite decide_True by done. by eexists.
Qed.

Section Seed.
Context `{Primitives} `{Cbor}.

Lemma keeps_to_create_sealed o d seed : keeps_to o (create_sealed d seed) (fun _ _ => True).
Proof.
  eapply keeps_to_bind; [apply keeps_to_expected_policy|]. intros policy o1 _.
  eapply keeps_to_bind; [apply keeps_to_create_parent|]. intros [parent pname] o2 [Hv _]. simpl in Hv.
  eapply keeps_to_bind; [apply keeps_to_start_session; simpl; by apply bool_decide_eq_true|]. intros s ? ->.
  set (u := mk_use s (Some parent) Hmac None). set (o3 := with_session o2 u).
  eapply keeps_to_bind; [exact (keeps_to_set_protection o3 u _ true true eq_refl)|]. intros _ ? ->.
  eapply keeps_to_bind; [apply keeps_to_inert, inert_sealed_public|]. intros public ? ->.
  eapply keeps_to_bind; [apply keeps_to_of_tss|]. intros sensitive ? [-> _].
  eapply keeps_to_bind; [apply (keeps_to_call _ _ _ (fun _ _ => True)); [|done]|].
  { simpl. unfold find_session, salted. simpl. rewrite bool_decide_eq_true_2 by done. simpl.
    rewrite decide_True by done. simpl. rewrite !bool_decide_eq_true_2 by done. done. }
  intros [pub priv] o4 _. eapply keeps_to_bind; [apply keeps_to_inert, inert_validate_public|]. intros _ ? ->.
  eapply keeps_to_bind; [apply keeps_to_sha256_name|]. intros name ? [-> _].
  eapply keeps_to_bind; [apply keeps_to_of_tss|]. intros bytes o5 _.
  by apply keeps_to_ret.
Qed.

Lemma keeps_to_unseal_object o parent object d :
  parent ∈ verified o -> object ∈ objects o -> keeps_to o (unseal_object parent object d) (fun _ _ => True).
Proof.
  intros Hv Ho. unfold unseal_object.
  eapply keeps_to_bind; [apply keeps_to_start_session; simpl; by apply bool_decide_eq_true|]. intros s ? ->.
  set (u := mk_use s (Some parent) PolicyAuth None). set (o1 := with_session o u).
  eapply keeps_to_bind; [exact (keeps_to_apply_policy o1 u _ d eq_refl)|]. intros p ? [Hp ->].
  eapply keeps_to_bind; [exact (keeps_to_set_protection (bound o1 p) u _ false true eq_refl)|]. intros _ ? ->.
  eapply keeps_to_bind; [apply (keeps_to_call _ _ _ (fun _ _ => True)); [|done]|].
  { simpl. unfold find_session, salted. simpl. rewrite bool_decide_eq_true_2 by done. simpl.
    rewrite decide_True by done. simpl in *. rewrite Hp. rewrite !bool_decide_eq_true_2; [done|..]; try done; by left. }
  intros sensitive o2 _. destruct (negb _); [apply keeps_to_reject|by apply keeps_to_ret].
Qed.

Lemma keeps_to_open_sealed o d blob public private :
  keeps_to o (open_sealed d blob public private) (fun _ _ => True).
Proof.
  eapply keeps_to_bind; [apply keeps_to_expected_policy|]. intros policy o1 _.
  eapply keeps_to_bind; [apply keeps_to_inert, inert_validate_public|]. intros _ ? ->.
  eapply keeps_to_bind; [apply keeps_to_create_parent|]. intros [parent pname] o2 [Hv _]. simpl in Hv.
  destruct (negb _); [apply keeps_to_reject|].
  eapply keeps_to_bind; [apply (keeps_to_call _ _ _ (fun object o' => parent ∈ verified o' /\ object ∈ objects o'))|].
  { simpl. by rewrite !bool_decide_eq_true_2. }
  { intros object. simpl. split; [done|by left]. }
  intros object o3 [Hv3 Ho3].
  eapply keeps_to_bind; [apply (keeps_to_call _ _ _ (fun _ o' => parent ∈ verified o' /\ object ∈ objects o'))|].
  { simpl. apply bool_decide_eq_true, elem_of_app. by right. }
  { intros name. simpl. destruct (name_checked _ _ _); [|done]. split; [by right|done]. }
  intros loaded o4 [Hv4 Ho4]. destruct (negb _); [apply keeps_to_reject|by apply keeps_to_unseal_object].
Qed.

End Seed.
End Rules.

(** * Property *)

Section Claims.
Context `{TssLibrary} {T : Type} `{!TssDevice T} `{Primitives} `{Cbor}.

(** An operation that decides without the device, then continues in a context or stops. *)
Lemma bind_closed {A B} (m : Esys (T * list Issued) A) (f : A -> Esys (T * list Issued) B) t log :
  monitor log = Some None -> inert m -> (forall a, monitor (f a (t, log)).2.2 = Some None) ->
  monitor ((m ≫= f) (t, log)).2.2 = Some None.
Proof.
  intros Hl Hm Hf. specialize (Hm (t, log)). unfold mbind, Esys_bind.
  destruct (m (t, log)) as [[a|e] tl]; simpl in *; subst; simpl; auto.
Qed.

(** C5: whatever the TPM answers, right or wrong, every run of [pcr_digest], [seal] and [unseal] keeps to the
    discipline of the monitor: commands are issued only in one open context that is dropped at the end; the
    storage key is used only after its Name was compared with the digest of its public area; a seed is sent
    only in an HMAC session salted to that key with parameter encryption both ways, and asked for only in a
    policy session salted to that key, bound to the PCRs and to the Unseal command, with an encrypted
    response; the password session carries no seed. *)
Theorem adapter_discipline c (t : T) log :
  monitor log = Some None ->
  (forall mask, monitor (pcr_digest c mask (t, log)).2.2 = Some None) /\
  (forall d seed, monitor (seal c d seed (t, log)).2.2 = Some None) /\
  (forall envelope, monitor (unseal c envelope (t, log)).2.2 = Some None).
Proof.
  intros Hl. split_and!.
  - intros mask. apply bind_closed; [done|apply inert_mask|]. intros _. apply with_context_closed; [done|].
    eapply keeps_to_bind; [apply keeps_to_read_pcrs|]. intros [cnt hashed] o _. by apply keeps_to_ret.
  - intros d seed. apply bind_closed; [done|apply inert_require_network_bound|]. intros _.
    apply with_context_closed; [done|]. apply keeps_to_create_sealed.
  - intros envelope. apply bind_closed; [done|apply inert_require_network_bound|]. intros _.
    apply bind_closed; [done|apply inert_parse_blob|]. intros [public private].
    apply with_context_closed; [done|]. apply keeps_to_open_sealed.
Qed.
End Claims.
