(* ===== verification/TpmDevice.v ===== *)
(** What the documentation of TPM 2.0 promises of the commands the adapter uses, and rules to reason with it:
    [TssLaws] says what a successful command has done, [TssWorks] when commands succeed. The state of a device
    is seen through its PCRs and their update counter, its storage keys, the objects and policy sessions of
    the open context, and the private areas it has wrapped. *)
From stdpp Require Import base list strings relations.
From Stdlib Require Import ZArith Lia.
From S2P Require Import Prelude Policy Crypto Cbor Envelope Observation Engine Tpm.

Open Scope Z_scope.

(** What a policy session has asserted; a trial session only computes the digest. *)
Inductive Assertion `{TssTypes} : Type :=
| AssertPcr (digest : list Z) (selected : PcrSelectionList)
| AssertCommandCode (code : CommandCode).
Record PolicyState `{TssTypes} : Type := mk_policy_state { enforced : bool; assertions : list Assertion }.
Record Object `{TssTypes} : Type := mk_object { object_public : Public; object_secret : option (list Z) }.
Arguments AssertPcr {_} digest selected.
Arguments AssertCommandCode {_} code.
Arguments mk_policy_state {_}.
Arguments enforced {_}.
Arguments assertions {_}.
Arguments mk_object {_}.
Arguments object_public {_}.
Arguments object_secret {_}.

Section Names.
Context `{TssLibrary}.

(** The Name of a public area. *)
Definition named (public : Public) (name : list Z) : Prop :=
  exists bytes, marshall public = Ok bytes /\ name = [0x00; 0x0b] ++ sha256 bytes.

(** Commands after which the objects and policy sessions of the context are still there. *)
Definition keeps_objects {X} (c : Command X) : bool :=
  match c with ContextNew _ | ContextDrop => false | _ => true end.
Definition keeps_policies {X} (c : Command X) : bool :=
  match c with
  | PcrRead _ | TrGetName _ | TrSessSetAttributes _ _ | PolicyGetDigest _ => true
  | _ => false
  end.
End Names.

Class TssLaws (T : Type) `{TssLibrary} `{!TssDevice T} : Type := {
  (** Views of the library and of the device. *)
  selected_indices : PcrSelectionList -> list Z;
  policy_digest : list Assertion -> list Z;
  pcrs : T -> Z -> list Z;
  pcr_counter : T -> Z;
  storage_key : T -> Public -> Public;
  object_at : T -> Handle -> option Object;
  policy_at : T -> PolicySession -> option PolicyState;
  wrapped : T -> Public -> list Z -> Public -> list Z -> Prop;
  (** The library. *)
  sha256_bytes : forall m, byte_array 32 (sha256 m);
  selection_indices : forall mask slots sel,
    collect (fun index => pcr_slot_try_from (Z.shiftl 1 index)) (mask_indices mask) = Ok slots ->
    build_selection Sha256 slots = Ok sel -> selected_indices sel = mask_indices mask;
  digest_try_from_Ok : forall b d, digest_try_from b = Ok d -> d = b;
  sensitive_try_from_Ok : forall b d, sensitive_try_from b = Ok d -> d = b;
  private_try_from_Ok : forall b d, private_try_from b = Ok d -> d = b;
  marshall_bytes : forall p b, marshall p = Ok b -> byte_slice b /\ unmarshall b = Ok p;
  (** Every command: the owner's seed and what was wrapped stay, and a change of the PCRs counts. *)
  exec_storage_key : forall X (c : Command X) t, storage_key (exec c t).2 = storage_key t;
  exec_wrapped : forall X (c : Command X) t parent private public sensitive,
    wrapped t parent private public sensitive -> wrapped (exec c t).2 parent private public sensitive;
  exec_pcrs : forall X (c : Command X) t, pcr_counter t <= pcr_counter (exec c t).2 /\
    (pcr_counter (exec c t).2 = pcr_counter t -> forall i, pcrs (exec c t).2 i = pcrs t i);
  exec_objects : forall X (c : Command X) t h o,
    keeps_objects c = true -> object_at t h = Some o -> object_at (exec c t).2 h = Some o;
  exec_policies : forall X (c : Command X) t p st,
    keeps_policies c = true -> policy_at t p = Some st -> policy_at (exec c t).2 p = Some st;
  (** Successful commands. *)
  pcr_read_Ok : forall sel t counter returned digests t', exec (PcrRead sel) t = (Ok (counter, returned, digests), t') ->
    counter = pcr_counter t /\ (returned = sel -> digests = map (pcrs t) (selected_indices sel));
  create_primary_Ok : forall s h template t key public t', exec (CreatePrimary s h template) t = (Ok (key, public), t') ->
    public = storage_key t template /\ object_at t' key = Some (mk_object public None);
  tr_get_name_Ok : forall h t name t' o, exec (TrGetName h) t = (Ok name, t') -> object_at t h = Some o ->
    named (object_public o) name;
  start_session_Ok : forall key kind sym hash t s t' p,
    exec (StartAuthSession key kind sym hash) t = (Ok (Some s), t') -> kind <> Hmac -> policy_try_from s = Ok p ->
    policy_at t' p = Some (mk_policy_state (bool_decide (kind = PolicyAuth)) []);
  policy_pcr_Ok : forall p digest sel t t' st, exec (PolicyPcr p digest sel) t = (Ok tt, t') -> policy_at t p = Some st ->
    policy_at t' p = Some (mk_policy_state (enforced st) (assertions st ++ [AssertPcr digest sel]));
  policy_command_code_Ok : forall p code t t' st, exec (PolicyCommandCode p code) t = (Ok tt, t') ->
    policy_at t p = Some st ->
    policy_at t' p = Some (mk_policy_state (enforced st) (assertions st ++ [AssertCommandCode code]));
  policy_get_digest_Ok : forall p t digest t' st, exec (PolicyGetDigest p) t = (Ok digest, t') ->
    policy_at t p = Some st -> digest = policy_digest (assertions st);
  create_Ok : forall s parent template sensitive t public private t' o,
    exec (Create s parent template sensitive) t = (Ok (public, private), t') -> object_at t parent = Some o ->
    wrapped t' (object_public o) private public sensitive /\ byte_slice private /\ private_try_from private = Ok private;
  load_Ok : forall s parent private public t h t' o,
    exec (Load s parent private public) t = (Ok h, t') -> object_at t parent = Some o ->
    (exists secret, object_at t' h = Some (mk_object public secret)) /\
    forall sensitive, wrapped t (object_public o) private public sensitive ->
      object_at t' h = Some (mk_object public (Some sensitive));
  (** An object is unsealed in a session that enforced its policy, with the PCRs as asserted at that moment. *)
  unseal_Ok : forall s h t sensitive t' p st o,
    exec (Unseal s h) t = (Ok sensitive, t') -> policy_try_from s = Ok p -> policy_at t p = Some st ->
    object_at t h = Some o ->
    object_secret o = Some sensitive /\ enforced st = true /\
    (forall k, as_keyed_hash (object_public o) = Some k -> auth_policy k = policy_digest (assertions st)) /\
    forall digest sel, AssertPcr digest sel ∈ assertions st ->
      sha256 (concat (map (pcrs t) (selected_indices sel))) = digest;
}.

(** A device that works, left alone: commands used as documented succeed, and the PCRs do not change. *)
Class TssWorks (T : Type) `{TssLaws T} : Type := {
  working : T -> Prop;
  exec_working : forall X (c : Command X) t, working t ->
    working (exec c t).2 /\ pcr_counter (exec c t).2 = pcr_counter t;
  builds_attributes : forall flags, flags = SEALED_FLAGS \/ flags = PARENT_FLAGS ->
    exists a, build_attributes flags = Ok a;
  builds_parent : forall attributes, build_attributes PARENT_FLAGS = Ok attributes ->
    exists ecc template, build_ecc_parameters AES_128_CFB NistP256 = Ok ecc /\
      build_public (mk_public_builder EccAlgorithm Sha256 attributes None (EccKeyParameters ecc) (EccUnique [] []))
        = Ok template /\
      forall t, working t -> name_hashing_algorithm (storage_key t template) = Sha256 /\
        exists bytes, marshall (storage_key t template) = Ok bytes;
  builds_slot : forall index, 0 <= index < 24 -> exists slot, pcr_slot_try_from (Z.shiftl 1 index) = Ok slot;
  builds_selection : forall slots, exists sel, build_selection Sha256 slots = Ok sel;
  builds_digest : forall b, (length b <= 64)%nat -> digest_try_from b = Ok b;
  builds_sensitive : forall b, (length b <= 128)%nat -> sensitive_try_from b = Ok b;
  context_works : forall c t, working t -> (exec (ContextNew c) t).1 = Ok tt;
  pcr_read_works : forall sel t, working t ->
    exists counter digests, (exec (PcrRead sel) t).1 = Ok (counter, sel, digests);
  pcrs_length : forall t i, working t -> length (pcrs t i) = 32%nat;
  create_primary_works : forall template t, working t ->
    exists key public, (exec (CreatePrimary Password Owner template) t).1 = Ok (key, public);
  tr_get_name_works : forall h t o, working t -> object_at t h = Some o -> exists name, (exec (TrGetName h) t).1 = Ok name;
  start_session_works : forall key kind t, working t ->
    match key with Some h => is_Some (object_at t h) | None => True end ->
    exists s, (exec (StartAuthSession key kind AES_128_CFB Sha256) t).1 = Ok (Some s) /\
      (kind <> Hmac -> exists p, policy_try_from s = Ok p);
  set_attributes_works : forall s a t, working t -> (exec (TrSessSetAttributes s a) t).1 = Ok tt;
  flush_works : forall s t, working t -> (exec (FlushContext s) t).1 = Ok tt;
  policy_pcr_works : forall p digest sel t st, working t -> policy_at t p = Some st ->
    (enforced st = true -> sha256 (concat (map (pcrs t) (selected_indices sel))) = digest) ->
    (exec (PolicyPcr p digest sel) t).1 = Ok tt;
  policy_command_code_works : forall p code t st, working t -> policy_at t p = Some st ->
    (exec (PolicyCommandCode p code) t).1 = Ok tt;
  policy_get_digest_works : forall p t st, working t -> policy_at t p = Some st ->
    exists digest, (exec (PolicyGetDigest p) t).1 = Ok digest;
  (** An object is created from the template of the adapter, with a unique identifier of SHA-256's size. *)
  policy_digest_bytes : forall l, byte_array 32 (policy_digest l);
  create_works : forall s parent sensitive attributes policy t o, working t -> object_at t parent = Some o ->
    byte_array 32 sensitive -> build_attributes SEALED_FLAGS = Ok attributes -> byte_array 32 policy -> exists template public private id bytes,
    build_public (mk_public_builder KeyedHashAlgorithm Sha256 attributes (Some policy)
      (KeyedHashParameters NullScheme) (KeyedHashUnique [])) = Ok template /\
    (exec (Create s parent template sensitive) t).1 = Ok (public, private) /\
    as_keyed_hash public = Some (mk_keyed_hash attributes Sha256 policy NullScheme id) /\ length id = 32%nat /\
    name_hashing_algorithm public = Sha256 /\ marshall public = Ok bytes;
  load_works : forall parent private public sensitive t o, working t -> object_at t parent = Some o ->
    wrapped t (object_public o) private public sensitive -> exists h, (exec (Load Password parent private public) t).1 = Ok h;
  unseal_works : forall s h t p st o sensitive k, working t -> policy_try_from s = Ok p -> policy_at t p = Some st ->
    enforced st = true -> object_at t h = Some o -> object_secret o = Some sensitive ->
    as_keyed_hash (object_public o) = Some k -> auth_policy k = policy_digest (assertions st) ->
    (forall digest sel, AssertPcr digest sel ∈ assertions st ->
      sha256 (concat (map (pcrs t) (selected_indices sel))) = digest) ->
    AssertCommandCode UnsealCode ∈ assertions st -> exists v, (exec (Unseal s h) t).1 = Ok v;
}.

(** * Runs of the adapter as sequences of commands *)

Section Runs.
Context `{TssLibrary} {T : Type} `{!TssDevice T}.

Definition device_step (P : forall X, Command X -> bool) (t t' : T) : Prop :=
  exists X (c : Command X), P X c = true /\ (exec c t).2 = t'.

(** An operation only issues commands of [P]. *)
Definition advances (P : forall X, Command X -> bool) {A} (m : Esys T A) : Prop :=
  forall t, rtc (device_step P) t (m t).2.

Lemma advances_inert P {A} (m : Esys T A) : inert m -> advances P m.
Proof. intros Hm t. by rewrite (Hm t). Qed.

Lemma advances_call (P : forall X, Command X -> bool) {X} op (c : Command X) : P X c = true -> advances P (call op c).
Proof.
  intros HP t. apply rtc_once. exists X, c. split; [done|]. unfold call. by destruct (exec c t).
Qed.

Lemma advances_bind P {A B} (m : Esys T A) (f : A -> Esys T B) :
  advances P m -> (forall a, advances P (f a)) -> advances P (m ≫= f).
Proof.
  intros Hm Hf t. specialize (Hm t). unfold mbind, Esys_bind. destruct (m t) as [[a|e] t']; [|done].
  etrans; [exact Hm|apply Hf].
Qed.

Lemma advances_if P {A} (b : bool) (m n : Esys T A) : advances P m -> advances P n -> advances P (if b then m else n).
Proof. by destruct b. Qed.

Lemma advances_any P {A} (m : Esys T A) : advances P m -> advances (fun _ _ => true) m.
Proof. intros Hm t. eapply rtc_subrel; [|apply Hm]. intros x y (X & c & _ & E). by exists X, c. Qed.

Lemma advances_with_context c {A} (m : Esys T A) :
  advances (fun _ _ => true) m -> advances (fun _ _ => true) (with_context c m).
Proof.
  intros Hm. apply advances_bind; [by apply advances_call|]. intros _ t. unfold dropping. specialize (Hm t).
  destruct (m t) as [r t']. eapply rtc_r; [exact Hm|]. by exists unit, ContextDrop.
Qed.

Lemma esys_bind_run {A B} (m : Esys T A) (f : A -> Esys T B) t b t'' :
  (m ≫= f) t = (Ok b, t'') -> exists a t', m t = (Ok a, t') /\ f a t' = (Ok b, t'').
Proof. unfold mbind, Esys_bind. destruct (m t) as [[a|e] t'] eqn:E; [|done]. eauto. Qed.

Lemma of_tss_run {A} op (r : result string A) (t : T) a t' : of_tss op r t = (Ok a, t') -> r = Ok a /\ t' = t.
Proof. unfold of_tss. destruct r; [|done]. by intros [= -> ->]. Qed.

Lemma call_run {A} op (c : Command A) (t : T) a t' : call op c t = (Ok a, t') -> exec c t = (Ok a, t').
Proof. unfold call. destruct (exec c t) as [[x|e] t2]; [|done]. by intros [= -> ->]. Qed.

Lemma call_Ok {A} op (c : Command A) (t : T) a : (exec c t).1 = Ok a -> call op c t = (Ok a, (exec c t).2).
Proof. unfold call. destruct (exec c t) as [r t']. simpl. by intros ->. Qed.
End Runs.
#[export] Hint Resolve advances_call advances_bind advances_if : leelo.

(** Take one step of a run that succeeded. *)
Ltac esys_step H E a t :=
  apply esys_bind_run in H; destruct H as (a & t & E & H).

Section Operations.
Context `{TssLibrary} {T : Type} `{!TssDevice T}.
Let kept := fun X (c : Command X) => keeps_objects c.

Lemma advances_start_session key kind : advances kept (start_session (T := T) key kind).
Proof. apply advances_bind; [by apply advances_call|]. intros [s|]; by apply advances_inert. Qed.

Lemma advances_apply_policy s d : advances kept (apply_policy (T := T) s d).
Proof.
  apply advances_bind; [apply advances_inert, inert_of_tss|]. intros p.
  apply advances_bind; [apply advances_inert, inert_of_tss|]. intros digest.
  apply advances_bind; [apply advances_inert, inert_selection|]. intros sel.
  do 2 (apply advances_bind; [by apply advances_call|]; intros _). by apply advances_inert.
Qed.

Lemma advances_expected_policy d : advances kept (expected_policy (T := T) d).
Proof.
  apply advances_bind; [apply advances_start_session|]. intros s.
  apply advances_bind; [apply advances_apply_policy|]. intros p.
  do 2 (apply advances_bind; [by apply advances_call|]; intros ?). by apply advances_inert.
Qed.

Lemma advances_create_parent : advances kept (create_parent (T := T)).
Proof.
  apply advances_bind; [apply advances_inert, inert_parent_public|]. intros template.
  apply advances_bind; [by apply advances_call|]. intros [key public].
  apply advances_bind; [apply advances_inert, inert_sha256_name|]. intros name.
  apply advances_bind; [by apply advances_call|]. intros loaded. apply advances_if; by apply advances_inert.
Qed.

Lemma advances_create_sealed d seed : advances kept (create_sealed (T := T) d seed).
Proof.
  apply advances_bind; [apply advances_expected_policy|]. intros policy.
  apply advances_bind; [apply advances_create_parent|]. intros [parent pname].
  apply advances_bind; [apply advances_start_session|]. intros s.
  apply advances_bind; [by apply advances_call|]. intros _.
  apply advances_bind; [apply advances_inert, inert_sealed_public|]. intros public.
  apply advances_bind; [apply advances_inert, inert_of_tss|]. intros sensitive.
  apply advances_bind; [by apply advances_call|]. intros [pub priv].
  apply advances_bind; [apply advances_inert, inert_validate_public|]. intros _.
  apply advances_bind; [apply advances_inert, inert_sha256_name|]. intros name.
  apply advances_bind; [apply advances_inert, inert_of_tss|]. intros bytes. by apply advances_inert.
Qed.

Lemma advances_unseal_object parent object d : advances kept (unseal_object (T := T) parent object d).
Proof.
  apply advances_bind; [apply advances_start_session|]. intros s.
  apply advances_bind; [apply advances_apply_policy|]. intros p.
  do 2 (apply advances_bind; [by apply advances_call|]; intros ?). apply advances_if; by apply advances_inert.
Qed.

Lemma advances_open_sealed d blob public private : advances kept (open_sealed (T := T) d blob public private).
Proof.
  apply advances_bind; [apply advances_expected_policy|]. intros policy.
  apply advances_bind; [apply advances_inert, inert_validate_public|]. intros _.
  apply advances_bind; [apply advances_create_parent|]. intros [parent name].
  apply advances_if; [by apply advances_inert|].
  do 2 (apply advances_bind; [by apply advances_call|]; intros ?).
  apply advances_if; [by apply advances_inert|apply advances_unseal_object].
Qed.

Lemma advances_read_pcr index st : advances kept (read_pcr (T := T) index st).
Proof.
  apply advances_bind; [apply advances_inert, inert_selection|]. intros sel.
  apply advances_bind; [by apply advances_call|]. intros [[cur ret] ds].
  destruct ds as [|d []]; try by apply advances_inert. repeat apply advances_if; by apply advances_inert.
Qed.

Lemma advances_read_pcrs mask indices st : advances kept (read_pcrs (T := T) mask indices st).
Proof.
  revert st. induction indices as [|i indices IH]; intros st; simpl; [by apply advances_inert|].
  apply advances_if; [apply IH|]. apply advances_bind; [apply advances_read_pcr|done].
Qed.
End Operations.
