(* ===== verification/TpmSeal.v ===== *)
(** Sealing and unsealing on a documented TPM: [pcr_digest] returns the digest of one state of the PCRs,
    [unseal] releases a seed only while the PCRs are as enrolled, and what [seal] made is unsealed by the same
    TPM. The adapter has the laws [TpmLaws] that the engine asks of its TPM provider. *)
From stdpp Require Import base list strings relations.
From Stdlib Require Import ZArith Lia.
From S2P Require Import Prelude Sss Plan Policy Session Release Crypto Wire Cbor Envelope Observation Engine Recovery Unlock Enroll Tpm TpmDevice.

Open Scope Z_scope.

(** * Results that do not depend on the device *)

Section Values.
Context `{TssLibrary}.

Definition valid_mask (mask : Z) : bool := negb ((mask =? 0) || negb (Z.land mask 0xff000000 =? 0)).
Definition select (mask : Z) : result string PcrSelectionList :=
  slots ← collect (fun index => pcr_slot_try_from (Z.shiftl 1 index)) (mask_indices mask);
  build_selection Sha256 slots.
Definition parent_template : result string Public :=
  attributes ← build_attributes PARENT_FLAGS;
  parameters ← build_ecc_parameters AES_128_CFB NistP256;
  build_public (mk_public_builder EccAlgorithm Sha256 attributes None (EccKeyParameters parameters) (EccUnique [] [])).

(** The policy of a descriptor: its PCR digest over its selection, and only for Unseal. *)
Definition policy_of (d : Descriptor) (sel : PcrSelectionList) : list Assertion :=
  [AssertPcr (tpm_pcr_digest d) sel; AssertCommandCode UnsealCode].

(** The public area of an object sealed under a policy. *)
Definition sealed_under (public : Public) (policy : list Z) : Prop :=
  exists attributes id, build_attributes SEALED_FLAGS = Ok attributes /\
    as_keyed_hash public = Some (mk_keyed_hash attributes Sha256 policy NullScheme id) /\ length id = 32%nat.

Context {T : Type} `{!TssDevice T}.
Ltac settle := split; intros; destruct_and?; simplify_eq; eauto.

Lemma selection_run mask (t : T) sel t' :
  selection mask t = (Ok sel, t') <-> valid_mask mask = true /\ select mask = Ok sel /\ t' = t.
Proof.
  unfold selection, validate_mask, valid_mask, select, of_tss, reject, mbind, Esys_bind.
  destruct (_ || _); simpl; [settle|]. destruct (collect _ _); simpl; [|settle].
  destruct (build_selection _ _); simpl; settle.
Qed.

Lemma parent_public_run (t : T) template t' :
  parent_public t = (Ok template, t') <-> parent_template = Ok template /\ t' = t.
Proof.
  unfold parent_public, parent_template, of_tss, mbind, Esys_bind. simpl.
  destruct (build_attributes _); simpl; [|settle]. destruct (build_ecc_parameters _ _); simpl; [|settle].
  destruct (build_public _); simpl; settle.
Qed.

Lemma sha256_name_run public (t : T) name t' :
  sha256_name public t = (Ok name, t') <-> name_hashing_algorithm public = Sha256 /\ named public name /\ t' = t.
Proof.
  unfold sha256_name, named, of_tss, reject, mbind, Esys_bind. case_bool_decide; simpl; [|settle].
  destruct (marshall public) as [b|]; simpl; split; [intros [= <- ->]; eauto|..].
  - by intros (_ & (? & [= <-] & ->) & ->).
  - done.
  - by intros (_ & (? & ? & _) & _).
Qed.

Lemma validate_public_run public expected (t : T) u t' :
  validate_public public expected t = (Ok u, t') <-> sealed_under public expected /\ t' = t.
Proof.
  unfold validate_public, sealed_under, sealed_attributes, of_tss, reject, mbind, Esys_bind. destruct u.
  destruct (as_keyed_hash public) as [[att alg pol par id]|]; simpl; [|split; [done|intros [(? & ? & _ & ? & _) _]; done]].
  destruct (build_attributes _) as [a|]; simpl; [|split; [done|intros [(? & ? & ? & _) _]; done]]. split.
  - repeat case_bool_decide; simpl; try done. destruct (Nat.eqb_spec (length id) 32); simpl; [|done].
    intros [= ->]. subst. eauto 10.
  - intros [(a' & id' & [= <-] & [= -> -> -> -> ->] & ->) ->]. by rewrite !bool_decide_eq_true_2.
Qed.

Lemma named_fun public n n' : named public n -> named public n' -> n = n'.
Proof. intros (b & Hb & ->) (b' & Hb' & ->). rewrite Hb in Hb'. by injection Hb' as <-. Qed.
End Values.

Section Laws.
Context {T : Type} `{TssLaws T}.

Lemma runs_later P (t t' : T) : rtc (device_step P) t t' ->
  storage_key t' = storage_key t /\ pcr_counter t <= pcr_counter t' /\
  (pcr_counter t' = pcr_counter t -> forall i, pcrs t' i = pcrs t i) /\
  forall parent private public sensitive, wrapped t parent private public sensitive -> wrapped t' parent private public sensitive.
Proof.
  induction 1 as [|t u t' (X & c & _ & <-) _ (Hk & Hc & Hp & Hw)]; [split_and!; done|].
  destruct (exec_pcrs X c t) as [Hc1 Hp1]. split_and!; [by rewrite Hk, exec_storage_key|lia| |].
  - intros E i. rewrite Hp by lia. apply Hp1. lia.
  - intros. by apply Hw, exec_wrapped.
Qed.

Lemma runs_objects (t t' : T) h o :
  rtc (device_step (fun X c => keeps_objects c)) t t' -> object_at t h = Some o -> object_at t' h = Some o.
Proof. induction 1 as [|t u t' (X & c & Hc & <-) _ IH]; [done|]. intros Ho. by apply IH, exec_objects. Qed.

(** The state after an operation of the context. *)
Lemma advances_run P {A} (m : Esys T A) t r t' : advances P m -> m t = (r, t') -> rtc (device_step P) t t'.
Proof. intros Hm E. specialize (Hm t). by rewrite E in Hm. Qed.

Lemma apply_policy_Ok s d (t : T) p t' :
  apply_policy s d t = (Ok p, t') ->
  policy_try_from s = Ok p /\ valid_mask (tpm_pcr_mask d) = true /\ exists sel, select (tpm_pcr_mask d) = Ok sel /\
    forall b, policy_at t p = Some (mk_policy_state b []) -> policy_at t' p = Some (mk_policy_state b (policy_of d sel)).
Proof.
  intros Hrun. esys_step Hrun E1 p0 t0. apply of_tss_run in E1 as [Hp ->].
  esys_step Hrun E2 digest t0. apply of_tss_run in E2 as [Hd ->]. apply digest_try_from_Ok in Hd as ->.
  esys_step Hrun E3 sel t0. apply selection_run in E3 as (Hm & Hsel & ->).
  esys_step Hrun E4 u4 t4. apply call_run in E4. esys_step Hrun E5 u5 t5. apply call_run in E5.
  injection Hrun as <- <-. split_and!; [done|done|]. exists sel. split; [done|]. intros b Hb.
  destruct u4, u5. eapply policy_pcr_Ok in E4; [|exact Hb]. by eapply policy_command_code_Ok in E5; [|exact E4].
Qed.

Lemma start_session_run key kind (t : T) s t' :
  start_session key kind t = (Ok s, t') -> exec (StartAuthSession key kind AES_128_CFB Sha256) t = (Ok (Some s), t').
Proof.
  intros Hrun. esys_step Hrun E1 o t1. apply call_run in E1. destruct o; [|done]. by injection Hrun as <- <-.
Qed.

Lemma expected_policy_Ok d (t : T) digest t' :
  expected_policy d t = (Ok digest, t') ->
  valid_mask (tpm_pcr_mask d) = true /\ exists sel, select (tpm_pcr_mask d) = Ok sel /\ digest = policy_digest (policy_of d sel).
Proof.
  intros Hrun. esys_step Hrun E1 s t1. apply start_session_run in E1.
  esys_step Hrun E2 p t2. apply apply_policy_Ok in E2 as (Hp & Hm & sel & Hsel & Hpol).
  esys_step Hrun E3 dg t3. apply call_run in E3. esys_step Hrun E4 u t4. injection Hrun as <- <-.
  split; [done|]. exists sel. split; [done|]. eapply start_session_Ok in E1; [|done|done].
  apply Hpol in E1. by eapply policy_get_digest_Ok in E3; [|exact E1].
Qed.

Lemma create_parent_Ok (t : T) key name t' :
  create_parent t = (Ok (key, name), t') ->
  exists template, parent_template = Ok template /\ named (storage_key t template) name /\
    object_at t' key = Some (mk_object (storage_key t template) None).
Proof.
  intros Hrun. esys_step Hrun E1 template t1. apply parent_public_run in E1 as [Htpl ->].
  esys_step Hrun E2 kp t2. destruct kp as [k pub]. apply call_run in E2.
  apply create_primary_Ok in E2 as [-> Hobj].
  esys_step Hrun E3 n t3. apply sha256_name_run in E3 as (_ & Hn & ->).
  esys_step Hrun E4 l t4. apply call_run in E4. pose proof (exec_objects _ (TrGetName k) t2 _ _ eq_refl Hobj) as Hobj'.
  rewrite E4 in Hobj'. simpl in Hobj'. case_bool_decide; [|done]. injection Hrun as <- <- <-. by exists template.
Qed.

(** ** Reading the PCRs *)

Lemma single_index index : 0 <= index < 24 -> mask_indices (Z.shiftl 1 index) = [index].
Proof.
  intros Hi. assert (Forall (fun i => mask_indices (Z.shiftl 1 i) = [i]) (seqZ 0 24)) as Hall by decided.
  rewrite Forall_forall in Hall. apply Hall. apply elem_of_seqZ. lia.
Qed.

Lemma read_pcr_Ok index st (t : T) st' t' :
  0 <= index < 24 -> read_pcr index st t = (Ok st', t') ->
  (st.1 = None \/ st.1 = Some (pcr_counter t)) /\ st' = (Some (pcr_counter t), st.2 ++ pcrs t index).
Proof.
  intros Hi Hrun. esys_step Hrun E1 sel t1. apply selection_run in E1 as (_ & Hsel & ->).
  esys_step Hrun E2 ans t2. destruct ans as [[cur ret] ds]. apply call_run in E2.
  apply bind_Ok in Hsel as (slots & Hslots & Hsel). eapply selection_indices in Hsel; [|exact Hslots].
  rewrite single_index in Hsel by done. apply pcr_read_Ok in E2 as [-> Hds].
  destruct ds as [|dg [|]]; [done| |done]. case_bool_decide as Er; [|done]. simpl in Hrun.
  specialize (Hds Er). rewrite Hsel in Hds. injection Hds as ->. destruct (length _ =? 32)%nat; [|done]. simpl in Hrun.
  destruct (st.1) as [prev|] eqn:Eprev; simpl in Hrun.
  - destruct (Z.eqb_spec prev (pcr_counter t)) as [->|]; [|done]. simpl in Hrun. injection Hrun as <- <-. auto.
  - injection Hrun as <- <-. auto.
Qed.

(** All reads see the PCRs of the first one. *)
Lemma read_pcrs_same mask indices (u : T) n acc t st' t' :
  (forall i, i ∈ indices -> 0 <= i < 24) -> pcr_counter u = n -> rtc (device_step (fun X c => keeps_objects c)) u t ->
  read_pcrs mask indices (Some n, acc) t = (Ok st', t') ->
  st'.2 = acc ++ concat (map (pcrs u) (filter (fun i => Z.land mask (Z.shiftl 1 i) <> 0) indices)).
Proof.
  intros Hr Hu. revert acc t. induction indices as [|i indices IH]; intros acc t Hut Hrun.
  { simpl in Hrun. injection Hrun as <- <-. by rewrite app_nil_r. }
  rewrite filter_cons. simpl in Hrun. destruct (Z.eqb_spec (Z.land mask (Z.shiftl 1 i)) 0) as [E|E].
  { rewrite decide_False by auto. eapply IH; [|done|exact Hrun]. intros j Hj. apply Hr. by right. }
  rewrite decide_True by done. esys_step Hrun E1 st1 t1.
  pose proof (advances_run _ _ _ _ _ (advances_read_pcr i (Some n, acc)) E1) as Hadv.
  apply read_pcr_Ok in E1 as [[?|Hn] ->]; [done| |apply Hr; by left]. simpl in Hn. injection Hn as Hn.
  destruct (runs_later _ _ _ Hut) as (_ & _ & Hp & _). rewrite <- Hn in Hrun.
  apply IH in Hrun; [|intros j Hj; apply Hr; by right|by etrans]. rewrite Hrun. simpl. rewrite Hp by lia. by rewrite app_assoc.
Qed.

Lemma read_pcrs_snapshot mask indices acc (t : T) st' t' :
  (forall i, i ∈ indices -> 0 <= i < 24) -> read_pcrs mask indices (None, acc) t = (Ok st', t') ->
  exists u, rtc (device_step (fun X c => keeps_objects c)) t u /\ rtc (device_step (fun X c => keeps_objects c)) u t' /\
    st'.2 = acc ++ concat (map (pcrs u) (filter (fun i => Z.land mask (Z.shiftl 1 i) <> 0) indices)).
Proof.
  intros Hr. revert t. induction indices as [|i indices IH]; intros t Hrun.
  { simpl in Hrun. injection Hrun as <- <-. exists t. by rewrite app_nil_r. }
  rewrite filter_cons. simpl in Hrun. destruct (Z.eqb_spec (Z.land mask (Z.shiftl 1 i)) 0) as [E|E].
  { rewrite decide_False by auto. apply IH; [|done]. intros j Hj. apply Hr. by right. }
  rewrite decide_True by done. exists t. split; [done|].
  esys_step Hrun E1 st1 t1.
  pose proof (advances_run _ _ _ _ _ (advances_read_pcr i (None, acc)) E1) as Hadv1.
  apply read_pcr_Ok in E1 as [_ ->]; [|apply Hr; by left]. simpl in Hrun.
  split; [etrans; [exact Hadv1|exact (advances_run _ _ _ _ _ (advances_read_pcrs _ _ _) Hrun)]|].
  eapply read_pcrs_same in Hrun; [|intros j Hj; apply Hr; by right|done|done]. rewrite Hrun. simpl. by rewrite app_assoc.
Qed.

Lemma run_storage_key P {A} (m : Esys T A) t r t' : advances P m -> m t = (r, t') -> storage_key t' = storage_key t.
Proof. intros Hm E. by apply (runs_later _ _ _ (advances_run _ _ _ _ _ Hm E)). Qed.

Lemma run_object {A} (m : Esys T A) t r t' h o :
  advances (fun X c => keeps_objects c) m -> m t = (r, t') -> object_at t h = Some o -> object_at t' h = Some o.
Proof. intros Hm E. apply runs_objects. by apply (advances_run _ _ _ _ _ Hm E). Qed.

(** ** Sealing *)

(** The blob is an object under the policy of the descriptor that the device wrapped a seed in. *)
Record sealed_blob (t : T) (d : Descriptor) (blob : TpmBlob) (sensitive : list Z)
    (template public : Public) (sel : PcrSelectionList) : Prop := {
  sb_mask : valid_mask (tpm_pcr_mask d) = true;
  sb_select : select (tpm_pcr_mask d) = Ok sel;
  sb_template : parent_template = Ok template;
  sb_public : marshall public = Ok (tpm_public blob);
  sb_hash : name_hashing_algorithm public = Sha256;
  sb_sealed : sealed_under public (policy_digest (policy_of d sel));
  sb_name : named public (tpm_name blob);
  sb_parent : named (storage_key t template) (parent_name blob);
  sb_wrapped : wrapped t (storage_key t template) (tpm_private blob) public sensitive;
  sb_private : byte_slice (tpm_private blob) /\ private_try_from (tpm_private blob) = Ok (tpm_private blob);
}.

(** It stays one on every device with the same storage key and wrapped objects. *)
Lemma sealed_blob_later (t t' : T) d blob sensitive template public sel :
  storage_key t' = storage_key t ->
  (forall parent private pub sens, wrapped t parent private pub sens -> wrapped t' parent private pub sens) ->
  sealed_blob t d blob sensitive template public sel -> sealed_blob t' d blob sensitive template public sel.
Proof. intros Hk Hw []. constructor; try done; rewrite ?Hk; auto. Qed.

Lemma create_sealed_Ok d sd (t : T) blob t' :
  create_sealed d sd t = (Ok blob, t') -> exists template public sel, sealed_blob t' d blob sd template public sel.
Proof.
  intros Hrun. esys_step Hrun E1 pol t1. apply expected_policy_Ok in E1 as (Hm & sel & Hsel & ->).
  esys_step Hrun E2 kn t2. destruct kn as [parent pname]. pose proof (run_storage_key _ _ _ _ _ advances_create_parent E2) as K2.
  apply create_parent_Ok in E2 as (template & Htpl & Hname & Hobj). rewrite <- K2 in Hname, Hobj.
  esys_step Hrun E3 s t3. pose proof (run_storage_key _ _ _ _ _ (advances_start_session _ _) E3) as K3.
  apply (run_object _ _ _ _ _ _ (advances_start_session _ _) E3) in Hobj.
  esys_step Hrun E4 u4 t4. unfold set_protection in E4. apply call_run in E4.
  pose proof (exec_storage_key _ (TrSessSetAttributes s (mk_session_attributes true true true)) t3) as K4.
  apply (exec_objects _ (TrSessSetAttributes s (mk_session_attributes true true true)) t3) in Hobj; [|done].
  rewrite E4 in K4, Hobj. simpl in K4, Hobj.
  esys_step Hrun E5 pub0 t5. pose proof (inert_sealed_public (policy_digest (policy_of d sel)) t4) as Hi5.
  rewrite E5 in Hi5. simpl in Hi5. subst t5.
  esys_step Hrun E6 sens t6. apply of_tss_run in E6 as [Hsens ->]. apply sensitive_try_from_Ok in Hsens as ->.
  esys_step Hrun E7 pp t7. destruct pp as [pub priv]. apply call_run in E7.
  pose proof (exec_storage_key _ (Create s parent pub0 sd) t4) as K7. rewrite E7 in K7. simpl in K7.
  destruct (create_Ok _ _ _ _ _ _ _ _ _ E7 Hobj) as (Hw & Hb & Hp). simpl in Hw.
  esys_step Hrun E8 v8 t8. apply validate_public_run in E8 as [Hsealed ->].
  esys_step Hrun E9 name t9. apply sha256_name_run in E9 as (Hh & Hn & ->).
  esys_step Hrun E10 bytes t10. apply of_tss_run in E10 as [Hbytes ->]. injection Hrun as <- <-.
  exists template, pub, sel. constructor; try done; simpl; by rewrite K7, K4, K3.
Qed.

(** An operation in a context: its run, and the drop after it. *)
Lemma with_context_run {A} c (m : Esys T A) t a t' :
  with_context c m t = (Ok a, t') -> exists t1 t2, exec (ContextNew c) t = (Ok tt, t1) /\
    m t1 = (Ok a, t2) /\ t' = (exec ContextDrop t2).2.
Proof.
  intros Hrun. esys_step Hrun E1 u t1. apply call_run in E1. unfold dropping in Hrun.
  destruct (m t1) as [r t2] eqn:Em. injection Hrun as -> <-. destruct u. eauto.
Qed.

Section Seed.
Context `{Primitives} `{Cbor}.

Lemma require_network_bound_run d (t : T) u t' :
  require_network_bound d t = (Ok u, t') <->
  mode (policy d) = NetworkBound /\ is_ok (descriptor_bytes d) = true /\ t' = t.
Proof.
  unfold require_network_bound. destruct u. case_bool_decide; simpl; [|naive_solver].
  destruct (descriptor_bytes d); simpl; naive_solver.
Qed.

Lemma seal_Ok c d sd (t : T) blob t' :
  seal c d sd t = (Ok blob, t') ->
  mode (policy d) = NetworkBound /\ is_ok (descriptor_bytes d) = true /\
  exists template public sel, sealed_blob t' d blob sd template public sel.
Proof.
  intros Hrun. esys_step Hrun E1 u1 t1. apply require_network_bound_run in E1 as (Hmode & Hd & ->).
  apply with_context_run in Hrun as (t1 & t2 & _ & Hrun & ->). split_and!; [done|done|].
  apply create_sealed_Ok in Hrun as (template & public & sel & Hb). exists template, public, sel.
  eapply sealed_blob_later; [apply exec_storage_key|intros; by apply exec_wrapped|done].
Qed.
End Seed.

(** ** Unsealing *)

Lemma parse_blob_run blob (t : T) public private t' :
  parse_blob blob t = (Ok (public, private), t') <->
  unmarshall (tpm_public blob) = Ok public /\ marshall public = Ok (tpm_public blob) /\
  name_hashing_algorithm public = Sha256 /\ named public (tpm_name blob) /\ length (parent_name blob) = 34%nat /\
  private_try_from (tpm_private blob) = Ok private /\ t' = t.
Proof.
  split.
  - intros Hrun. esys_step Hrun E1 pub t1. apply of_tss_run in E1 as [Hu ->].
    esys_step Hrun E2 bytes t2. apply of_tss_run in E2 as [Hm ->]. case_bool_decide; [subst|done].
    esys_step Hrun E3 name t3. apply sha256_name_run in E3 as (Hh & Hn & ->).
    case_bool_decide; [subst|done]. destruct (Nat.eqb_spec (length (parent_name blob)) 34); [|done].
    esys_step Hrun E4 priv t4. apply of_tss_run in E4 as [Hp ->]. injection Hrun as <- <- <-. done.
  - intros (Hu & Hm & Hh & Hn & Hl & Hp & ->). unfold parse_blob, mbind, Esys_bind, of_tss. rewrite Hu. simpl. rewrite Hm. simpl.
    rewrite bool_decide_eq_true_2 by done. simpl.
    rewrite (proj2 (sha256_name_run public t _ t) (conj Hh (conj Hn eq_refl))). simpl.
    rewrite bool_decide_eq_true_2, Hl by done. simpl. by rewrite Hp.
Qed.

(** At some moment of the run the PCRs had the digest of the descriptor. *)
Definition pcrs_match (d : Descriptor) (t : T) : Prop :=
  sha256 (concat (map (pcrs t) (mask_indices (tpm_pcr_mask d)))) = tpm_pcr_digest d.

Lemma select_indices mask sel : select mask = Ok sel -> selected_indices sel = mask_indices mask.
Proof. intros (slots & Hs & Hb)%bind_Ok. by eapply selection_indices. Qed.

Lemma unseal_object_Ok parent object d (t : T) u t' o :
  object_at t object = Some o -> unseal_object parent object d t = (Ok u, t') ->
  object_secret o = Some (unsealed_seed u) /\ length (unsealed_seed u) = 32%nat /\ authorization u = LocalMeasuredBoot /\
  exists v, rtc (device_step (fun X c => keeps_objects c)) t v /\ device_step (fun X c => keeps_objects c) v t' /\ pcrs_match d v.
Proof.
  intros Hobj Hrun. esys_step Hrun E1 s t1. pose proof (advances_run _ _ _ _ _ (advances_start_session _ _) E1) as R1.
  apply start_session_run in E1. esys_step Hrun E2 p t2.
  pose proof (advances_run _ _ _ _ _ (advances_apply_policy _ _) E2) as R2.
  apply apply_policy_Ok in E2 as (Hp & _ & sel & Hsel & Hpol).
  eapply start_session_Ok in E1; [|done|exact Hp]. apply Hpol in E1.
  esys_step Hrun E3 u3 t3. unfold set_protection in E3. apply call_run in E3.
  set (cmd := TrSessSetAttributes s (mk_session_attributes true false true)) in *.
  apply (exec_policies _ cmd t2) in E1; [|done]. rewrite E3 in E1. simpl in E1.
  assert (rtc (device_step (fun X c => keeps_objects c)) t t3) as R.
  { etrans; [exact R1|]. eapply rtc_r; [exact R2|]. exists unit, cmd. by rewrite E3. }
  esys_step Hrun E4 v t4. apply call_run in E4. apply (runs_objects t t3) in Hobj; [|done].
  destruct (unseal_Ok _ _ _ _ _ _ _ _ E4 Hp E1 Hobj) as (Hsec & _ & _ & Hpcr).
  destruct (Nat.eqb_spec (length v) 32); [|done]. injection Hrun as <- <-. simpl. split_and!; try done.
  exists t3. split_and!; [done|exists (list Z), (Unseal s object); by rewrite E4|].
  unfold pcrs_match. rewrite <- (select_indices _ _ Hsel). apply Hpcr. by left.
Qed.

(** What [unseal] has established when it returns a seed. *)
Record unsealed_from (t t' : T) (d : Descriptor) (blob : TpmBlob) (sensitive : list Z)
    (template public : Public) (sel : PcrSelectionList) : Prop := {
  uf_public : marshall public = Ok (tpm_public blob);
  uf_name : named public (tpm_name blob);
  uf_select : select (tpm_pcr_mask d) = Ok sel;
  uf_sealed : sealed_under public (policy_digest (policy_of d sel));
  uf_template : parent_template = Ok template;
  uf_parent : named (storage_key t template) (parent_name blob);
  uf_pcrs : exists v, rtc (device_step (fun _ _ => true)) t v /\ rtc (device_step (fun _ _ => true)) v t' /\ pcrs_match d v;
  uf_seed : forall sd, wrapped t (storage_key t template) (tpm_private blob) public sd -> sensitive = sd;
}.

Lemma steps_any P (t t' : T) : rtc (device_step P) t t' -> rtc (device_step (fun _ _ => true)) t t'.
Proof. apply rtc_subrel. intros x y (X & c & _ & E). by exists X, c. Qed.

Lemma open_sealed_Ok d blob public (t : T) u t' :
  marshall public = Ok (tpm_public blob) -> named public (tpm_name blob) ->
  open_sealed d blob public (tpm_private blob) t = (Ok u, t') ->
  length (unsealed_seed u) = 32%nat /\ authorization u = LocalMeasuredBoot /\
  exists template sel, unsealed_from t t' d blob (unsealed_seed u) template public sel.
Proof.
  intros Hpub Hname Hrun. esys_step Hrun E1 pol t1.
  pose proof (advances_run _ _ _ _ _ (advances_expected_policy _) E1) as R1.
  apply expected_policy_Ok in E1 as (_ & sel & Hsel & ->).
  esys_step Hrun E2 u2 t2. apply validate_public_run in E2 as [Hsealed ->].
  esys_step Hrun E3 kn t3. destruct kn as [parent pname].
  pose proof (advances_run _ _ _ _ _ advances_create_parent E3) as R3.
  apply create_parent_Ok in E3 as (template & Htpl & Hpn & Hobj).
  case_bool_decide; [subst pname|done]. simpl in Hrun.
  destruct (runs_later _ _ _ R1) as (K1 & _ & _ & W1). destruct (runs_later _ _ _ R3) as (K3 & _ & _ & W3).
  esys_step Hrun E4 object t4. apply call_run in E4. destruct (load_Ok _ _ _ _ _ _ _ _ E4 Hobj) as [(sec & Hobj4) Hw].
  assert (device_step (fun X c => keeps_objects c) t3 t4) as R4.
  { exists Handle, (Load Password parent (tpm_private blob) public). by rewrite E4. }
  esys_step Hrun E5 loaded t5. apply call_run in E5. case_bool_decide; [|done]. simpl in Hrun.
  assert (device_step (fun X c => keeps_objects c) t4 t5) as R5 by (exists (list Z), (TrGetName object); by rewrite E5).
  assert (rtc (device_step (fun X c => keeps_objects c)) t t5) as R.
  { etrans; [exact R1|]. etrans; [exact R3|]. by do 2 (eapply rtc_l; [eassumption|]). }
  pose proof (runs_objects t4 t5 _ _ (rtc_once _ _ R5) Hobj4) as Hobj5.
  destruct (unseal_object_Ok _ _ _ _ _ _ _ Hobj5 Hrun) as (Hs & Hl & Ha & v & Rv & Rv' & Hpcr).
  split_and!; [done|done|]. exists template, sel. constructor; try done.
  - by rewrite <- K1.
  - exists v. split_and!; [apply (steps_any (fun X c => keeps_objects c)); by etrans| |done].
    by apply (steps_any (fun X c => keeps_objects c)), rtc_once.
  - intros sd Hsd. specialize (Hw sd). simpl in Hw. rewrite K1 in Hw. rewrite (Hw (W3 _ _ _ _ (W1 _ _ _ _ Hsd))) in Hobj4.
    injection Hobj4 as <-. simpl in Hs. by injection Hs as <-.
Qed.

Section Unseal.
Context `{Primitives} `{Cbor}.

Lemma unseal_run c envelope (t : T) u t' :
  let d := descriptor (body envelope) in
  unseal c envelope t = (Ok u, t') ->
  mode (policy d) = NetworkBound /\ is_ok (descriptor_bytes d) = true /\
  length (unsealed_seed u) = 32%nat /\ authorization u = LocalMeasuredBoot /\
  exists template public sel, unsealed_from t t' d (tpm (body envelope)) (unsealed_seed u) template public sel.
Proof.
  intros d Hrun. esys_step Hrun E1 u1 t1. apply require_network_bound_run in E1 as (Hmode & Hd & ->).
  esys_step Hrun E2 pp t2. destruct pp as [public private].
  apply parse_blob_run in E2 as (_ & Hpub & _ & Hname & _ & Hp & ->). apply private_try_from_Ok in Hp as ->.
  apply with_context_run in Hrun as (t1 & t2 & E1 & Hrun & ->).
  assert (rtc (device_step (fun _ _ => true)) t t1) as R1 by (apply rtc_once; exists unit, (ContextNew c); by rewrite E1).
  apply open_sealed_Ok in Hrun as (Hl & Ha & template & sel & [U1 U2 U3 U4 U5 U6 (v & Rv & Rv' & Hv) U8]); [|done|done].
  split_and!; [done|done|done|done|]. exists template, public, sel.
  destruct (runs_later _ _ _ R1) as (K1 & _ & _ & W1). constructor; try done.
  - by rewrite <- K1.
  - exists v. split_and!; [by etrans| |done]. eapply rtc_r; [exact Rv'|]. by exists unit, ContextDrop.
  - intros sd Hsd. apply U8. rewrite K1. by apply W1.
Qed.
End Unseal.
End Laws.

(** * A working device *)

Section Works.
Context {T : Type} `{TssWorks T}.

Lemma working_counter P (t t' : T) : working t -> rtc (device_step P) t t' -> working t' /\ pcr_counter t' = pcr_counter t.
Proof.
  intros Hw R. induction R as [|t u t' (X & c & _ & <-) _ IH]; [done|].
  destruct (exec_working X c t Hw) as [Hw' Hc]. destruct (IH Hw'). split; [done|congruence].
Qed.

Lemma working_runs P (t t' : T) : working t -> rtc (device_step P) t t' -> working t' /\ forall i, pcrs t' i = pcrs t i.
Proof. intros Hw R. destruct (working_counter _ _ _ Hw R). split; [done|]. by apply (runs_later _ _ _ R). Qed.

Lemma working_run {P A} {m : Esys T A} {t r t'} :
  advances P m -> m t = (r, t') -> working t -> working t' /\ forall i, pcrs t' i = pcrs t i.
Proof. intros Hm E Hw. by apply (working_runs P), (advances_run _ _ _ _ _ Hm E). Qed.

Lemma bind_runs {A B} (m : Esys T A) (f : A -> Esys T B) t a t' r : m t = (Ok a, t') -> f a t' = r -> (m ≫= f) t = r.
Proof. intros Hm Hf. unfold mbind, Esys_bind. by rewrite Hm. Qed.

Lemma collect_Ok {E A B} (f : A -> result E B) l : (forall a, a ∈ l -> exists b, f a = Ok b) -> exists bs, collect f l = Ok bs.
Proof.
  induction l as [|a l IH]; intros Hf; [by exists []|]. destruct (Hf a) as [b Hb]; [by left|].
  destruct IH as [bs Hbs]; [intros; apply Hf; by right|]. exists (b :: bs). simpl. by rewrite Hb, Hbs.
Qed.

Lemma select_works mask : exists sel, select mask = Ok sel.
Proof.
  destruct (collect_Ok (fun index => pcr_slot_try_from (Z.shiftl 1 index)) (mask_indices mask)) as [slots Hs].
  { intros i Hi. apply builds_slot. apply list_elem_of_filter in Hi as [_ Hi]. apply elem_of_seqZ in Hi. lia. }
  destruct (builds_selection slots) as [sel Hsel]. exists sel. unfold select. by rewrite Hs.
Qed.

Lemma parent_template_works : exists template, parent_template = Ok template /\
  forall t, working t -> name_hashing_algorithm (storage_key t template) = Sha256 /\
    exists bytes, marshall (storage_key t template) = Ok bytes.
Proof.
  destruct (builds_attributes PARENT_FLAGS) as [a Ha]; [by right|].
  destruct (builds_parent a Ha) as (ecc & template & He & Ht & Hk). exists template. split; [|done].
  unfold parent_template. rewrite Ha. simpl. rewrite He. simpl. done.
Qed.

Lemma start_session_runs key kind (t : T) :
  working t -> match key with Some h => is_Some (object_at t h) | None => True end ->
  exists s t', start_session key kind t = (Ok s, t') /\ (kind <> Hmac -> exists p, policy_try_from s = Ok p).
Proof.
  intros Hw Hk. destruct (start_session_works key kind t Hw Hk) as (s & Hs & Hp). exists s. eexists. split; [|done].
  eapply bind_runs; [exact (call_Ok _ _ _ _ Hs)|done].
Qed.

Lemma apply_policy_runs s p d (t : T) b :
  working t -> policy_try_from s = Ok p -> policy_at t p = Some (mk_policy_state b []) ->
  valid_mask (tpm_pcr_mask d) = true -> length (tpm_pcr_digest d) = 32%nat -> (b = true -> pcrs_match d t) ->
  exists t', apply_policy s d t = (Ok p, t').
Proof.
  intros Hw Hp Hb Hm Hl Hpcr. destruct (select_works (tpm_pcr_mask d)) as [sel Hsel].
  assert ((exec (PolicyPcr p (tpm_pcr_digest d) sel) t).1 = Ok tt) as E1.
  { eapply policy_pcr_works; [done|exact Hb|]. simpl. rewrite (select_indices _ _ Hsel). done. }
  destruct (exec (PolicyPcr p (tpm_pcr_digest d) sel) t) as [r t1] eqn:X1. simpl in E1. subst r.
  destruct (exec_working _ (PolicyPcr p (tpm_pcr_digest d) sel) t Hw) as [Hw1 _]. rewrite X1 in Hw1. simpl in Hw1.
  pose proof (policy_pcr_Ok _ _ _ _ _ _ X1 Hb) as Hst. simpl in Hst.
  pose proof (policy_command_code_works p UnsealCode t1 _ Hw1 Hst) as E2. eexists.
  eapply bind_runs; [unfold of_tss; by rewrite Hp|].
  eapply bind_runs; [unfold of_tss; by rewrite builds_digest by lia|].
  eapply bind_runs; [by apply selection_run|].
  eapply bind_runs; [unfold call; by rewrite X1|]. eapply bind_runs; [exact (call_Ok _ _ _ _ E2)|done].
Qed.

Lemma expected_policy_runs d (t : T) :
  working t -> valid_mask (tpm_pcr_mask d) = true -> length (tpm_pcr_digest d) = 32%nat ->
  exists digest t', expected_policy d t = (Ok digest, t').
Proof.
  intros Hw Hm Hl. destruct (start_session_runs None Trial t Hw I) as (s & t1 & E1 & [p Hp]); [done|].
  destruct (working_run (advances_start_session _ _) E1 Hw) as [Hw1 _].
  pose proof (start_session_Ok _ _ _ _ _ _ _ _ (start_session_run _ _ _ _ _ E1) ltac:(done) Hp) as Hst. simpl in Hst.
  destruct (apply_policy_runs s p d t1 false Hw1 Hp Hst Hm Hl ltac:(done)) as [t2 E2].
  destruct (working_run (advances_apply_policy _ _) E2 Hw1) as [Hw2 _].
  destruct (apply_policy_Ok _ _ _ _ _ E2) as (_ & _ & sel & _ & Hpol). apply Hpol in Hst.
  destruct (policy_get_digest_works p t2 _ Hw2 Hst) as [digest E3].
  destruct (exec_working _ (PolicyGetDigest p) t2 Hw2) as [Hw3 _].
  exists digest. eexists. eapply bind_runs; [exact E1|]. eapply bind_runs; [exact E2|].
  eapply bind_runs; [exact (call_Ok _ _ _ _ E3)|].
  eapply bind_runs; [exact (call_Ok _ _ _ _ (flush_works s _ Hw3))|done].
Qed.

Lemma create_parent_runs (t : T) : working t -> exists key name t', create_parent t = (Ok (key, name), t').
Proof.
  intros Hw. destruct parent_template_works as (template & Ht & Hk).
  destruct (create_primary_works template t Hw) as (key & public & E1).
  destruct (exec (CreatePrimary Password Owner template) t) as [r t1] eqn:X1. simpl in E1. subst r.
  destruct (create_primary_Ok _ _ _ _ _ _ _ X1) as [-> Hobj]. destruct (Hk t Hw) as [Hh [bytes Hb]].
  destruct (exec_working _ (CreatePrimary Password Owner template) t Hw) as [Hw1 _]. rewrite X1 in Hw1. simpl in Hw1.
  destruct (tr_get_name_works key t1 _ Hw1 Hobj) as [name E2].
  assert (named (storage_key t template) name) as Hn.
  { destruct (exec (TrGetName key) t1) as [r t2] eqn:X2. simpl in E2. subst r. exact (tr_get_name_Ok _ _ _ _ _ X2 Hobj). }
  exists key, name. eexists. eapply bind_runs; [by apply parent_public_run|].
  eapply bind_runs; [unfold call; by rewrite X1|]. simpl. eapply bind_runs; [by apply sha256_name_run|].
  eapply bind_runs; [exact (call_Ok _ _ _ _ E2)|]. by rewrite bool_decide_eq_true_2.
Qed.

Lemma pcrs_match_eq d (t t' : T) : (forall i, pcrs t' i = pcrs t i) -> pcrs_match d t -> pcrs_match d t'.
Proof. intros E. unfold pcrs_match. by rewrite (map_ext _ _ E). Qed.

Lemma unseal_object_runs parent object d (t : T) po public sd sel :
  working t -> valid_mask (tpm_pcr_mask d) = true -> length (tpm_pcr_digest d) = 32%nat -> pcrs_match d t ->
  object_at t parent = Some po -> object_at t object = Some (mk_object public (Some sd)) -> length sd = 32%nat ->
  select (tpm_pcr_mask d) = Ok sel -> sealed_under public (policy_digest (policy_of d sel)) ->
  exists u t', unseal_object parent object d t = (Ok u, t') /\ unsealed_seed u = sd.
Proof.
  intros Hw Hm Hl Hpcr Hpo Hobj Hsd Hsel (att & id & _ & Hkh & _).
  destruct (start_session_runs (Some parent) PolicyAuth t Hw (ex_intro _ _ Hpo)) as (s & t1 & E1 & [p Hp]); [done|].
  destruct (working_run (advances_start_session _ _) E1 Hw) as [Hw1 P1].
  pose proof (start_session_Ok _ _ _ _ _ _ _ _ (start_session_run _ _ _ _ _ E1) ltac:(done) Hp) as Hst. simpl in Hst.
  destruct (apply_policy_runs s p d t1 true Hw1 Hp Hst Hm Hl (fun _ => pcrs_match_eq _ _ _ P1 Hpcr)) as [t2 E2].
  destruct (working_run (advances_apply_policy _ _) E2 Hw1) as [Hw2 P2].
  destruct (apply_policy_Ok _ _ _ _ _ E2) as (_ & _ & sel' & Hsel' & Hpol). apply Hpol in Hst.
  rewrite Hsel in Hsel'. injection Hsel' as <-.
  apply (run_object _ _ _ _ _ _ (advances_start_session _ _) E1), (run_object _ _ _ _ _ _ (advances_apply_policy _ _) E2) in Hobj.
  set (cmd := TrSessSetAttributes s (mk_session_attributes true false true)).
  destruct (working_runs (fun _ _ => true) t2 (exec cmd t2).2 Hw2) as [Hw3 P3]; [apply rtc_once; by exists unit, cmd|].
  apply (exec_policies _ cmd t2) in Hst; [|done]. apply (exec_objects _ cmd t2) in Hobj; [|done].
  destruct (unseal_works s object _ p _ _ sd _ Hw3 Hp Hst eq_refl Hobj eq_refl Hkh eq_refl) as [v E4].
  - intros digest sel0 Hin. simpl in Hin. apply elem_of_cons in Hin as [Hin|Hin%list_elem_of_singleton]; [|done].
    injection Hin as -> ->. rewrite (select_indices _ _ Hsel). by apply (pcrs_match_eq d t2), (pcrs_match_eq d t1), (pcrs_match_eq d t).
  - right. by left.
  - assert (v = sd) as ->.
    { destruct (exec (Unseal s object) (exec cmd t2).2) as [r t4] eqn:X4. simpl in E4. subst r.
      destruct (unseal_Ok _ _ _ _ _ _ _ _ X4 Hp Hst Hobj) as [Hv _]. simpl in Hv. by injection Hv as ->. }
    exists (mk_unsealed sd LocalMeasuredBoot). eexists. split; [|done].
    eapply bind_runs; [exact E1|]. eapply bind_runs; [exact E2|].
    eapply bind_runs; [exact (call_Ok _ _ _ _ (set_attributes_works _ _ _ Hw2))|].
    eapply bind_runs; [exact (call_Ok _ _ _ _ E4)|]. by rewrite Hsd.
Qed.

Lemma open_sealed_runs d blob sd template public sel (t : T) :
  working t -> length (tpm_pcr_digest d) = 32%nat -> pcrs_match d t -> length sd = 32%nat ->
  sealed_blob t d blob sd template public sel ->
  exists u t', open_sealed d blob public (tpm_private blob) t = (Ok u, t') /\ unsealed_seed u = sd.
Proof.
  intros Hw Hl Hpcr Hsd [B1 B2 B3 B4 B5 B6 B7 B8 B9 _].
  destruct (expected_policy_runs d t Hw B1 Hl) as (digest & t1 & E1).
  destruct (working_run (advances_expected_policy _) E1 Hw) as [Hw1 P1].
  destruct (runs_later _ _ _ (advances_run _ _ _ _ _ (advances_expected_policy _) E1)) as (K1 & _ & _ & W1).
  destruct (expected_policy_Ok _ _ _ _ E1) as (_ & sel' & Hsel' & ->). rewrite B2 in Hsel'. injection Hsel' as <-.
  destruct (create_parent_runs t1 Hw1) as (parent & pname & t2 & E2).
  destruct (working_run advances_create_parent E2 Hw1) as [Hw2 P2].
  destruct (runs_later _ _ _ (advances_run _ _ _ _ _ advances_create_parent E2)) as (_ & _ & _ & W2).
  destruct (create_parent_Ok _ _ _ _ E2) as (template' & Ht' & Hpn & Hpo). rewrite B3 in Ht'. injection Ht' as <-.
  rewrite K1 in Hpn, Hpo. pose proof (named_fun _ _ _ B8 Hpn) as Epn.
  pose proof (W2 _ _ _ _ (W1 _ _ _ _ B9)) as Hwr.
  destruct (load_works parent (tpm_private blob) public sd t2 _ Hw2 Hpo Hwr) as [object E3].
  set (load := Load Password parent (tpm_private blob) public) in *.
  destruct (working_runs (fun _ _ => true) t2 (exec load t2).2 Hw2) as [Hw3 P3]; [apply rtc_once; by exists Handle, load|].
  assert (object_at (exec load t2).2 object = Some (mk_object public (Some sd))) as Hobj.
  { destruct (exec load t2) as [r t3] eqn:X3. simpl in E3. subst r. by apply (proj2 (load_Ok _ _ _ _ _ _ _ _ X3 Hpo)). }
  apply (exec_objects _ load t2) in Hpo; [|done].
  destruct (tr_get_name_works object _ _ Hw3 Hobj) as [name E4].
  set (t3 := (exec load t2).2) in *. set (get := TrGetName object) in *.
  assert (named public name) as Hn.
  { destruct (exec get t3) as [r t4] eqn:X4. simpl in E4. subst r. exact (tr_get_name_Ok _ _ _ _ _ X4 Hobj). }
  destruct (working_runs (fun _ _ => true) t3 (exec get t3).2 Hw3) as [Hw4 P4]; [apply rtc_once; by exists (list Z), get|].
  apply (exec_objects _ get t3) in Hpo, Hobj; [|done|done].
  assert (pcrs_match d (exec get t3).2) as Hpcr4.
  { apply (pcrs_match_eq d t); [|done]. intros i. by rewrite P4, P3, P2, P1. }
  destruct (unseal_object_runs parent object d _ _ _ _ _ Hw4 B1 Hl Hpcr4 Hpo Hobj Hsd B2 B6) as (u & t5 & E5 & Hu).
  exists u, t5. split; [|done]. eapply bind_runs; [exact E1|]. eapply (bind_runs _ _ _ tt); [by apply validate_public_run|].
  eapply bind_runs; [exact E2|]. simpl. rewrite bool_decide_eq_true_2 by done. simpl.
  eapply bind_runs; [exact (call_Ok _ _ _ _ E3)|]. eapply bind_runs; [exact (call_Ok _ _ _ _ E4)|].
  rewrite bool_decide_eq_true_2 by (by apply (named_fun public)). exact E5.
Qed.

Lemma with_context_runs {A} c (m : Esys T A) (t : T) (Q : A -> Prop) :
  working t -> (forall t1, device_step (fun _ _ => true) t t1 -> exists a t2, m t1 = (Ok a, t2) /\ Q a) ->
  exists a t', with_context c m t = (Ok a, t') /\ Q a.
Proof.
  intros Hw Hm. destruct (Hm (exec (ContextNew c) t).2) as (a & t2 & E & HQ); [by exists unit, (ContextNew c)|].
  exists a. eexists. split; [|done]. eapply bind_runs; [exact (call_Ok _ _ _ _ (context_works c t Hw))|].
  unfold dropping. by rewrite E.
Qed.

Lemma create_sealed_runs d sd (t : T) :
  working t -> valid_mask (tpm_pcr_mask d) = true -> length (tpm_pcr_digest d) = 32%nat -> byte_array 32 sd ->
  exists blob t', create_sealed d sd t = (Ok blob, t').
Proof.
  intros Hw Hm Hl Hsd. destruct (expected_policy_runs d t Hw Hm Hl) as (digest & t1 & E1).
  destruct (working_run (advances_expected_policy _) E1 Hw) as [Hw1 _].
  destruct (create_parent_runs t1 Hw1) as (parent & pname & t2 & E2).
  destruct (working_run advances_create_parent E2 Hw1) as [Hw2 _].
  destruct (create_parent_Ok _ _ _ _ E2) as (template & _ & _ & Hpo).
  destruct (start_session_runs (Some parent) Hmac t2 Hw2 (ex_intro _ _ Hpo)) as (s & t3 & E3 & _).
  destruct (working_run (advances_start_session _ _) E3 Hw2) as [Hw3 _].
  apply (run_object _ _ _ _ _ _ (advances_start_session _ _) E3) in Hpo.
  set (cmd := TrSessSetAttributes s (mk_session_attributes true true true)).
  destruct (exec_working _ cmd t3 Hw3) as [Hw4 _]. apply (exec_objects _ cmd t3) in Hpo; [|done].
  destruct (builds_attributes SEALED_FLAGS) as [att Hatt]; [by left|].
  assert (byte_array 32 digest) as Hdig.
  { destruct (expected_policy_Ok _ _ _ _ E1) as (_ & sel & _ & ->). apply policy_digest_bytes. }
  destruct (create_works s parent sd att digest _ _ Hw4 Hpo Hsd Hatt Hdig) as (tpl & pub & priv & id & bytes & Hb & E5 & Hkh & Hid & Hh & Hmar).
  do 2 eexists. eapply bind_runs; [exact E1|]. eapply bind_runs; [exact E2|]. simpl. eapply bind_runs; [exact E3|].
  eapply bind_runs; [exact (call_Ok _ cmd _ _ (set_attributes_works _ _ _ Hw3))|].
  eapply (bind_runs _ _ _ tpl).
  { unfold sealed_public, sealed_attributes, of_tss, mbind, Esys_bind. rewrite Hatt. simpl. by rewrite Hb. }
  eapply bind_runs; [unfold of_tss; by rewrite builds_sensitive by (rewrite (proj1 Hsd); lia)|].
  eapply bind_runs; [exact (call_Ok _ _ _ _ E5)|]. simpl.
  eapply (bind_runs _ _ _ tt); [apply validate_public_run; split; [by exists att, id|done]|].
  eapply bind_runs; [apply sha256_name_run; split; [done|]; split; [by exists bytes|done]|].
  eapply bind_runs; [unfold of_tss; by rewrite Hmar|done].
Qed.

Lemma read_pcr_runs index st (t : T) :
  0 <= index < 24 -> working t -> (st.1 = None \/ st.1 = Some (pcr_counter t)) ->
  exists st' t', read_pcr index st t = (Ok st', t').
Proof.
  intros Hi Hw Hst. destruct (select_works (Z.shiftl 1 index)) as [sel Hsel].
  destruct (pcr_read_works sel t Hw) as (cur & ds & E1).
  assert (cur = pcr_counter t /\ ds = [pcrs t index]) as [-> ->].
  { destruct (exec (PcrRead sel) t) as [r t1] eqn:X1. simpl in E1. subst r. apply pcr_read_Ok in X1 as [-> Hds].
    by rewrite Hds, (select_indices _ _ Hsel), single_index. }
  do 2 eexists. eapply bind_runs.
  { apply selection_run. split_and!; [|exact Hsel|done].
    assert (Forall (fun i => valid_mask (Z.shiftl 1 i) = true) (seqZ 0 24)) as Hall by decided.
    rewrite Forall_forall in Hall. apply Hall, elem_of_seqZ. lia. }
  eapply bind_runs; [exact (call_Ok _ _ _ _ E1)|]. simpl. rewrite bool_decide_eq_true_2, pcrs_length by done. simpl.
  destruct Hst as [->| ->]; [done|]. by rewrite Z.eqb_refl.
Qed.

Lemma read_pcrs_runs mask indices st (t : T) :
  (forall i, i ∈ indices -> 0 <= i < 24) -> working t -> (st.1 = None \/ st.1 = Some (pcr_counter t)) ->
  exists st' t', read_pcrs mask indices st t = (Ok st', t').
Proof.
  intros Hr. revert st t. induction indices as [|i indices IH]; intros st t Hw Hst; [by do 2 eexists|].
  simpl. destruct (_ =? 0); [apply IH; try done; intros; apply Hr; by right|].
  destruct (read_pcr_runs i st t) as (st1 & t1 & E1); [apply Hr; by left|done|done|].
  destruct (working_counter _ _ _ Hw (advances_run _ _ _ _ _ (advances_read_pcr _ _) E1)) as [Hw1 Hc1].
  apply read_pcr_Ok in E1 as E1'; [|apply Hr; by left]. destruct E1' as [_ ->].
  destruct (IH ltac:(intros j Hj; apply Hr; by right) (Some (pcr_counter t), st.2 ++ pcrs t i) t1 Hw1) as (st2 & t2 & E2).
  { right. simpl. by rewrite Hc1. }
  exists st2, t2. by eapply bind_runs.
Qed.

Lemma pcr_indices i : i ∈ seqZ 0 24 -> 0 <= i < 24.
Proof. intros Hi%elem_of_seqZ. lia. Qed.

Lemma pcr_digest_runs c mask (t : T) :
  working t -> valid_mask mask = true ->
  exists t', pcr_digest c mask t = (Ok (sha256 (concat (map (pcrs t) (mask_indices mask)))), t').
Proof.
  intros Hw Hm. destruct (with_context_runs c ('(_, hashed) ← read_pcrs mask (seqZ 0 24) (None, []); mret (sha256 hashed)) t
    (fun digest => digest = sha256 (concat (map (pcrs t) (mask_indices mask)))) Hw) as (digest & t' & E & ->).
  - intros t1 R. destruct (working_runs _ _ _ Hw (rtc_once _ _ R)) as [Hw1 P1].
    destruct (read_pcrs_runs mask (seqZ 0 24) (None, []) t1 pcr_indices Hw1) as ([cnt hashed] & t2 & E); [by left|].
    eexists _, t2. split; [by eapply bind_runs|]. apply read_pcrs_snapshot in E as (u & Ru & _ & Eh); [|exact pcr_indices]. simpl in Eh. subst hashed.
    destruct (working_runs _ _ _ Hw1 Ru) as [_ P2]. f_equal. f_equal. apply map_ext. intros i. by rewrite P2, P1.
  - exists t'. eapply bind_runs; [|exact E]. unfold validate_mask. unfold valid_mask in Hm.
    by destruct (_ || _).
Qed.

Section Seed.
Context `{Primitives} `{Cbor}.

Lemma seal_runs c d sd (t : T) :
  working t -> mode (policy d) = NetworkBound -> is_ok (descriptor_bytes d) = true ->
  valid_mask (tpm_pcr_mask d) = true -> length (tpm_pcr_digest d) = 32%nat -> byte_array 32 sd ->
  exists blob t', seal c d sd t = (Ok blob, t').
Proof.
  intros Hw Hmode Hd Hm Hl Hsd. destruct (with_context_runs c (create_sealed d sd) t (fun _ => True) Hw) as (blob & t' & E & _).
  - intros t1 R. destruct (working_runs _ _ _ Hw (rtc_once _ _ R)) as [Hw1 _].
    destruct (create_sealed_runs d sd t1 Hw1 Hm Hl Hsd) as (blob & t2 & E). eauto.
  - exists blob, t'. eapply (bind_runs _ _ _ tt); [by apply require_network_bound_run|done].
Qed.

Lemma unseal_runs c envelope sd template public sel (t : T) :
  let d := descriptor (body envelope) in
  working t -> mode (policy d) = NetworkBound -> is_ok (descriptor_bytes d) = true ->
  length (tpm_pcr_digest d) = 32%nat -> length sd = 32%nat -> pcrs_match d t ->
  sealed_blob t d (tpm (body envelope)) sd template public sel ->
  exists u t', unseal c envelope t = (Ok u, t') /\ unsealed_seed u = sd.
Proof.
  intros d Hw Hmode Hd Hl Hsd Hpcr Hb.
  destruct (with_context_runs c (open_sealed d (tpm (body envelope)) public (tpm_private (tpm (body envelope)))) t
    (fun u => unsealed_seed u = sd) Hw) as (u & t' & E & Hu).
  - intros t1 R. destruct (working_runs _ _ _ Hw (rtc_once _ _ R)) as [Hw1 P1].
    destruct (runs_later _ _ _ (rtc_once _ _ R)) as (K1 & _ & _ & W1).
    eapply open_sealed_runs; [done|done| |done|]; [by apply (pcrs_match_eq d t)|by eapply sealed_blob_later].
  - exists u, t'. split; [|done]. eapply (bind_runs _ _ _ tt); [by apply require_network_bound_run|].
    destruct Hb as [B1 B2 B3 B4 B5 B6 B7 B8 B9 [_ B10]].
    eapply (bind_runs _ _ _ (public, tpm_private (tpm (body envelope)))); [|exact E]. apply parse_blob_run.
    split_and!; try done; [by apply marshall_bytes|]. destruct B8 as (bytes & _ & ->). simpl. by rewrite (proj1 (sha256_bytes bytes)).
Qed.
End Seed.
End Works.

(** * The laws of a TPM provider *)

(** The same TPM: its storage keys, and what it has wrapped. *)
Definition same_tpm {T} `{TssLaws T} (t u : T) : Prop :=
  storage_key u = storage_key t /\
  forall parent private public sensitive, wrapped t parent private public sensitive -> wrapped u parent private public sensitive.

#[export] Instance same_tpm_preorder {T} `{TssLaws T} : PreOrder same_tpm.
Proof.
  split; [intros t; by split|]. intros t u v [K1 W1] [K2 W2]. split; [by rewrite K2|]. intros parent private public s Hs.
  by apply W2, W1.
Qed.

Section Provider.
Context {T : Type} `{TssWorks T} `{Primitives} `{Cbor}.

(** Whatever the adapter unseals, the TPM keeps its storage keys and what it has wrapped. *)
Lemma unseal_same_tpm (p : Tpm2Provider T) envelope u p' :
  tpm_unseal p envelope = (Ok u, p') -> same_tpm (tss p) (tss p').
Proof.
  simpl. destruct (unseal (tcti p) envelope (tss p)) as [r t'] eqn:E. intros [= -> <-]. simpl.
  apply unseal_run in E as (_ & _ & _ & _ & template & public & sel & Hu). destruct (uf_pcrs _ _ _ _ _ _ _ _ Hu) as (v & R1 & R2 & _).
  destruct (runs_later _ _ _ (transitivity R1 R2)) as (K & _ & _ & W). by split.
Qed.

Definition tpm2_seals (p : Tpm2Provider T) (d : Descriptor) (blob : TpmBlob) (sd : list Z) : Prop :=
  mode (policy d) = NetworkBound /\ is_ok (descriptor_bytes d) = true /\ length sd = 32%nat /\
  exists template public sel, sealed_blob (tss p) d blob sd template public sel.
Definition tpm2_holds (p : Tpm2Provider T) (d : Descriptor) (blob : TpmBlob) (sd : list Z) : Prop :=
  tpm2_seals p d blob sd /\ working (tss p) /\ length (tpm_pcr_digest d) = 32%nat /\ pcrs_match d (tss p).

Lemma named_bytes public name : named public name -> byte_slice name.
Proof. intros (bytes & _ & ->). repeat constructor; try lia. apply sha256_bytes. Qed.

#[export] Instance tpm2_laws : TpmLaws (Tpm2Provider T).
Proof.
  refine {| seals := tpm2_seals; holds := tpm2_holds |}.
  - intros p d sd blob p' Hsd Hrun. simpl in Hrun. destruct (seal (tcti p) d sd (tss p)) as [r t'] eqn:E.
    injection Hrun as -> <-. apply seal_Ok in E as (Hmode & Hd & template & public & sel & Hb).
    split; [split_and!; [done|done|apply Hsd|by exists template, public, sel]|]. destruct Hb as [B1 B2 B3 B4 B5 B6 B7 B8 B9 [B10 _]].
    split_and!; [by apply (marshall_bytes public)|done|by eapply named_bytes|by eapply named_bytes].
  - intros p envelope sd ((Hmode & Hd & Hsd & template & public & sel & Hb) & Hw & Hl & Hpcr). simpl.
    destruct (unseal_runs (tcti p) envelope sd template public sel (tss p) Hw Hmode Hd Hl Hsd Hpcr Hb) as (u & t' & -> & Hu).
    exists u, (mk_tpm2 (tcti p) t'). split_and!; [done|done|]. by rewrite Hmode.
Defined.

(** The adapter's own digest of the PCRs tells whether they match. *)
Lemma digest_matches c d (t t' : T) :
  working t -> valid_mask (tpm_pcr_mask d) = true ->
  pcr_digest c (tpm_pcr_mask d) t = (Ok (tpm_pcr_digest d), t') -> pcrs_match d t.
Proof.
  intros Hw Hm Hrun. destruct (pcr_digest_runs c _ t Hw Hm) as (t2 & E). rewrite Hrun in E. injection E as E _. by unfold pcrs_match.
Qed.

Lemma descriptor_mask d : is_ok (descriptor_bytes d) = true -> valid_mask (tpm_pcr_mask d) = true.
Proof.
  unfold descriptor_bytes, validate_descriptor, valid_mask, bits_set.
  destruct (tpm_pcr_mask d =? 0); [by rewrite orb_true_r|]. destruct (negb (Z.land _ _ =? 0)); [by rewrite orb_true_r|done].
Qed.

Lemma same_tpm_holds c d (p q : Tpm2Provider T) t' blob sd :
  same_tpm (tss p) (tss q) -> working (tss q) -> length (tpm_pcr_digest d) = 32%nat ->
  pcr_digest c (tpm_pcr_mask d) (tss q) = (Ok (tpm_pcr_digest d), t') ->
  seals p d blob sd -> holds q d blob sd.
Proof.
  intros [Hk Hsame] Hw Hl Hrun (Hmode & Hd & Hsd & template & public & sel & Hb).
  split_and!; [|done|done|by eapply digest_matches; [|apply descriptor_mask|]].
  split_and!; [done|done|done|]. exists template, public, sel. by eapply sealed_blob_later.
Qed.
End Provider.

(** * Properties *)

Section Claims.
Context {T : Type} `{TssLaws T} `{Primitives} `{Cbor}.

(** [pcr_digest] is a snapshot. It reads the selected PCRs one by one, and other processes may extend
    them meanwhile; a digest it returns is that of the values of all selected PCRs, in increasing order, at
    one moment of its run. *)
Theorem pcr_digest_snapshot c mask (t : T) digest t' :
  pcr_digest c mask t = (Ok digest, t') ->
  exists u, rtc (device_step (fun _ _ => true)) t u /\ rtc (device_step (fun _ _ => true)) u t' /\
    digest = sha256 (concat (map (pcrs u) (mask_indices mask))).
Proof.
  intros Hrun. esys_step Hrun E1 u1 t1. pose proof (inert_mask mask t) as Hi. rewrite E1 in Hi. simpl in Hi. subst t1.
  apply with_context_run in Hrun as (t1 & t2 & E2 & Hrun & ->). esys_step Hrun E3 st t3.
  destruct st as [cnt hashed]. injection Hrun as <- <-.
  apply read_pcrs_snapshot in E3 as (u & R1 & R2 & Eh); [|exact pcr_indices]. simpl in Eh. subst hashed.
  exists u. split_and!; [| |done].
  - eapply rtc_l; [|by eapply steps_any]. exists unit, (ContextNew c). by rewrite E2.
  - eapply rtc_r; [by eapply steps_any|]. by exists unit, ContextDrop.
Qed.

(** C6: what a released seed means. If [unseal] returns a seed, the policy is network bound and the descriptor
    valid; the public area of the blob is canonical, has the recorded Name and exactly the attributes and the
    policy of a sealed object for this descriptor; the storage key has the enrolled Name; at a moment of the
    run the selected PCRs had the enrolled digest; the seed is 32 bytes, and it is the seed that the TPM
    wrapped in the blob, if it did. *)
Theorem unseal_authorised c envelope (t : T) u t' :
  let d := descriptor (body envelope) in
  unseal c envelope t = (Ok u, t') ->
  mode (policy d) = NetworkBound /\ is_ok (descriptor_bytes d) = true /\
  length (unsealed_seed u) = 32%nat /\ authorization u = LocalMeasuredBoot /\
  exists template public sel, unsealed_from t t' d (tpm (body envelope)) (unsealed_seed u) template public sel.
Proof. apply unseal_run. Qed.
End Claims.

Section Total.
Context {T : Type} `{TssWorks T}.

(** C7: sealing round trips, totally. On a working TPM, [seal] of a seed for a valid network-bound descriptor
    succeeds; and later, on the same TPM, working and with PCRs whose [pcr_digest] is the enrolled one,
    [unseal] of an envelope with the blob succeeds with that seed. *)
Theorem seal_then_unseal `{Primitives} `{Cbor} c d sd (t : T) :
  working t -> mode (policy d) = NetworkBound -> is_ok (descriptor_bytes d) = true ->
  byte_array 32 (tpm_pcr_digest d) -> byte_array 32 sd ->
  exists blob t', seal c d sd t = (Ok blob, t') /\
    forall c' envelope (u u0 : T), descriptor (body envelope) = d -> tpm (body envelope) = blob ->
      same_tpm t' u -> working u -> pcr_digest c' (tpm_pcr_mask d) u = (Ok (tpm_pcr_digest d), u0) ->
      exists v u', unseal c' envelope u = (Ok v, u') /\ unsealed_seed v = sd.
Proof.
  intros Hw Hmode Hd [Hl _] Hsd.
  destruct (seal_runs c d sd t Hw Hmode Hd (descriptor_mask d Hd) Hl Hsd) as (blob & t' & E). exists blob, t'. split; [done|].
  intros c' envelope u u0 Ed Eb Hsame Hwu Hdig. apply seal_Ok in E as (_ & _ & template & public & sel & Hb).
  destruct (same_tpm_holds c' d (mk_tpm2 c t') (mk_tpm2 c' u) u0 blob sd Hsame Hwu Hl Hdig) as (_ & _ & _ & Hpcr).
  { split_and!; [done|done|apply Hsd|by exists template, public, sel]. }
  destruct Hsame as [Hk Hsame]. eapply sealed_blob_later in Hb; [|exact Hk|exact Hsame].
  apply (unseal_runs c' envelope sd template public sel u Hwu); rewrite ?Ed, ?Eb; try done. apply Hsd.
Qed.

(** C4: enrollment and unlock over the TPM adapter. What was enrolled with a TPM2 adapter is unlocked, for
    every interleaving in which the providers that are up satisfy the policy, on the same TPM when it works
    and the adapter's digest of its PCRs is the enrolled one, provided that every reading of the clock is
    within the operation budget of the unlock. *)
Theorem enroll_then_unlock_tpm2 `{PrimitiveLaws} `{CborLaws} {R : Type} `{RngSound R} clock runtime_ok uclock
    (server_of : NetworkBinding -> server) d signer net (w w' : World R (Tpm2Provider T)) prepared up schedule
    (u : World R (Tpm2Provider T)) c u0 :
  descriptor_typed d -> byte_array 32 (seed signer) -> mode (policy d) = NetworkBound ->
  (forall b, b ∈ networks d -> public_key b = server_public_key (server_of b)) ->
  (forall i b p ev, net i b p = Some (Ok ev) -> evaluated (R := R) server_of b p ev) ->
  prepare_observed clock runtime_ok d signer net w = (Ok prepared, w') ->
  same_tpm (tss (device w')) (tss (device u)) -> working (tss (device u)) ->
  pcr_digest c (tpm_pcr_mask d) (tss (device u)) = (Ok (tpm_pcr_digest d), u0) ->
  (forall n, uclock n < uclock (ticks u) + OPERATION_BUDGET) ->
  serving server_of d up schedule -> Elapsed ∉ schedule ->
  (length (networks d) <= completions schedule)%nat ->
  satisfied (up_ids (networks d) up) (network (policy d)) = true ->
  exists diags, (unlock_observed uclock true (prepared_envelope prepared) (signing_public_key signer)
    (volume_uuid d) (slot d) schedule u).1 = Ok (mk_unlock (prepared_credential prepared) diags).
Proof.
  intros Hty Hseed Hmode Hkeys Hnet Hprep Hsame Hw Hdig Hclk Hserve Hel Hcount Hsat.
  apply (prepared_unlocks clock runtime_ok uclock server_of d signer net w w' prepared up schedule u); try done.
  - intros blob sd. eapply same_tpm_holds; [done|done|apply Hty|done].
  - simpl. by apply bool_decide_eq_true.
Qed.
End Total.
