(* ===== verification/TpmDemo.v ===== *)
(** A TPM in memory: it has the laws of [TssLaws] and [TssWorks], and the operations of the adapter, an
    enrollment and an unlock run on it. It witnesses the properties of the adapter. *)
From stdpp Require Import base list strings relations.
From Stdlib Require Import ZArith Lia.
From S2P Require Import Prelude Sss Plan Policy Session Release Crypto ToyCrypto Wire Cbor Envelope Observation Engine Recovery Unlock Enroll Demo Tpm TpmDiscipline TpmDevice TpmSeal.
Import Cbor.Reference.

Open Scope Z_scope.

(** * The library *)

(** Public areas: a sealed object with its attributes, policy and unique identifier, and a storage key. *)
Inductive toy_public : Type := ToySealed (attributes : Z) (policy id : list Z) | ToyStorage (point : list Z).
#[export] Instance toy_public_dec : EqDecision toy_public.
Proof. solve_decision. Defined.

#[export] Instance toy_tss_types : TssTypes := {|
  TctiNameConf := string;
  PcrSlot := Z;
  PcrSelectionList := list Z;
  ObjectAttributes := Z;
  EccParameters := unit;
  Public := toy_public;
  Handle := nat;
  Session := SessionType * nat;
  PolicySession := nat;
|}.

Definition flag_bit (flag : ObjectFlag) : Z :=
  match flag with
  | FixedTpm => 1 | FixedParent => 4 | NoDa => 10 | AdminWithPolicy => 7 | UserWithAuth => 6
  | SensitiveDataOrigin => 5 | Restricted => 11 | DecryptFlag => 12 | SignEncrypt => 13
  end.

Definition flag_bits (flags : list (ObjectFlag * bool)) : Z :=
  fold_right (fun f a => if snd f : bool then Z.lor (Z.shiftl 1 (flag_bit (fst f))) a else a) 0 flags.

Definition encode_public (p : toy_public) : list Z :=
  match p with
  | ToySealed attributes policy id => 8 :: be_bytes 2 attributes ++ policy ++ id
  | ToyStorage point => 35 :: point
  end.
Definition decode_public (l : list Z) : option toy_public :=
  match l with
  | 8 :: a1 :: a0 :: rest => Some (ToySealed (a1 * 256 + a0) (take 32 rest) (drop 32 rest))
  | 35 :: point => Some (ToyStorage point)
  | _ => None
  end.

Definition checked {A} (b : bool) (a : A) (error : string) : result string A := if b then Ok a else Err error.

#[export] Instance toy_tss_library : TssLibrary := {|
  sha256 := toy_hash 32;
  tcti_from_str text := checked (negb (String.eqb text "")) text "tcti";
  pcr_slot_try_from bit := checked (bit =? Z.shiftl 1 (Z.log2 bit)) (Z.log2 bit) "slot";
  build_selection _ slots := Ok slots;
  build_attributes flags := Ok (flag_bits flags);
  build_ecc_parameters _ _ := Ok tt;
  build_public b :=
    match with_auth_policy b with
    | Some policy => Ok (ToySealed (with_object_attributes b) policy [])
    | None => Ok (ToyStorage [])
    end;
  name_hashing_algorithm _ := Sha256;
  as_keyed_hash p :=
    match p with
    | ToySealed attributes policy id => Some (mk_keyed_hash attributes Sha256 policy NullScheme id)
    | ToyStorage _ => None
    end;
  marshall p :=
    checked (bool_decide (decode_public (encode_public p) = Some p /\ byte_slice (encode_public p))) (encode_public p) "public";
  unmarshall l := ok_or (decode_public l) "public"%string;
  digest_try_from b := checked (length b <=? 64)%nat b "size";
  sensitive_try_from b := checked (length b <=? 128)%nat b "size";
  private_try_from b := Ok b;
  policy_try_from s :=
    match s with
    | Auth (Hmac, _) | Password => Err "session"%string
    | Auth (_, n) => Ok n
    end;
|}.

(** * The device *)

Record toy_tpm2 : Type := mk_toy_tpm2 {
  owner_seed : list Z; pcr_bank : list (list Z); toy_objects : list Object; toy_policies : list PolicyState }.

Definition toy_pcr (t : toy_tpm2) (i : Z) : list Z := take 32 (nth (Z.to_nat i) (pcr_bank t) [] ++ replicate 32 0).
Definition toy_storage (t : toy_tpm2) : toy_public := ToyStorage (toy_hash 32 (owner_seed t)).
Definition toy_cleared (t : toy_tpm2) : toy_tpm2 := mk_toy_tpm2 (owner_seed t) (pcr_bank t) [] [].
Definition toy_add_object (t : toy_tpm2) (o : Object) : toy_tpm2 :=
  mk_toy_tpm2 (owner_seed t) (pcr_bank t) (toy_objects t ++ [o]) (toy_policies t).
Definition toy_set_policies (t : toy_tpm2) (l : list PolicyState) : toy_tpm2 :=
  mk_toy_tpm2 (owner_seed t) (pcr_bank t) (toy_objects t) l.
Definition toy_policy_digest (l : list Assertion) : list Z :=
  toy_hash 32 (concat (map (fun a => match a with
    | AssertPcr digest sel => 1 :: digest ++ sel
    | AssertCommandCode _ => [2] end) l)).

Definition toy_assert (t : toy_tpm2) (p : nat) (a : Assertion) : result string unit * toy_tpm2 :=
  match toy_policies t !! p with
  | Some st => (Ok tt, toy_set_policies t (<[p := mk_policy_state (enforced st) (assertions st ++ [a])]> (toy_policies t)))
  | None => (Err "session"%string, t)
  end.

Definition asserted (t : toy_tpm2) (a : Assertion) : bool :=
  match a with
  | AssertPcr digest sel => bool_decide (toy_hash 32 (concat (map (toy_pcr t) sel)) = digest)
  | AssertCommandCode _ => true
  end.

(** Private areas carry a checksum of the storage key and of the public area. *)
Definition toy_checksum (parent public : toy_public) : list Z := toy_hash 16 (encode_public parent ++ encode_public public).
Definition toy_unwrap (parent : toy_public) (private : list Z) (public : toy_public) : option (list Z) :=
  if bool_decide (take 16 private = toy_checksum parent public) && is_ok (marshall public)
  then Some (drop 16 private) else None.

Definition toy_create (t : toy_tpm2) (parent : nat) (template : toy_public) (sensitive : list Z)
    : result string (toy_public * list Z) :=
  match toy_objects t !! parent, template with
  | Some o, ToySealed attributes policy _ =>
      let public := ToySealed attributes policy (toy_hash 32 sensitive) in
      if bool_decide (byte_slice sensitive) && is_ok (marshall public)
      then Ok (public, toy_checksum (object_public o) public ++ sensitive)
      else Err "sensitive"%string
  | _, _ => Err "parent"%string
  end.

Definition toy_unseal (t : toy_tpm2) (s : AuthSession) (h : nat) : result string (list Z) :=
  match policy_try_from s with
  | Ok p =>
      match toy_policies t !! (p : nat), toy_objects t !! h with
      | Some st, Some (mk_object (ToySealed _ policy _) (Some secret)) =>
          if enforced st && bool_decide (policy = toy_policy_digest (assertions st)) && forallb (asserted t) (assertions st)
          then Ok secret else Err "policy"%string
      | _, _ => Err "handle"%string
      end
  | Err e => Err e
  end.

Definition toy_get_name (t : toy_tpm2) (h : nat) : result string (list Z) :=
  match toy_objects t !! h with
  | Some o => match marshall (object_public o) with Ok bytes => Ok ([0; 11] ++ toy_hash 32 bytes) | Err e => Err e end
  | None => Err "handle"%string
  end.
Definition toy_get_digest (t : toy_tpm2) (p : nat) : result string (list Z) :=
  match toy_policies t !! p with Some st => Ok (toy_policy_digest (assertions st)) | None => Err "session"%string end.
Definition toy_policy_pcr (t : toy_tpm2) (p : nat) (digest sel : list Z) : result string unit * toy_tpm2 :=
  match toy_policies t !! p with
  | Some st => if enforced st && negb (asserted t (AssertPcr digest sel)) then (Err "PCR"%string, t)
               else toy_assert t p (AssertPcr digest sel)
  | None => (Err "session"%string, t)
  end.
Definition toy_load (t : toy_tpm2) (parent : nat) (private : list Z) (public : toy_public) : result string nat * toy_tpm2 :=
  match toy_objects t !! parent with
  | Some o =>
      match toy_unwrap (object_public o) private public with
      | Some secret => (Ok (length (toy_objects t)), toy_add_object t (mk_object public (Some secret)))
      | None => (Err "integrity"%string, t)
      end
  | None => (Err "handle"%string, t)
  end.

Definition toy_tpm2_exec X (c : Command X) (t : toy_tpm2) : result string X * toy_tpm2 :=
  match c in Command X return result string X * toy_tpm2 with
  | ContextNew _ => (Ok tt, toy_cleared t)
  | ContextDrop => (Ok tt, toy_cleared t)
  | PcrRead sel => (Ok (0, sel, map (toy_pcr t) sel), t)
  | CreatePrimary _ _ _ => (Ok (length (toy_objects t), toy_storage t), toy_add_object t (mk_object (toy_storage t) None))
  | TrGetName h => (toy_get_name t h, t)
  | StartAuthSession key kind _ _ =>
      (Ok (Some (Auth (kind, length (toy_policies t)))),
       toy_set_policies t (toy_policies t ++ [mk_policy_state (bool_decide (kind = PolicyAuth)) []]))
  | TrSessSetAttributes _ _ => (Ok tt, t)
  | PolicyPcr p digest sel => toy_policy_pcr t p digest sel
  | PolicyCommandCode p code => toy_assert t p (AssertCommandCode code)
  | PolicyGetDigest p => (toy_get_digest t p, t)
  | FlushContext _ => (Ok tt, t)
  | Create _ parent template sensitive => (toy_create t parent template sensitive, t)
  | Load _ parent private public => toy_load t parent private public
  | Unseal s h => (toy_unseal t s h, t)
  end.
#[export] Instance toy_tss_device : TssDevice toy_tpm2 := toy_tpm2_exec.

(** * Its laws *)

Lemma accepted_Ok {A} b (a x : A) e : checked b a e = Ok x -> b = true /\ x = a.
Proof. destruct b; [|done]. by intros [= <-]. Qed.

Lemma slot_index mask : (forall i, i ∈ mask_indices mask -> pcr_slot_try_from (Z.shiftl 1 i) = Ok i).
Proof.
  intros i [_ Hi%elem_of_seqZ]%list_elem_of_filter.
  assert (Forall (fun i => pcr_slot_try_from (Z.shiftl 1 i) = Ok i) (seqZ 0 24)) as Hall by decided.
  rewrite Forall_forall in Hall. apply Hall, elem_of_seqZ. lia.
Qed.

Lemma collect_slots l : (forall i, i ∈ l -> pcr_slot_try_from (Z.shiftl 1 i) = Ok i) ->
  collect (fun i => pcr_slot_try_from (Z.shiftl 1 i)) l = Ok l.
Proof.
  induction l as [|i l IH]; intros Hl; [done|]. cbn [collect]. rewrite Hl by (by left). cbn [mbind result_bind].
  rewrite IH; [done|]. intros j Hj. apply Hl. by right.
Qed.

Lemma toy_frame X (c : Command X) t :
  owner_seed (exec c t).2 = owner_seed t /\ pcr_bank (exec c t).2 = pcr_bank t /\
  (keeps_objects c = true -> exists l, toy_objects (exec c t).2 = toy_objects t ++ l) /\
  (keeps_policies c = true -> toy_policies (exec c t).2 = toy_policies t).
Proof.
  destruct c; cbn; unfold toy_policy_pcr, toy_load, toy_assert; repeat case_match; cbn; split_and!; try done; intros _;
    solve [by exists [] + (rewrite ?app_nil_r; done) | exists []; by rewrite app_nil_r | by eexists].
Qed.

Lemma toy_assert_Ok t p a t' st : toy_assert t p a = (Ok tt, t') -> toy_policies t !! p = Some st ->
  toy_policies t' !! p = Some (mk_policy_state (enforced st) (assertions st ++ [a])).
Proof.
  unfold toy_assert. intros Hrun Hp. rewrite Hp in Hrun. injection Hrun as <-. cbn. apply list_lookup_insert_eq.
  by apply lookup_lt_Some in Hp.
Qed.

Lemma toy_unwrap_wrap parent public s : is_ok (marshall public) = true -> toy_unwrap parent (toy_checksum parent public ++ s) public = Some s.
Proof.
  intros Hm. unfold toy_unwrap. rewrite Hm. assert (length (toy_checksum parent public) = 16%nat) as Hl by apply toy_hash_ok.
  rewrite take_app_length' by done. by rewrite bool_decide_eq_true_2, drop_app_length' by done.
Qed.

#[export] Instance toy_tss_laws : TssLaws toy_tpm2.
Proof.
  refine (Build_TssLaws toy_tpm2 toy_tss_types toy_tss_library toy_tss_device (fun l => l) toy_policy_digest toy_pcr
    (fun _ => 0) (fun t _ => toy_storage t) (fun t h => toy_objects t !! h) (fun t p => toy_policies t !! p)
    (fun _ parent private public s => toy_unwrap parent private public = Some s)
    _ _ _ _ _ _ _ _ _ _ _ _ _ _ _ _ _ _ _ _ _).
  - intros m. apply toy_hash_ok.
  - intros mask slots sel Hs [= <-]. rewrite (collect_slots _ (slot_index mask)) in Hs. by injection Hs as <-.
  - by intros b d [_ ->]%accepted_Ok.
  - by intros b d [_ ->]%accepted_Ok.
  - by intros b d [= <-].
  - intros p b [Hb ->]%accepted_Ok. apply bool_decide_eq_true in Hb as [Hd Hb]. split; [done|]. cbn. by rewrite Hd.
  - intros X c t. unfold toy_storage. by rewrite (proj1 (toy_frame X c t)).
  - done.
  - intros X c t. split; [done|]. intros _ i. unfold toy_pcr. by rewrite (proj1 (proj2 (toy_frame X c t))).
  - intros X c t h o Hc Ho. destruct (toy_frame X c t) as (_ & _ & Hk & _). destruct (Hk Hc) as [l ->].
    by apply lookup_app_l_Some.
  - intros X c t p st Hc Hp. destruct (toy_frame X c t) as (_ & _ & _ & Hk). by rewrite Hk.
  - intros sel t counter returned digests t' [= <- <- <- <-]. done.
  - intros s h template t key public t' [= <- <- <-]. split; [done|]. cbn. by apply list_lookup_middle.
  - intros h t name t' o Hrun Ho. change (toy_objects t !! (h : nat) = Some o) in Ho. injection Hrun as Hrun _.
    unfold toy_get_name in Hrun. rewrite Ho in Hrun. destruct (marshall _) as [bytes|] eqn:E; [|done].
    injection Hrun as <-. by exists bytes.
  - intros key kind sym hash t s t' p [= <- <-] Hk Hp. destruct kind; [done|..]; injection Hp as <-; by apply list_lookup_middle.
  - intros p digest sel t t' st Hrun Hp. change (toy_policies t !! (p : nat) = Some st) in Hp.
    change (toy_policy_pcr t p digest sel = (Ok tt, t')) in Hrun. unfold toy_policy_pcr in Hrun. rewrite Hp in Hrun.
    destruct (_ && _); [done|]. by eapply toy_assert_Ok.
  - intros p code t t' st Hrun Hp. by eapply toy_assert_Ok.
  - intros p t digest t' st Hrun Hp. change (toy_policies t !! (p : nat) = Some st) in Hp. injection Hrun as Hrun _.
    unfold toy_get_digest in Hrun. rewrite Hp in Hrun. by injection Hrun as <-.
  - intros s parent template sensitive t public private t' o Hrun Ho.
    change (toy_objects t !! (parent : nat) = Some o) in Ho. injection Hrun as Hrun _. unfold toy_create in Hrun. rewrite Ho in Hrun.
    destruct template as [attributes policy id|]; [|done]. case_bool_decide as Hs; [|done].
    destruct (is_ok (marshall _)) eqn:Em; [|done]. cbn [andb] in Hrun.
    assert (public = ToySealed attributes policy (toy_hash 32 sensitive)) as -> by congruence.
    assert (private = toy_checksum (object_public o) (ToySealed attributes policy (toy_hash 32 sensitive)) ++ sensitive)
      as -> by congruence.
    split_and!; [by apply toy_unwrap_wrap|apply Forall_app; split; [apply toy_hash_ok|done]|done].
  - intros s parent private public t h t' o Hrun Ho. change (toy_objects t !! (parent : nat) = Some o) in Ho.
    change (toy_load t parent private public = (Ok h, t')) in Hrun. unfold toy_load in Hrun. rewrite Ho in Hrun.
    destruct (toy_unwrap _ _ _) as [secret|] eqn:E; [|done]. injection Hrun as <- <-.
    assert (toy_objects (toy_add_object t (mk_object public (Some secret))) !! length (toy_objects t)
      = Some (mk_object public (Some secret))) as El by by apply list_lookup_middle.
    split; [by exists (Some secret)|]. intros sens Hs. by injection Hs as <-.
  - intros s h t sensitive t' p st o Hrun Hp Hst Ho. injection Hrun as Hrun _. unfold toy_unseal in Hrun.
    change (toy_policies t !! (p : nat) = Some st) in Hst. change (toy_objects t !! (h : nat) = Some o) in Ho. rewrite Hp, Hst, Ho in Hrun.
    destruct o as [[attributes policy id|] [secret|]]; [|done..]. destruct (enforced st) eqn:Ee; [|done]. cbn in Hrun.
    case_bool_decide as Epol; [|done]. cbn in Hrun. destruct (forallb _ _) eqn:Ea; [|done]. injection Hrun as <-.
    split_and!; [done|done|intros k [= <-]; exact Epol|]. intros digest sel Hin. rewrite forallb_forall in Ea.
    by apply list_elem_of_In, Ea, bool_decide_eq_true in Hin.
Defined.

(** Objects of a working device have public areas that marshall. *)
Definition toy_working (t : toy_tpm2) : Prop := Forall (fun o => is_ok (marshall (object_public o)) = true) (toy_objects t).

Lemma toy_storage_marshalls t : marshall (toy_storage t) = Ok (encode_public (toy_storage t)).
Proof.
  unfold marshall, toy_tss_library, checked. rewrite bool_decide_eq_true_2; [done|].
  split; [done|]. constructor; [done|apply toy_hash_ok].
Qed.

Lemma toy_unwrap_marshalls parent private public s : toy_unwrap parent private public = Some s -> is_ok (marshall public) = true.
Proof. unfold toy_unwrap. destruct (_ && is_ok _) eqn:E; [|done]. by apply andb_true_iff in E as [_ E]. Qed.

Lemma toy_exec_working X (c : Command X) t : toy_working t -> toy_working (exec c t).2.
Proof.
  unfold toy_working. intros Hw. destruct c; try exact Hw; try constructor.
  - apply Forall_app. split; [exact Hw|]. constructor; [|constructor]. cbn [object_public]. by rewrite toy_storage_marshalls.
  - change (exec (PolicyPcr policy digest selected) t) with (toy_policy_pcr t policy digest selected).
    unfold toy_policy_pcr, toy_assert. by repeat case_match.
  - change (exec (PolicyCommandCode policy code) t) with (toy_assert t policy (AssertCommandCode code)).
    unfold toy_assert. by repeat case_match.
  - change (exec (Load session parent private public) t) with (toy_load t parent private public).
    unfold toy_load. repeat case_match; try done. apply Forall_app. split; [exact Hw|]. constructor; [|constructor].
    by eapply toy_unwrap_marshalls.
Qed.

Lemma toy_sealed_marshalls policy id :
  byte_array 32 policy -> byte_array 32 id ->
  marshall (ToySealed (flag_bits SEALED_FLAGS) policy id) = Ok (encode_public (ToySealed (flag_bits SEALED_FLAGS) policy id)).
Proof.
  intros [Hl Hp] [Hli Hi]. unfold marshall, toy_tss_library, checked. rewrite bool_decide_eq_true_2; [done|]. split.
  - cbn [encode_public]. change (be_bytes 2 (flag_bits SEALED_FLAGS)) with [4; 146]. cbn [app decode_public].
    rewrite take_app_length', drop_app_length' by done. done.
  - cbn [encode_public]. constructor; [done|]. apply Forall_app. split; [apply be_bytes_ok|]. by apply Forall_app.
Qed.

#[export] Instance toy_tss_works : TssWorks toy_tpm2.
Proof.
  refine (Build_TssWorks toy_tpm2 toy_tss_types toy_tss_library toy_tss_device toy_tss_laws toy_working
    _ _ _ _ _ _ _ _ _ _ _ _ _ _ _ _ _ _ _ _ _ _).
  - intros X c t Hw. split; [by apply toy_exec_working|done].
  - intros flags _. by eexists.
  - intros attributes _. exists tt, (ToyStorage []). split_and!; [done|done|]. intros t _. split; [done|].
    eexists. apply toy_storage_marshalls.
  - intros index Hi. exists index. apply (slot_index (Z.shiftl 1 index)). rewrite single_index by done. by left.
  - intros slots. by exists slots.
  - intros b Hb. cbn. unfold checked. by rewrite (proj2 (Nat.leb_le _ _) Hb).
  - intros b Hb. cbn. unfold checked. by rewrite (proj2 (Nat.leb_le _ _) Hb).
  - done.
  - intros sel t _. by do 2 eexists.
  - intros t i _. change (length (toy_pcr t i) = 32%nat). unfold toy_pcr. rewrite length_take, length_app, length_replicate. lia.
  - intros template t _. by do 2 eexists.
  - intros h t o Hw Ho. change (toy_objects t !! (h : nat) = Some o) in Ho. pose proof (Forall_lookup_1 _ _ _ _ Hw Ho) as Hm.
    change (exists name, toy_get_name t h = Ok name). unfold toy_get_name. rewrite Ho. cbn beta in Hm.
    destruct (marshall (object_public o)); [by eexists|done].
  - intros key kind t _ _. eexists. split; [done|]. intros Hk. destruct kind; [done|by eexists|by eexists].
  - done.
  - done.
  - intros p digest sel t st _ Hp Ha. change (toy_policies t !! (p : nat) = Some st) in Hp.
    change ((toy_policy_pcr t p digest sel).1 = Ok tt). unfold toy_policy_pcr, toy_assert. rewrite Hp.
    destruct (enforced st); [|done]. cbn [andb asserted]. by rewrite bool_decide_eq_true_2 by by apply Ha.
  - intros p code t st _ Hp. change (toy_policies t !! (p : nat) = Some st) in Hp.
    change ((toy_assert t p (AssertCommandCode code)).1 = Ok tt). unfold toy_assert. by rewrite Hp.
  - intros p t st _ Hp. change (toy_policies t !! (p : nat) = Some st) in Hp.
    change (exists digest, toy_get_digest t p = Ok digest). unfold toy_get_digest. rewrite Hp. by eexists.
  - intros l. apply toy_hash_ok.
  - intros s parent sensitive attributes policy t o _ Ho Hs Ha Hp. change (toy_objects t !! (parent : nat) = Some o) in Ho.
    change (@Ok string Z (flag_bits SEALED_FLAGS) = Ok attributes) in Ha.
    assert (attributes = flag_bits SEALED_FLAGS) as -> by congruence. clear Ha.
    pose proof (toy_sealed_marshalls policy (toy_hash 32 sensitive) Hp (toy_hash_ok _ _)) as Hm.
    set (public := ToySealed (flag_bits SEALED_FLAGS) policy (toy_hash 32 sensitive)) in *.
    exists (ToySealed (flag_bits SEALED_FLAGS) policy []), public, (toy_checksum (object_public o) public ++ sensitive),
      (toy_hash 32 sensitive), (encode_public public).
    split; [reflexivity|]. split; [|split; [reflexivity|split; [apply toy_hash_ok|split; [reflexivity|exact Hm]]]].
    change (toy_create t parent (ToySealed (flag_bits SEALED_FLAGS) policy []) sensitive =
      Ok (public, toy_checksum (object_public o) public ++ sensitive)).
    unfold toy_create. rewrite Ho. fold public. rewrite Hm. by rewrite bool_decide_eq_true_2 by apply Hs.
  - intros parent private public sensitive t o _ Ho Hw. change (toy_objects t !! (parent : nat) = Some o) in Ho.
    change (toy_unwrap (object_public o) private public = Some sensitive) in Hw.
    change (exists h, (toy_load t parent private public).1 = Ok h). unfold toy_load. rewrite Ho, Hw. by eexists.
  - intros s h t p st o sensitive k _ Hp Hst He Ho Hsec Hk Hpol Ha _.
    change (toy_policies t !! (p : nat) = Some st) in Hst. change (toy_objects t !! (h : nat) = Some o) in Ho.
    change (exists v, toy_unseal t s h = Ok v). unfold toy_unseal. rewrite Hp, Hst, Ho, He.
    destruct o as [[attributes policy id|point] sec]; cbn in Hsec; subst sec; [|done].
    assert (k = mk_keyed_hash attributes Sha256 policy NullScheme id) as -> by (cbn in Hk; congruence).
    rewrite bool_decide_eq_true_2 by exact Hpol. cbn [andb].
    rewrite (proj2 (forallb_forall _ _)); [by eexists|]. intros [digest sel|code] Hin; [|done].
    apply bool_decide_eq_true_2, Ha. by apply list_elem_of_In.
Defined.

(** * An enrollment on it *)

Definition toy_transport : @TctiNameConf toy_tss_types := "device:/dev/tpmrm0"%string.
Definition toy_tpm_state : toy_tpm2 := mk_toy_tpm2 (replicate 32 77) (map (fun n => replicate 32 n) [1; 2; 3; 4]) [] [].
Definition toy_mask : Z := 0x000a.
Definition toy_pcr_digest : list Z := toy_hash 32 (replicate 32 2 ++ replicate 32 4).

(** PCRs 1 and 3, one after the other. *)
Lemma toy_reads_pcrs : pcr_digest (T := toy_tpm2) toy_transport toy_mask toy_tpm_state = (Ok toy_pcr_digest, toy_tpm_state).
Proof. vm_compute. reflexivity. Qed.

Definition bound_policy : ProductionPolicy := mk_policy NetworkBound 0 demo_network (plan_of demo_network).
Definition bound_descriptor : Descriptor :=
  mk_descriptor (replicate 32 9) (replicate 16 8) 3 1 bound_policy (map demo_binding [1; 2; 3; 4]) toy_mask toy_pcr_digest.

Lemma bound_descriptor_typed : descriptor_typed bound_descriptor.
Proof.
  destruct demo_descriptor_typed as (H1 & H2 & H3 & H4 & H5 & H6 & H7 & _).
  split_and!; [exact H1|exact H2|exact H3|exact H4|exact H5|exact H6|exact H7|..]; decided.
Qed.

Definition toy_seed : list Z := replicate 32 55.

(** The commands of sealing, with their answers. *)
Definition toy_log : Type := list (@Issued toy_tss_types).
Definition logged_seal : result EngineError.Error TpmBlob * (toy_tpm2 * toy_log) :=
  seal (H := toy_tss_types) (T := toy_tpm2 * toy_log) (TssDevice0 := logged) toy_transport bound_descriptor toy_seed (toy_tpm_state, []).

Lemma adapter_discipline_witness : monitor logged_seal.2.2 = Some None /\ length logged_seal.2.2 = 12%nat.
Proof.
  split; [|vm_compute; reflexivity].
  exact (proj1 (proj2 (adapter_discipline (T := toy_tpm2) toy_transport toy_tpm_state [] eq_refl)) bound_descriptor toy_seed).
Defined.

Lemma pcr_digest_snapshot_witness :
  exists u, toy_pcr_digest = sha256 (concat (map (pcrs (T := toy_tpm2) u) (mask_indices toy_mask))).
Proof.
  destruct (pcr_digest_snapshot (T := toy_tpm2) toy_transport toy_mask toy_tpm_state toy_pcr_digest toy_tpm_state toy_reads_pcrs)
    as (u & _ & _ & Hu).
  exists u. exact Hu.
Defined.

Definition toy_sealed : TpmBlob :=
  match (seal (T := toy_tpm2) toy_transport bound_descriptor toy_seed toy_tpm_state).1 with
  | Ok blob => blob
  | Err _ => mk_tpm_blob [] [] [] []
  end.
Definition toy_sealed_envelope : AuthenticatedEnvelope :=
  mk_authenticated (mk_body bound_descriptor toy_sealed [] (mk_wrapped [] [])) [].

Lemma toy_unseals :
  unseal (T := toy_tpm2) toy_transport toy_sealed_envelope toy_tpm_state = (Ok (mk_unsealed toy_seed LocalMeasuredBoot), toy_tpm_state).
Proof. vm_compute. reflexivity. Qed.

Lemma unseal_authorised_witness :
  exists template public sel, unsealed_from toy_tpm_state toy_tpm_state bound_descriptor toy_sealed toy_seed template public sel.
Proof.
  destruct (unseal_authorised (T := toy_tpm2) toy_transport toy_sealed_envelope toy_tpm_state _ _ toy_unseals)
    as (_ & _ & _ & _ & Hu).
  exact Hu.
Defined.

Lemma toy_state_works : working toy_tpm_state.
Proof. constructor. Qed.

Lemma seal_then_unseal_witness :
  exists v u', unseal (T := toy_tpm2) toy_transport toy_sealed_envelope toy_tpm_state = (Ok v, u') /\ unsealed_seed v = toy_seed.
Proof.
  destruct (seal_then_unseal (T := toy_tpm2) toy_transport bound_descriptor toy_seed toy_tpm_state toy_state_works)
    as (blob & t' & Hseal & Hun); [reflexivity|vm_compute; reflexivity|decided|decided|].
  assert (blob = toy_sealed /\ t' = toy_tpm_state) as [-> ->].
  { assert ((Ok blob, t') = (@Ok EngineError.Error _ toy_sealed, toy_tpm_state)) as E.
    { rewrite <- Hseal. vm_compute. reflexivity. }
    split; congruence. }
  apply (Hun toy_transport toy_sealed_envelope toy_tpm_state toy_tpm_state);
    [reflexivity|reflexivity|split; [reflexivity|trivial]|exact toy_state_works|exact toy_reads_pcrs].
Defined.

(** ** With the engine *)

Definition tpm2_world : World Z (Tpm2Provider toy_tpm2) := mk_world 0 (mk_tpm2 toy_transport toy_tpm_state) 0 (new_report Prepare).
Definition tpm2_enrollment : result (fault EngineError.Error) PreparedEnrollment * World Z (Tpm2Provider toy_tpm2) :=
  prepare_observed demo_clock true bound_descriptor demo_signer demo_net tpm2_world.
Definition tpm2_prepared : PreparedEnrollment := prepared_of (fst tpm2_enrollment).
Definition tpm2_world' : World Z (Tpm2Provider toy_tpm2) := snd tpm2_enrollment.
Definition tpm2_unlock_world : World Z (Tpm2Provider toy_tpm2) :=
  mk_world 40 (mk_tpm2 toy_transport toy_tpm_state) 0 (new_report Recover).

Lemma tpm2_enrolls :
  prepare_observed demo_clock true bound_descriptor demo_signer demo_net tpm2_world = (Ok tpm2_prepared, tpm2_world').
Proof. vm_compute. reflexivity. Qed.

Lemma enroll_then_unlock_tpm2_witness :
  exists diags, (unlock_observed demo_clock true (prepared_envelope tpm2_prepared) (signing_public_key demo_signer)
    (volume_uuid bound_descriptor) (slot bound_descriptor) demo_schedule tpm2_unlock_world).1 =
    Ok (mk_unlock (prepared_credential tpm2_prepared) diags).
Proof.
  apply (enroll_then_unlock_tpm2 demo_clock true demo_clock demo_server_of bound_descriptor demo_signer demo_net tpm2_world
    tpm2_world' tpm2_prepared demo_up demo_schedule tpm2_unlock_world toy_transport toy_tpm_state).
  - exact bound_descriptor_typed.
  - decided.
  - reflexivity.
  - exact demo_keys.
  - exact demo_net_honest.
  - exact tpm2_enrolls.
  - split; [vm_compute; reflexivity|intros parent private public sensitive Hw; exact Hw].
  - constructor.
  - exact toy_reads_pcrs.
  - intros n. reflexivity.
  - exact demo_serving.
  - exact demo_not_elapsed.
  - vm_compute. lia.
  - vm_compute. reflexivity.
Defined.
