(* ===== verification/Float64.v ===== *)
(** The [f64] of the telemetry code: binary64 numbers as the Standard Library's specification of
    IEEE 754 arithmetic, with the operations the source uses and the facts its histograms rely on. *)
From stdpp Require Import base list.
From Stdlib Require Import ZArith Lia SpecFloat.
From S2P Require Import Prelude.

Open Scope Z_scope.

Abbreviation f64 := spec_float.

(** [z as f64], rounding to nearest even, and the arithmetic operators. *)
Definition f64_of_Z (z : Z) : f64 := binary_normalize 53 1024 z 0 false.
Definition f64_add (x y : f64) : f64 := SFadd 53 1024 x y.
Definition f64_div (x y : f64) : f64 := SFdiv 53 1024 x y.
Definition f64_le (x y : f64) : bool := SFleb x y.
Definition f64_lt (x y : f64) : bool := SFltb x y.
Definition f64_MAX : f64 := SFmax_float 53 1024.

(** A decimal literal [n / 10^k] whose two parts are exact is the correctly rounded quotient. *)
Definition f64_decimal (n d : Z) : f64 := f64_div (f64_of_Z n) (f64_of_Z d).

Definition is_nan (x : f64) : bool := match x with S754_nan => true | _ => false end.
Definition is_finite (x : f64) : bool :=
  match x with S754_zero _ | S754_finite _ _ _ => true | _ => false end.

(** [f64::min]: the other operand when one is not a number. *)
Definition f64_min (x y : f64) : f64 :=
  if is_nan x then y else if is_nan y then x else if f64_lt x y then x else y.

(** [Duration::as_secs_f64] of a duration in nanoseconds. *)
Definition as_secs_f64 (duration : Z) : f64 :=
  f64_add (f64_of_Z (duration / 1000000000))
    (f64_div (f64_of_Z (duration mod 1000000000)) (f64_of_Z 1000000000)).

(** Finite and not below zero: what the record validation establishes for durations. *)
Definition nonneg_finite (x : f64) : Prop := is_finite x = true /\ f64_le (f64_of_Z 0) x = true.

#[export] Instance nonneg_finite_dec x : Decision (nonneg_finite x).
Proof. unfold nonneg_finite. apply _. Defined.

(** * The order *)

Lemma compare_cont_le m1 m2 :
  (Pos.compare_cont Eq m1 m2 = Gt -> False) <-> (m1 <= m2)%positive.
Proof. change (Pos.compare_cont Eq m1 m2) with (Pos.compare m1 m2). unfold Pos.le. naive_solver. Qed.

(** The order on finite numbers above zero is lexicographic in exponent and mantissa. *)
Lemma f64_le_finite m1 e1 m2 e2 :
  f64_le (S754_finite false m1 e1) (S754_finite false m2 e2) = true <->
  e1 < e2 \/ (e1 = e2 /\ (m1 <= m2)%positive).
Proof.
  unfold f64_le, SFleb. simpl. destruct (Z.compare_spec e1 e2) as [->|H|H]; simpl.
  - change (Pos.compare_cont Eq m1 m2) with (Pos.compare m1 m2).
    destruct (Pos.compare_spec m1 m2); split; intros H'; try done; try (right; lia); lia.
  - split; [by left|done].
  - split; [done|lia].
Qed.

Lemma f64_le_trans_pos x m1 e1 m2 e2 :
  f64_le x (S754_finite false m1 e1) = true ->
  f64_le (S754_finite false m1 e1) (S754_finite false m2 e2) = true ->
  f64_le x (S754_finite false m2 e2) = true.
Proof.
  intros H1 H2. destruct x as [s|[]| |[] m e]; try done.
  rewrite f64_le_finite in *. lia.
Qed.

(** * Rounding never leaves the numbers above zero *)

Lemma iter_pos_inv {A} (f : A -> A) (I : A -> Prop) p x :
  (forall y, I y -> I (f y)) -> I x -> I (iter_pos f p x).
Proof. intros Hf. revert x. induction p as [p IH|p IH|]; intros x Hx; simpl; auto. Qed.

Lemma shr_1_nonneg r : 0 <= shr_m r -> 0 <= shr_m (shr_1 r).
Proof. by destruct r as [[|[]|[]] ? ?]. Qed.

Lemma shr_fexp_nonneg m e l : 0 <= m -> 0 <= shr_m (shr_fexp 53 1024 m e l).1.
Proof.
  intros Hm. unfold shr_fexp, shr.
  assert (0 <= shr_m (shr_record_of_loc m l)) by (by destruct l as [|[]]).
  destruct (_ - e); simpl; [done| |done].
  by apply (iter_pos_inv shr_1 (fun r => 0 <= shr_m r)); [apply shr_1_nonneg|].
Qed.

Lemma round_nearest_even_nonneg m l : 0 <= m -> 0 <= round_nearest_even m l.
Proof. intros. destruct l as [|[]]; simpl; try lia. destruct (Z.even m); lia. Qed.

Lemma binary_round_aux_pos m e l :
  0 <= m -> is_nan (binary_round_aux 53 1024 false m e l) = false /\
  f64_le (f64_of_Z 0) (binary_round_aux 53 1024 false m e l) = true.
Proof.
  intros Hm. unfold binary_round_aux.
  pose proof (shr_fexp_nonneg m e l Hm) as H1. destruct (shr_fexp _ _ m e l) as [r1 e1]. simpl in H1.
  pose proof (shr_fexp_nonneg _ e1 loc_Exact (round_nearest_even_nonneg _ (loc_of_shr_record r1) H1)) as H2.
  destruct (shr_fexp _ _ _ e1 loc_Exact) as [r2 e2]. simpl in H2.
  destruct (shr_m r2); [done| |done]. by destruct (e2 <=? _).
Qed.

Lemma f64_add_nonneg x y :
  nonneg_finite x -> nonneg_finite y ->
  is_nan (f64_add x y) = false /\ f64_le (f64_of_Z 0) (f64_add x y) = true.
Proof.
  intros [Fx Px] [Fy Py].
  destruct x as [sx|[]| |[] mx ex], y as [sy|[]| |[] my ey]; try done;
    try (by destruct sx, sy).
  unfold f64_add, SFadd. cbn [cond_Zopp].
  set (p := fst (shl_align mx _ _)). set (q := fst (shl_align my _ _)).
  rewrite Pos2Z.add_pos_pos. unfold binary_normalize, binary_round.
  destruct (shl_align (p + q) _ _) as [mz ez]. by apply binary_round_aux_pos.
Qed.

(** The saturated sum of a histogram stays finite and above zero. *)
Lemma saturated_sum x y :
  nonneg_finite x -> nonneg_finite y -> nonneg_finite (f64_min (f64_add x y) f64_MAX).
Proof.
  intros Hx Hy. destruct (f64_add_nonneg x y Hx Hy) as [N P].
  unfold f64_min. rewrite N. simpl is_nan. cbv iota.
  destruct (f64_lt (f64_add x y) f64_MAX) eqn:L; [|by split; vm_compute].
  split; [|done]. by destruct (f64_add x y) as [?|[]| |? ? ?].
Qed.
