(* ===== verification/Text.v ===== *)
(** Text as the telemetry code handles it: ASCII classes of bytes, static label sets, hexadecimal
    digits, and the pieces of Prometheus exposition lines. *)
From stdpp Require Import base list strings pretty.
From Stdlib Require Import ZArith Lia.
From S2P Require Import Prelude Float64.

Open Scope Z_scope.

(** * Bytes and strings *)

Definition is_ascii_digit (b : Z) : bool := (48 <=? b) && (b <=? 57).
Definition is_ascii_lowercase (b : Z) : bool := (97 <=? b) && (b <=? 122).
Definition is_ascii_uppercase (b : Z) : bool := (65 <=? b) && (b <=? 90).
Definition is_ascii_alphanumeric (b : Z) : bool :=
  is_ascii_digit b || is_ascii_lowercase b || is_ascii_uppercase b.

(** [b"...".contains(&v)] and [["...", ...].contains(&s)]. *)
Definition byte_in (s : string) (b : Z) : bool := existsb (Z.eqb b) (bytes_of_string s).
Definition contains (words : list string) (s : string) : bool := existsb (String.eqb s) words.

Definition str_len (s : string) : Z := Z.of_nat (String.length s).

(** [char::to_digit(16)] of an ASCII byte. *)
Definition to_digit16 (b : Z) : option Z :=
  if is_ascii_digit b then Some (b - 48)
  else if (97 <=? b) && (b <=? 102) then Some (b - 87)
  else if (65 <=? b) && (b <=? 70) then Some (b - 55)
  else None.

(** Lower-case hexadecimal text of bytes, the reference for the hexadecimal readers. *)
Definition hex_digit (d : Z) : Z := if d <? 10 then 48 + d else 87 + d.
Fixpoint hex_text (bytes : list Z) : list Z :=
  match bytes with
  | [] => []
  | b :: bytes => hex_digit (b / 16) :: hex_digit (b mod 16) :: hex_text bytes
  end.

(** * Exposition lines *)

(** The literal characters that strings of this development cannot contain. *)
Definition quote : string := String (Ascii.ascii_of_nat 34) EmptyString.
Definition newline : string := String (Ascii.ascii_of_nat 10) EmptyString.

Definition quoted (s : string) : string := quote +:+ s +:+ quote.

(** [{}] of an unsigned integer. *)
Definition display_u64 (z : Z) : string := pretty (Z.to_N z).

(** [writeln!(out, "{head} {value}")] *)
Definition sample (head value : string) : string := head +:+ " " +:+ value +:+ newline.

(** [name="value"] *)
Definition label (name value : string) : string := name +:+ "=" +:+ quoted value.

(** [{}] of [ms as f64 / 1000.0], over the textual form of an [f64]. *)
Definition millis (display_f64 : f64 -> string) (ms : Z) : string :=
  display_f64 (f64_div (f64_of_Z ms) (f64_of_Z 1000)).

(** * Lemmas *)

Lemma contains_spec words s : contains words s = true <-> s ∈ words.
Proof.
  unfold contains. rewrite existsb_exists. setoid_rewrite String.eqb_eq.
  rewrite list_elem_of_In. naive_solver.
Qed.

Lemma byte_in_spec s b : byte_in s b = true <-> b ∈ bytes_of_string s.
Proof.
  unfold byte_in. rewrite existsb_exists. setoid_rewrite Z.eqb_eq. rewrite list_elem_of_In. naive_solver.
Qed.

Lemma forallb_Forall {A} (f : A -> bool) (P : A -> Prop) l :
  (forall a, f a = true <-> P a) -> forallb f l = true <-> Forall P l.
Proof.
  intros H. rewrite forallb_forall, Forall_forall. setoid_rewrite list_elem_of_In. naive_solver.
Qed.

Lemma str_len_bytes s : str_len s = Z.of_nat (length (bytes_of_string s)).
Proof. unfold str_len. induction s as [|c s IH]; simpl; lia. Qed.

Lemma to_digit16_range b d : to_digit16 b = Some d -> 0 <= d < 16.
Proof.
  unfold to_digit16, is_ascii_digit. intros H. repeat case_match; simplify_eq; lia.
Qed.

Lemma to_digit16_hex_digit d : 0 <= d < 16 -> to_digit16 (hex_digit d) = Some d.
Proof.
  intros H. assert (d ∈ seqZ 0 16) as Hd by (apply elem_of_seqZ; lia).
  by apply (proj1 (Forall_forall (fun d => to_digit16 (hex_digit d) = Some d) (seqZ 0 16))); [repeat constructor|].
Qed.

(** A lower-case digit is determined by its value. *)
Lemma hex_digit_to_digit16 b d :
  is_ascii_digit b = true \/ 97 <= b <= 102 -> to_digit16 b = Some d -> b = hex_digit d.
Proof.
  unfold to_digit16, hex_digit, is_ascii_digit. intros [Hb|Hb] H; repeat case_match; simplify_eq; lia.
Qed.

Lemma hex_digit_lower d : 0 <= d < 16 -> is_ascii_digit (hex_digit d) = true \/ 97 <= hex_digit d <= 102.
Proof. unfold hex_digit, is_ascii_digit. intros H. destruct (Z.ltb_spec d 10); [left|right; lia].
  apply andb_true_intro. lia.
Qed.

Lemma hex_text_length bytes : length (hex_text bytes) = (2 * length bytes)%nat.
Proof. induction bytes as [|b bytes IH]; simpl; lia. Qed.

Lemma byte_halves b : u8 b -> 0 <= b / 16 < 16 /\ 0 <= b mod 16 < 16.
Proof. unfold uint. intros. pose proof (Z.div_lt_upper_bound b 16 16). pose proof (Z.mod_pos_bound b 16).
  pose proof (Z.div_pos b 16). lia. Qed.

#[export] Hint Resolve to_digit16_range to_digit16_hex_digit hex_digit_lower : leelo.

(** * Text of bytes *)

Fixpoint text_of (l : list Z) : string :=
  match l with
  | [] => EmptyString
  | b :: l => String (Ascii.ascii_of_nat (Z.to_nat b)) (text_of l)
  end.

Lemma bytes_text_of l : byte_slice l -> bytes_of_string (text_of l) = l.
Proof.
  unfold uint. induction 1 as [|b l Hb Hl IH]; simpl; [done|]. rewrite IH, Ascii.nat_ascii_embedding by lia. f_equal. lia.
Qed.

Lemma text_of_bytes s : text_of (bytes_of_string s) = s.
Proof. induction s as [|c s IH]; simpl; [done|]. by rewrite Nat2Z.id, Ascii.ascii_nat_embedding, IH. Qed.

Lemma text_of_length l : str_len (text_of l) = Z.of_nat (length l).
Proof. unfold str_len. f_equal. induction l as [|b l IH]; simpl; congruence. Qed.
