(* ===== verification/Telemetry.v ===== *)
(** Telemetry events, [leelo-telemetry/src/lib.rs]: the record schema and its closed vocabulary, the
    reader, and the emitter with its counters. The JSON library is a pair of parameters, the chunks a
    record is written in and the reader of bytes; the answers of the operating system (randomness,
    clock, the boot identifier file, the datagram socket) are arguments of the operations. *)
From stdpp Require Import base list strings.
From Stdlib Require Import ZArith Lia SpecFloat.
From S2P Require Import Prelude Float64 Text.

Open Scope Z_scope.

Definition MAX_EVENT_BYTES : nat := 4096.
Definition SCHEMA_VERSION : Z := 1.

(** The package version of the workspace. *)
Definition CARGO_PKG_VERSION : string := "0.1.0".

(** * Data *)

(** Durations are nanoseconds. *)
Record Event : Type := mk_event {
  ev_component : string;
  ev_event : string;
  ev_operation : string;
  ev_stage : string;
  ev_outcome : string;
  ev_reason : string;
  ev_duration : Z;
  ev_mode : string;
  ev_provider_index : option Z;
  ev_storage_state : string;
  ev_awaiting_boot_test : bool;
  ev_degraded : bool;
  ev_native_code : option Z;
}.

(** [Event::new] *)
Definition new_event (component event operation stage outcome reason : string) : Event :=
  mk_event component event operation stage outcome reason 0 "none" None "not_applicable" false false None.

(** [Record] of the source. *)
Record TelemetryRecord : Type := mk_record {
  schema_version : Z;
  rec_component : string;
  rec_event : string;
  rec_operation : string;
  rec_stage : string;
  rec_outcome : string;
  rec_reason : string;
  duration_seconds : f64;
  rec_mode : string;
  rec_provider_index : option Z;
  rec_storage_state : string;
  rec_awaiting_boot_test : bool;
  rec_degraded : bool;
  rec_native_code : option Z;
  software_version : string;
  rec_attempt_id : option (list Z);
  rec_boot_id : option (list Z);
  rec_sequence : Z;
  rec_unix_time_ms : option Z;
  dropped_before : Z;
}.

(** * Validation *)

Definition valid_label (value : string) : bool :=
  negb (String.eqb value EmptyString) && (str_len value <=? 48) &&
  forallb (fun v => is_ascii_lowercase v || is_ascii_digit v || (v =? 95)) (bytes_of_string value).

(** The label sets of [vocabulary], in its order. *)
Definition COMPONENTS : list string :=
  ["client"; "frontend"; "worker"; "leelod"].
Definition EVENTS : list string :=
  ["operation_started"; "operation_completed"; "provider_completed"; "phase_started"; "phase_completed";
   "enrollment_state"; "key_creation"; "service_start"; "service_ready"; "service_stop"; "service_failed";
   "telemetry_failed"; "worker_peer_denied"; "capacity_rejected"; "evaluation_failed";
   "listener_recovered"; "listener_impaired"; "listener_failed"; "snapshot_listener_failed";
   "worker_reply_invalid"].
Definition OPERATIONS : list string :=
  ["enroll"; "resume"; "check"; "activate"; "keygen"; "inspect"; "pcr_digest"; "serve"].
Definition MODES : list string :=
  ["none"; "unknown"; "network_bound"; "attested"].
Definition STORAGE_STATES : list string :=
  ["not_applicable"; "not_mutated"; "pending_reconciliation"; "committed"; "unknown"].
Definition STAGES : list string :=
  ["preflight"; "preflight_durable"; "prepare"; "recover"; "recovery_test"; "activate"; "check";
   "validate"; "tpm_seal"; "network"; "tpm_unseal"; "authenticate_payload"; "prepare_payload";
   "share_generation"; "pending_bundle"; "pending_bundle_durable"; "prepared_and_recovery_tested";
   "storage_commit"; "storage_committed"; "storage_attach"; "final_journal"; "final_journal_durable";
   "key_file"; "key_load"; "startup"; "service"; "socket_directory"; "listener"; "snapshot"; "readiness";
   "admission"; "crypto"; "connection"; "ipc"; "tls_config"].
Definition OUTCOMES : list string :=
  ["started"; "success"; "failure"; "observed"; "not_started"; "authenticated"; "failed";
   "canceled_quorum"; "canceled_deadline"; "canceled_operation"].
Definition REASONS : list string :=
  ["none"; "envelope"; "cryptography"; "sharing"; "policy"; "tpm"; "insufficient_factors"; "deadline";
   "inconsistent_shares"; "target_mismatch"; "unsupported_mode"; "runtime"; "configuration"; "unavailable";
   "timeout"; "remote_rejected"; "invalid_response"; "invalid_proof"; "authentication"; "io"; "cryptsetup";
   "partial_enrollment"; "writer_busy"; "metadata_changed"; "occupied_slot"; "metadata_capacity";
   "invalid_token"; "wrong_volume"; "storage"; "configuration_or_operation"; "peer_uid";
   "peer_credentials"; "capacity"; "randomness"; "cryptographic_operation"; "temporary_accept";
   "fatal_accept"; "invalid_reply"; "invalid_key_file"; "invalid_directory"; "bind_failed";
   "permissions_failed"; "setup_failed"; "notify_failed"; "invalid_configuration"; "key_creation_failed";
   "service_failed"; "accept_error"; "listener_error"].

Definition vocabulary (record : TelemetryRecord) : bool :=
  contains COMPONENTS (rec_component record) &&
  contains EVENTS (rec_event record) &&
  contains OPERATIONS (rec_operation record) &&
  contains MODES (rec_mode record) &&
  contains STORAGE_STATES (rec_storage_state record) &&
  contains STAGES (rec_stage record) &&
  contains OUTCOMES (rec_outcome record) &&
  contains REASONS (rec_reason record).

(** [Record::valid] *)
Definition valid (record : TelemetryRecord) : bool :=
  (schema_version record =? SCHEMA_VERSION) &&
  (str_len (software_version record) <=? 48) &&
  forallb (fun v => is_ascii_alphanumeric v || byte_in ".-_" v) (bytes_of_string (software_version record)) &&
  forallb valid_label
    [rec_component record; rec_event record; rec_operation record; rec_stage record; rec_outcome record;
     rec_reason record; rec_mode record; rec_storage_state record] &&
  is_finite (duration_seconds record) &&
  (f64_le (f64_of_Z 0) (duration_seconds record) && f64_le (duration_seconds record) (f64_of_Z 604800)) &&
  match rec_provider_index record with None => true | Some index => (1 <=? index) && (index <=? 31) end &&
  vocabulary record.

(** * Operating system answers *)

(** [attempt_id]: the bytes [getrandom] filled in and how many it says there are. *)
Definition attempt_id (getrandom : option (Z * list Z)) : option (list Z) :=
  match getrandom with
  | Some (length, bytes) => if length =? 16 then Some bytes else None
  | None => None
  end.

(** [unix_time_ms]: nanoseconds since the epoch, [None] when the clock reads before it. *)
Definition unix_time_ms (since_epoch : option Z) : option Z :=
  match since_epoch with
  | Some ns => let ms := ns / 1000000 in if ms <? 2 ^ 64 then Some ms else None
  | None => None
  end.

(** The loop of [boot_id] over the remaining items: two digits make a byte. *)
Fixpoint read_pairs (items : nat) (digits : list Z) : option (list Z * list Z) :=
  match items with
  | O => Some ([], digits)
  | S items =>
      match digits with
      | h :: l :: digits =>
          match to_digit16 h, to_digit16 l with
          | Some h, Some l =>
              match read_pairs items digits with
              | Some (output, digits) => Some (h * 16 + l :: output, digits)
              | None => None
              end
          | _, _ => None
          end
      | _ => None
      end
  end.

(** [boot_id] on Linux: [file] is the content of the kernel's boot identifier, when it can be read. *)
Definition boot_id (file : option (list Z)) : option (list Z) :=
  match file with
  | None => None
  | Some content =>
      let bytes := take 38 content in
      if negb (length bytes =? 37)%nat || negb (nth 36 bytes 0 =? 10) then None
      else
        match read_pairs 16 (List.filter (fun v => negb (v =? 45)) (take 36 bytes)) with
        | Some (output, []) => Some output
        | _ => None
        end
  end.

(** * The fixed output buffer *)

Record FixedBuffer : Type := mk_buffer { buffer_bytes : list Z; buffer_len : nat }.

Definition empty_buffer : FixedBuffer := mk_buffer (replicate MAX_EVENT_BYTES 0) 0.

(** [FixedBuffer::write]: all of the bytes, or an error and no change. *)
Definition write (buffer : FixedBuffer) (bytes : list Z) : option FixedBuffer :=
  let len := buffer_len buffer in
  if (length (buffer_bytes buffer) - len <? length bytes)%nat then None
  else Some (mk_buffer
               (take len (buffer_bytes buffer) ++ bytes ++ drop (len + length bytes) (buffer_bytes buffer))
               (len + length bytes)).

(** The writes a serializer issues, in order. *)
Fixpoint write_chunks (buffer : FixedBuffer) (chunks : list (list Z)) : option FixedBuffer :=
  match chunks with
  | [] => Some buffer
  | chunk :: chunks =>
      match write buffer chunk with
      | Some buffer => write_chunks buffer chunks
      | None => None
      end
  end.

(** * The emitter *)

Inductive EmitStatus : Type := Sent | Disabled | Dropped.
#[export] Instance EmitStatus_eq_dec : EqDecision EmitStatus.
Proof. solve_decision. Defined.

Section Emitter.
Context {Path Socket : Type}.
(** [serde_json::to_writer]: the byte chunks of a record, and [serde_json::from_slice]. *)
Context (json_chunks : TelemetryRecord -> option (list (list Z))).
Context (json_read : list Z -> option TelemetryRecord).

(** [Record::decode] *)
Definition decode (bytes : list Z) : option TelemetryRecord :=
  if (MAX_EVENT_BYTES <? length bytes)%nat then None
  else match json_read bytes with
       | Some value => if valid value then Some value else None
       | None => None
       end.

Record Emitter : Type := mk_emitter {
  em_path : option Path;
  em_socket : option Socket;
  em_attempt_id : option (list Z);
  em_boot_id : option (list Z);
  em_sequence : Z;
  em_dropped : Z;
}.

(** [Emitter::new]: what the system answers is only asked for when there is a path. *)
Definition new_emitter (path : option Path) (getrandom : option (Z * list Z)) (socket : option Socket)
    (boot_file : option (list Z)) : Emitter :=
  match path with
  | Some _ => mk_emitter path socket (attempt_id getrandom) (boot_id boot_file) 0 0
  | None => mk_emitter None None None None 0 0
  end.

(** [Emitter::drop_event] *)
Definition drop_event (e : Emitter) : Emitter * EmitStatus :=
  (mk_emitter (em_path e) (em_socket e) (em_attempt_id e) (em_boot_id e) (em_sequence e)
     (saturating_add 64 (em_dropped e) 1), Dropped).

(** [self.sequence.fetch_add(1)] *)
Definition next_sequence (e : Emitter) : Emitter :=
  mk_emitter (em_path e) (em_socket e) (em_attempt_id e) (em_boot_id e) (wrap 64 (em_sequence e + 1)) (em_dropped e).

(** [Emitter::record] *)
Definition record (e : Emitter) (event : Event) (sequence : Z) (since_epoch : option Z) : TelemetryRecord :=
  mk_record SCHEMA_VERSION (ev_component event) (ev_event event) (ev_operation event) (ev_stage event)
    (ev_outcome event) (ev_reason event) (as_secs_f64 (ev_duration event)) (ev_mode event)
    (ev_provider_index event) (ev_storage_state event) (ev_awaiting_boot_test event) (ev_degraded event)
    (ev_native_code event) CARGO_PKG_VERSION (em_attempt_id e) (em_boot_id e) sequence
    (unix_time_ms since_epoch) (em_dropped e).

Definition event_labels (event : Event) : list string :=
  [ev_component event; ev_event event; ev_operation event; ev_stage event; ev_outcome event;
   ev_reason event; ev_mode event; ev_storage_state event].

(** [serde_json::to_writer(&mut buffer, &record)] *)
Definition to_writer (buffer : FixedBuffer) (r : TelemetryRecord) : option FixedBuffer :=
  match json_chunks r with
  | Some chunks => write_chunks buffer chunks
  | None => None
  end.

(** [Emitter::emit]. [send_to] is the answer of the socket, the number of bytes taken. *)
Definition emit (e : Emitter) (event : Event) (since_epoch : option Z)
    (send_to : Socket -> list Z -> Path -> option Z) : Emitter * EmitStatus :=
  match em_path e with
  | None => (e, Disabled)
  | Some path =>
      match em_attempt_id e with
      | None => drop_event e
      | Some _ =>
          if negb (forallb valid_label (event_labels event)) then drop_event e
          else
            let sequence := em_sequence e in
            let e := next_sequence e in
            let r := record e event sequence since_epoch in
            if negb (valid r) then drop_event e
            else match to_writer empty_buffer r with
                 | None => drop_event e
                 | Some buffer =>
                     let bytes := take (buffer_len buffer) (buffer_bytes buffer) in
                     match em_socket e with
                     | Some socket =>
                         match send_to socket bytes path with
                         | Some n => if n =? Z.of_nat (buffer_len buffer) then (e, Sent) else drop_event e
                         | None => drop_event e
                         end
                     | None => drop_event e
                     end
                 end
      end
  end.
End Emitter.
Arguments Emitter Path Socket : clear implicits.

(** * The schema is closed *)

(** What validation promises: every label is program text of the vocabulary, the version is short
    and plain, the duration is a number of seconds within a week, a provider index is in range. *)
Definition closed_schema (r : TelemetryRecord) : Prop :=
  schema_version r = 1 /\
  (String.length (software_version r) <= 48)%nat /\
  Forall (fun v => is_ascii_alphanumeric v = true \/ v ∈ bytes_of_string ".-_") (bytes_of_string (software_version r)) /\
  rec_component r ∈ COMPONENTS /\ rec_event r ∈ EVENTS /\ rec_operation r ∈ OPERATIONS /\
  rec_mode r ∈ MODES /\ rec_storage_state r ∈ STORAGE_STATES /\ rec_stage r ∈ STAGES /\
  rec_outcome r ∈ OUTCOMES /\ rec_reason r ∈ REASONS /\
  nonneg_finite (duration_seconds r) /\ f64_le (duration_seconds r) (f64_of_Z 604800) = true /\
  (forall index, rec_provider_index r = Some index -> 1 <= index <= 31).

Lemma vocabulary_labels :
  forallb valid_label (COMPONENTS ++ EVENTS ++ OPERATIONS ++ MODES ++ STORAGE_STATES ++ STAGES ++ OUTCOMES ++ REASONS)
  = true.
Proof. by vm_compute. Qed.

Lemma word_is_label words s :
  forallb valid_label words = true -> contains words s = true -> valid_label s = true.
Proof. rewrite forallb_forall, contains_spec, list_elem_of_In. auto. Qed.

Lemma vocabulary_valid_labels r :
  vocabulary r = true ->
  forallb valid_label [rec_component r; rec_event r; rec_operation r; rec_stage r; rec_outcome r; rec_reason r;
                       rec_mode r; rec_storage_state r] = true.
Proof.
  unfold vocabulary. rewrite !andb_true_iff. intros H. destruct_and!. simpl.
  pose proof vocabulary_labels as L. rewrite !forallb_app, !andb_true_iff in L. destruct_and! L.
  rewrite !andb_true_iff. repeat split; (eapply word_is_label; [|eassumption]; assumption).
Qed.

Lemma version_byte v :
  is_ascii_alphanumeric v || byte_in ".-_" v = true <->
  is_ascii_alphanumeric v = true \/ v ∈ bytes_of_string ".-_".
Proof. by rewrite orb_true_iff, byte_in_spec. Qed.

Lemma valid_closed r : valid r = true <-> closed_schema r.
Proof.
  transitivity (schema_version r = 1 /\ (String.length (software_version r) <= 48)%nat /\
    Forall (fun v => is_ascii_alphanumeric v = true \/ v ∈ bytes_of_string ".-_") (bytes_of_string (software_version r)) /\
    (is_finite (duration_seconds r) = true /\ f64_le (f64_of_Z 0) (duration_seconds r) = true) /\
    f64_le (duration_seconds r) (f64_of_Z 604800) = true /\
    (forall index, rec_provider_index r = Some index -> 1 <= index <= 31) /\ vocabulary r = true).
  2:{ unfold closed_schema, vocabulary, nonneg_finite. rewrite !andb_true_iff, !contains_spec. tauto. }
  unfold valid. rewrite !andb_true_iff, Z.eqb_eq, Z.leb_le, (forallb_Forall _ _ _ version_byte).
  unfold SCHEMA_VERSION, str_len. split.
  - intros [[[[[[[? ?] ?] ?] ?] [? ?]] Hindex] ?]. split_and!; try done; try lia.
    intros index Hi. rewrite Hi in Hindex. lia.
  - intros (? & ? & ? & [? ?] & ? & Hindex & ?).
    split_and!; try done; try lia; try by apply vocabulary_valid_labels.
    destruct (rec_provider_index r) as [index|] eqn:Hi; [|done]. specialize (Hindex index eq_refl). lia.
Qed.

(** * The boot identifier *)

Fixpoint nibbles (bytes : list Z) : list Z :=
  match bytes with
  | [] => []
  | b :: bytes => b / 16 :: b mod 16 :: nibbles bytes
  end.

Lemma digit_pair h l : 0 <= h < 16 -> 0 <= l < 16 ->
  u8 (h * 16 + l) /\ (h * 16 + l) / 16 = h /\ (h * 16 + l) mod 16 = l.
Proof.
  intros Hh Hl. split_and!; [unfold uint; lia| |].
  - symmetry. apply (Z.div_unique _ 16 h l); lia.
  - symmetry. apply (Z.mod_unique _ 16 h l); lia.
Qed.

Lemma read_pairs_spec n digits out rest :
  read_pairs n digits = Some (out, rest) <->
  byte_array n out /\ exists text, digits = text ++ rest /\ map to_digit16 text = map Some (nibbles out).
Proof.
  revert digits out. induction n as [|n IH]; intros digits out; simpl.
  - split.
    + intros [= <- <-]. split; [by split|]. by exists [].
    + intros [[Hlen _] (text & -> & H)]. destruct out; [|done]. by destruct text.
  - split.
    + intros H. destruct digits as [|h [|l digits]]; try done.
      destruct (to_digit16 h) as [dh|] eqn:Eh; [|done]. destruct (to_digit16 l) as [dl|] eqn:El; [|done].
      destruct (read_pairs n digits) as [[out' rest']|] eqn:E; [|done]. injection H as <- <-.
      destruct (proj1 (IH _ _) E) as [[Hlen Hu8] (text & -> & Htext)].
      destruct (digit_pair dh dl) as (? & Hd & Hm); [eauto with leelo..|].
      split; [split; [simpl; lia|by constructor]|]. exists (h :: l :: text). split; [done|].
      simpl. by rewrite Eh, El, Htext, Hd, Hm.
    + intros [[Hlen Hu8] (text & -> & Htext)]. destruct out as [|b out]; [done|].
      inversion Hu8 as [|? ? Hb Hu8']; subst.
      destruct text as [|h [|l text]]; try done. injection Htext as Eh El Htext. simpl.
      rewrite Eh, El. simpl in Hlen.
      rewrite (proj2 (IH (text ++ rest) out)); [|split; [split; [lia|done]|by exists text]].
      do 3 f_equal. pose proof (Z.div_mod b 16). lia.
Qed.

(** A well-formed boot identifier file: a line of 36 bytes that, without its dashes, spells [id]. *)
Definition boot_file_of (content id : list Z) : Prop :=
  byte_array 16 id /\
  exists text, content = text ++ [10] /\ length text = 36%nat /\
    map to_digit16 (List.filter (fun v => negb (v =? 45)) text) = map Some (nibbles id).

Lemma boot_id_spec content id : boot_id (Some content) = Some id <-> boot_file_of content id.
Proof.
  unfold boot_id. split.
  - intros H. destruct (_ || _) eqn:Hif; [done|].
    apply orb_false_elim in Hif as [Hlen H10]. apply negb_false_iff, Nat.eqb_eq in Hlen.
    apply negb_false_iff, Z.eqb_eq in H10. assert (length content = 37%nat) by (rewrite length_take in Hlen; lia).
    rewrite (take_ge content 38) in H, H10 by lia. rewrite (take_ge content 38) in Hlen by lia.
    destruct (read_pairs _ _) as [[out [|]]|] eqn:E; try done. injection H as ->.
    apply read_pairs_spec in E as [Hid (text & Heq & Htext)]. rewrite app_nil_r in Heq.
    split; [done|]. exists (take 36 content). split_and!.
    + rewrite <- (take_drop 36 content) at 1. f_equal.
      destruct (drop 36 content) as [|x [|? ?]] eqn:Hd; [|f_equal|];
        apply (f_equal length) in Hd as Hl; rewrite length_drop in Hl; simpl in Hl; try lia.
      rewrite <- H10, <- (Nat.add_0_r 36), <- nth_skipn.
      change (skipn 36 content) with (drop 36 content). by rewrite Hd.
    + rewrite length_take. lia.
    + by rewrite Heq.
  - intros [Hid (text & -> & Hlen & Htext)]. rewrite take_ge by (rewrite length_app; simpl; lia).
    assert (take 36 (text ++ [10]) = text) as -> by (by rewrite <- Hlen, take_app_length).
    rewrite (proj2 (read_pairs_spec 16 _ id [])); [|split; [done|eexists; by rewrite app_nil_r]].
    rewrite length_app, Hlen, app_nth2 by lia. by rewrite Hlen.
Qed.

(** * The buffer *)

Definition buffer_ok (buffer : FixedBuffer) : Prop :=
  length (buffer_bytes buffer) = MAX_EVENT_BYTES /\ (buffer_len buffer <= MAX_EVENT_BYTES)%nat.

Definition written (buffer : FixedBuffer) : list Z := take (buffer_len buffer) (buffer_bytes buffer).

Lemma write_spec buffer bytes :
  buffer_ok buffer ->
  match write buffer bytes with
  | Some buffer' => buffer_ok buffer' /\ written buffer' = written buffer ++ bytes
  | None => (MAX_EVENT_BYTES < buffer_len buffer + length bytes)%nat
  end.
Proof.
  intros [Hlen Hle]. unfold write. destruct (Nat.ltb_spec (length (buffer_bytes buffer) - buffer_len buffer) (length bytes)).
  - rewrite Hlen in *. lia.
  - unfold buffer_ok, written. simpl. split_and!.
    + rewrite !length_app, length_take, length_drop. lia.
    + lia.
    + rewrite app_assoc. apply take_app_length'. rewrite length_app, length_take. lia.
Qed.

Lemma written_length buffer : buffer_ok buffer -> length (written buffer) = buffer_len buffer.
Proof. intros [? ?]. unfold written. rewrite length_take. lia. Qed.

Lemma write_chunks_spec chunks buffer :
  buffer_ok buffer ->
  match write_chunks buffer chunks with
  | Some buffer' => buffer_ok buffer' /\ written buffer' = written buffer ++ concat chunks
  | None => (MAX_EVENT_BYTES < buffer_len buffer + length (concat chunks))%nat
  end.
Proof.
  revert buffer. induction chunks as [|chunk chunks IH]; intros buffer Hok; simpl.
  { by rewrite app_nil_r. }
  pose proof (write_spec buffer chunk Hok) as H. rewrite length_app.
  destruct (write buffer chunk) as [buffer'|]; [|lia]. destruct H as [Hok' Hw].
  specialize (IH buffer' Hok'). destruct (write_chunks buffer' chunks) as [buffer''|].
  - destruct IH as [? ->]. by rewrite Hw, app_assoc.
  - rewrite <- (written_length _ Hok'), Hw, length_app, (written_length _ Hok) in IH. lia.
Qed.

Lemma empty_buffer_ok : buffer_ok empty_buffer.
Proof. split; [apply length_replicate|simpl; lia]. Qed.

#[export] Hint Resolve empty_buffer_ok : leelo.

(** * Delivery and loss accounting *)

Section Accounting.
Context {Path Socket : Type}.
Context (json_chunks : TelemetryRecord -> option (list (list Z))).
Context (json_read : list Z -> option TelemetryRecord).

(** One call of [emit] with the answers it meets. *)
Record Call : Type := mk_call {
  call_event : Event;
  call_clock : option Z;
  call_send : Socket -> list Z -> Path -> option Z;
}.

Definition emit_call (e : Emitter Path Socket) (c : Call) : Emitter Path Socket * EmitStatus :=
  emit json_chunks e (call_event c) (call_clock c) (call_send c).

(** A sequence of calls on one emitter. *)
Fixpoint emit_all (e : Emitter Path Socket) (calls : list Call) : Emitter Path Socket * list EmitStatus :=
  match calls with
  | [] => (e, [])
  | c :: calls =>
      let (e, status) := emit_call e c in
      let (e, statuses) := emit_all e calls in
      (e, status :: statuses)
  end.

Definition drops (statuses : list EmitStatus) : Z :=
  Z.of_nat (length (List.filter (fun s => bool_decide (s = Dropped)) statuses)).

Lemma drops_bound statuses : 0 <= drops statuses <= Z.of_nat (length statuses).
Proof. unfold drops. pose proof (List.filter_length_le (fun s => bool_decide (s = Dropped)) statuses). lia. Qed.

(** The record an emitter composes for a call. *)
Definition composed (e : Emitter Path Socket) (c : Call) : TelemetryRecord :=
  record (next_sequence e) (call_event c) (em_sequence e) (call_clock c).

(** A datagram of the composed record went out whole. *)
Definition delivered (path : Path) (e : Emitter Path Socket) (c : Call) : Prop :=
  exists socket chunks,
    em_socket e = Some socket /\ json_chunks (composed e c) = Some chunks /\
    valid (composed e c) = true /\ (length (concat chunks) <= MAX_EVENT_BYTES)%nat /\
    call_send c socket (concat chunks) path = Some (Z.of_nat (length (concat chunks))) /\
    (json_read (concat chunks) = Some (composed e c) ->
     decode json_read (concat chunks) = Some (composed e c)).

(** What every call keeps, and how the two counters move. *)
Definition call_effect (e : Emitter Path Socket) (c : Call) (e' : Emitter Path Socket) (s : EmitStatus) : Prop :=
  em_path e' = em_path e /\ em_socket e' = em_socket e /\ em_attempt_id e' = em_attempt_id e /\
  em_boot_id e' = em_boot_id e /\
  match em_path e, s with
  | None, Disabled => e' = e
  | Some path, Sent =>
      em_dropped e' = em_dropped e /\ em_sequence e' = wrap 64 (em_sequence e + 1) /\
      is_Some (em_attempt_id e) /\ delivered path e c
  | Some _, Dropped =>
      em_dropped e' = saturating_add 64 (em_dropped e) 1 /\
      (em_sequence e' = em_sequence e \/ em_sequence e' = wrap 64 (em_sequence e + 1))
  | _, _ => False
  end.

Lemma dropped_effect (e0 e : Emitter Path Socket) c path e' s :
  em_path e0 = Some path -> em_path e = Some path ->
  em_socket e = em_socket e0 -> em_attempt_id e = em_attempt_id e0 -> em_boot_id e = em_boot_id e0 ->
  em_dropped e = em_dropped e0 ->
  em_sequence e = em_sequence e0 \/ em_sequence e = wrap 64 (em_sequence e0 + 1) ->
  drop_event e = (e', s) -> call_effect e0 c e' s.
Proof. intros ? ? ? ? ? Hd ? [= <- <-]. unfold call_effect. simpl. rewrite Hd. by destruct (em_path e0); simplify_eq. Qed.

Lemma emit_effect e c e' s : emit_call e c = (e', s) -> call_effect e c e' s.
Proof.
  unfold emit_call, emit. destruct (em_path e) as [path|] eqn:Ep.
  2:{ intros [= <- <-]. unfold call_effect. by rewrite Ep. }
  destruct (em_attempt_id e) as [id|] eqn:Ea; [|by eapply dropped_effect; eauto].
  destruct (negb _); [by eapply dropped_effect; eauto|]. cbv zeta.
  fold (composed e c).
  assert (forall e' s, drop_event (next_sequence e) = (e', s) -> call_effect e c e' s) as Hdrop.
  { intros e1 s1. eapply dropped_effect; eauto. }
  destruct (valid (composed e c)) eqn:Hv; [|auto]. simpl negb. cbv iota. unfold to_writer.
  destruct (json_chunks (composed e c)) as [chunks|] eqn:Hj; [|auto].
  pose proof (write_chunks_spec chunks empty_buffer empty_buffer_ok) as Hw.
  destruct (write_chunks empty_buffer chunks) as [buffer|]; [|auto].
  destruct Hw as [Hok Hw]. fold (written buffer). change (written empty_buffer) with (@nil Z) in Hw.
  pose proof (written_length buffer Hok) as Hlen. simpl app in Hw. rewrite Hw in *.
  change (em_socket (next_sequence e)) with (em_socket e).
  destruct (em_socket e) as [socket|] eqn:Es; [|auto].
  destruct (call_send c socket (concat chunks) path) as [n|] eqn:Hs; [|auto].
  destruct (Z.eqb_spec n (Z.of_nat (buffer_len buffer))) as [->|]; [|auto].
  intros [= <- <-]. unfold call_effect. rewrite Ep, Ea. simpl. split_and!; try done.
  exists socket, chunks. destruct Hok. split_and!; try done; [lia|by rewrite Hlen|].
  intros Hr. unfold decode. destruct (Nat.ltb_spec MAX_EVENT_BYTES (length (concat chunks))); [lia|].
  by rewrite Hr, Hv.
Qed.

Lemma emit_all_length calls e : length (emit_all e calls).2 = length calls.
Proof.
  revert e. induction calls as [|c calls IH]; intros e; simpl; [done|].
  destruct (emit_call e c) as [e1 s]. specialize (IH e1). destruct (emit_all e1 calls). simpl in *. by rewrite IH.
Qed.

Lemma emit_all_app a b e : (emit_all e (a ++ b)).1 = (emit_all (emit_all e a).1 b).1.
Proof.
  revert e. induction a as [|c a IH]; intros e; simpl; [done|]. destruct (emit_call e c) as [e1 s].
  specialize (IH e1). destruct (emit_all e1 (a ++ b)), (emit_all e1 a). done.
Qed.

(** The call at a position acts on the state the calls before it left. *)
Lemma emit_all_lookup calls e i c s :
  calls !! i = Some c -> (emit_all e calls).2 !! i = Some s ->
  exists e', emit_call (emit_all e (take i calls)).1 c = (e', s) /\
    (emit_all e (take (S i) calls)).1 = e' /\ (emit_all e (take i calls)).2 = take i (emit_all e calls).2.
Proof.
  revert e i. induction calls as [|c' calls IH]; intros e i Hc Hs; [done|]. simpl in Hs.
  destruct i as [|i]; simpl in *.
  - injection Hc as ->. destruct (emit_call e c) as [e1 s1]. destruct (emit_all e1 calls) as [e2 ss].
    injection Hs as ->. by exists e1.
  - destruct (emit_call e c') as [e1 s1]. destruct (emit_all e1 calls) as [e2 ss] eqn:E. simpl in *.
    destruct (IH e1 i Hc) as (e' & H1 & H2 & H3); [by rewrite E|]. exists e'.
    rewrite E in H3. simpl in H3.
    destruct (emit_all e1 (take i calls)) as [e3 ss3].
    destruct calls as [|c'' calls]; [by rewrite lookup_nil in Hc|]. simpl in H2 |- *.
    destruct (emit_call e1 c'') as [e4 s4]. destruct (emit_all e4 (take i calls)). simpl in *. by subst.
Qed.

(** Counters of an active emitter, while fewer than [2 ^ 64] calls were made. *)
Definition counts_calls (e : Emitter Path Socket) (path : Path) (e' : Emitter Path Socket) (ss : list EmitStatus) : Prop :=
  em_path e' = Some path /\ em_socket e' = em_socket e /\ em_attempt_id e' = em_attempt_id e /\
  em_dropped e' = em_dropped e + drops ss /\
  em_sequence e <= em_sequence e' <= em_sequence e + Z.of_nat (length ss) /\ Disabled ∉ ss.

Lemma emit_all_counts calls e path :
  em_path e = Some path -> 0 <= em_sequence e -> 0 <= em_dropped e ->
  em_sequence e + Z.of_nat (length calls) < 2 ^ 64 -> em_dropped e + Z.of_nat (length calls) < 2 ^ 64 ->
  counts_calls e path (emit_all e calls).1 (emit_all e calls).2.
Proof.
  revert e. induction calls as [|c calls IH]; intros e Hp Hs0 Hd0 Hs Hd; simpl.
  { unfold counts_calls, drops. simpl. split_and!; try done; try lia. apply not_elem_of_nil. }
  destruct (emit_call e c) as [e1 s] eqn:E. apply emit_effect in E as (Hp1 & Hk1 & Ha1 & _ & E).
  rewrite Hp in E, Hp1. simpl length in Hs, Hd.
  assert (exists d, em_dropped e1 = em_dropped e + d /\ 0 <= d <= 1 /\ drops [s] = d /\
            em_sequence e <= em_sequence e1 <= em_sequence e + 1 /\ s <> Disabled) as (d & Hd1 & Hd2 & Hd3 & Hq & Hn).
  { destruct s; [destruct E as (-> & -> & _)|done|destruct E as [-> Hq]].
    - exists 0. rewrite wrap_id by (unfold uint; lia). unfold drops. simpl. split_and!; lia || done.
    - exists 1. unfold saturating_add, drops. simpl. rewrite wrap_id in Hq by (unfold uint; lia).
      destruct Hq as [-> | ->]; split_and!; lia || done. }
  destruct (IH e1) as (I1 & I2 & I3 & I4 & I5 & I6); [done|lia..|].
  destruct (emit_all e1 calls) as [e2 ss]. simpl in *. unfold counts_calls.
  assert (drops (s :: ss) = d + drops ss) as ->.
  { rewrite <- Hd3. unfold drops. destruct s; simpl; lia. }
  split_and!; try congruence; try (simpl; lia). apply not_elem_of_cons. split; congruence.
Qed.

Lemma emitted_before calls e path i :
  em_path e = Some path -> em_sequence e = 0 -> em_dropped e = 0 -> Z.of_nat (length calls) < 2 ^ 64 ->
  counts_calls e path (emit_all e (take i calls)).1 (emit_all e (take i calls)).2.
Proof.
  intros Hp Hs Hd Hlen. assert (length (take i calls) <= length calls)%nat by (rewrite length_take; lia).
  apply emit_all_counts; lia || done.
Qed.

Lemma sequence_increases calls e path i j ci sj :
  em_path e = Some path -> em_sequence e = 0 -> em_dropped e = 0 -> Z.of_nat (length calls) < 2 ^ 64 ->
  (i < j)%nat -> calls !! i = Some ci -> (emit_all e calls).2 !! i = Some Sent ->
  (emit_all e calls).2 !! j = Some sj ->
  em_sequence (emit_all e (take i calls)).1 < em_sequence (emit_all e (take j calls)).1.
Proof.
  intros Hp Hs Hd Hlen Hij Hci Hsi Hsj.
  destruct (emit_all_lookup _ _ _ _ _ Hci Hsi) as (e1 & E & Hnext & _).
  pose proof (emitted_before calls e path i Hp Hs Hd Hlen) as (Hp1 & _ & _ & _ & Hq1 & _).
  pose proof (emitted_before calls e path j Hp Hs Hd Hlen) as (_ & _ & _ & _ & Hqj & _).
  rewrite emit_all_length, length_take in Hq1.
  assert (i < length calls)%nat by by eapply lookup_lt_Some.
  apply emit_effect in E as (Hp2 & _ & _ & _ & E). rewrite Hp1 in E, Hp2. destruct E as (Hd2 & Hq2 & _ & _).
  rewrite wrap_id in Hq2 by (unfold uint; lia).
  assert (take j calls = take (S i) calls ++ drop (S i) (take j calls)) as ->.
  { rewrite <- (take_drop (S i) (take j calls)) at 1. by rewrite take_take, Nat.min_l by lia. }
  rewrite emit_all_app, Hnext. set (rest := drop (S i) (take j calls)).
  assert (length rest + S i <= length calls)%nat by (unfold rest; rewrite length_drop, length_take; lia).
  destruct (emitted_before calls e path (S i) Hp Hs Hd Hlen) as (_ & _ & _ & Hd3 & _ & _).
  rewrite Hnext in Hd3. pose proof (drops_bound (emit_all e (take (S i) calls)).2) as Hb.
  rewrite emit_all_length, length_take in Hb.
  destruct (emit_all_counts rest e1 path) as (_ & _ & _ & _ & Hq3 & _); [done|lia..|]. lia.
Qed.
End Accounting.

(** C40: An emitter with a destination accounts for every event. Its loss counter is the number of
    dropped events; each event reported as sent went out whole, as one datagram of at most 4096
    bytes holding a valid record that a reader of the same JSON accepts; the record carries the
    emitter's attempt identifier and the number of losses before it; and sequence numbers of sent
    records strictly increase. *)
Theorem emitter_accounting {Path Socket} json_chunks json_read (path : Path) getrandom (socket : option Socket)
    boot_file calls :
  Z.of_nat (length calls) < 2 ^ 64 ->
  let e := new_emitter (Some path) getrandom socket boot_file in
  let statuses := (emit_all json_chunks e calls).2 in
  let before i := (emit_all json_chunks e (take i calls)).1 in
  em_dropped (emit_all json_chunks e calls).1 = drops statuses /\ Disabled ∉ statuses /\
  (forall i c, calls !! i = Some c -> statuses !! i = Some Sent ->
     delivered json_chunks json_read path (before i) c /\
     dropped_before (composed (before i) c) = drops (take i statuses) /\
     is_Some (rec_attempt_id (composed (before i) c)) /\
     rec_attempt_id (composed (before i) c) = attempt_id getrandom) /\
  (forall i j ci cj, (i < j)%nat -> calls !! i = Some ci -> calls !! j = Some cj ->
     statuses !! i = Some Sent -> statuses !! j = Some Sent ->
     rec_sequence (composed (before i) ci) < rec_sequence (composed (before j) cj)).
Proof.
  intros Hlen e statuses before. split_and!.
  - pose proof (emit_all_counts json_chunks json_read calls e path) as (_ & _ & _ & -> & _); [done..|].
    apply Z.add_0_l.
  - by destruct (emit_all_counts json_chunks json_read calls e path) as (_ & _ & _ & _ & _ & ?).
  - intros i c Hc Hs. destruct (emit_all_lookup json_chunks _ _ _ _ _ Hc Hs) as (e1 & E & _ & Hss).
    pose proof (emitted_before json_chunks json_read calls e path i) as (Hp & _ & Ha & Hd & _); [done..|].
    apply (emit_effect json_chunks json_read) in E as (_ & _ & _ & _ & E). rewrite Hp in E.
    destruct E as (_ & _ & ? & ?). split_and!; try done.
    simpl. fold (before i) in Hd. rewrite Hd, Hss. apply Z.add_0_l.
  - intros i j ci cj Hij Hci Hcj Hsi Hsj. by eapply (sequence_increases json_chunks json_read calls e path).
Qed.

(** Validation accepts exactly the records of the closed schema: schema version one, every label
    a word of the fixed vocabulary, a short plain version text, a finite duration between zero and
    one week, and a provider index between 1 and 31. No other text passes, so no record of the
    reader carries free text in a label. *)
Theorem valid_closed_schema r : valid r = true <-> closed_schema r.
Proof. apply valid_closed. Qed.

(** * Witnesses *)

(** A writer of two chunks, enough to run the emitter. *)
Definition demo_chunks (r : TelemetryRecord) : option (list (list Z)) :=
  Some [bytes_of_string (rec_event r); [rec_sequence r; dropped_before r]].
Definition demo_event : Event :=
  new_event "client" "operation_completed" "activate" "activate" "success" "none".
Definition demo_call (accepts : bool) : Call (Path := unit) (Socket := unit) :=
  mk_call demo_event (Some 1000000) (fun _ bytes _ => if accepts then Some (Z.of_nat (length bytes)) else None).
Definition demo_emitter : Emitter unit unit := new_emitter (Some tt) (Some (16, replicate 16 7)) (Some tt) None.

Lemma emitter_accounting_witness :
  (emit_all demo_chunks demo_emitter [demo_call false; demo_call true; demo_call true]).2 = [Dropped; Sent; Sent] /\
  em_dropped (emit_all demo_chunks demo_emitter [demo_call false; demo_call true; demo_call true]).1 = 1.
Proof.
  split; [by vm_compute|].
  refine (eq_trans (proj1 (emitter_accounting demo_chunks (fun _ => None) tt (Some (16, replicate 16 7)) (Some tt)
    None [demo_call false; demo_call true; demo_call true] _)) _); by vm_compute.
Defined.
