(* ===== verification/Collector.v ===== *)
(** The collector's registry, [leelo-collector/src/metrics.rs]: replay protection, loss accounting,
    bounded counters and histograms, and the exposition text. Every [u64] saturates as in the source.
    The textual form of an [f64] is the parameter [display_f64] of [render]. *)
From stdpp Require Import base list gmap strings sorting.
From Stdlib Require Import ZArith Lia SpecFloat.
From S2P Require Import Prelude Float64 Text Telemetry.

Open Scope Z_scope.

Definition MAX_SERIES : Z := 512.
Definition MAX_REPLAY : Z := 65536.

(** [0.005, 0.025, 0.1, 0.5, 1.0, 2.0, 5.0, 15.0, 30.0] *)
Definition BUCKETS : list f64 :=
  [f64_decimal 5 1000; f64_decimal 25 1000; f64_decimal 1 10; f64_decimal 5 10;
   f64_of_Z 1; f64_of_Z 2; f64_of_Z 5; f64_of_Z 15; f64_of_Z 30].

Abbreviation EventId := (Z * list Z * Z)%type.
Abbreviation AttemptId := (Z * list Z)%type.


Record Attempt : Type := mk_attempt { attempt_drops : Z; attempt_terminal : bool }.

Record Received : Type := mk_received {
  source_uid : Z;
  source_pid : Z;
  received_at_ms : Z;
  received_record : TelemetryRecord;
}.

Record Histogram : Type := mk_histogram { buckets : list Z; count : Z; sum : f64 }.

Record Metrics : Type := mk_metrics {
  seen : gset EventId;
  order : list EventId;
  counters : gmap string Z;
  histograms : gmap string Histogram;
  attempts : gmap AttemptId Attempt;
  attempt_order : list AttemptId;
  reported_drops : Z;
  replay_evictions : Z;
  accepted : Z;
  rejected : Z;
  duplicates : Z;
  overflow : Z;
  write_failures : Z;
  last_received_ms : Z;
}.

(** The [Default] instances. *)
Definition default_attempt : Attempt := mk_attempt 0 false.
Definition default_histogram : Histogram := mk_histogram (replicate 9 0) 0 (f64_of_Z 0).
Definition default_metrics : Metrics := mk_metrics ∅ [] ∅ ∅ ∅ [] 0 0 0 0 0 0 0 0.

(** [x = x.saturating_add(1)] *)
Definition bump (x : Z) : Z := saturating_add 64 x 1.

(** * Field updates *)

Definition set_replay (m : Metrics) (seen' : gset EventId) (order' : list EventId) (evictions : Z) : Metrics :=
  mk_metrics seen' order' (counters m) (histograms m) (attempts m) (attempt_order m) (reported_drops m) evictions
    (accepted m) (rejected m) (duplicates m) (overflow m) (write_failures m) (last_received_ms m).

Definition set_attempts (m : Metrics) (attempts' : gmap AttemptId Attempt) (order' : list AttemptId)
    (drops evictions : Z) : Metrics :=
  mk_metrics (seen m) (order m) (counters m) (histograms m) attempts' order' drops evictions
    (accepted m) (rejected m) (duplicates m) (overflow m) (write_failures m) (last_received_ms m).

Definition set_series (m : Metrics) (counters' : gmap string Z) (histograms' : gmap string Histogram)
    (overflow' : Z) : Metrics :=
  mk_metrics (seen m) (order m) counters' histograms' (attempts m) (attempt_order m) (reported_drops m)
    (replay_evictions m) (accepted m) (rejected m) (duplicates m) overflow' (write_failures m) (last_received_ms m).

Definition set_tally (m : Metrics) (accepted' rejected' duplicates' last' : Z) : Metrics :=
  mk_metrics (seen m) (order m) (counters m) (histograms m) (attempts m) (attempt_order m) (reported_drops m)
    (replay_evictions m) accepted' rejected' duplicates' (overflow m) (write_failures m) last'.

Definition reject (m : Metrics) : Metrics :=
  set_tally m (accepted m) (bump (rejected m)) (duplicates m) (last_received_ms m).
Definition count_duplicate (m : Metrics) : Metrics :=
  set_tally m (accepted m) (rejected m) (bump (duplicates m)) (last_received_ms m).
Definition count_accepted (m : Metrics) (received_at : Z) : Metrics :=
  set_tally m (bump (accepted m)) (rejected m) (duplicates m) (Z.max (last_received_ms m) received_at).

(** * Series *)

Definition series (m : Metrics) : Z := Z.of_nat (size (counters m)) + Z.of_nat (size (histograms m)).

Definition increment (m : Metrics) (key : string) : Metrics :=
  if (MAX_SERIES <=? series m) && bool_decide (counters m !! key = None)
  then set_series m (counters m) (histograms m) (bump (overflow m))
  else set_series m (<[key := bump (default 0 (counters m !! key))]> (counters m)) (histograms m) (overflow m).

(** The bucket loop of [observe]. *)
Fixpoint fill_buckets (limits : list f64) (counts : list Z) (duration : f64) : list Z :=
  match limits, counts with
  | limit :: limits, c :: counts =>
      (if f64_le duration limit then bump c else c) :: fill_buckets limits counts duration
  | _, counts => counts
  end.

Definition observe_histogram (h : Histogram) (duration : f64) : Histogram :=
  mk_histogram (fill_buckets BUCKETS (buckets h) duration) (bump (count h))
    (f64_min (f64_add (sum h) duration) f64_MAX).

Definition observe (m : Metrics) (key : string) (duration : f64) : Metrics :=
  if (MAX_SERIES <=? series m) && bool_decide (histograms m !! key = None)
  then set_series m (counters m) (histograms m) (bump (overflow m))
  else set_series m (counters m)
         (<[key := observe_histogram (default default_histogram (histograms m !! key)) duration]> (histograms m))
         (overflow m).

(** * Accepting an event *)

(** [self.seen.insert(key)], [self.order.push_back(key)] and the eviction after it. *)
Definition remember (m : Metrics) (key : EventId) : Metrics :=
  let order' := order m ++ [key] in
  let seen' := {[key]} ∪ seen m in
  if MAX_REPLAY <? Z.of_nat (length order') then
    match order' with
    | old :: rest => set_replay m (seen' ∖ {[old]}) rest (bump (replay_evictions m))
    | [] => set_replay m seen' order' (replay_evictions m)
    end
  else set_replay m seen' order' (replay_evictions m).

(** The eviction before a new attempt is tracked. *)
Definition track (m : Metrics) (id : AttemptId) : Metrics :=
  match attempts m !! id with
  | Some _ => m
  | None =>
      let m :=
        if Z.of_nat (length (attempt_order m)) =? MAX_REPLAY then
          match attempt_order m with
          | old :: rest =>
              set_attempts m (delete old (attempts m)) rest (reported_drops m) (bump (replay_evictions m))
          | [] => m
          end
        else m in
      set_attempts m (attempts m) (attempt_order m ++ [id]) (reported_drops m) (replay_evictions m)
  end.

(** The attempt's entry and the loss counter. *)
Definition report_losses (m : Metrics) (id : AttemptId) (dropped : Z) (terminal : bool) : Metrics :=
  let attempt := default default_attempt (attempts m !! id) in
  set_attempts m
    (<[id := mk_attempt (Z.max (attempt_drops attempt) dropped) (attempt_terminal attempt || terminal)]> (attempts m))
    (attempt_order m)
    (saturating_add 64 (reported_drops m) (saturating_sub dropped (attempt_drops attempt)))
    (replay_evictions m).

(** The operations a client series can name. *)
Definition CLIENT_OPERATIONS : list string :=
  ["enroll"; "resume"; "resume_enrollment"; "check"; "activate"; "keygen"; "inspect"; "pcr_digest"].

Definition operations_key (r : TelemetryRecord) : string :=
  "leelo_client_operations_total{" +:+ label "operation" (rec_operation r) +:+ "," +:+ label "mode" (rec_mode r)
  +:+ "," +:+ label "outcome" (rec_outcome r) +:+ "}".
Definition failures_key (r : TelemetryRecord) : string :=
  "leelo_client_failures_total{" +:+ label "operation" (rec_operation r) +:+ "," +:+ label "stage" (rec_stage r)
  +:+ "," +:+ label "reason" (rec_reason r) +:+ "}".
Definition operation_duration_key (r : TelemetryRecord) : string :=
  "leelo_client_operation_duration_seconds{" +:+ label "operation" (rec_operation r).
Definition phase_duration_key (r : TelemetryRecord) : string :=
  "leelo_client_phase_duration_seconds{" +:+ label "operation" (rec_operation r) +:+ "," +:+
  label "stage" (rec_stage r).
Definition provider_attempts_key (r : TelemetryRecord) (index : Z) : string :=
  "leelo_provider_attempts_total{" +:+ label "provider" (display_u64 index) +:+ "," +:+ label "phase" (rec_stage r)
  +:+ "," +:+ label "outcome" (rec_outcome r) +:+ "}".
Definition provider_failures_key (r : TelemetryRecord) (index : Z) : string :=
  "leelo_provider_failures_total{" +:+ label "provider" (display_u64 index) +:+ "," +:+ label "phase" (rec_stage r)
  +:+ "," +:+ label "reason" (rec_reason r) +:+ "}".
Definition provider_duration_key (r : TelemetryRecord) (index : Z) : string :=
  "leelo_provider_duration_seconds{" +:+ label "provider" (display_u64 index) +:+ "," +:+
  label "phase" (rec_stage r).

(** The match on the event name, for client records of a known operation. *)
Definition count_client (m : Metrics) (r : TelemetryRecord) : Metrics :=
  if String.eqb (rec_event r) "operation_completed" then
    let m := increment m (operations_key r) in
    let m := observe m (operation_duration_key r) (duration_seconds r) in
    let m := if String.eqb (rec_outcome r) "failure" then increment m (failures_key r) else m in
    if rec_degraded r && String.eqb (rec_outcome r) "success" && contains ["check"; "activate"] (rec_operation r)
    then increment m "leelo_unlock_degraded_total" else m
  else if String.eqb (rec_event r) "phase_completed" then observe m (phase_duration_key r) (duration_seconds r)
  else if String.eqb (rec_event r) "provider_completed" && negb (String.eqb (rec_outcome r) "not_started") then
    match rec_provider_index r with
    | Some index =>
        let m := increment m (provider_attempts_key r index) in
        let m := if String.eqb (rec_outcome r) "failed" then increment m (provider_failures_key r index) else m in
        observe m (provider_duration_key r index) (duration_seconds r)
    | None => m
    end
  else m.

Definition count_record (m : Metrics) (r : TelemetryRecord) : Metrics :=
  if negb (String.eqb (rec_component r) "client") then m
  else if negb (contains CLIENT_OPERATIONS (rec_operation r)) then m
  else count_client m r.

Definition is_terminal (r : TelemetryRecord) : bool :=
  String.eqb (rec_component r) "client" && String.eqb (rec_event r) "operation_completed".

(** [Metrics::accept] *)
Definition accept (m : Metrics) (received : Received) : Metrics * bool :=
  let r := received_record received in
  if negb (valid r) then (reject m, false)
  else
    match rec_attempt_id r with
    | Some id =>
        let key := (source_uid received, id, rec_sequence r) in
        if bool_decide (key ∈ seen m) then (count_duplicate m, false)
        else
          let attempt_id := (source_uid received, id) in
          let terminal := is_terminal r in
          if terminal && match attempts m !! attempt_id with Some a => attempt_terminal a | None => false end
          then (reject m, false)
          else
            let m := remember m key in
            let m := track m attempt_id in
            let m := report_losses m attempt_id (dropped_before r) terminal in
            let m := count_accepted m (received_at_ms received) in
            (count_record m r, true)
    | None => (reject m, false)
    end.

(** * Exposition *)

(** A [BTreeMap] iterates in the order of its keys, which is the byte order of strings. *)
Definition key_le {A} (a b : string * A) : Prop := String.leb a.1 b.1 = true.
#[export] Instance key_le_dec {A} : RelDecision (@key_le A).
Proof. intros a b. unfold key_le. apply _. Defined.
Definition entries {A} (m : gmap string A) : list (string * A) := merge_sort key_le (map_to_list m).

(** [key.split_once('{')] *)
Fixpoint split_once (c : Ascii.ascii) (s : string) : option (string * string) :=
  match s with
  | EmptyString => None
  | String a s =>
      if Ascii.eqb a c then Some (EmptyString, s)
      else match split_once c s with
           | Some (before, after) => Some (String a before, after)
           | None => None
           end
  end.

Definition OPEN_BRACE : Ascii.ascii := Ascii.ascii_of_nat 123.

Section Render.
Context (display_f64 : f64 -> string).

Fixpoint render_buckets (name labels : string) (limits : list f64) (counts : list Z) : string :=
  match limits, counts with
  | limit :: limits, c :: counts =>
      sample (name +:+ "_bucket{" +:+ labels +:+ "," +:+ label "le" (display_f64 limit) +:+ "}") (display_u64 c)
      +:+ render_buckets name labels limits counts
  | _, _ => EmptyString
  end.

(** One histogram; [None] is the panic of [expect("internal histogram key")]. *)
Definition render_histogram (key : string) (h : Histogram) : option string :=
  match split_once OPEN_BRACE key with
  | Some (name, labels) =>
      Some (render_buckets name labels BUCKETS (buckets h) +:+
            sample (name +:+ "_bucket{" +:+ labels +:+ "," +:+ label "le" "+Inf" +:+ "}") (display_u64 (count h)) +:+
            sample (name +:+ "_count{" +:+ labels +:+ "}") (display_u64 (count h)) +:+
            sample (name +:+ "_sum{" +:+ labels +:+ "}") (display_f64 (sum h)))
  | None => None
  end.

Definition render_counters (m : gmap string Z) : string :=
  foldr (fun kv out => sample kv.1 (display_u64 kv.2) +:+ out) EmptyString (entries m).

Definition render_histograms (m : gmap string Histogram) : option string :=
  foldr (fun kv out => match render_histogram kv.1 kv.2, out with
                       | Some h, Some out => Some (h +:+ out)
                       | _, _ => None
                       end) (Some EmptyString) (entries m).

(** [Metrics::render] *)
Definition render (m : Metrics) (now_ms : Z) : option string :=
  match render_histograms (histograms m) with
  | Some histograms =>
      Some (sample ("leelo_collector_events_total{" +:+ label "outcome" "accepted" +:+ "}") (display_u64 (accepted m)) +:+
            sample ("leelo_collector_events_total{" +:+ label "outcome" "rejected" +:+ "}") (display_u64 (rejected m)) +:+
            sample ("leelo_collector_events_total{" +:+ label "outcome" "duplicate" +:+ "}") (display_u64 (duplicates m)) +:+
            sample "leelo_collector_series_rejected_total" (display_u64 (overflow m)) +:+
            sample "leelo_collector_write_failures_total" (display_u64 (write_failures m)) +:+
            sample "leelo_collector_last_event_timestamp_seconds" (millis display_f64 (last_received_ms m)) +:+
            sample "leelo_collector_snapshot_timestamp_seconds" (millis display_f64 now_ms) +:+
            render_counters (counters m) +:+
            sample "leelo_telemetry_reported_drops_total" (display_u64 (reported_drops m)) +:+
            sample "leelo_collector_replay_state_evictions_total" (display_u64 (replay_evictions m)) +:+
            histograms)
  | None => None
  end.
End Render.

(** * The invariant *)

(** Cumulative bucket counts never decrease and never pass the count. *)
Fixpoint cumulative (counts : list Z) (bound : Z) : Prop :=
  match counts with
  | [] => True
  | c :: counts => 0 <= c <= bound /\ match counts with [] => True | d :: _ => c <= d end /\ cumulative counts bound
  end.

Definition histogram_ok (h : Histogram) : Prop :=
  length (buckets h) = length BUCKETS /\ u64 (count h) /\ cumulative (buckets h) (count h) /\ nonneg_finite (sum h).

(** The replay window, the attempt window, the registry, and the scalar counters. *)
Definition replay_ok (m : Metrics) : Prop :=
  seen m = list_to_set (order m) /\ NoDup (order m) /\ Z.of_nat (length (order m)) <= MAX_REPLAY.

Definition attempts_ok (m : Metrics) : Prop :=
  dom (attempts m) = list_to_set (attempt_order m) /\ NoDup (attempt_order m) /\
  Z.of_nat (length (attempt_order m)) <= MAX_REPLAY /\ map_Forall (fun _ a => u64 (attempt_drops a)) (attempts m).

Definition registry_ok (m : Metrics) : Prop :=
  series m <= MAX_SERIES /\ map_Forall (fun _ v => u64 v) (counters m) /\
  map_Forall (fun key h => is_Some (split_once OPEN_BRACE key) /\ histogram_ok h) (histograms m).

Definition tally_ok (m : Metrics) : Prop :=
  u64 (reported_drops m) /\ u64 (replay_evictions m) /\ u64 (accepted m) /\ u64 (rejected m) /\
  u64 (duplicates m) /\ u64 (overflow m) /\ u64 (last_received_ms m).

Definition metrics_ok (m : Metrics) : Prop := replay_ok m /\ attempts_ok m /\ registry_ok m /\ tally_ok m.

(** The wire types of what is received. *)
Definition received_ok (r : Received) : Prop :=
  u64 (received_at_ms r) /\ u64 (dropped_before (received_record r)).

Lemma bump_u64 x : u64 x -> u64 (bump x).
Proof. unfold uint, bump, saturating_add. lia. Qed.

Lemma bump_mono x y : x <= y -> bump x <= bump y.
Proof. unfold bump, saturating_add. lia. Qed.

Lemma bump_ge x : u64 x -> x <= bump x.
Proof. unfold uint, bump, saturating_add. lia. Qed.

Lemma saturating_add_u64 x y : u64 x -> 0 <= y -> u64 (saturating_add 64 x y).
Proof. unfold uint, saturating_add. lia. Qed.

#[export] Hint Resolve bump_u64 bump_mono bump_ge : leelo.

(** ** Histograms *)

(** The limits are increasing finite numbers above zero. *)
Definition positive_finite (x : f64) : bool := match x with S754_finite false _ _ => true | _ => false end.

Fixpoint ascending (limits : list f64) : bool :=
  match limits with
  | [] => true
  | x :: limits => positive_finite x && match limits with [] => true | y :: _ => f64_le x y end && ascending limits
  end.

Lemma BUCKETS_ascending : ascending BUCKETS = true.
Proof. by vm_compute. Qed.

Lemma fill_buckets_length limits counts d : length (fill_buckets limits counts d) = length counts.
Proof. revert counts. induction limits as [|l limits IH]; intros [|c counts]; simpl; auto. Qed.

Lemma fill_buckets_ok limits counts d n :
  u64 n -> ascending limits = true -> length counts = length limits -> cumulative counts n ->
  cumulative (fill_buckets limits counts d) (bump n).
Proof.
  intros Hn. revert counts. induction limits as [|x limits IH]; intros [|c counts] Hup Hlen Hc; simpl in *; try done.
  apply andb_prop in Hup as [Hup Hups]. apply andb_prop in Hup as [Hx Hy]. destruct Hc as (Hc & Hcd & Hcs).
  split_and!.
  - assert (0 <= bump c) by (unfold bump, saturating_add; lia). destruct (f64_le d x); lia.
  - pose proof (bump_ge n Hn). destruct (f64_le d x); pose proof (bump_mono c n); lia.
  - destruct limits as [|y limits], counts as [|c' counts]; simpl; try done.
    assert (f64_le d x = true -> f64_le d y = true) as Htrans.
    { intros Hd. simpl in Hups. destruct x as [| | |[] ? ?]; try done.
      destruct y as [| | |[] ? ?]; try done. by eapply f64_le_trans_pos. }
    destruct Hcs as (Hc' & _). pose proof (bump_mono c c' Hcd).
    assert (u64 c') as Hu by (unfold uint in *; lia). pose proof (bump_ge c' Hu).
    destruct (f64_le d x); [rewrite Htrans by done; lia|]. destruct (f64_le d y); lia.
  - apply IH; [done|lia|done].
Qed.

Lemma observe_histogram_ok h d : histogram_ok h -> nonneg_finite d -> histogram_ok (observe_histogram h d).
Proof.
  intros (Hlen & Hn & Hc & Hs) Hd. unfold histogram_ok, observe_histogram. cbn [buckets count sum].
  split_and!; [by rewrite fill_buckets_length|apply bump_u64, Hn..| |].
  - by apply fill_buckets_ok; [|apply BUCKETS_ascending| |].
  - by apply saturated_sum.
Qed.

Lemma default_histogram_ok : histogram_ok default_histogram.
Proof.
  split; [done|]. split; [by unfold uint|]. split; [simpl; lia|]. by split; vm_compute.
Qed.

(** ** The registry *)

Lemma increment_registry m key : registry_ok m -> registry_ok (increment m key).
Proof.
  intros (Hs & Hc & Hh). unfold increment. destruct (_ && _) eqn:Hfull; [by split_and!|].
  split_and!; unfold series in *; simpl; [|apply map_Forall_insert_2; [|done]|done].
  - rewrite map_size_insert. apply andb_false_iff in Hfull as [Hfull|Hfull].
    + destruct (counters m !! key); simpl; lia.
    + apply bool_decide_eq_false in Hfull. destruct (counters m !! key); [simpl; lia|done].
  - apply bump_u64. destruct (counters m !! key) eqn:E; simpl; [by apply (Hc key)|by unfold uint].
Qed.

Lemma observe_registry m key d :
  registry_ok m -> nonneg_finite d -> is_Some (split_once OPEN_BRACE key) -> registry_ok (observe m key d).
Proof.
  intros (Hs & Hc & Hh) Hd Hkey. unfold observe. destruct (_ && _) eqn:Hfull; [by split_and!|].
  split_and!; unfold series in *; simpl; [|done|apply map_Forall_insert_2; [split; [done|]|done]].
  - rewrite map_size_insert. apply andb_false_iff in Hfull as [Hfull|Hfull].
    + destruct (histograms m !! key); simpl; lia.
    + apply bool_decide_eq_false in Hfull. destruct (histograms m !! key); [simpl; lia|done].
  - apply observe_histogram_ok; [|done].
    destruct (histograms m !! key) as [h|] eqn:E; simpl; [by destruct (Hh _ _ E)|apply default_histogram_ok].
Qed.

(** Series updates leave the windows and the tallies alone. *)
Definition same_windows (m m' : Metrics) : Prop :=
  seen m' = seen m /\ order m' = order m /\ attempts m' = attempts m /\ attempt_order m' = attempt_order m /\
  reported_drops m' = reported_drops m /\ replay_evictions m' = replay_evictions m /\
  accepted m' = accepted m /\ rejected m' = rejected m /\ duplicates m' = duplicates m /\
  last_received_ms m' = last_received_ms m.

(** A series update, or a sequence of them, for one record. *)
Inductive series_update (r : TelemetryRecord) : Metrics -> Metrics -> Prop :=
| update_none m : series_update r m m
| update_increment m m' key : series_update r m m' -> series_update r m (increment m' key)
| update_observe m m' key :
    is_Some (split_once OPEN_BRACE key) -> series_update r m m' ->
    series_update r m (observe m' key (duration_seconds r)).

Create HintDb series.
#[local] Hint Constructors series_update : series.

Lemma count_record_update m r : series_update r m (count_record m r).
Proof.
  unfold count_record, count_client. repeat case_match; auto 8 with series;
    repeat (apply update_increment || (apply update_observe; [by eexists|]) || apply update_none).
Qed.

Lemma series_update_windows r m m' : series_update r m m' -> same_windows m m'.
Proof.
  induction 1 as [m|m m' key _ IH|m m' key _ _ IH]; [by split_and!| |].
  - unfold increment. by destruct (_ && _).
  - unfold observe. by destruct (_ && _).
Qed.

Lemma series_update_registry r m m' :
  nonneg_finite (duration_seconds r) -> series_update r m m' -> registry_ok m -> registry_ok m'.
Proof. intros Hd. induction 1; auto using increment_registry, observe_registry. Qed.

Lemma series_update_overflow r m m' : series_update r m m' -> u64 (overflow m) -> u64 (overflow m').
Proof.
  induction 1 as [m|m m' key _ IH|m m' key _ _ IH]; intros Ho; [done| |];
    specialize (IH Ho); [unfold increment|unfold observe]; destruct (_ && _); simpl; auto with leelo.
Qed.

(** ** The windows *)

(** A queue that keeps the last [MAX_REPLAY] entries. *)
Definition push_bounded {A} (queue : list A) (x : A) : list A :=
  if MAX_REPLAY <? Z.of_nat (length (queue ++ [x])) then tail (queue ++ [x]) else queue ++ [x].

Lemma remember_order m key : order (remember m key) = push_bounded (order m) key.
Proof. unfold remember, push_bounded. destruct (_ <? _); [|done]. by destruct (order m ++ [key]). Qed.

Lemma remember_replay m key : replay_ok m -> key ∉ seen m -> replay_ok (remember m key).
Proof.
  intros (Hseen & Hnd & Hlen) Hkey. rewrite Hseen, elem_of_list_to_set in Hkey.
  assert (NoDup (order m ++ [key])) as Hnd'.
  { apply NoDup_app. split_and!; [done|set_solver|apply NoDup_singleton]. }
  unfold replay_ok. rewrite remember_order. unfold remember, push_bounded.
  assert (list_to_set (order m ++ [key]) = {[key]} ∪ seen m) as Hset by (rewrite list_to_set_app_L; set_solver).
  rewrite <- Hset. rewrite length_app. simpl length. destruct (Z.ltb_spec MAX_REPLAY (Z.of_nat (length (order m) + 1))).
  - destruct (order m ++ [key]) as [|old rest] eqn:E; [by apply (f_equal length) in E; rewrite length_app in E; simpl in E; lia|].
    apply (f_equal length) in E. rewrite length_app in E. simpl in E |- *.
    apply NoDup_cons in Hnd' as [Hold Hrest]. split_and!; [|done|lia]. apply set_eq. intros x.
    rewrite elem_of_difference, elem_of_union, !elem_of_singleton. set_solver.
  - simpl. split_and!; [done..|]. rewrite length_app. simpl. lia.
Qed.

Lemma remember_rest m key :
  attempts (remember m key) = attempts m /\ attempt_order (remember m key) = attempt_order m /\
  counters (remember m key) = counters m /\ histograms (remember m key) = histograms m /\
  reported_drops (remember m key) = reported_drops m /\ accepted (remember m key) = accepted m /\
  rejected (remember m key) = rejected m /\ duplicates (remember m key) = duplicates m /\
  overflow (remember m key) = overflow m /\ last_received_ms (remember m key) = last_received_ms m /\
  (replay_evictions (remember m key) = replay_evictions m \/
   replay_evictions (remember m key) = bump (replay_evictions m)).
Proof. unfold remember. destruct (_ <? _); [destruct (order m ++ [key])|]; simpl; split_and!; auto. Qed.

(** What [track] leaves: every tracked identifier but perhaps [id] has an entry, and [id] is last
    when it is new. *)
Definition tracking (m : Metrics) (id : AttemptId) : Prop :=
  {[id]} ∪ dom (attempts m) = list_to_set (attempt_order m) /\ NoDup (attempt_order m) /\
  Z.of_nat (length (attempt_order m)) <= MAX_REPLAY /\ map_Forall (fun _ a => u64 (attempt_drops a)) (attempts m).

Lemma push_new {A} `{Countable A} (queue : list A) x :
  NoDup queue -> x ∉ queue -> NoDup (queue ++ [x]) /\ list_to_set (C := gset A) (queue ++ [x]) = {[x]} ∪ list_to_set queue.
Proof.
  intros Hnd Hx. split; [|rewrite list_to_set_app_L; set_solver].
  apply NoDup_app. split_and!; [done|set_solver|apply NoDup_singleton].
Qed.

Lemma track_tracking m id : attempts_ok m -> tracking (track m id) id.
Proof.
  intros (Hdom & Hnd & Hlen & Hu). unfold track, tracking. destruct (attempts m !! id) as [a|] eqn:E.
  { assert (id ∈ dom (attempts m)) by (by apply elem_of_dom_2 in E). split_and!; [set_solver|done..]. }
  assert (id ∉ attempt_order m) as Hid.
  { apply not_elem_of_dom in E. rewrite Hdom, elem_of_list_to_set in E. done. }
  destruct (Z.eqb_spec (Z.of_nat (length (attempt_order m))) MAX_REPLAY) as [Hfull|Hfull].
  - destruct (attempt_order m) as [|old rest] eqn:Eo; [done|]. simpl in *.
    apply NoDup_cons in Hnd as [Hold Hnd]. apply not_elem_of_cons in Hid as [Hne Hid].
    destruct (push_new rest id Hnd Hid) as [Hnd' ->]. split_and!; [|done|rewrite length_app; simpl; lia|].
    + rewrite dom_delete_L, Hdom. apply set_eq. intros x. set_solver.
    + by apply map_Forall_delete.
  - destruct (push_new _ id Hnd Hid) as [Hnd' Hset]. simpl. rewrite Hset, Hdom.
    split_and!; [done..|rewrite length_app; simpl; lia|done].
Qed.

Lemma report_losses_attempts m id d t : tracking m id -> u64 d -> attempts_ok (report_losses m id d t).
Proof.
  intros (Hdom & Hnd & Hlen & Hu) Hd. unfold attempts_ok, report_losses. simpl. rewrite dom_insert_L.
  split_and!; [done..|]. apply map_Forall_insert_2; [|done]. simpl.
  destruct (attempts m !! id) as [a|] eqn:E; simpl; [apply Hu in E; simpl in E|]; unfold uint in *; lia.
Qed.

Lemma track_rest m id :
  seen (track m id) = seen m /\ order (track m id) = order m /\ counters (track m id) = counters m /\
  histograms (track m id) = histograms m /\ reported_drops (track m id) = reported_drops m /\
  accepted (track m id) = accepted m /\ rejected (track m id) = rejected m /\
  duplicates (track m id) = duplicates m /\ overflow (track m id) = overflow m /\
  last_received_ms (track m id) = last_received_ms m /\
  (replay_evictions (track m id) = replay_evictions m \/ replay_evictions (track m id) = bump (replay_evictions m)).
Proof. unfold track. repeat case_match; simpl; split_and!; auto. Qed.

(** The bookkeeping of an accepted event, before its series are counted. *)
Definition booked (m : Metrics) (received : Received) (id : list Z) : Metrics :=
  let r := received_record received in
  count_accepted
    (report_losses (track (remember m (source_uid received, id, rec_sequence r)) (source_uid received, id))
       (source_uid received, id) (dropped_before r) (is_terminal r))
    (received_at_ms received).

(** An event is accepted when it is valid, identified, new, and not a second terminal outcome. *)
Definition acceptable (m : Metrics) (received : Received) (id : list Z) : Prop :=
  let r := received_record received in
  valid r = true /\ rec_attempt_id r = Some id /\ (source_uid received, id, rec_sequence r) ∉ seen m /\
  ~ (is_terminal r = true /\
     exists a, attempts m !! (source_uid received, id) = Some a /\ attempt_terminal a = true).

(** Every branch of [accept]. *)
Lemma accept_branches m received :
  (exists id, acceptable m received id /\
     accept m received = (count_record (booked m received id) (received_record received), true)) \/
  ((forall id, ~ acceptable m received id) /\
   ((exists id, rec_attempt_id (received_record received) = Some id /\
       (source_uid received, id, rec_sequence (received_record received)) ∈ seen m /\
       valid (received_record received) = true /\ accept m received = (count_duplicate m, false)) \/
    ((forall id, rec_attempt_id (received_record received) = Some id -> valid (received_record received) = true ->
        (source_uid received, id, rec_sequence (received_record received)) ∉ seen m) /\
     accept m received = (reject m, false)))).
Proof.
  unfold accept, acceptable. set (r := received_record received).
  destruct (valid r) eqn:Hv; simpl negb; cbv iota; [|right; split; [naive_solver|right; naive_solver]].
  destruct (rec_attempt_id r) as [id|] eqn:Hid; [|right; split; [naive_solver|right; naive_solver]].
  cbv zeta. destruct (bool_decide (_ ∈ seen m)) eqn:Hseen.
  { apply bool_decide_eq_true in Hseen. right. split; [naive_solver|]. left. by exists id. }
  apply bool_decide_eq_false in Hseen.
  destruct (is_terminal r && _) eqn:Ht.
  - right. split; [|right; naive_solver]. apply andb_prop in Ht as [Ht1 Ht2].
    intros id' (_ & [= <-] & _ & Hn). apply Hn. split; [done|].
    destruct (attempts m !! _) as [a|]; [by exists a|done].
  - left. exists id. split; [|done]. split_and!; [done..|].
    intros (Ht1 & a & Ha & Ht2). rewrite Ht1, Ha, Ht2 in Ht. done.
Qed.

Lemma booked_ok m received id :
  metrics_ok m -> received_ok received -> acceptable m received id -> metrics_ok (booked m received id).
Proof.
  intros (Hr & Ha & (Hs & Hc & Hh) & Ht) [Hat Hdb] (_ & _ & Hnew & _). unfold booked.
  set (key := (source_uid received, id, _)) in *. set (aid := (source_uid received, id)).
  destruct (remember_rest m key) as (E1 & E2 & E3 & E4 & E5 & E6 & E7 & E8 & E9 & E10 & E11).
  pose proof (remember_replay m key Hr Hnew) as Hr'.
  assert (attempts_ok (remember m key)) as Ha' by (unfold attempts_ok; by rewrite E1, E2).
  set (m1 := remember m key) in *.
  destruct (track_rest m1 aid) as (F1 & F2 & F3 & F4 & F5 & F6 & F7 & F8 & F9 & F10 & F11).
  pose proof (track_tracking m1 aid Ha') as Ha''. set (m2 := track m1 aid) in *.
  pose proof (report_losses_attempts m2 aid (dropped_before (received_record received))
    (is_terminal (received_record received)) Ha'' Hdb) as Ha3.
  destruct Ht as (T1 & T2 & T3 & T4 & T5 & T6 & T7).
  assert (u64 (replay_evictions m1)) by (destruct E11 as [-> | ->]; auto with leelo).
  assert (u64 (replay_evictions m2)) by (destruct F11 as [-> | ->]; auto with leelo).
  split_and!; [|exact Ha3| |].
  - unfold replay_ok. simpl. by rewrite F1, F2.
  - unfold registry_ok, series. simpl. rewrite F3, F4, E3, E4. by split_and!.
  - unfold tally_ok. simpl. rewrite F5, F6, F7, F8, F9, F10, E5, E6, E7, E8, E9, E10.
    split_and!; auto with leelo; [apply saturating_add_u64; [done|unfold saturating_sub; lia]|unfold uint in *; lia].
Qed.

Lemma counted_ok m r : metrics_ok m -> valid r = true -> metrics_ok (count_record m r).
Proof.
  intros (Hr & Ha & Hg & Ht) Hv. apply valid_closed in Hv as (_ & _ & _ & _ & _ & _ & _ & _ & _ & _ & _ & Hd & _).
  pose proof (count_record_update m r) as U.
  pose proof (series_update_registry _ _ _ Hd U Hg). destruct Ht as (T1 & T2 & T3 & T4 & T5 & T6 & T7).
  pose proof (series_update_overflow _ _ _ U T6).
  destruct (series_update_windows _ _ _ U) as (W1 & W2 & W3 & W4 & W5 & W6 & W7 & W8 & W9 & W10).
  split_and!; [unfold replay_ok|unfold attempts_ok|done|unfold tally_ok];
    rewrite ?W1, ?W2, ?W3, ?W4, ?W5, ?W6, ?W7, ?W8, ?W9, ?W10; [done..|]. by split_and!.
Qed.

Lemma set_tally_ok m a r d l :
  metrics_ok m -> u64 a -> u64 r -> u64 d -> u64 l -> metrics_ok (set_tally m a r d l).
Proof. intros (Hr & Ha & Hg & (T1 & T2 & _ & _ & _ & T6 & _)) ? ? ? ?. split_and!; [exact Hr|exact Ha|exact Hg|by split_and!]. Qed.

Lemma accept_ok m received : metrics_ok m -> received_ok received -> metrics_ok (accept m received).1.
Proof.
  intros Hm Hr. destruct (accept_branches m received) as [(id & Hacc & ->)|[_ [(id & _ & _ & _ & ->)|[_ ->]]]]; simpl.
  - apply counted_ok; [by apply booked_ok|by destruct Hacc].
  - apply set_tally_ok; [done|destruct Hm as (_ & _ & _ & (_ & _ & ? & ? & ? & _ & ?)); auto with leelo..].
  - apply set_tally_ok; [done|destruct Hm as (_ & _ & _ & (_ & _ & ? & ? & ? & _ & ?)); auto with leelo..].
Qed.

Lemma default_metrics_ok : metrics_ok default_metrics.
Proof.
  unfold metrics_ok, replay_ok, attempts_ok, registry_ok, tally_ok, series. simpl.
  rewrite dom_empty_L, !map_size_empty.
  split_and!; try done; try apply NoDup_nil_2; try apply map_Forall_empty; by unfold uint.
Qed.

(** * Streams of events *)

(** The registry after a stream, and the events it accepted. *)
Fixpoint accept_all (m : Metrics) (stream : list Received) : Metrics * list Received :=
  match stream with
  | [] => (m, [])
  | received :: stream =>
      let (m, fresh) := accept m received in
      let (m, taken) := accept_all m stream in
      (m, if fresh then received :: taken else taken)
  end.

Lemma accept_all_ok stream m : metrics_ok m -> Forall received_ok stream -> metrics_ok (accept_all m stream).1.
Proof.
  revert m. induction stream as [|r stream IH]; intros m Hm Hall; [done|]. simpl.
  apply Forall_cons in Hall as [Hr Hall]. pose proof (accept_ok m r Hm Hr) as Hm'.
  destruct (accept m r) as [m' fresh]. specialize (IH m' Hm' Hall). by destruct (accept_all m' stream).
Qed.

(** The identifiers of an event that was accepted. *)
Definition attempt_key (r : Received) : AttemptId :=
  (source_uid r, default [] (rec_attempt_id (received_record r))).
Definition event_key (r : Received) : EventId := (attempt_key r, rec_sequence (received_record r)).

(** ** The replay window is the recent past *)

Definition window (ids : list EventId) : list EventId := drop (length ids - Z.to_nat MAX_REPLAY) ids.

(** Equal identifiers are more than a window apart. *)
Definition spaced (ids : list EventId) : Prop :=
  forall i j id, (i < j)%nat -> ids !! i = Some id -> ids !! j = Some id -> MAX_REPLAY < Z.of_nat j - Z.of_nat i.

Lemma push_window ids id : push_bounded (window ids) id = window (ids ++ [id]).
Proof.
  unfold push_bounded, window. rewrite !length_app, length_drop. simpl length.
  destruct (Z.ltb_spec MAX_REPLAY (Z.of_nat (length ids - (length ids - Z.to_nat MAX_REPLAY) + 1))) as [H|H].
  - assert (Z.to_nat MAX_REPLAY <= length ids)%nat by (unfold MAX_REPLAY in *; lia).
    rewrite <- drop_app_le by lia. change (tail ?l) with (drop 1 l). rewrite drop_drop. f_equal. lia.
  - replace (length ids - Z.to_nat MAX_REPLAY)%nat with 0%nat by (unfold MAX_REPLAY in *; lia).
    replace (length ids + 1 - Z.to_nat MAX_REPLAY)%nat with 0%nat by (unfold MAX_REPLAY in *; lia). done.
Qed.

Lemma spaced_push ids id : spaced ids -> id ∉ window ids -> spaced (ids ++ [id]).
Proof.
  intros Hs Hid i j x Hij Hi Hj. apply lookup_app_Some in Hj as [Hj|[Hlen Hj]].
  - apply (Hs i j x); [done| |done]. apply lookup_lt_Some in Hj. rewrite lookup_app_l in Hi by lia. done.
  - apply list_lookup_singleton_Some in Hj as [Hj <-]. rewrite lookup_app_l in Hi by lia.
    destruct (Z.ltb_spec MAX_REPLAY (Z.of_nat j - Z.of_nat i)) as [|Hnear]; [done|]. exfalso. apply Hid.
    apply list_elem_of_lookup. exists (i - (length ids - Z.to_nat MAX_REPLAY))%nat. unfold window.
    rewrite lookup_drop, <- Hi. f_equal. unfold MAX_REPLAY in *. lia.
Qed.

Lemma accept_order m r :
  metrics_ok m ->
  match accept m r with
  | (m', true) => event_key r ∉ order m /\ order m' = push_bounded (order m) (event_key r)
  | (m', false) => order m' = order m
  end.
Proof.
  intros (Hr & _). destruct (accept_branches m r) as [(id & (_ & Hid & Hnew & _) & ->)|[_ [(id & _ & _ & _ & ->)|[_ ->]]]]; [|done..].
  destruct (series_update_windows _ _ _ (count_record_update (booked m r id) (received_record r))) as (_ & -> & _).
  unfold event_key, attempt_key. rewrite Hid. simpl. destruct Hr as (Hseen & _).
  rewrite Hseen, elem_of_list_to_set in Hnew. split; [done|].
  destruct (track_rest (remember m (source_uid r, id, rec_sequence (received_record r))) (source_uid r, id)) as (_ & -> & _).
  apply remember_order.
Qed.

Lemma accept_all_window stream m past :
  metrics_ok m -> Forall received_ok stream -> order m = window past -> spaced past ->
  order (accept_all m stream).1 = window (past ++ map event_key (accept_all m stream).2) /\
  spaced (past ++ map event_key (accept_all m stream).2).
Proof.
  revert m past. induction stream as [|r stream IH]; intros m past Hm Hall Ho Hs; simpl; [by rewrite app_nil_r|].
  apply Forall_cons in Hall as [Hr Hall]. pose proof (accept_ok m r Hm Hr) as Hm'.
  pose proof (accept_order m r Hm) as Hstep. destruct (accept m r) as [m' [|]]; simpl in Hm'.
  - destruct Hstep as [Hnew Ho']. rewrite Ho in Hnew, Ho'. rewrite push_window in Ho'.
    specialize (IH m' _ Hm' Hall Ho' (spaced_push _ _ Hs Hnew)). rewrite <- app_assoc in IH.
    by destruct (accept_all m' stream).
  - rewrite Ho in Hstep. specialize (IH m' past Hm' Hall Hstep Hs). by destruct (accept_all m' stream).
Qed.

(** ** Loss accounting and terminal outcomes *)

(** The losses an attempt reported, and whether it reported a terminal outcome. *)
Definition losses (past : list Received) (a : AttemptId) : Z :=
  foldr (fun r n => if bool_decide (attempt_key r = a) then Z.max (dropped_before (received_record r)) n else n) 0 past.
Definition completed (past : list Received) (a : AttemptId) : bool :=
  existsb (fun r => bool_decide (attempt_key r = a) && is_terminal (received_record r)) past.
Definition terminals (past : list Received) : list AttemptId :=
  map attempt_key (List.filter (fun r => is_terminal (received_record r)) past).

Definition total (attempts : list AttemptId) (f : AttemptId -> Z) : Z := foldr (fun a n => f a + n) 0 attempts.

Lemma losses_snoc past r a :
  losses (past ++ [r]) a =
  if bool_decide (attempt_key r = a) then Z.max (losses past a) (Z.max (dropped_before (received_record r)) 0)
  else losses past a.
Proof.
  unfold losses. rewrite foldr_app. simpl. induction past as [|r' past IH]; simpl.
  { case_bool_decide; lia. }
  rewrite IH. repeat case_bool_decide; lia.
Qed.

Lemma losses_nonneg past a : 0 <= losses past a.
Proof. induction past as [|r past IH]; simpl; [done|]. case_bool_decide; lia. Qed.

Lemma losses_absent past a : a ∉ map attempt_key past -> losses past a = 0 /\ completed past a = false.
Proof.
  induction past as [|r past IH]; simpl; [done|]. intros [Hr Ha]%not_elem_of_cons. destruct (IH Ha).
  rewrite !bool_decide_eq_false_2 by done. done.
Qed.

Lemma completed_snoc past r a :
  completed (past ++ [r]) a = completed past a || (bool_decide (attempt_key r = a) && is_terminal (received_record r)).
Proof. unfold completed. rewrite existsb_app. simpl. by rewrite orb_false_r. Qed.

Lemma total_ext l f g : (forall a, a ∈ l -> f a = g a) -> total l f = total l g.
Proof.
  induction l as [|a l IH]; intros H; simpl; [done|]. rewrite H, IH; [done| |left].
  intros b Hb. apply H. by right.
Qed.

Lemma total_update l f g x :
  NoDup l -> x ∈ l -> (forall a, a <> x -> g a = f a) -> total l g = total l f + (g x - f x).
Proof.
  intros Hnd Hx Hg. induction Hnd as [|a l Ha Hnd IH]; [by apply not_elem_of_nil in Hx|]. simpl.
  apply elem_of_cons in Hx as [->|Hx].
  - rewrite (total_ext l g f); [lia|]. intros b Hb. apply Hg. by intros ->.
  - rewrite IH, (Hg a) by (done || by intros ->). lia.
Qed.

Lemma total_snoc l f x : total (l ++ [x]) f = total l f + f x.
Proof. induction l as [|a l IH]; simpl; lia. Qed.

(** What the registry knows of the past while nothing has been evicted. *)
Definition remembers (past : list Received) (m : Metrics) : Prop :=
  replay_evictions m = 0 /\ length (order m) = length past /\ (length (attempt_order m) <= length past)%nat /\
  (forall a, a ∈ attempt_order m <-> a ∈ map attempt_key past) /\
  (forall a, default default_attempt (attempts m !! a) = mk_attempt (losses past a) (completed past a)) /\
  reported_drops m = Z.min (2 ^ 64 - 1) (total (attempt_order m) (losses past)) /\
  NoDup (terminals past) /\ (forall a, a ∈ terminals past -> completed past a = true).

Lemma total_push (order : list AttemptId) past r :
  NoDup order -> (forall a, a ∈ order <-> a ∈ map attempt_key past) ->
  let order' := if bool_decide (attempt_key r ∈ order) then order else order ++ [attempt_key r] in
  total order' (losses (past ++ [r])) =
  total order (losses past) + (losses (past ++ [r]) (attempt_key r) - losses past (attempt_key r)).
Proof.
  intros Hnd Hdom. simpl.
  assert (forall a, a <> attempt_key r -> losses (past ++ [r]) a = losses past a) as Hother.
  { intros a Ha. rewrite losses_snoc. by rewrite bool_decide_eq_false_2 by done. }
  case_bool_decide as Hin; [by apply total_update|].
  rewrite total_snoc, (total_ext order _ (losses past)).
  - rewrite Hdom in Hin. destruct (losses_absent past _ Hin) as [-> _]. lia.
  - intros a Ha. apply Hother. by intros ->.
Qed.

(** Evaluate field updates. *)
Ltac fields :=
  unfold report_losses, count_accepted;
  cbn [set_replay set_attempts set_tally attempts attempt_order reported_drops replay_evictions order accepted
       rejected duplicates].

(** Without evictions the bookkeeping of an event only adds. *)
Lemma booked_adds m r id :
  attempts_ok m -> rec_attempt_id (received_record r) = Some id ->
  Z.of_nat (length (order m)) < MAX_REPLAY -> Z.of_nat (length (attempt_order m)) < MAX_REPLAY ->
  let m' := booked m r id in
  let a := attempt_key r in
  let entry := default default_attempt (attempts m !! a) in
  replay_evictions m' = replay_evictions m /\ order m' = order m ++ [event_key r] /\
  attempt_order m' = (if bool_decide (a ∈ attempt_order m) then attempt_order m else attempt_order m ++ [a]) /\
  attempts m' = <[a := mk_attempt (Z.max (attempt_drops entry) (dropped_before (received_record r)))
                         (attempt_terminal entry || is_terminal (received_record r))]> (attempts m) /\
  reported_drops m' =
    saturating_add 64 (reported_drops m) (saturating_sub (dropped_before (received_record r)) (attempt_drops entry)) /\
  accepted m' = bump (accepted m) /\ rejected m' = rejected m /\ duplicates m' = duplicates m.
Proof.
  intros (Hdom & _) Hid Ho Ha. cbv zeta. unfold event_key, attempt_key. rewrite Hid.
  change (default [] (Some id)) with id. set (key := (source_uid r, id)).
  assert (key ∈ attempt_order m <-> is_Some (attempts m !! key)) as Hin.
  { rewrite <- elem_of_dom, Hdom. by rewrite elem_of_list_to_set. }
  unfold booked, remember. rewrite length_app. simpl length.
  rewrite (proj2 (Z.ltb_ge _ _)) by lia. unfold track. fold key. cbn [set_replay attempts attempt_order].
  destruct (attempts m !! key) as [entry|] eqn:E.
  - rewrite bool_decide_eq_true_2 by (apply Hin; by eexists). fields. rewrite E. split_and!; done.
  - rewrite bool_decide_eq_false_2 by (rewrite Hin; by intros []).
    rewrite (proj2 (Z.eqb_neq _ _)) by lia. fields. rewrite E. split_and!; done.
Qed.

Lemma remembers_accept m past r :
  metrics_ok m -> received_ok r -> remembers past m -> Z.of_nat (length past) < MAX_REPLAY ->
  remembers (if (accept m r).2 then past ++ [r] else past) (accept m r).1.
Proof.
  intros Hm Hr Hp Hlen.
  destruct (accept_branches m r) as [(id & Hacc & ->)|[_ [(id & _ & _ & _ & ->)|[_ ->]]]]; [|done..]. simpl.
  destruct (series_update_windows _ _ _ (count_record_update (booked m r id) (received_record r)))
    as (W1 & W2 & W3 & W4 & W5 & W6 & _).
  unfold remembers. rewrite W2, W3, W4, W5, W6. clear W1 W2 W3 W4 W5 W6.
  destruct Hm as (_ & Hattempts & _). destruct Hp as (P1 & P2 & P3 & P4 & P5 & P6 & P7 & P8).
  destruct Hacc as (_ & Hid & _ & Hterm).
  destruct (booked_adds m r id) as (B1 & B2 & B3 & B4 & B5 & _); [done..|lia|lia|].
  rewrite P5 in B4, B5. cbn [attempt_drops attempt_terminal] in B4, B5. rewrite B1, B2, B3, B4, B5.
  destruct Hattempts as (_ & Hnd & _). destruct Hr as [_ Hdb].
  pose proof (total_push (attempt_order m) past r Hnd P4) as Htotal.
  pose proof (losses_snoc past r (attempt_key r)) as Hlr. rewrite bool_decide_eq_true_2 in Hlr by done.
  pose proof (losses_nonneg past (attempt_key r)). unfold uint in Hdb.
  split_and!.
  - done.
  - rewrite !length_app, P2. done.
  - rewrite length_app. simpl. case_bool_decide; rewrite ?length_app; simpl; lia.
  - intros a. rewrite map_app, elem_of_app, <- P4. simpl. rewrite list_elem_of_singleton.
    case_bool_decide; [naive_solver|]. rewrite elem_of_app, list_elem_of_singleton. done.
  - intros a. rewrite completed_snoc, losses_snoc. destruct (decide (attempt_key r = a)) as [<-|Hne].
    + rewrite lookup_insert_eq, !bool_decide_eq_true_2 by done. simpl. f_equal. lia.
    + rewrite lookup_insert_ne, !bool_decide_eq_false_2, P5 by done. simpl. by rewrite orb_false_r.
  - rewrite Htotal, P6, Hlr. unfold saturating_add, saturating_sub. lia.
  - unfold terminals. rewrite List.filter_app, map_app. simpl.
    destruct (is_terminal (received_record r)) eqn:Ht; [|by rewrite app_nil_r].
    apply NoDup_app. split_and!; [done| |apply NoDup_singleton].
    intros a Ha Hin. apply list_elem_of_singleton in Hin as ->. apply Hterm. split; [done|].
    apply P8 in Ha. specialize (P5 (attempt_key r)). unfold attempt_key in P5 at 1. rewrite Hid in P5. simpl in P5.
    destruct (attempts m !! (source_uid r, id)) as [entry|]; simpl in P5.
    + exists entry. by rewrite P5.
    + injection P5 as _ Hc. by rewrite <- Hc in Ha.
  - intros a. rewrite completed_snoc. unfold terminals. rewrite List.filter_app, map_app, elem_of_app. simpl.
    intros [Ha|Ha]; [by rewrite P8|]. destruct (is_terminal (received_record r)); [|by apply not_elem_of_nil in Ha].
    apply list_elem_of_singleton in Ha as ->. rewrite bool_decide_eq_true_2 by done. apply orb_true_r.
Qed.

Lemma remembers_accept_all stream m past :
  metrics_ok m -> Forall received_ok stream -> remembers past m ->
  Z.of_nat (length past + length stream) <= MAX_REPLAY ->
  remembers (past ++ (accept_all m stream).2) (accept_all m stream).1.
Proof.
  revert m past. induction stream as [|r stream IH]; intros m past Hm Hall Hp Hlen; simpl; [by rewrite app_nil_r|].
  simpl in Hlen. apply Forall_cons in Hall as [Hr Hall]. pose proof (accept_ok m r Hm Hr) as Hm'.
  pose proof (remembers_accept m past r Hm Hr Hp) as Hstep. destruct (accept m r) as [m' [|]]; simpl in *.
  - specialize (IH m' (past ++ [r]) Hm' Hall). rewrite <- app_assoc, length_app in IH. simpl in IH.
    destruct (accept_all m' stream). apply IH; [apply Hstep|]; lia.
  - specialize (IH m' past Hm' Hall). destruct (accept_all m' stream). apply IH; [apply Hstep|]; lia.
Qed.

(** Every event moves exactly one of the three tallies. *)
Lemma accept_tally m r :
  match accept m r with
  | (m', true) => accepted m' = bump (accepted m) /\ rejected m' = rejected m /\ duplicates m' = duplicates m
  | (m', false) => accepted m' = accepted m /\
      ((rejected m' = bump (rejected m) /\ duplicates m' = duplicates m) \/
       (rejected m' = rejected m /\ duplicates m' = bump (duplicates m)))
  end.
Proof.
  destruct (accept_branches m r) as [(id & _ & ->)|[_ [(id & _ & _ & _ & ->)|[_ ->]]]]; [|simpl; auto..].
  destruct (series_update_windows _ _ _ (count_record_update (booked m r id) (received_record r)))
    as (_ & _ & _ & _ & _ & _ & -> & -> & -> & _).
  set (key := (source_uid r, id, rec_sequence (received_record r))).
  destruct (remember_rest m key) as (_ & _ & _ & _ & _ & E6 & E7 & E8 & _).
  destruct (track_rest (remember m key) (source_uid r, id)) as (_ & _ & _ & _ & _ & F6 & F7 & F8 & _).
  unfold booked. simpl. fold key. by rewrite F6, F7, F8, E6, E7, E8.
Qed.

Lemma accept_all_tally stream m :
  0 <= accepted m -> 0 <= rejected m -> 0 <= duplicates m ->
  accepted m + rejected m + duplicates m + Z.of_nat (length stream) < 2 ^ 64 ->
  let m' := (accept_all m stream).1 in
  accepted m' = accepted m + Z.of_nat (length (accept_all m stream).2) /\
  accepted m' + rejected m' + duplicates m' = accepted m + rejected m + duplicates m + Z.of_nat (length stream).
Proof.
  revert m. induction stream as [|r stream IH]; intros m H1 H2 H3 H4; cbn -[Z.of_nat]; [lia|].
  pose proof (accept_tally m r) as Hstep. simpl length in H4. unfold bump, saturating_add in Hstep.
  destruct (accept m r) as [m1 fresh].
  destruct (IH m1) as [I1 I2]; [destruct fresh; lia..|].
  destruct (accept_all m1 stream) as [m2 taken]. simpl in I1, I2. destruct fresh; simpl; lia.
Qed.

(** ** Rendering *)

Lemma render_histograms_total display (m : gmap string Histogram) :
  map_Forall (fun key h => is_Some (split_once OPEN_BRACE key) /\ histogram_ok h) m ->
  is_Some (render_histograms display m).
Proof.
  intros Hm. unfold render_histograms.
  assert (Forall (fun kv => is_Some (split_once OPEN_BRACE kv.1)) (entries m)) as Hall.
  { apply Forall_forall. intros [key h] Hin. unfold entries in Hin.
    rewrite merge_sort_Permutation, elem_of_map_to_list in Hin. by destruct (Hm _ _ Hin). }
  induction Hall as [|[key h] l [[name labels] Hkey] _ [out IH]]; simpl; [by eexists|].
  rewrite IH. unfold render_histogram. simpl in Hkey. rewrite Hkey. by eexists.
Qed.

Lemma render_total display m now : registry_ok m -> is_Some (render display m now).
Proof.
  intros (_ & _ & Hh). unfold render. destruct (render_histograms_total display _ Hh) as [out ->]. by eexists.
Qed.

(** * Theorems *)

(** C37: Whatever stream of events arrives, the registry stays well formed. The replay set is exactly
    the queue and both windows hold at most 65536 distinct entries; counters and histograms are at
    most 512 series; every counter is a [u64]; every histogram is cumulative, with buckets that
    never decrease or pass its count and a finite sum not below zero; and rendering never panics. *)
Theorem collector_invariant stream :
  Forall received_ok stream ->
  let m := (accept_all default_metrics stream).1 in
  metrics_ok m /\ forall display now, is_Some (render display m now).
Proof.
  intros Hall m. pose proof (accept_all_ok stream _ default_metrics_ok Hall) as Hm. split; [done|].
  intros display now. by apply render_total, Hm.
Qed.

(** Accepting is decided exactly. An event is accepted when it is valid, carries an attempt
    identifier, is not in the replay window and is not a second terminal outcome of its attempt;
    otherwise it only raises the duplicate counter, when it is a valid event of the window, or the
    rejection counter. *)
Theorem accept_characterised m received :
  ((accept m received).2 = true <-> exists id, acceptable m received id) /\
  ((accept m received).2 = false ->
   (accept m received).1 =
   if valid (received_record received) &&
      match rec_attempt_id (received_record received) with
      | Some id => bool_decide ((source_uid received, id, rec_sequence (received_record received)) ∈ seen m)
      | None => false
      end
   then count_duplicate m else reject m).
Proof.
  destruct (accept_branches m received) as [(id & Hacc & ->)|[Hno [(id & -> & Hseen & -> & ->)|[Hnew ->]]]]; simpl.
  - split; [|done]. split; [by exists id|done].
  - split; [split; [done|by intros [? ?%Hno]]|]. by rewrite bool_decide_eq_true_2.
  - split; [split; [done|by intros [? ?%Hno]]|]. intros _.
    destruct (valid _) eqn:Hv; [|done]. destruct (rec_attempt_id _) as [id|]; [|done].
    by rewrite bool_decide_eq_false_2 by auto.
Qed.

(** Replay protection. In every stream the replay queue is the last 65536 accepted identifiers,
    and two accepted events with the same source, attempt and sequence number are more than 65536
    accepted events apart. *)
Theorem replays_are_spaced stream :
  Forall received_ok stream ->
  let ids := map event_key (accept_all default_metrics stream).2 in
  order (accept_all default_metrics stream).1 = window ids /\ spaced ids.
Proof.
  intros Hall. apply (accept_all_window stream default_metrics []); [apply default_metrics_ok|done..].
Qed.

(** Within one window, 65536 events, every event is counted once as accepted, rejected or
    duplicate; accepted events are distinct; every attempt completes at most once; and the reported
    losses are the sum over the attempts of the largest loss each reported, saturating at the
    largest [u64]. *)
Theorem collector_accounts stream :
  Forall received_ok stream -> Z.of_nat (length stream) <= MAX_REPLAY ->
  let m := (accept_all default_metrics stream).1 in
  let taken := (accept_all default_metrics stream).2 in
  accepted m = Z.of_nat (length taken) /\ accepted m + rejected m + duplicates m = Z.of_nat (length stream) /\
  NoDup (map event_key taken) /\ NoDup (terminals taken) /\ replay_evictions m = 0 /\
  (forall a, a ∈ attempt_order m <-> a ∈ map attempt_key taken) /\
  reported_drops m = Z.min (2 ^ 64 - 1) (total (attempt_order m) (losses taken)).
Proof.
  intros Hall Hlen m taken.
  destruct (accept_all_tally stream default_metrics) as [T1 T2]; [done..|unfold MAX_REPLAY in *; simpl; lia|].
  assert (remembers [] default_metrics) as Hstart.
  { split_and!; try done; try apply NoDup_nil_2. by intros a ?%not_elem_of_nil. }
  destruct (remembers_accept_all stream default_metrics [] default_metrics_ok Hall Hstart)
    as (R1 & R2 & _ & R4 & _ & R6 & R7 & _); [done|].
  rewrite app_nil_l in R2, R4, R6, R7. fold m taken in R1, R2, R4, R6, R7.
  destruct (accept_all_window stream default_metrics [] default_metrics_ok Hall) as [W _]; [done..|].
  rewrite app_nil_l in W. fold m taken in W.
  pose proof (accept_all_ok stream _ default_metrics_ok Hall) as ((_ & Hnd & _) & _). fold m in Hnd.
  split_and!; try done.
  unfold window in W. rewrite W in R2, Hnd. rewrite length_drop, length_map in R2. rewrite length_map in Hnd.
  replace (length taken - Z.to_nat MAX_REPLAY)%nat with 0%nat in Hnd by (unfold MAX_REPLAY in *; lia). done.
Qed.

(** * Witnesses *)

Definition demo_record (sequence dropped : Z) (event outcome : string) : TelemetryRecord :=
  mk_record 1 "client" event "activate" "recover" outcome "none" (f64_decimal 1 10) "network_bound" (Some 1)
    "not_applicable" false false None "0.1.0" (Some (replicate 16 1)) None sequence (Some 1000) dropped.
Definition demo_received (sequence dropped : Z) (event outcome : string) : Received :=
  mk_received 42 10 1000 (demo_record sequence dropped event outcome).

(** A duplicate, a second terminal outcome, and losses reported out of order. *)
Definition demo_stream : list Received :=
  [demo_received 0 5 "phase_completed" "success"; demo_received 0 5 "phase_completed" "success";
   demo_received 1 3 "operation_completed" "success"; demo_received 2 7 "operation_completed" "failure";
   demo_received 3 7 "provider_completed" "failed"].

Lemma demo_stream_ok : Forall received_ok demo_stream.
Proof. apply (bool_decide_unpack _). by vm_compute. Qed.

Lemma collector_invariant_witness : metrics_ok (accept_all default_metrics demo_stream).1.
Proof. exact (proj1 (collector_invariant demo_stream demo_stream_ok)). Defined.

Lemma accept_characterised_witness :
  exists id, acceptable default_metrics (demo_received 0 5 "phase_completed" "success") id.
Proof.
  apply (proj1 (proj1 (accept_characterised default_metrics (demo_received 0 5 "phase_completed" "success")))).
  by vm_compute.
Defined.

Lemma replays_are_spaced_witness :
  order (accept_all default_metrics demo_stream).1 =
  window (map event_key (accept_all default_metrics demo_stream).2).
Proof. exact (proj1 (replays_are_spaced demo_stream demo_stream_ok)). Defined.

Lemma collector_accounts_witness :
  rejected (accept_all default_metrics demo_stream).1 = 1 /\
  duplicates (accept_all default_metrics demo_stream).1 = 1 /\
  reported_drops (accept_all default_metrics demo_stream).1 = 7 /\
  replay_evictions (accept_all default_metrics demo_stream).1 = 0.
Proof.
  split; [by vm_compute|]. split; [by vm_compute|]. split; [by vm_compute|].
  assert (Z.of_nat (length demo_stream) <= MAX_REPLAY) as H by (by vm_compute).
  destruct (collector_accounts demo_stream demo_stream_ok H) as (_ & _ & _ & _ & E & _). exact E.
Defined.
