(* ===== verification/Reconcile.v ===== *)
(** Reconciliation of expected boots and enrollments, [leelo-collector/src/reconcile.rs]. The JSON
    readers, the file system's answers and the textual form of an [f64] are parameters; paths are an
    abstract type with the equality of [std::path]. *)
From stdpp Require Import base list gmap strings.
From Stdlib Require Import ZArith Lia SpecFloat.
From S2P Require Import Prelude Float64 Text Telemetry.

Open Scope Z_scope.

Definition INPUT_LIMIT : Z := 1024 * 1024.
Definition JOURNAL_LIMIT : Z := 64 * 1024.
Definition TARGET_LIMIT : Z := 1024.

(** The errors of this module, one constructor per message. *)
Inductive Failure : Type :=
| IoError
| UntrustedInput
| UnsupportedFilesystem
| InputExceedsBound
| JsonError
| ClockUnavailable
| InvalidSchemaOrLimit
| InvalidExpectedBoot
| InvalidBootObservation
| InvalidEnrollmentInventory
| DuplicateJournalFile.
#[export] Instance Failure_eq_dec : EqDecision Failure.
Proof. solve_decision. Defined.

(** * Data *)

Record ExpectedBoot : Type := mk_expected {
  exp_target : string; exp_boot_id : string; requested_at_ms : Z; deadline_ms : Z }.

Inductive BootOutcome : Type := Success | BootFailure.
#[export] Instance BootOutcome_eq_dec : EqDecision BootOutcome.
Proof. solve_decision. Defined.

Record BootObservation : Type := mk_observation {
  obs_target : string; obs_boot_id : string; observed_at_ms : Z; obs_outcome : BootOutcome }.
#[export] Instance BootObservation_eq_dec : EqDecision BootObservation.
Proof. solve_decision. Defined.

Record Observations : Type := mk_observations {
  obs_schema_version : Z; obs_updated_at_ms : Z; obs_boots : list BootObservation }.

Record FileIdentity : Type := mk_identity { device : Z; inode : Z }.
#[export] Instance FileIdentity_eq_dec : EqDecision FileIdentity.
Proof. solve_decision. Defined.
#[export] Instance FileIdentity_countable : Countable FileIdentity.
Proof.
  refine (inj_countable' (fun i => (device i, inode i)) (fun p => mk_identity p.1 p.2) _). by intros [].
Defined.

Record IdentityRecord : Type := mk_identity_record {
  id_phase : string; binding_id : string; volume_uuid : string; slot : Z }.

(** The path of a bundle record is only tested for emptiness: it is its bytes. *)
Record BundleRecord : Type := mk_bundle_record { bundle_phase : string; bundle_path : list Z; sha384 : string }.

(** * Text checks *)

Definition fresh (timestamp now validity : Z) : bool :=
  (timestamp <=? now) && (now - timestamp <=? validity * 1000).

Definition reference (value : string) : bool :=
  negb (String.eqb value EmptyString) && (str_len value <=? 64) &&
  forallb (fun v => is_ascii_alphanumeric v || byte_in "_-.:" v) (bytes_of_string value).

(** The loop over [chunks_exact(2)]. *)
Fixpoint hex_pairs (value : list Z) : option (list Z) :=
  match value with
  | h :: l :: value =>
      match to_digit16 h, to_digit16 l, hex_pairs value with
      | Some h, Some l, Some bytes => Some (h * 16 + l :: bytes)
      | _, _, _ => None
      end
  | _ => Some []
  end.

Definition lower_hex (n : nat) (value : list Z) : option (list Z) :=
  if negb (length value =? n * 2)%nat
     || negb (forallb (fun b => is_ascii_digit b || ((97 <=? b) && (b <=? 102))) value)
  then None else hex_pairs value.

(** Byte 45 is the dash. *)
Definition journal_identity (record : IdentityRecord) : option (list Z * list Z * Z) :=
  match lower_hex 32 (bytes_of_string (binding_id record)) with
  | None => None
  | Some binding =>
      let uuid := bytes_of_string (volume_uuid record) in
      if negb (length uuid =? 36)%nat || existsb (fun index => negb (nth index uuid 0 =? 45)) [8; 13; 18; 23]%nat
      then None
      else
        match lower_hex 16 (List.filter (fun b => negb (b =? 45)) uuid) with
        | None => None
        | Some volume =>
            if bool_decide (binding = replicate 32 0) || bool_decide (volume = replicate 16 0) || (32 <=? slot record)
            then None
            else Some (binding, volume, slot record)
        end
  end.

(** [bytes.split(|byte| *byte == b'\n')] *)
Fixpoint split_lines (bytes : list Z) : list (list Z) :=
  match bytes with
  | [] => [[]]
  | b :: bytes =>
      if b =? 10 then [] :: split_lines bytes
      else match split_lines bytes with
           | line :: lines => (b :: line) :: lines
           | [] => [[b]]
           end
  end.

(** * Journals *)

Definition PHASES : list string :=
  ["preflight"; "pending-bundle-durable"; "prepared-and-recovery-tested"; "token-written-and-slot-tested"].

Section Journal.
Context (json_identity : list Z -> option IdentityRecord).
Context (json_bundle : list Z -> option BundleRecord).

(** One iteration of the loop of [journal_committed]: the identity after the line. *)
Definition journal_line (count : nat) (line : list Z) (identity : option (list Z * list Z * Z))
    : option (option (list Z * list Z * Z)) :=
  if 8192 <? Z.of_nat (length line) then None
  else
    match PHASES !! count with
    | None => None
    | Some phase =>
        if (count =? 1)%nat then
          match json_bundle line with
          | None => None
          | Some record =>
              if negb (String.eqb (bundle_phase record) phase) || bool_decide (bundle_path record = [])
                 || bool_decide (lower_hex 48 (bytes_of_string (sha384 record)) = None)
              then None else Some identity
          end
        else
          match json_identity line with
          | None => None
          | Some record =>
              if negb (String.eqb (id_phase record) phase) then None
              else
                match journal_identity record with
                | None => None
                | Some observed =>
                    match identity with
                    | Some previous => if bool_decide (previous = observed) then Some (Some observed) else None
                    | None => Some (Some observed)
                    end
                end
          end
    end.

Fixpoint journal_lines (count : nat) (lines : list (list Z)) (identity : option (list Z * list Z * Z))
    (committed : bool) : option bool :=
  match lines with
  | [] => Some committed
  | line :: lines =>
      match journal_line count line identity with
      | Some identity => journal_lines (S count) lines identity (count =? length PHASES - 1)%nat
      | None => None
      end
  end.

Definition journal_committed (bytes : list Z) : option bool :=
  if bool_decide (bytes = []) || negb (bool_decide (last bytes = Some 10)) || (JOURNAL_LIMIT <? Z.of_nat (length bytes))
  then None
  else journal_lines 0 (split_lines (take (length bytes - 1) bytes)) None false.
End Journal.

(** * Held files *)

(** What the kernel answers for an opened file: metadata, filesystem type, and the bytes read. *)
Record HeldFile : Type := mk_held {
  is_file : bool; file_len : Z; file_uid : Z; file_mode : Z;
  f_type : option Z; file_dev : Z; file_ino : Z; file_data : option (list Z) }.

Definition LOCAL_FILESYSTEMS : list Z :=
  [0xef53; 0x9123683e; 0x58465342; 0x01021994; 0x858458f6; 0x794c7630; 0xf2f52010].

Definition read_held (opened : option HeldFile) (geteuid limit : Z) : result Failure (list Z * FileIdentity) :=
  match opened with
  | None => Err IoError
  | Some file =>
      if negb (is_file file) || (limit <? file_len file)
         || (negb (file_uid file =? 0) && negb (file_uid file =? geteuid))
         || negb (Z.land (file_mode file) 18 =? 0)
      then Err UntrustedInput
      else
        match f_type file with
        | None => Err IoError
        | Some kind =>
            if negb (existsb (Z.eqb (wrap 32 kind)) LOCAL_FILESYSTEMS) then Err UnsupportedFilesystem
            else
              match file_data file with
              | None => Err IoError
              | Some content =>
                  let data := take (Z.to_nat (limit + 1)) content in
                  if limit <? Z.of_nat (length data) then Err InputExceedsBound
                  else Ok (data, mk_identity (file_dev file) (file_ino file))
              end
        end
  end.

Definition read_bounded (opened : option HeldFile) (geteuid : Z) : result Failure (list Z) :=
  match read_held opened geteuid INPUT_LIMIT with Ok (bytes, _) => Ok bytes | Err e => Err e end.

(** * Boots *)

Definition same_boot (expected : ExpectedBoot) (value : BootObservation) : bool :=
  String.eqb (obs_target value) (exp_target expected) && String.eqb (obs_boot_id value) (exp_boot_id expected).

(** [max_by_key]: the last of the greatest. *)
Definition max_by_key (values : list BootObservation) : option BootObservation :=
  fold_left (fun best value =>
    match best with
    | Some best => if observed_at_ms best <=? observed_at_ms value then Some value else Some best
    | None => Some value
    end) values None.

(** The index into [states] for one expected boot. *)
Definition boot_state (inventory_fresh observations_fresh : bool) (boots : list BootObservation) (now : Z)
    (expected : ExpectedBoot) : nat :=
  if negb inventory_fresh || negb observations_fresh then 4
  else
    let latest := max_by_key
      (List.filter (fun value => same_boot expected value && (requested_at_ms expected <=? observed_at_ms value)) boots) in
    match latest with
    | Some latest =>
        if existsb (fun value => same_boot expected value && (observed_at_ms value =? observed_at_ms latest)
                                 && negb (bool_decide (obs_outcome value = obs_outcome latest))) boots
        then 4
        else if bool_decide (obs_outcome latest = Success) && (deadline_ms expected <? observed_at_ms latest) then 5
        else if bool_decide (obs_outcome latest = Success) then 0
        else 1
    | None => if now <=? deadline_ms expected then 2 else 3
    end.

(** [states[state] += 1] *)
Definition count_state (states : list Z) (state : nat) : list Z := alter (Z.add 1) state states.

Definition count_states (inventory_fresh observations_fresh : bool) (boots : list BootObservation) (now : Z)
    (expected : list ExpectedBoot) : list Z :=
  fold_left (fun states boot => count_state states (boot_state inventory_fresh observations_fresh boots now boot))
    expected (replicate 6 0).

(** The validation loop over expected boots, with the names seen so far. *)
Fixpoint check_boots (updated_at : Z) (names : gset (string * string)) (boots : list ExpectedBoot) : bool :=
  match boots with
  | [] => true
  | boot :: boots =>
      if negb (reference (exp_target boot)) || negb (reference (exp_boot_id boot))
         || (deadline_ms boot <? requested_at_ms boot) || (updated_at <? requested_at_ms boot)
         || bool_decide ((exp_target boot, exp_boot_id boot) ∈ names)
      then false
      else check_boots updated_at ({[(exp_target boot, exp_boot_id boot)]} ∪ names) boots
  end.

Definition check_observation (updated_at : Z) (boot : BootObservation) : bool :=
  negb (negb (reference (obs_target boot)) || negb (reference (obs_boot_id boot)) || (updated_at <? observed_at_ms boot)).

Definition older (current : option Z) (timestamp : Z) : option Z :=
  Some (match current with Some previous => Z.min previous timestamp | None => timestamp end).

(** * Enrollments *)

Section Reconcile.
Context {Path : Type} `{Countable Path}.
Context (json_identity : list Z -> option IdentityRecord).
Context (json_bundle : list Z -> option BundleRecord).
(** The kernel's answer when a path is opened, and the effective user. *)
Context (openat2 : Path -> option HeldFile) (geteuid : Z).

Record Enrollment : Type := mk_enrollment {
  journal : Path; created_at_ms : Z; production_boot_test_passed : bool }.

Record Inventory : Type := mk_inventory {
  inv_schema_version : Z; inv_updated_at_ms : Z; valid_for_seconds : Z;
  inv_boots : list ExpectedBoot; enrollments : list Enrollment }.

(** The local variables of the enrollment loop. *)
Record Tally : Type := mk_tally {
  pending : Z; unknown : Z; awaiting_boot_test : Z;
  oldest : option Z; oldest_pending : option Z; oldest_awaiting : option Z; oldest_unknown : option Z;
  journals : gset Path; journal_files : gset FileIdentity }.

Definition empty_tally : Tally := mk_tally 0 0 0 None None None None ∅ ∅.

Definition count_pending (t : Tally) (at_ms : Z) : Tally :=
  mk_tally (pending t + 1) (unknown t) (awaiting_boot_test t) (older (oldest t) at_ms)
    (older (oldest_pending t) at_ms) (oldest_awaiting t) (oldest_unknown t) (journals t) (journal_files t).
Definition count_unknown (t : Tally) (at_ms : Z) : Tally :=
  mk_tally (pending t) (unknown t + 1) (awaiting_boot_test t) (older (oldest t) at_ms)
    (oldest_pending t) (oldest_awaiting t) (older (oldest_unknown t) at_ms) (journals t) (journal_files t).
Definition count_awaiting (t : Tally) (at_ms : Z) : Tally :=
  mk_tally (pending t) (unknown t) (awaiting_boot_test t + 1) (older (oldest t) at_ms)
    (oldest_pending t) (older (oldest_awaiting t) at_ms) (oldest_unknown t) (journals t) (journal_files t).

Definition note_journal (t : Tally) (path : Path) : Tally :=
  mk_tally (pending t) (unknown t) (awaiting_boot_test t) (oldest t) (oldest_pending t) (oldest_awaiting t)
    (oldest_unknown t) ({[path]} ∪ journals t) (journal_files t).
Definition note_file (t : Tally) (identity : FileIdentity) : Tally :=
  mk_tally (pending t) (unknown t) (awaiting_boot_test t) (oldest t) (oldest_pending t) (oldest_awaiting t)
    (oldest_unknown t) (journals t) ({[identity]} ∪ journal_files t).

(** Read and judge a journal; the file's identity must be new. *)
Definition journal_state (t : Tally) (path : Path) : result Failure (Tally * option bool) :=
  match read_held (openat2 path) geteuid JOURNAL_LIMIT with
  | Ok (bytes, identity) =>
      if bool_decide (identity ∈ journal_files t) then Err DuplicateJournalFile
      else Ok (note_file t identity, journal_committed json_identity json_bundle bytes)
  | Err _ => Ok (t, None)
  end.

(** One iteration of the enrollment loop. *)
Definition tally_enrollment (inventory_fresh : bool) (updated_at now : Z) (t : Tally) (e : Enrollment)
    : result Failure Tally :=
  if bool_decide (journal e ∈ journals t) || (now <? created_at_ms e) || (updated_at <? created_at_ms e)
  then Err InvalidEnrollmentInventory
  else
    let t := note_journal t (journal e) in
    if negb inventory_fresh then Ok (count_unknown t (created_at_ms e))
    else
      match journal_state t (journal e) with
      | Err failure => Err failure
      | Ok (t, Some true) =>
          Ok (if negb (production_boot_test_passed e) then count_awaiting t (created_at_ms e) else t)
      | Ok (t, Some false) => Ok (count_pending t (created_at_ms e))
      | Ok (t, None) => Ok (count_unknown t (created_at_ms e))
      end.

Fixpoint tally_enrollments (inventory_fresh : bool) (updated_at now : Z) (t : Tally) (es : list Enrollment)
    : result Failure Tally :=
  match es with
  | [] => Ok t
  | e :: es =>
      match tally_enrollment inventory_fresh updated_at now t e with
      | Ok t => tally_enrollments inventory_fresh updated_at now t es
      | Err failure => Err failure
      end
  end.

(** * The report *)

Record Summary : Type := mk_summary {
  states : list Z; inventory_is_fresh : bool; observations_are_fresh : bool; tally : Tally }.

(** [render] up to its output. *)
Definition summarize (inventory : Inventory) (observations : Observations) (now : Z) : result Failure Summary :=
  if negb (inv_schema_version inventory =? 1) || negb (obs_schema_version observations =? 1)
     || negb ((1 <=? valid_for_seconds inventory) && (valid_for_seconds inventory <=? 86400))
     || (TARGET_LIMIT <? Z.of_nat (length (inv_boots inventory)))
     || (TARGET_LIMIT <? Z.of_nat (length (enrollments inventory)))
     || (TARGET_LIMIT * 4 <? Z.of_nat (length (obs_boots observations)))
  then Err InvalidSchemaOrLimit
  else if negb (check_boots (inv_updated_at_ms inventory) ∅ (inv_boots inventory)) then Err InvalidExpectedBoot
  else if negb (forallb (check_observation (obs_updated_at_ms observations)) (obs_boots observations))
  then Err InvalidBootObservation
  else
    let inventory_fresh := fresh (inv_updated_at_ms inventory) now (valid_for_seconds inventory) in
    let observations_fresh := fresh (obs_updated_at_ms observations) now (valid_for_seconds inventory) in
    let states := count_states inventory_fresh observations_fresh (obs_boots observations) now (inv_boots inventory) in
    match tally_enrollments inventory_fresh (inv_updated_at_ms inventory) now empty_tally (enrollments inventory) with
    | Ok t => Ok (mk_summary states inventory_fresh observations_fresh t)
    | Err failure => Err failure
    end.

Section Render.
Context (display_f64 : f64 -> string).

Definition STATE_NAMES : list string := ["success"; "failure"; "pending"; "missing"; "unknown"; "late_success"].

Definition render_states (states : list Z) : string :=
  foldr (fun '(state, count) out =>
    sample ("leelo_boot_targets{" +:+ label "state" state +:+ "}") (display_u64 count) +:+ out)
    EmptyString (zip STATE_NAMES states).

Definition render_flag (flag : bool) : string := display_u64 (if flag then 1 else 0).
Definition render_oldest (at_ms : option Z) : string := millis display_f64 (default 0 at_ms).

Definition render_summary (s : Summary) (now : Z) : string :=
  let t := tally s in
  render_states (states s) +:+
  sample "leelo_inventory_fresh" (render_flag (inventory_is_fresh s)) +:+
  sample "leelo_boot_observations_fresh" (render_flag (observations_are_fresh s)) +:+
  sample "leelo_reconciliation_snapshot_timestamp_seconds" (millis display_f64 now) +:+
  sample "leelo_enrollments_requiring_reconciliation" (display_u64 (pending t)) +:+
  sample "leelo_enrollments_unknown" (display_u64 (unknown t)) +:+
  sample "leelo_enrollments_awaiting_boot_test" (display_u64 (awaiting_boot_test t)) +:+
  sample "leelo_oldest_unresolved_enrollment_timestamp_seconds" (render_oldest (oldest t)) +:+
  sample "leelo_oldest_enrollment_requiring_reconciliation_timestamp_seconds" (render_oldest (oldest_pending t)) +:+
  sample "leelo_oldest_enrollment_awaiting_boot_test_timestamp_seconds" (render_oldest (oldest_awaiting t)) +:+
  sample "leelo_oldest_unknown_enrollment_timestamp_seconds" (render_oldest (oldest_unknown t)).

Definition render (inventory : Inventory) (observations : Observations) (now : Z) : result Failure string :=
  match summarize inventory observations now with
  | Ok s => Ok (render_summary s now)
  | Err failure => Err failure
  end.

(** [run] up to the write: the text that [atomic_write] is given. *)
Definition run (json_inventory : list Z -> option Inventory) (json_observations : list Z -> option Observations)
    (inventory observations : Path) (since_epoch : option Z) : result Failure string :=
  match read_bounded (openat2 inventory) geteuid with
  | Err failure => Err failure
  | Ok bytes =>
      match json_inventory bytes with
      | None => Err JsonError
      | Some inventory =>
          match read_bounded (openat2 observations) geteuid with
          | Err failure => Err failure
          | Ok bytes =>
              match json_observations bytes with
              | None => Err JsonError
              | Some observations =>
                  match unix_time_ms since_epoch with
                  | None => Err ClockUnavailable
                  | Some now => render inventory observations now
                  end
              end
          end
      end
  end.
End Render.
End Reconcile.

(** * Hexadecimal text *)

Lemma hex_pairs_hex_text bytes : byte_slice bytes -> hex_pairs (hex_text bytes) = Some bytes.
Proof.
  induction 1 as [|b bytes Hb _ IH]; simpl; [done|]. destruct (byte_halves b Hb).
  rewrite !to_digit16_hex_digit, IH by done. do 2 f_equal. pose proof (Z.div_mod b 16). lia.
Qed.

Definition lower_digit (b : Z) : Prop := is_ascii_digit b = true \/ 97 <= b <= 102.

Lemma hex_pairs_inv n value bytes :
  length value = (n * 2)%nat -> Forall lower_digit value -> hex_pairs value = Some bytes ->
  byte_array n bytes /\ value = hex_text bytes.
Proof.
  revert value bytes. induction n as [|n IH]; intros value bytes Hlen Hall Hp.
  { destruct value; [|done]. injection Hp as <-. by split. }
  destruct value as [|h [|l value]]; try done. simpl in Hlen, Hp.
  apply Forall_cons in Hall as [Hh Hall]. apply Forall_cons in Hall as [Hl Hall].
  destruct (to_digit16 h) as [dh|] eqn:Eh; [|done]. destruct (to_digit16 l) as [dl|] eqn:El; [|done].
  destruct (hex_pairs value) as [rest|] eqn:Er; [|done]. injection Hp as <-.
  destruct (IH value rest) as [[Hn Hu] ->]; [lia|done..|].
  destruct (digit_pair dh dl) as (Hu8 & Hd & Hm); [eauto with leelo..|].
  split; [split; [simpl; lia|by constructor]|]. simpl.
  by rewrite Hd, Hm, <- (hex_digit_to_digit16 h dh), <- (hex_digit_to_digit16 l dl).
Qed.

Lemma lower_digit_spec b : is_ascii_digit b || ((97 <=? b) && (b <=? 102)) = true <-> lower_digit b.
Proof. unfold lower_digit. rewrite orb_true_iff, andb_true_iff, !Z.leb_le. done. Qed.

Lemma hex_text_lower bytes : byte_slice bytes -> Forall lower_digit (hex_text bytes).
Proof.
  induction 1 as [|b bytes Hb _ IH]; simpl; [constructor|]. destruct (byte_halves b Hb).
  constructor; [by apply hex_digit_lower|]. constructor; [by apply hex_digit_lower|done].
Qed.

Lemma lower_hex_spec n value bytes : lower_hex n value = Some bytes <-> byte_array n bytes /\ value = hex_text bytes.
Proof.
  unfold lower_hex. split.
  - destruct (Nat.eqb_spec (length value) (n * 2)) as [Hlen|]; [|done]. simpl.
    destruct (forallb _ value) eqn:Hall; [|done]. apply (forallb_Forall _ _ _ lower_digit_spec) in Hall.
    simpl. by apply hex_pairs_inv.
  - intros [[Hlen Hu] ->]. rewrite hex_text_length, Hlen, (Nat.mul_comm 2), Nat.eqb_refl.
    rewrite (proj2 (forallb_Forall _ _ _ lower_digit_spec)) by by apply hex_text_lower.
    by apply hex_pairs_hex_text.
Qed.

(** * Identities *)

(** The textual form of a volume identifier: lower-case digits with dashes at four places. *)
Definition uuid_text (volume : list Z) : list Z :=
  let text := hex_text volume in
  take 8 text ++ [45] ++ take 4 (drop 8 text) ++ [45] ++ take 4 (drop 12 text) ++ [45]
  ++ take 4 (drop 16 text) ++ [45] ++ drop 20 text.

Definition no_dash (l : list Z) : Prop := List.filter (fun b => negb (b =? 45)) l = l.

Lemma filter_full {A} (f : A -> bool) l : length (List.filter f l) = length l -> List.filter f l = l.
Proof.
  induction l as [|a l IH]; simpl; [done|]. pose proof (List.filter_length_le f l).
  destruct (f a); simpl; intros; [f_equal; apply IH; lia|lia].
Qed.

(** A text of 36 bytes with dashes at the four places splits into five groups. *)
Lemma uuid_groups uuid :
  length uuid = 36%nat -> nth 8 uuid 0 = 45 -> nth 13 uuid 0 = 45 -> nth 18 uuid 0 = 45 -> nth 23 uuid 0 = 45 ->
  exists a b c d e, uuid = a ++ [45] ++ b ++ [45] ++ c ++ [45] ++ d ++ [45] ++ e /\
    length a = 8%nat /\ length b = 4%nat /\ length c = 4%nat /\ length d = 4%nat /\ length e = 12%nat.
Proof.
  intros Hlen H1 H2 H3 H4.
  exists (take 8 uuid), (take 4 (drop 9 uuid)), (take 4 (drop 14 uuid)), (take 4 (drop 19 uuid)), (drop 24 uuid).
  do 37 (destruct uuid as [|? uuid]; [try done|]); try done. simpl in H1, H2, H3, H4. subst. split_and!; done.
Qed.

Lemma filter_dash_length (a b c d e : list Z) :
  let f := List.filter (fun b => negb (b =? 45)) in
  length (f (a ++ [45] ++ b ++ [45] ++ c ++ [45] ++ d ++ [45] ++ e)) = 32%nat ->
  length a = 8%nat -> length b = 4%nat -> length c = 4%nat -> length d = 4%nat -> length e = 12%nat ->
  f a = a /\ f b = b /\ f c = c /\ f d = d /\ f e = e.
Proof.
  intros f Hf Ha Hb Hc Hd He. unfold f in *. rewrite !List.filter_app, !length_app in Hf. simpl in Hf.
  set (g := fun b0 => negb (b0 =? 45)) in *.
  pose proof (List.filter_length_le g a). pose proof (List.filter_length_le g b).
  pose proof (List.filter_length_le g c). pose proof (List.filter_length_le g d).
  pose proof (List.filter_length_le g e). split_and!; apply filter_full; lia.
Qed.

Lemma lower_digits_no_dash l : Forall lower_digit l -> no_dash l.
Proof.
  unfold no_dash. induction 1 as [|b l Hb _ IH]; simpl; [done|].
  destruct (Z.eqb_spec b 45) as [->|]; simpl; [|by rewrite IH]. destruct Hb; [done|lia].
Qed.

(** The shape of [uuid_text] for any 32 digits. *)
Lemma grouped_text (t : list Z) :
  length t = 32%nat ->
  let uuid := take 8 t ++ [45] ++ take 4 (drop 8 t) ++ [45] ++ take 4 (drop 12 t) ++ [45]
              ++ take 4 (drop 16 t) ++ [45] ++ drop 20 t in
  length uuid = 36%nat /\ nth 8 uuid 0 = 45 /\ nth 13 uuid 0 = 45 /\ nth 18 uuid 0 = 45 /\ nth 23 uuid 0 = 45 /\
  take 8 t ++ take 4 (drop 8 t) ++ take 4 (drop 12 t) ++ take 4 (drop 16 t) ++ drop 20 t = t.
Proof. intros Hlen. do 33 (destruct t as [|? t]; [try done|]); done. Qed.

Lemma uuid_text_filter volume :
  byte_array 16 volume -> List.filter (fun b => negb (b =? 45)) (uuid_text volume) = hex_text volume.
Proof.
  intros [Hlen Hu]. unfold uuid_text. set (t := hex_text volume).
  assert (length t = 32%nat) as Ht by (unfold t; rewrite hex_text_length; lia).
  assert (Forall lower_digit t) as Hall by by apply hex_text_lower.
  destruct (grouped_text t Ht) as (_ & _ & _ & _ & _ & Hgroups). rewrite !List.filter_app. simpl List.filter at 2 4 6 8.
  rewrite !(lower_digits_no_dash _ (Forall_take _ _ _ Hall)).
  rewrite !(fun n m => lower_digits_no_dash _ (Forall_take _ m _ (Forall_drop _ n _ Hall))),
    (lower_digits_no_dash _ (Forall_drop _ 20 _ Hall)). exact Hgroups.
Qed.

Definition identity_of (r : IdentityRecord) (identity : list Z * list Z * Z) : Prop :=
  let '(binding, volume, s) := identity in
  byte_array 32 binding /\ bytes_of_string (binding_id r) = hex_text binding /\ binding <> replicate 32 0 /\
  byte_array 16 volume /\ bytes_of_string (volume_uuid r) = uuid_text volume /\ volume <> replicate 16 0 /\
  s = slot r /\ s < 32.

Lemma uuid_parse uuid volume :
  length uuid = 36%nat -> existsb (fun index => negb (nth index uuid 0 =? 45)) [8; 13; 18; 23]%nat = false ->
  lower_hex 16 (List.filter (fun b => negb (b =? 45)) uuid) = Some volume ->
  byte_array 16 volume /\ uuid = uuid_text volume.
Proof.
  intros Hlen Hdash Hhex. apply lower_hex_spec in Hhex as [Hv Hf]. split; [done|]. simpl in Hdash.
  rewrite !orb_false_iff, !negb_false_iff, !Z.eqb_eq in Hdash. destruct Hdash as (D1 & D2 & D3 & D4 & _).
  destruct (uuid_groups uuid) as (a & b & c & d & e & -> & La & Lb & Lc & Ld & Le); [done..|].
  destruct Hv as [Hvl _]. unfold uuid_text. rewrite <- Hf.
  destruct (filter_dash_length a b c d e) as (Fa & Fb & Fc & Fd & Fe);
    [rewrite Hf, hex_text_length; lia|done..|].
  rewrite !List.filter_app, Fa, Fb, Fc, Fd, Fe. simpl.
  do 9 (destruct a as [|? a]; [try done|]); try done. do 5 (destruct b as [|? b]; [try done|]); try done.
  do 5 (destruct c as [|? c]; [try done|]); try done. do 5 (destruct d as [|? d]; [try done|]); try done.
Qed.

Lemma journal_identity_spec r identity : journal_identity r = Some identity <-> identity_of r identity.
Proof.
  destruct identity as [[binding volume] s]. unfold journal_identity, identity_of. split.
  - destruct (lower_hex 32 _) as [binding'|] eqn:Hb; [|done]. apply lower_hex_spec in Hb as [Hb1 Hb2].
    destruct (Nat.eqb_spec (length (bytes_of_string (volume_uuid r))) 36) as [Hlen|]; [|done]. cbv zeta.
    simpl negb. destruct (existsb _ _) eqn:Hdash; [done|]. simpl orb. cbv iota.
    destruct (lower_hex 16 _) as [volume'|] eqn:Hv; [|done]. apply uuid_parse in Hv as [Hv1 Hv2]; [|done..].
    destruct (_ || _) eqn:Hz; [done|]. rewrite !orb_false_iff, !bool_decide_eq_false, Z.leb_gt in Hz.
    intros [= <- <- <-]. naive_solver.
  - intros (Hb1 & Hb2 & Hb3 & Hv1 & Hv2 & Hv3 & -> & Hs).
    rewrite (proj2 (lower_hex_spec 32 _ binding)) by done. rewrite Hv2.
    assert (length (hex_text volume) = 32%nat) as Ht by (rewrite hex_text_length; destruct Hv1; lia).
    destruct (grouped_text _ Ht) as (G1 & G2 & G3 & G4 & G5 & _). fold (uuid_text volume) in *.
    cbv zeta. rewrite uuid_text_filter by done. unfold existsb.
    change (length (uuid_text volume) = 36%nat) in G1. change (nth 8 (uuid_text volume) 0 = 45) in G2.
    change (nth 13 (uuid_text volume) 0 = 45) in G3. change (nth 18 (uuid_text volume) 0 = 45) in G4.
    change (nth 23 (uuid_text volume) 0 = 45) in G5. rewrite G1, G2, G3, G4, G5. simpl negb. simpl orb. cbv iota.
    rewrite (proj2 (lower_hex_spec 16 _ volume)) by done.
    rewrite !bool_decide_eq_false_2 by done. simpl. by rewrite (proj2 (Z.leb_gt _ _)).
Qed.

(** * Journals: the exact record sequence *)

(** Lines with their terminators. *)
Fixpoint unlines (lines : list (list Z)) : list Z :=
  match lines with
  | [] => []
  | line :: lines => line ++ 10 :: unlines lines
  end.

Lemma split_lines_spec l :
  unlines (split_lines l) = l ++ [10] /\ Forall (fun line => 10 ∉ line) (split_lines l) /\ split_lines l <> [].
Proof.
  induction l as [|b l (E & F & N)]; simpl.
  { split_and!; [done| |done]. constructor; [apply not_elem_of_nil|constructor]. }
  destruct (Z.eqb_spec b 10) as [->|Hb]; simpl.
  - rewrite E. split_and!; [done| |done]. constructor; [apply not_elem_of_nil|done].
  - destruct (split_lines l) as [|line lines]; [done|]. simpl in *. rewrite E.
    apply Forall_cons in F as [F1 F2]. split_and!; [done| |done]. constructor; [|done].
    apply not_elem_of_cons. split; congruence.
Qed.

Lemma app_10_inj (a b x y : list Z) : 10 ∉ a -> 10 ∉ b -> a ++ 10 :: x = b ++ 10 :: y -> a = b /\ x = y.
Proof.
  revert b. induction a as [|c a IH]; intros [|d b] Ha Hb E; simpl in *; simplify_eq; [done| | |].
  - exfalso. apply Hb. left.
  - exfalso. apply Ha. left.
  - apply not_elem_of_cons in Ha as [_ Ha]. apply not_elem_of_cons in Hb as [_ Hb].
    destruct (IH b Ha Hb) as [-> ->]; done.
Qed.

Lemma unlines_inj l1 l2 :
  Forall (fun line => 10 ∉ line) l1 -> Forall (fun line => 10 ∉ line) l2 -> unlines l1 = unlines l2 -> l1 = l2.
Proof.
  intros F1. revert l2. induction F1 as [|a l1 Ha F1 IH]; intros l2 F2 E; destruct F2 as [|b l2 Hb F2]; simpl in E.
  - done.
  - by destruct b.
  - by destruct a.
  - apply app_10_inj in E as [-> E]; [|done..]. by rewrite (IH l2 F2 E).
Qed.

Lemma unlines_last lines : lines <> [] -> exists body, unlines lines = body ++ [10].
Proof.
  induction lines as [|line [|line' lines] IH]; intros Hn; [done| |].
  - by exists line.
  - destruct IH as [body E]; [done|]. exists (line ++ 10 :: body). simpl in *. by rewrite E, <- app_assoc.
Qed.

Section JournalSpec.
Context (json_identity : list Z -> option IdentityRecord).
Context (json_bundle : list Z -> option BundleRecord).

(** What the line of a phase must hold: the bundle's path and digest in the second, the enrollment's
    identity in the others. *)
Definition line_ok (identity : list Z * list Z * Z) (count : nat) (line : list Z) : Prop :=
  Z.of_nat (length line) <= 8192 /\
  if (count =? 1)%nat then
    exists r digest, json_bundle line = Some r /\ PHASES !! count = Some (bundle_phase r) /\ bundle_path r <> [] /\
      byte_array 48 digest /\ bytes_of_string (sha384 r) = hex_text digest
  else exists r, json_identity line = Some r /\ PHASES !! count = Some (id_phase r) /\ identity_of r identity.

Lemma bundle_line_spec line identity identity' :
  journal_line json_identity json_bundle 1 line identity = Some identity' <->
  (forall any, line_ok any 1 line) /\ identity' = identity.
Proof.
  unfold journal_line, line_ok. simpl. destruct (Z.ltb_spec 8192 (Z.of_nat (length line))) as [Hl|Hl].
  { split; [done|]. intros [H _]. destruct (H ([], [], 0)). lia. }
  split.
  - destruct (json_bundle line) as [r|]; [|done]. destruct (_ || _) eqn:Hr; [done|]. intros [= <-]. split; [|done].
    rewrite !orb_false_iff, negb_false_iff, !bool_decide_eq_false, String.eqb_eq in Hr.
    destruct Hr as [[Hp Hpath] Hsha]. intros _. split; [lia|].
    destruct (lower_hex 48 _) as [digest|] eqn:Hd; [|done]. apply lower_hex_spec in Hd as [? ?].
    exists r, digest. by rewrite Hp.
  - intros [H ->]. destruct (H ([], [], 0)) as (_ & r & digest & -> & [= Hp] & Hpath & Hd1 & Hd2).
    rewrite (proj2 (lower_hex_spec 48 _ digest)), <- Hp, String.eqb_refl, !bool_decide_eq_false_2 by done. done.
Qed.

Lemma identity_line_spec count line identity identity' :
  count <> 1%nat ->
  journal_line json_identity json_bundle count line identity = Some identity' <->
  exists id, line_ok id count line /\ identity' = Some id /\ (identity = None \/ identity = Some id).
Proof.
  intros Hc. unfold journal_line, line_ok. destruct (Z.ltb_spec 8192 (Z.of_nat (length line))) as [Hl|Hl].
  { split; [done|]. intros (id & [? _] & _). lia. }
  rewrite (proj2 (Nat.eqb_neq _ _) Hc). split.
  - destruct (PHASES !! count) as [phase|] eqn:Hp; [|done]. destruct (json_identity line) as [r|]; [|done].
    destruct (String.eqb_spec (id_phase r) phase) as [Hph|]; [|done]. simpl.
    destruct (journal_identity r) as [id|] eqn:Hid; [|done]. apply journal_identity_spec in Hid.
    intros Hi. exists id. split; [split; [lia|exists r; split_and!; congruence]|].
    destruct identity as [previous|]; [|by injection Hi as <-; auto].
    case_bool_decide as Heq; [|done]. injection Hi as <-. subst. auto.
  - intros (id & (_ & r & -> & -> & Hid) & -> & Hi). rewrite String.eqb_refl. simpl.
    rewrite (proj2 (journal_identity_spec r id) Hid). destruct Hi as [-> | ->]; [done|].
    by rewrite bool_decide_eq_true_2.
Qed.

Lemma line_ok_count id count line : line_ok id count line -> (count < 4)%nat.
Proof.
  intros [_ H]. destruct (count =? 1)%nat; [destruct H as (? & ? & _ & H & _)|destruct H as (? & _ & H & _)];
    apply lookup_lt_Some in H; done.
Qed.

Lemma journal_lines_spec lines count id committed c :
  (1 <= count)%nat ->
  journal_lines json_identity json_bundle count lines (Some id) committed = Some c <->
  (forall i line, lines !! i = Some line -> line_ok id (count + i) line) /\
  c = match lines with [] => committed | _ => (count + length lines =? 4)%nat end.
Proof.
  revert count committed. induction lines as [|line lines IH]; intros count committed Hcount; simpl.
  { split; [intros [= ->]; by split|intros [_ ->]; done]. }
  assert (journal_line json_identity json_bundle count line (Some id) = Some (Some id) <-> line_ok id count line) as Hline.
  { destruct (decide (count = 1%nat)) as [->|Hc].
    - rewrite bundle_line_spec. split; [intros [Hany _]; apply Hany|intros Hok; split; [intros any; exact Hok|done]].
    - rewrite identity_line_spec by done. split; [by intros (id' & Hok & [= <-] & _)|intros Hok; by exists id; auto]. }
  assert (forall other, journal_line json_identity json_bundle count line (Some id) = Some other -> other = Some id) as Hsame.
  { intros other. destruct (decide (count = 1%nat)) as [->|Hc].
    - by rewrite bundle_line_spec; intros [_ ->].
    - rewrite identity_line_spec by done. by intros (id' & _ & -> & [?|[= ->]]). }
  assert (match lines with [] => (count =? length PHASES - 1)%nat | _ => (S count + length lines =? 4)%nat end
          = (count + S (length lines) =? 4)%nat) as Hend.
  { rewrite Nat.add_succ_r. destruct lines; [|done]. rewrite Nat.add_0_r. done. }
  destruct (journal_line _ _ count line (Some id)) as [other|] eqn:E.
  - rewrite (Hsame other eq_refl) in *. rewrite IH by lia.
    split; intros [Hall ->]; (split; [|first [exact Hend|symmetry; exact Hend]]).
    + intros [|i] l Hl; [injection Hl as <-; rewrite Nat.add_0_r; by apply Hline|].
      rewrite <- Nat.add_succ_comm. by apply Hall.
    + intros i l Hl. rewrite Nat.add_succ_comm. by apply (Hall (S i)).
  - split; [done|]. intros [Hall _]. specialize (Hall 0%nat line eq_refl). rewrite Nat.add_0_r in Hall.
    apply Hline in Hall. done.
Qed.

(** A journal: one to four terminated lines in the order of the phases, about one identity. *)
Definition journal_of (bytes : list Z) (committed : bool) : Prop :=
  exists lines identity,
    bytes = unlines lines /\ Forall (fun line => 10 ∉ line) lines /\ (1 <= length lines)%nat /\
    Z.of_nat (length bytes) <= JOURNAL_LIMIT /\
    (forall i line, lines !! i = Some line -> line_ok identity i line) /\ committed = (length lines =? 4)%nat.

Lemma journal_body line lines c :
  journal_lines json_identity json_bundle 0 (line :: lines) None false = Some c <->
  exists identity, (forall i l, (line :: lines) !! i = Some l -> line_ok identity i l) /\
    c = (S (length lines) =? 4)%nat.
Proof.
  cbn [journal_lines]. split.
  - destruct (journal_line _ _ 0 line None) as [identity|] eqn:E; [|done].
    apply identity_line_spec in E as (id & Hok & -> & _); [|done]. rewrite journal_lines_spec by lia.
    intros [Hall ->]. exists id. split; [|by destruct lines].
    intros [|i] l Hl; [by injection Hl as <-|by apply Hall].
  - intros (id & Hall & ->).
    rewrite (proj2 (identity_line_spec 0 line None (Some id) ltac:(done))).
    + rewrite journal_lines_spec by lia. split; [|by destruct lines]. intros i l Hl. by apply (Hall (S i)).
    + exists id. split; [by apply (Hall 0%nat)|auto].
Qed.

Lemma journal_committed_spec bytes c :
  journal_committed json_identity json_bundle bytes = Some c <-> journal_of bytes c.
Proof.
  unfold journal_committed, journal_of. split.
  - destruct (_ || _) eqn:Hb; [done|].
    rewrite !orb_false_iff, negb_false_iff, bool_decide_eq_false, bool_decide_eq_true, Z.ltb_ge in Hb.
    destruct Hb as [[Hn Hlast] Hlen]. apply last_Some in Hlast as [body ->].
    replace (length (body ++ [10%Z]) - 1)%nat with (length body) by (rewrite length_app; simpl; lia).
    rewrite take_app_length. destruct (split_lines_spec body) as (E & F & N).
    destruct (split_lines body) as [|line lines]; [done|]. rewrite journal_body. intros (id & Hall & ->).
    exists (line :: lines), id. split_and!; try done. simpl. lia.
  - intros (lines & id & -> & F & Hlen & Hlimit & Hall & ->).
    destruct lines as [|line lines]; [simpl in Hlen; lia|].
    destruct (unlines_last (line :: lines)) as [body E]; [done|]. rewrite E in *.
    rewrite (bool_decide_eq_false_2 (body ++ [10] = [])) by (by destruct body).
    rewrite bool_decide_eq_true_2 by (apply last_snoc). rewrite (proj2 (Z.ltb_ge _ _)) by lia. simpl orb. cbv iota.
    replace (length (body ++ [10%Z]) - 1)%nat with (length body) by (rewrite length_app; simpl; lia).
    rewrite take_app_length. destruct (split_lines_spec body) as (E' & F' & _). rewrite <- E in E'.
    rewrite (unlines_inj _ _ F' F E'). apply journal_body. by exists id.
Qed.
End JournalSpec.

(** * Boots: every state *)

Lemma max_by_key_from values best :
  let r := fold_left (fun best value =>
    match best with
    | Some best => if observed_at_ms best <=? observed_at_ms value then Some value else Some best
    | None => Some value
    end) values (Some best) in
  exists o, r = Some o /\ (o = best \/ o ∈ values) /\ observed_at_ms best <= observed_at_ms o /\
    (forall v, v ∈ values -> observed_at_ms v <= observed_at_ms o).
Proof.
  revert best. induction values as [|v values IH]; intros best; simpl.
  { exists best. split_and!; auto; [lia|by intros v ?%not_elem_of_nil]. }
  destruct (Z.leb_spec (observed_at_ms best) (observed_at_ms v)) as [Hle|Hle].
  - destruct (IH v) as (o & -> & Ho & Hge & Hall). exists o. split_and!; [done| |lia|].
    + right. destruct Ho as [->|?]; [left|by right].
    + intros w [->|Hw]%elem_of_cons; auto.
  - destruct (IH best) as (o & -> & Ho & Hge & Hall). exists o. split_and!; [done| |lia|].
    + destruct Ho as [->|?]; [by left|right; by right].
    + intros w [->|Hw]%elem_of_cons; [lia|auto].
Qed.

(** [max_by_key] finds a latest element of a list that has one. *)
Lemma max_by_key_spec values :
  match max_by_key values with
  | Some o => o ∈ values /\ forall v, v ∈ values -> observed_at_ms v <= observed_at_ms o
  | None => values = []
  end.
Proof.
  unfold max_by_key. destruct values as [|v values]; [done|]. simpl.
  destruct (max_by_key_from values v) as (o & -> & Ho & Hge & Hall). split.
  - destruct Ho as [->|?]; [left|by right].
  - intros w [->|Hw]%elem_of_cons; auto.
Qed.

(** An observation of the expected boot since it was requested. *)
Definition observes (expected : ExpectedBoot) (boots : list BootObservation) (o : BootObservation) : Prop :=
  o ∈ boots /\ obs_target o = exp_target expected /\ obs_boot_id o = exp_boot_id expected /\
  requested_at_ms expected <= observed_at_ms o.

(** The latest report of a boot: no observation is later, and those of the same time agree. *)
Definition latest_report (expected : ExpectedBoot) (boots : list BootObservation) (outcome : BootOutcome) (at_ms : Z) : Prop :=
  (exists o, observes expected boots o /\ observed_at_ms o = at_ms) /\
  (forall o, observes expected boots o -> observed_at_ms o <= at_ms) /\
  (forall o, observes expected boots o -> observed_at_ms o = at_ms -> obs_outcome o = outcome).

(** What each state says. *)
Definition boot_meaning (fresh_inputs : Prop) (boots : list BootObservation) (now : Z) (expected : ExpectedBoot)
    (state : nat) : Prop :=
  match state with
  | 0%nat => fresh_inputs /\ exists t, latest_report expected boots Success t /\ t <= deadline_ms expected
  | 1%nat => fresh_inputs /\ exists t, latest_report expected boots BootFailure t
  | 2%nat => fresh_inputs /\ (forall o, ~ observes expected boots o) /\ now <= deadline_ms expected
  | 3%nat => fresh_inputs /\ (forall o, ~ observes expected boots o) /\ deadline_ms expected < now
  | 4%nat => ~ fresh_inputs \/
         exists o1 o2, observes expected boots o1 /\ observes expected boots o2 /\
           observed_at_ms o1 = observed_at_ms o2 /\ obs_outcome o1 <> obs_outcome o2 /\
           forall o, observes expected boots o -> observed_at_ms o <= observed_at_ms o1
  | 5%nat => fresh_inputs /\ exists t, latest_report expected boots Success t /\ deadline_ms expected < t
  | _ => False
  end.

Lemma observes_filter expected boots o :
  o ∈ List.filter (fun value => same_boot expected value && (requested_at_ms expected <=? observed_at_ms value)) boots
  <-> observes expected boots o.
Proof.
  rewrite !list_elem_of_In, List.filter_In. unfold same_boot, observes.
  rewrite !andb_true_iff, !String.eqb_eq, Z.leb_le.
  rewrite list_elem_of_In. tauto.
Qed.

Lemma latest_report_unique expected boots a t a' t' :
  latest_report expected boots a t -> latest_report expected boots a' t' -> t = t' /\ a = a'.
Proof.
  intros ((o & Ho & Et) & Hmax & Hout) ((o' & Ho' & Et') & Hmax' & Hout').
  assert (t = t') as <- by (apply Z.le_antisymm; [rewrite <- Et; auto|rewrite <- Et'; auto]).
  split; [done|]. rewrite <- (Hout o Ho Et). auto.
Qed.

Lemma boot_state_sound fi fo boots now expected :
  boot_meaning (fi = true /\ fo = true) boots now expected (boot_state fi fo boots now expected).
Proof.
  unfold boot_state. destruct (negb fi || negb fo) eqn:Hf.
  { left. intros [-> ->]. done. }
  apply orb_false_elim in Hf as [Hfi%negb_false_iff Hfo%negb_false_iff].
  set (l := List.filter _ boots). pose proof (max_by_key_spec l) as Hmax.
  destruct (max_by_key l) as [o|]; simpl.
  - destruct Hmax as [Ho%observes_filter Hle].
    assert (forall v, observes expected boots v -> observed_at_ms v <= observed_at_ms o) as Hlatest.
    { intros v Hv%observes_filter. auto. }
    destruct (existsb _ boots) eqn:Hex.
    + right. apply existsb_exists in Hex as (v & Hv & Heq).
      unfold same_boot in Heq. rewrite !andb_true_iff, !String.eqb_eq, Z.eqb_eq, negb_true_iff, bool_decide_eq_false in Heq.
      destruct Heq as [[[Ht Hb] Hat] Hne]. exists o, v. split_and!; try done; try congruence.
      destruct Ho as (_ & _ & _ & ?). split_and!; [by apply list_elem_of_In|done..|lia].
    + assert (latest_report expected boots (obs_outcome o) (observed_at_ms o)) as Hrep.
      { split_and!; [by exists o|done|]. intros v Hv Hat. destruct (decide (obs_outcome v = obs_outcome o)) as [|Hne]; [done|].
        exfalso. destruct Hv as (Hin & Ht & Hb & _). apply not_true_iff_false in Hex. apply Hex, existsb_exists.
        exists v. split; [by apply list_elem_of_In|]. unfold same_boot.
        by rewrite Ht, Hb, Hat, !String.eqb_refl, Z.eqb_refl, bool_decide_eq_false_2. }
      destruct (bool_decide_reflect (obs_outcome o = Success)) as [Hs|Hs]; simpl.
      * rewrite Hs in Hrep. destruct (Z.ltb_spec (deadline_ms expected) (observed_at_ms o)); simpl; eauto.
      * destruct (obs_outcome o); [done|]. eauto.
  - assert (forall o, ~ observes expected boots o) as Hnone.
    { intros o Ho%observes_filter. fold l in Ho. rewrite Hmax in Ho. by apply not_elem_of_nil in Ho. }
    destruct (Z.leb_spec now (deadline_ms expected)); simpl; auto.
Qed.

(** The meanings exclude each other, so the state is decided exactly. *)
Lemma report_excludes_none expected boots a t : latest_report expected boots a t -> ~ (forall o, ~ observes expected boots o).
Proof. intros ((o & Ho & _) & _) H. by apply (H o). Qed.

Lemma report_excludes_conflict expected boots a t o1 o2 :
  latest_report expected boots a t -> observes expected boots o1 -> observes expected boots o2 ->
  observed_at_ms o1 = observed_at_ms o2 -> obs_outcome o1 <> obs_outcome o2 ->
  (forall o, observes expected boots o -> observed_at_ms o <= observed_at_ms o1) -> False.
Proof.
  intros ((o & Ho & Et) & Hmax & Hout) H1 H2 Hat Hne Hall.
  assert (observed_at_ms o1 = t) as E1 by (apply Z.le_antisymm; [auto|rewrite <- Et; auto]).
  apply Hne. rewrite (Hout o1 H1 E1). symmetry. apply Hout; [done|lia].
Qed.

Lemma boot_meaning_unique P boots now expected s s' :
  boot_meaning P boots now expected s -> boot_meaning P boots now expected s' -> s = s'.
Proof.
  assert (forall s s', (s <= s')%nat -> boot_meaning P boots now expected s -> boot_meaning P boots now expected s' -> s = s') as Hle.
  { intros a b Hab Ha Hb. destruct (decide (a = b)) as [|Hne]; [done|]. exfalso.
    destruct a as [|[|[|[|[|[|a]]]]]]; try done; destruct b as [|[|[|[|[|[|b]]]]]]; try done; try lia;
      simpl in Ha, Hb.
    all: repeat match goal with
         | H : _ /\ _ |- _ => destruct H
         | H : exists _, _ |- _ => destruct H
         | H : _ \/ _ |- _ => destruct H
         end; try done; try lia.
    all: try (eapply report_excludes_none; eassumption).
    all: try (match goal with Hne : obs_outcome ?o1 <> obs_outcome ?o2 |- _ =>
      eapply (report_excludes_conflict _ _ _ _ o1 o2); eassumption end).
    all: try (match goal with H1 : latest_report _ _ _ _, H2 : latest_report _ _ _ _ |- _ =>
      destruct (latest_report_unique _ _ _ _ _ _ H1 H2) as [? ?] end; done || lia).
    all: match goal with Hn : forall o, ~ observes _ _ o, Ho : observes _ _ ?o |- _ => exact (Hn o Ho) end. }
  intros H1 H2. destruct (Nat.le_gt_cases s s'); [auto|]. symmetry. apply Hle; [lia|done..].
Qed.

(** ** Counting states *)

Definition in_state (fi fo : bool) (boots : list BootObservation) (now : Z) (expected : list ExpectedBoot) (s : nat) : Z :=
  Z.of_nat (length (List.filter (fun e => bool_decide (boot_state fi fo boots now e = s)) expected)).

Lemma boot_state_range fi fo boots now e : (boot_state fi fo boots now e < 6)%nat.
Proof.
  pose proof (boot_state_sound fi fo boots now e) as H.
  destruct (boot_state fi fo boots now e) as [|[|[|[|[|[|s]]]]]]; [lia..|done].
Qed.

Lemma in_state_snoc fi fo boots now es e s :
  in_state fi fo boots now (es ++ [e]) s =
  in_state fi fo boots now es s + (if bool_decide (boot_state fi fo boots now e = s) then 1 else 0).
Proof. unfold in_state. rewrite List.filter_app, length_app. simpl. case_bool_decide; simpl; lia. Qed.

Lemma count_states_spec fi fo boots now es :
  count_states fi fo boots now es = map (in_state fi fo boots now es) (seq 0 6).
Proof.
  unfold count_states. induction es as [|e es IH] using rev_ind; [done|].
  rewrite fold_left_app, IH. cbn [fold_left]. unfold count_state.
  pose proof (boot_state_range fi fo boots now e) as Hr. simpl map. rewrite !in_state_snoc.
  destruct (boot_state fi fo boots now e) as [|[|[|[|[|[|s]]]]]]; [..|lia]; simpl;
    rewrite !Z.add_0_r, (Z.add_comm 1); done.
Qed.

Lemma in_state_total fi fo boots now es :
  foldr Z.add 0 (map (in_state fi fo boots now es) (seq 0 6)) = Z.of_nat (length es).
Proof.
  induction es as [|e es IH] using rev_ind; [done|]. rewrite length_app. simpl map. simpl foldr. rewrite !in_state_snoc.
  simpl map in IH. simpl foldr in IH. pose proof (boot_state_range fi fo boots now e) as Hr. simpl length.
  destruct (boot_state fi fo boots now e) as [|[|[|[|[|[|s]]]]]]; [..|lia]; simpl; lia.
Qed.

(** * Enrollments: the tally *)

(** The oldest of some times. *)
Definition is_oldest (times : list Z) (o : option Z) : Prop :=
  match o with
  | Some m => m ∈ times /\ forall x, x ∈ times -> m <= x
  | None => times = []
  end.

Lemma is_oldest_older times o x : is_oldest times o -> is_oldest (times ++ [x]) (older o x).
Proof.
  destruct o as [m|]; simpl.
  - intros [Hm Hall]. split.
    + apply elem_of_app. destruct (Z.min_spec m x) as [[_ ->]|[_ ->]]; [by left|right; left].
    + intros y [Hy|Hy]%elem_of_app; [specialize (Hall y Hy); lia|].
      apply list_elem_of_singleton in Hy as ->. lia.
  - intros ->. split; [left|]. intros y Hy. apply list_elem_of_singleton in Hy as ->. lia.
Qed.

Inductive Class : Type := Resolved | Awaiting | Pending | Unknown.
#[export] Instance Class_eq_dec : EqDecision Class.
Proof. solve_decision. Defined.

Section Tally.
Context {Path : Type} `{Countable Path}.
Context (json_identity : list Z -> option IdentityRecord).
Context (json_bundle : list Z -> option BundleRecord).
Context (openat2 : Path -> option HeldFile) (geteuid : Z).
Context (inventory_fresh : bool) (updated_at now : Z).

Abbreviation held e := (read_held (openat2 (journal e)) geteuid JOURNAL_LIMIT).

(** What an enrollment counts as. *)
Definition class_of (e : Enrollment) : Class :=
  if negb inventory_fresh then Unknown
  else
    match held e with
    | Ok (bytes, _) =>
        match journal_committed json_identity json_bundle bytes with
        | Some true => if production_boot_test_passed e then Resolved else Awaiting
        | Some false => Pending
        | None => Unknown
        end
    | Err _ => Unknown
    end.

(** The files that were read, while the inventory is fresh. *)
Definition files_of (es : list Enrollment) : list FileIdentity :=
  if inventory_fresh then omap (fun e => match held e with Ok (_, identity) => Some identity | Err _ => None end) es
  else [].

Definition times_of (p : Class -> bool) (es : list Enrollment) : list Z :=
  map created_at_ms (List.filter (fun e => p (class_of e)) es).
Definition is_class (c c' : Class) : bool := bool_decide (c' = c).
Definition unresolved (c : Class) : bool := negb (bool_decide (c = Resolved)).

Definition tally_of (es : list Enrollment) (t : Tally (Path := Path)) : Prop :=
  pending t = Z.of_nat (length (times_of (is_class Pending) es)) /\
  unknown t = Z.of_nat (length (times_of (is_class Unknown) es)) /\
  awaiting_boot_test t = Z.of_nat (length (times_of (is_class Awaiting) es)) /\
  is_oldest (times_of unresolved es) (oldest t) /\
  is_oldest (times_of (is_class Pending) es) (oldest_pending t) /\
  is_oldest (times_of (is_class Awaiting) es) (oldest_awaiting t) /\
  is_oldest (times_of (is_class Unknown) es) (oldest_unknown t) /\
  journals t = list_to_set (map journal es) /\ journal_files t = list_to_set (files_of es).

(** The inventory is admissible: distinct journals and files, and no enrollment from the future. *)
Definition admissible (es : list Enrollment) : Prop :=
  NoDup (map journal es) /\ NoDup (files_of es) /\
  Forall (fun e => created_at_ms e <= now /\ created_at_ms e <= updated_at) es.

Lemma times_of_snoc p es e :
  times_of p (es ++ [e]) = times_of p es ++ (if p (class_of e) then [created_at_ms e] else []).
Proof. unfold times_of. rewrite List.filter_app, map_app. simpl. by destruct (p (class_of e)). Qed.

(** Counting one enrollment of a class. *)
Definition count_class (t : Tally (Path := Path)) (e : Enrollment) : Tally (Path := Path) :=
  match class_of e with
  | Resolved => t
  | Awaiting => count_awaiting t (created_at_ms e)
  | Pending => count_pending t (created_at_ms e)
  | Unknown => count_unknown t (created_at_ms e)
  end.

Lemma count_class_of es t e js fs :
  tally_of es t -> js = list_to_set (map journal (es ++ [e])) -> fs = list_to_set (files_of (es ++ [e])) ->
  tally_of (es ++ [e])
    (count_class (mk_tally (pending t) (unknown t) (awaiting_boot_test t) (oldest t) (oldest_pending t)
       (oldest_awaiting t) (oldest_unknown t) js fs) e).
Proof.
  intros (T1 & T2 & T3 & T4 & T5 & T6 & T7 & _ & _) -> ->. unfold tally_of, count_class. rewrite !times_of_snoc, !length_app.
  destruct (class_of e); simpl; rewrite ?app_nil_r; split_and!; try done; try lia; by apply is_oldest_older.
Qed.

Abbreviation step := (tally_enrollment json_identity json_bundle openat2 geteuid inventory_fresh updated_at now).

Lemma files_of_snoc es e :
  files_of (es ++ [e]) =
  files_of es ++ (if inventory_fresh then match held e with Ok (_, identity) => [identity] | Err _ => [] end else []).
Proof.
  unfold files_of. destruct inventory_fresh; [|done]. rewrite omap_app. simpl.
  by destruct (held e) as [[? ?]|].
Qed.

Lemma push_set {A} `{Countable A} (l : list A) x :
  list_to_set (C := gset A) (l ++ [x]) = {[x]} ∪ list_to_set l.
Proof. rewrite list_to_set_app_L. set_solver. Qed.

Lemma NoDup_snoc {A} (l : list A) x : NoDup (l ++ [x]) <-> NoDup l /\ x ∉ l.
Proof. rewrite NoDup_app. pose proof (NoDup_singleton x). set_solver. Qed.

(** One iteration: it succeeds exactly when the inventory stays admissible. *)
Lemma tally_step es t e :
  tally_of es t -> admissible es ->
  match step t e with
  | Ok t' => admissible (es ++ [e]) /\ tally_of (es ++ [e]) t'
  | Err failure => ~ admissible (es ++ [e])
  end.
Proof.
  intros Ht (A1 & A2 & A3). pose proof Ht as (_ & _ & _ & _ & _ & _ & _ & Tj & Tf).
  unfold tally_enrollment. destruct (_ || _) eqn:Hguard.
  { intros (B1 & _ & B3). rewrite map_app in B1. apply NoDup_snoc in B1 as [_ B1].
    apply Forall_app in B3 as [_ B3]. apply Forall_cons in B3 as [B3 _].
    rewrite !orb_true_iff, bool_decide_eq_true, Tj, elem_of_list_to_set, !Z.ltb_lt in Hguard.
    destruct Hguard as [[Hin|?]|?]; [by apply B1|lia..]. }
  rewrite !orb_false_iff, bool_decide_eq_false, Tj, elem_of_list_to_set, !Z.ltb_ge in Hguard.
  destruct Hguard as [[Hj Hn] Hu].
  assert (list_to_set (map journal (es ++ [e])) = {[journal e]} ∪ journals t) as Hjs.
  { rewrite map_app, Tj. apply push_set. }
  assert (NoDup (map journal (es ++ [e]))) as Hnd by (rewrite map_app; by apply NoDup_snoc).
  assert (Forall (fun e => created_at_ms e <= now /\ created_at_ms e <= updated_at) (es ++ [e])) as Hall.
  { apply Forall_app. split; [done|]. by apply Forall_singleton. }
  assert (forall fs, fs = list_to_set (files_of (es ++ [e])) -> NoDup (files_of (es ++ [e])) ->
    admissible (es ++ [e]) /\ tally_of (es ++ [e])
      (count_class (mk_tally (pending t) (unknown t) (awaiting_boot_test t) (oldest t) (oldest_pending t)
         (oldest_awaiting t) (oldest_unknown t) ({[journal e]} ∪ journals t) fs) e)) as Hcount.
  { intros fs Hfs Hnf. split; [done|]. by apply count_class_of. }
  assert (~ NoDup (files_of (es ++ [e])) -> ~ admissible (es ++ [e])) as Herr by (by intros Hno (_ & ? & _)).
  rewrite files_of_snoc in Hcount, Herr. unfold count_class, class_of in Hcount. cbv zeta.
  unfold journal_state. cbn [note_journal journals journal_files].
  destruct inventory_fresh; simpl negb in *; cbv iota in *; [|rewrite app_nil_r in Hcount; by apply Hcount].
  destruct (held e) as [[bytes identity]|] eqn:Eh; [|rewrite app_nil_r in Hcount; by apply Hcount].
  case_bool_decide as Hid; rewrite Tf, elem_of_list_to_set in Hid.
  { apply Herr. rewrite NoDup_snoc. by intros [_ ?]. }
  specialize (Hcount ({[identity]} ∪ journal_files t)). rewrite push_set, Tf, NoDup_snoc in Hcount.
  specialize (Hcount eq_refl (conj A2 Hid)). unfold note_file, note_journal. simpl. rewrite Tf.
  destruct (journal_committed _ _ bytes) as [[]|]; simpl; [|done..].
  by destruct (production_boot_test_passed e).
Qed.

Lemma tally_loop es' es t :
  tally_of es t -> admissible es ->
  match tally_enrollments json_identity json_bundle openat2 geteuid inventory_fresh updated_at now t es' with
  | Ok t' => admissible (es ++ es') /\ tally_of (es ++ es') t'
  | Err failure => ~ admissible (es ++ es')
  end.
Proof.
  revert es t. induction es' as [|e es' IH]; intros es t Ht Ha; simpl; [by rewrite app_nil_r|].
  pose proof (tally_step es t e Ht Ha) as Hstep. rewrite cons_middle, app_assoc.
  destruct (step t e) as [t'|failure]; [by destruct Hstep; apply IH|]. intros (B1 & B2 & B3). apply Hstep.
  rewrite map_app in B1. apply NoDup_app in B1 as [B1 _]. apply Forall_app in B3 as [B3 _]. split_and!; try done.
  unfold files_of in *. destruct inventory_fresh; [|constructor]. rewrite omap_app in B2. by apply NoDup_app in B2 as [B2 _].
Qed.

Lemma tally_spec es :
  match tally_enrollments json_identity json_bundle openat2 geteuid inventory_fresh updated_at now empty_tally es with
  | Ok t => admissible es /\ tally_of es t
  | Err failure => ~ admissible es
  end.
Proof.
  apply (tally_loop es [] empty_tally).
  - unfold tally_of, files_of. by destruct inventory_fresh.
  - split_and!; [constructor| |constructor]. unfold files_of. destruct inventory_fresh; constructor.
Qed.
End Tally.

(** * Held files *)

(** A file the reader trusts: regular, within the limit, owned by root or the reader, writable by
    neither group nor others, on a local filesystem. *)
Definition trusted_file (file : HeldFile) (geteuid limit : Z) : Prop :=
  is_file file = true /\ file_len file <= limit /\ (file_uid file = 0 \/ file_uid file = geteuid) /\
  Z.testbit (file_mode file) 4 = false /\ Z.testbit (file_mode file) 1 = false /\
  exists kind, f_type file = Some kind /\ wrap 32 kind ∈ LOCAL_FILESYSTEMS.

Lemma land_18 mode : Z.land mode 18 = 0 <-> Z.testbit mode 4 = false /\ Z.testbit mode 1 = false.
Proof.
  split.
  - intros E. split; [pose proof (f_equal (fun z => Z.testbit z 4) E) as B|pose proof (f_equal (fun z => Z.testbit z 1) E) as B];
      cbv beta in B; rewrite Z.land_spec, Z.bits_0 in B; by apply andb_false_iff in B as [B|B].
  - intros [H4 H1]. apply Z.bits_inj'. intros n Hn. rewrite Z.land_spec, Z.bits_0.
    destruct (decide (n = 4)) as [->|]; [by rewrite H4|]. destruct (decide (n = 1)) as [->|]; [by rewrite H1|].
    destruct (Z.ltb_spec n 5).
    + assert (n = 0 \/ n = 2 \/ n = 3) as [->|[->| ->]] by lia; apply andb_false_r.
    + rewrite (Z.bits_above_log2 18 n), andb_false_r by (simpl; lia). done.
Qed.

Lemma read_held_spec opened geteuid limit data identity :
  0 <= limit ->
  read_held opened geteuid limit = Ok (data, identity) <->
  exists file, opened = Some file /\ trusted_file file geteuid limit /\ file_data file = Some data /\
    Z.of_nat (length data) <= limit /\ identity = mk_identity (file_dev file) (file_ino file).
Proof.
  intros Hlimit. unfold read_held, trusted_file. split.
  - destruct opened as [file|]; [|done]. destruct (_ || _) eqn:Hguard; [done|].
    rewrite !orb_false_iff, !negb_false_iff, andb_false_iff, !negb_false_iff, Z.ltb_ge, !Z.eqb_eq, land_18 in Hguard.
    destruct (f_type file) as [kind|] eqn:Ekind; [|done]. destruct (existsb _ _) eqn:Hkind; [|done]. simpl.
    apply existsb_exists in Hkind as (k & Hk & Hw%Z.eqb_eq).
    destruct (file_data file) as [content|] eqn:Edata; [|done].
    destruct (Z.ltb_spec limit (Z.of_nat (length (take (Z.to_nat (limit + 1)) content)))) as [|Hlen]; [done|].
    intros [= <- <-]. rewrite length_take in Hlen. rewrite take_ge by lia.
    destruct Hguard as [[[? ?] ?] [? ?]]. exists file.
    split_and!; try done; try lia. exists kind. rewrite Hw. split; [done|by apply list_elem_of_In].
  - intros (file & -> & (Hreg & Hlen & Hown & H4 & H1 & kind & Hkind & Hlocal) & Hdata & Hbound & ->).
    rewrite Hreg, Hkind, Hdata, (proj2 (land_18 _)) by done.
    assert (existsb (Z.eqb (wrap 32 kind)) LOCAL_FILESYSTEMS = true) as ->.
    { apply existsb_exists. exists (wrap 32 kind). rewrite Z.eqb_refl. by rewrite <- list_elem_of_In. }
    rewrite (proj2 (Z.ltb_ge limit (file_len file))) by lia.
    assert (negb (file_uid file =? 0) && negb (file_uid file =? geteuid) = false) as ->.
    { destruct Hown as [-> | ->]; [done|]. by rewrite Z.eqb_refl, andb_false_r. }
    simpl. rewrite take_ge by lia. by rewrite (proj2 (Z.ltb_ge _ _)).
Qed.

(** * Theorems *)

(** A journal is read exactly. The reader answers only for bounded files of one to four
    terminated lines that are the recorded phases in order, all naming one enrollment by its binding,
    volume and slot in canonical form, the second naming a bundle with its digest; it answers
    committed precisely when all four phases are there. *)
Theorem journal_committed_exact json_identity json_bundle bytes c :
  journal_committed json_identity json_bundle bytes = Some c <-> journal_of json_identity json_bundle bytes c.
Proof. apply journal_committed_spec. Qed.

(** C38: A summary counts every expected boot in exactly one of the six states, and a boot is in a
    state exactly when that state's meaning holds: success only with fresh inputs, when the latest
    observations since the request agree on success within the deadline; stale inputs and
    contradictory observations are unknown, and silence is pending or missing by the deadline. *)
Theorem boots_counted_exactly {Path} `{Countable Path} json_identity json_bundle (openat2 : Path -> option HeldFile)
    geteuid inventory observations now s :
  summarize json_identity json_bundle openat2 geteuid inventory observations now = Ok s ->
  let fi := inventory_is_fresh s in
  let fo := observations_are_fresh s in
  let boots := obs_boots observations in
  fi = fresh (inv_updated_at_ms inventory) now (valid_for_seconds inventory) /\
  fo = fresh (obs_updated_at_ms observations) now (valid_for_seconds inventory) /\
  states s = map (in_state fi fo boots now (inv_boots inventory)) (seq 0 6) /\
  foldr Z.add 0 (states s) = Z.of_nat (length (inv_boots inventory)) /\
  (forall expected st, boot_state fi fo boots now expected = st <->
                       boot_meaning (fi = true /\ fo = true) boots now expected st).
Proof.
  unfold summarize. intros Hs. destruct (_ || _); [done|]. destruct (negb _); [done|]. destruct (negb _); [done|].
  destruct (tally_enrollments _ _ _ _ _ _ _ _ _) as [t|]; [|done]. injection Hs as <-. simpl inventory_is_fresh.
  simpl observations_are_fresh. simpl Reconcile.states. rewrite count_states_spec. split_and!; try done.
  - apply in_state_total.
  - intros expected st. split; [intros <-; apply boot_state_sound|]. intros Hm.
    eapply boot_meaning_unique; [apply boot_state_sound|done].
Qed.

(** A summary counts enrollments exactly. It is produced only for inventories with distinct
    journals, distinct journal files and no enrollment from the future; every enrollment whose
    journal cannot be read or judged, or whose inventory is stale, counts as unknown, uncommitted
    ones as pending, committed ones as awaiting their boot test until it passed; and each reported
    time is the oldest of its class. *)
Theorem enrollments_counted_exactly {Path} `{Countable Path} json_identity json_bundle
    (openat2 : Path -> option HeldFile) geteuid inventory observations now s :
  summarize json_identity json_bundle openat2 geteuid inventory observations now = Ok s ->
  let fi := inventory_is_fresh s in
  admissible openat2 geteuid fi (inv_updated_at_ms inventory) now (enrollments inventory) /\
  tally_of json_identity json_bundle openat2 geteuid fi (enrollments inventory) (tally s).
Proof.
  unfold summarize. intros Hs. destruct (_ || _); [done|]. destruct (negb _); [done|]. destruct (negb _); [done|].
  pose proof (tally_spec json_identity json_bundle openat2 geteuid
    (fresh (inv_updated_at_ms inventory) now (valid_for_seconds inventory)) (inv_updated_at_ms inventory) now
    (enrollments inventory)) as Ht.
  destruct (tally_enrollments _ _ _ _ _ _ _ _ _) as [t|]; [|done]. by injection Hs as <-.
Qed.

(** * Witnesses *)

Definition demo_inventory : Inventory (Path := Z) :=
  mk_inventory 1 10000 30
    [mk_expected "critical_service" "boot_new" 1000 9000; mk_expected "database" "boot_new" 1000 9000]
    [mk_enrollment 7 5000 false; mk_enrollment 8 4000 true].
Definition demo_observations : Observations :=
  mk_observations 1 10000 [mk_observation "critical_service" "boot_new" 8000 Success].
Definition demo_summary : result Failure (Summary (Path := Z)) :=
  summarize (fun _ => None) (fun _ => None) (fun _ => None) 0 demo_inventory demo_observations 11000.
Definition summary_of (r : result Failure (Summary (Path := Z))) : Summary (Path := Z) :=
  match r with Ok s => s | Err _ => mk_summary [] false false empty_tally end.

Lemma boots_counted_exactly_witness :
  states (summary_of demo_summary) = [1; 0; 0; 1; 0; 0] /\ foldr Z.add 0 (states (summary_of demo_summary)) = 2.
Proof.
  split; [by vm_compute|].
  assert (demo_summary = Ok (summary_of demo_summary)) as E by (by vm_compute).
  destruct (boots_counted_exactly (fun _ => None) (fun _ => None) (fun _ => None) 0 demo_inventory demo_observations
    11000 (summary_of demo_summary) E) as (_ & _ & _ & Hsum & _). exact Hsum.
Defined.

Lemma enrollments_counted_exactly_witness :
  unknown (tally (summary_of demo_summary)) = 2 /\
  is_oldest [5000; 4000] (oldest_unknown (tally (summary_of demo_summary))).
Proof.
  split; [by vm_compute|].
  assert (demo_summary = Ok (summary_of demo_summary)) as E by (by vm_compute).
  destruct (enrollments_counted_exactly (fun _ => None) (fun _ => None) (fun _ => None) 0 demo_inventory
    demo_observations 11000 (summary_of demo_summary) E) as (_ & _ & _ & _ & _ & _ & _ & Hold & _). exact Hold.
Defined.
