(* ===== verification/ServiceMetrics.v ===== *)
(** The evaluation service's observations, [leelod/src/metrics.rs]: fixed label sets, saturating
    counters, timers and guards that record when they are dropped, the rate limit of events, and the
    snapshot text. Counters are atomic in the source: an operation on one counter is one update here.
    The rate limit uses two atomic accesses, which are separate steps. *)
From stdpp Require Import base list strings sorting relations.
From Stdlib Require Import ZArith Lia SpecFloat.
From S2P Require Import Prelude Float64 Text Telemetry.

Open Scope Z_scope.

(** * Labels *)

Inductive Role : Type := Frontend | WorkerRole.
Definition role_name (r : Role) : string := match r with Frontend => "frontend" | WorkerRole => "worker" end.

Module Admission.
(** The first variant is the source's admitted connection. *)
Inductive Admission : Type := WasAdmitted | Capacity | Peer | PeerCheck.
Definition ALL : list Admission := [WasAdmitted; Capacity; Peer; PeerCheck].
Definition index (a : Admission) : nat := match a with WasAdmitted => 0 | Capacity => 1 | Peer => 2 | PeerCheck => 3 end.
Definition name (a : Admission) : string :=
  match a with
  | WasAdmitted => "admitted" | Capacity => "capacity_rejected" | Peer => "peer_rejected"
  | PeerCheck => "peer_check_error"
  end.
End Admission.

Module ServiceStage.
Inductive Stage : Type := Connection | Tls | Http | Validation | Ipc | Worker | Crypto | ListenerRetry | Snapshot.
Definition ALL : list Stage := [Connection; Tls; Http; Validation; Ipc; Worker; Crypto; ListenerRetry; Snapshot].
Definition index (s : Stage) : nat :=
  match s with
  | Connection => 0 | Tls => 1 | Http => 2 | Validation => 3 | Ipc => 4 | Worker => 5 | Crypto => 6
  | ListenerRetry => 7 | Snapshot => 8
  end.
Definition name (s : Stage) : string :=
  match s with
  | Connection => "connection" | Tls => "tls" | Http => "http" | Validation => "validation" | Ipc => "ipc"
  | Worker => "worker" | Crypto => "crypto" | ListenerRetry => "listener_retry" | Snapshot => "snapshot"
  end.
#[global] Instance Stage_eq_dec : EqDecision Stage.
Proof. solve_decision. Defined.
End ServiceStage.

Module Outcome.
Inductive Outcome : Type :=
| Success | Cancelled | Timeout | Protocol | Headers | Body | Frame | WrongKey | InvalidPoint | Randomness
| Crypto | Connect | Write | Read | Refused | Eof | Io | NotFound | Method | Unavailable | Other.
Definition ALL : list Outcome :=
  [Success; Cancelled; Timeout; Protocol; Headers; Body; Frame; WrongKey; InvalidPoint; Randomness;
   Crypto; Connect; Write; Read; Refused; Eof; Io; NotFound; Method; Unavailable; Other].
Definition index (o : Outcome) : nat :=
  match o with
  | Success => 0 | Cancelled => 1 | Timeout => 2 | Protocol => 3 | Headers => 4 | Body => 5 | Frame => 6
  | WrongKey => 7 | InvalidPoint => 8 | Randomness => 9 | Crypto => 10 | Connect => 11 | Write => 12
  | Read => 13 | Refused => 14 | Eof => 15 | Io => 16 | NotFound => 17 | Method => 18 | Unavailable => 19
  | Other => 20
  end.
Definition name (o : Outcome) : string :=
  match o with
  | Success => "success" | Cancelled => "cancelled" | Timeout => "timeout" | Protocol => "protocol_error"
  | Headers => "invalid_headers" | Body => "invalid_body" | Frame => "invalid_frame" | WrongKey => "wrong_key"
  | InvalidPoint => "invalid_point" | Randomness => "randomness_failure" | Crypto => "crypto_failure"
  | Connect => "connect_error" | Write => "write_error" | Read => "read_error" | Refused => "refused"
  | Eof => "unexpected_eof" | Io => "io_error" | NotFound => "not_found" | Method => "method_not_allowed"
  | Unavailable => "unavailable" | Other => "other_error"
  end.
#[global] Instance Outcome_eq_dec : EqDecision Outcome.
Proof. solve_decision. Defined.
End Outcome.

Module AcceptClass.
Inductive AcceptClass : Type := Interrupted | Resource | Network | Other.
Definition ALL : list AcceptClass := [Interrupted; Resource; Network; Other].
Definition index (c : AcceptClass) : nat := match c with Interrupted => 0 | Resource => 1 | Network => 2 | Other => 3 end.
Definition name (c : AcceptClass) : string :=
  match c with Interrupted => "interrupted" | Resource => "resource" | Network => "network" | Other => "other" end.
End AcceptClass.

Module SnapshotOutcome.
Inductive SnapshotOutcome : Type := Served | Peer | PeerCheck | Capacity | Write | Timeout | Listener.
Definition ALL : list SnapshotOutcome := [Served; Peer; PeerCheck; Capacity; Write; Timeout; Listener].
Definition index (o : SnapshotOutcome) : nat :=
  match o with
  | Served => 0 | Peer => 1 | PeerCheck => 2 | Capacity => 3 | Write => 4 | Timeout => 5 | Listener => 6
  end.
Definition name (o : SnapshotOutcome) : string :=
  match o with
  | Served => "served" | Peer => "peer_rejected" | PeerCheck => "peer_check_error" | Capacity => "capacity_rejected"
  | Write => "write_error" | Timeout => "timeout" | Listener => "listener_error"
  end.
End SnapshotOutcome.

Definition BUCKETS_NS : list Z :=
  [1000000; 5000000; 10000000; 25000000; 50000000; 100000000; 250000000; 500000000; 1000000000; 2000000000;
   5000000000; 10000000000].
Definition BUCKET_LABELS : list string :=
  ["0.001"; "0.005"; "0.01"; "0.025"; "0.05"; "0.1"; "0.25"; "0.5"; "1"; "2"; "5"; "10"].
Definition STATUSES : list Z := [200; 400; 404; 405; 503; 0].

(** * State *)

Section Metrics.
Context {Path Socket : Type}.

Record Metrics : Type := mk_metrics {
  events : Emitter Path Socket;
  start : Z;
  event_window : Z;
  suppressed_events : Z;
  role : Role;
  limit : Z;
  admissions : list Z;
  inflight : Z;
  completions : list (list Z);
  durations : list (list Z);
  duration_sum : list Z;
  statuses : list Z;
  accept_errors : list Z;
  retrying : Z;
  snapshots : list Z;
}.

(** [Metrics::new]; the emitter comes from the environment. *)
Definition new_metrics (events : Emitter Path Socket) (now : Z) (role : Role) (limit : Z) : Metrics :=
  mk_metrics events now 0 0 role limit
    (replicate (length Admission.ALL) 0) 0
    (replicate (length ServiceStage.ALL) (replicate (length Outcome.ALL) 0))
    (replicate (length ServiceStage.ALL) (replicate (length BUCKETS_NS + 1) 0))
    (replicate (length ServiceStage.ALL) 0)
    (replicate (length STATUSES) 0) (replicate (length AcceptClass.ALL) 0) 0
    (replicate (length SnapshotOutcome.ALL) 0).

(** [add] *)
Definition add (amount counter : Z) : Z := saturating_add 64 counter amount.

(** Field updates. *)
Definition set_admissions (m : Metrics) (v : list Z) : Metrics :=
  mk_metrics (events m) (start m) (event_window m) (suppressed_events m) (role m) (limit m) v (inflight m)
    (completions m) (durations m) (duration_sum m) (statuses m) (accept_errors m) (retrying m) (snapshots m).
Definition set_inflight (m : Metrics) (v : Z) : Metrics :=
  mk_metrics (events m) (start m) (event_window m) (suppressed_events m) (role m) (limit m) (admissions m) v
    (completions m) (durations m) (duration_sum m) (statuses m) (accept_errors m) (retrying m) (snapshots m).
Definition set_stages (m : Metrics) (c d : list (list Z)) (s : list Z) : Metrics :=
  mk_metrics (events m) (start m) (event_window m) (suppressed_events m) (role m) (limit m) (admissions m)
    (inflight m) c d s (statuses m) (accept_errors m) (retrying m) (snapshots m).
Definition set_statuses (m : Metrics) (v : list Z) : Metrics :=
  mk_metrics (events m) (start m) (event_window m) (suppressed_events m) (role m) (limit m) (admissions m)
    (inflight m) (completions m) (durations m) (duration_sum m) v (accept_errors m) (retrying m) (snapshots m).
Definition set_accept_errors (m : Metrics) (v : list Z) : Metrics :=
  mk_metrics (events m) (start m) (event_window m) (suppressed_events m) (role m) (limit m) (admissions m)
    (inflight m) (completions m) (durations m) (duration_sum m) (statuses m) v (retrying m) (snapshots m).
Definition set_retrying (m : Metrics) (v : Z) : Metrics :=
  mk_metrics (events m) (start m) (event_window m) (suppressed_events m) (role m) (limit m) (admissions m)
    (inflight m) (completions m) (durations m) (duration_sum m) (statuses m) (accept_errors m) v (snapshots m).
Definition set_snapshots (m : Metrics) (v : list Z) : Metrics :=
  mk_metrics (events m) (start m) (event_window m) (suppressed_events m) (role m) (limit m) (admissions m)
    (inflight m) (completions m) (durations m) (duration_sum m) (statuses m) (accept_errors m) (retrying m) v.
Definition set_events (m : Metrics) (e : Emitter Path Socket) (window suppressed : Z) : Metrics :=
  mk_metrics e (start m) window suppressed (role m) (limit m) (admissions m)
    (inflight m) (completions m) (durations m) (duration_sum m) (statuses m) (accept_errors m) (retrying m) (snapshots m).

(** * Operations *)

Definition admission (m : Metrics) (result : Admission.Admission) : Metrics :=
  set_admissions m (alter (add 1) (Admission.index result) (admissions m)).

(** [enter] and the drop of its guard; [fetch_sub] wraps. *)
Definition enter (m : Metrics) : Metrics := set_inflight m (add 1 (inflight m)).
Definition leave (m : Metrics) : Metrics := set_inflight m (wrap 64 (inflight m - 1)).

(** [STATUSES.iter().position(..).unwrap_or(STATUSES.len() - 1)] *)
Fixpoint position (p : Z -> bool) (l : list Z) : option nat :=
  match l with
  | [] => None
  | x :: l => if p x then Some 0%nat else S <$> position p l
  end.

Definition http_status (m : Metrics) (status : Z) : Metrics :=
  let index := default (length STATUSES - 1)%nat (position (fun candidate => candidate =? status) STATUSES) in
  set_statuses m (alter (add 1) index (statuses m)).

(** What [accept] of a listener can report: the kind and the raw error number of Linux. *)
Inductive ErrorKind : Type := KindInterrupted | ConnectionAborted | ConnectionReset | WouldBlock | OtherKind.
Record IoError : Type := mk_io_error { kind : ErrorKind; raw_os_error : option Z }.

(** [MFILE | NFILE | NOBUFS | NOMEM], and the network errors. *)
Definition RESOURCE_ERRNOS : list Z := [24; 23; 105; 12].
Definition NETWORK_ERRNOS : list Z := [100; 101; 113; 112; 71; 92; 95].
Definition errno_in (errnos : list Z) (raw : option Z) : bool :=
  match raw with Some e => existsb (Z.eqb e) errnos | None => false end.

Definition accept_class (error : IoError) : AcceptClass.AcceptClass :=
  if match kind error with KindInterrupted => true | _ => false end then AcceptClass.Interrupted
  else if errno_in RESOURCE_ERRNOS (raw_os_error error) then AcceptClass.Resource
  else if match kind error with ConnectionAborted | ConnectionReset | WouldBlock => true | _ => false end
          || errno_in NETWORK_ERRNOS (raw_os_error error) then AcceptClass.Network
  else AcceptClass.Other.

Definition accept_error (m : Metrics) (error : IoError) : Metrics :=
  set_accept_errors m (alter (add 1) (AcceptClass.index (accept_class error)) (accept_errors m)).

Definition snapshot_outcome (m : Metrics) (outcome : SnapshotOutcome.SnapshotOutcome) : Metrics :=
  set_snapshots m (alter (add 1) (SnapshotOutcome.index outcome) (snapshots m)).

(** ** Timers *)

Definition bucket_of (nanoseconds : Z) : nat :=
  default (length BUCKETS_NS) (position (fun bound => nanoseconds <=? bound) BUCKETS_NS).

Definition observe (m : Metrics) (stage : ServiceStage.Stage) (outcome : Outcome.Outcome) (nanoseconds : Z) : Metrics :=
  set_stages m
    (alter (alter (add 1) (Outcome.index outcome)) (ServiceStage.index stage) (completions m))
    (alter (alter (add 1) (bucket_of nanoseconds)) (ServiceStage.index stage) (durations m))
    (alter (add nanoseconds) (ServiceStage.index stage) (duration_sum m)).

Record Timer : Type := mk_timer { timer_stage : ServiceStage.Stage; timer_start : Z; finished : bool }.

(** [Metrics::stage] *)
Definition stage (s : ServiceStage.Stage) (now : Z) : Timer := mk_timer s now false.

(** [Timer::record]: the elapsed nanoseconds, at most [u64::MAX]. *)
Definition timer_record (m : Metrics) (t : Timer) (outcome : Outcome.Outcome) (now : Z) : Metrics :=
  observe m (timer_stage t) outcome (Z.min (saturating_sub now (timer_start t)) (2 ^ 64 - 1)).

(** [Drop for Timer] *)
Definition timer_drop (m : Metrics) (t : Timer) (now : Z) : Metrics :=
  if negb (finished t) then timer_record m t Outcome.Cancelled now else m.

(** [Timer::finish] takes the timer, so it is dropped at the end. *)
Definition timer_finish (m : Metrics) (t : Timer) (outcome : Outcome.Outcome) (now now' : Z) : Metrics :=
  let m := timer_record m t outcome now in
  timer_drop m (mk_timer (timer_stage t) (timer_start t) true) now'.

(** ** Retries *)

(** [Metrics::retry]: the guard holds a timer of the listener stage. *)
Definition retry (m : Metrics) (now : Z) : Metrics * option Timer :=
  (set_retrying m 1, Some (stage ServiceStage.ListenerRetry now)).

(** [Drop for Retry], then the drop of the timer it still holds. *)
Definition retry_drop (m : Metrics) (timer : option Timer) (now : Z) : Metrics :=
  let m := set_retrying m 0 in
  match timer with Some t => timer_drop m t now | None => m end.

(** [Retry::finish]: the timer is taken out and finished, then the guard is dropped. *)
Definition retry_finish (m : Metrics) (timer : option Timer) (outcome : Outcome.Outcome) (now now' now'' : Z)
    : option Metrics :=
  match timer with
  | Some t => Some (retry_drop (timer_finish m t outcome now now') None now'')
  | None => None
  end.

(** ** Events *)

Context (json_chunks : TelemetryRecord -> option (list (list Z))).

Definition lifecycle (m : Metrics) (name stage outcome reason : string) (since_epoch : option Z)
    (send_to : Socket -> list Z -> Path -> option Z) : Metrics :=
  set_events m
    (emit json_chunks (events m) (new_event (role_name (role m)) name "serve" stage outcome reason) since_epoch send_to).1
    (event_window m) (suppressed_events m).

(** [self.start.elapsed().as_secs() / 5 + 1] *)
Definition window_at (start now : Z) : Z := saturating_sub now start / 1000000000 / 5 + 1.

(** The decision after the load of [previous]: [compare_exchange] succeeds when the window still is
    [previous]. The new window, and whether the caller may emit. *)
Definition exchange (current window previous : Z) : Z * bool :=
  if previous =? window then (current, false)
  else if current =? previous then (window, true)
  else (current, false).

(** [Metrics::event], with nothing between the load and the exchange. *)
Definition event (m : Metrics) (name stage outcome reason : string) (now : Z) (since_epoch : option Z)
    (send_to : Socket -> list Z -> Path -> option Z) : Metrics :=
  match exchange (event_window m) (window_at (start m) now) (event_window m) with
  | (window, true) => lifecycle (set_events m (events m) window (suppressed_events m)) name stage outcome reason since_epoch send_to
  | (window, false) => set_events m (events m) window (add 1 (suppressed_events m))
  end.

(** * The snapshot *)

(** [{:.9}] of an [f64]. *)
Context (display_f64_9 : f64 -> string).

Definition cell (l : list Z) (i : nat) : string := display_u64 (nth i l 0).

Definition concat_lines (l : list string) : string := foldr (fun a b => a +:+ b) EmptyString l.

Definition stage_labels (role : string) (s : ServiceStage.Stage) : string :=
  label "role" role +:+ "," +:+ label "stage" (ServiceStage.name s).

(** The cumulative bucket lines, and the count they end with. *)
Fixpoint render_buckets (role : string) (s : ServiceStage.Stage) (bounds : list string) (counts : list Z) (count : Z)
    : string * Z :=
  match bounds, counts with
  | bound :: bounds, c :: counts =>
      let count := saturating_add 64 count c in
      let '(out, total) := render_buckets role s bounds counts count in
      (sample ("leelo_server_stage_duration_seconds_bucket{" +:+ stage_labels role s +:+ "," +:+ label "le" bound +:+ "}")
         (display_u64 count) +:+ out, total)
  | _, _ => (EmptyString, count)
  end.

Definition render_stage (m : Metrics) (role : string) (s : ServiceStage.Stage) : string :=
  concat_lines (map (fun o =>
    sample ("leelo_server_stage_completions_total{" +:+ stage_labels role s +:+ "," +:+
            label "outcome" (Outcome.name o) +:+ "}")
      (cell (nth (ServiceStage.index s) (completions m) []) (Outcome.index o))) Outcome.ALL) +:+
  let '(out, count) := render_buckets role s (BUCKET_LABELS ++ ["+Inf"]) (nth (ServiceStage.index s) (durations m) []) 0 in
  out +:+
  sample ("leelo_server_stage_duration_seconds_count{" +:+ stage_labels role s +:+ "}") (display_u64 count) +:+
  sample ("leelo_server_stage_duration_seconds_sum{" +:+ stage_labels role s +:+ "}")
    (display_f64_9 (f64_div (f64_of_Z (nth (ServiceStage.index s) (duration_sum m) 0)) (f64_of_Z 1000000000))).

(** [enumerate] of [STATUSES]. *)
Definition render_statuses (m : Metrics) (role : string) : string :=
  concat_lines (imap (fun i status =>
    sample ("leelo_http_responses_total{" +:+ label "role" role +:+ "," +:+ label "status" (display_u64 status) +:+ "}")
      (cell (statuses m) i)) STATUSES).

Definition snapshot (m : Metrics) : string :=
  let role := role_name (role m) in
  sample ("leelo_telemetry_dropped_total{" +:+ label "role" role +:+ "," +:+ label "signal" "events" +:+ "}")
    (display_u64 (em_dropped (events m))) +:+
  sample ("leelo_telemetry_suppressed_total{" +:+ label "role" role +:+ "," +:+ label "signal" "events" +:+ "}")
    (display_u64 (suppressed_events m)) +:+
  concat_lines (map (fun a =>
    sample ("leelo_connections_total{" +:+ label "role" role +:+ "," +:+ label "admission" (Admission.name a) +:+ "}")
      (cell (admissions m) (Admission.index a))) Admission.ALL) +:+
  sample ("leelo_inflight{" +:+ label "role" role +:+ "}") (display_u64 (inflight m)) +:+
  sample ("leelo_concurrency_limit{" +:+ label "role" role +:+ "}") (display_u64 (limit m)) +:+
  concat_lines (map (render_stage m role) ServiceStage.ALL) +:+
  render_statuses m role +:+
  concat_lines (map (fun c =>
    sample ("leelo_accept_errors_total{" +:+ label "role" role +:+ "," +:+ label "class" (AcceptClass.name c) +:+ "}")
      (cell (accept_errors m) (AcceptClass.index c))) AcceptClass.ALL) +:+
  sample ("leelo_listener_retrying{" +:+ label "role" role +:+ "}") (display_u64 (retrying m)) +:+
  concat_lines (map (fun o =>
    sample ("leelo_snapshot_connections_total{" +:+ label "role" role +:+ "," +:+ label "outcome" (SnapshotOutcome.name o) +:+ "}")
      (cell (snapshots m) (SnapshotOutcome.index o))) SnapshotOutcome.ALL).
End Metrics.
Arguments Metrics Path Socket : clear implicits.

(** * Counters indexed by labels *)

(** An enumeration lists every value at its index. *)
Class Enumerated (A : Type) (all : list A) (index : A -> nat) : Prop :=
  enumerated : forall i a, all !! i = Some a <-> i = index a.

#[export] Instance stage_enumerated : Enumerated ServiceStage.Stage ServiceStage.ALL ServiceStage.index.
Proof.
  intros i a. split; [|intros ->; by destruct a].
  do 9 (destruct i as [|i]; [by intros [= <-]|]). done.
Qed.
#[export] Instance outcome_enumerated : Enumerated Outcome.Outcome Outcome.ALL Outcome.index.
Proof.
  intros i a. split; [|intros ->; by destruct a].
  do 21 (destruct i as [|i]; [by intros [= <-]|]). done.
Qed.

Lemma alter_enumerated {A B} `{EqDecision A} (all : list A) index `{!Enumerated A all index} (f : B -> B) (g : A -> B) x :
  alter f (index x) (map g all) = map (fun y => if bool_decide (y = x) then f (g y) else g y) all.
Proof.
  apply list_eq. intros i. change (map ?h all) with (h <$> all).
  destruct (decide (index x = i)) as [<-|Hne].
  - rewrite list_lookup_alter_eq, !list_lookup_fmap, (proj2 (enumerated _ x) eq_refl). simpl.
    by rewrite bool_decide_eq_true_2.
  - rewrite list_lookup_alter_ne, !list_lookup_fmap by done. destruct (all !! i) as [y|] eqn:E; [|done]. simpl.
    rewrite bool_decide_eq_false_2; [done|]. intros ->. apply enumerated in E. congruence.
Qed.

Lemma alter_seq {B} (f : B -> B) (g : nat -> B) n k :
  alter f k (map g (seq 0 n)) = map (fun j => if bool_decide (j = k) then f (g j) else g j) (seq 0 n).
Proof.
  apply list_eq. intros i. change (map ?h (seq 0 n)) with (h <$> seq 0 n).
  destruct (decide (k = i)) as [<-|Hne].
  - rewrite list_lookup_alter_eq, !list_lookup_fmap. destruct (seq 0 n !! k) as [j|] eqn:E; [|done]. simpl.
    apply lookup_seq in E as [-> _]. simpl. by rewrite bool_decide_eq_true_2.
  - rewrite list_lookup_alter_ne, !list_lookup_fmap by done. destruct (seq 0 n !! i) as [j|] eqn:E; [|done]. simpl.
    apply lookup_seq in E as [-> _]. simpl. by rewrite bool_decide_eq_false_2.
Qed.

Lemma position_lt p l i : position p l = Some i -> (i < length l)%nat.
Proof.
  revert i. induction l as [|x l IH]; intros i; simpl; [done|]. destruct (p x); [intros [= <-]; lia|].
  destruct (position p l) as [j|]; [|done]. intros [= <-]. specialize (IH j eq_refl). lia.
Qed.

Lemma bucket_of_range ns : (bucket_of ns <= length BUCKETS_NS)%nat.
Proof. unfold bucket_of. destruct (position _ _) as [i|] eqn:E; [|done]. apply position_lt in E. simpl in *. lia. Qed.

(** * Guards and timers *)

(** What the owner of the metrics can do: guards and timers are created, and later closed once,
    because finishing or dropping takes them. *)
Section World.
Context {Path Socket : Type}.

Record Closure : Type := mk_closure { closed_stage : ServiceStage.Stage; closed_outcome : Outcome.Outcome; closed_ns : Z }.

(** The metrics, the open guards and timers, and what was started and closed so far. *)
Record World : Type := mk_world {
  metrics : Metrics Path Socket;
  guards : nat;
  timers : list Timer;
  started : list ServiceStage.Stage;
  closed : list Closure;
}.

Inductive Action : Type :=
| Enter
| Leave
| Start (s : ServiceStage.Stage) (now : Z)
| Finish (i : nat) (outcome : Outcome.Outcome) (now now' : Z)
| Drop (i : nat) (now : Z)
| Admit (a : Admission.Admission)
| Status (status : Z)
| AcceptError (e : IoError)
| Snapshotted (o : SnapshotOutcome.SnapshotOutcome).

Definition elapsed_ns (t : Timer) (now : Z) : Z := Z.min (saturating_sub now (timer_start t)) (2 ^ 64 - 1).

(** An action on a guard or timer that does not exist cannot be written: it changes nothing. *)
Definition act (w : World) (a : Action) : World :=
  let same m := mk_world m (guards w) (timers w) (started w) (closed w) in
  match a with
  | Enter => mk_world (enter (metrics w)) (S (guards w)) (timers w) (started w) (closed w)
  | Leave => match guards w with
             | O => w
             | S n => mk_world (leave (metrics w)) n (timers w) (started w) (closed w)
             end
  | Start s now => mk_world (metrics w) (guards w) (timers w ++ [stage s now]) (started w ++ [s]) (closed w)
  | Finish i outcome now now' =>
      match timers w !! i with
      | Some t => mk_world (timer_finish (metrics w) t outcome now now') (guards w) (delete i (timers w)) (started w)
                    (closed w ++ [mk_closure (timer_stage t) outcome (elapsed_ns t now)])
      | None => w
      end
  | Drop i now =>
      match timers w !! i with
      | Some t => mk_world (timer_drop (metrics w) t now) (guards w) (delete i (timers w)) (started w)
                    (closed w ++ [mk_closure (timer_stage t) Outcome.Cancelled (elapsed_ns t now)])
      | None => w
      end
  | Admit a => same (admission (metrics w) a)
  | Status status => same (http_status (metrics w) status)
  | AcceptError e => same (accept_error (metrics w) e)
  | Snapshotted o => same (snapshot_outcome (metrics w) o)
  end.

(** Counting closures. *)
Definition closures_as (s : ServiceStage.Stage) (o : Outcome.Outcome) (l : list Closure) : Z :=
  Z.of_nat (length (List.filter (fun c => bool_decide (closed_stage c = s /\ closed_outcome c = o)) l)).
Definition closures_in (s : ServiceStage.Stage) (bucket : nat) (l : list Closure) : Z :=
  Z.of_nat (length (List.filter (fun c => bool_decide (closed_stage c = s /\ bucket_of (closed_ns c) = bucket)) l)).
Definition time_in (s : ServiceStage.Stage) (l : list Closure) : Z :=
  foldr (fun c n => if bool_decide (closed_stage c = s) then closed_ns c + n else n) 0 l.
Definition stage_count (s : ServiceStage.Stage) (l : list ServiceStage.Stage) : nat :=
  length (List.filter (fun s' => bool_decide (s' = s)) l).

(** The counters say what happened. *)
Definition accounted (w : World) : Prop :=
  inflight (metrics w) = Z.of_nat (guards w) /\
  Forall (fun t => finished t = false) (timers w) /\
  completions (metrics w) = map (fun s => map (fun o => closures_as s o (closed w)) Outcome.ALL) ServiceStage.ALL /\
  durations (metrics w) =
    map (fun s => map (fun b => closures_in s b (closed w)) (seq 0 (length BUCKETS_NS + 1))) ServiceStage.ALL /\
  duration_sum (metrics w) = map (fun s => Z.min (2 ^ 64 - 1) (time_in s (closed w))) ServiceStage.ALL /\
  (forall s, stage_count s (started w) =
             (stage_count s (map timer_stage (timers w)) + stage_count s (map closed_stage (closed w)))%nat) /\
  Forall (fun c => 0 <= closed_ns c) (closed w).

Lemma closures_as_snoc s o l c :
  closures_as s o (l ++ [c]) =
  closures_as s o l + (if bool_decide (closed_stage c = s /\ closed_outcome c = o) then 1 else 0).
Proof. unfold closures_as. rewrite List.filter_app, length_app. simpl. case_bool_decide; simpl; lia. Qed.

Lemma closures_in_snoc s b l c :
  closures_in s b (l ++ [c]) =
  closures_in s b l + (if bool_decide (closed_stage c = s /\ bucket_of (closed_ns c) = b) then 1 else 0).
Proof. unfold closures_in. rewrite List.filter_app, length_app. simpl. case_bool_decide; simpl; lia. Qed.

Lemma closures_bound s o b l :
  0 <= closures_as s o l <= Z.of_nat (length l) /\ 0 <= closures_in s b l <= Z.of_nat (length l).
Proof.
  unfold closures_as, closures_in. split; split; try lia;
    apply Nat2Z.inj_le, List.filter_length_le.
Qed.

Lemma time_in_snoc s l c :
  time_in s (l ++ [c]) = time_in s l + (if bool_decide (closed_stage c = s) then closed_ns c else 0).
Proof.
  unfold time_in. rewrite foldr_app. simpl. induction l as [|c' l IH]; simpl; [case_bool_decide; lia|].
  rewrite IH. repeat case_bool_decide; lia.
Qed.

Lemma time_in_nonneg s l : Forall (fun c => 0 <= closed_ns c) l -> 0 <= time_in s l.
Proof. induction 1; simpl; [done|]. case_bool_decide; lia. Qed.

Lemma stage_count_app s l l' : stage_count s (l ++ l') = (stage_count s l + stage_count s l')%nat.
Proof. unfold stage_count. by rewrite List.filter_app, length_app. Qed.

Lemma stage_count_delete s l i t :
  l !! i = Some t ->
  stage_count s (map timer_stage l) =
  (stage_count s (map timer_stage (delete i l)) + stage_count s [timer_stage t])%nat.
Proof.
  intros Hi. rewrite <- (take_drop_middle l i t Hi) at 1. rewrite delete_take_drop, !map_app.
  change (map timer_stage (t :: drop (S i) l)) with ([timer_stage t] ++ map timer_stage (drop (S i) l)).
  rewrite !stage_count_app. lia.
Qed.

(** ** A closure is counted once *)

Lemma add_one n : 0 <= n < 2 ^ 64 - 1 -> add 1 n = n + 1.
Proof. unfold add, saturating_add. lia. Qed.

Lemma observe_completions l c :
  Z.of_nat (length l) < 2 ^ 64 - 1 ->
  alter (alter (add 1) (Outcome.index (closed_outcome c))) (ServiceStage.index (closed_stage c))
    (map (fun s => map (fun o => closures_as s o l) Outcome.ALL) ServiceStage.ALL) =
  map (fun s => map (fun o => closures_as s o (l ++ [c])) Outcome.ALL) ServiceStage.ALL.
Proof.
  intros Hlen. rewrite (alter_enumerated ServiceStage.ALL ServiceStage.index). apply map_ext. intros s.
  rewrite (alter_enumerated Outcome.ALL Outcome.index). case_bool_decide as Hs; apply map_ext; intros o; rewrite closures_as_snoc.
  - subst s. destruct (closures_bound (closed_stage c) o 0 l) as [? _].
    case_bool_decide as Ho; [subst o; rewrite bool_decide_eq_true_2 by done; apply add_one; lia|].
    rewrite bool_decide_eq_false_2 by naive_solver. lia.
  - rewrite bool_decide_eq_false_2 by naive_solver. lia.
Qed.

Lemma observe_durations l c :
  Z.of_nat (length l) < 2 ^ 64 - 1 ->
  alter (alter (add 1) (bucket_of (closed_ns c))) (ServiceStage.index (closed_stage c))
    (map (fun s => map (fun b => closures_in s b l) (seq 0 (length BUCKETS_NS + 1))) ServiceStage.ALL) =
  map (fun s => map (fun b => closures_in s b (l ++ [c])) (seq 0 (length BUCKETS_NS + 1))) ServiceStage.ALL.
Proof.
  intros Hlen. rewrite (alter_enumerated ServiceStage.ALL ServiceStage.index). apply map_ext. intros s.
  rewrite alter_seq. case_bool_decide as Hs; apply map_ext; intros b; rewrite closures_in_snoc.
  - subst s. destruct (closures_bound (closed_stage c) Outcome.Success b l) as [_ ?].
    case_bool_decide as Hb; [subst b; rewrite bool_decide_eq_true_2 by done; apply add_one; lia|].
    rewrite bool_decide_eq_false_2 by naive_solver. lia.
  - rewrite bool_decide_eq_false_2 by naive_solver. lia.
Qed.

Lemma observe_sums l c :
  Forall (fun c => 0 <= closed_ns c) l -> 0 <= closed_ns c ->
  alter (add (closed_ns c)) (ServiceStage.index (closed_stage c))
    (map (fun s => Z.min (2 ^ 64 - 1) (time_in s l)) ServiceStage.ALL) =
  map (fun s => Z.min (2 ^ 64 - 1) (time_in s (l ++ [c]))) ServiceStage.ALL.
Proof.
  intros Hall Hc. rewrite (alter_enumerated ServiceStage.ALL ServiceStage.index). apply map_ext. intros s. rewrite time_in_snoc.
  pose proof (time_in_nonneg s l Hall). unfold add, saturating_add.
  destruct (decide (s = closed_stage c)) as [->|Hne].
  - rewrite !bool_decide_eq_true_2 by done. lia.
  - rewrite !bool_decide_eq_false_2 by congruence. lia.
Qed.

(** Closing timer [i], by finishing or dropping it. *)
Lemma accounted_close w i t outcome now m :
  accounted w -> Z.of_nat (length (closed w)) < 2 ^ 64 - 1 -> timers w !! i = Some t ->
  m = observe (metrics w) (timer_stage t) outcome (elapsed_ns t now) ->
  accounted (mk_world m (guards w) (delete i (timers w)) (started w)
    (closed w ++ [mk_closure (timer_stage t) outcome (elapsed_ns t now)])).
Proof.
  intros (A1 & A2 & A3 & A4 & A5 & A6 & A7) Hlen Ht ->. set (c := mk_closure _ _ _).
  assert (0 <= closed_ns c) as Hc by (simpl; unfold elapsed_ns, saturating_sub; lia).
  split_and!; simpl.
  - done.
  - rewrite delete_take_drop. apply Forall_app. split; [by apply Forall_take|by apply Forall_drop].
  - rewrite A3. by apply (observe_completions (closed w) c).
  - rewrite A4. by apply (observe_durations (closed w) c).
  - rewrite A5. by apply (observe_sums (closed w) c).
  - intros s. rewrite A6, (stage_count_delete s _ _ _ Ht), map_app, stage_count_app. simpl map. lia.
  - apply Forall_app. split; [done|]. by constructor.
Qed.

Lemma accounted_act w a :
  accounted w -> Z.of_nat (length (closed w)) < 2 ^ 64 - 1 -> Z.of_nat (guards w) < 2 ^ 64 - 1 -> accounted (act w a).
Proof.
  intros Hw Hlen Hg. pose proof Hw as (A1 & A2 & A3 & A4 & A5 & A6 & A7).
  destruct a as [| |s now|i o now now'|i now| | | |]; simpl.
  - split_and!; try done. simpl. rewrite A1, add_one by lia. lia.
  - destruct (guards w) as [|n] eqn:E; [done|]. split_and!; try done. simpl. rewrite A1, wrap_id by (unfold uint; lia). lia.
  - split_and!; try done; simpl.
    + apply Forall_app. split; [done|by constructor].
    + intros s'. rewrite map_app, !stage_count_app, A6. simpl map. lia.
  - destruct (timers w !! i) as [t|] eqn:Ht; [|done]. by eapply accounted_close.
  - destruct (timers w !! i) as [t|] eqn:Ht; [|done]. eapply accounted_close; [done..|].
    unfold timer_drop. rewrite Forall_lookup in A2. by rewrite (A2 i t Ht).
  - by split_and!.
  - by split_and!.
  - by split_and!.
  - by split_and!.
Qed.

Lemma act_sizes w a :
  (length (closed (act w a)) <= S (length (closed w)))%nat /\ (guards (act w a) <= S (guards w))%nat.
Proof. destruct a; simpl; repeat case_match; simpl; rewrite ?length_app; simpl; lia. Qed.

Lemma accounted_run actions w :
  accounted w -> Z.of_nat (length (closed w) + length actions) < 2 ^ 64 ->
  Z.of_nat (guards w + length actions) < 2 ^ 64 -> accounted (fold_left act actions w).
Proof.
  revert w. induction actions as [|a actions IH]; intros w Hw Hlen Hg; simpl in *; [done|].
  destruct (act_sizes w a). apply IH; [apply accounted_act; lia || done|lia..].
Qed.

Definition new_world (m : Metrics Path Socket) : World := mk_world m 0 [] [] [].

Lemma accounted_new e now r limit : accounted (new_world (new_metrics e now r limit)).
Proof. by split_and!. Qed.

(** The cells of a stage add up to its closures. *)
Lemma foldr_add_split {A} (f g : A -> Z) l :
  foldr Z.add 0 (map (fun a => f a + g a) l) = foldr Z.add 0 (map f l) + foldr Z.add 0 (map g l).
Proof. induction l as [|a l IH]; simpl; lia. Qed.

Lemma foldr_add_indicator {A} `{EqDecision A} (l : list A) x :
  NoDup l -> x ∈ l -> foldr Z.add 0 (map (fun a => if bool_decide (x = a) then 1 else 0) l) = 1.
Proof.
  intros Hnd Hx. induction Hnd as [|a l Ha Hnd IH]; [by apply not_elem_of_nil in Hx|]. simpl.
  case_bool_decide as E; [subst a|apply elem_of_cons in Hx as [->|Hx]; [done|by rewrite IH]].
  enough (foldr Z.add 0 (map (fun a => if bool_decide (x = a) then 1 else 0) l) = 0) by lia.
  clear Hx IH Hnd. induction l as [|b l IH]; simpl; [done|]. apply not_elem_of_cons in Ha as [Hb Ha].
  rewrite bool_decide_eq_false_2 by done. rewrite IH by done. lia.
Qed.

Lemma row_step {A} `{EqDecision A} (l : list A) (f : A -> Z) (same : bool) x :
  NoDup l -> x ∈ l ->
  foldr Z.add 0 (map (fun a => f a + (if bool_decide (same = true /\ x = a) then 1 else 0)) l) =
  foldr Z.add 0 (map f l) + (if same then 1 else 0).
Proof.
  intros Hnd Hx. rewrite foldr_add_split. f_equal. destruct same.
  - transitivity (foldr Z.add 0 (map (fun a => if bool_decide (x = a) then 1 else 0) l));
      [|by apply foldr_add_indicator]. f_equal. apply map_ext. intros a.
    by rewrite (bool_decide_ext (true = true /\ x = a) (x = a)) by tauto.
  - rewrite (map_ext _ (fun _ => 0)); [|intros a; by rewrite bool_decide_eq_false_2 by (by intros [])].
    clear. by induction l as [|a l IH]; simpl.
Qed.

Lemma row_total s l :
  foldr Z.add 0 (map (fun o => closures_as s o l) Outcome.ALL) = Z.of_nat (stage_count s (map closed_stage l)) /\
  foldr Z.add 0 (map (fun b => closures_in s b l) (seq 0 (length BUCKETS_NS + 1))) =
    Z.of_nat (stage_count s (map closed_stage l)).
Proof.
  induction l as [|c l [IH1 IH2]] using rev_ind; [done|]. rewrite map_app, stage_count_app, Nat2Z.inj_add.
  rewrite <- IH1 at 1. rewrite <- IH2.
  assert (Z.of_nat (stage_count s (map closed_stage [c])) = if bool_decide (closed_stage c = s) then 1 else 0) as ->.
  { unfold stage_count. simpl. by case_bool_decide. }
  split.
  - rewrite <- (row_step Outcome.ALL (fun o => closures_as s o l) _ (closed_outcome c)).
    + f_equal. apply map_ext. intros o. rewrite closures_as_snoc. f_equal.
      by rewrite <- (bool_decide_ext _ _ (and_iff_compat_r _ (bool_decide_eq_true _))).
    + apply (bool_decide_unpack _). by vm_compute.
    + apply list_elem_of_lookup. exists (Outcome.index (closed_outcome c)). by apply enumerated.
  - rewrite <- (row_step (seq 0 (length BUCKETS_NS + 1)) (fun b => closures_in s b l) _ (bucket_of (closed_ns c))).
    + f_equal. apply map_ext. intros b. rewrite closures_in_snoc. f_equal.
      by rewrite <- (bool_decide_ext _ _ (and_iff_compat_r _ (bool_decide_eq_true _))).
    + apply NoDup_seq.
    + apply elem_of_seq. pose proof (bucket_of_range (closed_ns c)). lia.
Qed.
End World.

(** * The event rate limit *)

(** Calls one after the other at times [times]: the windows in which an event went out, in order. *)
Fixpoint emitted_windows (start current : Z) (times : list Z) : list Z :=
  match times with
  | [] => []
  | now :: times =>
      match exchange current (window_at start now) current with
      | (current', true) => window_at start now :: emitted_windows start current' times
      | (current', false) => emitted_windows start current' times
      end
  end.

Lemma window_mono start a b : a <= b -> window_at start a <= window_at start b.
Proof.
  intros. unfold window_at, saturating_sub.
  assert (Z.max 0 (a - start) / 1000000000 <= Z.max 0 (b - start) / 1000000000) by (apply Z.div_le_mono; lia).
  pose proof (Z.div_le_mono (Z.max 0 (a - start) / 1000000000) (Z.max 0 (b - start) / 1000000000) 5). lia.
Qed.

Lemma window_pos start now : 0 < window_at start now.
Proof.
  unfold window_at, saturating_sub. pose proof (Z.div_pos (Z.max 0 (now - start)) 1000000000).
  pose proof (Z.div_pos (Z.max 0 (now - start) / 1000000000) 5). lia.
Qed.

Lemma exchange_uninterrupted current window :
  exchange current window current = if current =? window then (current, false) else (window, true).
Proof. unfold exchange. by rewrite Z.eqb_refl. Qed.

(** With a clock that does not go back, emitted windows increase, start above the last one, and are
    the windows of the calls. *)
Lemma emitted_windows_spec start times current :
  Sorted Z.le times -> (forall now, now ∈ times -> current <= window_at start now) ->
  Sorted Z.lt (emitted_windows start current times) /\
  (forall w, w ∈ emitted_windows start current times <->
             current < w /\ exists now, now ∈ times /\ window_at start now = w).
Proof.
  revert current. induction times as [|now times IH]; intros current Hsorted Hcur; simpl.
  { split; [constructor|]. intros w. split; [by intros ?%not_elem_of_nil|]. by intros (_ & ? & ?%not_elem_of_nil & _). }
  assert (forall t, t ∈ times -> window_at start now <= window_at start t) as Hlater.
  { intros t Ht. apply window_mono. apply Sorted_StronglySorted in Hsorted; [|intros ? ? ?; lia].
    apply StronglySorted_inv in Hsorted as [_ Hall]. rewrite List.Forall_forall in Hall.
    by apply Hall, list_elem_of_In. }
  apply Sorted_inv in Hsorted as [Hsorted _]. rewrite exchange_uninterrupted.
  pose proof (Hcur now ltac:(left)) as Hnow. destruct (Z.eqb_spec current (window_at start now)) as [E|E].
  - destruct (IH current Hsorted) as [I1 I2]; [by rewrite E|]. split; [done|]. intros w. rewrite I2.
    split; intros (Hw & t & Ht & Hwt); (split; [done|]); exists t; (split; [|done]); [by right|].
    apply elem_of_cons in Ht as [->|?]; [lia|done].
  - destruct (IH (window_at start now) Hsorted Hlater) as [I1 I2]. split.
    + constructor; [done|]. destruct (emitted_windows start (window_at start now) times) as [|w ws] eqn:Ew; constructor.
      apply (I2 w). left.
    + intros w. rewrite elem_of_cons, I2. split.
      * intros [->|(Hw & t & Ht & Hwt)]; [split; [lia|exists now; by split; [left|]]|].
        split; [lia|]. exists t. by split; [right|].
      * intros (Hw & t & [->|Ht]%elem_of_cons & Hwt); [by left|].
        destruct (decide (w = window_at start now)) as [|Hne]; [by left|right].
        split; [pose proof (Hlater t Ht); lia|by exists t].
Qed.

(** ** Concurrent calls *)

(** A call reads the clock, then loads the window, then exchanges it: three steps between which other
    calls run. *)
Inductive Caller : Type :=
| Timed (window : Z)
| Loaded (window previous : Z)
| Done (window : Z) (emitted : bool).

Record Race : Type := mk_race { clock : Z; current : Z; callers : list Caller; log : list Z }.

Inductive race_step (start : Z) : Race -> Race -> Prop :=
| step_tick r later :
    clock r <= later -> race_step start r (mk_race later (current r) (callers r) (log r))
| step_call r :
    race_step start r (mk_race (clock r) (current r) (callers r ++ [Timed (window_at start (clock r))]) (log r))
| step_load r i window :
    callers r !! i = Some (Timed window) ->
    race_step start r (mk_race (clock r) (current r) (<[i := Loaded window (current r)]> (callers r)) (log r))
| step_exchange r i window previous next emitted :
    callers r !! i = Some (Loaded window previous) -> exchange (current r) window previous = (next, emitted) ->
    race_step start r
      (mk_race (clock r) next (<[i := Done window emitted]> (callers r))
         (if emitted then log r ++ [window] else log r)).

Definition initial_race (start : Z) : Race := mk_race start 0 [] [].

(** No two neighbours are equal. *)
Fixpoint changing (previous : Z) (l : list Z) : Prop :=
  match l with
  | [] => True
  | w :: l => w <> previous /\ changing w l
  end.

Lemma changing_snoc p l w : changing p l -> w <> default p (last l) -> changing p (l ++ [w]).
Proof.
  revert p. induction l as [|x l IH]; intros p Hl Hw; simpl in *; [done|]. destruct Hl as [Hx Hl]. split; [done|].
  apply IH; [done|]. destruct l; [done|]. simpl in *. destruct (last (z :: l)) eqn:E; [done|].
  by apply last_None in E.
Qed.

(** In every interleaving the stored window is the last one emitted, and it changes with every event. *)
Definition race_ok (r : Race) : Prop := current r = default 0 (last (log r)) /\ changing 0 (log r).

Lemma race_ok_step start r r' : race_step start r r' -> race_ok r -> race_ok r'.
Proof.
  intros Hs [Hc Hl]. destruct Hs as [r later _|r|r i window _|r i window previous next emitted _ He]; try done.
  unfold exchange in He. destruct (Z.eqb_spec previous window) as [->|Hne]; [by injection He as <- <-|].
  destruct (Z.eqb_spec (current r) previous) as [E|E]; injection He as <- <-; [|done].
  split; simpl; [by rewrite last_snoc|]. apply changing_snoc; [done|]. rewrite <- Hc. congruence.
Qed.

Lemma race_ok_reachable start r : rtc (race_step start) (initial_race start) r -> race_ok r.
Proof.
  intros Hr. assert (race_ok (initial_race start)) as H0 by by split.
  induction Hr as [|r1 r2 r3 Hs _ IH]; [done|]. by apply IH, (race_ok_step start r1).
Qed.

(** A call that read the clock in one window and exchanges in the next lets a second event of the
    later window out: the limit is not one event per window when calls overlap. *)
Lemma event_window_race start :
  exists r, rtc (race_step start) (initial_race start) r /\ log r = [2; 1; 2].
Proof.
  assert (window_at start start = 1) as W1 by (unfold window_at, saturating_sub; by rewrite Z.sub_diag).
  assert (window_at start (start + 5000000000) = 2) as W2
    by (unfold window_at, saturating_sub; by replace (start + 5000000000 - start) with 5000000000 by lia).
  exists (mk_race (start + 5000000000) 2 [Done 1 true; Done 2 true; Done 2 true] [2; 1; 2]). split; [|done].
  eapply rtc_l; [apply step_call|]. simpl. rewrite W1.
  eapply rtc_l; [apply (step_tick start _ (start + 5000000000)); simpl; lia|].
  eapply rtc_l; [apply step_call|]. simpl. rewrite W2.
  eapply rtc_l; [by apply (step_load start _ 1 2)|]. eapply rtc_l; [by apply (step_exchange start _ 1 2 0 2 true)|].
  eapply rtc_l; [by apply (step_load start _ 0 1)|]. eapply rtc_l; [by apply (step_exchange start _ 0 1 2 1 true)|].
  eapply rtc_l; [apply step_call|]. simpl. rewrite W2.
  eapply rtc_l; [by apply (step_load start _ 2 2)|]. eapply rtc_l; [by apply (step_exchange start _ 2 2 1 2 true)|].
  apply rtc_refl.
Qed.

(** * Theorems *)

(** Guards and timers are counted exactly, in every sequence of fewer than [2 ^ 64] actions. The
    in-flight gauge is the number of open guards; every timer that was started is open or was
    recorded once, under its own stage, with the outcome it was finished with or as cancelled when it
    was dropped; and for each stage the outcome cells, and the duration buckets, add up to the number
    of recorded timers. *)
Theorem service_accounting {Path Socket} (e : Emitter Path Socket) now r limit actions :
  Z.of_nat (length actions) < 2 ^ 64 ->
  let w := fold_left act actions (new_world (new_metrics e now r limit)) in
  accounted w /\
  forall s i row, i = ServiceStage.index s ->
    (completions (metrics w) !! i = Some row \/ durations (metrics w) !! i = Some row) ->
    foldr Z.add 0 row = Z.of_nat (stage_count s (map closed_stage (closed w))).
Proof.
  intros Hlen w. assert (accounted w) as Hw by (apply accounted_run; [apply accounted_new|simpl; lia..]).
  split; [done|]. intros s i row -> Hrow. destruct Hw as (_ & _ & A3 & A4 & _). rewrite A3, A4 in Hrow.
  change (map ?f ServiceStage.ALL) with (f <$> ServiceStage.ALL) in Hrow.
  rewrite !list_lookup_fmap, (proj2 (enumerated _ s) eq_refl) in Hrow. simpl in Hrow.
  destruct (row_total s (closed w)). destruct Hrow as [Hrow|Hrow]; injection Hrow as <-; done.
Qed.

(** C39: Calls that do not overlap share one event per five-second window: whatever the times of the
    calls, as long as the clock does not go back, the windows of the emitted events strictly
    increase, and exactly the windows in which there was a call have an event. In every interleaving
    of overlapping calls, no two consecutive events are of the same window; but a window can have more
    than one, as the interleaving that emits for the windows 2, 1 and 2 shows. *)
Theorem event_rate_limited start times r :
  Sorted Z.le times -> rtc (race_step start) (initial_race start) r ->
  Sorted Z.lt (emitted_windows start 0 times) /\
  (forall w, w ∈ emitted_windows start 0 times <-> exists now, now ∈ times /\ window_at start now = w) /\
  changing 0 (log r) /\
  (exists r', rtc (race_step start) (initial_race start) r' /\ log r' = [2; 1; 2]).
Proof.
  intros Hsorted Hr. destruct (emitted_windows_spec start times 0 Hsorted) as [H1 H2].
  { intros now _. pose proof (window_pos start now). lia. }
  split_and!; [done| |by apply race_ok_reachable in Hr as [_ ?]|apply event_window_race].
  intros w. rewrite H2. split; [by intros [_ ?]|]. intros (now & Hn & Hw). split; [|by exists now].
  pose proof (window_pos start now). lia.
Qed.

(** * Witnesses *)

Definition demo_metrics : Metrics unit unit := new_metrics demo_emitter 0 Frontend 64.
Definition demo_actions : list Action :=
  [Enter; Start ServiceStage.Http 0; Start ServiceStage.Crypto 5; Finish 1 Outcome.Success 2000000 2000001;
   Status 200; Drop 0 7000000; Leave; Enter].

Lemma service_accounting_witness :
  inflight (metrics (fold_left act demo_actions (new_world demo_metrics))) = 1.
Proof.
  assert (Z.of_nat (length demo_actions) < 2 ^ 64) as H by (by vm_compute).
  destruct (service_accounting demo_emitter 0 Frontend 64 demo_actions H) as [[E _] _]. exact E.
Defined.

Lemma event_rate_limited_witness : Sorted Z.lt (emitted_windows 0 0 [0; 4000000000; 5000000000; 11000000000]).
Proof.
  assert (Sorted Z.le [0; 4000000000; 5000000000; 11000000000]) as H by (repeat constructor; lia).
  exact (proj1 (event_rate_limited 0 [0; 4000000000; 5000000000; 11000000000] _ H (rtc_refl _ (initial_race 0)))).
Defined.
