(* ===== verification/Service.v ===== *)
(** What the processes of the evaluation service share: the world a task runs in, timers that are
    recorded when a task is cut off, byte streams, the semaphore of a listener, and the readiness and
    accept operations of [leelod/src/service.rs]. *)
From stdpp Require Import base list strings.
From Stdlib Require Import ZArith Lia.
From S2P Require Import Prelude Policy Float64 Text Telemetry ServiceMetrics.

Open Scope Z_scope.

(** * The world of a service *)

(** What the operating system and the JSON library answer. Answers may change: each is indexed by the
    number of questions asked before. *)
Class Kernel (Path Socket : Type) : Type := {
  instant : nat -> Z;
  unix_clock : nat -> option Z;
  send_datagram : nat -> Socket -> list Z -> Path -> option Z;
  service_json : TelemetryRecord -> option (list (list Z));
}.

(** The counters, the questions asked so far, the randomness left and the delays slept. *)
Record Node (Path Socket R : Type) : Type := mk_node {
  node_metrics : Metrics Path Socket;
  node_calls : nat;
  node_entropy : R;
  node_slept : list Z;
}.
Arguments mk_node {Path Socket R}.
Arguments node_metrics {Path Socket R}.
Arguments node_calls {Path Socket R}.
Arguments node_entropy {Path Socket R}.
Arguments node_slept {Path Socket R}.

(** The bytes a task has put on its connection, and the number of operations on it. *)
Record Stream : Type := mk_stream { stream_sent : list Z; stream_writes : nat }.
Definition fresh_stream : Stream := mk_stream [] 0.

Record Work (Path Socket R : Type) : Type := mk_work { work_node : Node Path Socket R; work_stream : Stream }.
Arguments mk_work {Path Socket R}.
Arguments work_node {Path Socket R}.
Arguments work_stream {Path Socket R}.

(** An asynchronous operation: a result, or nothing when it is dropped at an await. *)
Definition task (Path Socket R E A : Type) : Type :=
  Work Path Socket R -> option (result E A) * Work Path Socket R.

#[export] Instance task_ret {P S R E} : MRet (task P S R E) := fun A a w => (Some (Ok a), w).
#[export] Instance task_bind {P S R E} : MBind (task P S R E) := fun A B f m w =>
  match m w with
  | (Some (Ok a), w') => f a w'
  | (Some (Err e), w') => (Some (Err e), w')
  | (None, w') => (None, w')
  end.

Section Node.
Context {Path Socket R : Type} `{Kernel Path Socket}.
Abbreviation node := (Node Path Socket R).

Definition on_metrics (f : Metrics Path Socket -> Metrics Path Socket) (n : node) : node :=
  mk_node (f (node_metrics n)) (node_calls n) (node_entropy n) (node_slept n).

(** [Instant::now] *)
Definition read_clock (n : node) : Z * node :=
  (instant (node_calls n), mk_node (node_metrics n) (S (node_calls n)) (node_entropy n) (node_slept n)).

(** [metrics.stage(s)] *)
Definition start_timer (s : ServiceStage.Stage) (n : node) : Timer * node :=
  let '(now, n) := read_clock n in (stage s now, n).

(** [timer.finish(outcome)], and the drop of a timer. *)
Definition finish_timer (t : Timer) (outcome : Outcome.Outcome) (n : node) : node :=
  let '(now, n) := read_clock n in
  let '(now', n) := read_clock n in
  on_metrics (fun m => timer_finish m t outcome now now') n.

Definition drop_timer (t : Timer) (n : node) : node :=
  let '(now, n) := read_clock n in on_metrics (fun m => timer_drop m t now) n.

(** [metrics.event(..)] and [metrics.lifecycle(..)] *)
Definition emit_event (name stage outcome reason : string) (n : node) : node :=
  let '(now, n) := read_clock n in
  on_metrics (fun m => event service_json m name stage outcome reason now (unix_clock (node_calls n))
                         (send_datagram (node_calls n))) n.

Definition emit_lifecycle (name stage outcome reason : string) (n : node) : node :=
  let '(_, n) := read_clock n in
  on_metrics (fun m => lifecycle service_json m name stage outcome reason (unix_clock (node_calls n))
                         (send_datagram (node_calls n))) n.

(** [tokio::time::sleep(delay)] *)
Definition sleep (delay : Z) (n : node) : node :=
  mk_node (node_metrics n) (node_calls n) (node_entropy n) (node_slept n ++ [delay]).

(** ** Tasks *)

(** A step that neither fails nor awaits. *)
Definition now_do {E A} (f : node -> A * node) : task Path Socket R E A := fun w =>
  let '(a, n) := f (work_node w) in (Some (Ok a), mk_work n (work_stream w)).

Definition then_do {E} (f : node -> node) : task Path Socket R E unit := now_do (fun n => (tt, f n)).

(** A scope that owns a timer: an early return and a cut both drop it. *)
Definition owning {E A} (t : Timer) (m : task Path Socket R E A) : task Path Socket R E A := fun w =>
  match m w with
  | (Some (Ok a), w') => (Some (Ok a), w')
  | (r, w') => (r, mk_work (drop_timer t (work_node w')) (work_stream w'))
  end.

(** ** Connections *)

(** How what the peer sends ends: with an end of file, an error, or not before the deadline. *)
Inductive Ending : Type := AtEof | Broken | Stalled.

(** What the socket does with a write: takes it all, or a prefix and then fails or stalls. *)
Inductive WriteAnswer : Type := WroteAll | WrotePrefix (n : nat) (stalled : bool).

Record Conn : Type := mk_conn {
  peer_uid : option Z;
  incoming : list Z;
  ending : Ending;
  write_answers : nat -> WriteAnswer;
}.

(** [stream.take(limit).read_to_end(..)] *)
Definition read_to_end {E} (conn : Conn) (limit : nat) (e : E) : task Path Socket R E (list Z) := fun w =>
  if (limit <=? length (incoming conn))%nat then (Some (Ok (take limit (incoming conn))), w)
  else match ending conn with
       | AtEof => (Some (Ok (incoming conn)), w)
       | Broken => (Some (Err e), w)
       | Stalled => (None, w)
       end.

(** [stream.write_all(bytes)]; [stream.shutdown()] puts nothing on the stream. *)
Definition write_all {E} (conn : Conn) (bytes : list Z) (e : E) : task Path Socket R E unit := fun w =>
  let s := work_stream w in
  match write_answers conn (stream_writes s) with
  | WroteAll => (Some (Ok tt), mk_work (work_node w) (mk_stream (stream_sent s ++ bytes) (S (stream_writes s))))
  | WrotePrefix n stalled =>
      (if stalled then None else Some (Err e),
       mk_work (work_node w) (mk_stream (stream_sent s ++ take n bytes) (S (stream_writes s))))
  end.

Definition shutdown {E} (conn : Conn) (e : E) : task Path Socket R E unit := write_all conn [] e.
End Node.

(** * Permits *)

(** A [Semaphore] and the tasks that own a permit. *)
Record Pool (A : Type) : Type := mk_pool { permits : nat; running : list A }.
Arguments mk_pool {A}.
Arguments permits {A}.
Arguments running {A}.

Definition new_pool {A} (limit : nat) : Pool A := mk_pool limit [].

(** [try_acquire_owned], and the task that takes the permit. *)
Definition try_acquire {A} (p : Pool A) (a : A) : option (Pool A) :=
  match permits p with
  | O => None
  | S n => Some (mk_pool n (running p ++ [a]))
  end.

(** A task ends and its permit is dropped. *)
Definition release {A} (p : Pool A) (i : nat) : Pool A := mk_pool (S (permits p)) (delete i (running p)).

Definition pool_of {A} (limit : nat) (p : Pool A) : Prop := (permits p + length (running p))%nat = limit.

Lemma try_acquire_pool {A} limit (p p' : Pool A) a :
  pool_of limit p -> try_acquire p a = Some p' -> pool_of limit p' /\ running p' = running p ++ [a].
Proof.
  unfold pool_of, try_acquire. destruct (permits p) as [|n] eqn:E; [done|]. intros Hp [= <-].
  cbn [permits running]. rewrite length_app. simpl. split; [lia|done].
Qed.

Lemma try_acquire_full {A} limit (p : Pool A) a :
  pool_of limit p -> try_acquire p a = None <-> length (running p) = limit.
Proof. unfold pool_of, try_acquire. destruct (permits p); intros; split; (done || lia). Qed.

Lemma release_pool {A} limit (p : Pool A) i a :
  pool_of limit p -> running p !! i = Some a -> pool_of limit (release p i).
Proof.
  unfold pool_of, release. cbn [permits running]. intros Hp Hi. rewrite length_delete by done.
  apply lookup_lt_Some in Hi. lia.
Qed.

(** * [service.rs] *)

Definition FIRST_RETRY : Z := 50 * 1000000.
Definition MAX_RETRY : Z := 1000 * 1000000.

(** The address of the service manager's socket. *)
Inductive NotifyAddress : Type := AbstractName (name : list Z) | FilePath (path : list Z).

(** [notify_ready]: where the message goes, or nothing for a relative path. *)
Definition notify_address (path : list Z) : option NotifyAddress :=
  if bool_decide (head path = Some 64) then Some (AbstractName (drop 1 path))
  else if bool_decide (head path = Some 47) then Some (FilePath path)
  else None.

Definition READY : list Z := bytes_of_string "READY=1".

(** [socket]: whether a datagram socket was made; [send]: whether the message went out. *)
Definition notify_ready (socket : bool) (send : NotifyAddress -> list Z -> bool) (path : list Z) : bool :=
  socket && match notify_address path with
            | Some address => send address READY
            | None => false
            end.

(** [ready]: the environment variable may be absent. *)
Definition ready (variable : option (list Z)) (socket : bool) (send : NotifyAddress -> list Z -> bool) : bool :=
  match variable with
  | Some path => notify_ready socket send path
  | None => true
  end.

Definition temporary (error : IoError) : bool :=
  match kind error with
  | KindInterrupted | ConnectionAborted | ConnectionReset | WouldBlock => true
  | OtherKind =>
      match raw_os_error error with
      | None => false
      | Some number => existsb (Z.eqb number) (RESOURCE_ERRNOS ++ NETWORK_ERRNOS)
      end
  end.

Section Accept.
Context {Path Socket R A : Type} `{Kernel Path Socket}.
Abbreviation node := (Node Path Socket R).
Context (operation : nat -> result IoError A).

(** [metrics.retry()] and [retry.finish(outcome)]; the guard holds its timer. *)
Definition begin_retry (n : node) : option Timer * node :=
  let '(now, n) := read_clock n in
  let '(m, guard) := retry (node_metrics n) now in
  (guard, on_metrics (fun _ => m) n).

Definition finish_retry (guard : option Timer) (outcome : Outcome.Outcome) (n : node) : option node :=
  let '(now, n) := read_clock n in
  let '(now', n) := read_clock n in
  let '(now'', n) := read_clock n in
  m ← retry_finish (node_metrics n) guard outcome now now' now'';
  Some (on_metrics (fun _ => m) n).

(** The loop of [accept_observed] from one attempt on; [None] when [fuel] attempts were not enough. *)
Fixpoint accept_loop (fuel attempt : nat) (delay : Z) (retrying : option (option Timer)) (n : node)
    : option (result (fault IoError) A * node) :=
  match fuel with
  | O => None
  | S fuel =>
      match operation attempt with
      | Ok connection =>
          match retrying with
          | Some guard =>
              Some (match finish_retry guard Outcome.Success n with
                    | Some n => (Ok connection, emit_event "listener_recovered" "listener" "success" "none" n)
                    | None => (Err Panic, n)
                    end)
          | None => Some (Ok connection, n)
          end
      | Err error =>
          let n := on_metrics (fun m => accept_error m error) n in
          if temporary error then
            let '(guard, n) :=
              match retrying with
              | None => begin_retry (emit_event "listener_impaired" "listener" "failure" "temporary_accept" n)
              | Some guard => (guard, n)
              end in
            accept_loop fuel (S attempt) (Z.min (delay * 2) MAX_RETRY) (Some guard) (sleep delay n)
          else
            Some (match (match retrying with Some guard => finish_retry guard Outcome.Io n | None => Some n end) with
                  | Some n => (Err (Fault error), emit_event "listener_failed" "listener" "failure" "fatal_accept" n)
                  | None => (Err Panic, n)
                  end)
      end
  end.

Definition accept_observed (fuel : nat) (n : node) : option (result (fault IoError) A * node) :=
  accept_loop fuel 0 FIRST_RETRY None n.
End Accept.

(** * Counters that events leave alone *)

Section Counters.
Context {Path Socket R : Type} `{Kernel Path Socket}.
Abbreviation node := (Node Path Socket R).

(** What admission and connection handling count. *)
Definition gauges (m : Metrics Path Socket) : list Z * Z * list Z * list Z * Z :=
  (admissions m, inflight m, accept_errors m, snapshots m, retrying m).

Definition stage_cells (m : Metrics Path Socket) : list (list Z) * list (list Z) * list Z :=
  (completions m, durations m, duration_sum m).

Lemma event_counters m name stage outcome reason now since send :
  gauges (event service_json m name stage outcome reason now since send) = gauges m /\
  stage_cells (event service_json m name stage outcome reason now since send) = stage_cells m.
Proof. unfold event. by destruct (exchange _ _ _) as [window []]. Qed.

Lemma emit_event_counters name stage outcome reason (n : node) :
  let n' := emit_event name stage outcome reason n in
  gauges (node_metrics n') = gauges (node_metrics n) /\ stage_cells (node_metrics n') = stage_cells (node_metrics n) /\
  node_slept n' = node_slept n /\ node_entropy n' = node_entropy n.
Proof. simpl. destruct (event_counters (node_metrics n) name stage outcome reason (instant (node_calls n))
  (unix_clock (S (node_calls n))) (send_datagram (S (node_calls n)))) as [H1 H2]. by split_and!. Qed.

Lemma emit_event_fields name stage outcome reason (n : node) :
  let n' := emit_event name stage outcome reason n in
  accept_errors (node_metrics n') = accept_errors (node_metrics n) /\
  retrying (node_metrics n') = retrying (node_metrics n) /\
  completions (node_metrics n') = completions (node_metrics n) /\ node_slept n' = node_slept n.
Proof.
  destruct (emit_event_counters name stage outcome reason n) as (C1 & C2 & C3 & _). cbv zeta.
  split_and!; [exact (f_equal (fun g => g.1.1.2) C1)|exact (f_equal snd C1)|exact (f_equal (fun g => g.1.1) C2)|done].
Qed.

Lemma timer_gauges m t outcome now now' : gauges (timer_finish m t outcome now now') = gauges m /\ gauges (timer_drop m t now) = gauges m.
Proof. unfold timer_finish, timer_drop. simpl. split; [done|]. by destruct (negb (finished t)). Qed.

(** The end of a retry clears the gauge and records one listener interval. *)
Lemma finish_retry_runs t outcome (n : node) :
  timer_stage t = ServiceStage.ListenerRetry ->
  exists n', finish_retry (Some t) outcome n = Some n' /\ retrying (node_metrics n') = 0 /\
    accept_errors (node_metrics n') = accept_errors (node_metrics n) /\ node_slept n' = node_slept n /\
    completions (node_metrics n') = alter (alter (add 1) (Outcome.index outcome))
      (ServiceStage.index ServiceStage.ListenerRetry) (completions (node_metrics n)).
Proof. intros Ht. eexists. split; [reflexivity|]. simpl. by rewrite Ht. Qed.
End Counters.

(** * Tasks that leave the gauges alone *)

Section Keeping.
Context {Path Socket R : Type} `{Kernel Path Socket}.
Abbreviation node := (Node Path Socket R).

Definition same_gauges (n n' : node) : Prop := gauges (node_metrics n') = gauges (node_metrics n).

#[export] Instance same_gauges_preorder : PreOrder same_gauges.
Proof. split; [by intros n|]. unfold same_gauges. intros a b c H1 H2. congruence. Qed.

(** A task whose only counters are those of stages and events. *)
Definition keeps_gauges {E A} (m : task Path Socket R E A) : Prop :=
  forall w, same_gauges (work_node w) (work_node (m w).2).

Lemma keeps_gauges_ret {E A} (a : A) : keeps_gauges (E := E) (mret a).
Proof. by intros w. Qed.

Lemma keeps_gauges_bind {E A B} (m : task Path Socket R E A) (f : A -> task Path Socket R E B) :
  keeps_gauges m -> (forall a, keeps_gauges (f a)) -> keeps_gauges (m ≫= f).
Proof.
  intros Hm Hf w. unfold mbind, task_bind. specialize (Hm w). destruct (m w) as [[[a|e]|] w']; simpl in *; [|done..].
  etransitivity; [exact Hm|apply Hf].
Qed.

Lemma keeps_gauges_now {E A} (f : node -> A * node) :
  (forall n, same_gauges n (f n).2) -> keeps_gauges (E := E) (now_do f).
Proof. intros Hf [n s]. unfold now_do. simpl. specialize (Hf n). by destruct (f n). Qed.

Lemma keeps_gauges_then {E} (f : node -> node) : (forall n, same_gauges n (f n)) -> keeps_gauges (E := E) (then_do f).
Proof. intros Hf. by apply keeps_gauges_now. Qed.

Lemma drop_timer_gauges t (n : node) : same_gauges n (drop_timer t n).
Proof. unfold same_gauges. simpl. apply (timer_gauges _ t Outcome.Success (instant (node_calls n)) 0). Qed.

Lemma finish_timer_gauges t outcome (n : node) : same_gauges n (finish_timer t outcome n).
Proof. unfold same_gauges. simpl. apply timer_gauges. Qed.

Lemma start_timer_gauges s (n : node) : same_gauges n (start_timer s n).2.
Proof. done. Qed.

Lemma emit_event_gauges name stage outcome reason (n : node) : same_gauges n (emit_event name stage outcome reason n).
Proof. apply emit_event_counters. Qed.

Lemma keeps_gauges_owning {E A} t (m : task Path Socket R E A) : keeps_gauges m -> keeps_gauges (owning t m).
Proof.
  intros Hm w. unfold owning. specialize (Hm w).
  destruct (m w) as [[[a|e]|] w']; simpl in *; [done|etransitivity; [exact Hm|apply drop_timer_gauges]..].
Qed.

Lemma keeps_gauges_read {E} conn limit (e : E) : keeps_gauges (read_to_end conn limit e).
Proof. intros w. unfold read_to_end. by destruct (_ <=? _)%nat, (ending conn). Qed.

Lemma keeps_gauges_write {E} conn bytes (e : E) : keeps_gauges (write_all conn bytes e).
Proof. intros w. unfold write_all. by destruct (write_answers conn _). Qed.

(** What a write leaves on the stream: all of it when it succeeds, a prefix otherwise. *)
Lemma write_all_cases {E} conn bytes (e : E) (w : Work Path Socket R) :
  let '(r, w') := write_all conn bytes e w in
  work_node w' = work_node w /\ stream_writes (work_stream w') = S (stream_writes (work_stream w)) /\
  ((r = Some (Ok tt) /\ stream_sent (work_stream w') = stream_sent (work_stream w) ++ bytes) \/
   ((r = Some (Err e) \/ r = None) /\
    (exists n, stream_sent (work_stream w') = stream_sent (work_stream w) ++ take n bytes) /\
    write_answers conn (stream_writes (work_stream w)) <> WroteAll)).
Proof.
  unfold write_all. destruct (write_answers conn (stream_writes (work_stream w))) as [|n stalled] eqn:Hanswer; simpl.
  - split_and!; [done..|]. by left.
  - split_and!; [done..|]. right. split_and!; [by destruct stalled; [right|left]|by exists n|done].
Qed.
End Keeping.

#[export] Hint Resolve keeps_gauges_ret keeps_gauges_owning keeps_gauges_read keeps_gauges_write drop_timer_gauges
  finish_timer_gauges start_timer_gauges emit_event_gauges : leelo.

(** Prove that a task keeps the gauges, step by step. *)
Ltac keeping_gauges :=
  repeat first
    [ solve [auto with leelo]
    | apply keeps_gauges_bind; [|intros ?]
    | apply keeps_gauges_then; intros ?
    | apply keeps_gauges_now; intros ?
    | case_match ].

(** * The accept loop ends *)

Section AcceptLoop.
Context {Path Socket R A : Type} `{Kernel Path Socket}.
Abbreviation node := (Node Path Socket R).
Context (operation : nat -> result IoError A).

Definition retries_at (j : nat) : Prop := exists e, operation j = Err e /\ temporary e = true.

(** The delay before attempt [i + 1]: doubled each time up to one second. *)
Definition backoff (i : nat) : Z := Z.min (FIRST_RETRY * 2 ^ Z.of_nat i) MAX_RETRY.

Definition error_at (j : nat) : option IoError := match operation j with Ok _ => None | Err e => Some e end.

Definition count_errors (errors : list IoError) (counts : list Z) : list Z :=
  fold_left (fun counts e => alter (add 1) (AcceptClass.index (accept_class e)) counts) errors counts.

Definition final_outcome (r : result IoError A) : Outcome.Outcome :=
  match r with Ok _ => Outcome.Success | Err _ => Outcome.Io end.

(** A guard of the listener, or none before the first failure. *)
Definition listener_guard (retrying : option (option Timer)) : Prop :=
  match retrying with
  | None => True
  | Some guard => exists t, guard = Some t /\ timer_stage t = ServiceStage.ListenerRetry
  end.

Lemma backoff_next i : Z.min (backoff i * 2) MAX_RETRY = backoff (S i).
Proof.
  unfold backoff, FIRST_RETRY, MAX_RETRY. rewrite Nat2Z.inj_succ, Z.pow_succ_r by lia. lia.
Qed.

(** The attempt at which the loop returns. *)
Lemma accept_loop_last attempt retrying0 fuel (n : node) delay :
  ~ retries_at attempt -> listener_guard retrying0 ->
  exists n', accept_loop operation (S fuel) attempt delay retrying0 n = Some (map_err Fault (operation attempt), n') /\
    node_slept n' = node_slept n /\
    accept_errors (node_metrics n') = count_errors (omap error_at [attempt]) (accept_errors (node_metrics n)) /\
    (if bool_decide (retrying0 = None)
     then retrying (node_metrics n') = retrying (node_metrics n) /\
          completions (node_metrics n') = completions (node_metrics n)
     else retrying (node_metrics n') = 0 /\
          completions (node_metrics n') =
            alter (alter (add 1) (Outcome.index (final_outcome (operation attempt))))
              (ServiceStage.index ServiceStage.ListenerRetry) (completions (node_metrics n))).
Proof.
  intros Hlast Hguard. cbn [accept_loop omap list_omap]. unfold error_at at 1.
  destruct (operation attempt) as [c|e] eqn:Eop; cbn [map_err final_outcome].
  - destruct retrying0 as [guard|].
    * destruct Hguard as (t & -> & Ht). destruct (finish_retry_runs t Outcome.Success n Ht) as (n1 & -> & B1 & B2 & B3 & B4).
      destruct (emit_event_fields "listener_recovered" "listener" "success" "none" n1) as (C1 & C1' & C2 & C3).
      eexists. split; [reflexivity|]. rewrite bool_decide_eq_false_2 by done.
      split_and!; [by rewrite C3, B3|by rewrite C1, B2|congruence|by rewrite C2, B4].
    * eexists. split; [reflexivity|]. by rewrite bool_decide_eq_true_2 by done.
  - destruct (temporary e) eqn:Et; [exfalso; apply Hlast; by exists e|].
    set (n0 := on_metrics _ n). destruct retrying0 as [guard|].
    * destruct Hguard as (t & -> & Ht). destruct (finish_retry_runs t Outcome.Io n0 Ht) as (n1 & -> & B1 & B2 & B3 & B4).
      destruct (emit_event_fields "listener_failed" "listener" "failure" "fatal_accept" n1) as (C1 & C1' & C2 & C3).
      eexists. split; [reflexivity|]. rewrite bool_decide_eq_false_2 by done.
      split_and!; [by rewrite C3, B3|by rewrite C1, B2|congruence|by rewrite C2, B4].
    * destruct (emit_event_fields "listener_failed" "listener" "failure" "fatal_accept" n0) as (C1 & C1' & C2 & C3).
      eexists. split; [reflexivity|]. rewrite bool_decide_eq_true_2 by done.
      split_and!; [by rewrite C3|by rewrite C1|by rewrite C1'|by rewrite C2].
Qed.

Lemma accept_loop_ends d : forall attempt retrying0 fuel (n : node),
  (forall j, (j < d)%nat -> retries_at (attempt + j)) -> ~ retries_at (attempt + d) -> (d < fuel)%nat ->
  listener_guard retrying0 ->
  exists n', accept_loop operation fuel attempt (backoff attempt) retrying0 n =
               Some (map_err Fault (operation (attempt + d)), n') /\
    node_slept n' = node_slept n ++ map backoff (seq attempt d) /\
    accept_errors (node_metrics n') = count_errors (omap error_at (seq attempt (S d))) (accept_errors (node_metrics n)) /\
    (if bool_decide (retrying0 = None /\ d = 0%nat)
     then retrying (node_metrics n') = retrying (node_metrics n) /\
          completions (node_metrics n') = completions (node_metrics n)
     else retrying (node_metrics n') = 0 /\
          completions (node_metrics n') =
            alter (alter (add 1) (Outcome.index (final_outcome (operation (attempt + d)))))
              (ServiceStage.index ServiceStage.ListenerRetry) (completions (node_metrics n))).
Proof.
  induction d as [|d IH]; intros attempt r0 [|fuel] n Htemp Hlast Hfuel Hguard; [lia| |lia|].
  - destruct (accept_loop_last attempt r0 fuel n (backoff attempt)) as (n' & E & H1 & H2 & H3);
      [by rewrite Nat.add_0_r in Hlast|done|]. rewrite Nat.add_0_r, app_nil_r. exists n'. split_and!; [done..|].
    by rewrite (bool_decide_ext (r0 = None /\ 0%nat = 0%nat) (r0 = None)) by tauto.
  - destruct (Htemp 0%nat ltac:(lia)) as (e & Eop & Et). rewrite Nat.add_0_r in Eop.
    cbn [accept_loop]. rewrite Eop, Et, backoff_next.
    set (n0 := on_metrics _ n).
    assert (exists guard n1, (match r0 with
        | None => begin_retry (emit_event "listener_impaired" "listener" "failure" "temporary_accept" n0)
        | Some guard => (guard, n0) end) = (guard, n1) /\ listener_guard (Some guard) /\
        accept_errors (node_metrics n1) = accept_errors (node_metrics n0) /\
        completions (node_metrics n1) = completions (node_metrics n0) /\ node_slept n1 = node_slept n0)
      as (guard & n1 & -> & Hg & E1 & E2 & E3).
    { destruct r0 as [guard|]; [by eexists _, _|].
      destruct (emit_event_fields "listener_impaired" "listener" "failure" "temporary_accept" n0) as (C1 & C1' & C2 & C3).
       
      eexists _, _. split; [reflexivity|]. split_and!; [by eexists|by rewrite <- C1|by rewrite <- C2|by rewrite <- C3]. }
    destruct (IH (S attempt) (Some guard) fuel (sleep (backoff attempt) n1)) as (n2 & Hrun & F1 & F2 & F3);
      [intros j Hj; replace (S attempt + j)%nat with (attempt + S j)%nat by lia; apply Htemp; lia
      |by replace (S attempt + d)%nat with (attempt + S d)%nat by lia|lia|done|].
    rewrite Hrun. replace (S attempt + d)%nat with (attempt + S d)%nat in * by lia.
    exists n2. split; [done|]. rewrite bool_decide_eq_false_2 in F3 by (by intros []).
    rewrite bool_decide_eq_false_2 by (by intros []). destruct F3 as [F3 F4]. simpl in F1, F2, F4.
    split_and!; [by rewrite F1, E3, <- app_assoc| |done|by rewrite F4, E2].
    cbn [seq omap list_omap] in *. unfold error_at at 1. rewrite Eop. rewrite F2, E1. done.
Qed.

Lemma accept_loop_waits fuel : forall attempt delay retrying0 (n : node),
  (forall j, (j < fuel)%nat -> retries_at (attempt + j)) ->
  accept_loop operation fuel attempt delay retrying0 n = None.
Proof.
  induction fuel as [|fuel IH]; intros attempt delay r0 n Htemp; [done|].
  destruct (Htemp 0%nat ltac:(lia)) as (e & Eop & Et). rewrite Nat.add_0_r in Eop.
  cbn [accept_loop]. rewrite Eop, Et. destruct (match r0 with None => _ | Some guard => _ end) as [guard n1].
  apply IH. intros j Hj. replace (S attempt + j)%nat with (attempt + S j)%nat by lia. apply Htemp. lia.
Qed.
End AcceptLoop.

(** An error stops the listener exactly when it is counted as unclassified. *)
Lemma temporary_classified error : temporary error = true <-> accept_class error <> AcceptClass.Other.
Proof.
  destruct error as [k raw]. unfold temporary, accept_class, errno_in. simpl.
  destruct k, raw as [e|]; simpl; repeat case_match; simplify_eq/=; split; try done; lia || (intros; congruence) || idtac.
Qed.

(** * Properties *)

(** C30: the accept loop ends exactly at the first answer that is not a temporary error, and returns it:
    with one attempt more than the temporary errors it returns, with fewer it is still retrying. It sleeps
    50 ms, doubled up to one second, between attempts, counts every error in its class, records one
    listener interval when it had to retry, and leaves the retry gauge cleared; an error is temporary
    exactly when its class is not the unclassified one. *)
Theorem accept_terminates {Path Socket R A : Type} `{Kernel Path Socket} (operation : nat -> result IoError A)
    (n : Node Path Socket R) k :
  (forall j, (j < k)%nat -> retries_at operation j) -> ~ retries_at operation k ->
  (forall fuel, (k < fuel)%nat -> exists n',
     accept_observed operation fuel n = Some (map_err Fault (operation k), n') /\
     node_slept n' = node_slept n ++ map backoff (seq 0 k) /\
     accept_errors (node_metrics n') =
       count_errors (omap (error_at operation) (seq 0 (S k))) (accept_errors (node_metrics n)) /\
     (if bool_decide (k = 0%nat)
      then retrying (node_metrics n') = retrying (node_metrics n) /\
           completions (node_metrics n') = completions (node_metrics n)
      else retrying (node_metrics n') = 0 /\
           completions (node_metrics n') =
             alter (alter (add 1) (Outcome.index (final_outcome (operation k))))
               (ServiceStage.index ServiceStage.ListenerRetry) (completions (node_metrics n)))) /\
  (forall fuel, (fuel <= k)%nat -> accept_observed operation fuel n = None) /\
  (forall error, temporary error = true <-> accept_class error <> AcceptClass.Other).
Proof.
  intros Htemp Hlast. split_and!.
  - intros fuel Hfuel. destruct (accept_loop_ends operation k 0 None fuel n Htemp Hlast Hfuel I) as (n' & E & H1 & H2 & H3).
    exists n'. split_and!; [done..|]. by rewrite (bool_decide_ext (k = 0%nat) (@None (option Timer) = None /\ k = 0%nat)) by naive_solver.
  - intros fuel Hfuel. apply accept_loop_waits. intros j Hj. apply Htemp. lia.
  - apply temporary_classified.
Qed.

(** * Witness: seven full descriptor tables, then a connection *)

Module Example.
#[export] Instance quiet_kernel : Kernel unit unit := {|
  instant calls := Z.of_nat calls;
  unix_clock _ := None;
  send_datagram _ _ _ _ := None;
  service_json _ := None;
|}.

Definition quiet_node (role : Role) (limit : Z) : Node unit unit nat :=
  mk_node (new_metrics (mk_emitter None None None None 0 0) 0 role limit) 0 0%nat [].

Definition busy_listener (attempt : nat) : result IoError nat :=
  if (attempt <? 7)%nat then Err (mk_io_error OtherKind (Some 24)) else Ok 42%nat.
End Example.
Import Example.

Lemma accept_terminates_witness :
  exists n', accept_observed busy_listener 8 (quiet_node Frontend 64) = Some (Ok 42%nat, n') /\
    node_slept n' = map backoff (seq 0 7) /\ foldr Z.add 0 (node_slept n') = 3550 * 1000000.
Proof.
  destruct (accept_terminates busy_listener (quiet_node Frontend 64) 7) as (Hends & _).
  - intros j Hj. do 7 (destruct j as [|j]; [eexists; by split|]). lia.
  - intros (e & [=] & _).
  - destruct (Hends 8%nat ltac:(lia)) as (n' & E & Hs & _). exists n'. split_and!; [exact E|exact Hs|].
    rewrite Hs. by vm_compute.
Defined.
