(* ===== verification/Listener.v ===== *)
(** The listeners of the evaluation service share their admission: a peer check, a permit of a semaphore,
    and a task that holds the permit and an in-flight guard until its connection is done. [Worker] and
    [Frontend] supply the check and the task. *)
From stdpp Require Import base list strings.
From Stdlib Require Import ZArith Lia.
From S2P Require Import Prelude Policy Float64 Text Telemetry ServiceMetrics Service.

Open Scope Z_scope.

#[export] Instance Admission_eq_dec : EqDecision Admission.Admission.
Proof. solve_decision. Defined.

#[export] Instance admission_enumerated : Enumerated Admission.Admission Admission.ALL Admission.index.
Proof.
  intros i a. split; [|intros ->; by destruct a]. do 4 (destruct i as [|i]; [by intros [= <-]|]). done.
Qed.

(** A task holds its connection and, once polled, the timer of its stage. *)
Record Job (C : Type) : Type := mk_job { job_conn : C; job_timer : option Timer }.
Arguments mk_job {C}.
Arguments job_conn {C}.
Arguments job_timer {C}.

(** What became of a connection: refused unread, or served with what came of it. *)
Inductive Fate (C F : Type) : Type :=
| RefusedPeer (conn : C) (why : Admission.Admission)
| RefusedCapacity (conn : C) (busy : nat)
| ServedConn (conn : C) (outcome : Outcome.Outcome) (effect : F).
Arguments RefusedPeer {C F}.
Arguments RefusedCapacity {C F}.
Arguments ServedConn {C F}.

(** Why a peer is refused: how it is counted, and the reason of the event. *)
Record Refusal : Type := mk_refusal { refusal_class : Admission.Admission; refusal_reason : string }.

(** What the executor does next: the listener accepts, a task is polled first, a task runs to its end
    or to its deadline. *)
Inductive Move (C : Type) : Type :=
| Accepts (conn : C)
| Polls (i : nat)
| Ends (i : nat).
Arguments Accepts {C}.
Arguments Polls {C}.
Arguments Ends {C}.

Section Listener.
Context {Path Socket R : Type} `{Kernel Path Socket}.
Abbreviation node := (Node Path Socket R).
Context {C F : Type}.

Record Serving : Type := mk_serving {
  serving_node : node;
  serving_pool : Pool (Job C);
  serving_log : list (Fate C F);
}.

Context (limit : nat) (check : C -> option Refusal) (capacity_stage : string).
Context (job_stage : ServiceStage.Stage) (body : C -> node -> Outcome.Outcome * F * node).

Definition count_admission (a : Admission.Admission) (n : node) : node := on_metrics (fun m => admission m a) n.

(** One iteration of an accept loop, after [accept_observed] returned. *)
Definition admit_connection (s : Serving) (conn : C) : Serving :=
  let n := serving_node s in
  match check conn with
  | Some refusal =>
      mk_serving (emit_event "worker_peer_denied" "admission" "failure" (refusal_reason refusal)
                    (count_admission (refusal_class refusal) n)) (serving_pool s)
        (serving_log s ++ [RefusedPeer conn (refusal_class refusal)])
  | None =>
      match try_acquire (serving_pool s) (mk_job conn None) with
      | None =>
          mk_serving (emit_event "capacity_rejected" capacity_stage "failure" "capacity"
                        (count_admission Admission.Capacity n)) (serving_pool s)
            (serving_log s ++ [RefusedCapacity conn (length (running (serving_pool s)))])
      | Some pool => mk_serving (on_metrics enter (count_admission Admission.WasAdmitted n)) pool (serving_log s)
      end
  end.

(** The spawned task is polled for the first time and starts its timer. *)
Definition poll_job (s : Serving) (i : nat) : Serving :=
  match running (serving_pool s) !! i with
  | Some (mk_job conn None) =>
      let '(t, n) := start_timer job_stage (serving_node s) in
      mk_serving n (mk_pool (permits (serving_pool s)) (<[i := mk_job conn (Some t)]> (running (serving_pool s))))
        (serving_log s)
  | _ => s
  end.

(** The body of a task from its timer on; then its guards are dropped. *)
Definition end_job (s : Serving) (i : nat) : Serving :=
  match running (serving_pool s) !! i with
  | Some (mk_job conn (Some t)) =>
      let '(outcome, effect, n) := body conn (serving_node s) in
      mk_serving (on_metrics leave (finish_timer t outcome n)) (release (serving_pool s) i)
        (serving_log s ++ [ServedConn conn outcome effect])
  | _ => s
  end.

Definition serve_step (s : Serving) (m : Move C) : Serving :=
  match m with
  | Accepts conn => admit_connection s conn
  | Polls i => poll_job s i
  | Ends i => end_job s i
  end.

Definition serve_moves (n : node) (moves : list (Move C)) : Serving :=
  fold_left serve_step moves (mk_serving n (new_pool limit) []).

(** * Admission is bounded and counted *)

(** What a task may do with its connection. *)
Context (served_ok : C -> Outcome.Outcome -> F -> Prop).

(** What a connection got is what its fate says. *)
Definition fate_ok (f : Fate C F) : Prop :=
  match f with
  | RefusedPeer conn why => exists refusal, check conn = Some refusal /\ refusal_class refusal = why
  | RefusedCapacity conn busy => check conn = None /\ busy = limit
  | ServedConn conn outcome effect => check conn = None /\ served_ok conn outcome effect
  end.

Definition fate_class (f : Fate C F) : Admission.Admission :=
  match f with
  | RefusedPeer _ why => why
  | RefusedCapacity _ _ => Admission.Capacity
  | ServedConn _ _ _ => Admission.WasAdmitted
  end.

Definition fates_as (a : Admission.Admission) (log : list (Fate C F)) : nat :=
  length (List.filter (fun f => bool_decide (fate_class f = a)) log).

(** Connections by what was decided of them when they were accepted. *)
Definition tally (s : Serving) (a : Admission.Admission) : nat :=
  (fates_as a (serving_log s) + match a with Admission.WasAdmitted => length (running (serving_pool s)) | _ => 0 end)%nat.

Definition total (s : Serving) : nat := (length (serving_log s) + length (running (serving_pool s)))%nat.

Record admitted_within (s : Serving) : Prop := mk_admitted {
  adm_pool : pool_of limit (serving_pool s);
  adm_inflight : inflight (node_metrics (serving_node s)) = Z.of_nat (length (running (serving_pool s)));
  adm_peers : Forall (fun j => check (job_conn j) = None) (running (serving_pool s));
  adm_fates : Forall fate_ok (serving_log s);
  adm_counts : admissions (node_metrics (serving_node s)) = map (fun a => Z.of_nat (tally s a)) Admission.ALL;
}.

Lemma fates_as_snoc a log f :
  fates_as a (log ++ [f]) = (fates_as a log + (if bool_decide (fate_class f = a) then 1 else 0))%nat.
Proof. unfold fates_as. rewrite List.filter_app, length_app. simpl. by case_bool_decide. Qed.

Lemma tally_total s a : (tally s a <= total s)%nat.
Proof.
  unfold tally, total, fates_as. pose proof (List.filter_length_le (fun f => bool_decide (fate_class f = a)) (serving_log s)).
  destruct a; lia.
Qed.

(** One more connection of class [a]. *)
Lemma count_one (s s' : Serving) a :
  (forall b, tally s' b = (tally s b + if bool_decide (b = a) then 1 else 0)%nat) -> Z.of_nat (total s) < 2 ^ 64 - 1 ->
  alter (add 1) (Admission.index a) (map (fun b => Z.of_nat (tally s b)) Admission.ALL) =
  map (fun b => Z.of_nat (tally s' b)) Admission.ALL.
Proof.
  intros Ht Hbound. rewrite (alter_enumerated Admission.ALL Admission.index). apply map_ext. intros b. rewrite Ht.
  pose proof (tally_total s b). case_bool_decide; [rewrite add_one; lia|lia].
Qed.

(** A peer is refused as such, and a task does what it may and leaves the gauges alone. *)
Context (Hcheck : forall conn refusal, check conn = Some refusal -> refusal_class refusal <> Admission.WasAdmitted).
Context (Hbody : forall conn n, check conn = None ->
  let '(outcome, effect, n') := body conn n in same_gauges n n' /\ served_ok conn outcome effect).

(** The gauges an admission sees. *)
Definition admission_gauges (n : node) : list Z * Z := (admissions (node_metrics n), inflight (node_metrics n)).

Lemma same_gauges_admission (n n' : node) : same_gauges n n' -> admission_gauges n' = admission_gauges n.
Proof. intros E. exact (f_equal (fun g => (g.1.1.1.1, g.1.1.1.2)) E). Qed.

Lemma refuse_within (s : Serving) n' f a :
  admitted_within s -> Z.of_nat (total s) < 2 ^ 64 - 1 -> fate_ok f -> fate_class f = a -> a <> Admission.WasAdmitted ->
  admission_gauges n' = admission_gauges (count_admission a (serving_node s)) ->
  admitted_within (mk_serving n' (serving_pool s) (serving_log s ++ [f])).
Proof.
  intros [A1 A2 A3 A4 A5] Hbound Hf Ha Hne Hg. injection Hg as Hg1 Hg2. split; simpl.
  - done.
  - by rewrite Hg2.
  - done.
  - apply Forall_app. split; [done|by constructor].
  - rewrite Hg1. simpl. rewrite A5. apply count_one; [|done]. intros b. unfold tally. simpl. rewrite fates_as_snoc, Ha.
    rewrite (bool_decide_ext (a = b) (b = a)) by (split; congruence). lia.
Qed.

Lemma admit_within (s : Serving) conn :
  admitted_within s -> Z.of_nat (total s) < 2 ^ 64 - 1 -> admitted_within (admit_connection s conn).
Proof.
  intros Hs Hbound. unfold admit_connection. destruct (check conn) as [refusal|] eqn:Echeck.
  - eapply refuse_within; [done|done|by exists refusal|done|by eapply Hcheck|apply same_gauges_admission, emit_event_gauges].
  - destruct (try_acquire _ _) as [pool|] eqn:Eacq.
    + pose proof Hs as [A1 A2 A3 A4 A5]. destruct (try_acquire_pool _ _ _ _ A1 Eacq) as [Hpool Hrun].
      split; cbn [serving_node serving_pool serving_log]; rewrite ?Hrun, ?length_app.
      * done.
      * simpl. rewrite A2, add_one by (unfold total in Hbound; lia). lia.
      * apply Forall_app. split; [done|by constructor].
      * done.
      * change (admissions _) with (alter (add 1) (Admission.index Admission.WasAdmitted)
          (admissions (node_metrics (serving_node s)))).
        rewrite A5. apply count_one; [|done]. intros b. unfold tally. simpl. rewrite Hrun, length_app.
        destruct b; simpl; lia.
    + apply try_acquire_full with (limit := limit) in Eacq; [|apply Hs].
      eapply refuse_within; [done|done|by split|done|done|apply same_gauges_admission, emit_event_gauges].
Qed.

Lemma poll_within (s : Serving) i : admitted_within s -> admitted_within (poll_job s i).
Proof.
  intros Hs. unfold poll_job. destruct (running (serving_pool s) !! i) as [[conn [t|]]|] eqn:Ei; [done| |done].
  destruct Hs as [A1 A2 A3 A4 A5]. cbn [start_timer read_clock]. split; cbn [serving_node serving_pool serving_log running]; rewrite ?length_insert; [|done| |done|].
  - unfold pool_of in *. simpl. by rewrite length_insert.
  - apply Forall_insert; [done|]. exact (proj1 (Forall_lookup _ _) A3 i _ Ei).
  - change (admissions _) with (admissions (node_metrics (serving_node s))).
    rewrite A5. apply map_ext. intros b. unfold tally. simpl. by rewrite length_insert.
Qed.

Lemma end_within (s : Serving) i :
  admitted_within s -> Z.of_nat (total s) < 2 ^ 64 ->
  admitted_within (end_job s i).
Proof.
  intros Hs Hbound. unfold end_job. destruct (running (serving_pool s) !! i) as [[conn [t|]]|] eqn:Ei; [|done..].
  destruct Hs as [A1 A2 A3 A4 A5]. pose proof (proj1 (Forall_lookup _ _) A3 i _ Ei) as Hpeer.
  pose proof (Hbody conn (serving_node s) Hpeer) as Hb. destruct (body conn (serving_node s)) as [[outcome effect] n1].
  destruct Hb as [Hg Hserved]. pose proof (lookup_lt_Some _ _ _ Ei) as Hlt.
  assert (length (delete i (running (serving_pool s))) = (length (running (serving_pool s)) - 1)%nat) as Hlen
    by (by rewrite length_delete).
  pose proof (same_gauges_admission _ _ (transitivity Hg (finish_timer_gauges t outcome n1))) as Hadm.
  set (n' := finish_timer t outcome n1) in *.
  assert (inflight (node_metrics n') = inflight (node_metrics (serving_node s))) as Hinf by exact (f_equal snd Hadm).
  assert (admissions (node_metrics n') = admissions (node_metrics (serving_node s))) as Hadms by exact (f_equal fst Hadm).
  split.
  - by eapply release_pool.
  - change (inflight _) with (wrap 64 (inflight (node_metrics n') - 1)).
    rewrite Hinf, A2. cbn [serving_pool release running]. rewrite Hlen. unfold total in Hbound.
    rewrite wrap_id by (unfold uint; lia). lia.
  - cbn [serving_pool release running]. rewrite delete_take_drop. apply Forall_app. split; [by apply Forall_take|by apply Forall_drop].
  - apply Forall_app. split; [done|by constructor].
  - change (admissions _) with (admissions (node_metrics n')).
    rewrite Hadms, A5. apply map_ext. intros b. unfold tally. cbn [serving_log serving_pool release running].
    rewrite fates_as_snoc, Hlen. simpl fate_class. destruct b; simpl; lia.
Qed.

Lemma step_total (s : Serving) m : (total (serve_step s m) <= S (total s))%nat.
Proof.
  destruct m as [conn|i|i]; simpl.
  - unfold admit_connection, total. destruct (check conn) as [refusal|]; [|destruct (try_acquire _ _) as [p|] eqn:E];
      simpl; rewrite ?length_app; simpl; try lia.
    unfold try_acquire in E. destruct (permits _); [done|]. injection E as <-. simpl. rewrite length_app. simpl. lia.
  - unfold poll_job, total. destruct (_ !! i) as [[conn [t|]]|]; simpl; rewrite ?length_insert; lia.
  - unfold end_job, total. destruct (_ !! i) as [[conn [t|]]|] eqn:Ei; [|lia..]. destruct (body _ _) as [[outcome effect] n1].
    simpl. rewrite length_app, length_delete by done. apply lookup_lt_Some in Ei. simpl. lia.
Qed.

Lemma run_within moves (s : Serving) :
  admitted_within s -> Z.of_nat (total s + length moves) < 2 ^ 64 ->
  admitted_within (fold_left (serve_step) moves s).
Proof.
  revert s. induction moves as [|m moves IH]; intros s Hs Hbound; [done|]. simpl in *.
  pose proof (step_total s m). apply IH; [|lia]. destruct m; simpl.
  - apply admit_within; [done|lia].
  - by apply poll_within.
  - apply end_within; [done|lia].
Qed.

Lemma serve_within (n : node) moves :
  inflight (node_metrics n) = 0 -> admissions (node_metrics n) = replicate (length Admission.ALL) 0 ->
  Z.of_nat (length moves) < 2 ^ 64 -> admitted_within (serve_moves n moves).
Proof.
  intros Hi Ha Hlen. apply run_within; [|done]. split; simpl; [done|done|constructor|constructor|by rewrite Ha].
Qed.
End Listener.
Arguments Serving Path Socket R C F : clear implicits.
