(* ===== verification/Worker.v ===== *)
(** The key worker, [leelod/src/worker.rs]: one request per connection of the Unix socket, evaluated
    with the secret key, and the admission of connections by kernel credentials and permits. *)
From stdpp Require Import base list strings.
From Stdlib Require Import ZArith Lia.
From S2P Require Import Prelude Sss Crypto Wire Policy Float64 Text Telemetry ServiceMetrics Service Listener.

Open Scope Z_scope.

Definition MAX_WORK : nat := 8.

Section Worker.
Context `{Primitives} {R : Type} `{Rng R}.
Context {Path Socket : Type} `{Kernel Path Socket}.
Abbreviation node := (Node Path Socket R).
Abbreviation job := (task Path Socket R Outcome.Outcome).

(** * One connection *)

(** [secret.evaluate(&point)], which draws from the operating system. *)
Definition evaluate_point (secret : server) (point : list Z) (n : node) : result CryptoError.Error Evaluation * node :=
  let '(r, rng) := evaluate_with_entropy secret point (node_entropy n) in
  (r, mk_node (node_metrics n) (node_calls n) rng (node_slept n)).

Definition evaluation_outcome (evaluation : result CryptoError.Error Evaluation) : Outcome.Outcome :=
  match evaluation with
  | Ok _ => Outcome.Success
  | Err CryptoError.InvalidEncoding => Outcome.InvalidPoint
  | Err CryptoError.Randomness => Outcome.Randomness
  | Err _ => Outcome.Crypto
  end.

Definition report_evaluation (outcome : Outcome.Outcome) (n : node) : node :=
  if bool_decide (outcome = Outcome.Randomness \/ outcome = Outcome.Crypto) then
    emit_event "evaluation_failed" "crypto" "failure"
      (if bool_decide (outcome = Outcome.Randomness) then "randomness" else "cryptographic_operation") n
  else n.

(** The request, or the outcome to refuse it with. *)
Definition admit_request (id bytes : list Z) : result Outcome.Outcome Request :=
  match decode_request bytes with
  | Ok request => if bool_decide (request_key_id request = id) then Ok request else Err Outcome.WrongKey
  | Err _ => Err Outcome.Frame
  end.

Definition handle (conn : Conn) (secret : server) (id : list Z) : job Outcome.Outcome :=
  validation ← now_do (start_timer ServiceStage.Validation);
  bytes ← owning validation (read_to_end conn (REQUEST_BYTES + 1) Outcome.Read);
  match admit_request id bytes with
  | Err outcome =>
      _ ← then_do (finish_timer validation outcome);
      _ ← write_all conn [1] Outcome.Write;
      mret outcome
  | Ok request =>
      _ ← then_do (finish_timer validation Outcome.Success);
      timer ← now_do (start_timer ServiceStage.Crypto);
      evaluation ← now_do (evaluate_point secret (request_point request));
      let outcome := evaluation_outcome evaluation in
      _ ← then_do (finish_timer timer outcome);
      _ ← then_do (report_evaluation outcome);
      _ ← match evaluation with
          | Ok evaluation =>
              _ ← write_all conn [0] Outcome.Write;
              write_all conn (encode_response evaluation) Outcome.Write
          | Err _ => write_all conn [1] Outcome.Write
          end;
      _ ← shutdown conn Outcome.Write;
      mret outcome
  end.

(** * The listener *)

(** [timeout(IPC_DEADLINE, handle(..))] *)
Definition handle_outcome (r : option (result Outcome.Outcome Outcome.Outcome)) : Outcome.Outcome :=
  match r with
  | Some (Ok outcome) | Some (Err outcome) => outcome
  | None => Outcome.Timeout
  end.

(** The match on [stream.peer_cred()]. *)
Definition check_peer (allowed_uid : Z) (conn : Conn) : option Refusal :=
  match peer_uid conn with
  | Some uid => if uid =? allowed_uid then None else Some (mk_refusal Admission.Peer "peer_uid")
  | None => Some (mk_refusal Admission.PeerCheck "peer_credentials")
  end.

(** The spawned task: the bytes it put on its connection. *)
Definition worker_task (secret : server) (id : list Z) (conn : Conn) (n : node) : Outcome.Outcome * list Z * node :=
  let '(r, w) := handle conn secret id (mk_work n fresh_stream) in
  (handle_outcome r, stream_sent (work_stream w), work_node w).

(** [serve]: the key identifier is computed once. *)
Definition worker_serve (secret : server) (allowed_uid : Z) (n : node) (moves : list (Move Conn))
    : Serving Path Socket R Conn (list Z) :=
  serve_moves MAX_WORK (check_peer allowed_uid) "admission" ServiceStage.Worker
    (worker_task secret (key_id (server_public_key secret))) n moves.
End Worker.

(** * What a connection gets *)

Section Connection.
Context `{Primitives} {R : Type} `{Rng R}.
Context {Path Socket : Type} `{Kernel Path Socket}.
Abbreviation node := (Node Path Socket R).

(** What the worker promises, without streams, timers and deadlines: the outcome and the reply to the
    bytes of a request. *)
Definition worker_reply (secret : server) (id bytes : list Z) (rng : R) : Outcome.Outcome * list Z :=
  match admit_request id bytes with
  | Err outcome => (outcome, [1])
  | Ok request =>
      let evaluation := (evaluate_with_entropy secret (request_point request) rng).1 in
      (evaluation_outcome evaluation,
       match evaluation with Ok evaluation => 0 :: encode_response evaluation | Err _ => [1] end)
  end.

(** The bytes the worker reads, when the connection delivers an end or too many. *)
Definition received (conn : Conn) : option (list Z) :=
  if (REQUEST_BYTES + 1 <=? length (incoming conn))%nat then Some (take (REQUEST_BYTES + 1) (incoming conn))
  else match ending conn with AtEof => Some (incoming conn) | _ => None end.

Lemma report_evaluation_gauges outcome (n : node) : same_gauges n (report_evaluation outcome n).
Proof. unfold report_evaluation. case_bool_decide; [apply emit_event_gauges|done]. Qed.

Lemma report_evaluation_entropy outcome (n : node) : node_entropy (report_evaluation outcome n) = node_entropy n.
Proof. unfold report_evaluation. by case_bool_decide. Qed.

Lemma evaluate_point_gauges secret point (n : node) : same_gauges n (evaluate_point secret point n).2.
Proof. unfold evaluate_point. by destruct (evaluate_with_entropy secret point (node_entropy n)). Qed.

Lemma handle_gauges conn secret id : keeps_gauges (handle (R := R) (Path := Path) (Socket := Socket) conn secret id).
Proof.
  unfold handle, shutdown. keeping_gauges; auto using report_evaluation_gauges, evaluate_point_gauges.
Qed.
End Connection.

(** * A connection refines the reply *)

Section Reply.
Context `{Primitives} {R : Type} `{Rng R}.
Context {Path Socket : Type} `{Kernel Path Socket}.
Abbreviation node := (Node Path Socket R).
Abbreviation job := (task Path Socket R Outcome.Outcome).

(** [m] only writes: it puts [part] on the stream and returns [a], or puts a prefix of it there and
    fails or is cut off. *)
Definition sends {A} (conn : Conn) (m : job A) (part : list Z) (a : A) : Prop := forall w,
  let '(r, w') := m w in
  work_node w' = work_node w /\ exists p, stream_sent (work_stream w') = stream_sent (work_stream w) ++ p /\
    ((r = Some (Ok a) /\ p = part) \/
     ((r = Some (Err Outcome.Write) \/ r = None) /\ p `prefix_of` part /\ ~ (forall i, write_answers conn i = WroteAll))).

Lemma sends_ret {A} conn (a : A) : sends conn (mret a) [] a.
Proof. intros w. simpl. split; [done|]. exists []. rewrite app_nil_r. split; [done|]. by left. Qed.

Lemma sends_write conn part : sends conn (write_all conn part Outcome.Write) part tt.
Proof.
  intros w. pose proof (write_all_cases conn part Outcome.Write w) as Hw. destruct (write_all _ _ _ w) as [r w'].
  destruct Hw as (Hn & _ & [[-> Hs]|[Hr [[n Hs] Ha]]]); (split; [done|]).
  - exists part. split; [done|]. by left.
  - exists (take n part). split; [done|]. right. split_and!; [done|exists (drop n part); by rewrite take_drop|].
    intros Hall. by rewrite Hall in Ha.
Qed.

Lemma sends_bind {A B} conn (m : job A) (f : A -> job B) p q a b :
  sends conn m p a -> sends conn (f a) q b -> sends conn (m ≫= f) (p ++ q) b.
Proof.
  intros Hm Hf w. unfold mbind, task_bind. specialize (Hm w). destruct (m w) as [r w'].
  destruct Hm as (Hn & p' & Hs & [[-> ->]|(Hr & Hp & Ha)]).
  - specialize (Hf w'). destruct (f a w') as [r' w'']. destruct Hf as (Hn' & q' & Hs' & Hc). rewrite Hn', Hs', Hs, <- app_assoc.
    split; [done|]. exists (p ++ q'). split; [done|]. destruct Hc as [[-> ->]|(? & ? & ?)]; [by left|right].
    split_and!; [done|by apply prefix_app|done].
  - destruct Hr as [-> | ->]; (split; [done|]; exists p'; split; [done|right; split_and!; [by auto|by apply prefix_app_r|done]]).
Qed.

(** What follows the reading and the evaluation. *)
Definition reply_writes (conn : Conn) (spec : Outcome.Outcome * list Z)
    (r : option (result Outcome.Outcome Outcome.Outcome)) (sent : list Z) : Prop :=
  sent `prefix_of` spec.2 /\ (r = Some (Ok spec.1) \/ r = Some (Err Outcome.Write) \/ r = None) /\
  (r = Some (Ok spec.1) -> sent = spec.2) /\ ((forall i, write_answers conn i = WroteAll) -> r = Some (Ok spec.1)).

Lemma sends_reply conn m part outcome (w : Work Path Socket R) :
  sends conn m part outcome -> stream_sent (work_stream w) = [] ->
  let '(r, w') := m w in reply_writes conn (outcome, part) r (stream_sent (work_stream w')) /\ work_node w' = work_node w.
Proof.
  intros Hm Hs. specialize (Hm w). destruct (m w) as [r w']. destruct Hm as (Hn & p & -> & Hc). rewrite Hs. simpl.
  split; [|done]. unfold reply_writes. simpl. destruct Hc as [[-> ->]|([-> | ->] & Hp & Ha)].
  - split_and!; [done|by left|done|done].
  - split_and!; [done|by auto|done|done].
  - split_and!; [done|by auto|done|done].
Qed.
End Reply.

Section Handle.
Context `{Primitives} {R : Type} `{Rng R}.
Context {Path Socket : Type} `{Kernel Path Socket}.
Abbreviation node := (Node Path Socket R).

Lemma let_pair_mono {A B} (P Q : A -> B -> Prop) (x : A * B) :
  (forall a b, P a b -> Q a b) -> (let '(a, b) := x in P a b) -> let '(a, b) := x in Q a b.
Proof. destruct x. auto. Qed.

Lemma read_received conn (w : Work Path Socket R) :
  read_to_end conn (REQUEST_BYTES + 1) Outcome.Read w =
  (match received conn with
   | Some bytes => Some (Ok bytes)
   | None => match ending conn with Broken => Some (Err Outcome.Read) | _ => None end
   end, w).
Proof. unfold read_to_end, received. by destruct (_ <=? _)%nat, (ending conn). Qed.

Lemma handle_refines conn secret id (n : node) :
  let '(r, w) := handle conn secret id (mk_work n fresh_stream) in
  match received conn with
  | None => stream_sent (work_stream w) = [] /\
            r = match ending conn with Broken => Some (Err Outcome.Read) | _ => None end
  | Some bytes => reply_writes conn (worker_reply secret id bytes (node_entropy n)) r (stream_sent (work_stream w))
  end /\
  (is_ok (admit_request id (default [] (received conn))) = false -> node_entropy (work_node w) = node_entropy n).
Proof.
  unfold handle, mbind at 1 2, task_bind at 1 2, now_do at 1, owning. cbn [work_node start_timer read_clock].
  rewrite read_received. destruct (received conn) as [bytes|]; [|by destruct (ending conn)].
  change (default [] (Some bytes)) with bytes. unfold worker_reply. destruct (admit_request id bytes) as [request|outcome].
  - unfold mbind at 1 2 3 4 5, task_bind at 1 2 3 4 5, then_do, now_do. cbn [work_node start_timer read_clock].
    unfold evaluate_point. cbn [node_entropy finish_timer read_clock on_metrics].
    destruct (evaluate_with_entropy secret (request_point request) (node_entropy n)) as [evaluation rng]. cbn [fst].
    match goal with |- let '(_, _) := _ ?w in _ => set (w0 := w) end.
    assert (sends conn (_ ← match evaluation with
          | Ok evaluation => _ ← write_all conn [0] Outcome.Write; write_all conn (encode_response evaluation) Outcome.Write
          | Err _ => write_all conn [1] Outcome.Write
          end; _ ← shutdown conn Outcome.Write; mret (evaluation_outcome evaluation) : task Path Socket R _ _)
        (match evaluation with Ok evaluation => 0 :: encode_response evaluation | Err _ => [1] end)
        (evaluation_outcome evaluation)) as Hsends.
    { rewrite <- (app_nil_r (match evaluation with Ok evaluation => _ | Err _ => _ end)). eapply sends_bind.
      - destruct evaluation; [apply (sends_bind conn _ _ [0] _ tt); apply sends_write|apply sends_write].
      - eapply (sends_bind conn _ _ [] []); [apply sends_write|apply sends_ret]. }
    eapply let_pair_mono, (sends_reply conn _ _ _ w0 Hsends eq_refl). intros ? ? [? _]. by split.
  - unfold mbind at 1, task_bind at 1, then_do, now_do. cbn [work_node].
    match goal with |- let '(_, _) := _ ?w in _ => set (w0 := w) end.
    assert (sends conn (_ ← write_all conn [1] Outcome.Write; mret outcome : task Path Socket R _ _) ([1] ++ []) outcome) as Hsends.
    { eapply sends_bind; [apply sends_write|apply sends_ret]. }
    eapply let_pair_mono, (sends_reply conn _ _ _ w0 Hsends eq_refl). intros ? ? [? ->]. by split.
Qed.
End Handle.

(** * Properties *)

Section Properties.
Context `{Primitives} {R : Type} `{Rng R}.
Context {Path Socket : Type} `{Kernel Path Socket}.
Abbreviation node := (Node Path Socket R).

(** An evaluation leaves the worker only for the exact frame of its key. *)
Lemma reply_needs_frame secret id bytes (rng : R) :
  byte_slice bytes -> (worker_reply secret id bytes rng).2 <> [1] ->
  exists point evaluation, byte_array 49 point /\ byte_array 32 id /\ bytes = encode_request id point /\
    (evaluate_with_entropy secret point rng).1 = Ok evaluation /\
    worker_reply secret id bytes rng = (Outcome.Success, 0 :: encode_response evaluation).
Proof.
  intros Hb. unfold worker_reply, admit_request.
  destruct (decode_request bytes) as [request|e] eqn:Ed; [|done].
  case_bool_decide as Hid; [|done]. apply decode_request_iff in Ed as ([Hk Hkb] & [Hp Hpb] & Hbytes); [|done].
  destruct (evaluate_with_entropy secret (request_point request) rng) as [[evaluation|e] rng'] eqn:Ee; [|done]. simpl.
  intros _. subst id. exists (request_point request), evaluation.
  split_and!; [done|done|by rewrite encode_request_bytes|by rewrite Ee|done].
Qed.

(** What the served connections of a worker got. *)
Definition worker_served (secret : server) (conn : Conn) (outcome : Outcome.Outcome) (sent : list Z) : Prop :=
  match received conn with
  | None => sent = []
  | Some bytes => exists rng : R, sent `prefix_of` (worker_reply secret (key_id (server_public_key secret)) bytes rng).2
  end.

Lemma worker_task_ok secret conn (n : node) :
  let '(outcome, sent, n') := worker_task secret (key_id (server_public_key secret)) conn n in
  same_gauges n n' /\ worker_served secret conn outcome sent.
Proof.
  unfold worker_task.
  pose proof (handle_gauges conn secret (key_id (server_public_key secret)) (mk_work n fresh_stream)) as Hg.
  pose proof (handle_refines conn secret (key_id (server_public_key secret)) n) as Hr.
  destruct (handle _ _ _ _) as [r w]. destruct Hr as [Hr _]. split; [done|]. unfold worker_served.
  destruct (received conn); [exists (node_entropy n)|]; apply Hr.
Qed.

(** C28: whatever a connection delivers, the worker's handler implements the reply function: with a
    complete request it answers that reply and outcome, or a prefix of the reply when a write fails or
    the deadline cuts it off; an incomplete request gets nothing. An evaluation is answered only to the
    exact frame of a 49-byte point for the worker's own key identifier, every other request gets the one
    byte 1, and a refused request draws no randomness. *)
Theorem worker_connection conn secret id (n : node) :
  (let '(r, w) := handle conn secret id (mk_work n fresh_stream) in
   match received conn with
   | None => stream_sent (work_stream w) = [] /\
             r = match ending conn with Broken => Some (Err Outcome.Read) | _ => None end
   | Some bytes => reply_writes conn (worker_reply secret id bytes (node_entropy n)) r (stream_sent (work_stream w))
   end /\
   (is_ok (admit_request id (default [] (received conn))) = false -> node_entropy (work_node w) = node_entropy n)) /\
  (forall bytes (rng : R), byte_slice bytes -> (worker_reply secret id bytes rng).2 <> [1] ->
     exists point evaluation, byte_array 49 point /\ byte_array 32 id /\ bytes = encode_request id point /\
       (evaluate_with_entropy secret point rng).1 = Ok evaluation /\
       worker_reply secret id bytes rng = (Outcome.Success, 0 :: encode_response evaluation)).
Proof. split; [apply handle_refines|apply reply_needs_frame]. Qed.

(** What is true of a worker that starts to serve with its counters at zero. *)
Lemma worker_serve_within secret allowed_uid (n : node) moves :
  inflight (node_metrics n) = 0 -> admissions (node_metrics n) = replicate (length Admission.ALL) 0 -> Z.of_nat (length moves) < 2 ^ 64 ->
  let s := worker_serve (Path := Path) (Socket := Socket) secret allowed_uid n moves in
  (length (running (serving_pool s)) <= 8)%nat /\
  inflight (node_metrics (serving_node s)) = Z.of_nat (length (running (serving_pool s))) /\
  Forall (fun j => peer_uid (job_conn j) = Some allowed_uid) (running (serving_pool s)) /\
  Forall (fun fate => match fate with
    | RefusedPeer conn _ => peer_uid conn <> Some allowed_uid
    | RefusedCapacity conn busy => peer_uid conn = Some allowed_uid /\ busy = 8%nat
    | ServedConn conn outcome sent => peer_uid conn = Some allowed_uid /\ worker_served secret conn outcome sent
    end) (serving_log s) /\
  admissions (node_metrics (serving_node s)) = map (fun a => Z.of_nat (tally s a)) Admission.ALL.
Proof.
  intros Hi Ha Hlen. assert (forall conn, check_peer allowed_uid conn = None <-> peer_uid conn = Some allowed_uid) as Hpeer.
  { intros conn. unfold check_peer. destruct (peer_uid conn) as [uid|]; [|done].
    destruct (Z.eqb_spec uid allowed_uid); split; congruence. }
  destruct (serve_within MAX_WORK (check_peer allowed_uid) "admission" ServiceStage.Worker
    (worker_task secret (key_id (server_public_key secret))) (worker_served secret)
    ltac:(intros conn refusal; unfold check_peer; by repeat case_match; intros [= <-])
    ltac:(intros conn n' _; apply worker_task_ok)
    n moves Hi Ha Hlen) as [A1 A2 A3 A4 A5].
  cbv zeta. split_and!; [|exact A2| | |exact A5].
  - apply (Nat.le_trans _ _ _ (Nat.le_add_l _ _) (Nat.eq_le_incl _ _ A1)).
  - eapply Forall_impl; [exact A3|]. intros j. apply Hpeer.
  - eapply Forall_impl; [exact A4|]. intros [conn why|conn busy|conn outcome sent]; simpl.
    + intros (refusal & Hc & _) Hp. apply Hpeer in Hp. congruence.
    + by rewrite Hpeer.
    + by rewrite Hpeer.
Qed.

(** In every sequence of accepts, polls and completions, at most eight connections are in service
    and the in-flight gauge is their number; only connections whose kernel credentials carry the allowed
    user are served, and each got a prefix of its reply; a connection of that user is turned away only
    when exactly eight are in service; and the admission counters are the numbers of connections admitted
    and refused for each reason. *)
Theorem worker_admission secret allowed_uid emitter now calls (rng : R) moves :
  Z.of_nat (length moves) < 2 ^ 64 ->
  let s := worker_serve (Path := Path) (Socket := Socket) secret allowed_uid
             (mk_node (new_metrics emitter now WorkerRole 8) calls rng []) moves in
  (length (running (serving_pool s)) <= 8)%nat /\
  inflight (node_metrics (serving_node s)) = Z.of_nat (length (running (serving_pool s))) /\
  Forall (fun j => peer_uid (job_conn j) = Some allowed_uid) (running (serving_pool s)) /\
  Forall (fun fate => match fate with
    | RefusedPeer conn _ => peer_uid conn <> Some allowed_uid
    | RefusedCapacity conn busy => peer_uid conn = Some allowed_uid /\ busy = 8%nat
    | ServedConn conn outcome sent => peer_uid conn = Some allowed_uid /\ worker_served secret conn outcome sent
    end) (serving_log s) /\
  admissions (node_metrics (serving_node s)) = map (fun a => Z.of_nat (tally s a)) Admission.ALL.
Proof. by apply worker_serve_within. Qed.
End Properties.
