(* ===== verification/Frontend.v ===== *)
(** The TLS frontend, [leelod/src/server.rs]: request validation, the exchange with the key worker over
    its Unix socket, the responses, and the connections that carry them. *)
From stdpp Require Import base list strings.
From Stdlib Require Import ZArith Lia.
From S2P Require Import Prelude Sss Crypto Wire Policy Float64 Text Telemetry ServiceMetrics Service Listener.

Open Scope Z_scope.

Definition MAX_CONNECTIONS : nat := 64.
Definition CONTENT_TYPE : string := "application/vnd.leelo.network-bound-v1".
Definition EVALUATE_PATH : string := "/v1/evaluate".

(** * HTTP messages and the library that carries them *)

(** Header fields in order, by their lower-case names. *)
Abbreviation Headers := (list (string * list Z)).

(** A body: what arrives of it, and how it ends. *)
Record HttpBody : Type := mk_http_body { sent_bytes : list Z; sent_end : Ending }.

Record HttpRequest : Type := mk_http_request {
  req_method : string;
  req_path : string;
  req_query : option string;
  req_headers : Headers;
  req_body : HttpBody;
}.

Record Response : Type := mk_response { status : Z; resp_headers : Headers; resp_body : list Z }.

Inductive Routed : Type := Matched | RouteNotFound | RouteMethod.

(** [HeaderValue::to_str], [axum::body::to_bytes] and the routing of [Router::route(path, post(..))]. *)
Class HttpLibrary : Type := {
  header_text : list Z -> option string;
  to_bytes : HttpBody -> nat -> option (result unit (list Z));
  post_route : string -> HttpRequest -> Routed;
}.

Class HttpLaws `{HttpLibrary} : Prop := {
  header_text_content_type : header_text (bytes_of_string CONTENT_TYPE) = Some CONTENT_TYPE;
  header_text_exact : forall v s, header_text v = Some s -> v = bytes_of_string s;
  to_bytes_within : forall b limit, (length b <= limit)%nat -> to_bytes (mk_http_body b AtEof) limit = Some (Ok b);
  to_bytes_exact : forall body limit b, to_bytes body limit = Some (Ok b) ->
    body = mk_http_body b AtEof /\ (length b <= limit)%nat;
  route_matches : forall path request, req_path request = path -> req_method request = "POST" ->
    post_route path request = Matched;
  route_exact : forall path request, post_route path request = Matched ->
    req_path request = path /\ req_method request = "POST";
}.

Definition header_values (name : string) (headers : Headers) : list (list Z) :=
  map snd (List.filter (fun h => bool_decide (h.1 = name)) headers).

(** [headers.get(name).and_then(|v| v.to_str().ok()) == Some(CONTENT_TYPE)], exactly one such field, and
    no content encoding. *)
Definition content_type_ok `{HttpLibrary} (headers : Headers) : bool :=
  bool_decide (head (header_values "content-type" headers) ≫= header_text = Some CONTENT_TYPE)
  && (length (header_values "content-type" headers) =? 1)%nat
  && (length (header_values "content-encoding" headers) =? 0)%nat.

(** The connection to the worker's socket, or its failure. *)
Inductive Link : Type := NoLink (stalled : bool) | Linked (conn : Conn).

Section Frontend.
Context `{HttpLibrary} {R Path Socket : Type} `{Kernel Path Socket}.
Abbreviation node := (Node Path Socket R).
Abbreviation job := (task Path Socket R).

(** * The exchange with the worker *)

(** The checks on what the worker sent. *)
Definition check_reply (response : list Z) : result Outcome.Outcome (list Z) :=
  if bool_decide (response = [1]) then Err Outcome.Refused
  else if bool_decide (response = []) then Err Outcome.Eof
  else if negb (length response =? RESPONSE_BYTES + 1)%nat
          || negb (bool_decide (head response = Some 0))
          || negb (is_ok (decode_response (drop 1 response))) then Err Outcome.Frame
  else Ok (drop 1 response).

(** Return an outcome that is already known. *)
Definition returning {E A} (r : result E A) : job E A := fun w => (Some r, w).

Definition exchange (link : Link) (request : list Z) : job Outcome.Outcome (list Z) :=
  match link with
  | NoLink stalled => fun w => (if stalled then None else Some (Err Outcome.Connect), w)
  | Linked conn =>
      _ ← write_all conn request Outcome.Write;
      _ ← shutdown conn Outcome.Write;
      response ← read_to_end conn (RESPONSE_BYTES + 2) Outcome.Read;
      returning (check_reply response)
  end.

(** * One request *)

Definition plain_response (status : Z) : Response := mk_response status [] [].

(** The checks on the request line and the headers. *)
Definition headers_ok (request : HttpRequest) : bool :=
  bool_decide (req_path request = EVALUATE_PATH)
  && bool_decide (req_query request = None)
  && content_type_ok (req_headers request).

(** [timeout(IPC_DEADLINE, operation)]: a stalled operation times out, unless the deadline of the whole
    connection comes first. *)
Definition ipc_timeout {A} (hurried : bool) (operation : job Outcome.Outcome A)
    : job Empty_set (result Outcome.Outcome A) := fun w =>
  match operation w with
  | (Some r, w') => (Some (Ok r), w')
  | (None, w') => (if hurried then None else Some (Ok (Err Outcome.Timeout)), w')
  end.

Definition read_body (request : HttpRequest) : job Empty_set (result unit (list Z)) := fun w =>
  (Ok <$> to_bytes (req_body request) REQUEST_BYTES, w).

Definition evaluate (link : Link) (hurried : bool) (request : HttpRequest) : job Empty_set Response :=
  timer ← now_do (start_timer ServiceStage.Validation);
  if negb (headers_ok request) then
    _ ← then_do (finish_timer timer Outcome.Headers);
    mret (plain_response 400)
  else
  body ← owning timer (read_body request);
  match body with
  | Err _ =>
      _ ← then_do (finish_timer timer Outcome.Body);
      mret (plain_response 400)
  | Ok bytes =>
      if negb (is_ok (decode_request bytes)) then
        _ ← then_do (finish_timer timer Outcome.Frame);
        mret (plain_response 400)
      else
      _ ← then_do (finish_timer timer Outcome.Success);
      timer ← now_do (start_timer ServiceStage.Ipc);
      result ← owning timer (ipc_timeout hurried (exchange link bytes));
      match result with
      | Ok response =>
          _ ← then_do (finish_timer timer Outcome.Success);
          mret (mk_response 200 [("content-type", bytes_of_string CONTENT_TYPE)] response)
      | Err reason =>
          _ ← then_do (fun n =>
            if bool_decide (reason = Outcome.Frame \/ reason = Outcome.Eof)
            then emit_event "worker_reply_invalid" "ipc" "failure" "invalid_reply" n else n);
          _ ← then_do (finish_timer timer reason);
          mret (plain_response 503)
      end
  end.

Definition http_outcome (status : Z) : Outcome.Outcome :=
  if status =? 200 then Outcome.Success
  else if status =? 400 then Outcome.Protocol
  else if status =? 404 then Outcome.NotFound
  else if status =? 405 then Outcome.Method
  else if status =? 503 then Outcome.Unavailable
  else Outcome.Other.

(** [router]: one route, under the middleware [observe_http]. *)
Definition route (link : Link) (hurried : bool) (request : HttpRequest) : job Empty_set Response :=
  match post_route EVALUATE_PATH request with
  | Matched => evaluate link hurried request
  | RouteNotFound => mret (plain_response 404)
  | RouteMethod => mret (plain_response 405)
  end.

Definition observe_http (link : Link) (hurried : bool) (request : HttpRequest) : job Empty_set Response :=
  timer ← now_do (start_timer ServiceStage.Http);
  response ← owning timer (route link hurried request);
  _ ← then_do (on_metrics (fun m => http_status m (status response)));
  _ ← then_do (finish_timer timer (http_outcome (status response)));
  mret response.

(** * Connections *)

(** How the TLS handshake ends within its two seconds. *)
Inductive TlsAnswer : Type := TlsEstablished | TlsFailed | TlsSlow.

(** How [serve_connection] ends, by the kind of its error; it may stall until the deadline. *)
Inductive HttpEnd : Type := HttpDone | HttpTimeout | HttpParse | HttpIncomplete | HttpOther | HttpStalled.

(** A client: its handshake, the request it completes if any with the link it is forwarded on, and the
    end of the connection. Connections are not kept alive, so there is at most one request. *)
Record Client : Type := mk_client {
  client_tls : TlsAnswer;
  client_request : option (HttpRequest * Link * bool);
  client_end : HttpEnd;
}.

Definition http_end (e : HttpEnd) : option Outcome.Outcome :=
  match e with
  | HttpDone => Some Outcome.Success
  | HttpTimeout => Some Outcome.Timeout
  | HttpParse => Some Outcome.Protocol
  | HttpIncomplete => Some Outcome.Eof
  | HttpOther => Some Outcome.Io
  | HttpStalled => None
  end.

Definition end_connection (client : Client) (response : option Response)
    : job Empty_set (option Response * Outcome.Outcome) := fun w =>
  (match http_end (client_end client) with Some outcome => Some (Ok (response, outcome)) | None => None end, w).

(** [http.serve_connection(tls, app)]: the response, if any, and the outcome. *)
Definition serve_connection (client : Client) : job Empty_set (option Response * Outcome.Outcome) :=
  response ← match client_request client with
             | Some (request, link, hurried) =>
                 response ← observe_http link hurried request; mret (Some response)
             | None => mret None
             end;
  end_connection client response.

Definition connection (client : Client) : job Empty_set (option Response * Outcome.Outcome) :=
  tls_timer ← now_do (start_timer ServiceStage.Tls);
  match client_tls client with
  | TlsEstablished => _ ← then_do (finish_timer tls_timer Outcome.Success); serve_connection client
  | TlsFailed => _ ← then_do (finish_timer tls_timer Outcome.Protocol); mret (None, Outcome.Protocol)
  | TlsSlow => _ ← then_do (finish_timer tls_timer Outcome.Timeout); mret (None, Outcome.Timeout)
  end.

(** The spawned task: [timeout(CONNECTION_DEADLINE, connection)]. What it did is the bytes forwarded to
    the worker. *)
Definition frontend_task (client : Client) (n : node) : Outcome.Outcome * list Z * node :=
  let '(r, w) := connection client (mk_work n fresh_stream) in
  (match r with Some (Ok (_, outcome)) => outcome | _ => Outcome.Timeout end,
   stream_sent (work_stream w), work_node w).

(** [serve]: every TCP connection is admitted while there are permits. *)
Definition frontend_serve (n : node) (moves : list (Move Client)) : Serving Path Socket R Client (list Z) :=
  serve_moves MAX_CONNECTIONS (fun _ => None) "connection" ServiceStage.Connection frontend_task n moves.
End Frontend.

(** * What a request leads to *)

Section Behaviour.
Context `{HttpLaws} {R Path Socket : Type} `{Kernel Path Socket}.
Abbreviation node := (Node Path Socket R).
Abbreviation job := (task Path Socket R).

(** The frames the frontend takes, as the wire protocol has them. *)
Definition acceptable (request : HttpRequest) (bytes : list Z) : Prop :=
  req_method request = "POST" /\ req_path request = EVALUATE_PATH /\ req_query request = None /\
  header_values "content-type" (req_headers request) = [bytes_of_string CONTENT_TYPE] /\
  header_values "content-encoding" (req_headers request) = [] /\
  req_body request = mk_http_body bytes AtEof /\ is_ok (decode_request bytes) = true.

Lemma content_type_iff headers :
  content_type_ok headers = true <->
  header_values "content-type" headers = [bytes_of_string CONTENT_TYPE] /\ header_values "content-encoding" headers = [].
Proof.
  unfold content_type_ok. rewrite !andb_true_iff, bool_decide_eq_true, !Nat.eqb_eq, length_zero_iff_nil. split.
  - intros [[Ht Hl] He]. split; [|done]. destruct (header_values "content-type" headers) as [|v [|]]; [done| |done].
    simpl in Ht. by rewrite (header_text_exact _ _ Ht).
  - intros [-> ->]. split_and!; [|done..]. simpl. apply header_text_content_type.
Qed.

Lemma decode_request_length bytes : is_ok (decode_request bytes) = true -> length bytes = REQUEST_BYTES.
Proof. unfold decode_request. by destruct (Nat.eqb_spec (length bytes) REQUEST_BYTES). Qed.

Lemma acceptable_iff request bytes :
  acceptable request bytes <->
  post_route EVALUATE_PATH request = Matched /\ headers_ok request = true /\
  to_bytes (req_body request) REQUEST_BYTES = Some (Ok bytes) /\ is_ok (decode_request bytes) = true.
Proof.
  unfold acceptable, headers_ok. rewrite !andb_true_iff, !bool_decide_eq_true, content_type_iff. split.
  - intros (A1 & A2 & A3 & A4 & A5 & A6 & A7). split_and!; try done; [by apply route_matches|].
    rewrite A6. apply to_bytes_within. by rewrite (decode_request_length _ A7).
  - intros (Hr & ((A1 & A2) & A3 & A4) & Hb & Hd). apply route_exact in Hr as [? ?]. apply to_bytes_exact in Hb as [-> _].
    by split_and!.
Qed.

(** ** The exchange *)

(** A whole reply of the worker: a zero byte and one response frame, then the end of the stream. *)
Definition full_reply (conn : Conn) (response : list Z) : Prop :=
  incoming conn = 0 :: response /\ ending conn = AtEof /\ is_ok (decode_response response) = true.

Lemma decode_response_length bytes : is_ok (decode_response bytes) = true -> length bytes = RESPONSE_BYTES.
Proof. unfold decode_response. by destruct (Nat.eqb_spec (length bytes) RESPONSE_BYTES). Qed.

Lemma check_reply_iff response r :
  check_reply response = Ok r <-> response = 0 :: r /\ is_ok (decode_response r) = true.
Proof.
  unfold check_reply. split.
  - repeat case_bool_decide; try done; destruct (Nat.eqb_spec (length response) (RESPONSE_BYTES + 1)); simpl; try done.
    destruct response as [|z l]; [done|]. simplify_eq/=. rewrite drop_0.
    destruct (is_ok (decode_response l)) eqn:E; [|done]. by intros [= <-].
  - intros [-> Hr]. rewrite !bool_decide_eq_false_2 by done. simpl. rewrite drop_0, Hr.
    by rewrite (decode_response_length _ Hr).
Qed.

(** What an exchange may do: it keeps the counters, puts a prefix of the request on the link, and
    succeeds only with a whole reply after the whole request. *)
Definition exchange_post (link : Link) (bytes : list Z) (r : option (result Outcome.Outcome (list Z)))
    (w w' : Work Path Socket R) : Prop :=
  work_node w' = work_node w /\
  exists p, stream_sent (work_stream w') = stream_sent (work_stream w) ++ p /\ p `prefix_of` bytes /\
    forall response, r = Some (Ok response) -> exists conn, link = Linked conn /\ p = bytes /\ full_reply conn response.

Lemma exchange_sound link bytes (w : Work Path Socket R) :
  let '(r, w') := exchange link bytes w in exchange_post link bytes r w w'.
Proof.
  destruct link as [stalled|conn]; cbn [exchange].
  { split; [done|]. exists []. rewrite app_nil_r. split_and!; [done|by apply prefix_nil|by destruct stalled]. }
  unfold mbind, task_bind. pose proof (write_all_cases conn bytes Outcome.Write w) as Hw.
  destruct (write_all conn bytes Outcome.Write w) as [r1 w1]. destruct Hw as (Hn1 & _ & Hc1).
  destruct Hc1 as [[-> Hs1]|[Hr1 [[k Hs1] _]]].
  2: { destruct Hr1 as [-> | ->]; (split; [done|]; exists (take k bytes); split_and!;
         [done|exists (drop k bytes); by rewrite take_drop|done]). }
  unfold shutdown. pose proof (write_all_cases conn [] Outcome.Write w1) as Hw.
  destruct (write_all conn [] Outcome.Write w1) as [r2 w2]. destruct Hw as (Hn2 & _ & Hc2).
  assert (stream_sent (work_stream w2) = stream_sent (work_stream w) ++ bytes) as Hs2.
  { destruct Hc2 as [[_ Hs2]|[_ [[k Hs2] _]]]; rewrite Hs2, ?take_nil, app_nil_r; done. }
  destruct Hc2 as [[-> _]|[[-> | ->] _]];
    [|split; [congruence|]; exists bytes; split_and!; [done|done|done]..].
  assert (exchange_post (Linked conn) bytes None w w2) as Hpost.
  { split; [congruence|]. exists bytes. by split_and!. }
  destruct Hpost as (Hnode & _). unfold read_to_end.
  assert (forall (r : result Outcome.Outcome (list Z)), (forall response, r = Ok response -> full_reply conn response) ->
            exchange_post (Linked conn) bytes (Some r) w w2) as Hdone.
  { intros r Hr. split; [done|]. exists bytes. split_and!; [done|done|]. intros response [= ->]. exists conn. by split_and!; [..|apply Hr]. }
  destruct (Nat.leb_spec (RESPONSE_BYTES + 2) (length (incoming conn))) as [Hlen|Hlen]; cbn [returning].
  - apply Hdone. intros response [Hr Hd]%check_reply_iff. apply (f_equal length) in Hr.
    rewrite length_take in Hr. cbn [length] in Hr. rewrite (decode_response_length _ Hd) in Hr. lia.
  - destruct (ending conn) eqn:Eend; [|by apply Hdone|split; [done|]; exists bytes; by split_and!].
    apply Hdone. intros response [Hr Hd]%check_reply_iff. by split_and!.
Qed.

(** A worker that replies in full over a link that takes the request. *)
Lemma exchange_complete conn bytes response (w : Work Path Socket R) :
  (forall i, write_answers conn i = WroteAll) -> full_reply conn response ->
  exists w', exchange (Linked conn) bytes w = (Some (Ok response), w').
Proof.
  intros Hwrites (Hin & Hend & Hd). cbn [exchange]. unfold mbind, task_bind, shutdown, write_all, read_to_end.
  rewrite !Hwrites, Hin. cbn [length]. rewrite (decode_response_length _ Hd), Hend.
  change (RESPONSE_BYTES + 2 <=? S RESPONSE_BYTES)%nat with false. cbn [work_node work_stream]. unfold returning. rewrite (proj2 (check_reply_iff (0 :: response) response)) by done. by eexists.
Qed.

(** ** Requests *)

(** What [evaluate] may answer, and what it may have put on the link. *)
Definition evaluate_post (link : Link) (request : HttpRequest) (r : option (result Empty_set Response)) (sent : list Z) : Prop :=
  (sent = [] \/ exists bytes, acceptable request bytes /\ sent `prefix_of` bytes) /\
  match r with
  | Some (Ok response) =>
      (status response = 400 /\ (forall bytes, ~ acceptable request bytes) /\ sent = []) \/
      (status response = 503 /\ exists bytes, acceptable request bytes) \/
      (status response = 200 /\ exists bytes conn, acceptable request bytes /\ link = Linked conn /\ sent = bytes /\
         full_reply conn (resp_body response) /\
         header_values "content-type" (resp_headers response) = [bytes_of_string CONTENT_TYPE] /\
         header_values "content-encoding" (resp_headers response) = [])
  | _ => True
  end.

Lemma ipc_timeout_cases {A} hurried (operation : job Outcome.Outcome A) w :
  exists r, ipc_timeout hurried operation w =
    (match r with Some x => Some (Ok x) | None => None end, (operation w).2) /\
    forall a, r = Some (Ok a) -> (operation w).1 = Some (Ok a).
Proof.
  unfold ipc_timeout. destruct (operation w) as [[x|] w']; [by exists (Some x); split; [|intros a [= ->]]|].
  destruct hurried; [by exists None|by exists (Some (Err Outcome.Timeout))].
Qed.

Lemma evaluate_sound link hurried request (n : node) :
  post_route EVALUATE_PATH request = Matched ->
  let '(r, w) := evaluate link hurried request (mk_work n fresh_stream) in
  evaluate_post link request r (stream_sent (work_stream w)).
Proof.
  intros Hroute. unfold evaluate, mbind at 1, task_bind at 1, now_do at 1. cbn [start_timer read_clock work_node].
  destruct (headers_ok request) eqn:Hh; cbn [negb].
  2: { split; [by left|]. left. split_and!; [done| |done]. intros bytes Ha. apply acceptable_iff in Ha as (_ & ? & _). congruence. }
  unfold mbind at 1, task_bind at 1, owning, read_body.
  destruct (to_bytes (req_body request) REQUEST_BYTES) as [[bytes|e]|] eqn:Hb; cbn [fmap option_fmap option_map].
  3: { split; [by left|done]. }
  2: { split; [by left|]. left. split_and!; [done| |done]. intros bytes Ha. apply acceptable_iff in Ha as (_ & _ & ? & _). congruence. }
  destruct (is_ok (decode_request bytes)) eqn:Hd; cbn [negb].
  2: { split; [by left|]. left. split_and!; [done| |done]. intros bytes' Ha. apply acceptable_iff in Ha as (_ & _ & ? & ?). congruence. }
  assert (acceptable request bytes) as Hacc by by apply acceptable_iff.
  unfold mbind at 1 2, task_bind at 1 2, then_do at 1, now_do at 1 2. cbn [start_timer read_clock work_node work_stream].
  match goal with |- context [mk_work ?n fresh_stream] => set (w0 := mk_work n fresh_stream) end.
  unfold mbind at 1, task_bind at 1.
  destruct (ipc_timeout_cases hurried (exchange link bytes) w0) as (r & -> & Hr).
  pose proof (exchange_sound link bytes w0) as Hx. destruct (exchange link bytes w0) as [r' w1]. cbn [fst snd] in *.
  destruct Hx as (_ & p & Hsent & Hp & Hok). simpl in Hsent.
  assert (stream_sent (work_stream w1) = [] \/ exists bytes, acceptable request bytes /\ stream_sent (work_stream w1) `prefix_of` bytes)
    as Hfirst by (right; exists bytes; by rewrite Hsent).
  destruct r as [[response|reason]|]; (split; [exact Hfirst|]); [|right; left; split; [done|by exists bytes]|done].
  right; right. split; [done|]. destruct (Hok response (Hr _ eq_refl)) as (conn & -> & -> & Hfull).
  exists bytes, conn. split_and!; [done|done|exact Hsent|exact Hfull|done|done].
Qed.

Lemma evaluate_complete conn hurried request bytes response (n : node) :
  acceptable request bytes -> (forall i, write_answers conn i = WroteAll) -> full_reply conn response ->
  exists w, evaluate (Linked conn) hurried request (mk_work n fresh_stream) =
    (Some (Ok (mk_response 200 [("content-type", bytes_of_string CONTENT_TYPE)] response)), w).
Proof.
  intros Hacc Hwrites Hfull. apply acceptable_iff in Hacc as (_ & Hh & Hb & Hd).
  unfold evaluate, mbind at 1, task_bind at 1, now_do at 1. cbn [start_timer read_clock work_node]. rewrite Hh. cbn [negb].
  unfold mbind at 1, task_bind at 1, owning, read_body. rewrite Hb. cbn [fmap option_fmap option_map]. rewrite Hd. cbn [negb].
  unfold mbind at 1 2, task_bind at 1 2, then_do at 1, now_do at 1 2. cbn [start_timer read_clock work_node work_stream].
  match goal with |- context [mk_work ?n fresh_stream] => set (w0 := mk_work n fresh_stream) end.
  unfold mbind at 1, task_bind at 1, ipc_timeout.
  destruct (exchange_complete conn bytes response w0 Hwrites Hfull) as (w1 & ->). by eexists.
Qed.

(** The middleware passes the answer on. *)
Lemma observe_http_answer link hurried request (n : node) :
  let '(r, w) := observe_http link hurried request (mk_work n fresh_stream) in
  let '(r', w') := route link hurried request (mk_work (start_timer ServiceStage.Http n).2 fresh_stream) in
  r = r' /\ stream_sent (work_stream w) = stream_sent (work_stream w').
Proof.
  unfold observe_http, mbind at 1, task_bind at 1, now_do at 1. cbn [start_timer read_clock work_node work_stream snd].
  unfold mbind at 1, task_bind at 1, owning.
  destruct (route link hurried request _) as [[[response|[]]|] w']; by split.
Qed.

Lemma route_sound link hurried request (n : node) :
  let '(r, w) := route link hurried request (mk_work n fresh_stream) in
  match post_route EVALUATE_PATH request with
  | Matched => evaluate_post link request r (stream_sent (work_stream w))
  | RouteNotFound => r = Some (Ok (plain_response 404)) /\ stream_sent (work_stream w) = []
  | RouteMethod => r = Some (Ok (plain_response 405)) /\ stream_sent (work_stream w) = []
  end.
Proof.
  unfold route. destruct (post_route EVALUATE_PATH request) eqn:E; [|done..].
  by apply evaluate_sound.
Qed.

(** A full reply of the worker is answered, and without one there is no 200. *)
Lemma observe_http_complete conn hurried request bytes response (n : node) :
  acceptable request bytes -> (forall i, write_answers conn i = WroteAll) -> full_reply conn response ->
  (observe_http (Linked conn) hurried request (mk_work n fresh_stream)).1 =
    Some (Ok (mk_response 200 [("content-type", bytes_of_string CONTENT_TYPE)] response)).
Proof.
  intros Ha Hw Hf. pose proof (observe_http_answer (Linked conn) hurried request n) as Ho.
  destruct (evaluate_complete conn hurried request bytes response (start_timer ServiceStage.Http n).2 Ha Hw Hf) as [w' He].
  unfold route in Ho. rewrite (proj1 (proj1 (acceptable_iff _ _) Ha)), He in Ho.
  destruct (observe_http _ _ _ _) as [r w]. by destruct Ho as [-> _].
Qed.

Lemma observe_http_unfull conn hurried request bytes (n : node) response :
  acceptable request bytes -> (forall r, ~ full_reply conn r) ->
  (observe_http (Linked conn) hurried request (mk_work n fresh_stream)).1 = Some (Ok response) -> status response <> 200.
Proof.
  intros Ha Hno. pose proof (observe_http_answer (Linked conn) hurried request n) as Ho.
  pose proof (route_sound (Linked conn) hurried request (start_timer ServiceStage.Http n).2) as Hr.
  rewrite (proj1 (proj1 (acceptable_iff _ _) Ha)) in Hr. destruct (observe_http _ _ _ _) as [r w].
  destruct (route _ _ _ _) as [r' w']. destruct Ho as [-> _]. cbn [fst]. intros ->. destruct Hr as [_ Hr].
  destruct Hr as [[Hs _]|[[Hs _]|(_ & bytes' & conn' & _ & [= <-] & _ & Hf & _)]]; [lia|lia|]. by apply Hno in Hf.
Qed.

(** The frontend always answers a body that ends, whatever the worker does. *)
Lemma observe_http_total link request (n : node) :
  to_bytes (req_body request) REQUEST_BYTES <> None ->
  exists response, (observe_http link false request (mk_work n fresh_stream)).1 = Some (Ok response).
Proof.
  intros Hbody. pose proof (observe_http_answer link false request n) as Ho.
  enough (exists response, (route link false request (mk_work (start_timer ServiceStage.Http n).2 fresh_stream)).1 = Some (Ok response))
    as [response Hr].
  { exists response. destruct (observe_http _ _ _ _) as [r w], (route _ _ _ _) as [r' w']. by destruct Ho as [-> _]. }
  unfold route. destruct (post_route EVALUATE_PATH request); [|by eexists..].
  unfold evaluate, mbind, task_bind, now_do, then_do, now_do, owning, read_body, mret, task_ret, ipc_timeout.
  cbn [start_timer read_clock work_node work_stream].
  destruct (negb (headers_ok request)); [by eexists|]. destruct (to_bytes _ _) as [[bytes|e]|]; [|by eexists|done].
  cbn [fmap option_fmap option_map]. destruct (negb _); [by eexists|].
  destruct (exchange link bytes _) as [[[response|reason]|] w1]; by eexists.
Qed.

(** ** Connections *)

Lemma exchange_gauges link bytes : keeps_gauges (R := R) (Path := Path) (Socket := Socket) (exchange link bytes).
Proof. destruct link; [by intros w|]. cbn [exchange]. unfold shutdown. keeping_gauges. by intros w. Qed.

Lemma ipc_timeout_gauges {A} hurried (m : job Outcome.Outcome A) : keeps_gauges m -> keeps_gauges (ipc_timeout hurried m).
Proof. intros Hm w. unfold ipc_timeout. specialize (Hm w). by destruct (m w) as [[r|] w']. Qed.

Lemma read_body_gauges request : keeps_gauges (R := R) (Path := Path) (Socket := Socket) (read_body request).
Proof. by intros w. Qed.

#[local] Hint Resolve exchange_gauges ipc_timeout_gauges read_body_gauges : leelo.

Lemma evaluate_gauges link hurried request :
  keeps_gauges (R := R) (Path := Path) (Socket := Socket) (evaluate link hurried request).
Proof. unfold evaluate. keeping_gauges; done. Qed.

#[local] Hint Resolve evaluate_gauges : leelo.

Lemma route_gauges link hurried request : keeps_gauges (R := R) (Path := Path) (Socket := Socket) (route link hurried request).
Proof. unfold route. keeping_gauges. Qed.

#[local] Hint Resolve route_gauges : leelo.

Lemma observe_http_gauges link hurried request :
  keeps_gauges (R := R) (Path := Path) (Socket := Socket) (observe_http link hurried request).
Proof. unfold observe_http. keeping_gauges; done. Qed.

#[local] Hint Resolve observe_http_gauges : leelo.

Lemma connection_gauges client : keeps_gauges (R := R) (Path := Path) (Socket := Socket) (connection client).
Proof. unfold connection, serve_connection. keeping_gauges; try done; by intros w. Qed.
End Behaviour.

(** * Properties *)

Section Properties.
Context `{HttpLaws} {R Path Socket : Type} `{Kernel Path Socket}.
Abbreviation node := (Node Path Socket R).

(** C29: the frontend forwards to the worker nothing but a prefix of an acceptable request frame: one
    POST to the evaluation path without query, with the one content type, no content encoding and a body
    that decodes. It answers 200 only with a frame that decodes, received whole from the worker after
    the whole request was forwarded; 400 exactly when a routed request is not acceptable, 503 when the
    exchange failed, 404 or 405 when the request is not routed; and when the worker replies in full it
    answers 200 with that reply. *)
Theorem frontend_request link hurried request (n : node) :
  let '(r, w) := observe_http link hurried request (mk_work n fresh_stream) in
  let sent := stream_sent (work_stream w) in
  (sent = [] \/ exists bytes, acceptable request bytes /\ sent `prefix_of` bytes) /\
  match r with
  | Some (Ok response) =>
      (status response = 200 /\ exists bytes conn, acceptable request bytes /\ link = Linked conn /\ sent = bytes /\
         full_reply conn (resp_body response) /\
         header_values "content-type" (resp_headers response) = [bytes_of_string CONTENT_TYPE] /\
         header_values "content-encoding" (resp_headers response) = []) \/
      (status response = 503 /\ exists bytes, acceptable request bytes) \/
      (status response = 400 /\ (forall bytes, ~ acceptable request bytes) /\ sent = []) \/
      ((status response = 404 \/ status response = 405) /\ post_route EVALUATE_PATH request <> Matched /\ sent = [])
  | Some (Err impossible) => match impossible with end
  | None => True
  end /\
  (forall bytes conn response, acceptable request bytes -> link = Linked conn ->
     (forall i, write_answers conn i = WroteAll) -> full_reply conn response ->
     r = Some (Ok (mk_response 200 [("content-type", bytes_of_string CONTENT_TYPE)] response))).
Proof.
  pose proof (observe_http_answer link hurried request n) as Ho.
  pose proof (route_sound link hurried request (start_timer ServiceStage.Http n).2) as Hr.
  assert (forall bytes conn response, acceptable request bytes -> link = Linked conn ->
     (forall i, write_answers conn i = WroteAll) -> full_reply conn response ->
     (observe_http link hurried request (mk_work n fresh_stream)).1 =
       Some (Ok (mk_response 200 [("content-type", bytes_of_string CONTENT_TYPE)] response))) as Hlive.
  { intros bytes conn response Ha ->. by apply (observe_http_complete conn hurried request bytes). }
  destruct (observe_http link hurried request (mk_work n fresh_stream)) as [r w].
  destruct (route link hurried request _) as [r' w']. destruct Ho as [<- ->]. cbn [fst] in Hlive.
  split; [|split; [|exact Hlive]].
  - destruct (post_route EVALUATE_PATH request); [apply Hr|left; apply Hr..].
  - destruct (post_route EVALUATE_PATH request).
    + destruct Hr as [_ Hr]. destruct r as [[response|[]]|]; [tauto|done].
    + destruct Hr as [-> Hs]. right; right; right. by split_and!; [left| |].
    + destruct Hr as [-> Hs]. right; right; right. by split_and!; [right| |].
Qed.

(** What a client's connection may make the frontend send to the worker. *)
Definition frontend_served (client : Client) (outcome : Outcome.Outcome) (sent : list Z) : Prop :=
  sent = [] \/ exists request link hurried bytes, client_request client = Some (request, link, hurried) /\
    client_tls client = TlsEstablished /\ acceptable request bytes /\ sent `prefix_of` bytes.

Lemma frontend_task_ok client (n : node) :
  let '(outcome, sent, n') := frontend_task client n in same_gauges n n' /\ frontend_served client outcome sent.
Proof.
  unfold frontend_task. pose proof (connection_gauges client (mk_work n fresh_stream)) as Hg.
  destruct (connection client (mk_work n fresh_stream)) as [r w] eqn:Ec. split; [done|].
  unfold connection, mbind at 1, task_bind at 1, now_do at 1 in Ec. cbn [start_timer read_clock work_node] in Ec.
  destruct (client_tls client) eqn:Et; [|injection Ec as <- <-; by left..].
  unfold mbind at 1, task_bind at 1, then_do at 1, now_do at 1, serve_connection in Ec. cbn [work_node work_stream] in Ec.
  destruct (client_request client) as [[[request link] hurried]|] eqn:Er.
  2: { unfold mbind, task_bind, mret, task_ret, end_connection in Ec. injection Ec as <- <-. by left. }
  match type of Ec with context [mk_work ?n0 fresh_stream] => set (n1 := n0) in Ec end.
  pose proof (observe_http_answer link hurried request n1) as Ho.
  pose proof (route_sound link hurried request (start_timer ServiceStage.Http n1).2) as Hr.
  unfold mbind, task_bind in Ec. destruct (observe_http link hurried request (mk_work n1 fresh_stream)) as [r1 w1].
  destruct (route link hurried request _) as [r' w']. destruct Ho as [-> Hs].
  assert (stream_sent (work_stream w) = stream_sent (work_stream w')) as ->.
  { rewrite <- Hs. destruct r' as [[response|[]]|]; [unfold mret, task_ret, end_connection in Ec|]; by injection Ec as <- <-. }
  destruct (post_route EVALUATE_PATH request); [|left; apply Hr..].
  destruct Hr as [[?|(bytes & ? & ?)] _]; [by left|]. right. by exists request, link, hurried, bytes.
Qed.

(** In every sequence of accepts, polls and completions at most 64 connections are in service, incomplete
    handshakes included, the gauge and the counters are exact, and nothing but prefixes of acceptable
    requests reaches the worker. *)
Lemma frontend_admission (n : node) moves :
  inflight (node_metrics n) = 0 -> admissions (node_metrics n) = replicate (length Admission.ALL) 0 -> Z.of_nat (length moves) < 2 ^ 64 ->
  let s := frontend_serve (Path := Path) (Socket := Socket) n moves in
  (length (running (serving_pool s)) <= 64)%nat /\
  inflight (node_metrics (serving_node s)) = Z.of_nat (length (running (serving_pool s))) /\
  Forall (fun fate => match fate with
    | RefusedPeer _ _ => False
    | RefusedCapacity _ busy => busy = 64%nat
    | ServedConn client outcome sent => frontend_served client outcome sent
    end) (serving_log s) /\
  admissions (node_metrics (serving_node s)) = map (fun a => Z.of_nat (tally s a)) Admission.ALL.
Proof.
  intros Hi Ha Hlen. destruct (serve_within MAX_CONNECTIONS (fun _ => None) "connection" ServiceStage.Connection frontend_task
    frontend_served ltac:(done) ltac:(intros client n' _; apply frontend_task_ok)
    n moves Hi Ha Hlen) as [A1 A2 _ A4 A5].
  cbv zeta. split_and!; [|exact A2| |exact A5].
  - apply (Nat.le_trans _ _ _ (Nat.le_add_l _ _) (Nat.eq_le_incl _ _ A1)).
  - eapply Forall_impl; [exact A4|]. intros [client why|client busy|client outcome sent]; simpl; [by intros (? & ? & _)|tauto|tauto].
Qed.
End Properties.
