(* ===== verification/Net.v ===== *)
(** The HTTPS network provider, [leelo-net/src/lib.rs]: the operator's endpoints, one bounded exchange,
    and its failures. The URL, certificate and HTTP client libraries are parameters. *)
From stdpp Require Import base list gmap strings.
From Stdlib Require Import ZArith Lia.
From S2P Require Import Prelude Sss Crypto Wire Text ServiceMetrics Service Frontend Envelope Observation.

Open Scope Z_scope.

Definition MAX_PROVIDERS : nat := 32.
Definition MAX_CA_BYTES : nat := 64 * 1024.

Module NetError.
Inductive Error : Type :=
| Configuration | DuplicateProvider | UnknownProvider | InvalidKeyId | Transport | Timeout | Runtime
| RemoteFailure | Protocol.
End NetError.

Record Endpoint : Type := mk_endpoint { ep_provider_id : list Z; ep_url : string; ep_ca_pem : list Z }.

(** [url::Url], [reqwest::Certificate] and [reqwest::Client], built with the fixed options of the source. *)
Class HttpClient : Type := {
  Url : Type;
  Certificate : Type;
  TlsClient : Type;
  url_parse : string -> option Url;
  url_scheme : Url -> string;
  url_host : Url -> option string;
  url_username : Url -> string;
  url_password : Url -> option string;
  url_query : Url -> option string;
  url_fragment : Url -> option string;
  url_path : Url -> string;
  url_set_path : Url -> string -> Url;
  from_pem_bundle : list Z -> option (list Certificate);
  build_client : list Certificate -> option TlsClient;
}.

(** Setting the path of a URL changes its path only. *)
Class HttpClientLaws `{HttpClient} : Prop := {
  set_path_path : forall url, url_path (url_set_path url EVALUATE_PATH) = EVALUATE_PATH;
  set_path_query : forall url path, url_query (url_set_path url path) = url_query url;
  set_path_scheme : forall url path, url_scheme (url_set_path url path) = url_scheme url;
}.

(** A response as the client sees it: its chunks arrive one by one and end, fail or stall. *)
Inductive ChunksEnd : Type := ChunksDone | ChunksFailed (timeout : bool) | ChunksStalled.

Record HttpReply : Type := mk_reply {
  reply_status : Z;
  reply_headers : Headers;
  reply_length : option Z;
  reply_chunks : list (list Z);
  reply_end : ChunksEnd;
  reply_certificate : option (list Z);
}.

Inductive SendAnswer : Type := Replied (reply : HttpReply) | SendFailed (timeout : bool) | SendStalled.

Section Net.
Context `{Primitives} `{HttpLibrary} `{HttpClient}.

Record ConfiguredEndpoint : Type := mk_configured { url : Url; tls_client : TlsClient }.

(** The map from provider identifiers to endpoints. *)
Record HttpsNetworkProvider : Type := mk_provider { endpoints : gmap (list Z) ConfiguredEndpoint }.

(** * Configuration *)

Definition url_allowed (u : Url) : bool :=
  bool_decide (url_scheme u = "https")
  && bool_decide (url_host u <> None)
  && bool_decide (url_username u = EmptyString)
  && bool_decide (url_password u = None)
  && bool_decide (url_query u = None)
  && bool_decide (url_fragment u = None)
  && bool_decide (url_path u = "/").

(** One endpoint: its parsed URL with the evaluation path, and a client that trusts its roots only. *)
Definition configure_endpoint (e : Endpoint) : result NetError.Error ConfiguredEndpoint :=
  if 2048 <? str_len (ep_url e) then Err NetError.Configuration
  else
  u ← ok_or (url_parse (ep_url e)) NetError.Configuration;
  if negb (url_allowed u) || (length (ep_ca_pem e) =? 0)%nat || (MAX_CA_BYTES <? length (ep_ca_pem e))%nat
  then Err NetError.Configuration
  else
  roots ← ok_or (from_pem_bundle (ep_ca_pem e)) NetError.Configuration;
  if (length roots =? 0)%nat then Err NetError.Configuration
  else
  client ← ok_or (build_client roots) NetError.Configuration;
  Ok (mk_configured (url_set_path u EVALUATE_PATH) client).

Fixpoint configure_all (l : list Endpoint) (configured : gmap (list Z) ConfiguredEndpoint)
    : result NetError.Error (gmap (list Z) ConfiguredEndpoint) :=
  match l with
  | [] => Ok configured
  | e :: rest =>
      c ← configure_endpoint e;
      if bool_decide (is_Some (configured !! ep_provider_id e)) then Err NetError.DuplicateProvider
      else configure_all rest (<[ep_provider_id e := c]> configured)
  end.

Definition new_provider (l : list Endpoint) : result NetError.Error HttpsNetworkProvider :=
  if (length l =? 0)%nat || (MAX_PROVIDERS <? length l)%nat then Err NetError.Configuration
  else configured ← configure_all l ∅; Ok (mk_provider configured).

(** * One exchange *)

(** [send] is the network's answer to a request of a client before a deadline. *)
Context (send : TlsClient -> Url -> HttpRequest -> Z -> SendAnswer).

Definition transport_error (timeout : bool) : NetError.Error := if timeout then NetError.Timeout else NetError.Transport.

Definition evaluation_request (u : Url) (body : list Z) : HttpRequest :=
  mk_http_request "POST" (url_path u) (url_query u)
    [("content-type", bytes_of_string CONTENT_TYPE); ("accept", bytes_of_string CONTENT_TYPE)]
    (mk_http_body body AtEof).

(** The loop over [response.chunk()]; nothing when it is dropped while waiting for a chunk. *)
Fixpoint read_chunks (bytes : list Z) (chunks : list (list Z)) (e : ChunksEnd)
    : option (result NetError.Error (list Z)) :=
  match chunks with
  | [] => match e with
          | ChunksDone => Some (Ok bytes)
          | ChunksFailed timeout => Some (Err (transport_error timeout))
          | ChunksStalled => None
          end
  | chunk :: rest =>
      if (RESPONSE_BYTES <? length bytes + length chunk)%nat then Some (Err NetError.Protocol)
      else read_chunks (bytes ++ chunk) rest e
  end.

Definition reply_headers_ok (reply : HttpReply) : bool :=
  content_type_ok (reply_headers reply)
  && negb match reply_length reply with Some len => negb (len =? Z.of_nat RESPONSE_BYTES) | None => false end.

(** The status, the headers and the body. *)
Definition read_reply (reply : HttpReply) : option (result NetError.Error Evaluation) :=
  if negb (reply_status reply =? 200) then Some (Err NetError.RemoteFailure)
  else if negb (reply_headers_ok reply) then Some (Err NetError.Protocol)
  else match read_chunks [] (reply_chunks reply) (reply_end reply) with
       | None => None
       | Some r => Some (bytes ← r; map_err (fun _ => NetError.Protocol) (decode_response bytes))
       end.

(** [exchange]: the result, and the peer certificate when it is asked for. *)
Definition exchange (self : HttpsNetworkProvider) (binding : NetworkBinding) (blinded : list Z) (deadline : Z)
    : option (result NetError.Error Evaluation) * option (list Z) :=
  if negb (bool_decide (binding_key_id binding = key_id (public_key binding))) then (Some (Err NetError.InvalidKeyId), None)
  else
  match endpoints self !! provider_id binding with
  | None => (Some (Err NetError.UnknownProvider), None)
  | Some endpoint =>
      let body := encode_request (binding_key_id binding) blinded in
      match send (tls_client endpoint) (url endpoint) (evaluation_request (url endpoint) body) deadline with
      | SendStalled => (None, None)
      | SendFailed timeout => (Some (Err (transport_error timeout)), None)
      | Replied reply =>
          let certificate :=
            der ← reply_certificate reply; if (length der <=? MAX_CA_BYTES)%nat then Some der else None in
          (read_reply reply, certificate)
      end
  end.

(** * Deadlines and failures *)

(** Five seconds, in nanoseconds. *)
Definition EXCHANGE_BUDGET : Z := 5 * 1000000000.

(** [timeout_at(deadline, exchange)] *)
Definition timed (r : option (result NetError.Error Evaluation)) : result NetError.Error Evaluation :=
  match r with Some r => r | None => Err NetError.Timeout end.

Definition evaluate_before (self : HttpsNetworkProvider) (binding : NetworkBinding) (blinded : list Z) (deadline now : Z)
    : result NetError.Error Evaluation :=
  timed (exchange self binding blinded (Z.min deadline (now + EXCHANGE_BUDGET))).1.

(** The synchronous callers need to be outside a runtime and able to build one. *)
Definition evaluate_binding (in_runtime runtime_builds : bool) (self : HttpsNetworkProvider) (binding : NetworkBinding)
    (blinded : list Z) (now now' : Z) : result NetError.Error Evaluation :=
  if in_runtime then Err NetError.Runtime
  else if negb runtime_builds then Err NetError.Runtime
  else evaluate_before self binding blinded (now + EXCHANGE_BUDGET) now'.

Record ObservedEvaluation : Type := mk_observed {
  observed_evaluation : result NetError.Error Evaluation;
  peer_certificate_der : option (list Z);
}.

Definition evaluate_binding_observed (in_runtime runtime_builds : bool) (self : HttpsNetworkProvider)
    (binding : NetworkBinding) (blinded : list Z) (now : Z) : ObservedEvaluation :=
  if in_runtime then mk_observed (Err NetError.Runtime) None
  else if negb runtime_builds then mk_observed (Err NetError.Runtime) None
  else
    let '(r, certificate) := exchange self binding blinded (now + EXCHANGE_BUDGET) in
    mk_observed (timed r) certificate.

(** [NetworkProvider::evaluate] *)
Definition network_failure (e : NetError.Error) : NetworkFailure :=
  match e with
  | NetError.Configuration | NetError.DuplicateProvider | NetError.UnknownProvider | NetError.InvalidKeyId
  | NetError.Runtime => Configuration
  | NetError.Transport => Unavailable
  | NetError.Timeout => Timeout
  | NetError.RemoteFailure => RemoteRejected
  | NetError.Protocol => InvalidResponse
  end.

Definition https_evaluate (self : HttpsNetworkProvider) (deadline now : Z) (binding : NetworkBinding) (blinded : list Z)
    : result NetworkFailure Evaluation :=
  map_err network_failure (evaluate_before self binding blinded deadline now).
End Net.

(** * Lemmas *)

Section Lemmas.
Context `{Primitives} `{HttpLaws} `{HttpClientLaws}.
Context (send : TlsClient -> Url -> HttpRequest -> Z -> SendAnswer).

(** However a body is cut into chunks, it is read exactly when it fits. *)
Lemma read_chunks_iff chunks e : forall bytes b,
  (length bytes <= RESPONSE_BYTES)%nat ->
  read_chunks bytes chunks e = Some (Ok b) <->
  e = ChunksDone /\ b = bytes ++ concat chunks /\ (length b <= RESPONSE_BYTES)%nat.
Proof.
  induction chunks as [|chunk rest IH]; intros bytes b Hlen; cbn [read_chunks concat].
  - rewrite app_nil_r. destruct e; split; try done; [by intros [= <-]|by intros (_ & -> & _)|by intros (? & _)|by intros (? & _)].
  - destruct (Nat.ltb_spec RESPONSE_BYTES (length bytes + length chunk)) as [Hlt|Hle].
    + split; [done|]. intros (_ & -> & Hb). rewrite !length_app in Hb. lia.
    + rewrite IH by (rewrite length_app; lia). by rewrite app_assoc.
Qed.

Lemma reply_headers_iff reply :
  reply_headers_ok reply = true <->
  header_values "content-type" (reply_headers reply) = [bytes_of_string CONTENT_TYPE] /\
  header_values "content-encoding" (reply_headers reply) = [] /\
  (reply_length reply = None \/ reply_length reply = Some (Z.of_nat RESPONSE_BYTES)).
Proof.
  unfold reply_headers_ok. rewrite andb_true_iff, content_type_iff, negb_true_iff.
  destruct (reply_length reply) as [len|]; [|naive_solver].
  destruct (Z.eqb_spec len (Z.of_nat RESPONSE_BYTES)) as [->|Hne]; simpl; naive_solver.
Qed.

(** A response that carries an evaluation. *)
Definition good_reply (reply : HttpReply) (evaluation : Evaluation) : Prop :=
  reply_status reply = 200 /\
  header_values "content-type" (reply_headers reply) = [bytes_of_string CONTENT_TYPE] /\
  header_values "content-encoding" (reply_headers reply) = [] /\
  (reply_length reply = None \/ reply_length reply = Some (Z.of_nat RESPONSE_BYTES)) /\
  reply_end reply = ChunksDone /\ decode_response (concat (reply_chunks reply)) = Ok evaluation.

Lemma read_reply_iff reply evaluation : read_reply reply = Some (Ok evaluation) <-> good_reply reply evaluation.
Proof.
  unfold read_reply, good_reply. destruct (Z.eqb_spec (reply_status reply) 200) as [Hs|Hs]; cbn [negb]; [|split; [done|naive_solver]].
  destruct (reply_headers_ok reply) eqn:Hh; cbn [negb].
  2: { split; [done|]. intros (_ & A1 & A2 & A3 & _). assert (reply_headers_ok reply = true) by (by apply reply_headers_iff). congruence. }
  apply reply_headers_iff in Hh as (Hc & He & Hl).
  destruct (read_chunks [] (reply_chunks reply) (reply_end reply)) as [[b|e]|] eqn:Er.
  - apply read_chunks_iff in Er as (Hend & -> & Hb); [|simpl; lia]. simpl.
    destruct (decode_response (concat (reply_chunks reply))) as [ev|]; simpl; naive_solver.
  - split; [done|]. intros (_ & _ & _ & _ & Hend & Hd).
    assert (read_chunks [] (reply_chunks reply) (reply_end reply) = Some (Ok (concat (reply_chunks reply)))) as Hread; [|congruence].
    apply read_chunks_iff; [simpl; lia|]. split_and!; [done|done|]. rewrite decode_response_length; [done|]. by rewrite Hd.
  - split; [done|]. intros (_ & _ & _ & _ & Hend & Hd).
    assert (read_chunks [] (reply_chunks reply) (reply_end reply) = Some (Ok (concat (reply_chunks reply)))) as Hread; [|congruence].
    apply read_chunks_iff; [simpl; lia|]. split_and!; [done|done|]. rewrite decode_response_length; [done|]. by rewrite Hd.
Qed.

Lemma exchange_Ok self binding blinded deadline evaluation :
  (exchange send self binding blinded deadline).1 = Some (Ok evaluation) <->
  binding_key_id binding = key_id (public_key binding) /\
  exists endpoint reply, endpoints self !! provider_id binding = Some endpoint /\
    send (tls_client endpoint) (url endpoint)
      (evaluation_request (url endpoint) (encode_request (binding_key_id binding) blinded)) deadline = Replied reply /\
    good_reply reply evaluation.
Proof.
  unfold exchange. case_bool_decide as Hk; cbn [negb]; [|split; [done|by intros []]].
  destruct (endpoints self !! provider_id binding) as [endpoint|]; [|split; [done|by intros (_ & ? & ? & ? & _)]].
  destruct (send _ _ _ _) as [reply|timeout|] eqn:Es; cbn [fst];
    [|split; [done|intros (_ & ? & ? & [= <-] & ? & _); congruence]..].
  rewrite read_reply_iff. split; [intros Hg; split; [done|]; by exists endpoint, reply|].
  intros (_ & endpoint' & reply' & [= <-] & Hs & Hg). congruence.
Qed.

End Lemmas.

Section Configuration.
Context `{HttpClientLaws}.

Lemma configure_endpoint_url e c : configure_endpoint e = Ok c ->
  url_scheme (url c) = "https" /\ url_path (url c) = EVALUATE_PATH /\ url_query (url c) = None.
Proof.
  unfold configure_endpoint. intros Hrun. destruct (2048 <? _); [done|]. apply bind_Ok in Hrun as (u & _ & Hrun).
  destruct (url_allowed u) eqn:Hif0; simpl in Hrun; [|done]. destruct (_ || _); [done|].
  apply bind_Ok in Hrun as (roots & _ & Hrun). destruct (length roots =? 0)%nat; [done|].
  apply bind_Ok in Hrun as (client & _ & [= <-]). unfold url_allowed in Hif0.
  rewrite !andb_true_iff, !bool_decide_eq_true in Hif0. cbn [url].
  rewrite set_path_scheme, set_path_path, set_path_query. tauto.
Qed.

(** The endpoints that are in the map, in order. *)
Lemma configure_all_iff l : forall (m : gmap (list Z) ConfiguredEndpoint) provider,
  configure_all l m = Ok provider <->
  exists cs, Forall2 (fun e c => configure_endpoint e = Ok c) l cs /\
    NoDup (map ep_provider_id l) /\ Forall (fun e => m !! ep_provider_id e = None) l /\
    provider = foldl (fun m ec => <[ep_provider_id ec.1 := ec.2]> m) m (zip l cs).
Proof.
  induction l as [|e rest IH]; intros m provider; cbn [configure_all].
  - split.
    + intros [= <-]. exists []. split_and!; constructor.
    + intros (cs & Hc & _ & _ & ->). by apply Forall2_nil_inv_l in Hc as ->.
  - split.
    + intros Hrun. apply bind_Ok in Hrun as (c & Hc & Hrun). case_bool_decide as Hdup; [done|].
      apply IH in Hrun as (cs & Hcs & Hnd & Hfresh & ->). exists (c :: cs). split_and!; [by constructor| | |done].
      * constructor; [|done]. intros Hin. apply list_elem_of_fmap in Hin as (e' & He' & Hin). rewrite Forall_forall in Hfresh.
        specialize (Hfresh e' Hin). rewrite <- He' in Hfresh. pose proof (lookup_insert_eq (M := gmap (list Z)) m (ep_provider_id e) c). congruence.
      * constructor; [by apply eq_None_not_Some|]. rewrite Forall_forall in *. intros e' Hin. specialize (Hfresh e' Hin).
        by apply lookup_insert_None in Hfresh as [? _].
    + intros (cs & Hcs & Hnd & Hfresh & ->). apply Forall2_cons_inv_l in Hcs as (c & cs' & Hc & Hcs & ->).
      apply NoDup_cons in Hnd as [Hni Hnd]. apply Forall_cons in Hfresh as [He Hfresh]. rewrite Hc. simpl.
      rewrite bool_decide_eq_false_2 by (rewrite He; by intros []). apply IH. exists cs'. split_and!; [done..| |done].
      rewrite Forall_forall in *. intros e' Hin. rewrite lookup_insert_None. split; [by apply Hfresh|].
      intros E. apply Hni. rewrite E. by apply list_elem_of_fmap_2.
Qed.

Lemma configured_lookup l cs : forall (m : gmap (list Z) ConfiguredEndpoint) id c,
  Forall2 (fun e c => configure_endpoint e = Ok c) l cs -> NoDup (map ep_provider_id l) ->
  Forall (fun e => m !! ep_provider_id e = None) l ->
  foldl (fun m ec => <[ep_provider_id ec.1 := ec.2]> m) m (zip l cs) !! id = Some c <->
  m !! id = Some c \/ exists e, e ∈ l /\ ep_provider_id e = id /\ configure_endpoint e = Ok c.
Proof.
  revert cs. induction l as [|e l IH]; intros cs m id c Hcs Hnd Hfresh.
  { simpl. split; [by left|]. intros [?|(? & ?%not_elem_of_nil & _)]; done. }
  apply Forall2_cons_inv_l in Hcs as (c0 & cs' & Hc & Hcs & ->). apply NoDup_cons in Hnd as [Hni Hnd].
  apply Forall_cons in Hfresh as [He Hfresh]. simpl. rewrite IH; [|done|done|].
  2: { rewrite Forall_forall in *. intros e' Hin. rewrite lookup_insert_None. split; [by apply Hfresh|].
       intros E. apply Hni. rewrite E. by apply list_elem_of_fmap_2. }
  destruct (decide (ep_provider_id e = id)) as [<-|Hne].
  - rewrite lookup_insert_eq, He. split.
    + intros [[= <-]|(e' & Hin & He' & Hc')]; right; [exists e|exists e']; split_and!; try done; [by left|by right].
    + intros [?|(e' & Hin & He' & Hc')]; [done|left]. apply elem_of_cons in Hin as [->|Hin]; [congruence|].
      exfalso. apply Hni. rewrite <- He'. by apply list_elem_of_fmap_2.
  - rewrite lookup_insert_ne by done. split.
    + intros [?|(e' & Hin & He' & Hc')]; [by left|right; exists e'; split_and!; try done; by right].
    + intros [?|(e' & Hin & He' & Hc')]; [by left|right]. apply elem_of_cons in Hin as [->|Hin]; [done|]. by exists e'.
Qed.

Lemma configured_all l :
  Forall (fun e => is_ok (configure_endpoint e) = true) l <-> exists cs, Forall2 (fun e c => configure_endpoint e = Ok c) l cs.
Proof.
  split.
  - induction 1 as [|e l He _ [cs IH]]; [by exists []|]. destruct (configure_endpoint e) as [c|] eqn:E; [|done].
    exists (c :: cs). by constructor.
  - intros [cs Hcs]. induction Hcs as [|e c l cs He _ IH]; constructor; [by rewrite He|done].
Qed.
Lemma new_provider_iff l provider :
  new_provider l = Ok provider <->
  (1 <= length l <= MAX_PROVIDERS)%nat /\ NoDup (map ep_provider_id l) /\
  Forall (fun e => is_ok (configure_endpoint e) = true) l /\
  forall id c, endpoints provider !! id = Some c <->
    exists e, e ∈ l /\ ep_provider_id e = id /\ configure_endpoint e = Ok c.
Proof.
  unfold new_provider. rewrite configured_all.
    destruct (Nat.eqb_spec (length l) 0); [split; [done|lia]|].
    destruct (Nat.ltb_spec MAX_PROVIDERS (length l)); [split; [done|lia]|]. simpl. split.
    - intros (m & Hm & [= <-])%bind_Ok. apply configure_all_iff in Hm as (cs & Hcs & Hnd & Hfresh & ->).
      split_and!; [lia|lia|done|by exists cs|]. intros id c. cbn [endpoints]. rewrite configured_lookup by done.
      rewrite lookup_empty. naive_solver.
    - intros (_ & Hnd & [cs Hcs] & Hlook).
      assert (Forall (fun e => (∅ : gmap (list Z) ConfiguredEndpoint) !! ep_provider_id e = None) l) as Hfresh
        by (apply Forall_forall; intros; apply lookup_empty).
      rewrite (proj2 (configure_all_iff l ∅ _) (ex_intro _ cs (conj Hcs (conj Hnd (conj Hfresh eq_refl))))). simpl. f_equal. destruct provider as [m]. f_equal.
      apply map_eq. intros id. apply option_eq. intros c. cbn [endpoints] in Hlook.
      rewrite Hlook, configured_lookup, lookup_empty by done. naive_solver.
Qed.

Lemma new_provider_url l provider id c :
  new_provider l = Ok provider -> endpoints provider !! id = Some c ->
  url_scheme (url c) = "https" /\ url_path (url c) = EVALUATE_PATH /\ url_query (url c) = None.
Proof.
  intros Hp Hc. apply new_provider_iff in Hp as (_ & _ & _ & Hlook). apply Hlook in Hc as (e & _ & _ & Hc).
  exact (configure_endpoint_url e c Hc).
Qed.
End Configuration.

(** * Properties *)

(** The provider is built exactly from one to 32 endpoints with distinct identifiers that each pass
    every check, and then maps each identifier to its own endpoint; every URL it will ever post to has
    the scheme https, the evaluation path and no query. *)
Theorem provider_configuration `{HttpClientLaws} l :
  (forall provider, new_provider l = Ok provider <->
     (1 <= length l <= MAX_PROVIDERS)%nat /\ NoDup (map ep_provider_id l) /\
     Forall (fun e => is_ok (configure_endpoint e) = true) l /\
     forall id c, endpoints provider !! id = Some c <->
       exists e, e ∈ l /\ ep_provider_id e = id /\ configure_endpoint e = Ok c) /\
  (forall provider id c, new_provider l = Ok provider -> endpoints provider !! id = Some c ->
     url_scheme (url c) = "https" /\ url_path (url c) = EVALUATE_PATH /\ url_query (url c) = None).
Proof. split; [apply new_provider_iff|apply new_provider_url]. Qed.
