(* ===== verification/Stack.v ===== *)
(** The network stack put together: the HTTPS provider of the client, the TLS frontend and the key worker.
    What travels between them is carried by HTTP and by a Unix socket; the evaluation that reaches the
    engine is the worker's, and so an unlock over this stack returns the enrolled credential. *)
From stdpp Require Import base list gmap strings.
From Stdlib Require Import ZArith Lia.
From S2P Require Import Prelude Sss Plan Policy Crypto Wire Float64 Text Telemetry ServiceMetrics Service Listener Worker Frontend Net Cbor Envelope Observation Engine Recovery Unlock Enroll.

Open Scope Z_scope.

(** * Carrying messages *)

(** HTTP delivers the request line, the fields the service looks at, and the body. *)
Record carries_request (sent received : HttpRequest) : Prop := mk_carries_request {
  carried_method : req_method received = req_method sent;
  carried_path : req_path received = req_path sent;
  carried_query : req_query received = req_query sent;
  carried_type : header_values "content-type" (req_headers received) = header_values "content-type" (req_headers sent);
  carried_encoding :
    header_values "content-encoding" (req_headers received) = header_values "content-encoding" (req_headers sent);
  carried_body : req_body received = req_body sent;
}.

(** The response arrives with its status and fields, its length if any, and its body in some chunks. *)
Record carries_response (response : Response) (reply : HttpReply) : Prop := mk_carries_response {
  replied_status : reply_status reply = status response;
  replied_type : header_values "content-type" (reply_headers reply) = header_values "content-type" (resp_headers response);
  replied_encoding :
    header_values "content-encoding" (reply_headers reply) = header_values "content-encoding" (resp_headers response);
  replied_length : reply_length reply = None \/ reply_length reply = Some (Z.of_nat (length (resp_body response)));
  replied_body : concat (reply_chunks reply) = resp_body response;
  replied_end : reply_end reply = ChunksDone;
}.

(** A Unix socket that delivers what the other side wrote and takes every write. *)
Definition pipe (bytes : list Z) : Conn := mk_conn None bytes AtEof (fun _ => WroteAll).

Section Stack.
Context `{Primitives} `{HttpLibrary} {R : Type} `{Rng R}.
Context {Path Socket : Type} `{Kernel Path Socket}.
Abbreviation node := (Node Path Socket R).

(** What the worker writes when it is sent [bytes]. *)
Definition worker_writes (secret : server) (worker : node) (bytes : list Z) : list Z :=
  stream_sent (work_stream
    (handle (pipe bytes) secret (key_id (server_public_key secret)) (mk_work worker fresh_stream)).2).

(** The service of one key: the frontend forwards the body and reads what the worker writes. *)
Definition service_response (secret : server) (frontend worker : node) (request : HttpRequest)
    : option (result Empty_set Response) :=
  (observe_http (Linked (pipe (worker_writes secret worker (sent_bytes (req_body request))))) false request
     (mk_work frontend fresh_stream)).1.

(** Every reply of an endpoint comes from the service of [secret], whose worker can draw randomness. *)
Definition backed_by `{HttpClient} (send : TlsClient -> Url -> HttpRequest -> Z -> SendAnswer) (c : ConfiguredEndpoint)
    (secret : server) : Prop := forall request deadline reply,
  send (tls_client c) (url c) request deadline = Replied reply ->
  exists received (frontend worker : node) response,
    carries_request request received /\ is_ok (from_entropy (node_entropy worker)).1 = true /\
    service_response secret frontend worker received = Some (Ok response) /\ carries_response response reply.

Definition reachable `{HttpClient} (send : TlsClient -> Url -> HttpRequest -> Z -> SendAnswer) (c : ConfiguredEndpoint)
    (up : bool) : Prop := forall body deadline,
  if up then exists reply, send (tls_client c) (url c) (evaluation_request (url c) body) deadline = Replied reply
  else forall reply, send (tls_client c) (url c) (evaluation_request (url c) body) deadline <> Replied reply.
End Stack.

(** * The evaluation that comes back *)

Section Evaluation.
Context `{PrimitiveLaws} `{HttpLaws} `{HttpClientLaws} {R : Type} `{Rng R}.
Context {Path Socket : Type} `{Kernel Path Socket}.
Abbreviation node := (Node Path Socket R).

Lemma key_id_bytes public : byte_array 32 (key_id public).
Proof.
  unfold key_id, hash_context. destruct (sha384_bytes public) as [Hl Hb]. split; [rewrite length_take; lia|by apply Forall_take].
Qed.

Lemma request_frame id point :
  byte_array 32 id -> byte_array 49 point -> decode_request (encode_request id point) = Ok (mk_request id point).
Proof.
  intros Hk Hp. apply decode_request_iff; rewrite encode_request_bytes by (apply Hk || apply Hp); [|done].
  apply Forall_app. split; [decided|]. apply Forall_app. split; [apply Hk|apply Hp].
Qed.

(** A request for the key of [secret] that reaches the frontend is acceptable. *)
Lemma carried_acceptable u secret point received :
  byte_array 49 point -> url_path u = EVALUATE_PATH -> url_query u = None ->
  carries_request (evaluation_request u (encode_request (key_id (server_public_key secret)) point)) received ->
  acceptable received (encode_request (key_id (server_public_key secret)) point).
Proof.
  intros Hp Hpath Hquery [C1 C2 C3 C4 C5 C6]. unfold acceptable.
  rewrite C1, C2, C3, C4, C5, C6. cbn [evaluation_request req_method req_path req_query req_headers req_body].
  rewrite Hpath, Hquery.
  split_and!; try done. rewrite request_frame; [done|apply key_id_bytes|done].
Qed.

(** An evaluation has the sizes of its wire form. *)
Lemma evaluation_decodes secret point (rng : R) evaluation rng' :
  evaluate_with_entropy secret point rng = (Ok evaluation, rng') ->
  decode_response (encode_response evaluation) = Ok evaluation.
Proof.
  unfold evaluate_with_entropy. destruct (deserialize_elem point) as [m|]; [|done].
  destruct (from_entropy rng) as [[r|e] rng1]; [|done]. destruct (server_evaluate secret r m) as [el p]. intros [= <- <-].
  pose proof (element_bytes el) as He. pose proof (proof_bytes p) as Hp.
  apply decode_response_iff; rewrite encode_response_bytes by (apply He || apply Hp).
  - apply Forall_app. split; [decided|]. apply Forall_app. split; [apply He|apply Hp].
  - by split_and!.
Qed.

Lemma worker_writes_reply secret (worker : node) bytes :
  length bytes = REQUEST_BYTES ->
  worker_writes secret worker bytes = (worker_reply secret (key_id (server_public_key secret)) bytes (node_entropy worker)).2.
Proof.
  intros Hl. unfold worker_writes.
  pose proof (handle_refines (pipe bytes) secret (key_id (server_public_key secret)) worker) as Hr.
  destruct (handle _ _ _ _) as [r w]. destruct Hr as [Hr _]. unfold received in Hr. cbn [pipe incoming ending] in Hr.
  rewrite Hl in Hr. change (REQUEST_BYTES + 1 <=? REQUEST_BYTES)%nat with false in Hr.
  destruct Hr as (_ & _ & Hsent & Hall). by apply Hsent, Hall.
Qed.

Lemma worker_reply_evaluation secret point (rng : R) :
  byte_array 49 point ->
  worker_reply secret (key_id (server_public_key secret)) (encode_request (key_id (server_public_key secret)) point) rng =
  let evaluation := (evaluate_with_entropy secret point rng).1 in
  (evaluation_outcome evaluation, match evaluation with Ok evaluation => 0 :: encode_response evaluation | Err _ => [1] end).
Proof.
  intros Hp. pose proof (key_id_bytes (server_public_key secret)) as Hk. unfold worker_reply, admit_request.
  rewrite request_frame by done. cbn [request_key_id request_point]. by rewrite bool_decide_eq_true_2.
Qed.

Context (send : TlsClient -> Url -> HttpRequest -> Z -> SendAnswer).

(** What a reply of the service means for the client. *)
Lemma reply_evaluates c secret point deadline reply :
  byte_array 49 point -> url_path (url c) = EVALUATE_PATH -> url_query (url c) = None ->
  backed_by (R := R) (Path := Path) (Socket := Socket) send c secret ->
  send (tls_client c) (url c) (evaluation_request (url c) (encode_request (key_id (server_public_key secret)) point)) deadline
    = Replied reply ->
  exists worker : node, is_ok (from_entropy (node_entropy worker)).1 = true /\
    match (evaluate_with_entropy secret point (node_entropy worker)).1 with
    | Ok evaluation => read_reply reply = Some (Ok evaluation)
    | Err _ => exists e, read_reply reply = Some (Err e)
    end.
Proof.
  intros Hp Hpath Hquery Hbacked Hsend. destruct (Hbacked _ _ _ Hsend) as (received & frontend & worker & response & Hc & Hrng & Hresp & Hrep).
  exists worker. split; [done|].
  pose proof (carried_acceptable _ _ _ _ Hp Hpath Hquery Hc) as Hacc.
  set (bytes := encode_request (key_id (server_public_key secret)) point) in *.
  assert (sent_bytes (req_body received) = bytes) as Hbody by (destruct Hacc as (_ & _ & _ & _ & _ & -> & _); done).
  assert (length bytes = REQUEST_BYTES) as Hlen by (apply decode_request_length, Hacc).
  unfold service_response in Hresp. rewrite Hbody, worker_writes_reply in Hresp by done. unfold bytes in Hresp at 1.
  rewrite worker_reply_evaluation in Hresp by done. cbv zeta in Hresp. cbn [snd] in Hresp.
  destruct (evaluate_with_entropy secret point (node_entropy worker)) as [[evaluation|e] rng'] eqn:Ee; cbn [fst] in *.
  - pose proof (evaluation_decodes _ _ _ _ _ Ee) as Hd.
    rewrite (observe_http_complete _ _ _ bytes (encode_response evaluation)) in Hresp; [|done|done|split_and!; [done|done|by rewrite Hd]].
    injection Hresp as <-. destruct Hrep as [R1 R2 R3 R4 R5 R6]. apply read_reply_iff. unfold good_reply.
    cbn [status resp_headers resp_body] in *. rewrite R1, R2, R3, R5, R6. split_and!; try done.
    rewrite decode_response_length in R4 by by rewrite Hd. done.
  - eexists. unfold read_reply. destruct Hrep as [-> _ _ _ _ _].
    apply (observe_http_unfull (pipe [1]) _ _ bytes) in Hresp; [|done|by intros r [? _]].
    by rewrite (proj2 (Z.eqb_neq _ _) Hresp).
Qed.

(** An endpoint of the provider whose replies come from the service of [secret]. *)
Record endpoint_of (self : HttpsNetworkProvider) (b : NetworkBinding) (secret : server) (c : ConfiguredEndpoint) : Prop :=
  mk_endpoint_of {
  of_lookup : endpoints self !! provider_id b = Some c;
  of_path : url_path (url c) = EVALUATE_PATH;
  of_query : url_query (url c) = None;
  of_key : public_key b = server_public_key secret;
  of_backed : backed_by (R := R) (Path := Path) (Socket := Socket) send c secret;
}.

(** Whatever the client gets is an evaluation by the worker. *)
Lemma stack_sound self b secret c point deadline now evaluation :
  endpoint_of self b secret c -> byte_array 49 point ->
  https_evaluate send self deadline now b point = Ok evaluation ->
  exists rng rng' : R, evaluate_with_entropy secret point rng = (Ok evaluation, rng').
Proof.
  intros [O1 O2 O3 O4 O5] Hp Hrun. unfold https_evaluate, evaluate_before in Hrun.
  assert ((exchange send self b point (Z.min deadline (now + EXCHANGE_BUDGET))).1 = Some (Ok evaluation)) as Hx.
  { destruct (exchange _ _ _ _ _).1 as [[ev|e]|]; simpl in Hrun; [congruence|done..]. }
  apply exchange_Ok in Hx as (Hk & c' & reply & Hl & Hsend & Hgood). rewrite O1 in Hl. injection Hl as <-.
  rewrite Hk, O4 in Hsend. destruct (reply_evaluates c secret point _ reply Hp O2 O3 O5 Hsend) as (worker & _ & Hr).
  apply read_reply_iff in Hgood.
  destruct (evaluate_with_entropy secret point (node_entropy worker)) as [[ev|e] rng'] eqn:Ee; cbn [fst] in Hr.
  - assert (ev = evaluation) as -> by congruence. by exists (node_entropy worker), rng'.
  - destruct Hr as [e' Hr]. congruence.
Qed.

(** A reachable service evaluates every point of the group. *)
Lemma stack_live self b secret c point element deadline now :
  endpoint_of self b secret c -> binding_key_id b = key_id (public_key b) -> reachable send c true ->
  byte_array 49 point -> deserialize_elem point = Some element ->
  exists evaluation, https_evaluate send self deadline now b point = Ok evaluation.
Proof.
  intros [O1 O2 O3 O4 O5] Hk Hup Hp Hd.
  destruct (Hup (encode_request (binding_key_id b) point) (Z.min deadline (now + EXCHANGE_BUDGET)))
    as [reply Hsend]. pose proof Hsend as Hsend'. rewrite Hk, O4 in Hsend'.
  destruct (reply_evaluates c secret point _ reply Hp O2 O3 O5 Hsend') as (worker & Hrng & Hr).
  unfold evaluate_with_entropy in Hr. rewrite Hd in Hr. destruct (from_entropy (node_entropy worker)) as [[rng|e] rng']; [|done].
  destruct (server_evaluate secret rng element) as [el proof]. cbn [fst] in Hr. apply read_reply_iff in Hr.
  exists (mk_evaluation (serialize_elem el) (serialize_proof proof)). unfold https_evaluate, evaluate_before.
  assert ((exchange send self b point (Z.min deadline (now + EXCHANGE_BUDGET))).1 =
          Some (Ok (mk_evaluation (serialize_elem el) (serialize_proof proof)))) as ->; [|done].
  apply exchange_Ok. split; [done|]. by exists c, reply.
Qed.

Lemma stack_down self b secret c point deadline now :
  endpoint_of self b secret c -> reachable send c false ->
  exists kind, https_evaluate send self deadline now b point = Err kind.
Proof.
  intros [O1 _ _ _ _] Hdown. unfold https_evaluate, evaluate_before, exchange. rewrite O1.
  destruct (negb _); [by eexists|]. specialize (Hdown (encode_request (binding_key_id b) point) (Z.min deadline (now + EXCHANGE_BUDGET))). destruct (send _ _ _ _) as [reply| |]; [by destruct (Hdown reply)|by eexists..].
Qed.
End Evaluation.

(** * Unlocking over the service *)

Section Claims.
Context `{PrimitiveLaws} `{CborLaws} `{HttpLaws} `{HttpClientLaws}.
Context {R T : Type} `{RngSound R} `{TpmLaws T}.
Context {Path Socket : Type} `{Kernel Path Socket}.

(** The providers of a descriptor, reached with [send]: each is configured, answers from the service of
    its server key, and is reachable when it is up. *)
Definition deployed (send : TlsClient -> Url -> HttpRequest -> Z -> SendAnswer) (self : HttpsNetworkProvider)
    (server_of : NetworkBinding -> server) (up : NetworkBinding -> bool) (d : Descriptor) : Prop :=
  (exists l, new_provider l = Ok self) /\
  forall b, b ∈ networks d -> binding_key_id b = key_id (public_key b) /\ public_key b = server_public_key (server_of b) /\
    exists c, endpoints self !! provider_id b = Some c /\ reachable send c (up b) /\
      backed_by (R := R) (Path := Path) (Socket := Socket) send c (server_of b).

Lemma deployed_endpoint send self server_of up d b :
  deployed send self server_of up d -> b ∈ networks d ->
  binding_key_id b = key_id (public_key b) /\
  exists c, endpoint_of (R := R) (Path := Path) (Socket := Socket) send self b (server_of b) c /\ reachable send c (up b).
Proof.
  intros [[l Hl] Hdep] Hb. destruct (Hdep b Hb) as (Hk & Hpk & c & Hc & Hreach & Hbacked). split; [done|]. exists c.
  split; [|done]. destruct (new_provider_url l self _ c Hl Hc) as (_ & Hpath & Hquery). by constructor.
Qed.

(** Every completion of a schedule is an answer of the provider, and blinding found randomness. *)
Definition over_https (send : TlsClient -> Url -> HttpRequest -> Z -> SendAnswer) (self : HttpsNetworkProvider)
    (d : Descriptor) (schedule : list (@event R)) : Prop :=
  forall k rng reply b, Completes k rng reply ∈ schedule -> b ∈ networks d ->
    is_ok (blind_with_entropy (network_input d b) rng).1 = true /\
    exists deadline now, forall p, reply b p = https_evaluate send self deadline now b p.

Lemma blinded_point input (rng : R) st p rng' :
  blind_with_entropy input rng = (Ok (st, p), rng') -> byte_array 49 p /\ is_Some (deserialize_elem p).
Proof.
  unfold blind_with_entropy. destruct (_ || _); [done|]. destruct (from_entropy rng) as [[r|e] rng1]; [|done].
  destruct (client_blind input r) as [[c el]|]; [|done]. intros [= <- <- <-]. split; [apply element_bytes|].
  rewrite element_round_trip. by eexists.
Qed.

Lemma deployed_serving send self server_of up d schedule :
  deployed send self server_of up d -> over_https send self d schedule -> serving server_of d up schedule.
Proof.
  intros Hdep Hover k rng reply b Hev Hb. destruct (Hover k rng reply b Hev Hb) as (Hblind & deadline & now & Hreply).
  destruct (deployed_endpoint _ _ _ _ _ _ Hdep Hb) as (Hk & c & Hc & Hup). destruct (up b).
  - destruct (blind_with_entropy (network_input d b) rng) as [[[st p]|e] rng'] eqn:Eb; [|done].
    destruct (blinded_point _ _ _ _ _ Eb) as [Hp [el Hd]].
    destruct (stack_live send self b (server_of b) c p el deadline now Hc Hk Hup Hp Hd) as [ev Hev'].
    exists st, p, rng', ev. split_and!; [done|by rewrite Hreply|].
    destruct (stack_sound send self b (server_of b) c p deadline now ev Hc Hp Hev') as (e1 & e2 & He). by exists e1, e2.
  - intros p. rewrite Hreply. by apply (stack_down send self b (server_of b) c).
Qed.

(** C3: enrollment and unlock agree over the real network stack. Let an enrollment succeed whose answered
    calls were exchanges of the HTTPS provider with services, each a TLS frontend and a key worker that
    holds the server key of the binding. Then an unlock with a TPM that holds what was sealed, all of whose
    clock readings are within the operation budget, returns the enrolled credential, for every schedule of
    provider completions that are such exchanges, when the services that are reachable satisfy the policy:
    requests and replies pass through the client, HTTP in any chunks,
    the frontend, the Unix socket and the worker and come back as the evaluation of the blinded point. *)
Theorem unlock_over_service clock runtime_ok uclock (server_of : NetworkBinding -> server) d signer net
    (w w' : World R T) prepared up schedule (u : World R T) self send0 send :
  descriptor_typed d -> byte_array 32 (seed signer) ->
  deployed send0 self server_of (fun _ => true) d -> deployed send self server_of up d ->
  (forall i b p ev, net i b p = Some (Ok ev) -> b ∈ networks d /\ byte_array 49 p /\
     exists deadline now, https_evaluate send0 self deadline now b p = Ok ev) ->
  prepare_observed clock runtime_ok d signer net w = (Ok prepared, w') ->
  (forall blob sd, seals (device w') d blob sd -> holds (device u) d blob sd) ->
  supports_mode (device u) (mode (policy d)) = true ->
  (forall n, uclock n < uclock (ticks u) + OPERATION_BUDGET) ->
  over_https send self d schedule -> Elapsed ∉ schedule -> (length (networks d) <= completions schedule)%nat ->
  satisfied (up_ids (networks d) up) (network (policy d)) = true ->
  exists diags, (unlock_observed uclock true (prepared_envelope prepared) (signing_public_key signer)
    (volume_uuid d) (slot d) schedule u).1 = Ok (mk_unlock (prepared_credential prepared) diags).
Proof.
  intros Hty Hseed Hdep0 Hdep Hnet Hprep Hdev Hsup Hclk Hover Hel Hcount Hsat.
  apply (prepared_unlocks clock runtime_ok uclock server_of d signer net w w' prepared up schedule u); try done.
  - intros b Hb. by destruct Hdep as [_ Hdep]; destruct (Hdep b Hb) as (_ & Hkey & _).
  - intros i b p ev Hi. destruct (Hnet i b p ev Hi) as (Hb & Hp & deadline & now & Hrun).
    destruct (deployed_endpoint _ _ _ _ _ _ Hdep0 Hb) as (_ & c & Hc & _). exact (stack_sound send0 self b (server_of b) c p deadline now ev Hc Hp Hrun).
  - by apply (deployed_serving send self).
Qed.
End Claims.
