(* ===== verification/StackDemo.v ===== *)
(** A deployment of the network stack on the toy primitives: four endpoints, each with its own frontend
    and worker. It witnesses the properties of the worker, the frontend, the provider and the stack. *)
From stdpp Require Import base list gmap strings.
From Stdlib Require Import ZArith Lia.
From S2P Require Import Prelude Sss Plan Policy Crypto ToyCrypto Wire Float64 Text Telemetry ServiceMetrics Service Listener Worker Frontend Net Cbor Envelope Observation Engine Recovery Unlock Enroll Demo Stack.
Import Cbor.Reference Service.Example.

Open Scope Z_scope.

(** * The libraries *)

#[export] Instance toy_http : HttpLibrary := {|
  header_text v := if bool_decide (v = bytes_of_string CONTENT_TYPE) then Some CONTENT_TYPE else None;
  to_bytes body limit :=
    match sent_end body with
    | AtEof => Some (if (length (sent_bytes body) <=? limit)%nat then Ok (sent_bytes body) else Err tt)
    | Broken => Some (Err tt)
    | Stalled => None
    end;
  post_route path request :=
    if bool_decide (req_path request = path)
    then if bool_decide (req_method request = "POST"%string) then Matched else RouteMethod
    else RouteNotFound;
|}.

#[export] Instance toy_http_laws : HttpLaws.
Proof.
  split; simpl.
  - done.
  - intros v s. by case_bool_decide as E; intros [= <-].
  - intros b limit Hl. by rewrite (proj2 (Nat.leb_le _ _) Hl).
  - intros [b e] limit b'. simpl. destruct e; [|done|done]. destruct (Nat.leb_spec (length b) limit); [|done].
    by intros [= <-].
  - intros path request -> ->. by rewrite !bool_decide_eq_true_2.
  - intros path request. by repeat case_bool_decide.
Qed.

(** A URL is its origin and path; a client is the first byte of its trust root. *)
#[export] Instance toy_client : HttpClient := {|
  Url := string * string;
  Certificate := Z;
  TlsClient := Z;
  url_parse s := Some (s, "/"%string);
  url_scheme _ := "https"%string;
  url_host u := Some u.1;
  url_username _ := EmptyString;
  url_password _ := None;
  url_query _ := None;
  url_fragment _ := None;
  url_path u := u.2;
  url_set_path u path := (u.1, path);
  from_pem_bundle pem := Some pem;
  build_client roots := List.hd_error roots;
|}.

#[export] Instance toy_client_laws : HttpClientLaws.
Proof. by split. Qed.

(** * Four endpoints *)

Definition demo_endpoint (n : Z) : Endpoint := mk_endpoint (demo_provider n) "https://evaluator" [n].
Definition demo_endpoints : list Endpoint := map demo_endpoint [1; 2; 3; 4].
Definition demo_self : HttpsNetworkProvider :=
  match new_provider demo_endpoints with Ok self => self | Err _ => mk_provider ∅ end.

Lemma demo_provider_built : new_provider demo_endpoints = Ok demo_self.
Proof. vm_compute. reflexivity. Qed.

Definition demo_node (role : Role) (limit : Z) (rng : Z) : Node unit unit Z :=
  mk_node (new_metrics (mk_emitter None None None None 0 0) 0 role limit) 0 rng [].

(** The body in two chunks. *)
Definition reply_of (response : Response) : HttpReply :=
  mk_reply (status response) (resp_headers response) (Some (Z.of_nat (length (resp_body response))))
    [take 100 (resp_body response); drop 100 (resp_body response)] ChunksDone None.

Definition demo_send (up : Z -> bool) (rng : Z) (client : Z) (u : string * string) (request : HttpRequest) (deadline : Z)
    : SendAnswer :=
  if up client then
    match service_response (demo_server client) (demo_node Frontend 64 0) (demo_node WorkerRole 8 rng) request with
    | Some (Ok response) => Replied (reply_of response)
    | _ => SendStalled
    end
  else SendStalled.

Lemma reply_of_carries response : carries_response response (reply_of response).
Proof.
  constructor; try done; [by right|]. cbn [reply_of reply_chunks concat]. by rewrite app_nil_r, take_drop.
Qed.

Lemma demo_backed up rng c :
  backed_by (R := Z) (Path := unit) (Socket := unit) (demo_send up rng) c (demo_server (tls_client c)).
Proof.
  intros request deadline reply. unfold demo_send. destruct (up (tls_client c)); [|done].
  destruct (service_response _ _ _ _) as [[response|e]|] eqn:Er; [|done..]. intros [= <-].
  exists request, (demo_node Frontend 64 0), (demo_node WorkerRole 8 rng), response.
  split_and!; [done|reflexivity|exact Er|apply reply_of_carries].
Qed.

Lemma demo_reachable up rng c : reachable (demo_send up rng) c (up (tls_client c)).
Proof.
  intros body deadline. unfold demo_send. destruct (up (tls_client c)); [|done].
  destruct (observe_http_total (Linked (pipe (worker_writes (demo_server (tls_client c)) (demo_node WorkerRole 8 rng) body)))
    (evaluation_request (url c) body) (demo_node Frontend 64 0)) as [response Hr].
  { simpl. by destruct (length body <=? _)%nat. }
  assert (service_response (demo_server (tls_client c)) (demo_node Frontend 64 0) (demo_node WorkerRole 8 rng)
    (evaluation_request (url c) body) = Some (Ok response)) as -> by exact Hr. by eexists.
Qed.

Definition client_of (id : list Z) : Z := match endpoints demo_self !! id with Some c => tls_client c | None => 0 end.

Lemma demo_deployed up rng :
  deployed (R := Z) (Path := unit) (Socket := unit) (demo_send up rng) demo_self demo_server_of
    (fun b => up (node_id b)) demo_descriptor.
Proof.
  split; [exists demo_endpoints; exact demo_provider_built|]. intros b Hb.
  assert (exists n, n ∈ [1; 2; 3; 4] /\ b = demo_binding n) as (n & Hn & ->)
    by (apply list_elem_of_fmap in Hb as (n & -> & Hn); by exists n).
  assert (endpoints demo_self !! demo_provider n = Some (mk_configured ("https://evaluator"%string, EVALUATE_PATH) n)) as Hl.
  { repeat (apply elem_of_cons in Hn as [->|Hn]; [vm_compute; reflexivity|]). by apply elem_of_nil in Hn. }
  assert (demo_server_of (demo_binding n) = demo_server n) as Hs.
  { repeat (apply elem_of_cons in Hn as [->|Hn]; [apply elem_eq; vm_compute; reflexivity|]). by apply elem_of_nil in Hn. }
  split; [done|]. rewrite Hs. split; [done|]. eexists. split; [exact Hl|].
  split; [exact (demo_reachable up rng _)|exact (demo_backed up rng _)].
Qed.

(** * An enrollment and an unlock over the stack *)

#[export] Instance NetworkBinding_eq_dec : EqDecision NetworkBinding.
Proof. solve_decision. Defined.

Definition all_up (n : Z) : bool := true.
Definition some_up (n : Z) : bool := (n =? 1) || (n =? 4).

(** The enrollment's calls, of bindings of the descriptor on arrays of 49 bytes. *)
Definition https_net (i : nat) (b : NetworkBinding) (p : list Z) : option (result NetworkFailure Evaluation) :=
  if bool_decide (b ∈ networks demo_descriptor /\ byte_array 49 p)
  then Some (https_evaluate (demo_send all_up 500) demo_self 1000000000 0 b p) else None.

Definition https_enrollment : result (fault EngineError.Error) PreparedEnrollment * World Z toy_device :=
  prepare_observed demo_clock true demo_descriptor demo_signer https_net demo_world.
Definition https_prepared : PreparedEnrollment := prepared_of (fst https_enrollment).
Definition https_world : World Z toy_device := snd https_enrollment.

Lemma https_enrolls :
  prepare_observed demo_clock true demo_descriptor demo_signer https_net demo_world = (Ok https_prepared, https_world).
Proof. vm_compute. reflexivity. Qed.

Definition https_reply : answer := https_evaluate (demo_send some_up 700) demo_self 2000000000 0.
Definition https_schedule : list (@event Z) :=
  [Started 1; Completes 3 900 https_reply; Completes 1 910 https_reply; Completes 1 920 https_reply; Completes 0 930 https_reply].

Lemma https_events k rng reply :
  Completes k rng reply ∈ https_schedule -> reply = https_reply /\ rng ∈ [900; 910; 920; 930].
Proof.
  unfold https_schedule. rewrite !elem_of_cons, elem_of_nil.
  intros [E|[E|[E|[E|[E|[]]]]]]; inversion E; subst; (split; [reflexivity|decided]).
Qed.

Lemma https_blinds : forallb (fun b => forallb (fun rng =>
  is_ok (blind_with_entropy (network_input demo_descriptor b) rng).1) [900; 910; 920; 930]) (networks demo_descriptor) = true.
Proof. vm_compute. reflexivity. Qed.

Lemma https_over : over_https (demo_send some_up 700) demo_self demo_descriptor https_schedule.
Proof.
  intros k rng reply b Hev Hb. apply https_events in Hev as [-> Hrng]. split; [|by exists 2000000000, 0].
  pose proof https_blinds as Ha. rewrite forallb_forall in Ha.
  specialize (Ha b (proj1 (list_elem_of_In _ _) Hb)). rewrite forallb_forall in Ha.
  exact (Ha rng (proj1 (list_elem_of_In _ _) Hrng)).
Qed.

Lemma unlock_over_service_witness :
  exists diags, (unlock_observed demo_clock true (prepared_envelope https_prepared) (signing_public_key demo_signer)
    (volume_uuid demo_descriptor) (slot demo_descriptor) https_schedule demo_unlock_world).1 =
    Ok (mk_unlock (prepared_credential https_prepared) diags).
Proof.
  apply (unlock_over_service (Path := unit) (Socket := unit) demo_clock true demo_clock demo_server_of demo_descriptor
    demo_signer https_net demo_world https_world https_prepared (fun b => some_up (node_id b)) https_schedule
    demo_unlock_world demo_self (demo_send all_up 500) (demo_send some_up 700)).
  - exact demo_descriptor_typed.
  - decided.
  - exact (demo_deployed all_up 500).
  - exact (demo_deployed some_up 700).
  - intros i b p ev. unfold https_net. case_bool_decide as Hc; [|discriminate]. intros Hrun. injection Hrun as Hrun.
    destruct Hc as [Hb Hp]. split; [exact Hb|]. split; [exact Hp|]. exists 1000000000, 0. exact Hrun.
  - exact https_enrolls.
  - exact (toy_holds (device https_world) (device demo_unlock_world) demo_descriptor).
  - reflexivity.
  - intros n. reflexivity.
  - exact https_over.
  - unfold https_schedule. rewrite !not_elem_of_cons. repeat (split; [discriminate|]). apply not_elem_of_nil.
  - vm_compute. lia.
  - vm_compute. reflexivity.
Defined.

(** * The parts *)

Definition demo_point : list Z := serialize_elem (toy_point [1; 2; 3]).
Definition demo_key : list Z := key_id (server_public_key (demo_server 1)).
Definition demo_frame : list Z := encode_request demo_key demo_point.

Lemma worker_connection_witness :
  exists point evaluation, byte_array 49 point /\ byte_array 32 demo_key /\ demo_frame = encode_request demo_key point /\
    (evaluate_with_entropy (demo_server 1) point 700).1 = Ok evaluation /\
    worker_reply (demo_server 1) demo_key demo_frame 700 = (Outcome.Success, 0 :: encode_response evaluation).
Proof.
  apply (proj2 (worker_connection (R := Z) (pipe demo_frame) (demo_server 1) demo_key (demo_node WorkerRole 8 700))).
  - decided.
  - vm_compute. discriminate.
Defined.

(** Ten connections, one of a stranger, and the first one served. *)
Definition demo_peer (uid : Z) : Conn := mk_conn (Some uid) demo_frame AtEof (fun _ => WroteAll).
Definition demo_moves : list (Move Conn) :=
  Accepts (demo_peer 9) :: map (fun _ => Accepts (demo_peer 5)) (seq 0 9) ++ [Polls 0; Ends 0].

Definition demo_served : Serving unit unit Z Conn (list Z) :=
  worker_serve (demo_server 1) 5 (demo_node WorkerRole 8 700) demo_moves.

Lemma worker_admission_witness :
  (length (running (serving_pool demo_served)) <= 8)%nat /\ length (running (serving_pool demo_served)) = 7%nat /\
  inflight (node_metrics (serving_node demo_served)) = Z.of_nat (length (running (serving_pool demo_served))) /\
  admissions (node_metrics (serving_node demo_served)) = [8; 1; 1; 0].
Proof.
  destruct (worker_admission (Path := unit) (Socket := unit) (demo_server 1) 5 (mk_emitter None None None None 0 0) 0 0 700
    demo_moves ltac:(vm_compute; reflexivity)) as (H1 & H2 & _ & _ & H5).
  split; [exact H1|]. split; [vm_compute; reflexivity|]. split; [exact H2|]. etransitivity; [exact H5|]. vm_compute. reflexivity.
Defined.

Definition demo_request : HttpRequest := evaluation_request ("https://evaluator"%string, EVALUATE_PATH) demo_frame.
Definition demo_link : Conn := pipe (worker_writes (demo_server 1) (demo_node WorkerRole 8 700) demo_frame).

Lemma frontend_request_witness :
  (observe_http (Linked demo_link) false demo_request (mk_work (demo_node Frontend 64 0) fresh_stream)).1 =
    Some (Ok (mk_response 200 [("content-type", bytes_of_string CONTENT_TYPE)] (drop 1 (incoming demo_link)))).
Proof.
  pose proof (frontend_request (Linked demo_link) false demo_request (demo_node Frontend 64 0)) as Hf.
  destruct (observe_http (Linked demo_link) false demo_request (mk_work (demo_node Frontend 64 0) fresh_stream)) as [r w].
  destruct Hf as (_ & _ & Hlive). apply (Hlive demo_frame demo_link (drop 1 (incoming demo_link))).
  - unfold acceptable. split_and!; vm_compute; reflexivity.
  - reflexivity.
  - intros i. reflexivity.
  - unfold full_reply. split_and!; vm_compute; reflexivity.
Defined.

Lemma provider_configuration_witness :
  (1 <= length demo_endpoints <= MAX_PROVIDERS)%nat /\
  (forall id c, endpoints demo_self !! id = Some c -> url_path (url c) = EVALUATE_PATH).
Proof.
  destruct (provider_configuration demo_endpoints) as [Hiff Hurl]. split.
  - exact (proj1 (proj1 (Hiff demo_self) demo_provider_built)).
  - intros id c Hc. exact (proj1 (proj2 (Hurl demo_self id c demo_provider_built Hc))).
Defined.
