(* ===== verification/KeyFile.v ===== *)
(** Secret key files: [leelod/src/private_file.rs], key creation and loading of the worker
    ([leelod/src/worker.rs]), and the signing keys of the command line ([leelo-cli/src/keygen.rs] with the
    file helpers of [main.rs]). A disk is a map from paths to entries; every system call may fail, a write
    after any part of its bytes. *)
From stdpp Require Import base list gmap strings.
From Stdlib Require Import ZArith Lia.
From S2P Require Import Prelude Sss Crypto Wire.

Open Scope Z_scope.

(** * Disks *)

Abbreviation path := (list Z).

(** An entry: content, permission bits, owner, whether it is a regular file, whether the content and the
    directory entry are durable. *)
Record Entry : Type := mk_entry {
  entry_bytes : list Z; entry_mode : Z; entry_owner : Z; entry_regular : bool; entry_synced : bool; entry_linked : bool }.

Record Disk : Type := mk_disk { entries : gmap path Entry; tries : nat }.

(** The calls that fail, with the number of bytes written by then; the user and the file creation mask of
    the process. *)
Class FileSystem : Type := { call_fails : nat -> option nat; euid : Z; umask : Z }.

Definition Io (A : Type) : Type := Disk -> option A * Disk.
#[export] Instance Io_ret : MRet Io := fun A a d => (Some a, d).
#[export] Instance Io_bind : MBind Io := fun A B f m d =>
  match m d with (Some a, d) => f a d | (None, d) => (None, d) end.

Section Files.
Context `{FileSystem}.

Definition refuse {A} : Io A := fun d => (None, d).

(** A call that changes the entries when it succeeds, and may leave [torn] when it fails. *)
Definition call (change : gmap path Entry -> gmap path Entry) (torn : nat -> gmap path Entry -> gmap path Entry) : Io unit :=
  fun d =>
  match call_fails (tries d) with
  | None => (Some tt, mk_disk (change (entries d)) (S (tries d)))
  | Some n => (None, mk_disk (torn n (entries d)) (S (tries d)))
  end.

Definition untouched (n : nat) (m : gmap path Entry) : gmap path Entry := m.

(** [open] with [CREATE | EXCL | NOFOLLOW] and the permission bits [mode]. *)
Definition create_new (p : path) (mode : Z) : Io unit := fun d =>
  if bool_decide (is_Some (entries d !! p)) then (None, d)
  else call (fun m => <[p := mk_entry [] (Z.land mode (Z.lnot umask)) euid true false false]> m) untouched d.

Definition append (bytes : list Z) (e : Entry) : Entry :=
  mk_entry (entry_bytes e ++ bytes) (entry_mode e) (entry_owner e) (entry_regular e) false (entry_linked e).

Definition write_all (p : path) (bytes : list Z) : Io unit :=
  call (alter (append bytes) p) (fun n => alter (append (take n bytes)) p).

Definition sync_all (p : path) : Io unit :=
  call (alter (fun e => mk_entry (entry_bytes e) (entry_mode e) (entry_owner e) (entry_regular e) true (entry_linked e)) p) untouched.

(** [parent.sync_all()], and [sync_parent] of the command line, which opens the parent first. *)
Definition sync_entry (p : path) : Io unit :=
  call (alter (fun e => mk_entry (entry_bytes e) (entry_mode e) (entry_owner e) (entry_regular e) (entry_synced e) true) p) untouched.

Definition open_directory : Io unit := call (fun m => m) untouched.
Definition sync_parent (p : path) : Io unit := _ ← open_directory; sync_entry p.

Definition open_read (p : path) : Io Entry := fun d =>
  match entries d !! p with
  | None => (None, d)
  | Some e => (_ ← open_directory; mret e) d
  end.

(** * [private_file.rs] *)

Fixpoint split_slash (l : list Z) : list (list Z) :=
  match l with
  | [] => [[]]
  | b :: l =>
      match split_slash l with
      | [] => [[b]]
      | part :: parts => if b =? 47 then [] :: part :: parts else (b :: part) :: parts
      end
  end.

(** [Path::file_name]: the last component that is neither empty nor a dot, unless it is two dots. *)
Definition file_name (p : path) : option (list Z) :=
  match List.filter (fun c => negb (bool_decide (c = [] \/ c = [46]))) (split_slash p) with
  | [] => None
  | parts => let name := List.last parts [] in if bool_decide (name = [46; 46]) then None else Some name
  end.

Definition write_new (p : path) (bytes : list Z) : Io unit :=
  match file_name p with
  | None => refuse
  | Some _ =>
      _ ← open_directory;
      _ ← create_new p 384;
      _ ← write_all p bytes;
      _ ← sync_all p;
      sync_entry p
  end.

Definition read_private (p : path) (limit : nat) : Io (list Z) :=
  e ← open_read p;
  _ ← open_directory;
  if negb (entry_regular e) || negb (entry_owner e =? euid) || negb (Z.land (entry_mode e) 63 =? 0)
     || (limit <? length (entry_bytes e))%nat
  then refuse
  else
  _ ← open_directory;
  let bytes := take (limit + 1) (entry_bytes e) in
  if (limit <? length bytes)%nat then refuse else mret bytes.

(** * The evaluation key *)

Context `{Primitives} {R : Type} `{Rng R}.

(** What [keygen] prints. *)
Record KeyReport : Type := mk_key_report { report_key_id : list Z; report_public_key : list Z }.

Definition keygen (p : path) (rng : R) : Io KeyReport :=
  match generate_server rng with
  | (Err _, _) => refuse
  | (Ok secret, _) =>
      _ ← write_new p (export_secret_bytes secret);
      mret (mk_key_report (key_id (server_public_key secret)) (server_public_key secret))
  end.

Definition load (p : path) : Io server :=
  bytes ← read_private p 48;
  if negb (length bytes =? 48)%nat then refuse
  else match server_from_secret_bytes bytes with Ok secret => mret secret | Err _ => refuse end.

(** * Signing keys of the command line *)

Definition create_private (p : path) : Io unit := create_new p 384.

(** [keygen::create]: the private file is complete and durable before the public one is made. *)
Definition create_keys (private public : path) (rng : R) : Io unit :=
  match generate_signing_key rng with
  | (Err _, _) => refuse
  | (Ok key, _) =>
      _ ← create_private private;
      _ ← write_all private (seed key);
      _ ← sync_all private;
      _ ← sync_parent private;
      _ ← create_new public 438;
      _ ← write_all public (signing_public_key key);
      _ ← sync_all public;
      sync_parent public
  end.

(** [read_secret] *)
Definition read_secret (p : path) (max : nat) : Io (list Z) :=
  e ← open_read p;
  _ ← open_directory;
  if negb (entry_regular e) || negb (Z.land (entry_mode e) 63 =? 0) then refuse
  else
  _ ← open_directory;
  let data := take (max + 1) (entry_bytes e) in
  if (length data =? 0)%nat || (max <? length data)%nat then refuse else mret data.

(** [read_bounded] and [read_array] *)
Definition read_bounded (p : path) (max : nat) : Io (list Z) :=
  e ← open_read p;
  _ ← open_directory;
  let output := take (max + 1) (entry_bytes e) in
  if (max <? length output)%nat then refuse else mret output.

Definition read_array (n : nat) (p : path) : Io (list Z) :=
  bytes ← read_bounded p n;
  if (length bytes =? n)%nat then mret bytes else refuse.
End Files.

(** * Lemmas *)

Section Lemmas.
Context `{FileSystem}.

(** The entry a run of calls leaves at a new path. *)
Definition new_entry (p : path) (bytes : list Z) (mode : Z) (synced linked : bool) (m : gmap path Entry) : gmap path Entry :=
  <[p := mk_entry bytes (Z.land mode (Z.lnot umask)) euid true synced linked]> m.

Lemma alter_new (f : Entry -> Entry) p bytes mode synced linked m :
  alter f p (new_entry p bytes mode synced linked m) =
  <[p := f (mk_entry bytes (Z.land mode (Z.lnot umask)) euid true synced linked)]> m.
Proof. unfold new_entry. by rewrite alter_insert_eq. Qed.

(** Creation, a write and the two syncs: what they may leave. *)
Definition write_file (p : path) (mode : Z) (bytes : list Z) (link : Io unit) : Io unit :=
  _ ← create_new p mode; _ ← write_all p bytes; _ ← sync_all p; link.

(** A new file at [p], or no change. *)
Definition may_create (p : path) (mode : Z) (bytes : list Z) (m m' : gmap path Entry) : Prop :=
  m' = m \/ (m !! p = None /\ exists part synced linked, part `prefix_of` bytes /\ m' = new_entry p part mode synced linked m).

Lemma call_entries change torn d :
  let '(r, d') := call change torn d in
  (r = Some tt /\ entries d' = change (entries d)) \/ (r = None /\ exists n, entries d' = torn n (entries d)).
Proof. unfold call. destruct (call_fails (tries d)) as [n|]; [right; split; [done|]; by exists n|by left]. Qed.

Ltac next_call :=
  match goal with
  | |- context [call ?change ?torn ?d] =>
      let Hc := fresh "Hc" in let r := fresh "r" in let d' := fresh "d" in
      pose proof (call_entries change torn d) as Hc; destruct (call change torn d) as [r d'];
      destruct Hc as [[-> Hc]|[-> [? Hc]]]
  end.

(** The last step makes the directory entry durable, or changes nothing. *)
Definition links (p : path) (link : Io unit) : Prop := forall d bytes mode m,
  entries d = new_entry p bytes mode true false m ->
  let '(r, d') := link d in
  (r = Some tt /\ entries d' = new_entry p bytes mode true true m) \/ (r = None /\ entries d' = entries d).

Lemma links_sync_entry p : links p (sync_entry p).
Proof.
  intros d bytes mode m Hd. unfold sync_entry, untouched. next_call; [left|right; done].
  by rewrite Hc, Hd, alter_new.
Qed.

Lemma links_sync_parent p : links p (sync_parent p).
Proof.
  intros d bytes mode m Hd. unfold sync_parent, mbind, Io_bind, open_directory, untouched. next_call; [|by right].
  pose proof (links_sync_entry p d0 bytes mode m) as Hl. rewrite Hc in Hl. specialize (Hl Hd). by destruct (sync_entry p d0).
Qed.

Lemma write_file_entries p mode bytes link d :
  links p link ->
  let '(r, d') := write_file p mode bytes link d in
  may_create p mode bytes (entries d) (entries d') /\
  (r = Some tt -> entries d !! p = None /\ entries d' = new_entry p bytes mode true true (entries d)).
Proof.
  intros Hlink. unfold write_file, create_new, write_all, sync_all, mbind, Io_bind, untouched.
  case_bool_decide as Hnew; [by split; [left|]|]. apply eq_None_not_Some in Hnew.
  next_call; [|rewrite Hc; by split; [left|]]. fold (new_entry p [] mode false false (entries d)) in Hc.
  assert (forall part synced linked m', part `prefix_of` bytes -> m' = new_entry p part mode synced linked (entries d) ->
    may_create p mode bytes (entries d) m') as Hmay by (intros; right; split; [done|]; by do 3 eexists).
  next_call; rewrite Hc, alter_new in Hc0.
  2: { split; [|done]. eapply Hmay; [|exact Hc0]. apply prefix_take. }
  next_call; rewrite Hc0 in Hc1.
  2: { split; [|done]. by eapply (Hmay bytes false false). }
  change (<[p := _]> (entries d)) with (new_entry p bytes mode false false (entries d)) in Hc1. rewrite alter_new in Hc1.
  specialize (Hlink _ _ _ _ Hc1). destruct (link d2) as [r d3].
  destruct Hlink as [[-> Hd3]|[-> Hd3]]; [|rewrite Hd3, Hc1; split; [|done]; by eapply (Hmay bytes true false)].
  split; [by eapply (Hmay bytes true true)|done].
Qed.

(** A new file leaves the others alone. *)
Lemma may_create_keeps p mode bytes m m' q : may_create p mode bytes m m' -> is_Some (m !! q) -> m' !! q = m !! q.
Proof.
  intros [->|(Hp & part & synced & linked & _ & ->)] Hq; [done|]. unfold new_entry.
  rewrite lookup_insert_ne; [done|]. intros ->. rewrite Hp in Hq. by destruct Hq.
Qed.

(** [write_new] is such a run after the parent was opened. *)
Lemma write_new_entries p bytes d :
  let '(r, d') := write_new p bytes d in
  may_create p 384 bytes (entries d) (entries d') /\
  (r = Some tt -> entries d !! p = None /\ entries d' = new_entry p bytes 384 true true (entries d)).
Proof.
  unfold write_new. destruct (file_name p); [|by split; [left|]].
  unfold mbind at 1, Io_bind at 1, open_directory, untouched. next_call; [|rewrite Hc; by split; [left|]].
  pose proof (write_file_entries p 384 bytes (sync_entry p) d0 (links_sync_entry p)) as Hw. rewrite Hc in Hw. exact Hw.
Qed.

(** The permission bits of a private file exclude group and others under every mask. *)
Lemma private_mode : Z.land (Z.land 384 (Z.lnot umask)) 63 = 0.
Proof. rewrite (Z.land_comm 384), <- Z.land_assoc. change (Z.land 384 63) with 0. apply Z.land_0_r. Qed.

(** Reading leaves the disk as it is. *)
Lemma open_directory_entries d : let '(r, d') := open_directory d in entries d' = entries d.
Proof. unfold open_directory, untouched. by next_call. Qed.

Definition readable (limit : nat) (e : Entry) : Prop :=
  entry_regular e = true /\ entry_owner e = euid /\ Z.land (entry_mode e) 63 = 0 /\ (length (entry_bytes e) <= limit)%nat.

Lemma readable_iff limit e :
  negb (entry_regular e) || negb (entry_owner e =? euid) || negb (Z.land (entry_mode e) 63 =? 0)
    || (limit <? length (entry_bytes e))%nat = false <-> readable limit e.
Proof.
  unfold readable. rewrite !orb_false_iff, !negb_false_iff, !Z.eqb_eq, Nat.ltb_ge. tauto.
Qed.

Lemma open_directory_runs d : call_fails (tries d) = None -> open_directory d = (Some tt, mk_disk (entries d) (S (tries d))).
Proof. unfold open_directory, call. by intros ->. Qed.

Lemma read_private_Some p limit d bytes d' :
  read_private p limit d = (Some bytes, d') -> exists e, entries d !! p = Some e /\ readable limit e /\ bytes = entry_bytes e.
Proof.
  unfold read_private, open_read, mbind, Io_bind, mret, Io_ret, refuse.
  destruct (entries d !! p) as [e|]; [|done]. destruct (open_directory d) as [[[]|] d1]; [|done].
  destruct (open_directory d1) as [[[]|] d2]; [|done].
  destruct (_ || (limit <? length (entry_bytes e))%nat) eqn:Hr; [done|]. apply readable_iff in Hr.
  destruct (open_directory d2) as [[[]|] d3]; [|done]. destruct (limit <? _)%nat; [done|]. intros [= <- _].
  exists e. split_and!; [done|done|]. rewrite take_ge; [done|]. destruct Hr as (_ & _ & _ & ?). lia.
Qed.

Lemma read_private_runs p limit d e :
  entries d !! p = Some e -> readable limit e -> (forall n, call_fails (tries d + n) = None) ->
  exists d', read_private p limit d = (Some (entry_bytes e), d').
Proof.
  intros He Hr Hok. unfold read_private, open_read, mbind, Io_bind, mret, Io_ret, refuse. rewrite He.
  rewrite open_directory_runs by (specialize (Hok 0%nat); by rewrite Nat.add_0_r in Hok).
  rewrite open_directory_runs by (specialize (Hok 1%nat); cbn [tries]; by rewrite Nat.add_1_r in Hok).
  rewrite (proj2 (readable_iff limit e) Hr).
  rewrite open_directory_runs by (specialize (Hok 2%nat); cbn [tries]; by rewrite <- Hok; f_equal; lia).
  rewrite take_ge by (destruct Hr as (_ & _ & _ & ?); lia).
  destruct (Nat.ltb_spec limit (length (entry_bytes e))); [destruct Hr as (_ & _ & _ & ?); lia|]. by eexists.
Qed.
End Lemmas.

(** * Properties *)

Section Properties.
Context `{FileSystem} `{Primitives} {R : Type} `{Rng R}.

(** Key creation and loading of the worker. Creating an evaluation key never changes an entry that
    exists; when it succeeds the path was free and holds a durable file of the process's user, without
    permission for others, and loading it returns the key whose identifier and public key were reported.
    Loading returns a key only from a regular file of this user that is inaccessible to others and holds
    exactly the 48 bytes of that key. *)
Theorem evaluation_key_file p (rng : R) d :
  (forall sd info s, server_from_seed sd info = Some s ->
     length (export_secret_bytes s) = 48%nat /\ server_from_key (export_secret_bytes s) = Some s) ->
  (let '(r, d') := keygen p rng d in
   (forall q, is_Some (entries d !! q) -> entries d' !! q = entries d !! q) /\
   forall report, r = Some report -> entries d !! p = None /\
     exists e, entries d' = <[p := e]> (entries d) /\ readable 48 e /\ entry_synced e = true /\ entry_linked e = true /\
       report_key_id report = key_id (report_public_key report) /\
       forall d2, entries d2 !! p = Some e -> (forall n, call_fails (tries d2 + n) = None) ->
         exists s d3, load p d2 = (Some s, d3) /\ server_public_key s = report_public_key report) /\
  (forall s d', load p d = (Some s, d') -> exists e, entries d !! p = Some e /\ readable 48 e /\
     length (entry_bytes e) = 48%nat /\ server_from_key (entry_bytes e) = Some s).
Proof.
  intros Hkeys. split.
  - unfold keygen, generate_server. destruct (random_bytes 48 rng) as [[sd|e] rng']; [|by split].
    destruct (server_from_seed sd _) as [s|] eqn:Es; [|by split]. simpl. destruct (Hkeys _ _ _ Es) as [Hlen Hback].
    unfold mbind, Io_bind. pose proof (write_new_entries p (export_secret_bytes s) d) as Hw.
    destruct (write_new p (export_secret_bytes s) d) as [[[]|] d']; destruct Hw as [Hmay Hdone].
    2: { split; [|done]. intros q. by eapply may_create_keeps. }
    split; [intros q; by eapply may_create_keeps|]. intros report [= <-]. destruct (Hdone eq_refl) as [Hfree Hd'].
    split; [done|]. eexists. split; [exact Hd'|]. split; [split_and!; [done|done|apply private_mode|simpl; lia]|].
    split_and!; [done..|]. intros d2 He Hok.
    destruct (read_private_runs p 48 d2 _ He) as [d3 Hread]; [split_and!; [done|done|apply private_mode|simpl; lia]|done|].
    exists s, d3. unfold load, mbind, Io_bind. rewrite Hread. cbn [entry_bytes]. rewrite Hlen. simpl.
    unfold server_from_secret_bytes. by rewrite Hback.
  - intros s d'. unfold load, mbind, Io_bind. destruct (read_private p 48 d) as [[bytes|] d1] eqn:Er; [|done].
    apply read_private_Some in Er as (e & He & Hr & ->). destruct (Nat.eqb_spec (length (entry_bytes e)) 48); [|done]. simpl.
    unfold server_from_secret_bytes. destruct (server_from_key (entry_bytes e)) as [s'|] eqn:Es; [|done]. simpl.
    intros [= <- _]. by exists e.
Qed.
End Properties.

Section SigningKeys.
Context `{FileSystem} `{PrimitiveLaws} {R : Type} `{RngSound R}.

(** The private file, then the public one. *)
Lemma create_keys_files private public (rng : R) d :
  create_keys private public rng d =
  match generate_signing_key rng with
  | (Err _, _) => (None, d)
  | (Ok key, _) =>
      (_ ← write_file private 384 (seed key) (sync_parent private);
       write_file public 438 (signing_public_key key) (sync_parent public)) d
  end.
Proof.
  unfold create_keys, create_private, write_file. destruct (generate_signing_key rng) as [[key|e] rng']; [|done].
  unfold mbind, Io_bind. destruct (create_new private 384 d) as [[[]|] d1]; [|done].
  destruct (write_all private (seed key) d1) as [[[]|] d2]; [|done]. by destruct (sync_all private d2) as [[[]|] d3].
Qed.

(** Creating a signing key never changes a file that exists. The public file is made only when the
    private one is complete, durable and inaccessible to others; so wherever the sequence fails, a new
    public file never stands without its private key. When it succeeds both are durable, and what the
    stored seed signs verifies under the stored public key. *)
Theorem signing_key_files private public (rng : R) d :
  private <> public ->
  let '(r, d') := create_keys private public rng d in
  (forall q, is_Some (entries d !! q) -> entries d' !! q = entries d !! q) /\
  (entries d !! public = None -> is_Some (entries d' !! public) -> exists key e,
     entries d' !! private = Some e /\ entry_bytes e = seed key /\ Z.land (entry_mode e) 63 = 0 /\
     entry_synced e = true /\ entry_linked e = true /\
     exists f, entries d' !! public = Some f /\ entry_bytes f `prefix_of` signing_public_key key) /\
  (r = Some tt -> exists key e f,
     entries d' !! private = Some e /\ entries d' !! public = Some f /\ entry_bytes e = seed key /\
     entry_synced f = true /\ entry_linked f = true /\
     forall message signature, sign key message = Ok signature -> verify (entry_bytes f) message signature = Ok tt).
Proof.
  intros Hne. rewrite create_keys_files. destruct (generate_signing_key rng) as [[key|err] rng'] eqn:Hgen; [|by split_and!; [|intros -> []|]].
  unfold mbind, Io_bind. pose proof (write_file_entries private 384 (seed key) (sync_parent private) d (links_sync_parent private)) as W1.
  destruct (write_file private 384 (seed key) (sync_parent private) d) as [[[]|] d1]; destruct W1 as [Hmay1 Hdone1].
  2: { split_and!; [intros q; by eapply may_create_keeps| |done]. intros Hp [f Hf]. exfalso.
       destruct Hmay1 as [E|(_ & part & sy & li & _ & E)]; rewrite E in Hf; unfold new_entry in Hf;
         rewrite ?lookup_insert_ne in Hf by done; congruence. }
  destruct (Hdone1 eq_refl) as [Hfree E1]. clear Hdone1.
  pose proof (write_file_entries public 438 (signing_public_key key) (sync_parent public) d1 (links_sync_parent public)) as W2.
  destruct (write_file public 438 (signing_public_key key) (sync_parent public) d1) as [r d2]. destruct W2 as [Hmay2 Hdone2].
  assert (entries d2 !! private = Some (mk_entry (seed key) (Z.land 384 (Z.lnot umask)) euid true true true)) as Hpriv.
  { rewrite (may_create_keeps _ _ _ _ _ private Hmay2); rewrite E1; unfold new_entry; rewrite lookup_insert_eq; [done|by eexists]. }
  split_and!.
  - intros q Hq. pose proof (may_create_keeps _ _ _ _ _ q Hmay1 Hq) as Eq. rewrite <- Eq.
    eapply may_create_keeps; [exact Hmay2|]. by rewrite Eq.
  - intros Hp [f Hf]. exists key. eexists. split; [exact Hpriv|]. split_and!; [done|apply private_mode|done|done|].
    exists f. split; [done|]. destruct Hmay2 as [E|(_ & part & sy & li & Hpart & E)]; rewrite E in Hf.
    + rewrite E1 in Hf. unfold new_entry in Hf. rewrite lookup_insert_ne in Hf by done. congruence.
    + unfold new_entry in Hf. rewrite lookup_insert_eq in Hf. by injection Hf as <-.
  - intros Hr. destruct (Hdone2 Hr) as [_ E2]. exists key. eexists _, _. split; [exact Hpriv|].
    split; [rewrite E2; unfold new_entry; by rewrite lookup_insert_eq|]. split_and!; [done..|]. intros message signature Hs.
    unfold generate_signing_key in Hgen. destruct (random_bytes 32 rng) as [[sd|e] rng''] eqn:Er; [|done].
    injection Hgen as <- <-. by eapply sign_verify; [eapply random_bytes_Ok|].
Qed.
End SigningKeys.
