(* ===== verification/KeyFileDemo.v ===== *)
(** Key files on a disk that works, with the toy primitives: witnesses for the key file properties. *)
From stdpp Require Import base list gmap strings.
From Stdlib Require Import ZArith Lia.
From S2P Require Import Prelude Sss Crypto ToyCrypto Wire Demo KeyFile.

Open Scope Z_scope.

#[export] Instance working_disk : FileSystem := {| call_fails _ := None; euid := 1000; umask := 18 |}.

Definition empty_disk : Disk := mk_disk ∅ 0.
Definition key_path : path := bytes_of_string "/etc/leelo/worker.key".
Definition public_path : path := bytes_of_string "/etc/leelo/admin.pub".

(** A group element of 48 bytes is stored with a zero at its end. *)
Lemma normal_48 l : byte_array 48 l -> normal l = l ++ [0].
Proof.
  intros Hl. rewrite <- (normal_id (l ++ [0])).
  2: { apply (byte_array_app 48 1); [done|]. decided. }
  apply map_ext. intros i. f_equal. destruct (Nat.lt_ge_cases i (length l)) as [Hi|Hi]; [by rewrite app_nth1|].
  rewrite app_nth2, nth_overflow by done. by destruct (i - length l)%nat as [|[]].
Qed.

Lemma toy_keys_stored sd info s : server_from_seed sd info = Some s ->
  length (export_secret_bytes s) = 48%nat /\ server_from_key (export_secret_bytes s) = Some s.
Proof.
  unfold server_from_seed, toy_primitives. intros [= <-]. unfold export_secret_bytes. cbn [server_serialize toy_primitives server_from_key].
  pose proof (toy_hash_ok 48 (sd ++ info)) as Hh. unfold to_elem at 1. cbn [raw proj1_sig]. rewrite normal_48 by done.
  rewrite take_app_length' by apply Hh. split; [apply Hh|]. f_equal. apply elem_eq. unfold to_elem. cbn [raw proj1_sig].
  rewrite (normal_48 _ Hh), take_app_length' by apply Hh. exact (normal_48 _ Hh).
Qed.

(** The key pair that is created, and the disk it is on. *)
Definition created : option KeyReport * Disk := keygen key_path 100 empty_disk.

Lemma evaluation_key_file_witness :
  exists report s d, created.1 = Some report /\ load key_path created.2 = (Some s, d) /\
    server_public_key s = report_public_key report.
Proof.
  destruct (evaluation_key_file key_path 100 empty_disk toy_keys_stored) as [Hgen _].
  change (keygen key_path 100 empty_disk) with created in Hgen.
  assert (exists report d, created = (Some report, d)) as (report & d & E) by (vm_compute; eauto).
  rewrite E in *. destruct Hgen as [_ Hgen]. destruct (Hgen report eq_refl) as (_ & e & Hd & _ & _ & _ & _ & Hload).
  destruct (Hload d) as (s & d3 & Hl & Hs); [rewrite Hd; apply lookup_insert_eq|intros n; reflexivity|].
  exists report, s, d3. split; [reflexivity|]. split; [exact Hl|exact Hs].
Defined.

Lemma signing_key_files_witness :
  exists key e f, entries (create_keys key_path public_path 7 empty_disk).2 !! key_path = Some e /\
    entries (create_keys key_path public_path 7 empty_disk).2 !! public_path = Some f /\
    entry_bytes e = seed key /\ entry_synced f = true /\ entry_linked f = true.
Proof.
  pose proof (signing_key_files key_path public_path 7 empty_disk ltac:(vm_compute; discriminate)) as Hs.
  assert ((create_keys key_path public_path 7 empty_disk).1 = Some tt) as Hr by (vm_compute; reflexivity).
  destruct (create_keys key_path public_path 7 empty_disk) as [r d]. cbn [fst snd] in *. destruct Hs as (_ & _ & Hs).
  destruct (Hs Hr) as (key & e & f & H1 & H2 & H3 & H4 & H5 & _). exists key, e, f. auto.
Defined.
