(* ===== verification/EventDaemon.v ===== *)
(** The event daemon of the collector: [events] of [leelo-collector/src/linux.rs] with the log it replays,
    appends to and rotates, and the atomic replacement of [leelo-collector/src/reconcile.rs]. Files are those
    of the disk model of [KeyFile]; a crash is a run whose calls fail from some point on. *)
From stdpp Require Import base list gmap strings.
From Stdlib Require Import ZArith Lia SpecFloat.
From S2P Require Import Prelude Float64 Text Telemetry Collector Reconcile KeyFile.

Open Scope Z_scope.

Definition LOG_LIMIT : Z := 16 * 1024 * 1024.

(** * Files *)

(** What [symlink_metadata] tells of a directory. *)
Record Metadata : Type := mk_metadata { meta_dir : bool; meta_uid : Z; meta_gid : Z; meta_mode : Z }.

Section Calls.
Context `{FileSystem}.

Definition private_directory (info : option Metadata) : Io unit :=
  match info with
  | None => refuse
  | Some info =>
      if negb (meta_dir info) || negb (meta_uid info =? euid) || negb (Z.land (meta_mode info) 18 =? 0)
      then refuse else mret tt
  end.

(** A call that changes nothing on the disk, and the outcome of a sequence of calls as a value. *)
Definition system_call : Io unit := call (fun m => m) untouched.
Definition attempt {A} (m : Io A) : Io (option A) := fun d => let (r, d) := m d in (Some r, d).

(** [open] with [CREATE | APPEND | NOFOLLOW] and the permission bits [mode]. *)
Definition open_append (p : path) (mode : Z) : Io unit := fun d =>
  match entries d !! p with
  | Some _ => system_call d
  | None => call (fun m => <[p := mk_entry [] (Z.land mode (Z.lnot umask)) euid true false false]> m) untouched d
  end.

(** [file.metadata()] of an open file. *)
Definition metadata (p : path) : Io Entry := fun d =>
  match entries d !! p with
  | None => (None, d)
  | Some e => (_ ← system_call; mret e) d
  end.

Definition with_bytes (bytes : list Z) (e : Entry) : Entry :=
  mk_entry bytes (entry_mode e) (entry_owner e) (entry_regular e) false (entry_linked e).

Definition set_len (p : path) (n : Z) : Io unit :=
  call (alter (fun e => with_bytes (take (Z.to_nat n) (entry_bytes e) ++
                                    replicate (Z.to_nat n - length (entry_bytes e)) 0) e) p) untouched.

Definition rename (from to : path) : Io unit := fun d =>
  match entries d !! from with
  | None => (None, d)
  | Some e => call (fun m => <[to := e]> (delete from m)) untouched d
  end.

Definition set_permissions (p : path) (mode : Z) : Io unit :=
  call (alter (fun e => mk_entry (entry_bytes e) mode (entry_owner e) (entry_regular e) (entry_synced e) (entry_linked e)) p)
    untouched.

Definition remove (p : path) : Io unit := call (delete p) untouched.

Definition join (dir : path) (name : string) : path := dir ++ 47 :: bytes_of_string name.

(** [path.exists()]: false when the name is absent, leads nowhere, or cannot be looked up. *)
Definition path_exists (resolves : path -> bool) (p : path) : Io bool := fun d =>
  match entries d !! p with
  | None => (Some false, d)
  | Some e => (r ← attempt system_call; mret (bool_decide (is_Some r) && (entry_regular e || resolves p))) d
  end.

(** [atomic_write] of [dir/name]. The temporary file is [dir/.tmp] and a suffix that the library draws;
    it is removed when a later step fails. *)
Definition cleaning {A} (p : path) (m : Io A) : Io A := fun d =>
  match m d with
  | (Some a, d) => (Some a, d)
  | (None, d) => (None, (remove p d).2)
  end.

Definition temp_path (suffix : nat -> string) (dir : path) (n : nat) : path := join dir (".tmp" +:+ suffix n).

Definition atomic_write (suffix : nat -> string) (dir : path) (name : string) (bytes : list Z) : Io unit := fun d =>
  let temp := temp_path suffix dir (tries d) in
  (_ ← create_new temp 384;
   cleaning temp (_ ← set_permissions temp 416; _ ← write_all temp bytes; rename temp (join dir name))) d.

(** * The log *)

(** [open_log], which leaves the file open at [p]. *)
Definition open_log (p : path) : Io unit :=
  _ ← open_append p 384;
  info ← metadata p;
  if negb (entry_regular info) || negb (entry_owner info =? euid) || negb (Z.land (entry_mode info) 63 =? 0) ||
     (LOG_LIMIT + 8192 <? Z.of_nat (length (entry_bytes info)))
  then refuse else mret tt.

(** [bytes.iter().rposition(|byte| *byte == b'\n')] *)
Fixpoint last_newline (bytes : list Z) : option nat :=
  match bytes with
  | [] => None
  | b :: bytes =>
      match last_newline bytes with
      | Some n => Some (S n)
      | None => if b =? 10 then Some 0%nat else None
      end
  end.

Definition complete_length (bytes : list Z) : nat :=
  match last_newline bytes with Some n => S n | None => 0 end.

Section Replay.
Context (resolves : path -> bool) (read_received : list Z -> option Received).

Definition read_up_to (p : path) (limit : Z) : Io (list Z) :=
  e ← metadata p; mret (take (Z.to_nat limit) (entry_bytes e)).

(** The record a newline did not commit is cut off. *)
Definition repair (p : path) (m : Metrics) (bytes : list Z) : Io (Metrics * list Z) :=
  if bool_decide (bytes <> []) && negb (bool_decide (last bytes = Some 10)) then
    _ ← set_len p (Z.of_nat (complete_length bytes));
    _ ← sync_all p;
    mret (reject m, take (complete_length bytes) bytes)
  else mret (m, bytes).

Definition replay_line (m : Metrics) (line : list Z) : Metrics :=
  if (MAX_EVENT_BYTES + 1024 <? length line)%nat then reject m
  else match read_received line with
       | Some record => (accept m record).1
       | None => reject m
       end.

Definition nonempty (line : list Z) : bool := negb (bool_decide (line = [])).

Definition replay_lines (m : Metrics) (bytes : list Z) : Metrics :=
  fold_left replay_line (List.filter nonempty (split_lines bytes)) m.

Definition replay (p : path) (m : Metrics) : Io Metrics :=
  found ← path_exists resolves p;
  if negb found then mret m
  else
    _ ← open_log p;
    bytes ← read_up_to p (LOG_LIMIT + 8193);
    if LOG_LIMIT + 8192 <? Z.of_nat (length bytes) then refuse
    else
      r ← repair p m bytes;
      mret (replay_lines r.1 r.2).
End Replay.
End Calls.

(** * Receiving *)

Inductive Ancillary : Type := Credentials (uid pid : Z) | OtherMessage.

(** What [recvmsg] answers: an error, or a datagram with its control messages. *)
Inductive Received_answer : Type :=
| RecvFailed (retry : bool)
| Datagram (bytes : list Z) (control_truncated : bool) (control : list Ancillary).

Abbreviation sources := (list (string * Z)).

(** The last credentials of the control messages. *)
Definition credentials_of (control : list Ancillary) : option (Z * Z) :=
  fold_left (fun found item => match item with Credentials uid pid => Some (uid, pid) | OtherMessage => found end)
    control None.

(** [uid.parse::<u32>()] *)
Definition parse_digits (bytes : list Z) : option Z :=
  fold_left (fun value b =>
    match value with
    | Some v => if is_ascii_digit b then let v := 10 * v + (b - 48) in if v <? 2 ^ 32 then Some v else None else None
    | None => None
    end) bytes (Some 0).

Definition parse_u32 (s : string) : option Z :=
  let bytes := match bytes_of_string s with
               | 43 :: rest => if bool_decide (rest = []) then [43] else rest
               | bytes => bytes
               end in
  if bool_decide (bytes = []) then None else parse_digits bytes.

Definition COLON : Ascii.ascii := Ascii.ascii_of_nat 58.

(** The loop over the [component:uid] arguments. *)
Fixpoint parse_sources (known : sources) (args : list string) : option sources :=
  match args with
  | [] => Some known
  | value :: args =>
      match split_once COLON value with
      | None => None
      | Some (component, uid) =>
          match parse_u32 uid with
          | None => None
          | Some uid =>
              if negb (contains ["client"; "frontend"; "worker"; "leelod"] component) ||
                 existsb (fun s => String.eqb (fst s) component && (snd s =? uid)) known
              then None else parse_sources (known ++ [(component, uid)]) args
          end
      end
  end.

Definition configured_sources (args : list string) : option sources :=
  if bool_decide (args = []) || (32 <? length args)%nat then None else parse_sources [] args.

Section Receive.
Context (json_read : list Z -> option TelemetryRecord).

(** [read_event]: [inl retry] is a receive error, which the caller passes over when [retry] holds. *)
Definition read_event (known : sources) (answer : Received_answer) (clock : option Z) : bool + option Received :=
  match answer with
  | RecvFailed retry => inl retry
  | Datagram sent control_truncated control =>
      let bytes := take (MAX_EVENT_BYTES + 1) sent in
      if (MAX_EVENT_BYTES + 1 <? length sent)%nat || control_truncated || (MAX_EVENT_BYTES <? length bytes)%nat
      then inr None
      else
        match credentials_of control with
        | None => inr None
        | Some (uid, pid) =>
            if negb (existsb (fun s => snd s =? uid) known) then inr None
            else
              match decode json_read bytes with
              | None => inr None
              | Some record =>
                  if negb (existsb (fun s => String.eqb (fst s) (rec_component record) && (snd s =? uid)) known)
                  then inr None
                  else inr (Some (mk_received uid pid (default 0 (unix_time_ms clock)) record))
              end
        end
  end.
End Receive.

(** * The daemon *)

Record Daemon : Type := mk_daemon { registry : Metrics; log_size : Z; last_export : Z }.

(** What one iteration of the loop is told: the answer of [recvmsg], the clocks, and the instants read
    before and after an export. *)
Record Input : Type := mk_input {
  in_answer : Received_answer;
  in_clock : option Z;
  in_instant : Z;
  in_export_clock : option Z;
  in_exported_at : Z;
}.

Definition EXPORT_PERIOD : Z := 1000000000.

Section Events.
Context `{FileSystem}.
Context (suffix : nat -> string) (resolves : path -> bool) (display_f64 : f64 -> string).
Context (json_read : list Z -> option TelemetryRecord).
Context (read_received : list Z -> option Received) (received_json : Received -> option (list Z)).
Context (state_dir : path).

Definition log_path : path := join state_dir "events.jsonl".
Definition previous_path : path := join state_dir "events.previous.jsonl".

Definition count_write_failure (m : Metrics) : Metrics :=
  mk_metrics (seen m) (order m) (counters m) (histograms m) (attempts m) (attempt_order m) (reported_drops m)
    (replay_evictions m) (accepted m) (rejected m) (duplicates m) (overflow m) (bump (write_failures m))
    (last_received_ms m).

Definition with_registry (st : Daemon) (m : Metrics) : Daemon := mk_daemon m (log_size st) (last_export st).

(** A full log becomes the previous one; its size is then zero. *)
Definition make_room (size : Z) (bytes : list Z) : Io Z :=
  if LOG_LIMIT <? size + Z.of_nat (length bytes) then
    _ ← rename log_path previous_path;
    _ ← open_log log_path;
    mret 0
  else mret size.

(** Appending an accepted event; a failed write is cut off again. *)
Definition store (st : Daemon) (received : Received) : Io Daemon :=
  match received_json received with
  | None => refuse
  | Some line =>
      let bytes := line ++ [10] in
      size ← make_room (log_size st) bytes;
      written ← attempt (write_all log_path bytes);
      match written with
      | None =>
          _ ← set_len log_path size;
          mret (mk_daemon (count_write_failure (registry st)) size (last_export st))
      | Some _ => mret (mk_daemon (registry st) (size + Z.of_nat (length bytes)) (last_export st))
      end
  end.

Definition receive (known : sources) (st : Daemon) (i : Input) : Io Daemon :=
  match read_event json_read known (in_answer i) (in_clock i) with
  | inr (Some received) =>
      let (m, fresh) := accept (registry st) received in
      if fresh then store (with_registry st m) received else mret (with_registry st m)
  | inr None => mret (with_registry st (reject (registry st)))
  | inl true => mret st
  | inl false => refuse
  end.

(** The export of the registry, at most once a second. *)
Definition export (st : Daemon) (i : Input) : Io Daemon :=
  if EXPORT_PERIOD <=? in_instant i - last_export st then
    match Collector.render display_f64 (registry st) (default 0 (unix_time_ms (in_export_clock i))) with
    | None => refuse
    | Some text =>
        written ← attempt (atomic_write suffix state_dir "events.prom" (bytes_of_string text));
        mret (mk_daemon (if bool_decide (is_Some written) then registry st else count_write_failure (registry st))
                (log_size st) (in_exported_at i))
    end
  else mret st.

Definition events_step (known : sources) (st : Daemon) (i : Input) : Io Daemon :=
  st ← receive known st i; export st i.

Fixpoint events_loop (known : sources) (st : Daemon) (inputs : list Input) : Io Daemon :=
  match inputs with
  | [] => mret st
  | i :: inputs => st ← events_step known st i; events_loop known st inputs
  end.

(** The startup of [events]: the socket is bound, passes credentials, gets its permissions and its read
    timeout, then the logs are replayed. The socket has a directory of its own, and its name is not on the
    modelled disk, which is that of the state directory: of these four calls only the outcome matters here. *)
Definition startup (socket_info state_info : option Metadata) (now : Z) : Io Daemon :=
  _ ← private_directory socket_info;
  _ ← private_directory state_info;
  _ ← system_call; _ ← system_call; _ ← system_call; _ ← system_call;
  m ← replay resolves read_received previous_path default_metrics;
  m ← replay resolves read_received log_path m;
  _ ← open_log log_path;
  info ← metadata log_path;
  mret (mk_daemon m (Z.of_nat (length (entry_bytes info))) (now - EXPORT_PERIOD)).

Definition events (args : list string) (socket_info state_info : option Metadata) (now : Z) (inputs : list Input)
    : Io Daemon :=
  match configured_sources args with
  | None => refuse
  | Some known => st ← startup socket_info state_info now; events_loop known st inputs
  end.
End Events.
