(* ===== verification/FileLogic.v ===== *)
(** Reasoning about sequences of file calls on the disk model of [KeyFile], whichever of them fail: a weakest
    precondition over the entries, and the atomic replacement of [leelo-collector/src/reconcile.rs]. *)
From stdpp Require Import base list gmap strings.
From Stdlib Require Import ZArith Lia.
From S2P Require Import Prelude Text KeyFile EventDaemon.

Open Scope Z_scope.

Section Wp.
Context `{FileSystem}.

(** No call fails. *)
Definition calm : Prop := forall n, call_fails n = None.

(** From the entries [e], whatever calls were made before, [m] ends with an answer and entries in [Q]. *)
Definition wp {A} (m : Io A) (Q : option A -> gmap path Entry -> Prop) (e : gmap path Entry) : Prop :=
  forall t, let '(o, d) := m (mk_disk e t) in Q o (entries d).

Lemma wp_run {A} (m : Io A) Q d : wp m Q (entries d) -> let '(o, d') := m d in Q o (entries d').
Proof. destruct d as [e t]. intros Hw. exact (Hw t). Qed.

Lemma wp_mono {A} (m : Io A) (Q R : option A -> gmap path Entry -> Prop) e :
  wp m Q e -> (forall o e', Q o e' -> R o e') -> wp m R e.
Proof. intros Hw HQR t. specialize (Hw t). destruct (m _). by apply HQR. Qed.

Lemma wp_ret {A} (a : A) (Q : option A -> gmap path Entry -> Prop) e : Q (Some a) e -> wp (mret a) Q e.
Proof. by intros HQ t. Qed.

Lemma wp_refuse {A} (Q : option A -> gmap path Entry -> Prop) e : Q None e -> wp refuse Q e.
Proof. by intros HQ t. Qed.

Lemma wp_bind {A B} (m : Io A) (f : A -> Io B) Q e :
  wp m (fun o e' => match o with Some a => wp (f a) Q e' | None => Q None e' end) e -> wp (mbind f m) Q e.
Proof.
  intros Hw t. specialize (Hw t). unfold mbind, Io_bind. destruct (m _) as [[a|] d]; [|done].
  destruct d as [e' t']. exact (Hw t').
Qed.

Lemma wp_attempt {A} (m : Io A) (Q : option (option A) -> gmap path Entry -> Prop) e :
  wp m (fun o => Q (Some o)) e -> wp (attempt m) Q e.
Proof. intros Hw t. specialize (Hw t). unfold attempt. by destruct (m _). Qed.

Lemma wp_call (change : gmap path Entry -> gmap path Entry) (torn : nat -> gmap path Entry -> gmap path Entry) (Q : option unit -> gmap path Entry -> Prop) e :
  Q (Some tt) (change e) -> (forall n, ~ calm -> Q None (torn n e)) -> wp (call change torn) Q e.
Proof.
  intros H1 H2 t. unfold call. simpl. destruct (call_fails t) as [n|] eqn:E; [|done].
  apply H2. intros Hc. by rewrite Hc in E.
Qed.

Lemma wp_system_call (Q : option unit -> gmap path Entry -> Prop) e :
  Q (Some tt) e -> (~ calm -> Q None e) -> wp system_call Q e.
Proof. intros H1 H2. by apply wp_call. Qed.

Lemma wp_metadata (p : path) (Q : option Entry -> gmap path Entry -> Prop) e f :
  e !! p = Some f -> Q (Some f) e -> (~ calm -> Q None e) -> wp (metadata p) Q e.
Proof.
  intros Hf H1 H2 t. unfold metadata. cbn [entries]. rewrite Hf.
  apply (wp_bind system_call (fun _ => mret f)). apply wp_system_call; [by apply wp_ret|done].
Qed.

Lemma wp_rename (p q : path) (Q : option unit -> gmap path Entry -> Prop) e f :
  e !! p = Some f -> Q (Some tt) (<[q := f]> (delete p e)) -> (~ calm -> Q None e) -> wp (rename p q) Q e.
Proof.
  intros Hf H1 H2 t. unfold rename. cbn [entries]. rewrite Hf.
  by apply (wp_call (fun m => <[q := f]> (delete p m))).
Qed.

(** The entry [open_log] creates. *)
Definition new_log : Entry := mk_entry [] (Z.land 384 (Z.lnot umask)) euid true false false.

Definition private_log (e : Entry) : Prop :=
  entry_regular e = true /\ entry_owner e = euid /\ Z.land (entry_mode e) 63 = 0.

Lemma private_new_log : private_log new_log.
Proof. split_and!; [done|done|apply private_mode]. Qed.

Lemma wp_open_append (p : path) (Q : option unit -> gmap path Entry -> Prop) e :
  Q (Some tt) (match e !! p with Some _ => e | None => <[p := new_log]> e end) -> (~ calm -> Q None e) ->
  wp (open_append p 384) Q e.
Proof.
  intros H1 H2 t. unfold open_append. cbn [entries]. destruct (e !! p).
  - by apply (wp_system_call Q).
  - by apply (wp_call (fun m => <[p := new_log]> m) untouched Q).
Qed.

Lemma wp_open_log (p : path) (Q : option unit -> gmap path Entry -> Prop) e :
  (let e' := match e !! p with Some _ => e | None => <[p := new_log]> e end in
   (forall f, e' !! p = Some f -> private_log f -> Z.of_nat (length (entry_bytes f)) <= LOG_LIMIT + 8192 -> Q (Some tt) e') /\
   (forall f, e' !! p = Some f -> ~ (private_log f /\ Z.of_nat (length (entry_bytes f)) <= LOG_LIMIT + 8192) -> Q None e') /\
   (~ calm -> Q None e')) ->
  (~ calm -> Q None e) -> wp (open_log p) Q e.
Proof.
  cbv zeta. intros (H1 & H2 & H3) H4. unfold open_log. apply wp_bind.
  set (e' := match e !! p with Some _ => e | None => <[p := new_log]> e end) in *.
  apply wp_open_append; [|done]. fold e'.
  assert (exists f, e' !! p = Some f) as [f Hf].
  { subst e'. destruct (e !! p) as [f|] eqn:E; [by exists f|]. exists new_log. apply lookup_insert_eq. }
  apply wp_bind. eapply wp_metadata; [exact Hf| |done].
  destruct (negb _ || _ || _ || _) eqn:E.
  - apply wp_refuse. apply (H2 f Hf). intros [(A1 & A2 & A3) A4]. apply Z.ltb_ge in A4.
    rewrite A1, A2, A3, A4, Z.eqb_refl in E. done.
  - rewrite !orb_false_iff, !negb_false_iff, !Z.eqb_eq, Z.ltb_ge in E. destruct E as (((A1 & A2) & A3) & A4).
    apply wp_ret. by apply (H1 f Hf).
Qed.
(** ** Atomic replacement *)

Lemma wp_cleaning {A} (p : path) (m : Io A) (Q : option A -> gmap path Entry -> Prop) e :
  wp m (fun o e' => match o with Some a => Q (Some a) e' | None => wp (remove p) (fun _ => Q None) e' end) e ->
  wp (cleaning p m) Q e.
Proof.
  intros Hw t. specialize (Hw t). unfold cleaning. destruct (m _) as [[a|] [e' t']]; [done|].
  specialize (Hw t'). by destruct (remove p _).
Qed.

Lemma wp_create_new (p : path) (mode : Z) (Q : option unit -> gmap path Entry -> Prop) e :
  (e !! p = None -> Q (Some tt) (new_entry p [] mode false false e)) -> ((calm -> is_Some (e !! p)) -> Q None e) -> wp (create_new p mode) Q e.
Proof.
  intros H1 H2 t. unfold create_new. cbn [entries]. case_bool_decide as Hx; [by apply H2|]. apply eq_None_not_Some in Hx.
  apply (wp_call (fun m => new_entry p [] mode false false m) untouched Q); [by apply H1|]. intros n Hc. by apply H2.
Qed.

Lemma join_inj dir a b : join dir a = join dir b -> a = b.
Proof. unfold join. intros E. apply app_inv_head in E. simplify_eq. by rewrite <- (text_of_bytes a), <- (text_of_bytes b), E. Qed.

(** A reader of the target sees its old content or the whole new one, and no other name changes except the
    temporary file's. *)
Definition replaced (suffix : nat -> string) (dir : path) (name : string) (bytes : list Z) (e : gmap path Entry)
    (o : option unit) (e' : gmap path Entry) : Prop :=
  (forall q, q <> join dir name -> (forall n, q <> temp_path suffix dir n) -> e' !! q = e !! q) /\
  match o with
  | Some _ => exists f, e' !! join dir name = Some f /\ entry_bytes f = bytes /\ entry_mode f = 416 /\
                entry_owner f = euid /\ entry_regular f = true
  | None => e' !! join dir name = e !! join dir name
  end.

Lemma wp_atomic_write (suffix : nat -> string) (dir : path) (name : string) (bytes : list Z) (e : gmap path Entry) :
  (forall n, name <> ".tmp" +:+ suffix n) ->
  wp (atomic_write suffix dir name bytes) (replaced suffix dir name bytes e) e.
Proof.
  intros Hname t. unfold atomic_write. cbn [tries]. set (temp := temp_path suffix dir t).
  set (Q := replaced suffix dir name bytes e).
  assert (temp <> join dir name) as Hne by (intros E; apply join_inj in E; by apply (Hname t)).
  assert (forall e', (forall q, q <> temp -> e' !! q = e !! q) -> Q None e') as Hsame.
  { intros e' Hq. split; [intros q _ Hn; apply Hq, Hn|by apply Hq, not_eq_sym]. }
  assert (forall f : Entry, wp (remove temp) (fun _ => Q None) (<[temp := f]> e)) as Hclean.
  { intros f. apply wp_call; intros; apply Hsame; intros q Hq;
      [by rewrite lookup_delete_ne, lookup_insert_ne|by apply lookup_insert_ne]. }
  apply (wp_bind (create_new temp 384) _ Q). apply wp_create_new; [intros Hnone|intros; by apply Hsame].
  apply wp_cleaning, wp_bind. unfold set_permissions, write_all, new_entry.
  apply wp_call; [rewrite alter_insert_eq|intros; apply Hclean].
  apply wp_bind, wp_call; intros; rewrite alter_insert_eq; [|apply Hclean].
  eapply wp_rename; [apply lookup_insert_eq| |intros; apply Hclean].
  split; [intros q H1 H2|].
  - by rewrite lookup_insert_ne, lookup_delete_ne, lookup_insert_ne by (apply not_eq_sym; first [done|apply H2]).
  - eexists. rewrite lookup_insert_eq. by split_and!.
Qed.

(** ** Reading *)

(** The step leaves the entries [e] as they are, and its answer is in [Q]. *)
Definition looks {A : Type} (e : gmap path Entry) (m : Io A) (Q : option A -> Prop) : Prop :=
  wp m (fun o e' => e' = e /\ Q o) e.
Lemma looks_bind {A B : Type} (e : gmap path Entry) (m : Io A) (f : A -> Io B) (Q : option B -> Prop) :
  looks e m (fun o => match o with Some a => looks e (f a) Q | None => Q None end) -> looks e (m ≫= f) Q.
Proof. intros Hm. apply wp_bind. eapply wp_mono; [exact Hm|]. intros [a|] e' [-> HQ]; [exact HQ|done]. Qed.

Lemma looks_mono {A : Type} (e : gmap path Entry) (m : Io A) (Q Q' : option A -> Prop) : looks e m Q -> (forall o, Q o -> Q' o) -> looks e m Q'.
Proof. intros Hm HQ. eapply wp_mono; [exact Hm|]. intros o e' [-> ?]. auto. Qed.

Lemma looks_system_call (e : gmap path Entry) (Q : option unit -> Prop) : Q (Some tt) -> (~ calm -> Q None) -> looks e system_call Q.
Proof. intros H1 H2. apply wp_system_call; [by split|]. intros Hc. by split; [|apply H2]. Qed.

Lemma looks_open_read (e : gmap path Entry) (p : path) (Q : option Entry -> Prop) :
  (forall f, e !! p = Some f -> Q (Some f)) -> (e !! p = None \/ ~ calm -> Q None) -> looks e (open_read p) Q.
Proof.
  intros H1 H2 t. unfold open_read. cbn [entries]. destruct (e !! p) as [f|] eqn:E; [|auto].
  apply (looks_bind e open_directory (fun _ => mret f)). apply looks_system_call; [|auto]. intros t'. split; [done|]. by apply H1.
Qed.

(** The content of a file of at most [max] bytes. *)
Definition content (e : gmap path Entry) (p : path) (max : nat) (bytes : list Z) : Prop :=
  exists f, e !! p = Some f /\ bytes = entry_bytes f /\ (length bytes <= max)%nat.

Lemma bounded_take {A} (l : list A) max :
  if (max <? length (take (max + 1) l))%nat then (max < length l)%nat else take (max + 1) l = l /\ (length l <= max)%nat.
Proof.
  rewrite length_take. destruct (Nat.ltb_spec max (min (max + 1) (length l))); [lia|]. rewrite take_ge by lia. split; [done|lia].
Qed.

Lemma looks_read_bounded (e : gmap path Entry) (p : path) (max : nat) (Q : option (list Z) -> Prop) :
  (forall bytes, content e p max bytes -> Q (Some bytes)) ->
  (~ calm \/ ~ (exists bytes, content e p max bytes) -> Q None) -> looks e (read_bounded p max) Q.
Proof.
  intros H1 H2. apply looks_bind, looks_open_read.
  - intros f Hf. apply looks_bind, looks_system_call; [|auto]. pose proof (bounded_take (entry_bytes f) max) as Hb.
    cbv zeta. destruct (_ <? _)%nat.
    + apply wp_refuse. split; [done|]. apply H2. right. intros (b & f' & Hf' & -> & Hl). rewrite Hf in Hf'. injection Hf' as <-. lia.
    + destruct Hb as [-> Hl]. apply wp_ret. split; [done|]. apply H1. by exists f.
  - intros [Hn|Hc]; apply H2; [right|by left]. intros (b & f & Hf & _). congruence.
Qed.

Lemma looks_read_private (e : gmap path Entry) (p : path) (max : nat) (Q : option (list Z) -> Prop) :
  (forall f, e !! p = Some f -> readable max f -> Q (Some (entry_bytes f))) ->
  (~ calm \/ ~ (exists f, e !! p = Some f /\ readable max f) -> Q None) -> looks e (read_private p max) Q.
Proof.
  intros H1 H2. apply looks_bind, looks_open_read.
  - intros f Hf. apply looks_bind, looks_system_call; [|auto].
    destruct (_ || (max <? length (entry_bytes f))%nat) eqn:E.
    + apply wp_refuse. split; [done|]. apply H2. right. intros (f' & Hf' & Hr). rewrite Hf in Hf'. injection Hf' as <-.
      apply readable_iff in Hr. congruence.
    + apply readable_iff in E. apply looks_bind, looks_system_call; [|auto]. cbv zeta.
      pose proof (bounded_take (entry_bytes f) max) as Hb. destruct (_ <? _)%nat; [destruct E as (_ & _ & _ & ?); lia|].
      destruct Hb as [-> _]. apply wp_ret. split; [done|]. by apply H1.
  - intros [Hn|Hc]; apply H2; [right|by left]. intros (f & Hf & _). congruence.
Qed.
End Wp.
