(* ===== verification/CliMain.v ===== *)
(** The commands of [leelo-cli/src/main.rs] that need neither TPM nor volume: making a signing key, with its
    event, and inspecting an envelope. Argument parsing is not modelled; what is printed of an envelope is a
    record. *)
From stdpp Require Import base list gmap strings.
From Stdlib Require Import ZArith Lia.
From S2P Require Import Prelude Sss Plan Policy Crypto Wire Cbor Envelope Text Telemetry KeyFile EventDaemon FileLogic.

Open Scope Z_scope.

(** * Key creation *)

Definition signing_key_event (created : bool) : Event :=
  mk_event "client" "key_creation" "keygen" "key_file" (if created then "success" else "failure")
    (if created then "none" else "key_creation_failed") 0 "none" None (if created then "committed" else "unknown") false false None.

Section Keygen.
Context `{FileSystem} `{Primitives} {R : Type} `{Rng R} {Path Socket : Type}.
Context (json : TelemetryRecord -> option (list (list Z))) (since_epoch : option Z) (send_to : Socket -> list Z -> Path -> option Z).

(** The exit code, the emitter after its event, and the disk. *)
Definition keygen_command (private public : path) (emitter : Emitter Path Socket) (rng : R) (d : Disk)
    : (Z * Emitter Path Socket * EmitStatus) * Disk :=
  let '(r, d) := create_keys private public rng d in
  let created := bool_decide (is_Some r) in
  let '(emitter, status) := emit json emitter (signing_key_event created) since_epoch send_to in
  ((if created then 0 else 1, emitter, status), d).
End Keygen.

(** * Inspection *)

(** What [inspect] prints. *)
Record Inspection : Type := mk_inspection {
  insp_binding_id : list Z; insp_volume_uuid : list Z; insp_slot : Z; insp_generation : Z; insp_mode : Mode;
  insp_network_leaves : nat; insp_pcr_mask : Z; insp_policy : NetworkNode }.

Section Inspect.
Context `{FileSystem} `{Primitives} `{Cbor}.

Definition inspect (raw trust : list Z) : option Inspection :=
  match authenticate raw trust with
  | Ok env =>
      let d := descriptor (body env) in
      Some (mk_inspection (binding_id d) (volume_uuid d) (slot d) (generation d) (mode (policy d)) (length (networks d))
              (tpm_pcr_mask d) (network (policy d)))
  | Err _ => None
  end.

Definition inspect_command (envelope trust_key : path) : Io Inspection :=
  raw ← read_bounded envelope (Z.to_nat MAX_ENVELOPE);
  trust ← read_array 32 trust_key;
  match inspect raw trust with Some report => mret report | None => refuse end.
End Inspect.

(** * Properties *)

(** The event of a key creation is one of the telemetry schema, whatever happened. *)
Lemma signing_key_event_valid {Path Socket : Type} (e : Emitter Path Socket) created sequence since_epoch :
  valid (record e (signing_key_event created) sequence since_epoch) = true.
Proof. by destruct created; vm_compute. Qed.

(** What the key creation command reports is true: with exit code 0, and only then, its event says success and
    committed, and then both files are complete and durable and belong together; and no file that existed has
    changed. *)
Theorem keygen_command_true `{FileSystem} `{PrimitiveLaws} {R : Type} `{RngSound R} {Path Socket : Type} json since_epoch
    (send_to : Socket -> list Z -> Path -> option Z) private public emitter (rng : R) (d : Disk) :
  private <> public ->
  let '((code, _, _), d') := keygen_command json since_epoch send_to private public emitter rng d in
  (forall q, is_Some (entries d !! q) -> entries d' !! q = entries d !! q) /\
  (code = 0 \/ code = 1) /\
  (code = 0 -> ev_storage_state (signing_key_event true) = "committed"%string /\
     exists key e f, entries d' !! private = Some e /\ entries d' !! public = Some f /\ entry_bytes e = seed key /\
       entry_synced f = true /\ entry_linked f = true /\
       forall message signature, sign key message = Ok signature -> verify (entry_bytes f) message signature = Ok tt).
Proof.
  intros Hne. pose proof (signing_key_files private public rng d Hne) as Hk. unfold keygen_command.
  destruct (create_keys private public rng d) as [r d']. destruct (emit _ _ _ _ _). destruct Hk as (Hkeep & _ & Hdone).
  split; [done|]. split; [case_bool_decide; auto|]. case_bool_decide as Hr; [|done]. intros _. split; [done|].
  destruct r as [[]|]; [by apply Hdone|by destruct Hr].
Qed.

(** Inspection reports only authentic envelopes: it changes no file, and what it prints is of the descriptor of
    the envelope that the file holds, authenticated under the trust key that the other file holds. *)
Theorem inspect_authentic `{FileSystem} `{Primitives} `{Cbor} envelope trust_key (d : Disk) :
  let '(r, d') := inspect_command envelope trust_key d in
  entries d' = entries d /\
  forall report, r = Some report -> exists f k env, entries d !! envelope = Some f /\ entries d !! trust_key = Some k /\
    authenticate (entry_bytes f) (entry_bytes k) = Ok env /\ length (entry_bytes k) = 32%nat /\
    insp_slot report = slot (descriptor (body env)) /\ insp_volume_uuid report = volume_uuid (descriptor (body env)) /\
    insp_policy report = network (policy (descriptor (body env))).
Proof.
  assert (looks (entries d) (inspect_command envelope trust_key) (fun r => forall report, r = Some report ->
    exists f k env, entries d !! envelope = Some f /\ entries d !! trust_key = Some k /\
    authenticate (entry_bytes f) (entry_bytes k) = Ok env /\ length (entry_bytes k) = 32%nat /\
    insp_slot report = slot (descriptor (body env)) /\ insp_volume_uuid report = volume_uuid (descriptor (body env)) /\
    insp_policy report = network (policy (descriptor (body env))))) as Hl; [|exact (wp_run _ _ _ Hl)].
  apply looks_bind, looks_read_bounded; [|done]. intros raw (f & Hf & -> & _). apply looks_bind.
  apply looks_bind, looks_read_bounded; [|done]. intros trust (k & Hk & -> & _).
  destruct (Nat.eqb_spec (length (entry_bytes k)) 32) as [Hlen|]; [|by apply wp_refuse]. apply wp_ret. split; [done|].
  unfold inspect. destruct (authenticate (entry_bytes f) (entry_bytes k)) as [env|] eqn:Ea; [|by apply wp_refuse].
  apply wp_ret. split; [done|]. intros report [= <-]. by exists f, k, env.
Qed.
