(* ===== verification/Providers.v ===== *)
(** The provider configuration that the commands and the probe read: [leelo-cli/src/providers.rs] and
    [leelo-probe/src/config.rs]. Both read one JSON file and certificate files beside it; the probe selects one
    provider of it. Files are those of the disk model of [KeyFile]; the JSON library is a parameter. *)
From stdpp Require Import base list gmap strings.
From Stdlib Require Import ZArith Lia.
From S2P Require Import Prelude Sss Crypto Wire Text ServiceMetrics Service Frontend Envelope Observation Net KeyFile EventDaemon FileLogic.

Open Scope Z_scope.

(** * Paths *)

Definition is_absolute (p : path) : bool := match p with b :: _ => b =? 47 | [] => false end.

(** A component of a path that does not count, unless it is the first. *)
Definition skipped (part : list Z) : bool := bool_decide (part = [] \/ part = [46]).

(** The parts without their last ones that do not count; the first one stays. *)
Fixpoint trim_parts (parts : list (list Z)) : list (list Z) :=
  match parts with
  | [] => []
  | part :: parts => match trim_parts parts with [] => if skipped part then [] else [part] | rest => part :: rest end
  end.

Fixpoint join_parts (parts : list (list Z)) : path :=
  match parts with
  | [] => []
  | [part] => part
  | part :: parts => part ++ 47 :: join_parts parts
  end.

(** [Path::parent]: the path without its last component; none for the root and the empty path. *)
Definition path_parent (p : path) : option path :=
  match split_slash p with
  | [] => None
  | first :: parts =>
      match trim_parts parts with
      | [] => if bool_decide (first = []) then None else Some []
      | rest =>
          Some match trim_parts (removelast rest) with
               | [] => if bool_decide (first = []) then [47] else first
               | rest => join_parts (first :: rest)
               end
      end
  end.

(** [Path::join] of a relative path; an absolute one replaces. *)
Definition path_join (base p : path) : path :=
  if is_absolute p then p
  else match last base with
       | None => p
       | Some b => if b =? 47 then base ++ p else base ++ 47 :: p
       end.

(** Where a certificate file is: beside the configuration file unless it is absolute. *)
Definition ca_path (config ca_file : path) : path :=
  if is_absolute ca_file then ca_file
  else path_join (default (bytes_of_string ".") (path_parent config)) ca_file.

(** * Hexadecimal fields *)

Fixpoint hex_decode (text : list Z) : option (list Z) :=
  match text with
  | [] => Some []
  | [_] => None
  | a :: b :: rest => hi ← to_digit16 a; lo ← to_digit16 b; bytes ← hex_decode rest; Some (hi * 16 + lo :: bytes)
  end.

(** [unhex] of the commands: decode, then compare the length; of the probe: compare the length, then decode. *)
Definition unhex (n : nat) (text : string) : option (list Z) :=
  bytes ← hex_decode (bytes_of_string text); if (length bytes =? n)%nat then Some bytes else None.
Definition probe_unhex (n : nat) (text : string) : option (list Z) :=
  if negb (str_len text =? Z.of_nat (n * 2)) then None else hex_decode (bytes_of_string text).

(** * The configuration *)

Record ProviderConfig : Type := mk_provider_config {
  cfg_provider_id : string; cfg_key_id : string; cfg_public_key : string; cfg_url : string; cfg_ca_file : path }.

(** [serde_json::from_slice] into the structure, which denies unknown fields. *)
Class ProvidersJson : Type := providers_from_slice : list Z -> option (list ProviderConfig).

Definition MAX_CONFIG_BYTES : nat := 32 * 1024.
Definition MAX_TARGETS : nat := 27.

Record Identity : Type := mk_identity { id_provider : list Z; id_key : list Z; id_public_key : list Z }.

Section Read.
Context `{FileSystem} `{ProvidersJson} `{Primitives} `{HttpLibrary} `{HttpClient}.

Definition or_refuse {A} (o : option A) : Io A := match o with Some a => mret a | None => refuse end.

(** ** The commands *)

Definition read_provider (config : path) (p : ProviderConfig) : Io (Identity * Endpoint) :=
  provider_id ← or_refuse (unhex 32 (cfg_provider_id p));
  public_key ← or_refuse (unhex 49 (cfg_public_key p));
  id ← or_refuse (unhex 32 (cfg_key_id p));
  if negb (bool_decide (key_id public_key = id)) then refuse
  else
    ca ← read_bounded (ca_path config (cfg_ca_file p)) MAX_CA_BYTES;
    mret (mk_identity provider_id id public_key, mk_endpoint provider_id (cfg_url p) ca).

Fixpoint read_providers (config : path) (l : list ProviderConfig) : Io (list (Identity * Endpoint)) :=
  match l with
  | [] => mret []
  | p :: l => one ← read_provider config p; rest ← read_providers config l; mret (one :: rest)
  end.

(** [Providers] and [Providers::read] *)
Record Providers : Type := mk_providers { network_of : HttpsNetworkProvider; identities : list Identity }.

Definition providers_read (config : path) : Io Providers :=
  bytes ← read_bounded config MAX_CONFIG_BYTES;
  l ← or_refuse (providers_from_slice bytes);
  if (length l =? 0)%nat || (MAX_TARGETS <? length l)%nat then refuse
  else
    read ← read_providers config l;
    match new_provider (map snd read) with
    | Ok network => mret (mk_providers network (map fst read))
    | Err _ => refuse
    end.
End Read.

Lemma looks_or_refuse `{FileSystem} {A : Type} (e : gmap path Entry) (o : option A) (Q : option A -> Prop) : Q o -> looks e (or_refuse o) Q.
Proof. intros HQ t. by destruct o. Qed.
