(* ===== verification/EventLog.v ===== *)
(** The log of the event daemon: whatever calls fail, the disk holds whole lines of accepted events, with at
    most one uncommitted tail after a stop, and a restart rebuilds the registry from what it reads of them. *)
From stdpp Require Import base list gmap strings.
From Stdlib Require Import ZArith Lia SpecFloat.
From S2P Require Import Prelude Float64 Text Telemetry Collector Reconcile KeyFile EventDaemon FileLogic.

Open Scope Z_scope.

(** * Registries up to their failure counters *)

(** The registry without the counters of rejected, repeated and unwritten events, which a log does not tell. *)
Definition quiet (m : Metrics) : Metrics :=
  mk_metrics (seen m) (order m) (counters m) (histograms m) (attempts m) (attempt_order m) (reported_drops m)
    (replay_evictions m) (accepted m) 0 0 (overflow m) 0 (last_received_ms m).

Definition same_history (m m' : Metrics) : Prop := quiet m = quiet m'.

#[export] Instance same_history_equivalence : Equivalence same_history.
Proof. split; unfold same_history; [done|by intros ?? ->|by intros ??? -> ->]. Qed.

Lemma quiet_reject m : same_history (reject m) m.
Proof. done. Qed.
Lemma quiet_duplicate m : same_history (count_duplicate m) m.
Proof. done. Qed.
Lemma quiet_write_failure m : same_history (count_write_failure m) m.
Proof. done. Qed.

Lemma quiet_increment m key : quiet (increment m key) = increment (quiet m) key.
Proof. unfold increment. change (series (quiet m)) with (series m). simpl counters. by destruct (_ && _). Qed.
Lemma quiet_observe m key d : quiet (observe m key d) = observe (quiet m) key d.
Proof. unfold observe. change (series (quiet m)) with (series m). simpl histograms. by destruct (_ && _). Qed.

Lemma quiet_count_record m r : quiet (count_record m r) = count_record (quiet m) r.
Proof.
  unfold count_record, count_client. repeat case_match; cbv zeta; by rewrite ?quiet_increment, ?quiet_observe, ?quiet_increment, ?quiet_observe, ?quiet_increment.
Qed.

Lemma quiet_booked m r id : quiet (booked m r id) = booked (quiet m) r id.
Proof.
  unfold booked. set (key := (source_uid r, id, _)). set (a := (source_uid r, id)).
  assert (quiet (remember m key) = remember (quiet m) key) as E.
  { unfold remember. simpl order. cbv zeta. by repeat case_match. }
  rewrite <- E. generalize (remember m key). intros m1.
  enough (quiet (track m1 a) = track (quiet m1) a) as Et by (by rewrite <- Et).
  unfold track. simpl attempts. destruct (attempts m1 !! a); [done|]. simpl attempt_order.
  cbv zeta. by repeat case_match.
Qed.

Lemma acceptable_quiet m r id : acceptable (quiet m) r id <-> acceptable m r id.
Proof. done. Qed.

Lemma accept_quiet m r :
  quiet (accept m r).1 = quiet (accept (quiet m) r).1 /\ (accept m r).2 = (accept (quiet m) r).2.
Proof.
  unfold accept. change (seen (quiet m)) with (seen m). change (attempts (quiet m)) with (attempts m).
  destruct (negb _); [done|]. destruct (rec_attempt_id _) as [id|]; [|done].
  cbv zeta. destruct (bool_decide _); [done|]. destruct (is_terminal _ && _); [done|].
  split; [|done]. simpl fst. change (quiet (count_record (booked m r id) (received_record r)) =
    quiet (count_record (booked (quiet m) r id) (received_record r))).
  by rewrite !quiet_count_record, !quiet_booked.
Qed.

Lemma accept_history m m' r :
  same_history m m' -> same_history (accept m r).1 (accept m' r).1 /\ (accept m r).2 = (accept m' r).2.
Proof.
  intros E. destruct (accept_quiet m r) as [E1 E2], (accept_quiet m' r) as [E3 E4].
  unfold same_history in *. rewrite E1, E2, E3, E4, E. done.
Qed.

Lemma accept_refused m r : (accept m r).2 = false -> same_history (accept m r).1 m.
Proof. destruct (accept_branches m r) as [(id & _ & ->)|[_ [(id & _ & _ & _ & ->)|[_ ->]]]]; done. Qed.

Lemma accept_all_history stream m m' :
  same_history m m' ->
  same_history (accept_all m stream).1 (accept_all m' stream).1 /\ (accept_all m stream).2 = (accept_all m' stream).2.
Proof.
  revert m m'. induction stream as [|r stream IH]; intros m m' E; simpl; [done|].
  destruct (accept_history m m' r E) as [E1 E2]. destruct (accept m r) as [m1 b], (accept m' r) as [m1' b'].
  simpl in *. subst b'. destruct (IH _ _ E1) as [F1 F2].
  destruct (accept_all m1 stream) as [m2 t], (accept_all m1' stream) as [m2' t']. simpl in *. by subst.
Qed.

(** Replaying the accepted events of a stream takes all of them and rebuilds its registry. *)
Lemma accept_all_again stream m m' :
  same_history m m' ->
  let '(n, taken) := accept_all m stream in
  same_history (accept_all m' taken).1 n /\ (accept_all m' taken).2 = taken.
Proof.
  revert m m'. induction stream as [|r stream IH]; intros m m' E; simpl; [done|].
  destruct (accept_history m m' r E) as [E1 E2]. destruct (accept m r) as [m1 [|]] eqn:Em.
  - simpl in *. specialize (IH m1 (accept m' r).1 E1). destruct (accept_all m1 stream) as [n taken]. simpl.
    destruct (accept m' r) as [m1' b]. simpl in *. subst b. destruct (accept_all m1' taken) as [? ?]. simpl in *. naive_solver.
  - pose proof (accept_refused m r) as Hr. rewrite Em in Hr. simpl in Hr. specialize (Hr eq_refl).
    specialize (IH m1 m' (transitivity Hr E)). by destruct (accept_all m1 stream).
Qed.

Lemma accept_all_app s1 s2 m :
  accept_all m (s1 ++ s2) =
  let '(m1, t1) := accept_all m s1 in let '(m2, t2) := accept_all m1 s2 in (m2, t1 ++ t2).
Proof.
  revert m. induction s1 as [|r s1 IH]; intros m; simpl; [by destruct (accept_all m s2)|].
  destruct (accept m r) as [m1 b]. rewrite IH. destruct (accept_all m1 s1) as [m2 t1].
  destruct (accept_all m2 s2) as [m3 t2]. by destruct b.
Qed.

(** ** Up to durations *)

(** The event with another duration, which is valid if the first one is: what a reader of decimal text that is not
    exact to the last bit makes of a written event. *)
Definition retimed (r : Received) (d : f64) : Received :=
  let e := received_record r in
  mk_received (source_uid r) (source_pid r) (received_at_ms r)
    (mk_record (schema_version e) (rec_component e) (rec_event e) (rec_operation e) (rec_stage e) (rec_outcome e) (rec_reason e) d
       (rec_mode e) (rec_provider_index e) (rec_storage_state e) (rec_awaiting_boot_test e) (rec_degraded e) (rec_native_code e)
       (software_version e) (rec_attempt_id e) (rec_boot_id e) (rec_sequence e) (rec_unix_time_ms e) (dropped_before e)).
Definition reads_as (r r' : Received) : Prop :=
  exists d, r' = retimed r d /\ valid (received_record r') = valid (received_record r).

Lemma reads_as_refl r : reads_as r r.
Proof. exists (duration_seconds (received_record r)). by destruct r as [? ? ? []]. Qed.

(** The registry without what durations decide, the buckets and sums of its histograms, and without the counters
    that a log does not tell. *)
Definition observations (h : Histogram) : Histogram := mk_histogram [] (count h) (f64_of_Z 0).
Definition coarse (m : Metrics) : Metrics :=
  mk_metrics (seen m) (order m) (counters m) (observations <$> histograms m) (attempts m) (attempt_order m) (reported_drops m)
    (replay_evictions m) (accepted m) 0 0 (overflow m) 0 (last_received_ms m).
Definition same_counts (m m' : Metrics) : Prop := coarse m = coarse m'.

#[export] Instance same_counts_equivalence : Equivalence same_counts.
Proof. split; unfold same_counts; [done|by intros ?? ->|by intros ??? -> ->]. Qed.

Lemma history_counts m m' : same_history m m' -> same_counts m m'.
Proof. intros E. exact (f_equal coarse E). Qed.

Lemma coarse_size (h h' : gmap string Histogram) : observations <$> h = observations <$> h' -> size h = size h'.
Proof. intros E. rewrite <- (map_size_fmap observations h), E. apply map_size_fmap. Qed.
Lemma coarse_lookup (h h' : gmap string Histogram) key :
  observations <$> h = observations <$> h' ->
  observations <$> (h !! key) = observations <$> (h' !! key).
Proof. intros E. by rewrite <- !lookup_fmap, E. Qed.

Ltac coarse_fields :=
  match goal with
  | E : same_counts ?m ?m' |- _ =>
      destruct m, m'; unfold same_counts, coarse in E |- *; simpl in E |- *; injection E as; subst
  end.

Lemma same_counts_increment m m' key : same_counts m m' -> same_counts (increment m key) (increment m' key).
Proof.
  intros E. coarse_fields. unfold increment, series. simpl.
  match goal with E : _ <$> _ = _ <$> _ |- _ => rewrite (coarse_size _ _ E); by destruct (_ && _); simpl; rewrite ?E end.
Qed.

Lemma same_counts_observe m m' key d d' : same_counts m m' -> same_counts (observe m key d) (observe m' key d').
Proof.
  intros E. coarse_fields. unfold observe, series. simpl.
  match goal with E : _ <$> _ = _ <$> _ |- _ =>
    rewrite (coarse_size _ _ E); pose proof (coarse_lookup _ _ key E) as El;
    rename E into Eh end.
  match goal with |- context [bool_decide (?h !! key = None)] => destruct (h !! key) as [x|] end;
  match goal with |- context [bool_decide (?h !! key = None)] => destruct (h !! key) as [x'|] end;
    simplify_eq/=; rewrite ?andb_false_r, ?andb_true_r; try destruct (_ <=? _); simpl; rewrite ?fmap_insert, ?Eh; unfold observations; simpl;
    by f_equal; f_equal; f_equal; f_equal.
Qed.

Lemma coarse_booked m r id : coarse (booked m r id) = booked (coarse m) r id.
Proof.
  unfold booked. set (key := (source_uid r, id, _)). set (a := (source_uid r, id)).
  assert (coarse (remember m key) = remember (coarse m) key) as E.
  { unfold remember. simpl order. cbv zeta. by repeat case_match. }
  rewrite <- E. generalize (remember m key). intros m1.
  enough (coarse (track m1 a) = track (coarse m1) a) as Et by (by rewrite <- Et).
  unfold track. simpl attempts. destruct (attempts m1 !! a); [done|]. simpl attempt_order.
  cbv zeta. by repeat case_match.
Qed.

Lemma same_counts_record m m' r d :
  same_counts m m' -> same_counts (count_record m (received_record r)) (count_record m' (received_record (retimed r d))).
Proof.
  intros E. unfold count_record, count_client, retimed. simpl. repeat case_match;
    repeat first [done | apply same_counts_increment | apply same_counts_observe].
Qed.

(** Registries that count the same accept the same, and then count the same. *)
Lemma accept_counts m m' r r' :
  same_counts m m' -> reads_as r r' -> same_counts (accept m r).1 (accept m' r').1 /\ (accept m r).2 = (accept m' r').2.
Proof.
  intros E (d & -> & Hv). assert (seen m = seen m' /\ attempts m = attempts m') as [E1 E2].
  { split; [exact (f_equal seen E)|exact (f_equal attempts E)]. }
  unfold accept. rewrite Hv, E1, E2. destruct (negb _); [by split; [exact E|]|].
  cbn [retimed received_record rec_attempt_id]. destruct (rec_attempt_id _) as [id|]; [|by split; [exact E|]].
  cbv zeta. cbn [retimed received_record source_uid rec_sequence].
  destruct (bool_decide _); [by split; [exact E|]|].
  change (is_terminal (received_record (retimed r d))) with (is_terminal (received_record r)).
  destruct (is_terminal _ && _); [by split; [exact E|]|]. split; [|done]. simpl fst.
  apply (same_counts_record (booked m r id) (booked m' r id)). unfold same_counts. by rewrite !coarse_booked, E.
Qed.

Lemma accept_all_counts s s' m m' :
  Forall2 reads_as s s' -> same_counts m m' -> same_counts (accept_all m s).1 (accept_all m' s').1.
Proof.
  intros F. revert m m'. induction F as [|r r' s s' Hr F IH]; intros m m' E; simpl; [done|].
  destruct (accept_counts m m' r r' E Hr) as [E1 _]. destruct (accept m r) as [m1 b], (accept m' r') as [m1' b'].
  specialize (IH m1 m1' E1). by destruct (accept_all m1 s), (accept_all m1' s').
Qed.

(** * Lines and tails *)

Lemma unlines_app l1 l2 : unlines (l1 ++ l2) = unlines l1 ++ unlines l2.
Proof. induction l1 as [|line l1 IH]; simpl; [done|]. by rewrite IH, <- app_assoc. Qed.

Lemma last_newline_app a b :
  last_newline (a ++ b) = match last_newline b with Some n => Some (length a + n)%nat | None => last_newline a end.
Proof.
  induction a as [|x a IH]; simpl; [by destruct (last_newline b)|]. rewrite IH. by destruct (last_newline b).
Qed.

Lemma last_newline_none l : 10 ∉ l -> last_newline l = None.
Proof.
  induction l as [|x l IH]; simpl; [done|]. intros [Hx Hl]%not_elem_of_cons. rewrite IH by done.
  by destruct (Z.eqb_spec x 10) as [->|].
Qed.

(** The complete part of a log with an uncommitted tail is its lines. *)
Lemma complete_lines lines tail : 10 ∉ tail -> complete_length (unlines lines ++ tail) = length (unlines lines).
Proof.
  intros Ht. unfold complete_length. rewrite last_newline_app, (last_newline_none tail) by done.
  destruct lines as [|line lines]; [done|]. destruct (unlines_last (line :: lines)) as [body ->]; [done|].
  rewrite last_newline_app, length_app. simpl. lia.
Qed.

Lemma split_unlines lines : Forall (fun line => 10 ∉ line) lines -> split_lines (unlines lines) = lines ++ [[]].
Proof.
  intros F. destruct (split_lines_spec (unlines lines)) as (E & F' & _).
  apply unlines_inj; [done| |by rewrite E, unlines_app].
  apply Forall_app. split; [done|]. constructor; [apply not_elem_of_nil|constructor].
Qed.

Lemma prefix_no_newline n (line : list Z) : 10 ∉ line -> (n < length (line ++ [10%Z]))%nat -> 10 ∉ take n (line ++ [10]).
Proof.
  intros Hl Hn. rewrite length_app in Hn. simpl in Hn. rewrite take_app_le by lia.
  intros Hin. apply Hl. by eapply elem_of_submseteq, sublist_submseteq, sublist_take.
Qed.

(** * The log on the disk *)

Section Log.
Context `{FS : FileSystem}.
Context (suffix : nat -> string) (resolves : path -> bool) (display_f64 : f64 -> string).
Context (json_read : list Z -> option TelemetryRecord).
Context (read_received : list Z -> option Received) (received_json : Received -> option (list Z)).
Context (state_dir : path).

Abbreviation log_path := (log_path state_dir).
Abbreviation previous_path := (previous_path state_dir).

(** The longest line that is replayed. *)
Definition MAX_LINE : nat := (MAX_EVENT_BYTES + 1024)%nat.

(** The text of a logged event: compact JSON has no line break. *)
Definition text_ok (r : Received) : Prop := exists line,
  received_json r = Some line /\ line <> [] /\ 10 ∉ line /\ (length line <= MAX_LINE)%nat.
Definition line_ok (r : Received) : Prop := received_ok r /\ text_ok r.

Definition log_line (r : Received) : list Z := default [] (received_json r).
Definition log_bytes (rs : list Received) : list Z := unlines (map log_line rs).
Definition log_length (rs : list Received) : Z := Z.of_nat (length (log_bytes rs)).

Definition holds_file (f : option Entry) (rs : list Received) (tail : list Z) : Prop :=
  match f with
  | None => rs = [] /\ tail = []
  | Some e => private_log e /\ entry_bytes e = log_bytes rs ++ tail
  end.

(** The disk holds the events [P] in the previous log and [C] in the current one, followed by a tail that
    no newline committed. *)
Record holds (m : gmap path Entry) (P C : list Received) (tail : list Z) : Prop := mk_holds {
  holds_previous : holds_file (m !! previous_path) P [];
  holds_current : holds_file (m !! log_path) C tail;
  holds_previous_size : log_length P <= LOG_LIMIT;
  holds_current_size : log_length C <= LOG_LIMIT;
  holds_tail : 10 ∉ tail /\ (length tail <= MAX_LINE)%nat;
  holds_lines : Forall line_ok (P ++ C);
}.

(** A running daemon knows the size of its log. *)
Definition in_sync (st : Daemon) (m : gmap path Entry) (C : list Received) : Prop :=
  log_size st = log_length C /\ is_Some (m !! log_path).

Lemma paths_distinct : log_path <> previous_path.
Proof. unfold EventDaemon.log_path, EventDaemon.previous_path, join. intros E. apply app_inv_head in E. discriminate E. Qed.

Lemma log_bytes_app r1 r2 : log_bytes (r1 ++ r2) = log_bytes r1 ++ log_bytes r2.
Proof. unfold log_bytes. by rewrite map_app, unlines_app. Qed.

Lemma log_bytes_one r line : received_json r = Some line -> log_bytes [r] = line ++ [10].
Proof. intros E. unfold log_bytes, log_line. simpl. by rewrite E. Qed.

Lemma log_length_app r1 r2 : log_length (r1 ++ r2) = log_length r1 + log_length r2.
Proof. unfold log_length. rewrite log_bytes_app, length_app. lia. Qed.

Lemma log_lines_clean rs : Forall line_ok rs -> Forall (fun line => 10 ∉ line) (map log_line rs) /\ List.filter nonempty (map log_line rs) = map log_line rs.
Proof.
  intros F. induction F as [|r rs (_ & line & E & Hn & H10 & _) F (IH1 & IH2)]; simpl; [done|].
  assert (log_line r = line) as -> by (unfold log_line; by rewrite E). split; [by constructor|].
  unfold nonempty at 1. rewrite bool_decide_eq_false_2 by done. simpl. by rewrite IH2.
Qed.

(** What the reader makes of the line of an event. *)
Definition reread (r : Received) : option Received := received_json r ≫= read_received.

(** Replaying a log is accepting, in order, what the reader makes of its lines. *)
Lemma replay_lines_events m rs :
  Forall line_ok rs -> same_history (replay_lines read_received m (log_bytes rs)) (accept_all m (omap reread rs)).1.
Proof.
  intros F. destruct (log_lines_clean rs F) as [H1 H2]. unfold replay_lines, log_bytes. rewrite split_unlines by done.
  rewrite List.filter_app, H2. simpl. rewrite app_nil_r. clear H1 H2. revert m.
  induction rs as [|r rs IH]; intros m; simpl; [done|].
  apply Forall_cons in F as [(_ & line & E & _ & _ & Hl) F]. etrans; [by apply IH|].
  change (list_omap Received Received reread rs) with (omap reread rs).
  assert (reread r = read_received line) as -> by (unfold reread; by rewrite E).
  unfold replay_line, log_line. rewrite E. simpl default.
  destruct (Nat.ltb_spec (MAX_EVENT_BYTES + 1024) (length line)); [unfold MAX_LINE in Hl; lia|]. simpl.
  destruct (read_received line) as [r'|]; simpl.
  - destruct (accept m r') as [m1 b]. simpl. by destruct (accept_all m1 (omap reread rs)).
  - by apply accept_all_history, quiet_reject.
Qed.

(** ** Changes of the disk *)

Lemma holds_rotate e P C f :
  holds e P C [] -> e !! log_path = Some f -> holds (<[previous_path := f]> (delete log_path e)) C [] [].
Proof.
  intros [H1 H2 H3 H4 H5 H6] Hf. pose proof paths_distinct as Hd. rewrite Hf in H2. split; [|..|done| |done|].
  - by rewrite lookup_insert_eq.
  - rewrite lookup_insert_ne, lookup_delete_eq by done. done.
  - unfold log_length. simpl. unfold LOG_LIMIT. lia.
  - rewrite app_nil_r. apply Forall_app in H6. tauto.
Qed.

Lemma holds_create e P : holds e P [] [] -> e !! log_path = None -> holds (<[log_path := new_log]> e) P [] [].
Proof.
  intros [H1 H2 H3 H4 H5 H6] Hn. pose proof paths_distinct. split; try done.
  - by rewrite lookup_insert_ne.
  - rewrite lookup_insert_eq. split; [apply private_new_log|done].
Qed.

(** Appending to the current log, and cutting it. *)
Lemma holds_change e P C C' tail tail' f bytes :
  holds e P C tail -> e !! log_path = Some f -> log_bytes C' ++ tail' = bytes -> log_length C' <= LOG_LIMIT ->
  10 ∉ tail' -> (length tail' <= MAX_LINE)%nat -> Forall line_ok C' -> holds (alter (with_bytes bytes) log_path e) P C' tail'.
Proof.
  intros [H1 H2 H3 H4 H5 H6] Hf <- Hlen Ht1 Ht2 Hl. pose proof paths_distinct. rewrite Hf in H2. destruct H2 as [Hp _].
  split; [| |done|done|done|].
  - by rewrite lookup_alter_ne.
  - rewrite lookup_alter_eq, Hf. split; [exact Hp|done].
  - apply Forall_app in H6 as [H6 _]. by apply Forall_app.
Qed.

Lemma alter_append (e : gmap path Entry) f bytes :
  e !! log_path = Some f -> alter (append bytes) log_path e = alter (with_bytes (entry_bytes f ++ bytes)) log_path e.
Proof. intros Hf. apply alter_ext. intros g Hg. rewrite Hf in Hg. by simplify_eq. Qed.

Lemma holds_bytes e P C tail f : holds e P C tail -> e !! log_path = Some f -> entry_bytes f = log_bytes C ++ tail.
Proof. intros [_ H2 _ _ _ _] Hf. rewrite Hf in H2. by destruct H2. Qed.

Lemma holds_current_lines e P C tail : holds e P C tail -> Forall line_ok C.
Proof. intros [_ _ _ _ _ H6]. by apply Forall_app in H6 as [_ H6]. Qed.

Lemma holds_append e P C f r :
  holds e P C [] -> e !! log_path = Some f -> line_ok r -> log_length (C ++ [r]) <= LOG_LIMIT ->
  holds (alter (append (log_bytes [r])) log_path e) P (C ++ [r]) [].
Proof.
  intros Hh Hf Hr Hlen. rewrite (alter_append _ f) by done.
  eapply holds_change; [done|done| |done|apply not_elem_of_nil|simpl; lia|].
  - by rewrite (holds_bytes _ _ _ _ _ Hh Hf), log_bytes_app, !app_nil_r.
  - apply Forall_app. split; [by eapply holds_current_lines|by constructor].
Qed.

Lemma holds_torn e P C f r n :
  holds e P C [] -> e !! log_path = Some f -> line_ok r -> log_length (C ++ [r]) <= LOG_LIMIT ->
  exists w tail, (w = [] \/ w = [r]) /\ holds (alter (append (take n (log_bytes [r]))) log_path e) P (C ++ w) tail.
Proof.
  intros Hh Hf Hr Hlen. pose proof Hr as (_ & line & El & Hn & H10 & Hll). rewrite (log_bytes_one r line El).
  destruct (Nat.lt_ge_cases n (length (line ++ [10]))) as [Hlt|Hge].
  - exists [], (take n (line ++ [10])). split; [by left|]. rewrite (alter_append _ f), app_nil_r by done.
    eapply holds_change; [done|done| |by destruct Hh|by apply prefix_no_newline| |by eapply holds_current_lines].
    + by rewrite (holds_bytes _ _ _ _ _ Hh Hf), app_nil_r.
    + rewrite length_app in Hlt. rewrite length_take, length_app. simpl in *. lia.
  - exists [r], []. split; [by right|]. rewrite take_ge, <- (log_bytes_one r line El) by done. by eapply holds_append.
Qed.

Definition cut (n : Z) (e : Entry) : Entry :=
  with_bytes (take (Z.to_nat n) (entry_bytes e) ++ replicate (Z.to_nat n - length (entry_bytes e)) 0) e.

(** Cutting back to the lines before [w]. *)
Lemma holds_recut e P C w tail f :
  holds e P (C ++ w) tail -> e !! log_path = Some f -> holds (alter (cut (log_length C)) log_path e) P C [].
Proof.
  intros Hh Hf. assert (alter (cut (log_length C)) log_path e = alter (with_bytes (log_bytes C)) log_path e) as ->.
  { apply alter_ext. intros g Hg. rewrite Hf in Hg. simplify_eq. unfold cut, log_length.
    rewrite Nat2Z.id, (holds_bytes _ _ _ _ _ Hh Hf), log_bytes_app, <- app_assoc, take_app_length, length_app.
    replace (length (log_bytes C) - _)%nat with 0%nat by lia. simpl. by rewrite app_nil_r. }
  eapply holds_change; [done|done|by rewrite app_nil_r| |apply not_elem_of_nil|simpl; lia|].
  - pose proof (holds_current_size _ _ _ _ Hh) as Hc. rewrite log_length_app in Hc. unfold log_length in *. lia.
  - pose proof (holds_current_lines _ _ _ _ Hh) as Hl. by apply Forall_app in Hl as [Hl _].
Qed.

(** ** Storing an event *)

(** The logs after writing [w], perhaps after a rotation of a nearly full log. *)
Definition kept (P C w P' C' : list Received) : Prop :=
  (P' = P /\ C' = C ++ w) \/ (P' = C /\ C' = w /\ LOG_LIMIT < log_length C + Z.of_nat MAX_LINE + 1).

Lemma wp_make_room e P C r :
  holds e P C [] -> is_Some (e !! log_path) -> line_ok r ->
  wp (make_room state_dir (log_length C) (log_bytes [r])) (fun o e' => exists C',
    (exists P', holds e' P' C' [] /\ kept P C [] P' C') /\ (calm -> is_Some o) /\
    forall size, o = Some size -> size = log_length C' /\ is_Some (e' !! log_path) /\ log_length (C' ++ [r]) <= LOG_LIMIT) e.
Proof.
  intros Hh [f Hf] Hr. pose proof Hr as (_ & line & El & _ & _ & Hll). unfold make_room.
  assert (Z.of_nat (length (log_bytes [r])) = log_length [r]) as -> by done.
  assert (log_length [r] <= Z.of_nat MAX_LINE + 1) as Hone.
  { unfold log_length. rewrite (log_bytes_one r line El), length_app. simpl. lia. }
  assert (holds e P C [] -> kept P C [] P C) as Hsame by (intros; left; by rewrite app_nil_r).
  destruct (Z.ltb_spec LOG_LIMIT (log_length C + log_length [r])) as [Hfull|Hroom].
  2: { apply wp_ret. exists C. split_and!; [by exists P; auto|done|]. intros size [= <-].
       split_and!; [done|by exists f|by rewrite log_length_app]. }
  assert (kept P C [] C []) as Hrot by (right; split_and!; [done|done|lia]).
  pose proof (holds_rotate _ _ _ _ Hh Hf) as Hh'. apply wp_bind. eapply wp_rename; [exact Hf| |].
  2: { intros Hc. exists C. split_and!; [by exists P; auto|done|done]. }
  assert (<[previous_path:=f]> (delete log_path e) !! log_path = None) as Hnone.
  { rewrite lookup_insert_ne by apply not_eq_sym, paths_distinct. apply lookup_delete_eq. }
  pose proof (holds_create _ _ Hh' Hnone) as Hnew.
  apply wp_bind, wp_open_log; rewrite ?Hnone; cbv zeta.
  2: { intros Hc. exists []. split_and!; [by exists C|done|done]. }
  split_and!.
  - intros g Hg _ _. apply wp_ret. exists []. split_and!; [by exists C|done|]. intros size [= <-].
    split_and!; [done|rewrite lookup_insert_eq; by eexists|]. simpl. unfold LOG_LIMIT, MAX_LINE, MAX_EVENT_BYTES in *. lia.
  - intros g. rewrite lookup_insert_eq. intros [= <-] Hbad. exfalso. apply Hbad. split; [apply private_new_log|].
    simpl. unfold LOG_LIMIT. lia.
  - intros Hc. exists []. split_and!; [by exists C|done|done].
Qed.

Lemma kept_add P C w P' C' : kept P C [] P' C' -> kept P C w P' (C' ++ w).
Proof. intros [[-> ->]|(-> & -> & H)]; [left; by rewrite app_nil_r|by right]. Qed.

Lemma wp_store st r e P C :
  holds e P C [] -> in_sync st e C -> line_ok r ->
  wp (store received_json state_dir st r) (fun o e' => exists P' C' tail w,
    holds e' P' C' tail /\ kept P C w P' C' /\ (w = [] \/ w = [r]) /\ (calm -> w = [r] /\ is_Some o) /\
    forall st', o = Some st' -> tail = [] /\ in_sync st' e' C' /\
      (registry st' = registry st \/ registry st' = count_write_failure (registry st))) e.
Proof.
  intros Hh [Hsize Hsome] Hr. pose proof Hr as (_ & line & El & _). unfold store. rewrite El.
  rewrite <- (log_bytes_one r line El), Hsize. cbv zeta. apply wp_bind. eapply wp_mono; [by apply wp_make_room|].
  intros o e1 (C1 & (P1 & Hh1 & Hk) & Hcalm & Hroom). destruct o as [size|].
  2: { exists P1, C1, [], []. split_and!; [done|by rewrite <- (app_nil_r C1); apply kept_add|by left| |done].
       intros Hc. by destruct (Hcalm Hc). }
  destruct (Hroom size eq_refl) as (-> & [f Hf] & Hlen). apply wp_bind, wp_attempt. apply wp_call.
  - apply wp_ret. exists P1, (C1 ++ [r]), [], [r]. split_and!; [by eapply holds_append|by apply kept_add|by right|by eauto|].
    intros st' [= <-]. split_and!; [done| |by left]. split; [simpl; by rewrite log_length_app|].
    rewrite lookup_alter_eq, Hf. by eexists.
  - intros n Hc. destruct (holds_torn _ _ _ _ _ n Hh1 Hf Hr Hlen) as (w & tail & Hw & Ht). apply wp_bind, wp_call.
    + apply wp_ret. exists P1, C1, [], []. split_and!; [|by rewrite <- (app_nil_r C1); apply kept_add|by left|done|].
      { eapply holds_recut; [done|by rewrite lookup_alter_eq, Hf]. }
      intros st' [= <-]. split_and!; [done| |by right]. split; [done|].
      rewrite lookup_alter_eq, lookup_alter_eq, Hf. by eexists.
    + intros n1 _. unfold untouched. exists P1, (C1 ++ w), tail, w. split_and!; [done|by apply kept_add|done|done|done].
Qed.

(** ** One iteration *)

Definition incoming (known : sources) (i : Input) : option Received :=
  match read_event json_read known (in_answer i) (in_clock i) with inr (Some r) => Some r | _ => None end.

Definition input_typed (i : Input) : Prop :=
  match in_answer i with
  | RecvFailed _ => True
  | Datagram _ _ control => Forall (fun a => match a with Credentials uid pid => u32 uid /\ u32 pid | _ => True end) control
  end /\ match in_clock i with Some ns => 0 <= ns | None => True end.

(** The receive does not fail for good. *)
Definition steady (i : Input) : Prop := in_answer i <> RecvFailed false.

Definition from_source (known : sources) (r : Received) : Prop :=
  (rec_component (received_record r), source_uid r) ∈ known /\ valid (received_record r) = true.

Hypothesis json_typed : forall bytes record, json_read bytes = Some record -> u64 (dropped_before record).
Hypothesis json_line : forall bytes record uid pid at_ms,
  decode json_read bytes = Some record -> uint 32 uid -> uint 32 pid -> u64 at_ms ->
  text_ok (mk_received uid pid at_ms record).

Lemma credentials_typed control uid pid :
  Forall (fun a => match a with Credentials uid pid => u32 uid /\ u32 pid | _ => True end) control ->
  credentials_of control = Some (uid, pid) -> uint 32 uid /\ uint 32 pid.
Proof.
  unfold credentials_of. intros F. assert (forall u p, (None : option (Z * Z)) = Some (u, p) -> uint 32 u /\ uint 32 p) as H by done.
  revert H. generalize (None : option (Z * Z)). induction F as [|a control Ha F IH]; intros o Ho; simpl; [apply Ho|].
  apply IH. destruct a as [u p|]; [by intros u' p' [= <- <-]|done].
Qed.

Lemma unix_time_u64 clock : match clock with Some ns => 0 <= ns | None => True end -> u64 (default 0 (unix_time_ms clock)).
Proof.
  destruct clock as [ns|]; simpl; [|by unfold uint]. intros Hns. destruct (Z.ltb_spec (ns / 1000000) (2 ^ 64)); simpl; [|by unfold uint].
  split; [apply Z.div_pos; lia|done].
Qed.

Lemma existsb_source (known : sources) component uid :
  existsb (fun s => String.eqb (fst s) component && (snd s =? uid)) known = true <-> (component, uid) ∈ known.
Proof.
  rewrite existsb_exists, list_elem_of_In. split.
  - intros ([c u] & Hin & E). apply andb_prop in E as [E1%String.eqb_eq E2%Z.eqb_eq]. simpl in *. by subst.
  - intros Hin. eexists. split; [exact Hin|]. simpl. by rewrite String.eqb_refl, Z.eqb_refl.
Qed.

Lemma incoming_ok known i r :
  input_typed i -> incoming known i = Some r -> line_ok r /\ from_source known r.
Proof.
  intros [Hc Ht]. unfold incoming, read_event. destruct (in_answer i) as [|sent trunc control]; [done|].
  cbv zeta. destruct (_ || _ || _); [done|]. destruct (credentials_of control) as [[uid pid]|] eqn:Ec; [|done].
  destruct (negb _); [done|]. destruct (decode json_read _) as [record|] eqn:Ed; [|done].
  destruct (existsb _ _) eqn:Es; [|done]. simpl negb. cbv iota. apply existsb_source in Es. intros [= <-].
  destruct (credentials_typed _ _ _ Hc Ec) as [Hu Hp]. pose proof (unix_time_u64 _ Ht) as Hat.
  pose proof (json_line _ _ uid pid _ Ed Hu Hp Hat) as Htext. unfold decode in Ed. destruct (_ <? _)%nat; [done|].
  destruct (json_read _) as [value|] eqn:Ej; [|done]. destruct (valid value) eqn:Ev; [|done]. simplify_eq.
  split; [split; [split; [done|by eapply json_typed]|done]|by split].
Qed.

Lemma write_failure_ok m : metrics_ok m -> metrics_ok (count_write_failure m).
Proof. intros (Hr & Ha & Hg & (T1 & T2 & T3 & T4 & T5 & T6 & T7)). split_and!; [exact Hr|exact Ha|exact Hg|]. by split_and!. Qed.

Lemma reject_ok m : metrics_ok m -> metrics_ok (reject m).
Proof. intros Hm. apply set_tally_ok; [done|destruct Hm as (_ & _ & _ & (_ & _ & ? & ? & ? & _ & ?)); auto with leelo..]. Qed.

Lemma holds_ext e e' P C tail :
  e' !! log_path = e !! log_path -> e' !! previous_path = e !! previous_path -> holds e P C tail -> holds e' P C tail.
Proof. intros E1 E2 [H1 H2 H3 H4 H5 H6]. split; rewrite ?E1, ?E2; done. Qed.

(** The state between two calls of the loop. *)
Record at_rest (st : Daemon) (e : gmap path Entry) (P C : list Received) : Prop := mk_at_rest {
  rest_holds : holds e P C [];
  rest_sync : in_sync st e C;
  rest_ok : metrics_ok (registry st);
}.

Lemma at_rest_registry st st' e P C :
  at_rest st e P C -> log_size st' = log_size st -> metrics_ok (registry st') -> at_rest st' e P C.
Proof. intros [H1 [H2 H3] H4] Hs Hm. split; [done|split; [by rewrite Hs|done]|done]. Qed.

(** The export touches no log, and ends. *)
Lemma wp_export st i e P C :
  at_rest st e P C ->
  wp (export suffix display_f64 state_dir st i) (fun o e' => exists st', o = Some st' /\ at_rest st' e' P C /\
    same_history (registry st') (registry st)) e.
Proof.
  intros Hst. unfold export. destruct (_ <=? _); [|apply wp_ret; by exists st].
  destruct Hst as [Hh [Hs1 Hs2] Hm]. destruct (render_total display_f64 (registry st)
    (default 0 (unix_time_ms (in_export_clock i))) (proj1 (proj2 (proj2 Hm)))) as [text ->].
  apply wp_bind, wp_attempt. eapply wp_mono; [apply wp_atomic_write; by intros n|].
  intros o e' [Hkeep _]. apply wp_ret. eexists. split; [done|].
  assert (forall name, name <> "events.prom" -> (forall n, name <> ".tmp" +:+ suffix n) ->
    e' !! join state_dir name = e !! join state_dir name) as Hlogs.
  { intros name H1 H2. apply Hkeep; [intros E; by apply join_inj in E|intros n E; apply join_inj in E; by apply (H2 n)]. }
  assert (e' !! log_path = e !! log_path) as E1 by (by apply Hlogs).
  assert (e' !! previous_path = e !! previous_path) as E2 by (by apply Hlogs).
  split; [split|]; simpl.
  - by eapply holds_ext.
  - split; [done|by rewrite E1].
  - case_bool_decide; [done|by apply write_failure_ok].
  - case_bool_decide; [done|apply quiet_write_failure].
Qed.

(** Receiving: what is written is the accepted event, or nothing. *)
Definition accepted_now (known : sources) (m : Metrics) (i : Input) : Metrics * list Received :=
  accept_all m (option_list (incoming known i)).

Lemma wp_receive known st i e P C :
  at_rest st e P C -> input_typed i ->
  wp (receive json_read received_json state_dir known st i) (fun o e' => exists P' C' tail w,
    holds e' P' C' tail /\ kept P C w P' C' /\ w `sublist_of` (accepted_now known (registry st) i).2 /\
    (calm -> steady i -> is_Some o /\ w = (accepted_now known (registry st) i).2) /\
    forall st', o = Some st' -> tail = [] /\ at_rest st' e' P' C' /\
      same_history (registry st') (accepted_now known (registry st) i).1) e.
Proof.
  intros Hst Hi. pose proof Hst as [Hh Hs Hm].
  assert (kept P C [] P C) as Hk by (left; by rewrite app_nil_r).
  assert (forall m', metrics_ok m' -> at_rest (with_registry st m') e P C) as Hreg by (intros; by eapply at_rest_registry).
  pose proof (incoming_ok known i) as Hin. unfold receive, accepted_now, steady. unfold incoming in *.
  destruct (read_event _ _ _ _) as [retry|[r|]] eqn:Er; simpl.
  - assert (in_answer i = RecvFailed retry) as Ea.
    { unfold read_event in Er. by repeat (case_match; simplify_eq). }
    rewrite Ea. destruct retry; [apply wp_ret|apply wp_refuse]; exists P, C, [], [];
      (split_and!; [done|done|apply sublist_nil_l|naive_solver|naive_solver]).
  - destruct (Hin r Hi eq_refl) as (Hl & _). pose proof (proj1 Hl) as Hr. pose proof (accept_ok _ _ Hm Hr) as Hm1.
    destruct (accept (registry st) r) as [m1 [|]]; simpl in Hm1 |- *.
    + eapply wp_mono; [apply (wp_store (with_registry st m1) r e P C); [done|done|done]|].
      intros o e' (P' & C' & tail & w & H1 & H2 & H3 & H4 & H5). exists P', C', tail, w. split_and!; [done|done| |naive_solver|].
      { destruct H3 as [-> | ->]; [apply sublist_nil_l|done]. }
      intros st' ->. destruct (H5 st' eq_refl) as (-> & Hs' & Hregs). split_and!; [done| |].
      { split; [done|done|]. destruct Hregs as [-> | ->]; [done|by apply write_failure_ok]. }
      destruct Hregs as [-> | ->]; [done|apply quiet_write_failure].
    + apply wp_ret. exists P, C, [], []. split_and!; [done|done|done|by eauto|]. intros st' [= <-]. by split_and!; [|apply Hreg|].
  - apply wp_ret. exists P, C, [], []. split_and!; [done|done|done|by eauto|]. intros st' [= <-].
    split_and!; [done|by apply Hreg, reject_ok|apply quiet_reject].
Qed.

(** ** The loop *)

(** What is left of [P ++ C ++ new]: all of it, or the most recent events behind a rotation. *)
Definition retained (P C new P' C' : list Received) : Prop := exists dropped,
  P ++ C ++ new = dropped ++ P' ++ C' /\ (dropped = [] \/ LOG_LIMIT < log_length P' + Z.of_nat MAX_LINE + 1).

Lemma retained_kept P C new P1 C1 w P' C' :
  retained P C new P1 C1 -> kept P1 C1 w P' C' -> retained P C (new ++ w) P' C'.
Proof.
  intros (dropped & E & Hd) [[-> ->]|(-> & -> & Hlen)].
  - exists dropped. split; [|done]. rewrite !app_assoc in *. by rewrite E.
  - exists (dropped ++ P1). split; [|by right]. rewrite <- !app_assoc. rewrite !app_assoc in *. by rewrite E.
Qed.

Lemma omap_incoming_cons known i inputs :
  omap (incoming known) (i :: inputs) = option_list (incoming known i) ++ omap (incoming known) inputs.
Proof. simpl. by destruct (incoming known i). Qed.

Lemma wp_events_loop known inputs st e P0 C0 past P C :
  Forall input_typed inputs -> at_rest st e P C -> retained P0 C0 past P C ->
  wp (events_loop suffix display_f64 json_read received_json state_dir known st inputs) (fun o e' => exists P' C' tail new,
    holds e' P' C' tail /\ retained P0 C0 (past ++ new) P' C' /\
    new `sublist_of` (accept_all (registry st) (omap (incoming known) inputs)).2 /\
    (calm -> Forall steady inputs -> is_Some o /\ new = (accept_all (registry st) (omap (incoming known) inputs)).2) /\
    forall st', o = Some st' -> tail = [] /\ at_rest st' e' P' C' /\
      same_history (registry st') (accept_all (registry st) (omap (incoming known) inputs)).1) e.
Proof.
  intros F. revert st e past P C. induction F as [|i inputs Hi F IH]; intros st e past P C Hst Hret; simpl events_loop.
  { apply wp_ret. exists P, C, [], []. rewrite app_nil_r. destruct Hst. split_and!; [done|done|done|by eauto|].
    intros st' [= <-]. by split_and!. }
  rewrite omap_incoming_cons, accept_all_app. apply wp_bind. unfold events_step. apply wp_bind.
  eapply wp_mono; [by apply wp_receive|]. intros o e1 (P1 & C1 & tail & w & H1 & H2 & H3 & H4 & H5).
  unfold accepted_now in *. destruct (accept_all (registry st) (option_list _)) as [m1 t1]. simpl in *.
  assert (retained P0 C0 (past ++ w) P1 C1) as Hret1 by (by eapply retained_kept).
  destruct o as [st1|].
  2: { exists P1, C1, tail, w. split_and!; [done|done| |intros Hc [Hsi _]%Forall_cons; by destruct (H4 Hc Hsi) as [[]]|done].
       destruct (accept_all m1 _) as [m2 t2]. simpl. by apply sublist_inserts_r. }
  destruct (H5 st1 eq_refl) as (-> & Hst1 & Hm1). eapply wp_mono; [by apply wp_export|].
  intros o e2 (st2 & -> & Hst2 & Hm2). eapply wp_mono; [by eapply (IH st2 e2 (past ++ w))|].
  intros o e' (P' & C' & tail & new & G1 & G2 & G3 & G4 & G5).
  destruct (accept_all_history (omap (incoming known) inputs) (registry st2) m1) as [E1 E2]; [by etrans|].
  destruct (accept_all m1 _) as [m2 t2], (accept_all (registry st2) _) as [m2' t2']. simpl in *. subst t2'.
  exists P', C', tail, (w ++ new). split_and!; [done|by rewrite app_assoc|by apply sublist_app| |].
  - intros Hc [Hsi Hs]%Forall_cons. destruct (H4 Hc Hsi) as [_ ->], (G4 Hc Hs) as [? ->]. done.
  - intros st' ->. destruct (G5 st' eq_refl) as (-> & ? & ?). split_and!; [done|done|by etrans].
Qed.

(** ** Restart *)

Lemma wp_path_exists (p : path) (Q : option bool -> gmap path Entry -> Prop) e :
  calm -> (forall f, e !! p = Some f -> entry_regular f = true) -> Q (Some (bool_decide (is_Some (e !! p)))) e ->
  wp (path_exists resolves p) Q e.
Proof.
  intros Hc Hreg HQ t. unfold path_exists. cbn [entries]. destruct (e !! p) as [f|] eqn:Ef; [|done].
  apply (wp_bind (attempt system_call) _ Q). apply wp_attempt, wp_system_call; [|done]. apply wp_ret.
  rewrite (Hreg f eq_refl). done.
Qed.

(** Replaying a file that holds whole lines and a tail: the tail is cut off, the lines are replayed. *)
Lemma wp_replay (p : path) m rs tail e f :
  calm -> e !! p = Some f -> private_log f -> entry_bytes f = log_bytes rs ++ tail -> 10 ∉ tail ->
  (length tail <= MAX_LINE)%nat -> log_length rs <= LOG_LIMIT ->
  wp (replay resolves read_received p m) (fun o e' =>
    o = Some (replay_lines read_received (if bool_decide (tail = []) then m else reject m) (log_bytes rs)) /\
    exists f', e' = <[p := f']> e /\ private_log f' /\ entry_bytes f' = log_bytes rs) e.
Proof.
  intros Hc Hf Hp Hb Ht Htl Hlen. unfold replay. apply wp_bind.
  assert (Z.of_nat (length (entry_bytes f)) <= LOG_LIMIT + 8192) as Hsize.
  { rewrite Hb, length_app. unfold log_length, LOG_LIMIT, MAX_LINE, MAX_EVENT_BYTES in *. lia. }
  apply wp_path_exists; [done|intros g Hg; rewrite Hf in Hg; simplify_eq; apply Hp|].
  rewrite Hf, bool_decide_eq_true_2 by (by eexists). simpl negb. cbv iota. apply wp_bind, wp_open_log; [|done].
  rewrite Hf. split_and!; [|intros g Hg; rewrite Hf in Hg; simplify_eq; tauto|done].
  intros _ _ _ _. unfold read_up_to. apply wp_bind, wp_bind. eapply wp_metadata; [exact Hf| |done]. apply wp_ret.
  rewrite take_ge by lia. apply Z.ltb_ge in Hsize as ->.
  apply wp_bind. unfold repair. rewrite Hb.
  destruct (decide (tail = [])) as [->|Hne].
  - rewrite (bool_decide_eq_true_2 (@nil Z = [])) by done. rewrite app_nil_r in *.
    destruct (bool_decide (log_bytes rs <> []) && _) eqn:E.
    { exfalso. apply andb_prop in E as [E1 E2]. apply bool_decide_eq_true in E1.
      destruct rs as [|r rs]; [done|]. unfold log_bytes in E2. destruct (unlines_last (map log_line (r :: rs))) as [body Eb]; [done|].
      rewrite Eb, last_snoc in E2. done. }
    apply wp_ret, wp_ret. simpl. split; [done|].
    exists f. by rewrite insert_id.
  - rewrite (bool_decide_eq_false_2 (tail = [])) by done.
    assert (log_bytes rs ++ tail <> []) as Hnil by (by destruct (log_bytes rs), tail).
    assert (last (log_bytes rs ++ tail) <> Some 10) as Hlast.
    { rewrite last_app. destruct (last tail) as [x|] eqn:Ex; [|by apply last_None in Ex].
      intros [= ->]. apply Ht. apply last_Some in Ex as [l' ->]. apply elem_of_app. right. by left. }
    rewrite (bool_decide_eq_true_2 (_ <> [])), (bool_decide_eq_false_2 (last _ = _)) by done. simpl andb. cbv iota.
    unfold log_bytes. rewrite complete_lines by done. fold (log_bytes rs).
    apply wp_bind, wp_call; [|done]. apply wp_bind, wp_call; [|done]. apply wp_ret, wp_ret. simpl.
    rewrite take_app_length. split; [done|].
    eexists (mk_entry _ _ _ _ _ _). split; [|split]; [| |].
    + rewrite <- (insert_id e p f Hf) at 1. rewrite !alter_insert_eq. reflexivity.
    + exact Hp.
    + simpl. rewrite Nat2Z.id, Hb, take_app_length, length_app.
      replace (_ - _)%nat with 0%nat by lia. simpl. by rewrite app_nil_r.
Qed.

Definition private_dir (info : option Metadata) : Prop :=
  match info with
  | Some i => meta_dir i = true /\ meta_uid i = euid /\ Z.land (meta_mode i) 18 = 0
  | None => False
  end.

Lemma wp_private_directory (info : option Metadata) (Q : option unit -> gmap path Entry -> Prop) e :
  private_dir info -> Q (Some tt) e -> wp (private_directory info) Q e.
Proof.
  destruct info as [i|]; [|done]. intros (H1 & H2 & H3) HQ. unfold private_directory. rewrite H1, H2, H3, Z.eqb_refl. by apply wp_ret.
Qed.

(** The end of the startup: the log is opened and its size read. *)
Lemma wp_open_current (m : Metrics) (now : Z) (e : gmap path Entry) (P C : list Received) :
  holds e P C [] -> metrics_ok m ->
  wp (_ ← open_log log_path; info ← metadata log_path;
      mret (mk_daemon m (Z.of_nat (length (entry_bytes info))) (now - EXPORT_PERIOD)))
    (fun o e' => holds e' P C [] /\ (calm -> is_Some o) /\ forall st, o = Some st -> at_rest st e' P C /\ registry st = m) e.
Proof.
  intros Hh Hm. set (e1 := match e !! log_path with Some _ => e | None => <[log_path := new_log]> e end).
  assert (holds e1 P C [] /\ is_Some (e1 !! log_path)) as [Hh1 [f Hf]].
  { subst e1. destruct (e !! log_path) eqn:E; [by rewrite E|]. pose proof (holds_current _ _ _ _ Hh) as Hc. rewrite E in Hc.
    destruct Hc as [-> _]. split; [by apply holds_create|rewrite lookup_insert_eq; by eexists]. }
  pose proof (holds_current _ _ _ _ Hh1) as Hc. rewrite Hf in Hc. destruct Hc as [Hp Hb]. rewrite app_nil_r in Hb.
  pose proof (holds_current_size _ _ _ _ Hh1) as Hs. unfold log_length in Hs.
  apply wp_bind, wp_open_log; [fold e1; cbv zeta|by intros].
  split_and!; [|intros g Hg Hbad; rewrite Hf in Hg; simplify_eq; exfalso; apply Hbad; rewrite Hb; split; [done|lia]|done].
  intros _ _ _ _. apply wp_bind. eapply wp_metadata; [exact Hf| |done]. apply wp_ret.
  split_and!; [done|by eauto|]. intros st [= <-]. split; [|done]. split; [done| |done].
  split; [simpl; by rewrite Hb|by exists f].
Qed.

Lemma holds_lines_split e P C tail : holds e P C tail -> Forall line_ok P /\ Forall line_ok C.
Proof. intros [_ _ _ _ _ H6]. by apply Forall_app in H6. Qed.

Lemma line_received rs : Forall line_ok rs -> Forall received_ok rs.
Proof. intros F. eapply Forall_impl; [exact F|]. by intros r []. Qed.

(** A first start, on a directory without logs, in which any call may fail. *)
Lemma wp_first_start (socket_info state_info : option Metadata) (now : Z) (e : gmap path Entry) :
  private_dir socket_info -> private_dir state_info -> e !! log_path = None -> e !! previous_path = None ->
  wp (startup resolves read_received state_dir socket_info state_info now)
    (fun o e' => holds e' [] [] [] /\ (calm -> is_Some o) /\
       forall st, o = Some st -> at_rest st e' [] [] /\ registry st = default_metrics) e.
Proof.
  intros Hd1 Hd2 Hl Hp. assert (holds e [] [] []) as Hh.
  { split; [by rewrite Hp|by rewrite Hl|..]; try done. split; [apply not_elem_of_nil|simpl; lia]. }
  unfold startup. apply wp_bind, wp_private_directory; [done|]. apply wp_bind, wp_private_directory; [done|].
  do 4 (apply wp_bind, wp_system_call; [|by intros]).
  assert (forall (p : path) (Q : option Metrics -> gmap path Entry -> Prop), e !! p = None -> Q (Some default_metrics) e ->
    wp (replay resolves read_received p default_metrics) Q e) as Hnone.
  { intros p Q Hn HQ. unfold replay. apply wp_bind. intros t. unfold path_exists. cbn [entries]. rewrite Hn. by apply wp_ret. }
  apply wp_bind, Hnone; [done|]. apply wp_bind, Hnone; [done|]. apply wp_open_current; [done|apply default_metrics_ok].
Qed.

(** The fields of what the reader returns have their types. *)
Context (read_typed : forall line r, read_received line = Some r -> received_ok r).

Lemma replay_lines_ok m bytes : metrics_ok m -> metrics_ok (replay_lines read_received m bytes).
Proof.
  unfold replay_lines. revert m. induction (List.filter nonempty (split_lines bytes)) as [|line lines IH]; intros m Hm; simpl; [done|].
  apply IH. unfold replay_line. destruct (_ <? _)%nat; [by apply reject_ok|].
  destruct (read_received line) as [r|] eqn:E; [|by apply reject_ok]. apply accept_ok; [done|by eapply read_typed].
Qed.

(** A restart, in which no call fails. *)
Lemma wp_restart (socket_info state_info : option Metadata) (now : Z) (e : gmap path Entry) (P C : list Received) (tail : list Z) :
  calm -> private_dir socket_info -> private_dir state_info -> holds e P C tail ->
  wp (startup resolves read_received state_dir socket_info state_info now)
    (fun o e' => exists st, o = Some st /\ at_rest st e' P C /\
       same_history (registry st) (accept_all default_metrics (omap reread (P ++ C))).1) e.
Proof.
  intros Hc Hd1 Hd2 Hh. destruct (holds_lines_split _ _ _ _ Hh) as [Hl1 Hl2].
  pose proof Hh as [H1 H2 H3 H4 [H5 H5'] H6]. pose proof paths_distinct as Hne.
  assert (10 ∉ @nil Z /\ (length (@nil Z) <= MAX_LINE)%nat) as [He1 He2] by (split; [apply not_elem_of_nil|simpl; lia]).
  unfold startup. apply wp_bind, wp_private_directory; [done|]. apply wp_bind, wp_private_directory; [done|].
  do 4 (apply wp_bind, wp_system_call; [|by intros]). apply wp_bind.
  set (m1 := replay_lines read_received default_metrics (log_bytes P)).
  apply (wp_mono _ (fun o e' => o = Some m1 /\ holds e' P C tail)).
  { destruct (e !! previous_path) as [f|] eqn:Ef.
    - destruct H1 as [Hp Hb]. eapply wp_mono; [by eapply (wp_replay _ _ P [])|].
      intros o e' (-> & f' & -> & Hp' & Hb'). split; [done|]. split; [| |done|done|done|done].
      + rewrite lookup_insert_eq. split; [done|by rewrite app_nil_r].
      + by rewrite lookup_insert_ne.
    - destruct H1 as [-> _]. unfold replay. apply wp_bind. intros t. unfold path_exists. cbn [entries]. rewrite Ef. by apply wp_ret. }
  intros o e1 [-> Hh1]. assert (metrics_ok m1) as Hm1 by apply replay_lines_ok, default_metrics_ok.
  apply wp_bind. set (m2 := if bool_decide (tail = []) then m1 else reject m1).
  assert (metrics_ok m2 /\ same_history m2 m1) as [Hm2 Hs2].
  { subst m2. case_bool_decide; [done|]. split; [by apply reject_ok|apply quiet_reject]. }
  apply (wp_mono _ (fun o e' => o = Some (replay_lines read_received m2 (log_bytes C)) /\ holds e' P C [])).
  { pose proof Hh1 as [G1 G2 _ _ _ _]. destruct (e1 !! log_path) as [f|] eqn:Ef.
    - destruct G2 as [Hp Hb]. eapply wp_mono; [by eapply (wp_replay _ m1 C tail)|].
      intros o e' (-> & f' & -> & Hp' & Hb'). split; [done|]. split; [| |done|done| |done].
      + by rewrite lookup_insert_ne.
      + rewrite lookup_insert_eq. split; [done|by rewrite app_nil_r].
      + split; [apply not_elem_of_nil|simpl; lia].
    - destruct G2 as [-> ->]. unfold replay. apply wp_bind. intros t. unfold path_exists. cbn [entries]. rewrite Ef. by apply wp_ret. }
  intros o e2 [-> Hh2]. eapply wp_mono; [by apply (wp_open_current _ now e2 P C), replay_lines_ok|].
  intros o e' (_ & Hsome & Hst). destruct (Hsome Hc) as [st ->]. destruct (Hst st eq_refl) as [Hrest Hreg].
  exists st. split_and!; [done|done|]. rewrite Hreg, omap_app, accept_all_app. etrans; [by apply replay_lines_events|].
  pose proof (replay_lines_events default_metrics P Hl1) as EP. fold m1 in EP.
  destruct (accept_all default_metrics (omap reread P)) as [n t1]. simpl in EP.
  destruct (accept_all_history (omap reread C) m2 n (transitivity Hs2 EP)) as [E _]. by destruct (accept_all n (omap reread C)).
Qed.
End Log.

(** * The theorem *)

Lemma accept_seen m r : event_key r ∈ seen m -> (accept m r).2 = false.
Proof.
  intros Hs. destruct (accept_branches m r) as [(id & (_ & Hid & Hn & _) & _)|[_ [(id & _ & _ & _ & ->)|[_ ->]]]]; [|done..].
  exfalso. apply Hn. unfold event_key, attempt_key in Hs. by rewrite Hid in Hs.
Qed.

Lemma holds_file_other {FS1 FS2 : FileSystem} received_json f rs tail :
  @euid FS1 = @euid FS2 -> holds_file (FS := FS1) received_json f rs tail -> holds_file (FS := FS2) received_json f rs tail.
Proof. intros E. destruct f as [f|]; [|done]. intros [(A1 & A2 & A3) Hb]. split; [split_and!; [done|congruence|done]|done]. Qed.

Lemma holds_other_process {FS1 FS2 : FileSystem} received_json state_dir m P C tail :
  @euid FS1 = @euid FS2 -> holds (FS := FS1) received_json state_dir m P C tail -> holds (FS := FS2) received_json state_dir m P C tail.
Proof.
  intros E [H1 H2 H3 H4 H5 H6]. split; [by apply (holds_file_other (FS1 := FS1))|by apply (holds_file_other (FS1 := FS1))|done..].
Qed.

(** The accepted events of a stream, accepted again from the start, are refused as long as the window holds
    all of them. *)
Lemma accepted_again_refused stream m r :
  Forall received_ok stream -> r ∈ (accept_all default_metrics stream).2 ->
  Z.of_nat (length (accept_all default_metrics stream).2) <= MAX_REPLAY ->
  same_counts m (accept_all default_metrics stream).1 -> (accept m r).2 = false.
Proof.
  intros F Hr Hlen Hm. destruct (accept_counts m _ r r Hm (reads_as_refl r)) as [_ ->]. apply accept_seen.
  destruct (accept_all_ok stream _ default_metrics_ok F) as [[Hs _] _]. rewrite Hs.
  destruct (accept_all_window stream default_metrics [] default_metrics_ok F) as [-> _]; [done|by intros|].
  apply elem_of_list_to_set. simpl. unfold window. rewrite length_map.
  replace (length _ - Z.to_nat MAX_REPLAY)%nat with 0%nat by lia. simpl. by apply list_elem_of_fmap_2.
Qed.

Lemma accept_all_sublist stream m : (accept_all m stream).2 `sublist_of` stream.
Proof.
  revert m. induction stream as [|r stream IH]; intros m; simpl; [done|]. destruct (accept m r) as [m1 [|]];
    specialize (IH m1); destruct (accept_all m1 stream); simpl in *; by constructor.
Qed.

Lemma sublist_Forall {A} (Q : A -> Prop) l k : l `sublist_of` k -> Forall Q k -> Forall Q l.
Proof. intros Hs Hk. apply Forall_forall. intros x Hx. rewrite Forall_forall in Hk. apply Hk. by eapply elem_of_submseteq, sublist_submseteq. Qed.

(** What the daemon relies on of the JSON library: a 64-bit field is one, and the compact text of a received
    event is one line within the replay bound. *)
Class EventJsonLaws (json_read : list Z -> option TelemetryRecord) (read_received : list Z -> option Received)
    (received_json : Received -> option (list Z)) : Prop := {
  event_json_typed : forall bytes record, json_read bytes = Some record -> u64 (dropped_before record);
  received_typed : forall line r, read_received line = Some r -> received_ok r;
  event_json_line : forall bytes record uid pid at_ms,
    decode json_read bytes = Some record -> u32 uid -> u32 pid -> u64 at_ms ->
    text_ok received_json (mk_received uid pid at_ms record);
}.

(** Only events of configured sources come in. *)
Lemma incoming_all json_read read_received received_json `{!EventJsonLaws json_read read_received received_json} known inputs :
  Forall input_typed inputs ->
  Forall (fun r => line_ok received_json r /\ from_source known r) (omap (incoming json_read known) inputs).
Proof.
  intros F. apply Forall_forall. intros r (i & Hi & Hr)%list_elem_of_omap. rewrite Forall_forall in F.
  by eapply incoming_ok; [apply event_json_typed|apply event_json_line|apply F|].
Qed.

(** What a run that began without logs leaves on the disk. *)
Lemma first_run {FS : FileSystem} (suffix : nat -> string) (resolves : path -> bool) (display_f64 : f64 -> string)
    json_read (read_received : list Z -> option Received) received_json `{!EventJsonLaws json_read read_received received_json}
    (state_dir : path) (args : list string) (known : sources) (socket_info state_info : option Metadata) (now : Z) (inputs : list Input) (e0 : gmap path Entry) :
  private_dir socket_info -> private_dir state_info -> configured_sources args = Some known -> Forall input_typed inputs ->
  e0 !! log_path state_dir = None -> e0 !! previous_path state_dir = None ->
  let stream := omap (incoming json_read known) inputs in
  wp (events suffix resolves display_f64 json_read read_received received_json state_dir args socket_info state_info now inputs)
    (fun o e => exists P C tail new,
       holds received_json state_dir e P C tail /\ retained received_json [] [] new P C /\
       new `sublist_of` (accept_all default_metrics stream).2 /\
       (calm -> Forall steady inputs -> new = (accept_all default_metrics stream).2 /\
          exists st, o = Some st /\ same_history (registry st) (accept_all default_metrics stream).1)) e0.
Proof.
  intros Hd1 Hd2 Hargs F Hl Hp stream. unfold events. rewrite Hargs. apply wp_bind.
  assert (retained received_json [] [] [] [] []) as Hnil by (exists []; split; [done|by left]).
  eapply wp_mono; [by apply (wp_first_start resolves read_received received_json state_dir)|].
  intros o e1 (Hh & Hcalm & Hst). destruct o as [st|].
  2: { exists [], [], [], []. split_and!; [done|done|apply sublist_nil_l|]. intros Hc _. by destruct (Hcalm Hc). }
  destruct (Hst st eq_refl) as [Hrest Hreg]. eapply wp_mono.
  { by apply (wp_events_loop suffix resolves display_f64 json_read read_received received_json state_dir event_json_typed
      event_json_line known inputs st e1 [] [] [] [] []). }
  intros o e' (P & C & tail & new & H1 & H2 & H3 & H4 & H5). rewrite Hreg in *. exists P, C, tail, new.
  split_and!; [done|done|done|]. intros Hc Hs. destruct (H4 Hc Hs) as [[st' ->] ->]. split; [done|].
  exists st'. split; [done|]. by apply H5.
Qed.

Section Restart.
Context {FS1 FS2 : FileSystem} (suffix : nat -> string) (resolves : path -> bool) (display_f64 : f64 -> string).
Context (json_read : list Z -> option TelemetryRecord) (read_received : list Z -> option Received).
Context (received_json : Received -> option (list Z)) `{!EventJsonLaws json_read read_received received_json}.
Context (state_dir : path) (socket_info state_info : option Metadata).

(** The reader returns a logged event, perhaps with another duration: JSON text keeps integers and strings, but
    the reader of decimal fractions may be off in the last bit. *)
Definition rereads (r : Received) : Prop := exists r', reread read_received received_json r = Some r' /\ reads_as r r'.

Lemma rereads_all rs : Forall rereads rs -> Forall2 reads_as rs (omap (reread read_received received_json) rs).
Proof.
  induction 1 as [|r rs (r' & E & Hr) _ IH]; [constructor|]. cbn [omap list_omap]. rewrite E. by constructor.
Qed.

(** C34: the event log survives failures. Let the daemon start without logs and process any sequence of
    datagrams while any of its calls fail, a write after part of its bytes. When it ends, or is stopped, its
    two log files hold whole lines of accepted events of configured sources in order, followed by at most one
    line that no newline committed; nothing is lost behind a rotation but events older than a full log; and
    every accepted event was logged if no call failed. A restart whose calls succeed cuts that tail off, knows the size of its log, and starts from the registry of
    exactly what the reader makes of the logged lines, up to counters of refused events. Provided that the
    reader returns the events of the run from their text, each perhaps with another duration, that registry has
    the windows, attempts and counts of the logged events, and differs from theirs at most in the buckets and
    sums of durations. If moreover no call failed and the events fit one log, so that none was rotated away, it
    has those of the daemon that stopped, and every logged event is refused if it comes again, as long as the
    replay window holds all of them. *)
Theorem event_log_restart (args : list string) (known : sources) (now now2 : Z) (inputs : list Input) (e0 : gmap path Entry) :
  @euid FS1 = @euid FS2 -> calm (H := FS2) ->
  private_dir (FS := FS1) socket_info -> private_dir (FS := FS1) state_info ->
  configured_sources args = Some known -> Forall input_typed inputs ->
  e0 !! log_path state_dir = None -> e0 !! previous_path state_dir = None ->
  let '(o, d) := events (H := FS1) suffix resolves display_f64 json_read read_received received_json state_dir args
                   socket_info state_info now inputs (mk_disk e0 0) in
  let '(o2, d2) := startup (H := FS2) resolves read_received state_dir socket_info state_info now2 (mk_disk (entries d) 0) in
  exists P C tail new st,
    holds (FS := FS1) received_json state_dir (entries d) P C tail /\ retained received_json [] [] new P C /\
    new `sublist_of` (accept_all default_metrics (omap (incoming json_read known) inputs)).2 /\
    Forall (from_source known) new /\
    (calm (H := FS1) -> Forall steady inputs -> new = (accept_all default_metrics (omap (incoming json_read known) inputs)).2) /\
    o2 = Some st /\ holds (FS := FS2) received_json state_dir (entries d2) P C [] /\ log_size st = log_length received_json C /\
    same_history (registry st) (accept_all default_metrics (omap (reread read_received received_json) (P ++ C))).1 /\
    (Forall rereads (omap (incoming json_read known) inputs) ->
     same_counts (registry st) (accept_all default_metrics (P ++ C)).1 /\
     (calm (H := FS1) -> Forall steady inputs -> log_length received_json new + Z.of_nat MAX_LINE < LOG_LIMIT ->
      exists st1, o = Some st1 /\ same_counts (registry st) (registry st1) /\
        (Z.of_nat (length new) <= MAX_REPLAY -> forall r, r ∈ new -> (accept (registry st) r).2 = false))).
Proof.
  intros Hu Hc2 Hd1 Hd2 Hargs F Hl Hp. pose proof (incoming_all json_read read_received received_json known inputs F) as Hin.
  pose proof (first_run suffix resolves display_f64 json_read read_received received_json state_dir args known
    socket_info state_info now inputs e0 Hd1 Hd2 Hargs F Hl Hp 0%nat) as Hrun. cbv zeta in Hrun.
  destruct (events _ _ _ _ _ _ _ _ _ _ _ _ _) as [o d]. destruct Hrun as (P & C & tail & new & H1 & H2 & H3 & H4).
  set (stream := omap (incoming json_read known) inputs) in *.
  assert (forall info, private_dir (FS := FS1) info -> private_dir (FS := FS2) info) as Hdir.
  { intros [i|]; [|done]. intros (A1 & A2 & A3). split_and!; [done|by rewrite <- Hu|done]. }
  pose proof (wp_restart (FS := FS2) resolves read_received received_json state_dir received_typed socket_info state_info now2
    (entries d) P C tail Hc2 (Hdir _ Hd1) (Hdir _ Hd2) (holds_other_process _ _ _ _ _ _ Hu H1) 0%nat) as Hre.
  destruct (startup _ _ _ _ _ _ _) as [o2 d2]. destruct Hre as (st & -> & [R1 [R2 _] R3] & Hst).
  assert (new `sublist_of` stream) as Hsub by (etrans; [exact H3|apply accept_all_sublist]).
  exists P, C, tail, new, st. split_and!; [done|done|done| |by intros; apply H4|done|done|done|done|].
  { eapply sublist_Forall; [exact Hsub|]. eapply Forall_impl; [exact Hin|]. by intros r []. }
  intros Hre. assert (Forall rereads (P ++ C)) as Hall.
  { destruct H2 as (dropped & E & _). simpl in E. eapply sublist_Forall in Hsub; [|exact Hre]. rewrite E in Hsub.
    by apply Forall_app in Hsub as [_ ?]. }
  assert (same_counts (registry st) (accept_all default_metrics (P ++ C)).1) as Hcounts.
  { etrans; [by apply history_counts|]. symmetry. by apply accept_all_counts; [apply rereads_all|]. }
  split; [done|]. intros Hc1 Hs Hfit. destruct (H4 Hc1 Hs) as (-> & st1 & -> & Hst1). exists st1. split; [done|].
  assert (P ++ C = (accept_all default_metrics stream).2) as Eall.
  { destruct H2 as (dropped & E & Hd). simpl in E. destruct Hd as [-> |Hd]; [done|]. exfalso. rewrite E, !log_length_app in Hfit.
    unfold log_length in *. lia. }
  pose proof (accept_all_again stream default_metrics default_metrics ltac:(reflexivity)) as Hagain.
  assert (Forall received_ok stream) as Hrec by (eapply Forall_impl; [exact Hin|]; by intros r [[] _]).
  rewrite Eall in Hcounts. pose proof (fun m r => accepted_again_refused stream m r Hrec) as Hrefuse.
  destruct (accept_all default_metrics stream) as [n taken]. simpl in *. destruct Hagain as [Hag _].
  assert (same_counts (registry st) n) as Hn by (etrans; [exact Hcounts|by apply history_counts]).
  split; [etrans; [exact Hn|symmetry; by apply history_counts]|]. intros Hlen r Hr. by apply Hrefuse.
Qed.
End Restart.

(** * Witness: two events, and calls that fail from the write of the second one on *)

Module Example.
Definition torn_disk : FileSystem := {| call_fails n := if (12 <=? n)%nat then Some 1%nat else None; euid := 1000; umask := 0 |}.
Definition calm_disk : FileSystem := {| call_fails n := None; euid := 1000; umask := 0 |}.

Definition toy_record (sequence : Z) : TelemetryRecord :=
  demo_record sequence 0 (if sequence =? 0 then "phase_completed" else "operation_completed") "success".
Definition toy_json_read (bytes : list Z) : option TelemetryRecord :=
  match bytes with [b] => Some (toy_record b) | _ => None end.
Definition toy_received_json (r : Received) : option (list Z) :=
  Some (replicate (S (Z.to_nat (rec_sequence (received_record r) mod 8))) 65).
(** A reader that is not exact: every duration is read as one second. *)
Definition toy_read_received (line : list Z) : option Received :=
  Some (retimed (mk_received 1000 7 0 (toy_record (Z.of_nat (length line) - 1))) (f64_of_Z 1)).

#[export] Instance toy_event_json : EventJsonLaws toy_json_read toy_read_received toy_received_json.
Proof.
  split.
  - intros [|b [|? ?]] record E; simplify_eq/=. by unfold uint.
  - intros line r [= <-]. split; by unfold uint.
  - intros bytes record uid pid at_ms _ _ _ _. eexists. split; [reflexivity|]. split_and!; [done| |].
    + intros Hin. by apply elem_of_replicate in Hin as [? _].
    + rewrite length_replicate. simpl. assert (0 <= rec_sequence record mod 8 < 8) by (apply Z.mod_pos_bound; lia).
      unfold MAX_LINE. lia.
Qed.

Definition toy_input (b : Z) : Input := mk_input (Datagram [b] false [Credentials 1000 7]) None 0 None 0.
Definition toy_dir : option Metadata := Some (mk_metadata true 1000 1000 448).
Definition toy_received (b : Z) : Received := mk_received 1000 7 0 (toy_record b).

(** The daemon on two events, and its restart. *)
Definition toy_run (fs : FileSystem) : option Daemon * Disk :=
  events (H := fs) (fun _ => "x") (fun _ => true) (fun _ => "0") toy_json_read toy_read_received toy_received_json [115]
    ["client:1000"] toy_dir toy_dir 0 [toy_input 0; toy_input 1] (mk_disk ∅ 0).
Definition toy_restart (fs : FileSystem) : option Daemon * Disk :=
  startup (H := calm_disk) (fun _ => true) toy_read_received [115] toy_dir toy_dir 0 (mk_disk (entries (toy_run fs).2) 0).

Lemma toy_stream : omap (incoming toy_json_read [("client", 1000)]) [toy_input 0; toy_input 1] = [toy_received 0; toy_received 1].
Proof. vm_compute. reflexivity. Qed.

Lemma toy_rereads : Forall (rereads toy_read_received toy_received_json) [toy_received 0; toy_received 1].
Proof.
  repeat constructor; (eexists; split; [vm_compute; reflexivity|]); exists (f64_of_Z 1); split; vm_compute; reflexivity.
Qed.

(** A write that fails after one byte leaves a line and a tail, which the restart cuts off; without a failure,
    the restart counts what the daemon did and refuses both events. *)
Lemma event_log_restart_witness :
  (entry_bytes <$> entries (toy_run torn_disk).2 !! log_path [115] = Some [65; 10; 65] /\
   exists P C tail st, holds (FS := torn_disk) toy_received_json [115] (entries (toy_run torn_disk).2) P C tail /\
     (toy_restart torn_disk).1 = Some st /\ log_size st = log_length toy_received_json C) /\
  (exists st st1, (toy_restart calm_disk).1 = Some st /\ (toy_run calm_disk).1 = Some st1 /\
     same_counts (registry st) (registry st1) /\
     Forall (fun r => (accept (registry st) r).2 = false) [toy_received 0; toy_received 1]).
Proof.
  pose proof (fun fs Hu => event_log_restart (FS1 := fs) (FS2 := calm_disk) (fun _ => "x") (fun _ => true) (fun _ => "0")
    toy_json_read toy_read_received toy_received_json [115] toy_dir toy_dir ["client:1000"] [("client", 1000)] 0 0
    [toy_input 0; toy_input 1] ∅ Hu (fun _ => eq_refl)) as Hw. split.
  - split; [vm_compute; reflexivity|]. specialize (Hw torn_disk eq_refl ltac:(by split_and!) ltac:(by split_and!) eq_refl ltac:(by repeat constructor) eq_refl eq_refl).
    unfold toy_restart. change (events _ _ _ _ _ _ _ _ _ _ _ _ _) with (toy_run torn_disk) in Hw.
    destruct (toy_run torn_disk) as [o d]. destruct (startup _ _ _ _ _ _ _) as [o2 d2].
    destruct Hw as (P & C & tail & new & st & H1 & _ & _ & _ & _ & H2 & _ & H3 & _). exists P, C, tail, st. by split_and!.
  - specialize (Hw calm_disk eq_refl ltac:(by split_and!) ltac:(by split_and!) eq_refl ltac:(by repeat constructor) eq_refl eq_refl).
    unfold toy_restart. change (events _ _ _ _ _ _ _ _ _ _ _ _ _) with (toy_run calm_disk) in Hw. rewrite toy_stream in Hw.
    destruct (toy_run calm_disk) as [o d]. destruct (startup _ _ _ _ _ _ _) as [o2 d2].
    destruct Hw as (P & C & tail & new & st & _ & _ & _ & _ & Hnew & H2 & _ & _ & _ & H5).
    assert (Forall steady [toy_input 0; toy_input 1]) as Hs by (apply Forall_cons; split; [done|]; apply Forall_singleton; done).
    specialize (Hnew (fun _ => eq_refl) Hs). destruct (H5 toy_rereads) as [_ H6].
    assert (new = [toy_received 0; toy_received 1]) as En by (rewrite Hnew; vm_compute; reflexivity). rewrite En in H6.
    destruct (H6 (fun _ => eq_refl) Hs ltac:(by vm_compute)) as (st1 & -> & Hc & Hr).
    exists st, st1. split_and!; [done|done|done|]. apply Forall_forall. intros r Hin. by apply Hr; [vm_compute|].
Defined.
End Example.
