(* ===== verification/SnapshotReader.v ===== *)
(** The collector's reader of metrics snapshots: [snapshot], [wait_ready], [read_snapshot] and [sample_role] of
    [leelo-collector/src/linux.rs]. The answers of the socket calls and the clock are functions of the number of
    clock readings before them; the parser of [f64] is a parameter. *)
From stdpp Require Import base list gmap strings pretty.
From Stdlib Require Import ZArith Lia SpecFloat.
From S2P Require Import Prelude Float64 Text Telemetry Collector Reconcile KeyFile EventDaemon.

Open Scope Z_scope.

Definition SNAPSHOT_LIMIT : nat := 64 * 1024.
Definition SNAPSHOT_DEADLINE : Z := 250 * 1000000.

(** * Text *)

Definition char (n : nat) : Ascii.ascii := Ascii.ascii_of_nat n.
Definition SPACE : Ascii.ascii := char 32.
Definition QUOTE : Ascii.ascii := char 34.
Definition COMMA : Ascii.ascii := char 44.
Definition EQUALS : Ascii.ascii := char 61.
Definition CLOSE_BRACE : Ascii.ascii := char 125.

(** [str::rsplit_once], [strip_prefix], [strip_suffix] and [split] with a character. *)
Fixpoint rsplit_once (c : Ascii.ascii) (s : string) : option (string * string) :=
  match s with
  | EmptyString => None
  | String a s =>
      match rsplit_once c s with
      | Some (before, after) => Some (String a before, after)
      | None => if Ascii.eqb a c then Some (EmptyString, s) else None
      end
  end.

Definition strip_prefix (c : Ascii.ascii) (s : string) : option string :=
  match s with
  | String a s => if Ascii.eqb a c then Some s else None
  | EmptyString => None
  end.

Fixpoint strip_suffix (c : Ascii.ascii) (s : string) : option string :=
  match s with
  | EmptyString => None
  | String a EmptyString => if Ascii.eqb a c then Some EmptyString else None
  | String a s => String a <$> strip_suffix c s
  end.

Fixpoint split_char (c : Ascii.ascii) (s : string) : list string :=
  match s with
  | EmptyString => [EmptyString]
  | String a s =>
      if Ascii.eqb a c then EmptyString :: split_char c s
      else match split_char c s with
           | word :: words => String a word :: words
           | [] => [String a EmptyString]
           end
  end.

(** [str::from_utf8]: continuation bytes, and the bounds of the first one after some leading bytes. *)
Definition continuation (b : Z) : bool := (128 <=? b) && (b <=? 191).

Definition leading (b : Z) : option (nat * Z * Z) :=
  if (194 <=? b) && (b <=? 223) then Some (1%nat, 128, 191)
  else if b =? 224 then Some (2%nat, 160, 191)
  else if b =? 237 then Some (2%nat, 128, 159)
  else if (225 <=? b) && (b <=? 239) then Some (2%nat, 128, 191)
  else if b =? 240 then Some (3%nat, 144, 191)
  else if (241 <=? b) && (b <=? 243) then Some (3%nat, 128, 191)
  else if b =? 244 then Some (3%nat, 128, 143)
  else None.

(** [pending] continuation bytes are due, the next of them between [low] and [high]. *)
Fixpoint utf8_from (pending : nat) (low high : Z) (bytes : list Z) : bool :=
  match bytes, pending with
  | [], O => true
  | [], S _ => false
  | b :: bytes, O =>
      if b <? 128 then utf8_from 0 128 191 bytes
      else match leading b with
           | Some (n, low, high) => utf8_from n low high bytes
           | None => false
           end
  | b :: bytes, S n => (low <=? b) && (b <=? high) && utf8_from n 128 191 bytes
  end.

Definition from_utf8 (bytes : list Z) : bool := utf8_from 0 128 191 bytes.

(** [text.lines()] of a text that ends with a newline: a carriage return before it is not part of the line. *)
Definition strip_return (line : list Z) : list Z :=
  match last line with
  | Some 13 => take (length line - 1) line
  | _ => line
  end.

Definition lines (bytes : list Z) : list string :=
  map (fun line => text_of (strip_return line)) (split_lines (take (length bytes - 1) bytes)).

(** * [sample_role] *)

Definition STAGES : list string :=
  ["connection"; "tls"; "http"; "validation"; "ipc"; "worker"; "crypto"; "listener_retry"; "snapshot"].
Definition OUTCOMES : list string :=
  ["success"; "cancelled"; "timeout"; "protocol_error"; "invalid_headers"; "invalid_body"; "invalid_frame";
   "wrong_key"; "invalid_point"; "randomness_failure"; "crypto_failure"; "connect_error"; "write_error";
   "read_error"; "refused"; "unexpected_eof"; "io_error"; "not_found"; "method_not_allowed"; "unavailable";
   "other_error"].
Definition BOUNDS : list string :=
  ["0.001"; "0.005"; "0.01"; "0.025"; "0.05"; "0.1"; "0.25"; "0.5"; "1"; "2"; "5"; "10"; "+Inf"].

Definition parse_label (field : string) : option (string * string) :=
  match split_once EQUALS field with
  | None => None
  | Some (name, value) =>
      match strip_prefix QUOTE value with
      | None => None
      | Some value => pair name <$> strip_suffix QUOTE value
      end
  end.

(** [collect::<Option<_>>()] *)
Fixpoint parse_labels (fields : list string) : option (list (string * string)) :=
  match fields with
  | [] => Some []
  | field :: fields =>
      match parse_label field with
      | None => None
      | Some l => cons l <$> parse_labels fields
      end
  end.

Definition role_of (labels : list (string * string)) : option string :=
  match labels with
  | (name, value) :: _ => if String.eqb name "role" && contains ["frontend"; "worker"] value then Some value else None
  | [] => None
  end.

(** The match on the series name and the labels after the role. *)
Definition series_valid (name : string) (labels : list (string * string)) : bool :=
  match labels with
  | [] => contains ["leelo_inflight"; "leelo_concurrency_limit"; "leelo_listener_retrying"] name
  | [(label1, value1)] =>
      (contains ["leelo_telemetry_dropped_total"; "leelo_telemetry_suppressed_total"] name &&
       String.eqb label1 "signal" && String.eqb value1 "events") ||
      (String.eqb name "leelo_connections_total" && String.eqb label1 "admission" &&
       contains ["admitted"; "capacity_rejected"; "peer_rejected"; "peer_check_error"] value1) ||
      (contains ["leelo_server_stage_duration_seconds_count"; "leelo_server_stage_duration_seconds_sum"] name &&
       String.eqb label1 "stage" && contains STAGES value1) ||
      (String.eqb name "leelo_http_responses_total" && String.eqb label1 "status" &&
       contains ["200"; "400"; "404"; "405"; "503"; "0"] value1) ||
      (String.eqb name "leelo_accept_errors_total" && String.eqb label1 "class" &&
       contains ["interrupted"; "resource"; "network"; "other"] value1) ||
      (String.eqb name "leelo_snapshot_connections_total" && String.eqb label1 "outcome" &&
       contains ["served"; "peer_rejected"; "peer_check_error"; "capacity_rejected"; "write_error"; "timeout";
                 "listener_error"] value1)
  | [(label1, value1); (label2, value2)] =>
      (String.eqb name "leelo_server_stage_completions_total" && String.eqb label1 "stage" && String.eqb label2 "outcome" &&
       contains STAGES value1 && contains OUTCOMES value2) ||
      (String.eqb name "leelo_server_stage_duration_seconds_bucket" && String.eqb label1 "stage" && String.eqb label2 "le" &&
       contains STAGES value1 && contains BOUNDS value2)
  | _ => false
  end.

(** The role of a series key. *)
Definition key_role (key : string) : option string :=
  match split_once OPEN_BRACE key with
  | None => None
  | Some (name, labels) =>
      match strip_suffix CLOSE_BRACE labels with
      | None => None
      | Some labels =>
          match parse_labels (split_char COMMA labels) with
          | None => None
          | Some labels =>
              match role_of labels with
              | None => None
              | Some role => if series_valid name (tail labels) then Some role else None
              end
          end
      end
  end.

Section Samples.
Context (parse_f64 : string -> option f64).

Definition value_ok (value : string) : bool :=
  match parse_f64 value with
  | Some value => is_finite value && f64_le (f64_of_Z 0) value
  | None => false
  end.

Definition sample_role (line : string) : option string :=
  match rsplit_once SPACE line with
  | None => None
  | Some (key, value) =>
      if (512 <? str_len key) || negb (value_ok value) then None else key_role key
  end.

(** The loop over the lines with the set of series seen so far. *)
Fixpoint check_lines (role : string) (series : list (option string)) (l : list string) : bool :=
  match l with
  | [] => true
  | line :: l =>
      if negb (bool_decide (sample_role line = Some role)) then false
      else
        let key := fst <$> rsplit_once SPACE line in
        if bool_decide (key ∈ series) then false else check_lines role (key :: series) l
  end.

Definition check_snapshot (role : string) (bytes : list Z) : bool :=
  from_utf8 bytes && negb (bool_decide (bytes = []) || negb (bool_decide (last bytes = Some 10))) &&
  check_lines role [] (lines bytes).
End Samples.

(** * Reading the socket *)

Inductive PollAnswer : Type := PollTimeout | PollReady | PollInterrupted | PollFailed.
Inductive ReadAnswer : Type := ReadBytes (bytes : list Z) | ReadWouldBlock | ReadInterrupted | ReadFailed.
Inductive ConnectAnswer : Type := ConnectedNow | ConnectInProgress | ConnectFailed.

(** What the socket answers, by the number of clock readings made before; [now] is the clock. *)
Record Socket : Type := mk_socket {
  now : nat -> Z;
  connects : ConnectAnswer;
  polls : nat -> PollAnswer;
  socket_error : bool;
  peer_credentials : option Z;
  reads : nat -> ReadAnswer;
}.

Section Reading.
Context (s : Socket) (deadline : Z).

(** [wait_ready] from the [n]-th reading of the clock: whether the socket is ready, and the next reading.
    [None] is a loop that has not ended yet. *)
Fixpoint wait_ready (fuel n : nat) : option (bool * nat) :=
  match fuel with
  | O => None
  | S fuel =>
      if deadline - now s n <=? 0 then Some (false, S n)
      else match polls s n with
           | PollTimeout => Some (false, S n)
           | PollReady => Some (true, S n)
           | PollInterrupted => wait_ready fuel (S n)
           | PollFailed => Some (false, S n)
           end
  end.

(** The loop of [read_snapshot]; a read fills at most 4096 bytes. *)
Fixpoint read_loop (fuel n : nat) (bytes : list Z) : option (option (list Z)) :=
  match fuel with
  | O => None
  | S fuel =>
      if deadline <=? now s n then Some None
      else match reads s n with
           | ReadBytes chunk =>
               let chunk := take 4096 chunk in
               if (length chunk =? 0)%nat then Some (Some bytes)
               else if (SNAPSHOT_LIMIT <? length bytes + length chunk)%nat then Some None
               else read_loop fuel (S n) (bytes ++ chunk)
           | ReadWouldBlock =>
               match wait_ready fuel (S n) with
               | None => None
               | Some (false, _) => Some None
               | Some (true, n) => read_loop fuel n bytes
               end
           | ReadInterrupted => read_loop fuel (S n) bytes
           | ReadFailed => Some None
           end
  end.

Definition connected (fuel n : nat) : option (option nat) :=
  match connects s with
  | ConnectedNow => Some (Some n)
  | ConnectInProgress =>
      match wait_ready fuel n with
      | None => None
      | Some (false, _) => Some None
      | Some (true, n) => if socket_error s then Some None else Some (Some n)
      end
  | ConnectFailed => Some None
  end.

Definition read_snapshot (fuel n : nat) (server_uid : Z) : option (option (list Z)) :=
  match connected fuel n with
  | None => None
  | Some None => Some None
  | Some (Some n) =>
      if bool_decide (peer_credentials s = Some server_uid) then read_loop fuel n [] else Some None
  end.
End Reading.

Inductive SnapshotRole : Type := FrontendRole | WorkerRole.
Definition as_str (role : SnapshotRole) : string :=
  match role with FrontendRole => "frontend" | WorkerRole => "worker" end.

Section Command.
Context `{FileSystem} (suffix : nat -> string) (parse_f64 : string -> option f64) (display_f64 : f64 -> string).

(** The line that is added to an accepted snapshot. *)
Definition timestamp_line (role : SnapshotRole) (clock : option Z) : string :=
  sample ("leelo_daemon_snapshot_timestamp_seconds{" +:+ label "role" (as_str role) +:+ "}")
    (millis display_f64 (default 0 (unix_time_ms clock))).

(** [snapshot], which writes [dir/name]; [None] is a read that has not ended yet. *)
Definition snapshot_command (s : Socket) (fuel : nat) (server_uid : Z) (role : SnapshotRole) (clock : option Z)
    (dir : path) (name : string) : option (Io unit) :=
  match read_snapshot s (now s 0 + SNAPSHOT_DEADLINE) fuel 1 server_uid with
  | None => None
  | Some None => Some refuse
  | Some (Some bytes) =>
      Some (if check_snapshot parse_f64 (as_str role) bytes
            then atomic_write suffix dir name (bytes ++ bytes_of_string (timestamp_line role clock))
            else refuse)
  end.
End Command.

(** * Termination and meaning of the reading loop *)

Section Ends.
Context (s : Socket) (deadline : Z) (last_reading : nat).
Hypothesis expires : forall n, (last_reading <= n)%nat -> deadline <= now s n.

Lemma wait_ready_ends fuel n :
  (last_reading - n < fuel)%nat -> exists r k, wait_ready s deadline fuel n = Some (r, k) /\ (n < k)%nat.
Proof.
  revert n. induction fuel as [|fuel IH]; intros n Hn; [lia|]. simpl.
  destruct (Z.leb_spec (deadline - now s n) 0) as [|Hlt]; [do 2 eexists; split; [done|lia]|].
  destruct (decide (last_reading <= n)%nat) as [Hle|Hle]; [specialize (expires n Hle); lia|].
  destruct (polls s n); try (do 2 eexists; split; [done|lia]).
  destruct (IH (S n)) as (r & k & -> & Hk); [lia|]. do 2 eexists; split; [done|lia].
Qed.

Lemma read_loop_ends fuel n bytes : (last_reading - n < fuel)%nat -> is_Some (read_loop s deadline fuel n bytes).
Proof.
  revert n bytes. induction fuel as [|fuel IH]; intros n bytes Hn; [lia|]. simpl.
  destruct (Z.leb_spec deadline (now s n)) as [|Hlt]; [by eexists|].
  destruct (decide (last_reading <= n)%nat) as [Hle|Hle]; [specialize (expires n Hle); lia|].
  destruct (reads s n) as [chunk| | |]; [|destruct (wait_ready_ends fuel (S n)) as ([] & k & -> & Hk); [lia| |]| |by eexists].
  - cbv zeta. destruct (_ =? 0)%nat; [by eexists|]. destruct (_ <? _)%nat; [by eexists|]. apply IH. lia.
  - apply IH. lia.
  - by eexists.
  - apply IH. lia.
Qed.

Lemma read_snapshot_ends fuel n server_uid :
  (last_reading - n < fuel)%nat -> is_Some (read_snapshot s deadline fuel n server_uid).
Proof.
  intros Hn. unfold read_snapshot, connected. destruct (connects s); [| |by eexists].
  - case_bool_decide; [by apply read_loop_ends|by eexists].
  - destruct (wait_ready_ends fuel n Hn) as ([] & k & -> & Hk); [|by eexists].
    destruct (socket_error s); [by eexists|]. case_bool_decide; [apply read_loop_ends; lia|by eexists].
Qed.
End Ends.

(** From the [n]-th reading on, the socket delivers these bytes and then its end, before the deadline. *)
Inductive delivers (s : Socket) (deadline : Z) : nat -> list Z -> Prop :=
| delivers_end n chunk :
    now s n < deadline -> reads s n = ReadBytes chunk -> chunk = [] -> delivers s deadline n []
| delivers_bytes n chunk rest :
    now s n < deadline -> reads s n = ReadBytes chunk -> chunk <> [] -> delivers s deadline (S n) rest ->
    delivers s deadline n (take 4096 chunk ++ rest)
| delivers_interrupted n rest :
    now s n < deadline -> reads s n = ReadInterrupted -> delivers s deadline (S n) rest -> delivers s deadline n rest
| delivers_waited n fuel k rest :
    now s n < deadline -> reads s n = ReadWouldBlock -> wait_ready s deadline fuel (S n) = Some (true, k) ->
    delivers s deadline k rest -> delivers s deadline n rest.

Section Delivery.
Context (s : Socket) (deadline : Z).

Lemma wait_ready_more fuel fuel' n r : (fuel <= fuel')%nat -> wait_ready s deadline fuel n = Some r -> wait_ready s deadline fuel' n = Some r.
Proof.
  revert fuel' n. induction fuel as [|fuel IH]; intros [|fuel'] n Hle; simpl; [done|done|lia|].
  destruct (_ <=? _); [done|]. destruct (polls s n); try done. apply IH. lia.
Qed.

Lemma read_loop_more fuel fuel' n bytes r :
  (fuel <= fuel')%nat -> read_loop s deadline fuel n bytes = Some r -> read_loop s deadline fuel' n bytes = Some r.
Proof.
  revert fuel' n bytes. induction fuel as [|fuel IH]; intros [|fuel'] n bytes Hle; simpl; [done|done|lia|].
  destruct (_ <=? _); [done|]. destruct (reads s n) as [chunk| | |]; [| |apply IH; lia|done].
  - cbv zeta. destruct (_ =? 0)%nat; [done|]. destruct (_ <? _)%nat; [done|]. apply IH. lia.
  - destruct (wait_ready s deadline fuel (S n)) as [[b k]|] eqn:Ew; [|done].
    rewrite (wait_ready_more fuel fuel' _ _ ltac:(lia) Ew). destruct b; [apply IH; lia|done].
Qed.

(** The loop returns bytes exactly when the socket delivers them within the limit. *)
Lemma take_chunk_nil (chunk : list Z) : (length (take 4096 chunk) =? 0)%nat = true <-> chunk = [].
Proof. rewrite Nat.eqb_eq, length_take. destruct chunk; [done|]. simpl length. split; [intros; exfalso; lia|done]. Qed.

Lemma read_loop_delivers fuel n bytes r :
  read_loop s deadline fuel n bytes = Some (Some r) ->
  exists rest, delivers s deadline n rest /\ r = bytes ++ rest /\ (length bytes <= SNAPSHOT_LIMIT -> length r <= SNAPSHOT_LIMIT)%nat.
Proof.
  revert n bytes. induction fuel as [|fuel IH]; intros n bytes; [done|]. cbn [read_loop].
  destruct (Z.leb_spec deadline (now s n)) as [|Hlt]; [done|]. destruct (reads s n) as [chunk| | |] eqn:Er; [| | |done].
  - cbv zeta. destruct (length (take 4096 chunk) =? 0)%nat eqn:E0.
    + intros [= <-]. apply take_chunk_nil in E0. exists []. rewrite app_nil_r. split_and!; [by econstructor|done|done].
    + destruct (Nat.ltb_spec SNAPSHOT_LIMIT (length bytes + length (take 4096 chunk))) as [|Hl]; [done|].
      intros (rest & Hd & -> & Hlen)%IH. exists (take 4096 chunk ++ rest). rewrite <- app_assoc in *. split_and!.
      * eapply delivers_bytes; [done|done| |done]. intros ->. done.
      * done.
      * intros _. apply Hlen. rewrite length_app. lia.
  - destruct (wait_ready s deadline fuel (S n)) as [[[] k]|] eqn:Ew; [|done|done].
    intros (rest & Hd & -> & Hlen)%IH. exists rest. split_and!; [by eapply delivers_waited|done|done].
  - intros (rest & Hd & -> & Hlen)%IH. exists rest. split_and!; [by eapply delivers_interrupted|done|done].
Qed.

Lemma delivers_read_loop n rest bytes :
  delivers s deadline n rest -> (length bytes + length rest <= SNAPSHOT_LIMIT)%nat ->
  exists fuel, read_loop s deadline fuel n bytes = Some (Some (bytes ++ rest)).
Proof.
  intros Hd. revert bytes. induction Hd as [n chunk Hn Hr Hc|n chunk rest Hn Hr Hc Hd IH|n rest Hn Hr Hd IH|n fuel k rest Hn Hr Hw Hd IH];
    intros bytes Hlen.
  - exists 1%nat. cbn [read_loop]. apply Z.leb_gt in Hn as ->. by rewrite Hr, Hc, app_nil_r.
  - rewrite length_app in Hlen. destruct (IH (bytes ++ take 4096 chunk)) as [fuel Hf]; [rewrite length_app; lia|].
    exists (S fuel). cbn [read_loop]. apply Z.leb_gt in Hn as ->. rewrite Hr. cbv zeta.
    destruct (length (take 4096 chunk) =? 0)%nat eqn:E0; [by apply take_chunk_nil in E0|].
    destruct (Nat.ltb_spec SNAPSHOT_LIMIT (length bytes + length (take 4096 chunk))); [lia|]. by rewrite Hf, <- app_assoc.
  - destruct (IH bytes Hlen) as [fuel Hf]. exists (S fuel). cbn [read_loop]. apply Z.leb_gt in Hn as ->. by rewrite Hr.
  - destruct (IH bytes Hlen) as [fuel2 Hf]. exists (S (fuel `max` fuel2)). cbn [read_loop]. apply Z.leb_gt in Hn as ->. rewrite Hr.
    rewrite (wait_ready_more fuel (fuel `max` fuel2) _ _ ltac:(lia) Hw). eapply read_loop_more; [|exact Hf]. lia.
Qed.
End Delivery.
