(* ===== verification/SnapshotSchema.v ===== *)
(** What the collector accepts and what the service writes: the series keys of an accepted snapshot are exactly
    a closed list, and the text of [Metrics::snapshot] is always accepted. *)
From stdpp Require Import base list gmap strings pretty.
From Stdlib Require Import ZArith Lia SpecFloat.
From S2P Require Import Prelude Float64 Text Telemetry Collector Reconcile KeyFile EventDaemon FileLogic EventLog SnapshotReader ServiceMetrics.

Open Scope Z_scope.

(** * Characters in text *)

#[local] Arguments String.append : simpl nomatch.

Fixpoint free (c : Ascii.ascii) (s : string) : bool :=
  match s with
  | EmptyString => true
  | String a s => negb (Ascii.eqb a c) && free c s
  end.

Lemma append_assoc (a b c : string) : (a +:+ b) +:+ c = a +:+ b +:+ c.
Proof. induction a as [|x a IH]; [done|]. cbn. by rewrite IH. Qed.
Lemma append_nil (a : string) : a +:+ EmptyString = a.
Proof. induction a as [|x a IH]; [done|]. cbn. by rewrite IH. Qed.
Lemma append_cons x (a b : string) : String x a +:+ b = String x (a +:+ b).
Proof. done. Qed.

Lemma free_append c a b : free c (a +:+ b) = free c a && free c b.
Proof. induction a as [|x a IH]; [done|]. cbn. by rewrite IH, andb_assoc. Qed.

Lemma bytes_append a b : bytes_of_string (a +:+ b) = bytes_of_string a ++ bytes_of_string b.
Proof. induction a as [|x a IH]; [done|]. cbn. by rewrite IH. Qed.

Lemma free_byte c s : free c s = true <-> Z.of_nat (Ascii.nat_of_ascii c) ∉ bytes_of_string s.
Proof.
  induction s as [|a s IH]; simpl; [by split; [intros; apply not_elem_of_nil|]|].
  rewrite andb_true_iff, IH, not_elem_of_cons, negb_true_iff, Ascii.eqb_neq. split; intros [H1 H2]; split; try done.
  - intros E. apply H1. rewrite <- (Ascii.ascii_nat_embedding a), <- (Ascii.ascii_nat_embedding c). f_equal. lia.
  - by intros ->.
Qed.

(** [split_once], [rsplit_once], the strips and [split] undo concatenation, and nothing else. *)
Lemma split_once_spec c s before after :
  split_once c s = Some (before, after) <-> s = before +:+ String c after /\ free c before = true.
Proof.
  revert before. induction s as [|a s IH]; intros before; simpl.
  { split; [done|]. intros [E _]. by destruct before. }
  destruct (Ascii.eqb_spec a c) as [->|Hne].
  - split; [by intros [= <- <-]|]. intros [E Hf]. destruct before as [|x before]; cbn in E; simplify_eq; [done|].
    cbn in Hf. by rewrite Ascii.eqb_refl in Hf.
  - destruct (split_once c s) as [[b' a']|] eqn:E.
    + split.
      * intros [= <- <-]. destruct (proj1 (IH b')) as [-> Hf]; [done|]. cbn. split; [done|].
        rewrite Hf, andb_true_r. by apply negb_true_iff, Ascii.eqb_neq.
      * intros [Es Hf]. destruct before as [|x before]; cbn in Es; simplify_eq. cbn in Hf. apply andb_prop in Hf as [_ Hf].
        assert (Some (b', a') = Some (before, after)) as Hsome by (by apply IH). by simplify_eq.
    + split; [done|]. intros [Es Hf]. destruct before as [|x before]; cbn in Es; simplify_eq.
      cbn in Hf. apply andb_prop in Hf as [_ Hf]. discriminate (proj2 (IH before) (conj eq_refl Hf)).
Qed.

Lemma rsplit_once_free c s : rsplit_once c s = None <-> free c s = true.
Proof.
  induction s as [|a s IH]; simpl; [done|]. destruct (rsplit_once c s) as [[b e]|].
  - split; [done|]. rewrite andb_true_iff, <- IH. by intros [_ ?].
  - rewrite (proj1 IH eq_refl), andb_true_r. by destruct (Ascii.eqb a c).
Qed.

Lemma rsplit_once_spec c s before after :
  rsplit_once c s = Some (before, after) <-> s = before +:+ String c after /\ free c after = true.
Proof.
  revert before. induction s as [|a s IH]; intros before; simpl.
  { split; [done|]. intros [E _]. by destruct before. }
  destruct (rsplit_once c s) as [[b' a']|] eqn:E.
  - split.
    + intros [= <- <-]. destruct (proj1 (IH b')) as [-> Hf]; done.
    + intros [Es Hf]. destruct before as [|x before]; cbn in Es; simplify_eq.
      * apply rsplit_once_free in Hf. by rewrite Hf in E.
      * assert (Some (b', a') = Some (before, after)) as Hsome by (by apply IH). by simplify_eq.
  - apply rsplit_once_free in E. split.
    + destruct (Ascii.eqb_spec a c) as [->|]; [|done]. by intros [= <- <-].
    + intros [Es Hf]. destruct before as [|x before]; cbn in Es; simplify_eq; [by rewrite Ascii.eqb_refl|].
      rewrite free_append in E. cbn in E. rewrite Ascii.eqb_refl, andb_false_r in E. done.
Qed.

Lemma strip_prefix_spec c s t : strip_prefix c s = Some t <-> s = String c t.
Proof. destruct s as [|a s]; simpl; [done|]. destruct (Ascii.eqb_spec a c) as [->|]; split; congruence. Qed.

Lemma strip_suffix_spec c s t : strip_suffix c s = Some t <-> s = t +:+ String c EmptyString.
Proof.
  revert t. induction s as [|a s IH]; intros t; simpl; [split; [done|by destruct t]|].
  destruct s as [|b s].
  - destruct (Ascii.eqb_spec a c) as [->|Hne]; (split; [by intros [= <-]|]); intros E; destruct t as [|x [|y t]]; cbn in E; by simplify_eq.
  - rewrite fmap_Some. setoid_rewrite IH. split.
    + intros (t' & E & ->). cbn. by rewrite E.
    + intros E. destruct t as [|x t]; cbn in E; simplify_eq. by exists t.
Qed.

(** Words joined by a character. *)
Fixpoint intercalate (c : Ascii.ascii) (words : list string) : string :=
  match words with
  | [] => EmptyString
  | [word] => word
  | word :: words => word +:+ String c (intercalate c words)
  end.

Lemma split_char_intercalate c s : intercalate c (split_char c s) = s /\ split_char c s <> [].
Proof.
  induction s as [|a s [IH Hne]]; simpl; [done|]. destruct (Ascii.eqb_spec a c) as [->|].
  - split; [|done]. destruct (split_char c s); [done|]. cbn in *. by rewrite IH.
  - destruct (split_char c s) as [|word words]; [done|]. split; [|done]. rewrite <- IH. by destruct words.
Qed.

(** * The schema *)

Definition stage_series (s : string) : list (string * list (string * string)) :=
  map (fun o => ("leelo_server_stage_completions_total", [("stage", s); ("outcome", o)])) OUTCOMES ++
  map (fun b => ("leelo_server_stage_duration_seconds_bucket", [("stage", s); ("le", b)])) BOUNDS ++
  [("leelo_server_stage_duration_seconds_count", [("stage", s)]); ("leelo_server_stage_duration_seconds_sum", [("stage", s)])].

(** Every series of a snapshot with its labels after the role, in the order they are written. *)
Definition schema : list (string * list (string * string)) :=
  [("leelo_telemetry_dropped_total", [("signal", "events")]); ("leelo_telemetry_suppressed_total", [("signal", "events")])] ++
  map (fun v => ("leelo_connections_total", [("admission", v)]))
    ["admitted"; "capacity_rejected"; "peer_rejected"; "peer_check_error"] ++
  [("leelo_inflight", []); ("leelo_concurrency_limit", [])] ++
  concat (map stage_series STAGES) ++
  map (fun v => ("leelo_http_responses_total", [("status", v)])) ["200"; "400"; "404"; "405"; "503"; "0"] ++
  map (fun v => ("leelo_accept_errors_total", [("class", v)])) ["interrupted"; "resource"; "network"; "other"] ++
  [("leelo_listener_retrying", [])] ++
  map (fun v => ("leelo_snapshot_connections_total", [("outcome", v)]))
    ["served"; "peer_rejected"; "peer_check_error"; "capacity_rejected"; "write_error"; "timeout"; "listener_error"].

Definition series_key (role : string) (sr : string * list (string * string)) : string :=
  sr.1 +:+ "{" +:+ intercalate COMMA (map (fun l => label l.1 l.2) (("role", role) :: sr.2)) +:+ "}".

Lemma stage_in_schema s sr : s ∈ STAGES -> sr ∈ stage_series s -> sr ∈ schema.
Proof.
  intros Hs Hsr. unfold schema. rewrite !elem_of_app. do 3 right. left.
  apply list_elem_of_In, in_concat. exists (stage_series s). split; [apply in_map; by apply list_elem_of_In|by apply list_elem_of_In].
Qed.

Lemma contains_In words s : contains words s = true -> s ∈ words.
Proof. apply contains_spec. Qed.

Ltac unpack :=
  repeat match goal with
  | H : _ && _ = true |- _ => apply andb_prop in H as [? H]
  | H : String.eqb _ _ = true |- _ => apply String.eqb_eq in H
  | H : contains _ _ = true |- _ => apply contains_In in H
  | H : _ /\ _ |- _ => destruct H
  end; subst.

(** The elements of a literal list, one goal each. *)
Ltac cases_of H := repeat (apply elem_of_cons in H as [-> |H]); try (exfalso; exact (not_elem_of_nil _ H)).

Lemma series_valid_schema name labels : series_valid name labels = true -> (name, labels) ∈ schema.
Proof.
  destruct labels as [|[l1 v1] [|[l2 v2] [|? ?]]]; cbv beta iota delta [series_valid]; [| | |done].
  - intros Hn. unpack. cases_of Hn; by apply (bool_decide_unpack _); vm_compute.
  - rewrite !orb_true_iff. intros [[[[[Hv|Hv]|Hv]|Hv]|Hv]|Hv]; unpack.
    + match goal with Hn : name ∈ _ |- _ => cases_of Hn; by apply (bool_decide_unpack _); vm_compute end.
    + unfold schema. rewrite !elem_of_app. right. left. by apply (list_elem_of_fmap_2 (fun v => ("leelo_connections_total", [("admission", v)]))).
    + eapply stage_in_schema; [done|]. unfold stage_series. rewrite !elem_of_app. right. right.
      match goal with Hn : name ∈ _ |- _ => cases_of Hn; [left|right; left] end.
    + unfold schema. rewrite !elem_of_app. do 4 right. left. by apply (list_elem_of_fmap_2 (fun v => ("leelo_http_responses_total", [("status", v)]))).
    + unfold schema. rewrite !elem_of_app. do 5 right. left. by apply (list_elem_of_fmap_2 (fun v => ("leelo_accept_errors_total", [("class", v)]))).
    + unfold schema. rewrite !elem_of_app. do 7 right. by apply (list_elem_of_fmap_2 (fun v => ("leelo_snapshot_connections_total", [("outcome", v)]))).
  - rewrite !orb_true_iff. intros [Hv|Hv]; unpack; (eapply stage_in_schema; [done|]); unfold stage_series; rewrite !elem_of_app.
    + left. by apply (list_elem_of_fmap_2 (fun o => ("leelo_server_stage_completions_total", [("stage", v1); ("outcome", o)]))).
    + right. left. by apply (list_elem_of_fmap_2 (fun b => ("leelo_server_stage_duration_seconds_bucket", [("stage", v1); ("le", b)]))).
Qed.

Lemma parse_label_spec field n v : parse_label field = Some (n, v) -> field = label n v.
Proof.
  unfold parse_label. destruct (split_once EQUALS field) as [[n' value]|] eqn:E; [|done]. apply split_once_spec in E as [-> _].
  destruct (strip_prefix QUOTE value) as [w|] eqn:E; [|done]. apply strip_prefix_spec in E as ->.
  intros (v' & E & [= -> ->])%fmap_Some. apply strip_suffix_spec in E as ->. done.
Qed.

Lemma parse_labels_spec fields labels : parse_labels fields = Some labels -> fields = map (fun l => label l.1 l.2) labels.
Proof.
  revert labels. induction fields as [|field fields IH]; intros labels; simpl; [by intros [= <-]|].
  destruct (parse_label field) as [[n v]|] eqn:E; [|done]. apply parse_label_spec in E as ->.
  intros (rest & E & ->)%fmap_Some. by rewrite (IH rest E).
Qed.

Lemma key_role_schema key role :
  key_role key = Some role -> role ∈ ["frontend"; "worker"] /\ exists sr, sr ∈ schema /\ key = series_key role sr.
Proof.
  unfold key_role. destruct (split_once OPEN_BRACE key) as [[name labels]|] eqn:E; [|done]. apply split_once_spec in E as [-> _].
  destruct (strip_suffix CLOSE_BRACE labels) as [inner|] eqn:E; [|done]. apply strip_suffix_spec in E as ->.
  destruct (parse_labels (split_char COMMA inner)) as [ls|] eqn:E; [|done]. apply parse_labels_spec in E.
  destruct (split_char_intercalate COMMA inner) as [Hin _]. rewrite E in Hin. subst inner.
  destruct ls as [|[n v] ls]; [done|]. unfold role_of. destruct (String.eqb n "role" && _) eqn:Er; [|done]. unpack.
  cbn [tail]. destruct (series_valid name ls) eqn:Ev; [|done]. intros [= <-]. split; [done|].
  exists (name, ls). split; [by apply series_valid_schema|]. reflexivity.
Qed.

Fixpoint distinct (l : list string) : bool :=
  match l with
  | [] => true
  | a :: l => negb (existsb (String.eqb a) l) && distinct l
  end.

Lemma distinct_NoDup l : distinct l = true -> NoDup l.
Proof.
  induction l as [|a l IH]; simpl; [constructor|]. intros [Ha Hl]%andb_prop. constructor; [|by apply IH].
  intros Hin. apply negb_true_iff in Ha. rewrite <- not_true_iff_false, existsb_exists in Ha. apply Ha.
  exists a. split; [by apply list_elem_of_In|apply String.eqb_refl].
Qed.

Definition key_ok (role key : string) : bool :=
  match key_role key with Some r => String.eqb r role | None => false end && (str_len key <=? 128) && free (char 10) key &&
  forallb (fun b => b <? 128) (bytes_of_string key).

(** Every key of the schema has its role and a permitted length, and no key occurs twice. *)
Lemma schema_keys_ok role :
  role ∈ ["frontend"; "worker"] ->
  forallb (key_ok role) (map (series_key role) schema) && distinct (map (series_key role) schema) = true.
Proof. intros Hr. cases_of Hr; by vm_compute. Qed.

Lemma key_ok_spec role key :
  key_ok role key = true ->
  key_role key = Some role /\ str_len key <= 128 /\ free (char 10) key = true /\ Forall (fun b => b < 128) (bytes_of_string key).
Proof.
  unfold key_ok. intros [[[Hr Hl]%andb_prop Hf]%andb_prop Ha]%andb_prop. apply Z.leb_le in Hl. split_and!; [|done|done|].
  - destruct (key_role key) as [r|]; [|done]. by apply String.eqb_eq in Hr as ->.
  - eapply forallb_Forall; [|exact Ha]. intros b. apply Z.ltb_lt.
Qed.

(** * Lines of samples *)

Definition sample_line (kv : string * string) : string := kv.1 +:+ String SPACE kv.2.
Definition render_samples (samples : list (string * string)) : string := concat_lines (map (fun kv => sample kv.1 kv.2) samples).

Section Check.
Context (parse_f64 : string -> option f64).

Definition good_sample (role : string) (kv : string * string) : Prop :=
  key_role kv.1 = Some role /\ str_len kv.1 <= 512 /\ value_ok parse_f64 kv.2 = true /\ free SPACE kv.2 = true.

Lemma rsplit_sample kv : free SPACE kv.2 = true -> rsplit_once SPACE (sample_line kv) = Some (kv.1, kv.2).
Proof. intros Hf. by apply rsplit_once_spec. Qed.

Lemma sample_role_spec role line :
  sample_role parse_f64 line = Some role <-> exists kv, line = sample_line kv /\ good_sample role kv.
Proof.
  unfold sample_role. split.
  - destruct (rsplit_once SPACE line) as [[k v]|] eqn:E; [|done]. apply rsplit_once_spec in E as [-> Hf].
    destruct (Z.ltb_spec 512 (str_len k)); [done|]. destruct (value_ok parse_f64 v) eqn:Ev; [|done]. simpl. intros Hr.
    exists (k, v). split; [done|]. by split_and!.
  - intros (kv & -> & Hr & Hl & Hv & Hf). rewrite rsplit_sample by done. rewrite Hv.
    destruct (Z.ltb_spec 512 (str_len kv.1)); [lia|done].
Qed.

(** The loop accepts exactly good samples with distinct keys. *)
Lemma check_lines_spec role seen_keys l :
  check_lines parse_f64 role seen_keys l = true <->
  exists samples, l = map sample_line samples /\ Forall (good_sample role) samples /\ NoDup (map fst samples) /\
    Forall (fun kv => Some kv.1 ∉ seen_keys) samples.
Proof.
  revert seen_keys. induction l as [|line l IH]; intros seen_keys; simpl.
  { split; [by exists []; repeat constructor|done]. }
  destruct (bool_decide (sample_role parse_f64 line = Some role)) eqn:Er; simpl negb; cbv iota.
  2: { apply bool_decide_eq_false in Er. split; [done|]. intros ([|kv samples] & E & F & _); simplify_eq/=.
       apply Forall_cons in F as [Hkv _]. exfalso. apply Er, sample_role_spec. by exists kv. }
  apply bool_decide_eq_true, sample_role_spec in Er as (kv & -> & Hkv). pose proof Hkv as (_ & _ & _ & Hf).
  rewrite (rsplit_sample kv) by done. simpl fmap. case_bool_decide as Hin.
  - split; [done|]. intros ([|kv' samples] & E & F & _ & Hs); simplify_eq/=.
    apply Forall_cons in F as [(_ & _ & _ & Hf') _], Hs as [Hs _]. exfalso.
    assert (Some (kv.1, kv.2) = Some (kv'.1, kv'.2)) as Heq by (rewrite <- !rsplit_sample by done; congruence).
    apply Hs. injection Heq as E1 _. by rewrite <- E1.
  - rewrite IH. split.
    + intros (samples & -> & F & Hnd & Hs). exists (kv :: samples). split_and!; [done|by constructor| |].
      * simpl. constructor; [|done]. intros (kv' & E & Hin')%list_elem_of_fmap. rewrite Forall_forall in Hs.
        apply (Hs kv' Hin'). rewrite <- E. left.
      * constructor; [done|]. eapply Forall_impl; [exact Hs|]. intros kv' Hn H2. apply Hn. by right.
    + intros ([|kv' samples] & E & F & Hnd & Hs); simplify_eq/=. apply Forall_cons in F as [(_ & _ & _ & Hf') F], Hs as [_ Hs].
      apply NoDup_cons in Hnd as [Hn Hnd].
      assert (Some (kv.1, kv.2) = Some (kv'.1, kv'.2)) as Heq by (rewrite <- !rsplit_sample by done; congruence).
      exists samples. split_and!; [done|done|done|]. apply Forall_forall. intros kv2 Hk2 [E2|H2]%elem_of_cons.
      * apply Hn. assert (kv'.1 = kv2.1) as -> by congruence. by apply list_elem_of_fmap_2.
      * rewrite Forall_forall in Hs. by apply (Hs kv2 Hk2).
Qed.
End Check.

(** * Values *)

Definition plain_byte (b : Z) : bool := is_ascii_digit b || (b =? 46).

(** A written value: digits and points, at most 32 of them. *)
Definition plain_value (v : string) : Prop :=
  v <> EmptyString /\ forallb plain_byte (bytes_of_string v) = true /\ (String.length v <= 32)%nat.

Lemma pretty_go_plain x s :
  forallb plain_byte (bytes_of_string s) = true -> forallb plain_byte (bytes_of_string (pretty_N_go x s)) = true.
Proof.
  revert s. induction (N.lt_wf_0 x) as [x _ IH]; intros s Hs.
  destruct (decide (0 < x)%N) as [Hx|Hx]; [|replace x with 0%N by lia; by rewrite pretty_N_go_0].
  rewrite pretty_N_go_step by done. apply IH; [by apply N.div_lt|]. simpl. rewrite Hs, andb_true_r.
  unfold pretty_N_char. by repeat case_match.
Qed.

Lemma pretty_go_length k x s :
  (x < 10 ^ N.of_nat k)%N -> (String.length (pretty_N_go x s) <= k + String.length s)%nat.
Proof.
  revert x s. induction k as [|k IH]; intros x s Hx.
  { replace x with 0%N by (simpl in Hx; lia). by rewrite pretty_N_go_0. }
  destruct (decide (0 < x)%N) as [H0|H0]; [|replace x with 0%N by lia; rewrite pretty_N_go_0; lia].
  rewrite pretty_N_go_step by done. etrans; [apply IH|simpl; lia].
  apply N.Div0.div_lt_upper_bound. by rewrite <- N.pow_succ_r', <- Nat2N.inj_succ.
Qed.

Lemma pretty_go_nonempty x s : s <> EmptyString -> pretty_N_go x s <> EmptyString.
Proof.
  revert s. induction (N.lt_wf_0 x) as [x _ IH]; intros s Hs.
  destruct (decide (0 < x)%N) as [Hx|Hx]; [|replace x with 0%N by lia; by rewrite pretty_N_go_0].
  rewrite pretty_N_go_step by done. apply IH; [by apply N.div_lt|done].
Qed.

Lemma display_u64_plain n : u64 n -> plain_value (display_u64 n).
Proof.
  intros [H1 H2]. unfold display_u64, pretty, pretty_N. case_decide as H0; [by split_and!; [| |simpl; lia]|].
  split_and!.
  - rewrite pretty_N_go_step by lia. by apply pretty_go_nonempty.
  - by apply pretty_go_plain.
  - etrans; [apply (pretty_go_length 20)|simpl; lia]. change (10 ^ N.of_nat 20)%N with 100000000000000000000%N. lia.
Qed.

(** * The samples of a snapshot *)

Lemma concat_lines_app a b : concat_lines (a ++ b) = concat_lines a +:+ concat_lines b.
Proof. induction a as [|x a IH]; simpl; [done|]. unfold concat_lines in *. simpl. by rewrite IH, append_assoc. Qed.

Lemma render_samples_app a b : render_samples (a ++ b) = render_samples a +:+ render_samples b.
Proof. unfold render_samples. by rewrite map_app, concat_lines_app. Qed.

Lemma render_samples_one k v : sample k v = render_samples [(k, v)].
Proof. unfold render_samples. simpl. unfold concat_lines. simpl. by rewrite append_nil. Qed.

Lemma render_samples_map {A} (k v : A -> string) l :
  concat_lines (map (fun a => sample (k a) (v a)) l) = render_samples (map (fun a => (k a, v a)) l).
Proof. unfold render_samples. by rewrite map_map. Qed.

Section Snapshot.
Context {Path Socket : Type} (display_f64_9 : f64 -> string).
Implicit Types m : ServiceMetrics.Metrics Path Socket.

Definition bucket_key (role : string) (s : ServiceStage.Stage) (bound : string) : string :=
  "leelo_server_stage_duration_seconds_bucket{" +:+ stage_labels role s +:+ "," +:+ label "le" bound +:+ "}".

(** The counts that are written for the buckets. *)
Fixpoint totals (counts : list Z) (count : Z) : list Z :=
  match counts with
  | [] => []
  | c :: counts => saturating_add 64 count c :: totals counts (saturating_add 64 count c)
  end.

Lemma totals_length counts count : length (totals counts count) = length counts.
Proof. revert count. induction counts as [|c counts IH]; intros count; simpl; [done|]. by rewrite IH. Qed.

Lemma render_buckets_samples role s bounds counts count :
  length bounds = length counts ->
  render_buckets role s bounds counts count =
  (render_samples (zip (map (bucket_key role s) bounds) (map display_u64 (totals counts count))),
   default count (last (totals counts count))).
Proof.
  revert counts count. induction bounds as [|b bounds IH]; intros [|c counts] count Hl; simplify_eq/=; [done|].
  rewrite IH by done. f_equal. rewrite last_cons. by destruct (last (totals counts (saturating_add 64 count c))).
Qed.

Definition stage_samples m (role : string) (s : ServiceStage.Stage) : list (string * string) :=
  map (fun o => ("leelo_server_stage_completions_total{" +:+ stage_labels role s +:+ "," +:+ label "outcome" (Outcome.name o) +:+ "}",
                 cell (nth (ServiceStage.index s) (completions m) []) (Outcome.index o))) Outcome.ALL ++
  zip (map (bucket_key role s) (BUCKET_LABELS ++ ["+Inf"])) (map display_u64 (totals (nth (ServiceStage.index s) (durations m) []) 0)) ++
  [("leelo_server_stage_duration_seconds_count{" +:+ stage_labels role s +:+ "}",
    display_u64 (default 0 (last (totals (nth (ServiceStage.index s) (durations m) []) 0))));
   ("leelo_server_stage_duration_seconds_sum{" +:+ stage_labels role s +:+ "}",
    display_f64_9 (f64_div (f64_of_Z (nth (ServiceStage.index s) (duration_sum m) 0)) (f64_of_Z 1000000000)))].

Definition status_samples m (role : string) : list (string * string) :=
  imap (fun i status => ("leelo_http_responses_total{" +:+ label "role" role +:+ "," +:+ label "status" (display_u64 status) +:+ "}",
                         cell (statuses m) i)) STATUSES.

Definition snapshot_samples m : list (string * string) :=
  let role := role_name (ServiceMetrics.role m) in
  [("leelo_telemetry_dropped_total{" +:+ label "role" role +:+ "," +:+ label "signal" "events" +:+ "}",
    display_u64 (em_dropped (ServiceMetrics.events m)))] ++
  [("leelo_telemetry_suppressed_total{" +:+ label "role" role +:+ "," +:+ label "signal" "events" +:+ "}",
    display_u64 (suppressed_events m))] ++
  map (fun a => ("leelo_connections_total{" +:+ label "role" role +:+ "," +:+ label "admission" (Admission.name a) +:+ "}",
                 cell (admissions m) (Admission.index a))) Admission.ALL ++
  [("leelo_inflight{" +:+ label "role" role +:+ "}", display_u64 (inflight m))] ++
  [("leelo_concurrency_limit{" +:+ label "role" role +:+ "}", display_u64 (limit m))] ++
  concat (map (stage_samples m role) ServiceStage.ALL) ++
  status_samples m role ++
  map (fun c => ("leelo_accept_errors_total{" +:+ label "role" role +:+ "," +:+ label "class" (AcceptClass.name c) +:+ "}",
                 cell (accept_errors m) (AcceptClass.index c))) AcceptClass.ALL ++
  [("leelo_listener_retrying{" +:+ label "role" role +:+ "}", display_u64 (retrying m))] ++
  map (fun o => ("leelo_snapshot_connections_total{" +:+ label "role" role +:+ "," +:+ label "outcome" (SnapshotOutcome.name o) +:+ "}",
                 cell (snapshots m) (SnapshotOutcome.index o))) SnapshotOutcome.ALL.

(** The types of the fields: arrays of fixed length of 64-bit counters. *)
Record metrics_typed m : Prop := mk_metrics_typed {
  typed_scalars : Forall u64 [em_dropped (ServiceMetrics.events m); suppressed_events m; inflight m; limit m; retrying m];
  typed_cells : Forall u64 (admissions m ++ statuses m ++ accept_errors m ++ snapshots m ++ duration_sum m);
  typed_completions : Forall (Forall u64) (completions m);
  typed_durations : Forall (fun row => Forall u64 row /\ length row = (length BUCKETS_NS + 1)%nat) (durations m);
  typed_stages : length (durations m) = length ServiceStage.ALL;
}.

Lemma duration_row m s :
  metrics_typed m -> Forall u64 (nth (ServiceStage.index s) (durations m) []) /\
  length (nth (ServiceStage.index s) (durations m) []) = length (BUCKET_LABELS ++ ["+Inf"]).
Proof.
  intros [_ _ _ Hd Hs]. rewrite Forall_forall in Hd. apply Hd, list_elem_of_In, nth_In. rewrite Hs. destruct s; simpl; lia.
Qed.

Lemma render_stage_samples m role s :
  metrics_typed m -> render_stage display_f64_9 m role s = render_samples (stage_samples m role s).
Proof.
  intros Ht. destruct (duration_row m s Ht) as [_ Hl]. unfold render_stage, stage_samples.
  rewrite render_buckets_samples by done. rewrite !render_samples_app, <- render_samples_map. do 2 f_equal.
  rewrite render_samples_one, render_samples_one, <- render_samples_app. done.
Qed.

Lemma render_stages m role l :
  metrics_typed m -> concat_lines (map (render_stage display_f64_9 m role) l) = render_samples (concat (map (stage_samples m role) l)).
Proof.
  intros Ht. induction l as [|s l IH]; [done|].
  change (render_stage display_f64_9 m role s +:+ concat_lines (map (render_stage display_f64_9 m role) l) =
    render_samples (stage_samples m role s ++ concat (map (stage_samples m role) l))).
  by rewrite render_samples_app, <- IH, render_stage_samples.
Qed.

Lemma render_statuses_samples m role : render_statuses m role = render_samples (status_samples m role).
Proof. unfold render_statuses, status_samples, render_samples. f_equal. Qed.

Lemma snapshot_render m : metrics_typed m -> ServiceMetrics.snapshot display_f64_9 m = render_samples (snapshot_samples m).
Proof.
  intros Ht. unfold ServiceMetrics.snapshot, snapshot_samples. cbv zeta. set (role := role_name _).
  rewrite (render_stages m role ServiceStage.ALL Ht), render_statuses_samples, !render_samples_app, <- !render_samples_map.
  rewrite <- !render_samples_one. reflexivity.
Qed.

(** ** Keys *)

(** The keys alone, which do not depend on the counters. *)
Definition stage_keys (role : string) (s : ServiceStage.Stage) : list string :=
  map (fun o => "leelo_server_stage_completions_total{" +:+ stage_labels role s +:+ "," +:+ label "outcome" (Outcome.name o) +:+ "}")
    Outcome.ALL ++
  map (bucket_key role s) (BUCKET_LABELS ++ ["+Inf"]) ++
  ["leelo_server_stage_duration_seconds_count{" +:+ stage_labels role s +:+ "}";
   "leelo_server_stage_duration_seconds_sum{" +:+ stage_labels role s +:+ "}"].

Lemma stage_samples_keys m role s : metrics_typed m -> map fst (stage_samples m role s) = stage_keys role s.
Proof.
  intros Ht. destruct (duration_row m s Ht) as [_ Hl]. unfold stage_samples, stage_keys. rewrite !map_app, map_map.
  do 2 f_equal. apply fst_zip. rewrite !length_map, totals_length. by rewrite Hl.
Qed.

Lemma stages_samples_keys m role l :
  metrics_typed m -> map fst (concat (map (stage_samples m role) l)) = concat (map (stage_keys role) l).
Proof.
  intros Ht. rewrite List.concat_map, map_map. f_equal. apply map_ext. intros s. by apply stage_samples_keys.
Qed.

Definition other_keys (role : string) (stages : list string) : list string :=
  ["leelo_telemetry_dropped_total{" +:+ label "role" role +:+ "," +:+ label "signal" "events" +:+ "}";
   "leelo_telemetry_suppressed_total{" +:+ label "role" role +:+ "," +:+ label "signal" "events" +:+ "}"] ++
  map (fun a => "leelo_connections_total{" +:+ label "role" role +:+ "," +:+ label "admission" (Admission.name a) +:+ "}") Admission.ALL ++
  ["leelo_inflight{" +:+ label "role" role +:+ "}"; "leelo_concurrency_limit{" +:+ label "role" role +:+ "}"] ++
  stages ++
  map (fun status => "leelo_http_responses_total{" +:+ label "role" role +:+ "," +:+ label "status" (display_u64 status) +:+ "}") STATUSES ++
  map (fun c => "leelo_accept_errors_total{" +:+ label "role" role +:+ "," +:+ label "class" (AcceptClass.name c) +:+ "}") AcceptClass.ALL ++
  ["leelo_listener_retrying{" +:+ label "role" role +:+ "}"] ++
  map (fun o => "leelo_snapshot_connections_total{" +:+ label "role" role +:+ "," +:+ label "outcome" (SnapshotOutcome.name o) +:+ "}")
    SnapshotOutcome.ALL.

Lemma snapshot_keys_schema role :
  role ∈ ["frontend"; "worker"] ->
  other_keys role (concat (map (stage_keys role) ServiceStage.ALL)) = map (series_key role) schema.
Proof. intros Hr. cases_of Hr; by vm_compute. Qed.

Lemma role_name_known r : role_name r ∈ ["frontend"; "worker"].
Proof. destruct r; [left|right; left]. Qed.

Lemma status_samples_keys m role :
  map fst (status_samples m role) =
  map (fun status => "leelo_http_responses_total{" +:+ label "role" role +:+ "," +:+ label "status" (display_u64 status) +:+ "}") STATUSES.
Proof. reflexivity. Qed.

Lemma snapshot_samples_keys m :
  metrics_typed m -> map fst (snapshot_samples m) = map (series_key (role_name (ServiceMetrics.role m))) schema.
Proof.
  intros Ht. rewrite <- (snapshot_keys_schema _ (role_name_known (ServiceMetrics.role m))).
  unfold snapshot_samples. cbv zeta. set (role := role_name _).
  rewrite !map_app, !map_map, stages_samples_keys, status_samples_keys by done. reflexivity.
Qed.

(** ** Values *)

Context (parse_f64 : string -> option f64).

(** The parser reads what the formatter writes as a finite value that is not negative, and the seconds are
    written with digits and a point. *)
Class SampleLaws : Prop := {
  sample_count : forall n, u64 n -> value_ok parse_f64 (display_u64 n) = true;
  sample_seconds : forall n, u64 n ->
    let v := display_f64_9 (f64_div (f64_of_Z n) (f64_of_Z 1000000000)) in value_ok parse_f64 v = true /\ plain_value v;
}.
Context `{!SampleLaws}.

Definition written_value (v : string) : Prop := value_ok parse_f64 v = true /\ plain_value v.

Lemma written_count n : u64 n -> written_value (display_u64 n).
Proof. intros Hn. split; [by apply sample_count|by apply display_u64_plain]. Qed.

Lemma nth_u64 l i : Forall u64 l -> u64 (nth i l 0).
Proof.
  intros F. destruct (Nat.lt_ge_cases i (length l)) as [Hi|Hi]; [|rewrite nth_overflow by done; by unfold uint].
  rewrite Forall_forall in F. apply F, list_elem_of_In. by apply nth_In.
Qed.

Lemma written_cell l i : Forall u64 l -> written_value (cell l i).
Proof. intros F. by apply written_count, nth_u64. Qed.

Lemma totals_u64 counts count : Forall u64 counts -> u64 count -> Forall u64 (totals counts count).
Proof.
  intros F. revert count. induction F as [|c counts Hc F IH]; intros count Hcount; simpl; [constructor|].
  assert (u64 (saturating_add 64 count c)) by (apply saturating_add_u64; [done|by destruct Hc]).
  constructor; [done|by apply IH].
Qed.

Lemma stage_samples_values m role s : metrics_typed m -> Forall (fun kv => written_value kv.2) (stage_samples m role s).
Proof.
  intros Ht. destruct (duration_row m s Ht) as [Hrow Hl]. pose proof Ht as [_ Hc Hcomp _ _].
  assert (Forall u64 (totals (nth (ServiceStage.index s) (durations m) []) 0)) as Htot by (apply totals_u64; [done|by unfold uint]).
  unfold stage_samples. rewrite !Forall_app. split_and!.
  - apply Forall_map, Forall_true. intros o. apply written_cell.
    destruct (Nat.lt_ge_cases (ServiceStage.index s) (length (completions m))) as [Hi|Hi]; [|rewrite nth_overflow by done; constructor].
    rewrite Forall_forall in Hcomp. apply Hcomp, list_elem_of_In. by apply nth_In.
  - apply Forall_forall. intros [k v] Hin. apply elem_of_zip_r in Hin. apply list_elem_of_fmap in Hin as (n & -> & Hn).
    rewrite Forall_forall in Htot. by apply written_count, Htot.
  - constructor; [|constructor; [|constructor]]; cbn [snd].
    + destruct (last _) as [n|] eqn:En; simpl; [|by apply written_count; unfold uint].
      apply last_Some in En as [l' El]. rewrite El, Forall_app in Htot. destruct Htot as [_ [Hn _]%Forall_cons]. by apply written_count.
    + apply sample_seconds, nth_u64. rewrite !Forall_app in Hc. tauto.
Qed.

Lemma snapshot_samples_values m : metrics_typed m -> Forall (fun kv => written_value kv.2) (snapshot_samples m).
Proof.
  intros Ht. pose proof Ht as [Hs Hc _ _ _]. rewrite !Forall_cons in Hs. destruct Hs as (S1 & S2 & S3 & S4 & S5 & _).
  rewrite !Forall_app in Hc. destruct Hc as (C1 & C2 & C3 & C4 & C5).
  unfold snapshot_samples. cbv zeta. rewrite !Forall_app. split_and!; try (constructor; [by apply written_count|constructor]).
  - apply Forall_map, Forall_true. intros a. by apply written_cell.
  - apply Forall_concat, Forall_map, Forall_true. intros s. by apply stage_samples_values.
  - unfold status_samples. repeat (constructor; [by apply written_cell|]). constructor.
  - apply Forall_map, Forall_true. intros a. by apply written_cell.
  - apply Forall_map, Forall_true. intros a. by apply written_cell.
Qed.
End Snapshot.

(** * Accepted texts *)

Lemma utf8_ascii bytes : Forall (fun b => b < 128) bytes -> from_utf8 bytes = true.
Proof.
  unfold from_utf8. induction 1 as [|b bytes Hb F IH]; [done|]. cbn [utf8_from]. by apply Z.ltb_lt in Hb as ->.
Qed.

Lemma split_body lines : Forall (fun line => 10 ∉ line) lines -> lines <> [] ->
  split_lines (take (length (unlines lines) - 1) (unlines lines)) = lines.
Proof.
  intros F Hne. destruct (unlines_last lines Hne) as [body E]. rewrite E, length_app. simpl length.
  replace (length body + 1 - 1)%nat with (length body) by lia. rewrite take_app_length.
  destruct (split_lines_spec body) as (E' & F' & _). rewrite <- E in E'. by apply unlines_inj.
Qed.

Lemma unlines_split bytes : last bytes = Some 10 -> bytes = unlines (split_lines (take (length bytes - 1) bytes)).
Proof.
  intros [body ->]%last_Some. rewrite length_app. simpl length. replace (length body + 1 - 1)%nat with (length body) by lia.
  rewrite take_app_length. by destruct (split_lines_spec body) as (-> & _).
Qed.

Lemma bytes_sample_line kv : bytes_of_string (sample_line kv) = bytes_of_string kv.1 ++ 32 :: bytes_of_string kv.2.
Proof. unfold sample_line. by rewrite bytes_append. Qed.

Lemma render_samples_bytes samples :
  bytes_of_string (render_samples samples) = unlines (map (fun kv => bytes_of_string (sample_line kv)) samples).
Proof.
  induction samples as [|kv samples IH]; [done|].
  change (render_samples (kv :: samples)) with (sample kv.1 kv.2 +:+ render_samples samples).
  rewrite bytes_append, IH. simpl unlines. rewrite bytes_sample_line. unfold sample. rewrite !bytes_append.
  rewrite <- !app_assoc. done.
Qed.

Lemma plain_bytes v b : plain_value v -> b ∈ bytes_of_string v -> 46 <= b <= 57.
Proof.
  intros (_ & Hp & _) Hb. rewrite forallb_forall in Hp. apply list_elem_of_In in Hb. apply Hp in Hb.
  unfold plain_byte, is_ascii_digit in Hb. lia.
Qed.

Lemma plain_free v c : plain_value v -> (Ascii.nat_of_ascii c < 46)%nat -> free c v = true.
Proof. intros Hv Hc. apply free_byte. intros Hin. apply (plain_bytes v _ Hv) in Hin. lia. Qed.

Lemma strip_return_plain a v : plain_value v -> strip_return (a ++ 32 :: bytes_of_string v) = a ++ 32 :: bytes_of_string v.
Proof.
  intros Hv. unfold strip_return. destruct (last (a ++ 32 :: bytes_of_string v)) as [b|] eqn:E; [|done].
  assert (b = 32 \/ 46 <= b <= 57) as Hb.
  { rewrite last_app, last_cons in E. destruct (last (bytes_of_string v)) as [c|] eqn:El; [|left; congruence].
    right. assert (c = b) as -> by congruence. apply (plain_bytes v); [done|]. apply last_Some in El as [l ->]. apply elem_of_app. right. left. }
  destruct b as [|p|p]; [done| |done]. do 4 (destruct p as [p|p|]; try done); lia.
Qed.

Section Accepted.
Context {Path Socket : Type} (display_f64_9 : f64 -> string) (parse_f64 : string -> option f64).
Context `{!SampleLaws display_f64_9 parse_f64}.

Lemma samples_accepted role samples :
  samples <> [] -> Forall (fun kv => key_ok role kv.1 = true /\ written_value parse_f64 kv.2) samples -> NoDup (map fst samples) ->
  check_snapshot parse_f64 role (bytes_of_string (render_samples samples)) = true.
Proof.
  intros Hne F Hnd. unfold check_snapshot. rewrite render_samples_bytes.
  set (raw := map (fun kv => bytes_of_string (sample_line kv)) samples).
  assert (raw <> []) as Hraw by (by destruct samples).
  assert (Forall (fun line => 10 ∉ line /\ Forall (fun b => b < 128) line) raw) as Hlines.
  { apply Forall_map. eapply Forall_impl; [exact F|]. intros kv [Hk [_ Hv]]. apply key_ok_spec in Hk as (_ & _ & Hf & Ha).
    simpl. rewrite bytes_sample_line. split.
    - rewrite not_elem_of_app, not_elem_of_cons. split_and!; [by apply (free_byte (char 10))|done|].
      intros Hin. apply (plain_bytes _ _ Hv) in Hin. lia.
    - apply Forall_app. split; [done|]. constructor; [lia|]. apply Forall_forall. intros b Hb. apply (plain_bytes _ _ Hv) in Hb. lia. }
  rewrite utf8_ascii.
  2: { clear -Hlines. induction raw as [|line raw IH]; simpl; [constructor|]. apply Forall_cons in Hlines as [[_ Ha] Hl].
       apply Forall_app. split; [done|]. constructor; [lia|by apply IH]. }
  destruct (unlines_last raw Hraw) as [body Eb]. rewrite (bool_decide_eq_false_2 (unlines raw = [])) by (rewrite Eb; by destruct body).
  rewrite (bool_decide_eq_true_2 (last (unlines raw) = Some 10)) by (by rewrite Eb, last_snoc). simpl andb.
  apply check_lines_spec. exists samples. split_and!; [| |done|].
  - unfold lines. rewrite split_body; [|eapply Forall_impl; [exact Hlines|]; by intros ? []|done]. unfold raw. rewrite map_map.
    apply map_ext_in. intros kv Hkv%list_elem_of_In. rewrite Forall_forall in F. destruct (F kv Hkv) as [_ [_ Hv]].
    by rewrite bytes_sample_line, strip_return_plain, <- bytes_sample_line, text_of_bytes.
  - eapply Forall_impl; [exact F|]. intros kv [Hk [Hok Hv]]. apply key_ok_spec in Hk as (Hr & Hl & _).
    split_and!; [done|lia|done|]. apply plain_free; [done|]. vm_compute. lia.
  - apply Forall_true. intros kv. apply not_elem_of_nil.
Qed.

(** The samples of a snapshot are accepted and within the limit. *)
Lemma snapshot_samples_ok (m : ServiceMetrics.Metrics Path Socket) :
  metrics_typed m ->
  Forall (fun kv => key_ok (role_name (ServiceMetrics.role m)) kv.1 = true /\ written_value parse_f64 kv.2)
    (snapshot_samples display_f64_9 m) /\ NoDup (map fst (snapshot_samples display_f64_9 m)).
Proof.
  intros Ht. pose proof (snapshot_samples_keys display_f64_9 m Ht) as Hk.
  pose proof (schema_keys_ok _ (role_name_known (ServiceMetrics.role m))) as Hok. apply andb_prop in Hok as [Hall Hd].
  rewrite <- Hk in Hall, Hd. split; [|by apply distinct_NoDup].
  pose proof (snapshot_samples_values display_f64_9 parse_f64 m Ht) as Hv. rewrite Forall_forall in Hv. apply Forall_forall. intros kv Hkv.
  split; [|by apply Hv]. rewrite forallb_forall in Hall. by apply Hall, in_map, list_elem_of_In.
Qed.

Lemma render_samples_length samples :
  Forall (fun kv => str_len kv.1 <= 128 /\ (String.length kv.2 <= 32)%nat) samples ->
  (length (bytes_of_string (render_samples samples)) <= length samples * 162)%nat.
Proof.
  intros F. rewrite render_samples_bytes. induction F as [|kv samples [Hk Hv] F IH]; simpl; [lia|].
  rewrite length_app, bytes_sample_line, length_app. simpl. rewrite (str_len_bytes kv.1) in Hk.
  pose proof (str_len_bytes kv.2) as E. unfold str_len in E. lia.
Qed.

Lemma schema_size : length schema = 350%nat.
Proof. by vm_compute. Qed.

Lemma snapshot_accepted_within (m : ServiceMetrics.Metrics Path Socket) :
  metrics_typed m ->
  let bytes := bytes_of_string (ServiceMetrics.snapshot display_f64_9 m) in
  check_snapshot parse_f64 (role_name (ServiceMetrics.role m)) bytes = true /\ (length bytes <= SNAPSHOT_LIMIT)%nat.
Proof.
  intros Ht bytes. subst bytes. rewrite (snapshot_render display_f64_9 m Ht).
  destruct (snapshot_samples_ok m Ht) as [Hs Hnd]. split; [apply samples_accepted; [done|done|done]|].
  etrans; [apply render_samples_length|].
  - eapply Forall_impl; [exact Hs|]. intros kv [(_ & Hl & _)%key_ok_spec [_ (_ & _ & Hv)]]. done.
  - rewrite <- (length_map fst), (snapshot_samples_keys display_f64_9 m Ht), length_map, schema_size. unfold SNAPSHOT_LIMIT. lia.
Qed.

(** An accepted text is lines of distinct series of the schema with finite values that are not negative. *)
Lemma accepted_schema role bytes :
  check_snapshot parse_f64 role bytes = true ->
  exists raw samples, bytes = unlines raw /\ map (fun line => text_of (strip_return line)) raw = map sample_line samples /\
    NoDup (map fst samples) /\
    Forall (fun kv => (exists sr, sr ∈ schema /\ kv.1 = series_key role sr) /\ value_ok parse_f64 kv.2 = true) samples.
Proof.
  unfold check_snapshot. intros [[_ Hend]%andb_prop Hc]%andb_prop. apply negb_true_iff, orb_false_iff in Hend as [_ Hend].
  apply negb_false_iff, bool_decide_eq_true in Hend. apply check_lines_spec in Hc as (samples & E & F & Hnd & _).
  eexists _, samples. split_and!; [by apply unlines_split|exact E|done|].
  eapply Forall_impl; [exact F|]. intros kv (Hr & _ & Hv & _). split; [|done]. by apply key_role_schema in Hr as [_ ?].
Qed.
End Accepted.
