(* ===== verification/SnapshotServe.v ===== *)
(** The snapshot listener of the evaluation service, [leelod/src/snapshot.rs]: its setup, admission of one
    user's scrapes, and the bounded write of a snapshot; and the way of a snapshot to the collector's file. *)
From stdpp Require Import base list gmap strings.
From Stdlib Require Import ZArith Lia SpecFloat.
From S2P Require Import Prelude Policy Float64 Text Telemetry Collector Reconcile KeyFile EventDaemon FileLogic Providers EventLog SnapshotReader ServiceMetrics SnapshotSchema Service.

Open Scope Z_scope.

Definition SCRAPERS : nat := 2.
Definition LISTENER_PAUSE : Z := 100 * 1000000.

(** * Sockets *)

(** What the kernel answers about directories. *)
Class Directories : Type := directory : path -> option Metadata.

Section Sockets.
Context `{FileSystem} `{Directories}.

Definition symlink_metadata (p : path) : Io Metadata :=
  match directory p with
  | Some info => _ ← system_call; mret info
  | None => refuse
  end.

(** [UnixListener::bind]: a new name, which is not a regular file. *)
Definition bind_listener (p : path) : Io unit := fun d =>
  if bool_decide (is_Some (entries d !! p)) then (None, d)
  else call (fun m => <[p := mk_entry [] (Z.land 511 (Z.lnot umask)) euid false false false]> m) untouched d.
End Sockets.

(** The disk, with the groups that [chown] has given to files and directories. *)
Record Owned : Type := mk_owned { own_disk : Disk; own_groups : gmap path Z }.

Definition Fs (A : Type) : Type := Owned -> option A * Owned.
#[export] Instance Fs_ret : MRet Fs := fun A a w => (Some a, w).
#[export] Instance Fs_bind : MBind Fs := fun A B f m w =>
  match m w with (Some a, w) => f a w | (None, w) => (None, w) end.

Definition fs_give {A} (o : option A) : Fs A := fun w => (o, w).
Definition on_files {A} (m : Io A) : Fs A := fun w =>
  let '(o, d) := m (own_disk w) in (o, mk_owned d (own_groups w)).

(** * Setup *)

Record Monitoring : Type := mk_monitoring { metrics_socket : option path; metrics_uid : option Z; metrics_gid : option Z }.

Section Setup.
Context `{FileSystem} `{Directories}.

(** [chown(path, None, Some(gid))] *)
Definition set_group (p : path) (gid : Z) : Fs unit := fun w =>
  (Some tt, mk_owned (own_disk w) (<[p := gid]> (own_groups w))).
Definition chown (p : path) (gid : Z) : Fs unit := _ ← on_files system_call; set_group p gid.

Definition validate_uid (uid : Z) (evaluator_uid : option Z) : bool :=
  negb ((uid =? euid) || bool_decide (Some uid = evaluator_uid)).

(** A directory of the process's user that nobody else can write. *)
Definition own_directory (info : Metadata) : bool :=
  negb (negb (meta_dir info) || negb (meta_uid info =? euid) || negb (Z.land (meta_mode info) 18 =? 0)).

Definition validate_directory (p : path) : Io Metadata :=
  metadata ← symlink_metadata p; if own_directory metadata then mret metadata else refuse.

(** [start]: the user the exporter serves, or none without a socket. *)
Definition start_exporter (options : Monitoring) (evaluator_uid : option Z) : Fs (option Z) :=
  match metrics_socket options with
  | None => mret None
  | Some p =>
      uid ← fs_give (metrics_uid options);
      if negb (validate_uid uid evaluator_uid) then fs_give None
      else
        parent ← fs_give (path_parent p);
        parent_metadata ← on_files (validate_directory parent);
        let gid := default (meta_gid parent_metadata) (metrics_gid options) in
        _ ← (if bool_decide (is_Some (metrics_gid options)) then chown parent gid else mret tt);
        _ ← on_files (bind_listener p);
        _ ← chown p gid;
        _ ← on_files (set_permissions p 432);
        mret (Some uid)
  end.
End Setup.

#[export] Instance SnapshotOutcome_eq_dec : EqDecision SnapshotOutcome.SnapshotOutcome.
Proof. solve_decision. Defined.

#[export] Instance snapshot_outcome_enumerated :
  Enumerated SnapshotOutcome.SnapshotOutcome SnapshotOutcome.ALL SnapshotOutcome.index.
Proof.
  intros i a. split; [|intros ->; by destruct a]. do 7 (destruct i as [|i]; [by intros [= <-]|]). done.
Qed.

(** * Serving *)

(** A scrape, once polled with its timer and the text it writes. *)
Record Scrape : Type := mk_scrape { scrape_conn : Conn; scrape_started : option (Timer * string) }.

(** How an accept ended: with which connection, and what was put on it of which text. *)
Record ScrapeFate : Type := mk_fate {
  fate_outcome : SnapshotOutcome.SnapshotOutcome;
  fate_conn : option Conn;
  fate_sent : list Z;
  fate_text : option string;
}.

Inductive ScrapeMove : Type :=
| ScrapeAccepts (conn : Conn)
| ScrapeAcceptFails
| ScrapePolls (i : nat)
| ScrapeEnds (i : nat).

Section Serve.
Context {Path Socket R : Type} `{Kernel Path Socket} (display_f64_9 : f64 -> string).
Abbreviation node := (Node Path Socket R).

Record Exporter : Type := mk_exporter {
  exporter_node : node;
  exporter_pool : Pool Scrape;
  exporter_log : list ScrapeFate;
}.

Definition count_snapshot (o : SnapshotOutcome.SnapshotOutcome) (n : node) : node := on_metrics (fun m => snapshot_outcome m o) n.

(** [bounded_write], whose deadline cuts a stalled write. *)
Definition bounded_write (conn : Conn) (bytes : list Z) (n : node) : result Outcome.Outcome unit * list Z * node :=
  let '(r, w) := (_ ← write_all conn bytes tt; shutdown conn tt) (mk_work n fresh_stream) in
  (match r with
   | Some (Ok _) => Ok tt
   | Some (Err _) => Err Outcome.Write
   | None => Err Outcome.Timeout
   end, stream_sent (work_stream w), work_node w).

(** [send] from its bounded write on. *)
Definition send_outcome (r : result Outcome.Outcome unit) : SnapshotOutcome.SnapshotOutcome * Outcome.Outcome :=
  match r with
  | Ok _ => (SnapshotOutcome.Served, Outcome.Success)
  | Err Outcome.Timeout => (SnapshotOutcome.Timeout, Outcome.Timeout)
  | Err _ => (SnapshotOutcome.Write, Outcome.Write)
  end.

Definition refuse_scrape (s : Exporter) (o : SnapshotOutcome.SnapshotOutcome) (conn : Conn) : Exporter :=
  mk_exporter (count_snapshot o (exporter_node s)) (exporter_pool s) (exporter_log s ++ [mk_fate o (Some conn) [] None]).

Definition accept_scrape (uid : Z) (s : Exporter) (conn : Conn) : Exporter :=
  match peer_uid conn with
  | Some peer =>
      if peer =? uid then
        match try_acquire (exporter_pool s) (mk_scrape conn None) with
        | None => refuse_scrape s SnapshotOutcome.Capacity conn
        | Some pool => mk_exporter (exporter_node s) pool (exporter_log s)
        end
      else refuse_scrape s SnapshotOutcome.Peer conn
  | None => refuse_scrape s SnapshotOutcome.PeerCheck conn
  end.

Definition accept_fails (s : Exporter) : Exporter :=
  mk_exporter (sleep LISTENER_PAUSE (emit_event "snapshot_listener_failed" "snapshot" "failure" "listener_error"
                 (count_snapshot SnapshotOutcome.Listener (exporter_node s))))
    (exporter_pool s) (exporter_log s ++ [mk_fate SnapshotOutcome.Listener None [] None]).

(** The spawned task starts its timer and takes the snapshot before it awaits. *)
Definition poll_scrape (s : Exporter) (i : nat) : Exporter :=
  match running (exporter_pool s) !! i with
  | Some (mk_scrape conn None) =>
      let '(t, n) := start_timer ServiceStage.Snapshot (exporter_node s) in
      let text := ServiceMetrics.snapshot display_f64_9 (node_metrics n) in
      mk_exporter n (mk_pool (permits (exporter_pool s)) (<[i := mk_scrape conn (Some (t, text))]> (running (exporter_pool s))))
        (exporter_log s)
  | _ => s
  end.

Definition end_scrape (s : Exporter) (i : nat) : Exporter :=
  match running (exporter_pool s) !! i with
  | Some (mk_scrape conn (Some (t, text))) =>
      let '(r, sent, n) := bounded_write conn (bytes_of_string text) (exporter_node s) in
      let '(counter, outcome) := send_outcome r in
      mk_exporter (finish_timer t outcome (count_snapshot counter n)) (release (exporter_pool s) i)
        (exporter_log s ++ [mk_fate counter (Some conn) sent (Some text)])
  | _ => s
  end.

Definition scrape_step (uid : Z) (s : Exporter) (m : ScrapeMove) : Exporter :=
  match m with
  | ScrapeAccepts conn => accept_scrape uid s conn
  | ScrapeAcceptFails => accept_fails s
  | ScrapePolls i => poll_scrape s i
  | ScrapeEnds i => end_scrape s i
  end.

Definition snapshot_serve (uid : Z) (n : node) (moves : list ScrapeMove) : Exporter :=
  fold_left (scrape_step uid) moves (mk_exporter n (new_pool SCRAPERS) []).
End Serve.
Arguments Exporter Path Socket R : clear implicits.

(** * Scrapes are bounded, admitted and counted *)

Section Scrapes.
Context {Path Socket R : Type} `{Kernel Path Socket} (display_f64_9 : f64 -> string) (uid : Z).
Abbreviation node := (Node Path Socket R).
Abbreviation exporter := (Exporter Path Socket R).

Definition snapshot_text (text : string) : Prop :=
  exists m : ServiceMetrics.Metrics Path Socket, text = ServiceMetrics.snapshot display_f64_9 m.

(** What a connection got is what its outcome says. *)
Definition scrape_ok (f : ScrapeFate) : Prop :=
  match fate_outcome f, fate_conn f with
  | SnapshotOutcome.Served, Some conn =>
      peer_uid conn = Some uid /\ exists text, fate_text f = Some text /\ snapshot_text text /\ fate_sent f = bytes_of_string text
  | (SnapshotOutcome.Write | SnapshotOutcome.Timeout), Some conn =>
      peer_uid conn = Some uid /\
      exists text, fate_text f = Some text /\ snapshot_text text /\ fate_sent f `prefix_of` bytes_of_string text
  | SnapshotOutcome.Capacity, Some conn => peer_uid conn = Some uid /\ fate_sent f = []
  | SnapshotOutcome.Peer, Some conn => (exists other, peer_uid conn = Some other /\ other <> uid) /\ fate_sent f = []
  | SnapshotOutcome.PeerCheck, Some conn => peer_uid conn = None /\ fate_sent f = []
  | SnapshotOutcome.Listener, None => fate_sent f = []
  | _, _ => False
  end.

Definition scrapes_as (o : SnapshotOutcome.SnapshotOutcome) (log : list ScrapeFate) : nat :=
  length (List.filter (fun f => bool_decide (fate_outcome f = o)) log).

Record scraping (s : exporter) : Prop := mk_scraping {
  scraping_pool : pool_of SCRAPERS (exporter_pool s);
  scraping_peers : Forall (fun j => peer_uid (scrape_conn j) = Some uid /\
                             forall t text, scrape_started j = Some (t, text) -> snapshot_text text) (running (exporter_pool s));
  scraping_fates : Forall scrape_ok (exporter_log s);
  scraping_counts : snapshots (node_metrics (exporter_node s)) = map (fun o => Z.of_nat (scrapes_as o (exporter_log s))) SnapshotOutcome.ALL;
}.

Lemma scrapes_as_snoc o log f : scrapes_as o (log ++ [f]) = (scrapes_as o log + (if bool_decide (fate_outcome f = o) then 1 else 0))%nat.
Proof. unfold scrapes_as. rewrite List.filter_app, length_app. simpl. by case_bool_decide. Qed.

Lemma scrapes_as_length o log : (scrapes_as o log <= length log)%nat.
Proof. apply List.filter_length_le. Qed.

(** One more fate, counted once. *)
Lemma scraping_log (s : exporter) f n pool :
  scraping s -> scrape_ok f -> Z.of_nat (length (exporter_log s)) < 2 ^ 64 - 1 -> pool_of SCRAPERS pool ->
  (forall j, j ∈ running pool -> j ∈ running (exporter_pool s)) ->
  snapshots (node_metrics n) = alter (add 1) (SnapshotOutcome.index (fate_outcome f)) (snapshots (node_metrics (exporter_node s))) ->
  scraping (mk_exporter n pool (exporter_log s ++ [f])).
Proof.
  intros [Hp Hj Hf Hc] Hok Hlen Hpool Hsub Hn. split; cbn [exporter_pool exporter_log exporter_node]; [done| | |].
  - rewrite Forall_forall in Hj. apply Forall_forall. intros j Hin. by apply Hj, Hsub.
  - apply Forall_app. split; [done|]. by constructor.
  - rewrite Hn, Hc, (alter_enumerated SnapshotOutcome.ALL SnapshotOutcome.index). apply map_ext. intros o.
    rewrite scrapes_as_snoc. pose proof (scrapes_as_length o (exporter_log s)).
    rewrite (bool_decide_ext (fate_outcome f = o) (o = fate_outcome f)) by done.
    case_bool_decide; [rewrite add_one; lia|lia].
Qed.

Lemma bounded_write_sends conn bytes (n : node) :
  let '(r, sent, n') := bounded_write conn bytes n in
  n' = n /\ sent `prefix_of` bytes /\ (r = Ok tt -> sent = bytes) /\ (r = Ok tt \/ r = Err Outcome.Write \/ r = Err Outcome.Timeout).
Proof.
  unfold bounded_write, mbind, task_bind, shutdown, write_all. simpl.
  destruct (write_answers conn 0) as [|k stalled]; simpl.
  - destruct (write_answers conn 1) as [|k stalled]; simpl; rewrite ?take_nil, ?app_nil_r.
    + split_and!; [done|done|done|by left].
    + destruct stalled; split_and!; try done; tauto.
  - destruct stalled; (split_and!; [done|apply prefix_take|done|tauto]).
Qed.

Lemma snapshots_kept (n n' : node) : same_gauges n n' -> snapshots (node_metrics n') = snapshots (node_metrics n).
Proof. intros Hg. exact (f_equal (fun g => g.1.2) Hg). Qed.

Lemma scraping_step s m :
  scraping s -> Z.of_nat (length (exporter_log s)) < 2 ^ 64 - 1 -> scraping (scrape_step display_f64_9 uid s m).
Proof.
  intros Hs Hlen. pose proof Hs as [Hp Hj Hf Hc]. destruct m as [conn| |i|i]; simpl.
  - unfold accept_scrape, refuse_scrape. destruct (peer_uid conn) as [peer|] eqn:Ep; [destruct (Z.eqb_spec peer uid) as [->|Hne]|].
    + destruct (try_acquire _ _) as [pool|] eqn:Ea; [|by apply scraping_log].
      destruct (try_acquire_pool _ _ _ _ Hp Ea) as [Hp' Hr]. split; [done| |done|done]. cbn [exporter_pool]. rewrite Hr.
      apply Forall_app. split; [done|]. by constructor.
    + apply scraping_log; [done| |done|done|done|done]. split; [by exists peer|done].
    + by apply scraping_log.
  - apply scraping_log; [done|done|done|done|done|]. exact (snapshots_kept _ _ (emit_event_gauges _ _ _ _ _)).
  - unfold poll_scrape. destruct (running (exporter_pool s) !! i) as [[conn [|]]|] eqn:Ei; [done| |done]. simpl.
    split; cbn [exporter_pool exporter_log exporter_node]; [|..|done|done].
    + unfold pool_of in *. cbn [permits running]. by rewrite length_insert.
    + apply Forall_insert; [done|]. rewrite Forall_forall in Hj. destruct (Hj _ (list_elem_of_lookup_2 _ _ _ Ei)) as [Hpeer _].
      split; [done|]. intros t text [= _ <-]. by eexists.
  - unfold end_scrape. destruct (running (exporter_pool s) !! i) as [[conn [[t text]|]]|] eqn:Ei; [|done|done].
    pose proof (bounded_write_sends conn (bytes_of_string text) (exporter_node s)) as Hw.
    destruct (bounded_write _ _ _) as [[r sent] n]. destruct Hw as (-> & Hpre & Hall & Hcases).
    destruct (send_outcome r) as [counter outcome] eqn:Eo. rewrite Forall_forall in Hj.
    destruct (Hj _ (list_elem_of_lookup_2 _ _ _ Ei)) as [Hpeer Htext]. specialize (Htext t text eq_refl). cbn [scrape_conn] in Hpeer.
    apply scraping_log; [done| |done|by eapply release_pool| |].
    + destruct Hcases as [-> |[-> | ->]]; simplify_eq/=; (split; [done|]); exists text; split_and!; try done. by apply Hall.
    + intros j Hin. eapply elem_of_submseteq; [exact Hin|apply sublist_submseteq, sublist_delete].
    + exact (snapshots_kept _ _ (finish_timer_gauges t outcome _)).
Qed.

Lemma scrape_log_grows (s : exporter) m : (length (exporter_log (scrape_step display_f64_9 uid s m)) <= S (length (exporter_log s)))%nat.
Proof.
  destruct m as [conn| |i|i]; simpl.
  - unfold accept_scrape, refuse_scrape. repeat case_match; simpl; rewrite ?length_app; simpl; lia.
  - rewrite length_app. simpl. lia.
  - unfold poll_scrape. repeat case_match; simpl; lia.
  - unfold end_scrape. repeat case_match; simpl; rewrite ?length_app; simpl; lia.
Qed.

Lemma scraping_moves moves (s : exporter) :
  scraping s -> Z.of_nat (length (exporter_log s) + length moves) < 2 ^ 64 -> scraping (fold_left (scrape_step display_f64_9 uid) moves s).
Proof.
  revert s. induction moves as [|m moves IH]; intros s Hs Hlen; simpl; [done|]. simpl in Hlen.
  pose proof (scrape_log_grows s m). apply IH; [apply scraping_step; [done|lia]|lia].
Qed.

End Scrapes.

(** * Reasoning about the setup *)

Abbreviation files := (gmap path Entry * gmap path Z)%type.

Section Logic.
Context `{FileSystem} `{Directories}.

(** From the entries and groups [e], whatever calls were made before, [m] ends in [Q]. *)
Definition fwp {A : Type} (m : Fs A) (Q : option A -> files -> Prop) (e : files) : Prop :=
  forall t, let '(o, w) := m (mk_owned (mk_disk e.1 t) e.2) in Q o (entries (own_disk w), own_groups w).

Lemma fwp_ret {A : Type} (a : A) (Q : option A -> files -> Prop) (e : files) : Q (Some a) e -> fwp (mret a) Q e.
Proof. destruct e. by intros HQ t. Qed.
Lemma fwp_give {A : Type} (o : option A) (Q : option A -> files -> Prop) (e : files) : Q o e -> fwp (fs_give o) Q e.
Proof. destruct e. by intros HQ t. Qed.
Lemma fwp_bind {A B : Type} (m : Fs A) (f : A -> Fs B) (Q : option B -> files -> Prop) (e : files) :
  fwp m (fun o e' => match o with Some a => fwp (f a) Q e' | None => Q None e' end) e -> fwp (m ≫= f) Q e.
Proof.
  intros Hm t. specialize (Hm t). unfold mbind, Fs_bind. destruct (m _) as [[a|] [[e' t'] g']]; [|done]. exact (Hm t').
Qed.
Lemma fwp_on_files {A : Type} (m : Io A) (Q : option A -> files -> Prop) (e : files) :
  wp m (fun o e' => Q o (e', e.2)) e.1 -> fwp (on_files m) Q e.
Proof. intros Hm t. specialize (Hm t). unfold on_files. cbn [own_disk own_groups]. by destruct (m _). Qed.
Lemma fwp_chown (p : path) (gid : Z) (Q : option unit -> files -> Prop) (e : files) :
  Q (Some tt) (e.1, <[p := gid]> e.2) -> (~ calm -> Q None e) -> fwp (chown p gid) Q e.
Proof.
  intros H1 H2. destruct e as [e g]. apply fwp_bind, fwp_on_files, wp_system_call; [|done]. by intros t.
Qed.

(** The name of the socket. *)
Definition listening (mode : Z) : Entry := mk_entry [] mode euid false false false.

Lemma wp_bind_listener (p : path) (Q : option unit -> gmap path Entry -> Prop) (e : gmap path Entry) :
  (e !! p = None -> Q (Some tt) (<[p := listening (Z.land 511 (Z.lnot umask))]> e)) ->
  (is_Some (e !! p) \/ ~ calm -> Q None e) -> wp (bind_listener p) Q e.
Proof.
  intros Hyes Hno t. unfold bind_listener. cbn [entries]. case_bool_decide as Hx; [by apply Hno; left|]. apply eq_None_not_Some in Hx.
  apply (wp_call (fun m => <[p := listening (Z.land 511 (Z.lnot umask))]> m) untouched Q); [by apply Hyes|]. intros n Hc. by apply Hno; right.
Qed.

Lemma looks_symlink_metadata (e : gmap path Entry) (p : path) (Q : option Metadata -> Prop) :
  Q (directory p) -> (~ calm -> Q None) -> looks e (symlink_metadata p) Q.
Proof.
  intros Hyes Hno. unfold symlink_metadata. destruct (directory p); [|by apply wp_refuse].
  apply looks_bind, looks_system_call; [by apply wp_ret|done].
Qed.

(** What the setup has made of the disk when the exporter serves [uid]: a socket of mode 0660 at a free name in
    a directory of the process's own, with the collector's group, which the directory has too if it was
    configured. *)
Definition exporter_ready (options : Monitoring) (evaluator : option Z) (uid : Z) (e e' : files) : Prop :=
  exists p parent info, metrics_socket options = Some p /\ metrics_uid options = Some uid /\ uid <> euid /\ Some uid <> evaluator /\
    path_parent p = Some parent /\ directory parent = Some info /\ own_directory info = true /\ e.1 !! p = None /\
    e' = (<[p := listening 432]> e.1,
          match metrics_gid options with
          | Some gid => <[p := gid]> (<[parent := gid]> e.2)
          | None => <[p := meta_gid info]> e.2
          end).

(** No entry was changed, only the metrics socket was added, and only it and its directory changed their group. *)
Definition exporter_frame (options : Monitoring) (e e' : files) : Prop :=
  e.1 ⊆ e'.1 /\ (forall q, metrics_socket options <> Some q -> e'.1 !! q = e.1 !! q) /\
  (forall q, metrics_socket options <> Some q -> (metrics_socket options ≫= path_parent) <> Some q -> e'.2 !! q = e.2 !! q).

(** Whether the exporter can be set up. *)
Definition exportable (options : Monitoring) (evaluator : option Z) (e : gmap path Entry) : bool :=
  match metrics_socket options, metrics_uid options with
  | Some p, Some uid =>
      validate_uid uid evaluator && default false (own_directory <$> (path_parent p ≫= directory)) && bool_decide (e !! p = None)
  | _, _ => false
  end.

Lemma exporter_frame_refl (options : Monitoring) (e : files) : exporter_frame options e e.
Proof. by split_and!. Qed.

(** The group of the directory, then the socket, then its group and mode: each stays within the frame. *)
Lemma exporter_frame_parent (options : Monitoring) (p parent : path) (gid : Z) (e : files) :
  metrics_socket options = Some p -> path_parent p = Some parent -> exporter_frame options e (e.1, <[parent := gid]> e.2).
Proof.
  intros Hp Hpar. split_and!; [done|done|]. intros q _ Hq. cbn [snd]. rewrite Hp in Hq. cbn in Hq. rewrite Hpar in Hq.
  apply lookup_insert_ne. congruence.
Qed.
Lemma exporter_frame_socket (options : Monitoring) (p : path) (mode : Z) (e e' : files) (g : gmap path Z) :
  metrics_socket options = Some p -> exporter_frame options e e' -> e'.1 = e.1 -> e.1 !! p = None ->
  (forall q, q <> p -> g !! q = e'.2 !! q) -> exporter_frame options e (<[p := listening mode]> e.1, g).
Proof.
  intros Hp (_ & _ & Hg) He Hfree Hq. split_and!; cbn [fst snd].
  - by apply insert_subseteq.
  - intros q Hne. apply lookup_insert_ne. congruence.
  - intros q Hne Hpar. rewrite Hq by congruence. by apply Hg.
Qed.

Lemma exporter_ready_frame (options : Monitoring) (evaluator : option Z) (uid : Z) (e e' : files) :
  exporter_ready options evaluator uid e e' -> exporter_frame options e e'.
Proof.
  intros (p & parent & info & Hp & _ & _ & _ & Hpar & _ & _ & Hfree & ->). destruct (metrics_gid options) as [gid|].
  - apply (exporter_frame_socket options p 432 e (e.1, <[parent := gid]> e.2)); [done|by eapply exporter_frame_parent|done|done|].
    intros q Hq. by apply lookup_insert_ne.
  - apply (exporter_frame_socket options p 432 e e); [done|apply exporter_frame_refl|done|done|]. intros q Hq. by apply lookup_insert_ne.
Qed.

Lemma looks_validate_directory (e : gmap path Entry) (p : path) :
  looks e (validate_directory p) (fun o =>
    (forall info, o = Some info -> directory p = Some info /\ own_directory info = true) /\
    (o = None -> calm -> default false (own_directory <$> directory p) = false)).
Proof.
  unfold validate_directory. apply looks_bind, looks_symlink_metadata; [|done]. destruct (directory p) as [info|]; [|done].
  cbn. destruct (own_directory info) eqn:Ei; [|by apply wp_refuse]. apply wp_ret. split; [done|]. by split; [intros a [= <-]|].
Qed.

Lemma fwp_start_exporter (options : Monitoring) (evaluator : option Z) (e : files) :
  fwp (start_exporter options evaluator) (fun o e' =>
    match o with
    | Some None => metrics_socket options = None /\ e' = e
    | Some (Some uid) => exporter_ready options evaluator uid e e'
    | None => is_Some (metrics_socket options) /\ exporter_frame options e e' /\ (calm -> exportable options evaluator e.1 = false)
    end) e.
Proof.
  unfold start_exporter, exportable. destruct (metrics_socket options) as [p|] eqn:Ep; [|by apply fwp_ret].
  apply fwp_bind, fwp_give. destruct (metrics_uid options) as [uid|] eqn:Eu; [|by split_and!; [|apply exporter_frame_refl|]].
  destruct (validate_uid uid evaluator) eqn:Ev; cbn [negb andb]; [|apply fwp_give; by split_and!; [|apply exporter_frame_refl|]].
  apply fwp_bind, fwp_give. destruct (path_parent p) as [parent|] eqn:Epar; [|by split_and!; [|apply exporter_frame_refl|]].
  cbn [mbind option_bind]. apply fwp_bind, fwp_on_files. eapply wp_mono; [apply looks_validate_directory|].
  intros [info|] e1 [-> [Hinfo Hno]]; rewrite <- surjective_pairing.
  2: { split_and!; [done|apply exporter_frame_refl|]. intros Hc. by rewrite (Hno eq_refl Hc). }
  destruct (Hinfo info eq_refl) as [Hdir Hown]. rewrite Hdir. cbn [fmap option_fmap option_map default from_option id]. rewrite Hown. cbn [andb].
  set (gid := default (meta_gid info) (metrics_gid options)).
  set (g1 := match metrics_gid options with Some gid => <[parent := gid]> e.2 | None => e.2 end).
  assert (exporter_frame options e (e.1, g1)) as F1.
  { subst g1. destruct (metrics_gid options); [by eapply exporter_frame_parent|]. rewrite <- surjective_pairing. apply exporter_frame_refl. }
  assert (forall Q : option unit -> files -> Prop, Q (Some tt) (e.1, g1) -> (~ calm -> Q None e) ->
    fwp (if bool_decide (is_Some (metrics_gid options)) then chown parent gid else mret tt) Q e) as Hchown.
  { intros Q H1 H2. subst gid g1. destruct (metrics_gid options) as [gid|]; cbn; [by apply fwp_chown|].
    apply fwp_ret. by rewrite <- surjective_pairing in H1. }
  apply fwp_bind, Hchown; [|intros Hc; by split_and!; [|apply exporter_frame_refl|]].
  apply fwp_bind, fwp_on_files, wp_bind_listener; cbn [fst snd].
  2: { intros Hx. split_and!; [done|done|]. intros Hc. destruct Hx as [Hx|Hx]; [|done]. apply bool_decide_eq_false_2. intros E. rewrite E in Hx. by destruct Hx. }
  intros Hfree. assert (forall mode (g : gmap path Z), (forall q, q <> p -> g !! q = g1 !! q) ->
    exporter_frame options e (<[p := listening mode]> e.1, g)) as F2 by (intros; by eapply exporter_frame_socket).
  apply fwp_bind, fwp_chown; cbn [fst snd]; [|intros Hc; by split_and!; [|apply F2|]].
  apply fwp_bind, fwp_on_files, wp_call; cbn [fst snd].
  2: { intros n Hc. split_and!; [done| |done]. apply F2. intros q Hq. by apply lookup_insert_ne. }
  rewrite alter_insert_eq. apply fwp_ret.
  unfold validate_uid in Ev. apply negb_true_iff, orb_false_iff in Ev as [E1%Z.eqb_neq E2%bool_decide_eq_false].
  exists p, parent, info. split_and!; [done..|]. f_equal. subst gid g1. by destruct (metrics_gid options).
Qed.

Lemma start_exporter_checks options evaluator (w w' : Owned) uid :
  start_exporter options evaluator w = (Some (Some uid), w') ->
  exporter_ready options evaluator uid (entries (own_disk w), own_groups w) (entries (own_disk w'), own_groups w').
Proof.
  intros E. pose proof (fwp_start_exporter options evaluator (entries (own_disk w), own_groups w) (tries (own_disk w))) as Hw.
  destruct w as [[e t] g]. cbn in Hw. by rewrite E in Hw.
Qed.
End Logic.

(** The snapshot listener is started only for a user other than the service's and the evaluator's, on a new
    socket of mode 0660 in a directory of the service's own that others cannot write. In every sequence of
    accepts, polls and completions it serves at most two scrapes at a time, all of that user; a connection of
    anyone else gets no byte, a served one gets a whole snapshot and a failed one a prefix of it; and the outcome
    counters of the snapshot are the numbers of connections that ended so. *)
Theorem snapshot_serving `{FileSystem} `{Directories} {Path Socket R : Type} `{Kernel Path Socket} display_f64_9 options evaluator
    (w w' : Owned) uid emitter now role limit calls (rng : R) moves :
  start_exporter options evaluator w = (Some (Some uid), w') -> Z.of_nat (length moves) < 2 ^ 64 ->
  let s := snapshot_serve display_f64_9 uid (mk_node (new_metrics (Path := Path) (Socket := Socket) emitter now role limit) calls rng []) moves in
  exporter_ready options evaluator uid (entries (own_disk w), own_groups w) (entries (own_disk w'), own_groups w') /\
  (length (running (exporter_pool s)) <= 2)%nat /\
  Forall (fun j => peer_uid (scrape_conn j) = Some uid) (running (exporter_pool s)) /\
  Forall (scrape_ok (Path := Path) (Socket := Socket) display_f64_9 uid) (exporter_log s) /\
  snapshots (node_metrics (exporter_node s)) = map (fun o => Z.of_nat (scrapes_as o (exporter_log s))) SnapshotOutcome.ALL.
Proof.
  intros Hstart%start_exporter_checks Hlen s.
  assert (scraping display_f64_9 uid s) as [Hp Hj Hf Hc] by (by apply scraping_moves; [split; [done|constructor|constructor|done]|]).
  split_and!; [done| |..]; [|eapply Forall_impl; [exact Hj|]; by intros j []|done|done].
  unfold pool_of, SCRAPERS in Hp. lia.
Qed.

(** * From the socket to the file *)

Lemma connected_more s deadline fuel fuel' n r :
  (fuel <= fuel')%nat -> connected s deadline fuel n = Some r -> connected s deadline fuel' n = Some r.
Proof.
  intros Hle. unfold connected. destruct (connects s); [done| |done].
  destruct (wait_ready s deadline fuel n) as [[b k]|] eqn:Ew; [|done]. by rewrite (wait_ready_more s deadline fuel fuel' n _ Hle Ew).
Qed.

Lemma read_snapshot_more s deadline fuel fuel' n server_uid r :
  (fuel <= fuel')%nat -> read_snapshot s deadline fuel n server_uid = Some r -> read_snapshot s deadline fuel' n server_uid = Some r.
Proof.
  intros Hle. unfold read_snapshot. destruct (connected s deadline fuel n) as [c|] eqn:Ec; [|done].
  rewrite (connected_more s deadline fuel fuel' n c Hle Ec). destruct c as [k|]; [|done]. case_bool_decide; [|done].
  by apply read_loop_more.
Qed.

Lemma read_snapshot_sound s deadline fuel n server_uid bytes :
  read_snapshot s deadline fuel n server_uid = Some (Some bytes) ->
  peer_credentials s = Some server_uid /\ (exists k, delivers s deadline k bytes) /\ (length bytes <= SNAPSHOT_LIMIT)%nat.
Proof.
  unfold read_snapshot. destruct (connected s deadline fuel n) as [[k|]|]; [|done|done]. case_bool_decide as Hp; [|done].
  intros (rest & Hd & -> & Hl)%read_loop_delivers. simpl in *. split_and!; [done|by exists k|]. apply Hl. lia.
Qed.

(** Lines of distinct series of the schema with finite values that are not negative. *)
Definition closed_schema (parse_f64 : string -> option f64) (role : string) (bytes : list Z) : Prop :=
  exists raw samples, bytes = unlines raw /\ map (fun line => text_of (strip_return line)) raw = map sample_line samples /\
    NoDup (map fst samples) /\
    Forall (fun kv => (exists sr, sr ∈ schema /\ kv.1 = series_key role sr) /\ value_ok parse_f64 kv.2 = true) samples.

Section Collect.
Context `{FileSystem} (suffix : nat -> string) (parse_f64 : string -> option f64) (display_f64 : f64 -> string).
Context (s : SnapshotReader.Socket) (server_uid : Z) (role : SnapshotRole) (clock : option Z) (dir : path) (name : string).
Hypothesis plain_name : forall n, name <> ".tmp" +:+ suffix n.

Abbreviation command fuel := (snapshot_command suffix parse_f64 display_f64 s fuel server_uid role clock dir name).
Abbreviation deadline := (SnapshotReader.now s 0 + SNAPSHOT_DEADLINE).

(** C36: the collector's snapshot command always ends: when the clock reaches the deadline after some number
    of readings, that many iterations are enough. It changes no file but its output (and its temporary one),
    and the output only as a whole: to at most 64 KiB that the expected user's process delivered before the
    deadline, followed by the timestamp line, where every line of it is a distinct series of the closed schema
    for the expected role with a finite value that is not negative. *)
Theorem snapshot_reader (last_reading : nat) (e : gmap path Entry) :
  (forall n, (last_reading <= n)%nat -> deadline <= SnapshotReader.now s n) ->
  exists io, (forall fuel, (last_reading < fuel)%nat -> command fuel = Some io) /\
    wp io (fun _ e' =>
      (forall q, q <> join dir name -> (forall n, q <> temp_path suffix dir n) -> e' !! q = e !! q) /\
      (e' !! join dir name = e !! join dir name \/
       exists f bytes, e' !! join dir name = Some f /\
         entry_bytes f = bytes ++ bytes_of_string (timestamp_line display_f64 role clock) /\
         peer_credentials s = Some server_uid /\ (exists k, delivers s deadline k bytes) /\
         (length bytes <= SNAPSHOT_LIMIT)%nat /\ closed_schema parse_f64 (as_str role) bytes)) e.
Proof.
  intros Hexp. destruct (read_snapshot_ends s deadline last_reading Hexp (S last_reading) 1 server_uid) as [r Hr]; [lia|].
  assert (forall fuel, (last_reading < fuel)%nat -> read_snapshot s deadline fuel 1 server_uid = Some r) as Hall.
  { intros fuel Hf. eapply read_snapshot_more; [|exact Hr]. lia. }
  unfold snapshot_command. destruct r as [bytes|].
  2: { exists refuse. split; [intros fuel Hf; by rewrite Hall|]. apply wp_refuse. split; [done|by left]. }
  destruct (read_snapshot_sound _ _ _ _ _ _ Hr) as (Hp & Hd & Hl).
  destruct (check_snapshot parse_f64 (as_str role) bytes) eqn:Ec.
  - eexists. split; [intros fuel Hf; by rewrite Hall, Ec|]. eapply wp_mono; [by apply wp_atomic_write|].
    intros o e' [Hq Ho]. split; [done|]. destruct o as [[]|]; [|by left]. destruct Ho as (f & Hf & Hb & _).
    right. exists f, bytes. split_and!; [done|done|done|done|done|]. by eapply accepted_schema.
  - exists refuse. split; [intros fuel Hf; by rewrite Hall, Ec|]. apply wp_refuse. split; [done|by left].
Qed.

Lemma wp_atomic_write_runs (bytes : list Z) (e : gmap path Entry) :
  calm -> (forall n, e !! temp_path suffix dir n = None) -> wp (atomic_write suffix dir name bytes) (fun o _ => o = Some tt) e.
Proof.
  intros Hc Hn t. unfold atomic_write. cbn [tries]. set (temp := temp_path suffix dir t).
  apply (wp_bind (create_new temp 384) _ (fun o _ => o = Some tt)). apply wp_create_new.
  2: { intros Hx. destruct (Hx Hc) as [f Hf]. unfold temp in Hf. by rewrite Hn in Hf. }
  intros _.
  apply wp_cleaning, wp_bind. unfold set_permissions, KeyFile.write_all, new_entry.
  apply wp_call; [rewrite alter_insert_eq|done]. apply wp_bind, wp_call; [rewrite alter_insert_eq|done].
  eapply wp_rename; [apply lookup_insert_eq|done|done].
Qed.

(** C35: a snapshot the service wrote in full reaches the collector's file. When the service finished writing
    the text of its counters and the collector's socket delivers those bytes, in any pieces and with any waits
    and interruptions before the deadline, the command accepts them, and if the file calls succeed its output
    is that text followed by the timestamp line. *)
Theorem snapshot_collected {Path Socket R : Type} `{!Kernel Path Socket} (display_f64_9 : f64 -> string) `{!SampleLaws display_f64_9 parse_f64}
    (m : ServiceMetrics.Metrics Path Socket) (n n' : Node Path Socket R) (conn : Conn) (sent : list Z) (fuel k : nat) (e : gmap path Entry) :
  metrics_typed m -> role_name (ServiceMetrics.role m) = as_str role ->
  bounded_write conn (bytes_of_string (ServiceMetrics.snapshot display_f64_9 m)) n = (Ok tt, sent, n') ->
  peer_credentials s = Some server_uid -> connected s deadline fuel 1 = Some (Some k) -> delivers s deadline k sent ->
  exists io enough, (forall fuel, (enough <= fuel)%nat -> command fuel = Some io) /\
    (calm -> (forall n, e !! temp_path suffix dir n = None) ->
     wp io (fun o e' => o = Some tt /\ exists f, e' !! join dir name = Some f /\
       entry_bytes f = bytes_of_string (ServiceMetrics.snapshot display_f64_9 m) ++
                       bytes_of_string (timestamp_line display_f64 role clock)) e).
Proof.
  intros Ht Hrole Hw Hp Hc Hd. pose proof (bounded_write_sends conn (bytes_of_string (ServiceMetrics.snapshot display_f64_9 m)) n) as Hsent.
  rewrite Hw in Hsent. destruct Hsent as (_ & _ & Hall & _). specialize (Hall eq_refl). subst sent.
  destruct (snapshot_accepted_within display_f64_9 parse_f64 m Ht) as [Hok Hlen]. rewrite Hrole in Hok.
  destruct (delivers_read_loop s deadline k _ [] Hd Hlen) as [fuel2 Hf2]. rewrite app_nil_l in Hf2.
  set (bytes := bytes_of_string (ServiceMetrics.snapshot display_f64_9 m)) in *.
  exists (atomic_write suffix dir name (bytes ++ bytes_of_string (timestamp_line display_f64 role clock))), (fuel `max` fuel2)%nat. split.
  - intros fuel3 Hf3. unfold snapshot_command, read_snapshot. rewrite (connected_more s deadline fuel fuel3 1 _ ltac:(lia) Hc).
    rewrite bool_decide_eq_true_2 by done. rewrite (read_loop_more s deadline fuel2 fuel3 k [] _ ltac:(lia) Hf2). by rewrite Hok.
  - intros Hcalm Hfree t. pose proof (wp_atomic_write_runs (bytes ++ bytes_of_string (timestamp_line display_f64 role clock)) e Hcalm Hfree t) as H1.
    pose proof (wp_atomic_write suffix dir name (bytes ++ bytes_of_string (timestamp_line display_f64 role clock)) e plain_name t) as H2.
    destruct (atomic_write _ _ _ _ _) as [o d]. subst o. destruct H2 as [_ (f & Hf & Hb & _)]. split; [done|]. by exists f.
Qed.
End Collect.
