(* ===== verification/Daemon.v ===== *)
(** The processes of the evaluation service from start to end: [leelod/src/main.rs], the startup of the worker
    ([run] of [leelod/src/worker.rs]) and of the frontend ([run] and [tls_config] of [leelod/src/server.rs]), and
    [until_shutdown] of [leelod/src/service.rs]. Files are those of the disk model of [KeyFile], with the groups
    that the exporter sets; the TLS library, the answers of the kernel about directories, ports and signals, and
    the connections are inputs. *)
From stdpp Require Import base list gmap strings.
From Stdlib Require Import ZArith Lia.
From S2P Require Import Prelude Sss Crypto Wire Float64 Text Telemetry ServiceMetrics Service Listener Worker Frontend KeyFile EventDaemon FileLogic Providers SnapshotServe.

Open Scope Z_scope.

(** * A process *)

(** The arguments of [metrics.lifecycle]. *)
Record LifecycleCall : Type := mk_lifecycle {
  life_name : string; life_stage : string; life_outcome : string; life_reason : string }.
#[export] Instance LifecycleCall_eq_dec : EqDecision LifecycleCall.
Proof. solve_decision. Defined.

(** The disk with the groups that were set on it, the counters with the telemetry, and the lifecycle calls made
    so far, in order. *)
Record Host (Path Socket R : Type) : Type := mk_host {
  host_owned : Owned; host_node : Node Path Socket R; host_calls : list LifecycleCall }.
Arguments mk_host {Path Socket R}.
Arguments host_owned {Path Socket R}.
Arguments host_node {Path Socket R}.
Arguments host_calls {Path Socket R}.

(** Steps that may end with an error, whose text does not matter. *)
Definition Start (Path Socket R A : Type) : Type := Host Path Socket R -> option A * Host Path Socket R.
#[export] Instance Start_ret {Path Socket R} : MRet (Start Path Socket R) := fun A a h => (Some a, h).
#[export] Instance Start_bind {Path Socket R} : MBind (Start Path Socket R) := fun A B f m h =>
  match m h with (Some a, h) => f a h | (None, h) => (None, h) end.

Section Steps.
Context {Path Socket R : Type} `{Kernel Path Socket}.
Abbreviation step := (Start Path Socket R).

Definition give_back {A} (o : option A) : step A := fun h => (o, h).
Definition on_owned {A} (m : Fs A) : step A := fun h =>
  let '(o, w) := m (host_owned h) in (o, mk_host w (host_node h) (host_calls h)).
Definition on_disk {A} (m : Io A) : step A := on_owned (on_files m).
Definition on_node {A} (f : Node Path Socket R -> A * Node Path Socket R) : step A := fun h =>
  let '(a, n) := f (host_node h) in (Some a, mk_host (host_owned h) n (host_calls h)).

(** [metrics.lifecycle(..)] *)
Definition announce (c : LifecycleCall) : step unit := fun h =>
  (Some tt, mk_host (host_owned h)
     (emit_lifecycle (life_name c) (life_stage c) (life_outcome c) (life_reason c) (host_node h)) (host_calls h ++ [c])).

Definition service_failed (stage reason : string) : LifecycleCall := mk_lifecycle "service_failed" stage "failure" reason.

(** [m.inspect_err(|_| metrics.lifecycle("service_failed", stage, "failure", reason))?] *)
Definition inspect_err {A} (stage reason : string) (m : step A) : step A := fun h =>
  match m h with
  | (Some a, h) => (Some a, h)
  | (None, h) => let '(_, h) := announce (service_failed stage reason) h in (None, h)
  end.
End Steps.

(** The service manager: the environment variable, whether a socket can be made, and whether it takes a message. *)
Record Manager : Type := mk_manager {
  notify_variable : option (list Z); notify_socket : bool; notify_send : NotifyAddress -> list Z -> bool }.

(** * The worker *)

(** The TLS library: certificates and keys of PEM text, and whether it builds a configuration of them. *)
Class TlsLibrary : Type := {
  CertificateDer : Type;
  PrivateKeyDer : Type;
  pem_certificates : list Z -> option (list CertificateDer);
  pem_private_key : list Z -> option PrivateKeyDer;
  supports_tls13 : bool;
  single_cert : list CertificateDer -> PrivateKeyDer -> bool;
}.

Inductive ProtocolVersion : Type := TLS12 | TLS13.

(** [rustls::ServerConfig], the settings that [tls_config] makes. *)
Record ServerConfig `{TlsLibrary} : Type := mk_server_config {
  versions : list ProtocolVersion;
  client_auth : bool;
  chain : list CertificateDer;
  tls_private_key : PrivateKeyDer;
  alpn_protocols : list (list Z);
  max_early_data_size : Z;
}.
Arguments mk_server_config {_}.

Definition MAX_PEM_BYTES : nat := 64 * 1024.

Section Startup.
Context `{FileSystem} `{Directories} {Path Socket R : Type} `{Kernel Path Socket}.
Abbreviation step := (Start Path Socket R).
Context (manager : Manager) (monitoring : Monitoring).

(** The exporter: when its setup fails, this is reported and the service goes on without it. *)
Definition start_optional (evaluator_uid : option Z) : step (option Z) := fun h =>
  match on_owned (start_exporter monitoring evaluator_uid) h with
  | (Some exporter, h) => (Some exporter, h)
  | (None, h) => (_ ← announce (mk_lifecycle "telemetry_failed" "snapshot" "failure" "setup_failed"); mret None) h
  end.

(** The end of both startups: readiness, and its event. *)
Definition ready_step : step unit :=
  _ ← inspect_err "readiness" "notify_failed"
        (give_back (if ready (notify_variable manager) (notify_socket manager) (notify_send manager) then Some tt else None));
  announce (mk_lifecycle "service_ready" "startup" "success" "none").

Context `{Primitives}.


(** * The frontend *)

Context `{TlsLibrary}.

Definition tls_config (certificate key : path) : Io ServerConfig :=
  pem ← read_bounded certificate MAX_PEM_BYTES;
  certificates ← or_refuse (pem_certificates pem);
  key_pem ← read_private key MAX_PEM_BYTES;
  private ← or_refuse (pem_private_key key_pem);
  if negb supports_tls13 || negb (single_cert certificates private) then refuse
  else mret (mk_server_config [TLS13] false certificates private [bytes_of_string "http/1.1"] 0).

(** [run] of the frontend, until it serves; [bound]: whether the address can be bound. *)
Definition frontend_startup (certificate key : path) (bound : bool) : step ServerConfig :=
  acceptor ← inspect_err "tls_config" "invalid_configuration" (on_disk (tls_config certificate key));
  _ ← inspect_err "listener" "bind_failed" (give_back (if bound then Some tt else None));
  _ ← start_optional None;
  _ ← ready_step;
  mret acceptor.
End Startup.

(** * From start to end *)

(** The signals that end a process; the handler of the second one may not be installed. *)
Inductive Signal : Type := Terminate | CtrlC (handled : bool).
Definition signal_result (s : Signal) : option unit :=
  match s with Terminate | CtrlC true => Some tt | CtrlC false => None end.

(** How serving ends: with a signal, or with an error of the listener that is not temporary. *)
Inductive Stop : Type := Signalled (s : Signal) | ListenerFails (error : IoError) (fatal : temporary error = false).

(** What happens to a process: its first signal comes before it starts, or it serves connections until it stops. *)
Inductive Course (C : Type) : Type :=
| SignalledFirst (s : Signal)
| Serves (moves : list (Move C)) (stop : Stop).
Arguments SignalledFirst {C}.
Arguments Serves {C}.

Section Process.
Context {Path Socket R : Type} `{Kernel Path Socket}.
Abbreviation step := (Start Path Socket R).
Abbreviation node := (Node Path Socket R).

(** The last accept of a listener that fails. *)
Definition last_accept (error : IoError) (n : node) : node :=
  match accept_observed (fun _ => Err error : result IoError Empty_set) 1 n with Some (_, n) => n | None => n end.

Definition stop_serving (stop : Stop) : step unit :=
  match stop with
  | Signalled s => give_back (signal_result s)
  | ListenerFails error _ => _ ← on_node (fun n => (tt, last_accept error n)); give_back None
  end.

(** What became of the connections of a process. *)
Context {C S : Type} (startup : step S) (serve : S -> node -> list (Move C) -> Serving Path Socket R C (list Z)).

(** [until_shutdown] of the process: what became of its connections, and its result. [registered]: whether the
    handler of the signal could be installed. *)
Definition until_shutdown (registered : bool) (course : Course C) (h : Host Path Socket R)
    : list (Fate C (list Z)) * (option unit * Host Path Socket R) :=
  if negb registered then ([], (None, h))
  else
    match course with
    | SignalledFirst s => ([], give_back (signal_result s) h)
    | Serves moves stop =>
        match startup h with
        | (None, h) => ([], (None, h))
        | (Some s, h) =>
            let served := serve s (host_node h) moves in
            (serving_log served, stop_serving stop (mk_host (host_owned h) (serving_node served) (host_calls h)))
        end
    end.

Definition service_start : LifecycleCall := mk_lifecycle "service_start" "startup" "started" "none".
Definition service_stop (result : option unit) : LifecycleCall :=
  match result with
  | Some _ => mk_lifecycle "service_stop" "service" "success" "none"
  | None => mk_lifecycle "service_stop" "service" "failure" "service_failed"
  end.

(** The part of [run] that the two services share, and the exit code of [main]. *)
Definition process (registered : bool) (course : Course C) (d : Disk) (n : node)
    : list (Fate C (list Z)) * (Z * Host Path Socket R) :=
  let '(_, h) := announce service_start (mk_host (mk_owned d ∅) n []) in
  let '(log, (result, h)) := until_shutdown registered course h in
  let '(_, h) := announce (service_stop result) h in
  (log, (match result with Some _ => 0 | None => 1 end, h)).
End Process.

Section Commands.
Context `{FileSystem} `{Directories} `{Primitives} {R : Type} `{Rng R} {Path Socket : Type} `{Kernel Path Socket}.
Context (manager : Manager) (monitoring : Monitoring).

(** [Metrics::new], whose emitter and start come from the environment. *)
Definition new_node (emitter : Emitter Path Socket) (now : Z) (role : Role) (limit : Z) (rng : R) : Node Path Socket R :=
  mk_node (new_metrics emitter now role limit) 0 rng [].


Definition frontend_process `{HttpLibrary} `{TlsLibrary} (certificate key : path) (bound registered : bool)
    (course : Course Client) (emitter : Emitter Path Socket) (now : Z) (rng : R) (d : Disk)
    : list (Fate Client (list Z)) * (Z * Host Path Socket R) :=
  process (frontend_startup manager monitoring certificate key bound)
    (fun _ n moves => frontend_serve n moves) registered course d (new_node emitter now Frontend 64 rng).

(** The command that makes a key: its event goes through an emitter of its own. *)
Definition keygen_event (created : bool) : Event :=
  new_event "leelod" "key_creation" "keygen" "key_file" (if created then "success" else "failure")
    (if created then "none" else "key_creation_failed").

Definition keygen_process (p : path) (emitter : Emitter Path Socket) (rng : R) (d : Disk)
    : (option KeyReport * Z * Emitter Path Socket) * Disk :=
  let '(r, d) := keygen p rng d in
  let created := bool_decide (is_Some r) in
  ((r, if created then 0 else 1, (Telemetry.emit service_json emitter (keygen_event created) (unix_clock 0) (send_datagram 0)).1), d).
End Commands.

(** * Reasoning about startups *)

Section Logic.
Context `{FileSystem} {Path Socket R : Type} `{Kernel Path Socket}.
Abbreviation step := (Start Path Socket R).

(** From the entries and groups [e] and the calls [l], whatever the counters are and whatever calls fail, [m] ends in [Q]. *)
Definition host_files (h : Host Path Socket R) : files := (entries (own_disk (host_owned h)), own_groups (host_owned h)).
Definition swp {A : Type} (m : step A) (Q : option A -> files -> list LifecycleCall -> Prop) (e : files) (l : list LifecycleCall) : Prop :=
  forall t n, let '(o, h) := m (mk_host (mk_owned (mk_disk e.1 t) e.2) n l) in Q o (host_files h) (host_calls h).

Lemma swp_ret {A : Type} (a : A) (Q : option A -> files -> list LifecycleCall -> Prop) (e : files) (l : list LifecycleCall) :
  Q (Some a) e l -> swp (mret a) Q e l.
Proof. destruct e. by intros HQ t n. Qed.

Lemma swp_give_back {A : Type} (o : option A) (Q : option A -> files -> list LifecycleCall -> Prop) (e : files) (l : list LifecycleCall) :
  Q o e l -> swp (give_back o) Q e l.
Proof. destruct e. by intros HQ t n. Qed.

Lemma swp_bind {A B : Type} (m : step A) (f : A -> step B) (Q : option B -> files -> list LifecycleCall -> Prop)
    (e : files) (l : list LifecycleCall) :
  swp m (fun o e' l' => match o with Some a => swp (f a) Q e' l' | None => Q None e' l' end) e l -> swp (m ≫= f) Q e l.
Proof.
  intros Hm t n. specialize (Hm t n). unfold mbind, Start_bind. destruct (m _) as [[a|] [[[e' t'] g'] n' l']]; [|done]. exact (Hm t' n').
Qed.

Lemma swp_announce (c : LifecycleCall) (Q : option unit -> files -> list LifecycleCall -> Prop) (e : files) (l : list LifecycleCall) :
  Q (Some tt) e (l ++ [c]) -> swp (announce c) Q e l.
Proof. destruct e. by intros HQ t n. Qed.

Lemma swp_on_owned {A : Type} (m : Fs A) (Q : option A -> files -> list LifecycleCall -> Prop) (e : files) (l : list LifecycleCall) :
  fwp m (fun o e' => Q o e' l) e -> swp (on_owned m) Q e l.
Proof. intros Hm t n. specialize (Hm t). unfold on_owned. cbn [host_owned]. by destruct (m _). Qed.

Lemma swp_on_disk {A : Type} (m : Io A) (Q : option A -> files -> list LifecycleCall -> Prop) (e : files) (l : list LifecycleCall) :
  wp m (fun o e' => Q o (e', e.2) l) e.1 -> swp (on_disk m) Q e l.
Proof. intros Hm. by apply swp_on_owned, fwp_on_files. Qed.

Lemma swp_inspect_err {A : Type} (stage reason : string) (m : step A) (Q : option A -> files -> list LifecycleCall -> Prop)
    (e : files) (l : list LifecycleCall) :
  swp m (fun o e' l' => match o with Some a => Q (Some a) e' l' | None => Q None e' (l' ++ [service_failed stage reason]) end) e l ->
  swp (inspect_err stage reason m) Q e l.
Proof. intros Hm t n. specialize (Hm t n). unfold inspect_err. by destruct (m _) as [[a|] h]. Qed.

(** The counters of connections stay as they are. *)
Definition steady {A : Type} (m : step A) : Prop := forall h, same_gauges (host_node h) (host_node (m h).2).

Lemma steady_ret {A : Type} (a : A) : steady (mret a).
Proof. by intros h. Qed.
Lemma steady_give_back {A : Type} (o : option A) : steady (give_back o).
Proof. by intros h. Qed.
Lemma steady_on_owned {A : Type} (m : Fs A) : steady (on_owned m).
Proof. intros h. unfold on_owned. by destruct (m _). Qed.
Lemma steady_on_disk {A : Type} (m : Io A) : steady (on_disk m).
Proof. apply steady_on_owned. Qed.
Lemma steady_announce c : steady (announce c).
Proof. intros h. reflexivity. Qed.
Lemma steady_bind {A B : Type} (m : step A) (f : A -> step B) : steady m -> (forall a, steady (f a)) -> steady (m ≫= f).
Proof.
  intros Hm Hf h. specialize (Hm h). unfold mbind, Start_bind. destruct (m h) as [[a|] h']; [|done]. specialize (Hf a h').
  unfold same_gauges in *. by etransitivity.
Qed.
Lemma steady_inspect_err {A : Type} stage reason (m : step A) : steady m -> steady (inspect_err stage reason m).
Proof. intros Hm h. specialize (Hm h). unfold inspect_err. by destruct (m h) as [[a|] h']. Qed.
End Logic.
#[export] Hint Resolve steady_ret steady_give_back steady_on_disk steady_announce steady_bind steady_inspect_err : leelo.

Ltac steadily := repeat (apply steady_bind; [|intros ?]) || (case_match) || (apply steady_inspect_err) || auto with leelo.

(** * What a process does, whatever fails *)

Definition service_ready : LifecycleCall := mk_lifecycle "service_ready" "startup" "success" "none".
Definition telemetry_failed : LifecycleCall := mk_lifecycle "telemetry_failed" "snapshot" "failure" "setup_failed".

#[export] Instance readable_dec `{FileSystem} (limit : nat) (e : Entry) : Decision (readable limit e).
Proof. unfold readable. apply _. Defined.

Section References.
Context `{FileSystem} `{Directories} `{Primitives} (manager : Manager).



Definition manager_notified : bool := ready (notify_variable manager) (notify_socket manager) (notify_send manager).


Context `{TlsLibrary}.

(** The configuration of the frontend: a certificate file of at most 64 KiB and a private key file that go
    together, for TLS 1.3 only, without early data. *)
Definition frontend_config (e : gmap path Entry) (certificate key : path) : option ServerConfig :=
  c ← e !! certificate;
  if bool_decide (length (entry_bytes c) <= MAX_PEM_BYTES)%nat then
    certificates ← pem_certificates (entry_bytes c);
    k ← e !! key;
    if bool_decide (readable MAX_PEM_BYTES k) then
      private ← pem_private_key (entry_bytes k);
      if supports_tls13 && single_cert certificates private
      then Some (mk_server_config [TLS13] false certificates private [bytes_of_string "http/1.1"] 0) else None
    else None
  else None.

Definition frontend_diagnosis (e : gmap path Entry) (certificate key : path) (bound : bool) : option LifecycleCall :=
  if negb (bool_decide (is_Some (frontend_config e certificate key)))
  then Some (service_failed "tls_config" "invalid_configuration")
  else if negb bound then Some (service_failed "listener" "bind_failed")
  else if negb manager_notified then Some (service_failed "readiness" "notify_failed")
  else None.
End References.

(** What became of the exporter, with what was reported of it: none is configured, it serves, or its setup
    failed, which when no call failed means that it was not configured well. *)
Definition exporter_outcome `{FileSystem} `{Directories} (monitoring : Monitoring) (evaluator : option Z) (e e' : files)
    (telemetry : list LifecycleCall) : Prop :=
  (telemetry = [] /\ metrics_socket monitoring = None /\ e' = e) \/
  (telemetry = [] /\ exists uid, exporter_ready monitoring evaluator uid e e') \/
  (telemetry = [telemetry_failed] /\ is_Some (metrics_socket monitoring) /\ exporter_frame monitoring e e' /\
     (calm -> exportable monitoring evaluator e.1 = false)).

(** The outcome of a startup: it is ready, with nothing wrong and the disk as it should be, or it has reported a
    failure as its last call, and when no call failed this is the first thing that is wrong. *)
Definition startup_outcome `{FileSystem} {S : Type} (diagnosis : option LifecycleCall)
    (good : S -> list LifecycleCall -> files -> Prop) (kept : files -> Prop) (l : list LifecycleCall) (o : option S) (e : files)
    (l' : list LifecycleCall) : Prop :=
  exists telemetry, Forall (eq telemetry_failed) telemetry /\
  match o with
  | Some s => l' = l ++ telemetry ++ [service_ready] /\ diagnosis = None /\ good s telemetry e
  | None => exists c, l' = l ++ telemetry ++ [c] /\ life_name c = "service_failed"%string /\ (calm -> diagnosis = Some c) /\ kept e
  end.

Section Startups.
Context `{FileSystem} `{Directories} `{Primitives} {Path Socket R : Type} `{Kernel Path Socket}.
Context (manager : Manager) (monitoring : Monitoring).

Lemma failed_outcome {S : Type} (diagnosis : option LifecycleCall) (good : S -> list LifecycleCall -> files -> Prop) (kept : files -> Prop)
    (l : list LifecycleCall) (e : files) (stage reason : string) :
  (calm -> diagnosis = Some (service_failed stage reason)) -> kept e ->
  startup_outcome diagnosis good kept l None e (l ++ [service_failed stage reason]).
Proof. intros Hd Hk. exists []. split; [constructor|]. by exists (service_failed stage reason). Qed.

Lemma exporter_outcome_frame (evaluator : option Z) (e e' : files) (telemetry : list LifecycleCall) :
  exporter_outcome monitoring evaluator e e' telemetry -> exporter_frame monitoring e e' /\ Forall (eq telemetry_failed) telemetry.
Proof.
  intros [(-> & _ & ->)|[(-> & uid & Hr)|(-> & _ & Hf & _)]].
  - split; [apply exporter_frame_refl|constructor].
  - split; [by eapply exporter_ready_frame|constructor].
  - split; [done|by repeat constructor].
Qed.

Lemma swp_start_optional (evaluator : option Z) (Q : option (option Z) -> files -> list LifecycleCall -> Prop) (e : files) (l : list LifecycleCall) :
  (forall o e' telemetry, exporter_outcome monitoring evaluator e e' telemetry -> Q (Some o) e' (l ++ telemetry)) ->
  swp (Path := Path) (Socket := Socket) (R := R) (start_optional monitoring evaluator) Q e l.
Proof.
  intros HQ t n. pose proof (fwp_start_exporter monitoring evaluator e t) as Hw.
  unfold start_optional, on_owned. cbn [host_owned host_node host_calls].
  destruct (start_exporter monitoring evaluator _) as [[[uid|]|] w]; unfold host_files; cbn [host_owned host_calls] in *.
  - rewrite <- (app_nil_r l). apply HQ. right. left. split; [done|]. by exists uid.
  - rewrite <- (app_nil_r l). apply HQ. left. by split.
  - apply (HQ None _ [telemetry_failed]). right. right. by split.
Qed.

(** Both startups end alike. *)
Lemma swp_ready {S : Type} (uid : option Z) (s : S) (diagnosis : option LifecycleCall) (good : S -> list LifecycleCall -> files -> Prop)
    (kept : files -> Prop) (e : files) (l : list LifecycleCall) :
  diagnosis = (if manager_notified manager then None else Some (service_failed "readiness" "notify_failed")) ->
  (forall telemetry e', exporter_outcome monitoring uid e e' telemetry -> good s telemetry e' /\ kept e') ->
  swp (Path := Path) (Socket := Socket) (R := R) (start_optional monitoring uid ≫= fun _ => ready_step manager ≫= fun _ => mret s)
    (startup_outcome diagnosis good kept l) e l.
Proof.
  intros Hd Hafter. apply swp_bind, swp_start_optional. intros _ e' telemetry Hx. destruct (Hafter _ _ Hx) as [Hg Hk].
  apply exporter_outcome_frame in Hx as [_ Ht]. unfold manager_notified in Hd. apply swp_bind, swp_bind, swp_inspect_err, swp_give_back.
  destruct (ready _ _ _).
  - apply swp_announce, swp_ret. exists telemetry. split; [done|]. split_and!; [by rewrite app_assoc|done|done].
  - exists telemetry. split; [done|]. eexists. split_and!; [by rewrite app_assoc|done|done|done].
Qed.






Lemma steady_start_optional (evaluator : option Z) :
  steady (Path := Path) (Socket := Socket) (R := R) (start_optional monitoring evaluator).
Proof.
  intros h. pose proof (steady_on_owned (start_exporter monitoring evaluator) h) as Hs. unfold start_optional.
  by destruct (on_owned _ h) as [[o|] h'].
Qed.


Context `{TlsLibrary}.

Lemma looks_tls_config (e : gmap path Entry) (certificate key : path) :
  looks e (tls_config certificate key) (fun o =>
    (forall c, o = Some c -> frontend_config e certificate key = Some c) /\ (calm -> o = frontend_config e certificate key)).
Proof.
  unfold frontend_config. apply looks_bind, looks_read_bounded.
  2: { intros Hn. split; [done|]. intros Hc. destruct Hn as [Hn|Hn]; [done|]. destruct (e !! certificate) as [c|] eqn:E; simpl; [|done].
       case_bool_decide; [|done]. exfalso. apply Hn. by exists (entry_bytes c), c. }
  intros pem (c & -> & -> & Hl). simpl. rewrite bool_decide_eq_true_2 by done. apply looks_bind, looks_or_refuse.
  destruct (pem_certificates (entry_bytes c)) as [certificates|]; simpl; [|done]. apply looks_bind, looks_read_private.
  2: { intros Hn. split; [done|]. intros Hc. destruct Hn as [Hn|Hn]; [done|]. destruct (e !! key) as [k|] eqn:E; simpl; [|done].
       case_bool_decide; [|done]. exfalso. apply Hn. by exists k. }
  intros k -> Hr. simpl. rewrite bool_decide_eq_true_2 by done. apply looks_bind, looks_or_refuse.
  destruct (pem_private_key (entry_bytes k)) as [private|]; simpl; [|done]. rewrite <- negb_andb.
  destruct (_ && _); cbn [negb]; [by apply wp_ret|by apply wp_refuse].
Qed.

Definition frontend_good (e : files) (certificate key : path) (config : ServerConfig) (telemetry : list LifecycleCall) (e' : files) : Prop :=
  frontend_config e.1 certificate key = Some config /\ exporter_outcome monitoring None e e' telemetry.

Lemma swp_frontend_startup (certificate key : path) (bound : bool) (e : files) (l : list LifecycleCall) :
  swp (Path := Path) (Socket := Socket) (R := R) (frontend_startup manager monitoring certificate key bound)
    (startup_outcome (frontend_diagnosis manager e.1 certificate key bound) (frontend_good e certificate key)
      (exporter_frame monitoring e) l) e l.
Proof.
  assert (exporter_frame monitoring e (e.1, e.2)) as Hkept by by split_and!.
  unfold frontend_startup, frontend_diagnosis. apply swp_bind, swp_inspect_err, swp_on_disk.
  eapply wp_mono; [apply looks_tls_config|]. intros [config|] e' [-> [Hconfig Hcalm]].
  2: { apply failed_outcome; [|done]. intros Hc. by rewrite <- (Hcalm Hc). }
  rewrite (Hconfig config eq_refl), bool_decide_eq_true_2 by done. cbn [negb].
  apply swp_bind, swp_inspect_err, swp_give_back. destruct bound; [|by apply failed_outcome].
  apply swp_ready; [by destruct (manager_notified manager)|]. rewrite <- surjective_pairing. intros telemetry e' Hx.
  split; [by split; [apply Hconfig|]|]. by eapply exporter_outcome_frame.
Qed.

Lemma steady_frontend_startup (certificate key : path) (bound : bool) :
  steady (Path := Path) (Socket := Socket) (R := R) (frontend_startup manager monitoring certificate key bound).
Proof.
  unfold frontend_startup, ready_step. pose proof (steady_start_optional None) as Hs. revert Hs.
  generalize (start_optional (Path := Path) (Socket := Socket) (R := R) monitoring None). intros exporter Hs. steadily.
Qed.
End Startups.

(** * From start to end *)

Section Course.
Context `{FileSystem} {Path Socket R C S : Type} `{Kernel Path Socket}.
Context (startup : Start Path Socket R S) (serve : S -> Node Path Socket R -> list (Move C) -> Serving Path Socket R C (list Z)).
Context (diagnosis : option LifecycleCall) (good : S -> list LifecycleCall -> files -> Prop) (kept : files -> Prop).

(** A process that was ready served: what it started with, and how. *)
Definition served_course (registered : bool) (course : Course C) (n : Node Path Socket R) (middle : list LifecycleCall)
    (log : list (Fate C (list Z))) (e : files) : Prop :=
  registered = true /\ diagnosis = None /\
  exists telemetry s moves stop n', middle = telemetry ++ [service_ready] /\ course = Serves moves stop /\ same_gauges n n' /\
    good s telemetry e /\ log = serving_log (serve s n' moves).

(** It ended well: a signal asked it to. *)
Definition asked_to_stop (registered : bool) (course : Course C) (middle : list LifecycleCall) : Prop :=
  registered = true /\ exists s, signal_result s = Some tt /\
    (course = SignalledFirst s \/ service_ready ∈ middle /\ exists moves, course = Serves moves (Signalled s)).

(** The lifecycle of a process. *)
Definition process_outcome (registered : bool) (course : Course C) (n : Node Path Socket R) (log : list (Fate C (list Z)))
    (code : Z) (h : Host Path Socket R) : Prop :=
  exists middle, host_calls h = service_start :: middle ++ [service_stop (if code =? 0 then Some tt else None)] /\
    (code = 0 \/ code = 1) /\ (code = 0 <-> asked_to_stop registered course middle) /\
    (service_ready ∈ middle -> served_course registered course n middle log (host_files h)) /\
    (service_ready ∉ middle -> log = [] /\ kept (host_files h)) /\
    (calm -> registered = true -> forall moves stop, course = Serves moves stop ->
       match diagnosis with
       | None => service_ready ∈ middle
       | Some c => exists telemetry, Forall (eq telemetry_failed) telemetry /\ middle = telemetry ++ [c]
       end).

Lemma not_ready (telemetry : list LifecycleCall) c :
  Forall (eq telemetry_failed) telemetry -> life_name c = "service_failed"%string -> service_ready ∉ telemetry ++ [c].
Proof.
  intros Ht Hc [Hin|Hin]%elem_of_app; [by pose proof (proj1 (Forall_forall _ _) Ht _ Hin)|].
  apply list_elem_of_singleton in Hin. by subst c.
Qed.

Lemma stop_serving_keeps stop (h : Host Path Socket R) :
  let '(r, h') := stop_serving stop h in host_files h' = host_files h /\ host_calls h' = host_calls h /\
    (r = Some tt \/ r = None) /\ (r = Some tt <-> exists s, stop = Signalled s /\ signal_result s = Some tt).
Proof.
  destruct stop as [s|error fatal]; cbn; (split_and!; [done|done| |]).
  - destruct s as [|[]]; auto.
  - split; [intros; by exists s|by intros (? & [= <-] & ?)].
  - by right.
  - split; [done|by intros (? & ? & _)].
Qed.

(** The end of a process, from the result of its operation. *)
Lemma process_ends (registered : bool) (course : Course C) (n : Node Path Socket R) middle log (r : option unit) (h : Host Path Socket R) :
  host_calls h = service_start :: middle -> (r = Some tt \/ r = None) ->
  (r = Some tt <-> asked_to_stop registered course middle) ->
  (service_ready ∈ middle -> served_course registered course n middle log (host_files h)) ->
  (service_ready ∉ middle -> log = [] /\ kept (host_files h)) ->
  (calm -> registered = true -> forall moves stop, course = Serves moves stop ->
     match diagnosis with
     | None => service_ready ∈ middle
     | Some c => exists telemetry, Forall (eq telemetry_failed) telemetry /\ middle = telemetry ++ [c]
     end) ->
  process_outcome registered course n log (match r with Some _ => 0 | None => 1 end) (announce (service_stop r) h).2.
Proof.
  intros Hl Hr Hiff Hs Hn Hc. exists middle. split_and!; [|by destruct r; [left|right]| |done|done|done].
  - cbn. rewrite Hl. by destruct Hr as [-> | ->].
  - rewrite <- Hiff. by destruct Hr as [-> | ->].
Qed.

Lemma process_lifecycle (registered : bool) (course : Course C) (d : Disk) (n : Node Path Socket R) :
  swp startup (startup_outcome diagnosis good kept [service_start]) (entries d, ∅) [service_start] -> steady startup -> kept (entries d, ∅) ->
  let '(log, (code, h)) := process startup serve registered course d n in process_outcome registered course n log code h.
Proof.
  intros Hstart Hsteady Hkept. destruct d as [e t]. cbn [entries] in *. unfold process.
  set (n1 := emit_lifecycle "service_start" "startup" "started" "none" n).
  change (announce service_start (mk_host (mk_owned (mk_disk e t) ∅) n [])) with (Some tt, mk_host (mk_owned (mk_disk e t) ∅) n1 [service_start]).
  unfold until_shutdown. destruct registered; cbn [negb].
  2: { apply (process_ends _ _ _ [] [] None); try done; [by right|by split; [|intros [? _]]|by intros ?%elem_of_nil]. }
  destruct course as [s|moves stop].
  { apply (process_ends _ _ _ [] [] (signal_result s)); try done.
    - destruct s as [|[]]; auto.
    - split; [intros; split; [done|]; exists s; by split; [|left]|]. intros (_ & s' & Hs' & [[= ->]|[Hin _]]); [done|by apply elem_of_nil in Hin].
    - by intros ?%elem_of_nil. }
  specialize (Hstart t n1). cbn [fst snd] in Hstart. specialize (Hsteady (mk_host (mk_owned (mk_disk e t) ∅) n1 [service_start])). cbn [host_node] in Hsteady.
  destruct (startup (mk_host (mk_owned (mk_disk e t) ∅) n1 [service_start])) as [[s|] h]; cbn [snd] in Hsteady; destruct Hstart as (telemetry & Ht & Hout).
  - destruct Hout as (Hl & Hd & Hg). pose proof (stop_serving_keeps stop (mk_host (host_owned h) (serving_node (serve s (host_node h) moves)) (host_calls h))) as Hstop.
    destruct (stop_serving _ _) as [r h']. cbn [host_owned host_calls] in Hstop. destruct Hstop as (Hdisk & Hcalls & Hr & Hiff).
    assert (service_ready ∈ telemetry ++ [service_ready]) as Hin by (apply elem_of_app; right; by apply list_elem_of_singleton).
    apply (process_ends _ _ _ (telemetry ++ [service_ready])); [by rewrite Hcalls, Hl|done| | |done|by intros _ _ _ _ _; rewrite Hd].
    + rewrite Hiff. split.
      * intros (sg & -> & Hsg). split; [done|]. exists sg. split; [done|]. right. split; [done|]. by exists moves.
      * intros (_ & sg & Hsg & [?|[_ (moves' & [= _ ->])]]); [done|]. by exists sg.
    + intros _. split_and!; [done|done|]. exists telemetry, s, moves, stop, (host_node h). by rewrite Hdisk.
  - destruct Hout as (c & Hl & Hc & Hcalm & Hk). pose proof (not_ready _ _ Ht Hc) as Hno.
    apply (process_ends _ _ _ (telemetry ++ [c]) [] None); [done|by right| |done|done|].
    + split; [done|]. intros (_ & sg & _ & [?|[? _]]); done.
    + intros Hcm _ _ _ _. rewrite (Hcalm Hcm). by exists telemetry.
Qed.
End Course.

(** * Properties *)

(** The counters of a new process are at zero when it starts to serve. *)
Lemma fresh_gauges {Path Socket R : Type} (emitter : Emitter Path Socket) (now : Z) (role : Role) (limit : Z) (rng : R)
    (n : Node Path Socket R) :
  same_gauges (new_node emitter now role limit rng) n ->
  inflight (node_metrics n) = 0 /\ admissions (node_metrics n) = replicate (length Admission.ALL) 0.
Proof. intros E. split; [exact (f_equal (fun g => g.1.1.1.2) E)|exact (f_equal (fun g => g.1.1.1.1) E)]. Qed.

Section Properties.
Context `{FileSystem} `{Directories} `{Primitives} {R : Type} `{Rng R} {Path Socket : Type} `{Kernel Path Socket}.
Context (manager : Manager) (monitoring : Monitoring).


(** The life of the frontend process, likewise. It writes nothing but the metrics socket, if one is configured. It
    is ready only with a configuration made of a certificate file of at most 64 KiB and a private key file, for
    TLS 1.3 only, without client certificates and early data, when its address was bound and the service manager
    notified. Only prefixes of acceptable requests reach the worker. *)
Theorem frontend_lifecycle `{HttpLaws} `{TlsLibrary} certificate key bound registered course emitter now (rng : R) (d : Disk) :
  let '(log, (code, h)) :=
    frontend_process (Path := Path) (Socket := Socket) manager monitoring certificate key bound registered course emitter now rng d in
  process_outcome (fun (_ : ServerConfig) n moves => frontend_serve n moves) (frontend_diagnosis manager (entries d) certificate key bound)
    (frontend_good monitoring (entries d, ∅) certificate key) (exporter_frame monitoring (entries d, ∅)) registered course
    (new_node emitter now Frontend 64 rng) log code h /\
  exporter_frame monitoring (entries d, ∅) (host_files h) /\
  (forall moves stop, course = Serves moves stop -> Z.of_nat (length moves) < 2 ^ 64 ->
     Forall (fun fate => match fate with
       | RefusedPeer _ _ => False
       | RefusedCapacity _ busy => busy = 64%nat
       | ServedConn client outcome sent => frontend_served client outcome sent
       end) log).
Proof.
  pose proof (process_lifecycle (frontend_startup manager monitoring certificate key bound)
    (fun (_ : ServerConfig) n moves => frontend_serve n moves) (frontend_diagnosis manager (entries d) certificate key bound)
    (frontend_good monitoring (entries d, ∅) certificate key) (exporter_frame monitoring (entries d, ∅)) registered course d
    (new_node emitter now Frontend 64 rng)
    (swp_frontend_startup _ _ _ _ _ _ _) (steady_frontend_startup _ _ _ _ _) (exporter_frame_refl _ _)) as Hp.
  unfold frontend_process. destruct (process _ _ _ _ _ _) as [log [code h]]. split; [exact Hp|].
  destruct Hp as (middle & _ & _ & _ & Hready & Hnot & _).
  destruct (decide (service_ready ∈ middle)) as [Hin|Hin]; [|by destruct (Hnot Hin) as [-> ?]].
  destruct (Hready Hin) as (_ & _ & telemetry & config & moves' & stop' & n' & _ & -> & Hg & [_ Hx] & ->).
  split; [by eapply exporter_outcome_frame|]. intros moves stop [= <- <-] Hlen. destruct (fresh_gauges _ _ _ _ _ _ Hg) as [Hi Ha].
  by destruct (frontend_admission n' moves' Hi Ha Hlen) as (_ & _ & Hf & _).
Qed.
End Properties.
