(* ===== verification/DaemonDemo.v ===== *)
(** Witnesses for the processes of the evaluation service: a worker and a frontend that start, serve and are
    asked to stop. *)
From stdpp Require Import base list gmap strings.
From Stdlib Require Import ZArith Lia.
From S2P Require Import Prelude Sss Plan Policy Crypto ToyCrypto Wire Float64 Text Telemetry ServiceMetrics Service Listener Worker Frontend Net Cbor Envelope Observation Engine Demo Stack StackDemo KeyFile EventDaemon FileLogic EventLog Providers SnapshotServe Daemon.
Import Service.Example.

Open Scope Z_scope.

#[local] Existing Instance EventLog.Example.calm_disk.
#[local] Existing Instance quiet_kernel.

#[export] Instance toy_directories : Directories := fun _ => Some (mk_metadata true 1000 1000 448).
Definition no_manager : Manager := mk_manager None true (fun _ _ => true).
Definition no_monitoring : Monitoring := mk_monitoring None None None.



(** A TLS library for which every non-empty text is a certificate or a key. *)
#[export] Instance toy_tls : TlsLibrary := {|
  CertificateDer := list Z;
  PrivateKeyDer := list Z;
  pem_certificates pem := if (length pem =? 0)%nat then None else Some [pem];
  pem_private_key pem := if (length pem =? 0)%nat then None else Some pem;
  supports_tls13 := true;
  single_cert certificates key := true;
|}.

Definition frontend_files (readable_by_others : bool) : gmap path Entry :=
  <[bytes_of_string "cert" := mk_entry [1; 2] 420 1000 true true true]>
    {[ bytes_of_string "key" := mk_entry [3] (if readable_by_others then 420 else 384) 1000 true true true ]}.

(** A key that others can read stops the frontend before it listens. *)
Lemma frontend_lifecycle_witness :
  exists telemetry code, host_calls (frontend_process (Path := unit) (Socket := unit) no_manager no_monitoring (bytes_of_string "cert")
      (bytes_of_string "key") true true (Serves [] (Signalled Terminate)) (mk_emitter None None None None 0 0) 0 700
      (mk_disk (frontend_files true) 0)).2.2 =
    service_start :: (telemetry ++ [service_failed "tls_config" "invalid_configuration"]) ++ [service_stop code].
Proof.
  pose proof (frontend_lifecycle (Path := unit) (Socket := unit) no_manager no_monitoring (bytes_of_string "cert")
    (bytes_of_string "key") true true (Serves [] (Signalled Terminate)) (mk_emitter None None None None 0 0) 0 700
    (mk_disk (frontend_files true) 0)) as Hf.
  destruct (frontend_process _ _ _ _ _ _ _ _ _ _ _) as [log [code h]].
  destruct Hf as [(middle & Hcalls & _ & _ & _ & _ & Hready) _].
  assert (frontend_diagnosis no_manager (entries (mk_disk (frontend_files true) 0)) (bytes_of_string "cert")
    (bytes_of_string "key") true = Some (service_failed "tls_config" "invalid_configuration")) as Hd by (vm_compute; reflexivity).
  rewrite Hd in Hready. destruct (Hready (fun _ => eq_refl) eq_refl [] (Signalled Terminate) eq_refl) as (telemetry & _ & Hm).
  exists telemetry, (if code =? 0 then Some tt else None). rewrite <- Hm. exact Hcalls.
Defined.
