(* ===== verification/SnapshotDemo.v ===== *)
(** Witnesses for the snapshot listener and the collector's snapshot command: a scrape of a fresh worker. *)
From stdpp Require Import base list gmap strings.
From Stdlib Require Import ZArith Lia SpecFloat.
From S2P Require Import Prelude Policy Float64 Text Telemetry Collector Reconcile KeyFile EventDaemon FileLogic EventLog SnapshotReader ServiceMetrics SnapshotSchema Service SnapshotServe.

Open Scope Z_scope.

#[local] Existing Instance Service.Example.quiet_kernel.

Definition toy_seconds (x : f64) : string := "0.0".
Definition toy_parse (s : string) : option f64 := Some (f64_of_Z 0).

#[export] Instance toy_samples : SampleLaws toy_seconds toy_parse.
Proof. split; [done|]. intros n Hn. split; [done|]. by split_and!; [| |simpl; lia]. Qed.

Definition toy_metrics : ServiceMetrics.Metrics unit unit :=
  node_metrics (Service.Example.quiet_node ServiceMetrics.WorkerRole 8).

Lemma toy_metrics_typed : metrics_typed toy_metrics.
Proof. split; [..|done]; apply (bool_decide_unpack _); by vm_compute. Qed.

Definition toy_scraper (uid : Z) : Conn := mk_conn (Some uid) [] AtEof (fun _ => WroteAll).

(** The exporter of the service's user 1000 in a directory of its own. *)
#[local] Instance demo_directories : Directories := fun _ => Some (mk_metadata true 1000 1000 488).
Definition demo_monitoring : Monitoring := mk_monitoring (Some (bytes_of_string "/run/leelo-metrics/worker.sock")) (Some 7) (Some 70).
Definition demo_owned : Owned := mk_owned (mk_disk ∅ 0) ∅.
Definition demo_exported : Owned := (start_exporter (H := EventLog.Example.calm_disk) demo_monitoring (Some 6) demo_owned).2.

Lemma demo_exports :
  start_exporter (H := EventLog.Example.calm_disk) demo_monitoring (Some 6) demo_owned = (Some (Some 7), demo_exported).
Proof. vm_compute. reflexivity. Qed.

Lemma snapshot_serving_witness :
  let s := snapshot_serve toy_seconds 7 (Service.Example.quiet_node ServiceMetrics.WorkerRole 8)
             [ScrapeAccepts (toy_scraper 7); ScrapePolls 0; ScrapeAccepts (toy_scraper 9); ScrapeEnds 0] in
  snapshots (node_metrics (exporter_node s)) = map (fun o => Z.of_nat (scrapes_as o (exporter_log s))) SnapshotOutcome.ALL.
Proof.
  exact (proj2 (proj2 (proj2 (proj2 (snapshot_serving (H := EventLog.Example.calm_disk) (Path := unit) (Socket := unit) toy_seconds
    demo_monitoring (Some 6) demo_owned demo_exported 7 demo_emitter 0 ServiceMetrics.WorkerRole 8 0 0%nat
    [ScrapeAccepts (toy_scraper 7); ScrapePolls 0; ScrapeAccepts (toy_scraper 9); ScrapeEnds 0]
    demo_exports ltac:(by vm_compute)))))).
Defined.

(** A socket that delivers a text in pieces of 4096 bytes from the second reading of the clock on. *)
Definition pieces (bytes : list Z) : SnapshotReader.Socket :=
  mk_socket (fun _ => 0) ConnectedNow (fun _ => PollReady) false (Some 5)
    (fun n => ReadBytes (drop (4096 * (n - 1)) bytes)).

Lemma pieces_deliver bytes k d : 0 < d -> (length bytes <= 4096 * k)%nat ->
  forall n, (1 <= n)%nat -> delivers (pieces bytes) d n (drop (4096 * (n - 1)) bytes).
Proof.
  intros Hd Hk n Hn. remember (length bytes - 4096 * (n - 1))%nat as rest eqn:Er. revert n Hn Er.
  induction (Nat.lt_wf_0 rest) as [rest _ IH]. intros n Hn ->.
  destruct (decide (drop (4096 * (n - 1)) bytes = [])) as [E|E].
  - rewrite E. by eapply delivers_end.
  - rewrite <- (take_drop 4096 (drop (4096 * (n - 1)) bytes)). rewrite drop_drop.
    eapply delivers_bytes; [done|reflexivity|done|].
    assert (4096 * (n - 1) < length bytes)%nat as Hlt.
    { destruct (Nat.lt_ge_cases (4096 * (n - 1)) (length bytes)) as [|Hge]; [done|]. by rewrite drop_ge in E. }
    replace (4096 * (n - 1) + 4096)%nat with (4096 * (S n - 1))%nat by lia. eapply IH; [|lia|reflexivity]. lia.
Qed.

Definition quick_clock : SnapshotReader.Socket :=
  mk_socket (fun n => Z.of_nat n * SNAPSHOT_DEADLINE) ConnectedNow (fun _ => PollReady) false (Some 5) (fun _ => ReadInterrupted).

Lemma snapshot_reader_witness :
  exists io, forall fuel, (1 < fuel)%nat ->
    snapshot_command (H := EventLog.Example.calm_disk) (fun _ => "x") toy_parse toy_seconds quick_clock fuel 5 SnapshotReader.WorkerRole None [115] "leelo.prom" = Some io.
Proof.
  destruct (snapshot_reader (H := EventLog.Example.calm_disk) (fun _ => "x") toy_parse toy_seconds quick_clock 5 SnapshotReader.WorkerRole None [115] "leelo.prom"
    ltac:(done) 1 ∅) as (io & Hio & _).
  { intros n Hn. unfold quick_clock. cbn [SnapshotReader.now]. unfold SNAPSHOT_DEADLINE. lia. }
  by exists io.
Defined.

Lemma snapshot_collected_witness :
  exists io enough, forall fuel, (enough <= fuel)%nat ->
    snapshot_command (H := EventLog.Example.calm_disk) (fun _ => "x") toy_parse toy_seconds
      (pieces (bytes_of_string (ServiceMetrics.snapshot toy_seconds toy_metrics))) fuel 5 SnapshotReader.WorkerRole None [115] "leelo.prom" = Some io.
Proof.
  destruct (snapshot_collected (H := EventLog.Example.calm_disk) (fun _ => "x") toy_parse toy_seconds
    (pieces (bytes_of_string (ServiceMetrics.snapshot toy_seconds toy_metrics))) 5 SnapshotReader.WorkerRole None [115] "leelo.prom" ltac:(done)
    toy_seconds toy_metrics (Service.Example.quiet_node ServiceMetrics.WorkerRole 8) (Service.Example.quiet_node ServiceMetrics.WorkerRole 8) (toy_scraper 7)
    (bytes_of_string (ServiceMetrics.snapshot toy_seconds toy_metrics)) 1 1 ∅ toy_metrics_typed eq_refl) as (io & enough & Hio & _).
  - generalize (bytes_of_string (ServiceMetrics.snapshot toy_seconds toy_metrics)). intros bytes. unfold bounded_write. simpl. by rewrite app_nil_r.
  - reflexivity.
  - reflexivity.
  - generalize (bytes_of_string (ServiceMetrics.snapshot toy_seconds toy_metrics)). intros bytes.
    by apply (pieces_deliver bytes (length bytes) _); [|lia|].
  - by exists io, enough.
Defined.
