(* ===== verification/Probe.v ===== *)
(** The probe, [leelo-probe]: one evaluation of a fixed public input by one configured provider, reported as
    text for a metrics collector and as an exit code. The provider is used through [leelo-net]; the parser of
    certificates, the forms of numbers and the JSON writer are parameters. *)
From stdpp Require Import base list gmap strings.
From Stdlib Require Import ZArith Lia.
From S2P Require Import Prelude Sss Crypto Wire Float64 Text ServiceMetrics Service Frontend Envelope Observation Net KeyFile EventDaemon Providers.

Open Scope Z_scope.

Module Probe.

(** * Outcomes, [lib.rs] *)

Inductive Outcome : Type :=
| Success | Configuration | Transport | Timeout | RemoteRejected | InvalidResponse | InvalidProof | Cryptography | Runtime.
#[export] Instance Outcome_eq_dec : EqDecision Outcome.
Proof. solve_decision. Defined.

Definition ALL : list Outcome :=
  [Success; Configuration; Transport; Timeout; RemoteRejected; InvalidResponse; InvalidProof; Cryptography; Runtime].

Definition as_str (o : Outcome) : string :=
  match o with
  | Success => "success"
  | Configuration => "configuration"
  | Transport => "transport"
  | Timeout => "timeout"
  | RemoteRejected => "remote_rejected"
  | InvalidResponse => "invalid_response"
  | InvalidProof => "invalid_proof"
  | Cryptography => "cryptography"
  | Runtime => "runtime"
  end.

(** [From<leelo_net::Error>] *)
Definition from_net (e : NetError.Error) : Outcome :=
  match e with
  | NetError.Configuration | NetError.DuplicateProvider | NetError.UnknownProvider | NetError.InvalidKeyId => Configuration
  | NetError.Transport => Transport
  | NetError.Timeout => Timeout
  | NetError.RemoteFailure => RemoteRejected
  | NetError.Protocol => InvalidResponse
  | NetError.Runtime => Runtime
  end.

(** The domain of the probe's input, separate from enrolled inputs. *)
Definition PROBE_INPUT : list Z := bytes_of_string "leelo/v1/independent-evaluation-probe" ++ [0] ++ bytes_of_string "nonproduction".

Record Report : Type := mk_report {
  schema_version : Z;
  target : Z;
  outcome : Outcome;
  success : bool;
  collection_success : bool;
  clock_valid : bool;
  started_timestamp_seconds : Z;
  completed_timestamp_seconds : Z;
  duration_seconds : f64;
  certificate_not_after_timestamp_seconds : option Z;
}.

(** * Configuration, [config.rs] *)

(** Steps that read files and may end with an outcome. *)
Definition P (A : Type) : Type := Disk -> result Outcome A * Disk.
#[export] Instance P_ret : MRet P := fun A a d => (Ok a, d).
#[export] Instance P_bind : MBind P := fun A B f m d =>
  match m d with (Ok a, d') => f a d' | (Err o, d') => (Err o, d') end.

Section Config.
Context `{FileSystem} `{ProvidersJson} `{Primitives} `{HttpLibrary} `{HttpClient}.

Definition end_with {A} (o : Outcome) : P A := fun d => (Err o, d).
(** [map_err(|_| Outcome::Configuration)] *)
Definition configured {A} (m : Io A) : P A := fun d =>
  match m d with (Some a, d') => (Ok a, d') | (None, d') => (Err Configuration, d') end.
Definition parsed {A} (m : option A) : P A := fun d => (ok_or m Configuration, d).

Definition read_regular (p : path) (limit : nat) : P (list Z) :=
  info ← configured (metadata p);
  if negb (entry_regular info) then end_with Configuration
  else
    file ← configured (open_read p);
    _ ← configured system_call;
    if negb (entry_regular file) then end_with Configuration
    else
      _ ← configured system_call;
      let bytes := take (limit + 1) (entry_bytes file) in
      if (limit <? length bytes)%nat then end_with Configuration else mret bytes.

Record Configured : Type := mk_configured_probe { network : HttpsNetworkProvider; binding : NetworkBinding }.

(** The selected provider: its certificates are read and its endpoint configured. *)
Definition select_provider (config : path) (p : ProviderConfig) (provider_id id public_key : list Z) : P Configured :=
  ca_pem ← read_regular (ca_path config (cfg_ca_file p)) MAX_CA_BYTES;
  match new_provider [mk_endpoint provider_id (cfg_url p) ca_pem] with
  | Ok network => mret (mk_configured_probe network (mk_binding 1 provider_id id public_key (replicate 32 0)))
  | Err e => end_with (from_net e)
  end.

(** The loop over the providers: every one is checked, the one at [target] is configured. *)
Fixpoint check_providers (config : path) (target : Z) (index : nat) (known : list (list Z)) (selected : option Configured)
    (l : list ProviderConfig) : P (option Configured) :=
  match l with
  | [] => mret selected
  | p :: l =>
      provider_id ← parsed (probe_unhex 32 (cfg_provider_id p));
      public_key ← parsed (probe_unhex 49 (cfg_public_key p));
      id ← parsed (probe_unhex 32 (cfg_key_id p));
      if bool_decide (provider_id ∈ known) || negb (bool_decide (key_id public_key = id)) then end_with Configuration
      else
        match server_public_key_from_bytes public_key with
        | Err _ => end_with Configuration
        | Ok _ =>
            if negb (Z.of_nat (index + 1) =? target)
            then check_providers config target (S index) (provider_id :: known) selected l
            else
              c ← select_provider config p provider_id id public_key;
              check_providers config target (S index) (provider_id :: known) (Some c) l
        end
  end.

Definition read (config : path) (target : Z) : P Configured :=
  bytes ← read_regular config MAX_CONFIG_BYTES;
  l ← parsed (providers_from_slice bytes);
  if (length l =? 0)%nat || (MAX_TARGETS <? length l)%nat || (target =? 0) || (Z.of_nat (length l) <? target)
  then end_with Configuration
  else
    selected ← check_providers config target 0 [] None l;
    parsed selected.
End Config.

(** * One evaluation *)

Section Run.
Context `{FileSystem} `{ProvidersJson} `{Primitives} `{HttpLibrary} `{HttpClient} {R : Type} `{Rng R}.
Context (send : TlsClient -> Url -> HttpRequest -> Z -> SendAnswer) (in_runtime runtime_builds : bool).
(** [x509_cert::Certificate::from_der] with the seconds of its end of validity *)
Context (certificate_expiry : list Z -> option Z).

Definition finalize_outcome (e : CryptoError.Error) : Outcome :=
  match e with
  | CryptoError.InvalidEncoding => InvalidResponse
  | CryptoError.InvalidProof => InvalidProof
  | _ => Cryptography
  end.

(** The closure of [run] after the configuration: the result and the certificate it observed. *)
Definition evaluate_once (c : Configured) (rng : R) (now : Z) : result Outcome unit * option Z :=
  match server_public_key_from_bytes (public_key (binding c)) with
  | Err _ => (Err Configuration, None)
  | Ok pin =>
      match (blind_with_entropy PROBE_INPUT rng).1 with
      | Err _ => (Err Cryptography, None)
      | Ok (state, point) =>
          let observed := evaluate_binding_observed send in_runtime runtime_builds (network c) (binding c) point now in
          (evaluation ← map_err from_net (observed_evaluation observed);
           _ ← map_err finalize_outcome (finalize state evaluation pin);
           Ok tt,
           peer_certificate_der observed ≫= certificate_expiry)
      end
  end.

(** What [run] reads besides files and the network: the wall clock before and after, and its duration. *)
Record Clocks : Type := mk_clocks { started : option Z; completed : option Z; elapsed : f64; exchange_start : Z }.

Definition run (config : path) (tgt : Z) (rng : R) (clocks : Clocks) (d : Disk) : Report * Disk :=
  let '(configured, d') := read config tgt d in
  let '(result, certificate) :=
    match configured with
    | Ok c => evaluate_once c rng (exchange_start clocks)
    | Err o => (Err o, None)
    end in
  let out := match result with Ok _ => Success | Err o => o end in
  let valid := match started clocks, completed clocks with Some a, Some b => a <=? b | _, _ => false end in
  (mk_report 1 tgt out (bool_decide (out = Success))
     (valid && (negb (bool_decide (out = Success)) || bool_decide (is_Some certificate)))
     valid (default 0 (started clocks)) (default 0 (completed clocks)) (elapsed clocks) certificate, d').
End Run.

(** * Output, [output.rs] and [main.rs] *)

Section Output.
(** The forms [{:.6}] of an [f64]. *)
Context (display_f64_6 : f64 -> string).

Definition of_bool (b : bool) : Z := if b then 1 else 0.

Definition header (name help : string) : string :=
  "# HELP " +:+ name +:+ " " +:+ help +:+ newline +:+ "# TYPE " +:+ name +:+ " gauge" +:+ newline.
Definition series (name : string) (labels : string) : string := name +:+ "{" +:+ labels +:+ "}".
Definition target_label (self : Report) : string := label "target" (display_u64 (target self)).

(** One gauge with its header. *)
Definition gauge (self : Report) (name help value : string) : string :=
  header name help +:+ sample (series name (target_label self)) value.

Definition gauges (self : Report) : list (string * string * Z) :=
  [("leelo_probe_success", "Last attempt completed a valid evaluation under the configured pin.", of_bool (success self));
   ("leelo_probe_collection_success", "Last attempt produced a complete observation with a valid clock.",
    of_bool (collection_success self));
   ("leelo_probe_clock_valid", "Wall-clock endpoint timestamps are available and nondecreasing.", of_bool (clock_valid self));
   ("leelo_probe_started_timestamp_seconds", "Start of the latest attempt, Unix seconds.", started_timestamp_seconds self);
   ("leelo_probe_last_attempt_timestamp_seconds", "Completion of the latest attempt including failed attempts, Unix seconds.",
    completed_timestamp_seconds self);
   ("leelo_probe_certificate_observed", "A validated TLS peer leaf certificate expiry was observed during this attempt.",
    of_bool (bool_decide (is_Some (certificate_not_after_timestamp_seconds self))))]%string.

Definition outcome_line (self : Report) (o : Outcome) : string :=
  sample (series "leelo_probe_outcome" (target_label self +:+ "," +:+ label "outcome" (as_str o)))
    (display_u64 (of_bool (bool_decide (outcome self = o)))).

Definition prometheus (self : Report) : string :=
  String.concat "" (map (fun '(name, help, value) => gauge self name help (display_u64 value)) (gauges self)) +:+
  gauge self "leelo_probe_duration_seconds" "Elapsed monotonic duration of the latest attempt."
    (display_f64_6 (duration_seconds self)) +:+
  header "leelo_probe_outcome" "One-hot result of the latest attempt." +:+
  String.concat "" (map (outcome_line self) ALL) +:+
  match certificate_not_after_timestamp_seconds self with
  | Some expiry =>
      gauge self "leelo_tls_certificate_not_after_timestamp_seconds"
        "Expiry of the actually observed validated peer leaf certificate." (display_u64 expiry)
  | None => ""
  end.

(** [Path::extension]: what follows the last dot of the file name, unless that dot comes first. *)
Fixpoint split_last_dot (name : list Z) : option (list Z * list Z) :=
  match name with
  | [] => None
  | b :: name =>
      match split_last_dot name with
      | Some (stem, extension) => Some (b :: stem, extension)
      | None => if b =? 46 then Some ([], name) else None
      end
  end.
Definition extension (p : path) : option (list Z) :=
  name ← file_name p;
  '(stem, extension) ← split_last_dot name;
  if bool_decide (stem = []) then None else Some extension.

Context `{FileSystem} (suffix : nat -> string).

Definition textfile_parent (p : path) : path :=
  match path_parent p with
  | Some parent => if bool_decide (parent = []) then bytes_of_string "." else parent
  | None => bytes_of_string "."
  end.
Definition temporary (p : path) (n : nat) : path := path_join (textfile_parent p) (bytes_of_string (".leelo-probe-" +:+ suffix n)).

(** The temporary file is made in the directory of [p], and removed when a later step fails. *)
Definition write_textfile (p : path) (self : Report) : Io unit := fun d =>
  if bool_decide (extension p <> Some (bytes_of_string "prom")) then (None, d)
  else
    let temp := temporary p (tries d) in
    (_ ← create_new temp 384;
     cleaning temp (_ ← set_permissions temp 420; _ ← write_all temp (bytes_of_string (prometheus self));
                    _ ← sync_all temp; rename temp p)) d.

(** The end of [main]: the report that is printed, when [serde_json] can write it, and the exit code. *)
Context (report_json : Report -> option string).

Definition finish (p : path) (self : Report) (d : Disk) : (option string * Z) * Disk :=
  let '(written, d') := write_textfile p self d in
  let self := match written with
              | Some _ => self
              | None => mk_report (schema_version self) (target self) (outcome self) (success self) false (clock_valid self)
                          (started_timestamp_seconds self) (completed_timestamp_seconds self) (duration_seconds self)
                          (certificate_not_after_timestamp_seconds self)
              end in
  (match report_json self with
   | None => (None, 2)
   | Some json => (Some json, if negb (collection_success self) then 2 else if success self then 0 else 1)
   end, d').
End Output.
End Probe.
