(* ===== verification/ProbeConfig.v ===== *)
(** The commands and the probe read the same configuration in the same way: where both accept it, the probe's
    provider is the commands' provider of that index, with the same endpoint; and the probe accepts what the
    commands accept, if the keys are points and the files regular. *)
From stdpp Require Import base list gmap strings.
From Stdlib Require Import ZArith Lia.
From S2P Require Import Prelude Sss Crypto Wire Float64 Text ServiceMetrics Service Frontend Envelope Observation Net KeyFile EventDaemon FileLogic Providers Probe.
Import Probe.

Open Scope Z_scope.

(** * Hexadecimal fields *)

Lemma hex_decode_length_from n : forall l bytes, (length l <= n)%nat ->
  hex_decode l = Some bytes -> length l = (2 * length bytes)%nat.
Proof.
  induction n as [|n IH]; intros [|a [|b rest]] bytes Hn; simpl in *; try lia; try done; [by intros [= <-]..|].
  destruct (to_digit16 a), (to_digit16 b); simpl; try done. destruct (hex_decode rest) as [bs|] eqn:E; simpl; [|done].
  intros [= <-]. apply IH in E; [simpl; lia|lia].
Qed.

Lemma probe_unhex_same n text : probe_unhex n text = unhex n text.
Proof.
  unfold probe_unhex, unhex. rewrite str_len_bytes. destruct (hex_decode (bytes_of_string text)) as [bytes|] eqn:E; simpl.
  - pose proof (hex_decode_length_from _ _ _ (le_n _) E) as Hl. destruct (Nat.eqb_spec (length bytes) n) as [<-|Hne].
    + rewrite (proj2 (Z.eqb_eq _ _)) by lia. done.
    + rewrite (proj2 (Z.eqb_neq _ _)) by lia. done.
  - by destruct (negb _).
Qed.

(** * Reading *)

Section Looks.
Context `{FileSystem}.

(** The probe's steps likewise. *)
Definition checks {A : Type} (e : gmap path Entry) (m : P A) (Q : result Outcome A -> Prop) : Prop :=
  forall t, entries (m (mk_disk e t)).2 = e /\ Q (m (mk_disk e t)).1.

Lemma checks_bind {A B : Type} (e : gmap path Entry) (m : P A) (f : A -> P B) (Q : result Outcome B -> Prop) :
  checks e m (fun r => match r with Ok a => checks e (f a) Q | Err o => Q (Err o) end) -> checks e (m ≫= f) Q.
Proof.
  intros Hm t. specialize (Hm t). unfold mbind, P_bind. destruct (m _) as [[a|o] [e' t']]; cbn in Hm; destruct Hm as [-> Hm]; [|done].
  exact (Hm t').
Qed.

Lemma checks_mono {A : Type} (e : gmap path Entry) (m : P A) (Q Q' : result Outcome A -> Prop) : checks e m Q -> (forall r, Q r -> Q' r) -> checks e m Q'.
Proof. intros Hm HQ t. destruct (Hm t) as [He Hq]. auto. Qed.

Lemma checks_ret {A : Type} (e : gmap path Entry) (a : A) (Q : result Outcome A -> Prop) : Q (Ok a) -> checks e (mret a) Q.
Proof. by intros HQ t. Qed.
Lemma checks_end {A : Type} (e : gmap path Entry) o (Q : result Outcome A -> Prop) : Q (Err o) -> checks e (end_with o) Q.
Proof. by intros HQ t. Qed.
Lemma checks_parsed {A : Type} (e : gmap path Entry) (o : option A) (Q : result Outcome A -> Prop) : Q (ok_or o Configuration) -> checks e (parsed o) Q.
Proof. by intros HQ t. Qed.
Lemma checks_configured {A : Type} (e : gmap path Entry) (m : Io A) (Q : result Outcome A -> Prop) :
  looks e m (fun o => Q (ok_or o Configuration)) -> checks e (configured m) Q.
Proof. intros Hm t. specialize (Hm t). unfold configured. destruct (m _) as [[a|] d]; cbn in *; destruct Hm as [-> ?]; done. Qed.

Lemma checks_read_regular (e : gmap path Entry) (p : path) (max : nat) (Q : result Outcome (list Z) -> Prop) :
  (forall bytes f, content e p max bytes -> e !! p = Some f -> entry_regular f = true -> Q (Ok bytes)) ->
  (~ calm \/ ~ (exists bytes f, content e p max bytes /\ e !! p = Some f /\ entry_regular f = true) -> Q (Err Configuration)) ->
  checks e (read_regular p max) Q.
Proof.
  intros H1 H2. apply checks_bind, checks_configured. intros t. unfold metadata. cbn [entries].
  destruct (e !! p) as [f|] eqn:Hf.
  2: { split; [done|]. apply H2. right. intros (b & f & _ & ? & _). congruence. }
  apply (looks_bind e system_call (fun _ => mret f)). apply looks_system_call; [|intros; apply H2; by left].
  apply wp_ret. split; [done|]. cbn [ok_or].
  destruct (entry_regular f) eqn:Hr; cbn [negb].
  2: { apply checks_end, H2. right. intros (b & f' & _ & Hf' & Hr'). congruence. }
  apply checks_bind, checks_configured, looks_open_read; [|intros [?|?]; [congruence|apply H2; by left]].
  intros f' Hf'. rewrite Hf in Hf'. injection Hf' as <-. cbn [ok_or].
  apply checks_bind, checks_configured, looks_system_call; [|intros; apply H2; by left]. cbn [ok_or]. rewrite Hr. cbn [negb].
  apply checks_bind, checks_configured, looks_system_call; [|intros; apply H2; by left]. cbn [ok_or].
  pose proof (bounded_take (entry_bytes f) max) as Hb. cbv zeta. destruct (_ <? _)%nat.
  - apply checks_end, H2. right. intros (b & f' & (f2 & Hf2 & -> & Hl) & _). rewrite Hf in Hf2. injection Hf2 as <-. lia.
  - destruct Hb as [-> Hl]. apply checks_ret, (H1 _ f); [by exists f|done|done].
Qed.
End Looks.

(** * One configuration, two readers *)

Section Agree.
Context `{FileSystem} `{ProvidersJson} `{Primitives} `{HttpLibrary} `{HttpClientLaws}.

(** The identity that the fields of a provider spell. *)
Definition spells (p : ProviderConfig) (i : Identity) : Prop :=
  unhex 32 (cfg_provider_id p) = Some (id_provider i) /\ unhex 49 (cfg_public_key p) = Some (id_public_key i) /\
  unhex 32 (cfg_key_id p) = Some (id_key i) /\ key_id (id_public_key i) = id_key i.

(** Its endpoint, with the content of its certificate file. *)
Definition endpoint_read (e : gmap path Entry) (config : path) (p : ProviderConfig) (i : Identity) (ep : Endpoint) : Prop :=
  content e (ca_path config (cfg_ca_file p)) MAX_CA_BYTES (ep_ca_pem ep) /\
  ep_provider_id ep = id_provider i /\ ep_url ep = cfg_url p.

Definition provider_read (e : gmap path Entry) (config : path) (p : ProviderConfig) (r : Identity * Endpoint) : Prop :=
  spells p r.1 /\ endpoint_read e config p r.1 r.2.

Lemma spells_fun p i i' : spells p i -> spells p i' -> i = i'.
Proof. destruct i, i'. intros (A1 & A2 & A3 & _) (B1 & B2 & B3 & _). simpl in *. congruence. Qed.

Lemma endpoint_read_fun (e : gmap path Entry) config p i ep ep' :
  endpoint_read e config p i ep -> endpoint_read e config p i ep' -> ep = ep'.
Proof.
  destruct ep, ep'. intros ((f & Hf & A1 & _) & A2 & A3) ((f' & Hf' & B1 & _) & B2 & B3). simpl in *.
  rewrite Hf in Hf'. injection Hf' as <-. congruence.
Qed.

Lemma looks_read_provider (e : gmap path Entry) config p :
  looks e (read_provider config p) (fun o => forall r, o = Some r -> provider_read e config p r).
Proof.
  unfold read_provider. apply looks_bind, looks_or_refuse. destruct (unhex 32 (cfg_provider_id p)) as [pid|] eqn:E1; [|done].
  apply looks_bind, looks_or_refuse. destruct (unhex 49 (cfg_public_key p)) as [key|] eqn:E2; [|done].
  apply looks_bind, looks_or_refuse. destruct (unhex 32 (cfg_key_id p)) as [id|] eqn:E3; [|done].
  case_bool_decide as Hk; cbn [negb]; [|by apply wp_refuse]. apply looks_bind, looks_read_bounded; [|done].
  intros ca Hca. apply wp_ret. split; [done|]. intros r [= <-]. done.
Qed.

Lemma looks_read_providers (e : gmap path Entry) config l :
  looks e (read_providers config l) (fun o => forall read, o = Some read -> Forall2 (provider_read e config) l read).
Proof.
  induction l as [|p l IH]; cbn [read_providers].
  - apply wp_ret. split; [done|]. intros read [= <-]. constructor.
  - apply looks_bind. eapply looks_mono; [apply looks_read_provider|]. intros [r|] Hr; [|done].
    apply looks_bind. eapply looks_mono; [exact IH|]. intros [rest|] Hrest; [|done].
    apply wp_ret. split; [done|]. intros read [= <-]. constructor; auto.
Qed.

(** What the commands have read. *)
Definition commands_read (e : gmap path Entry) (config : path) (self : Providers) : Prop :=
  exists bytes l read, content e config MAX_CONFIG_BYTES bytes /\ providers_from_slice bytes = Some l /\
    (1 <= length l <= MAX_TARGETS)%nat /\ Forall2 (provider_read e config) l read /\
    new_provider (map snd read) = Ok (network_of self) /\ identities self = map fst read.

Lemma looks_providers_read (e : gmap path Entry) config :
  looks e (providers_read config) (fun o => forall self, o = Some self -> commands_read e config self).
Proof.
  unfold providers_read. apply looks_bind, looks_read_bounded; [|done]. intros bytes Hb.
  apply looks_bind, looks_or_refuse. destruct (providers_from_slice bytes) as [l|] eqn:El; [|done].
  destruct (Nat.eqb_spec (length l) 0) as [|Hl]; [by apply wp_refuse|].
  destruct (Nat.ltb_spec MAX_TARGETS (length l)) as [|Hm]; [by apply wp_refuse|]. cbn [orb].
  apply looks_bind. eapply looks_mono; [apply looks_read_providers|]. intros [read|] Hr; [|done].
  destruct (new_provider (map snd read)) as [n|] eqn:En; [|by apply wp_refuse].
  apply wp_ret. split; [done|]. intros self [= <-]. exists bytes, l, read. split_and!; try done; [lia|by apply Hr].
Qed.

(** What the probe has configured for a provider. *)
Definition probe_selected (e : gmap path Entry) (config : path) (p : ProviderConfig) (i : Identity) (c : Configured) : Prop :=
  binding c = mk_binding 1 (id_provider i) (id_key i) (id_public_key i) (replicate 32 0) /\
  exists ep, endpoint_read e config p i ep /\ new_provider [ep] = Ok (network c).

(** The certificate file is a regular file within its bound, and the endpoint can be configured. *)
Definition selectable (e : gmap path Entry) (config : path) (p : ProviderConfig) (i : Identity) : Prop :=
  exists ep f, endpoint_read e config p i ep /\ e !! ca_path config (cfg_ca_file p) = Some f /\ entry_regular f = true /\
    is_ok (configure_endpoint ep) = true.

Lemma new_provider_one ep : is_ok (configure_endpoint ep) = true -> is_ok (new_provider [ep]) = true.
Proof.
  unfold new_provider. cbn. destruct (configure_endpoint ep); [|done]. intros _. cbn.
  rewrite bool_decide_eq_false_2; [done|]. rewrite lookup_empty. by intros [].
Qed.

Lemma checks_select (e : gmap path Entry) config p i :
  checks e (select_provider config p (id_provider i) (id_key i) (id_public_key i))
    (fun r => (forall c, r = Ok c -> probe_selected e config p i c) /\ (calm -> selectable e config p i -> is_ok r = true)).
Proof.
  apply checks_bind, checks_read_regular.
  - intros ca f Hca Hf Hr. set (ep := mk_endpoint (id_provider i) (cfg_url p) ca).
    assert (endpoint_read e config p i ep) as Hep by done.
    destruct (new_provider [ep]) as [n|err] eqn:En.
    + apply checks_ret. split; [|done]. intros c [= <-]. split; [done|]. by exists ep.
    + apply checks_end. split; [done|]. intros _ (ep' & f' & Hep' & _ & _ & Hc).
      rewrite (endpoint_read_fun _ _ _ _ _ _ Hep' Hep) in Hc. apply new_provider_one in Hc. by rewrite En in Hc.
  - intros Hn. split; [done|]. intros Hc (ep & f & ((f' & Hf' & E1 & E2) & _) & Hf & Hr & _). exfalso.
    destruct Hn as [Hn|Hn]; [done|]. apply Hn. exists (ep_ca_pem ep), f. split_and!; [by exists f'|done|done].
Qed.

(** The checks of one provider. *)
Definition acceptable_identity (known : list (list Z)) (i : Identity) : Prop :=
  id_provider i ∉ known /\ is_ok (server_public_key_from_bytes (id_public_key i)) = true.

(** What the loop returns: the provider at index [n], or what was selected before it. *)
Definition loop_result (e : gmap path Entry) (config : path) (n index : nat) (selected out : option Configured)
    (l : list ProviderConfig) : Prop :=
  ((n < index)%nat -> out = selected) /\
  forall k, n = (index + k)%nat -> (k < length l)%nat ->
    exists p i c, l !! k = Some p /\ spells p i /\ out = Some c /\ probe_selected e config p i c.

Definition loop_spec (e : gmap path Entry) (config : path) (n index : nat) (known : list (list Z)) (selected : option Configured)
    (l : list ProviderConfig) (r : result Outcome (option Configured)) : Prop :=
  (forall out, r = Ok out -> loop_result e config n index selected out l) /\
  (calm -> forall ids, Forall2 spells l ids -> NoDup (map id_provider ids) -> Forall (acceptable_identity known) ids ->
     (forall k p i, n = (index + k)%nat -> l !! k = Some p -> ids !! k = Some i -> selectable e config p i) -> is_ok r = true).

(** A provider that fails a check ends the loop. *)
Lemma loop_rejects (e : gmap path Entry) config n index known selected p l o :
  (forall i, spells p i -> ~ acceptable_identity known i) -> loop_spec e config n index known selected (p :: l) (Err o).
Proof.
  intros Hs. split; [done|]. intros _ ids Hf _ Ha _. exfalso.
  apply Forall2_cons_inv_l in Hf as (i & ids' & Hi & _ & ->). apply Forall_cons in Ha as [Ha _]. by apply (Hs i).
Qed.

(** The rest of the loop, after a provider that passed. *)
Lemma loop_continues (e : gmap path Entry) config n index known selected selected' p i l r :
  spells p i ->
  (n = index -> exists c, selected' = Some c /\ probe_selected e config p i c) -> (n <> index -> selected' = selected) ->
  loop_spec e config n (S index) (id_provider i :: known) selected' l r -> loop_spec e config n index known selected (p :: l) r.
Proof.
  intros Hi Heq Hne [Hr Ht]. split.
  - intros out E. destruct (Hr out E) as [R1 R2]. split; [intros Hlt; rewrite R1 by lia; apply Hne; lia|].
    intros [|k] Hk Hl.
    + destruct Heq as (c & Hc & Hsel); [lia|]. exists p, i, c. split_and!; [done|done| |done]. rewrite R1 by lia. done.
    + apply (R2 k); simpl in *; lia.
  - intros Hc ids Hf Hnd Ha Hsel. apply Forall2_cons_inv_l in Hf as (i' & ids' & Hi' & Hf & ->).
    rewrite (spells_fun _ _ _ Hi' Hi) in *. cbn [map] in Hnd. apply NoDup_cons in Hnd as [Hni Hnd]. apply Forall_cons in Ha as [_ Ha].
    apply (Ht Hc ids' Hf Hnd).
    + rewrite Forall_forall in *. intros j Hj. destruct (Ha j Hj) as [A1 A2]. split; [|done].
      rewrite not_elem_of_cons. split; [|done]. intros E. apply Hni. rewrite <- E. by apply list_elem_of_fmap_2.
    + intros k q j Hk Hq Hj. apply (Hsel (S k)); [lia|done|done].
Qed.

Lemma checks_providers (e : gmap path Entry) config n l : forall index known selected,
  checks e (check_providers config (Z.of_nat (S n)) index known selected l) (loop_spec e config n index known selected l).
Proof.
  induction l as [|p l IH]; intros index known selected; cbn [check_providers].
  { apply checks_ret. split; [|done]. intros out [= <-]. split; [done|]. intros k _ Hk. simpl in Hk. lia. }
  rewrite !probe_unhex_same.
  apply checks_bind, checks_parsed. destruct (unhex 32 (cfg_provider_id p)) as [pid|] eqn:E1; cbn [ok_or].
  2: { apply loop_rejects. intros i (A & _). congruence. }
  apply checks_bind, checks_parsed. destruct (unhex 49 (cfg_public_key p)) as [key|] eqn:E2; cbn [ok_or].
  2: { apply loop_rejects. intros i (_ & A & _). congruence. }
  apply checks_bind, checks_parsed. destruct (unhex 32 (cfg_key_id p)) as [id|] eqn:E3; cbn [ok_or].
  2: { apply loop_rejects. intros i (_ & _ & A & _). congruence. }
  case_bool_decide as Hknown; cbn [orb].
  { apply checks_end, loop_rejects. intros i (A & _) [B _]. apply B. congruence. }
  case_bool_decide as Hkey; cbn [negb].
  2: { apply checks_end, loop_rejects. intros i (A1 & A2 & A3 & A4). congruence. }
  set (i := mk_identity pid id key). assert (spells p i) as Hi by done.
  destruct (server_public_key_from_bytes key) as [pin|] eqn:Epin.
  2: { apply checks_end, loop_rejects. intros i' Hi' [_ B]. rewrite (spells_fun _ _ _ Hi' Hi) in B. cbn [i id_public_key] in B.
       by rewrite Epin in B. }
  destruct (Z.eqb_spec (Z.of_nat (index + 1)) (Z.of_nat (S n))) as [En|En]; cbn [negb].
  - apply checks_bind. eapply checks_mono; [apply (checks_select e config p i)|]. intros r [Hsel Htot].
    destruct r as [c|o].
    + eapply checks_mono; [apply IH|]. intros r Hr. eapply (loop_continues e config n index known selected (Some c) p i); try done; [|lia].
      intros _. exists c. auto.
    + split; [done|]. intros Hc ids Hf _ _ Hs. apply Forall2_cons_inv_l in Hf as (i' & ids' & Hi' & _ & ->).
      rewrite (spells_fun _ _ _ Hi' Hi) in *. apply (Htot Hc). apply (Hs 0%nat); [lia|done|done].
  - eapply checks_mono; [apply IH|]. intros r Hr. eapply (loop_continues e config n index known selected selected p i); try done. lia.
Qed.

Lemma commands_selectable (e : gmap path Entry) config l read network :
  (forall q f, e !! q = Some f -> entry_regular f = true) -> Forall2 (provider_read e config) l read ->
  new_provider (map snd read) = Ok network ->
  forall k p i, l !! k = Some p -> map fst read !! k = Some i -> selectable e config p i.
Proof.
  intros Hreg Hf Hn k p i Hp Hi. destruct (Forall2_lookup_l _ _ _ _ _ Hf Hp) as ([i' ep] & Hr & Hs & Hep).
  apply list_lookup_fmap_Some in Hi as (r & -> & Hr'). rewrite Hr in Hr'. injection Hr' as <-. cbn [fst snd] in *.
  pose proof Hep as ((f & Hca & _) & _). exists ep, f. split_and!; [done|done|by apply (Hreg _ _ Hca)|].
  apply new_provider_iff in Hn as (_ & _ & Hok & _). rewrite Forall_forall in Hok. apply Hok.
  apply list_elem_of_fmap. exists (i', ep). split; [done|]. by apply list_elem_of_lookup_2 in Hr.
Qed.

(** What the probe has read, and when it succeeds. *)
Definition probe_spec (e : gmap path Entry) (config : path) (n : nat) (r : result Outcome Configured) : Prop :=
  (forall c, r = Ok c -> exists bytes l p i, content e config MAX_CONFIG_BYTES bytes /\ providers_from_slice bytes = Some l /\
     l !! n = Some p /\ spells p i /\ probe_selected e config p i c) /\
  (calm -> forall self, commands_read e config self -> (n < length (identities self))%nat ->
     Forall (fun i => is_ok (server_public_key_from_bytes (id_public_key i)) = true) (identities self) ->
     (forall q f, e !! q = Some f -> entry_regular f = true) -> is_ok r = true).

Lemma content_fun (e : gmap path Entry) (p : path) max max' bytes bytes' :
  content e p max bytes -> content e p max' bytes' -> bytes = bytes'.
Proof. intros (f & Hf & -> & _) (f' & Hf' & -> & _). congruence. Qed.

Lemma checks_probe_read (e : gmap path Entry) config n :
  checks e (Probe.read config (Z.of_nat (S n))) (probe_spec e config n).
Proof.
  apply checks_bind, checks_read_regular.
  2: { intros Hn. split; [done|]. intros Hc self (bytes & l & read & Hb & _) _ _ Hreg. exfalso. destruct Hn as [?|Hn]; [done|].
       apply Hn. pose proof Hb as (f & Hf & _). exists bytes, f. split_and!; [done|done|by apply (Hreg _ _ Hf)]. }
  intros bytes _ Hbytes _ _. apply checks_bind, checks_parsed.
  destruct (providers_from_slice bytes) as [l|] eqn:El; cbn [ok_or].
  2: { split; [done|]. intros _ self (bytes' & l & read & Hb & Hl & _). rewrite (content_fun _ _ _ _ _ _ Hb Hbytes) in Hl. congruence. }
  assert (forall self, commands_read e config self -> exists read, (1 <= length l <= MAX_TARGETS)%nat /\
    Forall2 (provider_read e config) l read /\ new_provider (map snd read) = Ok (network_of self) /\ identities self = map fst read) as Hcmd.
  { intros self (bytes' & l' & read & Hb & Hl & Hlen & Hr). rewrite (content_fun _ _ _ _ _ _ Hb Hbytes), El in Hl.
    injection Hl as <-. by exists read. }
  destruct (_ || _) eqn:Eg.
  { apply checks_end. split; [done|]. intros _ self Hself Hn. destruct (Hcmd self Hself) as (read & Hlen & Hr & _ & Hids).
    rewrite Hids, length_map, <- (Forall2_length _ _ _ Hr) in Hn. exfalso. revert Eg.
    destruct (Nat.eqb_spec (length l) 0), (Nat.ltb_spec MAX_TARGETS (length l)), (Z.eqb_spec (Z.of_nat (S n)) 0),
      (Z.ltb_spec (Z.of_nat (length l)) (Z.of_nat (S n))); try done; lia. }
  rewrite !orb_false_iff, Z.ltb_ge in Eg. destruct Eg as (_ & Hn).
  apply checks_bind. eapply checks_mono; [apply checks_providers|]. intros [out|o] [Hres Htot].
  - destruct (Hres out eq_refl) as [_ Hsel]. destruct (Hsel n) as (p & i & c & Hp & Hi & -> & Hc); [done|lia|].
    apply checks_parsed. cbn [ok_or]. split; [|done]. intros c' [= <-]. by exists bytes, l, p, i.
  - split; [done|]. intros Hc self Hself _ Hpins Hreg. destruct (Hcmd self Hself) as (read & _ & Hr & Hnew & Hids).
    apply (Htot Hc (map fst read)).
    + apply Forall2_fmap_r. eapply Forall2_impl; [exact Hr|]. by intros p r [? _].
    + pose proof Hnew as (_ & Hnd & _)%new_provider_iff. rewrite map_map in Hnd |- *. erewrite map_ext_in; [exact Hnd|].
      intros r Hin. apply list_elem_of_In in Hin. apply list_elem_of_lookup_1 in Hin as [k Hk].
      destruct (Forall2_lookup_r _ _ _ _ _ Hr Hk) as (p & _ & _ & (_ & E & _)). by rewrite E.
    + rewrite Hids in Hpins. eapply Forall_impl; [exact Hpins|]. intros i Hi. split; [apply not_elem_of_nil|done].
    + intros k p i _. by eapply commands_selectable.
Qed.
End Agree.

(** * Property *)

(** C33: the probe probes what the commands use. The two programs read the same configuration file and change no
    file. If both accept it, the identity that the probe is bound to is the commands' identity at that index,
    and its only endpoint is the one the commands post to for that provider. If the commands accept it, the
    target is one of its providers, their pinned keys are points of the group, the files are regular and no
    call fails, then the probe accepts it. *)
Theorem probe_configuration `{FileSystem} `{ProvidersJson} `{Primitives} `{HttpLibrary} `{HttpClientLaws} config n (d : Disk) :
  entries (providers_read config d).2 = entries d /\
  entries (Probe.read config (Z.of_nat (S n)) d).2 = entries d /\
  (forall self d1 c d2, providers_read config d = (Some self, d1) -> Probe.read config (Z.of_nat (S n)) d = (Ok c, d2) ->
     exists i endpoint, identities self !! n = Some i /\
       binding c = mk_binding 1 (id_provider i) (id_key i) (id_public_key i) (replicate 32 0) /\
       endpoints (network_of self) !! id_provider i = Some endpoint /\
       forall id, endpoints (network c) !! id = if decide (id = id_provider i) then Some endpoint else None) /\
  (forall self d1, calm -> providers_read config d = (Some self, d1) -> (n < length (identities self))%nat ->
     Forall (fun i => is_ok (server_public_key_from_bytes (id_public_key i)) = true) (identities self) ->
     (forall q f, entries d !! q = Some f -> entry_regular f = true) ->
     exists c d2, Probe.read config (Z.of_nat (S n)) d = (Ok c, d2)).
Proof.
  destruct d as [e t]. pose proof (looks_providers_read e config t) as Hcmd. pose proof (checks_probe_read e config n t) as [He Hprobe].
  destruct (providers_read config (mk_disk e t)) as [o d1'] eqn:Ec. destruct Hcmd as [Hd1 Hcmd].
  destruct (Probe.read config (Z.of_nat (S n)) (mk_disk e t)) as [r d2'] eqn:Ep. cbn [fst snd entries] in *.
  destruct Hprobe as [Hres Htot]. split_and!; [done|done| |].
  - intros self d1 c d2 [= -> ->] [= -> ->]. destruct (Hcmd self eq_refl) as (bytes & l & read & Hb & Hl & _ & Hr & Hnew & Hids).
    destruct (Hres c eq_refl) as (bytes' & l' & p & i & Hb' & Hl' & Hp & Hi & Hbind & ep & Hep & Hone).
    rewrite (content_fun _ _ _ _ _ _ Hb' Hb), Hl in Hl'. injection Hl' as <-.
    destruct (Forall2_lookup_l _ _ _ _ _ Hr Hp) as ([i' ep'] & Hread & Hi' & Hep'). cbn [fst snd] in *.
    assert (i' = i) as -> by by eapply spells_fun. assert (ep' = ep) as -> by by eapply endpoint_read_fun.
    apply new_provider_iff in Hone as (_ & _ & Hok & Hlook). apply Forall_cons in Hok as [Hok _].
    destruct (configure_endpoint ep) as [endpoint|] eqn:Econf; [|done]. pose proof Hep as (_ & Eid & _).
    exists i, endpoint. split_and!; [rewrite Hids; apply list_lookup_fmap_Some; by exists (i, ep)|done| |].
    + apply new_provider_iff in Hnew as (_ & _ & _ & Hlook'). apply Hlook'. exists ep. split_and!; [|done|done].
      apply list_elem_of_fmap. exists (i, ep). split; [done|]. by apply list_elem_of_lookup_2 in Hread.
    + intros id. apply option_eq. intros x. rewrite Hlook. case_decide as Hd.
      * subst id. split; [intros (ep' & Hin%list_elem_of_singleton & _ & Hx); congruence|]. intros [= <-]. exists ep.
        split_and!; [by apply list_elem_of_singleton|done|done].
      * split; [|done]. intros (ep' & Hin%list_elem_of_singleton & Hx & _). exfalso. apply Hd. congruence.
  - intros self d1 Hc [= -> ->] Hn Hpins Hreg. specialize (Htot Hc self (Hcmd self eq_refl) Hn Hpins Hreg).
    destruct r as [c|]; [|done]. by exists c, d2'.
Qed.
