(* ===== verification/ProbeRun.v ===== *)
(** What a run of the probe means: its verdict is that of one evaluation verified under the pinned key, so it is
    positive against the service of that key; its text file is replaced as a whole; and its exit code says so. *)
From stdpp Require Import base list gmap strings.
From Stdlib Require Import ZArith Lia.
From S2P Require Import Prelude Sss Crypto Wire Float64 Text ServiceMetrics Service Frontend Envelope Observation Net Stack KeyFile EventDaemon FileLogic Providers Probe ProbeConfig.
Import Probe.

Open Scope Z_scope.

(** * The verdict *)

Section Verdict.
Context `{FileSystem} `{ProvidersJson} `{PrimitiveLaws} `{HttpLaws} `{HttpClientLaws} {R : Type} `{Rng R}.
Context (send : TlsClient -> Url -> HttpRequest -> Z -> SendAnswer) (expiry : list Z -> option Z).

(** The pinned key of a configuration verified an evaluation that came back for a fresh blind. *)
Definition verified (c : Configured) (rng : R) (now : Z) : Prop :=
  exists state point rng' evaluation output,
    is_ok (server_public_key_from_bytes (public_key (binding c))) = true /\
    blind_with_entropy PROBE_INPUT rng = (Ok (state, point), rng') /\
    (Net.exchange send (network c) (binding c) point (now + EXCHANGE_BUDGET)).1 = Some (Ok evaluation) /\
    finalize state evaluation (public_key (binding c)) = Ok output.

Lemma server_public_key_same bytes pin : server_public_key_from_bytes bytes = Ok pin -> pin = bytes.
Proof.
  unfold server_public_key_from_bytes. destruct (deserialize_elem bytes); simpl; [|done]. case_bool_decide; [|done]. by intros [= <-].
Qed.

Lemma evaluate_once_Ok c rng now :
  is_ok (evaluate_once send false true expiry c rng now).1 = true <-> verified c rng now.
Proof.
  unfold evaluate_once, verified. destruct (server_public_key_from_bytes (public_key (binding c))) as [pin|e] eqn:Epin; cbn [is_ok].
  2: { split; [done|]. by intros (? & ? & ? & ? & ? & ? & _). }
  apply server_public_key_same in Epin as ->.
  destruct (blind_with_entropy PROBE_INPUT rng) as [[[st p]|e] rng'] eqn:Eb; cbn [fst].
  2: { split; [done|]. by intros (? & ? & ? & ? & ? & _ & ? & _). }
  unfold evaluate_binding_observed. cbn [negb].
  destruct (Net.exchange send (network c) (binding c) p (now + EXCHANGE_BUDGET)) as [[[ev|e]|] cert] eqn:Ex; cbn.
  - destruct (finalize st ev (public_key (binding c))) as [out|e] eqn:Ef; cbn.
    + split; [|done]. intros _. exists st, p, rng', ev, out. by rewrite Ex.
    + split; [done|]. intros (st' & p' & r' & ev' & out & _ & E & E' & E''). injection E as <- <- <-. rewrite Ex in E'.
      cbn in E'. congruence.
  - split; [done|]. intros (st' & p' & r' & ev' & out & _ & E & E' & _). injection E as <- <- <-. by rewrite Ex in E'.
  - split; [done|]. intros (st' & p' & r' & ev' & out & _ & E & E' & _). injection E as <- <- <-. by rewrite Ex in E'.
Qed.

(** Failures are not called a success. *)
Lemma evaluate_once_Err c rng now o : (evaluate_once send false true expiry c rng now).1 = Err o -> o <> Success.
Proof.
  unfold evaluate_once. destruct (server_public_key_from_bytes _); [|by intros [= <-]].
  destruct (blind_with_entropy PROBE_INPUT rng) as [[[st p]|e] rng']; cbn [fst]; [|by intros [= <-]].
  destruct (observed_evaluation _) as [ev|e]; cbn; [|by destruct e; intros [= <-]].
  destruct (finalize st ev _) as [out|e]; cbn; [done|]. by destruct e; intros [= <-].
Qed.

Lemma read_Err config target d o : (Probe.read config target d).1 = Err o -> o <> Success.
Proof.
  destruct d as [e t]. set (Q := fun (A : Type) (r : result Outcome A) => r <> Err Success).
  assert (forall p max, checks e (read_regular p max) (Q _)) as Hreg by (intros; by apply checks_read_regular).
  assert (checks e (Probe.read config target) (Q _)) as Hread; [|intros E ->; by apply (Hread t)].
  apply checks_bind. eapply checks_mono; [apply Hreg|]. intros [bytes|o'] Hb; [|intros [= ->]; by apply Hb].
  apply checks_bind, checks_parsed. destruct (providers_from_slice bytes) as [l|]; [|done]. cbn [ok_or].
  destruct (_ || _); [by apply checks_end|]. apply checks_bind.
  eapply (checks_mono _ _ (Q _)); [|intros [out|o'] Ho; [apply checks_parsed; by destruct out|intros [= ->]; by apply Ho]].
  generalize (@None Configured), 0%nat, (@nil (list Z)). induction l as [|p l IH]; intros sel index known; [by apply checks_ret|].
  cbn [check_providers]. do 3 (apply checks_bind, checks_parsed; match goal with |- context [ok_or ?x _] => destruct x end; [|done]; cbn [ok_or]).
  destruct (_ || _); [by apply checks_end|]. destruct (server_public_key_from_bytes _); [|by apply checks_end].
  destruct (negb _); [apply IH|]. apply checks_bind, checks_bind. eapply checks_mono; [apply Hreg|].
  intros [ca|o'] Hca; [|intros [= ->]; by apply Hca]. destruct (new_provider _) as [net|err]; [apply checks_ret, IH|].
  apply checks_end. by destruct err.
Qed.

(** A run changes no file, and its verdict is that of the evaluation. *)
Lemma run_success config n (rng : R) clocks d :
  let '(r, d') := run send false true expiry config (Z.of_nat (S n)) rng clocks d in
  entries d' = entries d /\ success r = bool_decide (outcome r = Success) /\
  (success r = true <-> exists c, Probe.read config (Z.of_nat (S n)) d = (Ok c, d') /\ verified c rng (exchange_start clocks)).
Proof.
  unfold run. destruct d as [e t]. pose proof (checks_probe_read e config n t) as [He _].
  destruct (Probe.read config (Z.of_nat (S n)) (mk_disk e t)) as [[c|o] d'] eqn:Er; cbn [fst snd entries] in *.
  - pose proof (evaluate_once_Ok c rng (exchange_start clocks)) as Hev.
    destruct (evaluate_once send false true expiry c rng (exchange_start clocks)) as [res cert] eqn:Eev. cbn [fst] in Hev.
    cbn [success outcome]. split_and!; [done|done|]. rewrite bool_decide_eq_true. split.
    + intros Hs. exists c. split; [done|]. apply Hev. destruct res as [u|o]; [done|].
      by apply (evaluate_once_Err c rng (exchange_start clocks) o) in Hs; [|rewrite Eev].
    + intros (c' & [= <-] & Hv). apply Hev in Hv. by destruct res.
  - cbn [success outcome]. split_and!; [done|done|]. rewrite bool_decide_eq_true. split; [|by intros (? & ? & _)].
    intros Hs. exfalso. by apply (read_Err config (Z.of_nat (S n)) (mk_disk e t) o); [rewrite Er|].
Qed.

Lemma run_outcome config n (rng : R) clocks d c d' :
  Probe.read config (Z.of_nat (S n)) d = (Ok c, d') ->
  let '(r, d1) := run send false true expiry config (Z.of_nat (S n)) rng clocks d in
  d1 = d' /\ outcome r = match (evaluate_once send false true expiry c rng (exchange_start clocks)).1 with Ok _ => Success | Err o => o end.
Proof. intros Hr. unfold run. rewrite Hr. by destruct (evaluate_once _ _ _ _ _ _ _). Qed.

Lemma run_collection config n (rng : R) clocks d :
  let '(r, _) := run send false true expiry config (Z.of_nat (S n)) rng clocks d in
  collection_success r = true -> clock_valid r = true /\
    (success r = true -> is_Some (certificate_not_after_timestamp_seconds r)).
Proof.
  unfold run. destruct (Probe.read _ _ d) as [configured d']. destruct (match configured with Ok c => _ | Err _ => _ end) as [res cert].
  cbn [collection_success clock_valid success certificate_not_after_timestamp_seconds]. rewrite andb_true_iff, orb_true_iff, negb_true_iff.
  intros [Hc Hs]. split; [done|]. intros Hsu. destruct Hs as [Hs|Hs]; [congruence|]. by apply bool_decide_eq_true in Hs.
Qed.

Context {Path Socket : Type} `{Kernel Path Socket} {R' : Type} `{Rng R'}.

(** The configured endpoint of the probe is the service of a key, which is the pinned one. *)
Definition probes_service (c : Configured) (secret : server) (endpoint : ConfiguredEndpoint) : Prop :=
  endpoints (network c) !! provider_id (binding c) = Some endpoint /\ public_key (binding c) = server_public_key secret /\
  backed_by (R := R') (Path := Path) (Socket := Socket) send endpoint secret.

Lemma probe_endpoint_of config n d c d' secret endpoint :
  Probe.read config (Z.of_nat (S n)) d = (Ok c, d') -> probes_service c secret endpoint ->
  endpoint_of (R := R') (Path := Path) (Socket := Socket) send (network c) (binding c) secret endpoint /\
  binding_key_id (binding c) = key_id (public_key (binding c)).
Proof.
  intros Hr (Hl & Hk & Hb). destruct d as [e t]. pose proof (checks_probe_read e config n t) as [_ [Hspec _]]. rewrite Hr in Hspec.
  destruct (Hspec c eq_refl) as (bytes & l & p & i & _ & _ & _ & (_ & _ & _ & Hid) & Hbind & ep & _ & Hnew).
  destruct (new_provider_url _ _ _ _ Hnew Hl) as (_ & Hpath & Hquery). split; [by constructor|].
  rewrite Hbind. cbn [binding_key_id public_key]. done.
Qed.

Lemma https_exchange self b point now evaluation :
  https_evaluate send self (now + EXCHANGE_BUDGET) now b point = Ok evaluation <->
  (Net.exchange send self b point (now + EXCHANGE_BUDGET)).1 = Some (Ok evaluation).
Proof.
  clear expiry. unfold https_evaluate, evaluate_before. rewrite Z.min_id.
  destruct (Net.exchange send self b point (now + EXCHANGE_BUDGET)).1 as [[ev|e]|]; cbn; naive_solver.
Qed.

Lemma service_verified config n d c d' secret endpoint rng now :
  Probe.read config (Z.of_nat (S n)) d = (Ok c, d') -> probes_service c secret endpoint -> reachable send endpoint true ->
  is_ok (blind_with_entropy PROBE_INPUT rng).1 = true -> verified c rng now.
Proof.
  clear expiry. intros Hr Hs Hup Hblind. destruct (probe_endpoint_of _ _ _ _ _ _ _ Hr Hs) as [Hend Hid]. destruct Hs as (_ & Hk & _).
  destruct (blind_with_entropy PROBE_INPUT rng) as [[[st p]|e] rng'] eqn:Eb; [|done].
  destruct (blinded_point _ _ _ _ _ Eb) as [Hp [el Hel]].
  destruct (stack_live send (network c) (binding c) secret endpoint p el (now + EXCHANGE_BUDGET) now Hend Hid Hup Hp Hel) as [ev Hev].
  destruct (stack_sound send (network c) (binding c) secret endpoint p _ now ev Hend Hp Hev) as (r & r' & He).
  destruct (voprf_run _ _ _ _ _ _ _ _ _ Eb He) as (_ & _ & _ & Hf).
  exists st, p, rng', ev, (voprf_output secret PROBE_INPUT). apply https_exchange in Hev. rewrite Hk. split_and!; try done.
  by rewrite server_public_key_valid.
Qed.

Lemma service_down c endpoint rng now :
  endpoints (network c) !! provider_id (binding c) = Some endpoint -> reachable send endpoint false ->
  binding_key_id (binding c) = key_id (public_key (binding c)) ->
  is_ok (server_public_key_from_bytes (public_key (binding c))) = true -> is_ok (blind_with_entropy PROBE_INPUT rng).1 = true ->
  (evaluate_once send false true expiry c rng now).1 = Err Transport \/ (evaluate_once send false true expiry c rng now).1 = Err Timeout.
Proof.
  intros Hl Hdown Hid Hpin Hblind. unfold evaluate_once, evaluate_binding_observed, Net.exchange. cbn [negb].
  destruct (server_public_key_from_bytes _); [|done]. destruct (blind_with_entropy PROBE_INPUT rng) as [[[st p]|e] rng']; [|done].
  cbn [fst]. rewrite bool_decide_eq_true_2 by done. cbn [negb]. rewrite Hl.
  specialize (Hdown (encode_request (binding_key_id (binding c)) p) (now + EXCHANGE_BUDGET)).
  destruct (send _ _ _ _) as [reply|[]|]; [by destruct (Hdown reply)|right; done|left; done|right; done].
Qed.
End Verdict.

(** * The text file *)

Section Textfile.
Context (display_f64_6 : f64 -> string) `{FileSystem} (suffix : nat -> string).
#[local] Abbreviation write_textfile := (Probe.write_textfile display_f64_6 suffix).

(** The complete exposition of a report, durable and readable by others. *)
Definition exposed (self : Report) (f : Entry) : Prop :=
  entry_bytes f = bytes_of_string (prometheus display_f64_6 self) /\ entry_mode f = 420 /\ entry_owner f = euid /\
  entry_regular f = true /\ entry_synced f = true.

(** No other name changes but that of the temporary file; the target is replaced as a whole, or not at all. *)
Definition published (p : path) (self : Report) (e : gmap path Entry) (o : option unit) (e' : gmap path Entry) : Prop :=
  (forall q, q <> p -> (forall n, q <> temporary suffix p n) -> e' !! q = e !! q) /\
  match o with
  | Some _ => extension p = Some (bytes_of_string "prom") /\ exists f, e' !! p = Some f /\ exposed self f
  | None => e' !! p = e !! p
  end.

Lemma wp_write_textfile (p : path) (self : Report) (e : gmap path Entry) :
  (forall n, temporary suffix p n <> p) ->
  wp (write_textfile p self) (fun o e' => published p self e o e' /\
    (calm -> extension p = Some (bytes_of_string "prom") -> (forall n, e !! temporary suffix p n = None) -> is_Some o)) e.
Proof.
  intros Hne t. unfold Probe.write_textfile. cbn [tries]. case_bool_decide as Hx; [by split; [|done]|].
  assert (extension p = Some (bytes_of_string "prom")) as Hext by (destruct (decide (extension p = Some (bytes_of_string "prom"))); tauto).
  set (temp := temporary suffix p t).
  set (Q := fun (o : option unit) (e' : gmap path Entry) => published p self e o e' /\
    (calm -> extension p = Some (bytes_of_string "prom") -> (forall n, e !! temporary suffix p n = None) -> is_Some o)).
  assert (forall e', (calm -> is_Some (e !! temp)) -> (forall q, q <> temp -> e' !! q = e !! q) -> Q None e') as Hsame.
  { intros e' Hc Hq. split; [split; [intros q _ Hn; apply Hq, Hn|apply Hq, not_eq_sym, Hne]|].
    intros Hcalm _ Hfree. destruct (Hc Hcalm) as [f Hf]. unfold temp in Hf. by rewrite Hfree in Hf. }
  assert (forall f : Entry, ~ calm -> wp (remove temp) (fun _ => Q None) (<[temp := f]> e)) as Hclean.
  { intros f Hc. apply wp_call; intros; apply Hsame; try done; intros q Hq;
      [by rewrite lookup_delete_ne, lookup_insert_ne|by apply lookup_insert_ne]. }
  apply (wp_bind (create_new temp 384) _ Q). apply wp_create_new; [intros Hnone|intros Hc; by apply Hsame].
  apply wp_cleaning, wp_bind. unfold set_permissions, write_all, sync_all, new_entry.
  apply wp_call; [rewrite alter_insert_eq|intros n Hc; by apply Hclean].
  apply wp_bind, wp_call; [rewrite alter_insert_eq|intros n Hc; rewrite alter_insert_eq; by apply Hclean].
  apply wp_bind, wp_call; [rewrite alter_insert_eq|intros n Hc; by apply Hclean].
  eapply wp_rename; [apply lookup_insert_eq| |intros Hc; by apply Hclean].
  split; [|by eexists]. split; [intros q A1 A2|split; [done|]].
  - by rewrite lookup_insert_ne, lookup_delete_ne, lookup_insert_ne by (apply not_eq_sym; first [done|apply A2]).
  - eexists. rewrite lookup_insert_eq. by split_and!.
Qed.
End Textfile.

(** * Properties *)

(** C31: the probe's verdict. A run reads files and changes none. It reports success exactly if the configured
    provider's evaluation of the fixed input under a fresh blind came back over the network and verified under
    the pinned key. Against the service that holds the pinned key, reachable over HTTPS, it succeeds; when
    nothing answers, it reports a transport failure or a timeout. *)
Theorem probe_verdict `{FileSystem} `{ProvidersJson} `{PrimitiveLaws} `{HttpLaws} `{HttpClientLaws} {R : Type} `{Rng R}
    {Path Socket : Type} `{Kernel Path Socket} {R' : Type} `{Rng R'}
    (send : TlsClient -> Url -> HttpRequest -> Z -> SendAnswer) (expiry : list Z -> option Z) config n (rng : R) clocks (d : Disk) :
  let '(r, d') := run send false true expiry config (Z.of_nat (S n)) rng clocks d in
  entries d' = entries d /\
  (success r = true <-> exists c, Probe.read config (Z.of_nat (S n)) d = (Ok c, d') /\ verified send c rng (exchange_start clocks)) /\
  (forall c d1 secret endpoint, Probe.read config (Z.of_nat (S n)) d = (Ok c, d1) ->
     probes_service (Path := Path) (Socket := Socket) (R' := R') send c secret endpoint ->
     is_ok (blind_with_entropy PROBE_INPUT rng).1 = true ->
     (reachable send endpoint true -> outcome r = Success) /\
     (reachable send endpoint false -> outcome r = Transport \/ outcome r = Timeout)).
Proof.
  pose proof (run_success send expiry config n rng clocks d) as Hrun. pose proof (run_outcome send expiry config n rng clocks d) as Hout.
  destruct (run send false true expiry config (Z.of_nat (S n)) rng clocks d) as [r d']. destruct Hrun as (He & Hs & Hv).
  split_and!; [done|done|]. intros c d1 secret endpoint Hread Hsvc Hblind. destruct (Hout c d1 Hread) as [-> Ho]. split.
  - intros Hup. apply (bool_decide_eq_true_1 _). rewrite <- Hs. apply Hv. exists c. split; [done|]. by eapply service_verified.
  - intros Hdown. destruct (probe_endpoint_of send config n _ _ _ _ _ Hread Hsvc) as [_ Hid]. destruct Hsvc as (Hl & Hk & _). rewrite Ho.
    destruct (service_down send expiry c endpoint rng (exchange_start clocks) Hl Hdown Hid) as [->| ->];
      [by rewrite Hk, server_public_key_valid|done|by left|by right].
Qed.

(** C32: what the probe leaves and returns. After a run and its output, no file has changed but the text file,
    which holds its old content or, whole and durable, the exposition of the run's report, and temporary files.
    The exit code is 0 only if that exposition is in place, the evaluation verified under the pinned key, the
    clock readings are in order and a certificate was observed; 1 only if the exposition is in place and the
    evaluation failed; and 2 otherwise. When no call fails, the name is right and no temporary name is taken,
    the exposition is in place. *)
Theorem probe_exit `{FileSystem} `{ProvidersJson} `{PrimitiveLaws} `{HttpLaws} `{HttpClientLaws} {R : Type} `{Rng R}
    (send : TlsClient -> Url -> HttpRequest -> Z -> SendAnswer) (expiry : list Z -> option Z)
    (display_f64_6 : f64 -> string) (suffix : nat -> string) (report_json : Report -> option string)
    config n (rng : R) clocks textfile (d : Disk) :
  (forall k, temporary suffix textfile k <> textfile) ->
  let '(r, d1) := run send false true expiry config (Z.of_nat (S n)) rng clocks d in
  let '((json, code), d2) := finish display_f64_6 suffix report_json textfile r d1 in
  let in_place := exists f, entries d2 !! textfile = Some f /\ exposed display_f64_6 r f in
  (forall q, q <> textfile -> (forall k, q <> temporary suffix textfile k) -> entries d2 !! q = entries d !! q) /\
  (entries d2 !! textfile = entries d !! textfile \/ in_place) /\
  (code = 0 -> in_place /\ clock_valid r = true /\ is_Some (certificate_not_after_timestamp_seconds r) /\
     exists c d0, Probe.read config (Z.of_nat (S n)) d = (Ok c, d0) /\ verified send c rng (exchange_start clocks)) /\
  (code = 1 -> in_place /\ outcome r <> Success) /\ (code = 0 \/ code = 1 \/ code = 2) /\
  (calm -> extension textfile = Some (bytes_of_string "prom") ->
     (forall k, entries d !! temporary suffix textfile k = None) -> in_place).
Proof.
  intros Hne. pose proof (run_success send expiry config n rng clocks d) as Hrun.
  pose proof (run_collection send expiry config n rng clocks d) as Hcol.
  destruct (run send false true expiry config (Z.of_nat (S n)) rng clocks d) as [r d1]. destruct Hrun as (He & Hs & Hv).
  pose proof (wp_write_textfile display_f64_6 suffix textfile r (entries d1) Hne) as Hw. apply wp_run in Hw. unfold finish.
  destruct (write_textfile display_f64_6 suffix textfile r d1) as [[u|] d2]; destruct Hw as [[Hq Hp] Hc]; rewrite He in *.
  - destruct Hp as [_ Hin]. destruct (report_json r); cbn zeta iota beta; [|split_and!; auto; discriminate].
    destruct (collection_success r) eqn:Ecs; cbn [negb]; [|split_and!; auto; discriminate].
    destruct (success r) eqn:Esu; split_and!; auto; try discriminate; intros _.
    + destruct (Hcol eq_refl) as [Hclk Hcert]. split_and!; [done|done|by apply Hcert|]. destruct (proj1 Hv eq_refl) as (c & Hr & Hver). by exists c, d1.
    + split; [done|]. symmetry in Hs. by apply bool_decide_eq_false in Hs.
  - assert (forall json, (if negb (collection_success (mk_report (schema_version r) (target r) (outcome r) (success r) false (clock_valid r)
      (started_timestamp_seconds r) (completed_timestamp_seconds r) (duration_seconds r) (certificate_not_after_timestamp_seconds r)))
      then 2 else json) = 2) as Hcode by done.
    destruct (report_json _); cbn; (split_and!; [done|by left|discriminate|discriminate|auto|]);
      intros Hcalm Hext Hfree; destruct (Hc Hcalm Hext Hfree); discriminate.
Qed.
