(* ===== verification/ProbeDemo.v ===== *)
(** Witnesses for the probe: the four endpoints of [StackDemo] in a configuration file, probed while some of them
    answer. *)
From stdpp Require Import base list gmap strings.
From Stdlib Require Import ZArith Lia.
From S2P Require Import Prelude Sss Plan Policy Crypto ToyCrypto Wire Float64 Text ServiceMetrics Service Frontend Net Cbor Envelope Observation Engine Demo Stack StackDemo KeyFile EventDaemon FileLogic EventLog Providers Probe ProbeConfig ProbeRun.
Import Probe Service.Example.

Open Scope Z_scope.

#[local] Existing Instance EventLog.Example.calm_disk.

(** * A configuration *)

Definition hex_string (bytes : list Z) : string := text_of (hex_text bytes).

Definition demo_config_path : path := bytes_of_string "/etc/leelo/providers.json".
Definition demo_textfile : path := bytes_of_string "/var/lib/probe/leelo.prom".

Definition demo_provider_config (n : Z) : ProviderConfig :=
  mk_provider_config (hex_string (demo_provider n)) (hex_string (binding_key_id (demo_binding n)))
    (hex_string (public_key (demo_binding n))) "https://evaluator" (bytes_of_string "ca" ++ [48 + n]).

(** The parser of a configuration written as one byte per provider. *)
#[export] Instance toy_providers_json : ProvidersJson := fun bytes => Some (map demo_provider_config bytes).

Definition plain (bytes : list Z) : Entry := mk_entry bytes 420 1000 true true true.
Definition demo_files : gmap path Entry :=
  <[demo_config_path := plain [1; 2; 3; 4]]>
    (list_to_map (map (fun n => (bytes_of_string "/etc/leelo/ca" ++ [48 + n], plain [n])) [1; 2; 3; 4])).
Definition demo_disk : Disk := mk_disk demo_files 0.

Definition demo_providers : Providers :=
  match (providers_read demo_config_path demo_disk).1 with Some self => self | None => mk_providers (mk_provider ∅) [] end.
Definition demo_configured : Configured :=
  match (Probe.read demo_config_path 4 demo_disk).1 with
  | Ok c => c
  | Err _ => mk_configured_probe (mk_provider ∅) (demo_binding 1)
  end.

Lemma demo_commands_read : providers_read demo_config_path demo_disk = (Some demo_providers, (providers_read demo_config_path demo_disk).2).
Proof. vm_compute. reflexivity. Qed.

Lemma demo_probe_read : Probe.read demo_config_path (Z.of_nat 4) demo_disk = (Ok demo_configured, (Probe.read demo_config_path 4 demo_disk).2).
Proof. vm_compute. reflexivity. Qed.

Lemma probe_configuration_witness :
  exists i, identities demo_providers !! 3%nat = Some i /\
    binding demo_configured = mk_binding 1 (id_provider i) (id_key i) (id_public_key i) (replicate 32 0).
Proof.
  destruct (probe_configuration demo_config_path 3 demo_disk) as (_ & _ & Hagree & _).
  destruct (Hagree _ _ _ _ demo_commands_read demo_probe_read) as (i & ep & Hi & Hb & _).
  exists i. exact (conj Hi Hb).
Defined.

(** * A run *)

Definition demo_clocks : Clocks := mk_clocks (Some 1000) (Some 1001) (f64_of_Z 1) 0.
Definition demo_run (up : Z -> bool) : Report * Disk :=
  run (demo_send up 700) false true (fun _ => Some 2000) demo_config_path (Z.of_nat 4) 900 demo_clocks demo_disk.

Lemma demo_probes_service up :
  probes_service (R' := Z) (Path := unit) (Socket := unit) (demo_send up 700) demo_configured (demo_server 4)
    (mk_configured ("https://evaluator"%string, EVALUATE_PATH) 4).
Proof.
  split_and!; [vm_compute; reflexivity|vm_compute; reflexivity|].
  exact (demo_backed up 700 (mk_configured ("https://evaluator"%string, EVALUATE_PATH) 4)).
Qed.

Lemma probe_verdict_witness : outcome (demo_run some_up).1 = Success.
Proof.
  pose proof (probe_verdict (Path := unit) (Socket := unit) (R' := Z) (demo_send some_up 700) (fun _ => Some 2000)
    demo_config_path 3 900 demo_clocks demo_disk) as Hv.
  unfold demo_run. change (Z.of_nat 4) with (Z.of_nat (S 3)).
  destruct (run _ _ _ _ _ _ _ _ _) as [r d']. destruct Hv as (_ & _ & Hlive).
  refine (proj1 (Hlive _ _ _ _ demo_probe_read (demo_probes_service some_up) _) _).
  - vm_compute. reflexivity.
  - exact (demo_reachable some_up 700 (mk_configured ("https://evaluator"%string, EVALUATE_PATH) 4)).
Defined.

(** The text file of that run. *)
Definition demo_suffix (n : nat) : string := "aaaaaa".
Definition demo_seconds (x : f64) : string := "1.000000".

Lemma probe_exit_witness :
  exists f, entries (finish demo_seconds demo_suffix (fun _ => Some "{}"%string) demo_textfile (demo_run some_up).1 (demo_run some_up).2).2
      !! demo_textfile = Some f /\ exposed demo_seconds (demo_run some_up).1 f.
Proof.
  pose proof (probe_exit (demo_send some_up 700) (fun _ => Some 2000) demo_seconds demo_suffix (fun _ => Some "{}"%string)
    demo_config_path 3 900 demo_clocks demo_textfile demo_disk ltac:(intros k; vm_compute; discriminate)) as He.
  unfold demo_run. change (Z.of_nat 4) with (Z.of_nat (S 3)).
  destruct (run _ _ _ _ _ _ _ _ _) as [r d1]. cbn [fst snd]. destruct (finish _ _ _ _ _ _) as [[json code] d2].
  destruct He as (_ & _ & _ & _ & _ & Hput). apply Hput.
  - intros k. reflexivity.
  - vm_compute. reflexivity.
  - intros k. vm_compute. reflexivity.
Defined.
