(* ===== verification/Luks.v ===== *)
(** The LUKS2 adapter, [leelo-luks/src/lib.rs] and [linux.rs]: token text, and enrollment of a keyslot
    and a token with its error reports. libcryptsetup is the class [Cryptsetup] with the laws
    [CryptsetupLaws] on a view of the header, its keyslots and tokens; JSON and base64 are the class
    [TokenText]. Every call of the outside takes the number of calls made before it, so that equal
    calls may answer differently. The state is the handle, the disk header and that number. *)
From stdpp Require Import base list gmap strings.
From Stdlib Require Import ZArith Lia.
From S2P Require Import Prelude Text.

Open Scope Z_scope.

Module LuksError.
Inductive Error : Type :=
| UnsupportedPlatform
| Io
| InvalidInput
| Cryptsetup (operation : string) (code : Z)
| WrongVolume
| OccupiedSlot
| InvalidToken
| ReadOnly
| WriterBusy
| NoTokenSpace
| MetadataSpace (required available : Z)
| MetadataChanged
| PartialEnrollment (slot : Z) (stage : string) (source : Error).
End LuksError.

(** * Tokens *)

Record Token : Type := mk_token { token_kind : string; token_keyslots : list string; token_envelope : string }.
Record TokenEnvelope : Type := mk_token_envelope { envelope_slot : Z; envelope_bytes : list Z }.

(** The JSON and base64 libraries. *)
Class TokenText : Type := {
  token_to_string : Token -> option string;
  token_from_str : string -> option Token;
  b64_encode : list Z -> string;
  b64_decode : string -> option (list Z);
}.

(** [str::parse::<u8>]: an optional plus sign and decimal digits, at most 255. *)
Fixpoint parse_digits (bytes : list Z) (value : Z) : option Z :=
  match bytes with
  | [] => Some value
  | b :: bytes =>
      if is_ascii_digit b then
        let value := value * 10 + (b - 48) in
        if value <=? 255 then parse_digits bytes value else None
      else None
  end.
Definition parse_u8 (s : string) : option Z :=
  match bytes_of_string s with
  | 43 :: (_ :: _) as bytes => parse_digits (tail bytes) 0
  | [] => None
  | bytes => parse_digits bytes 0
  end.

Section Tokens.
Context `{TokenText}.

Definition encode_token (slot : Z) (envelope : list Z) : result LuksError.Error string :=
  if (32 <=? slot) || bool_decide (envelope = []) || (64 * 1024 <? Z.of_nat (length envelope))
  then Err LuksError.InvalidInput
  else ok_or (token_to_string (mk_token "leelo" [display_u64 slot] (b64_encode envelope))) LuksError.InvalidToken.

Definition decode_token (json : string) : result LuksError.Error TokenEnvelope :=
  if 90 * 1024 <? str_len json then Err LuksError.InvalidToken
  else
    match token_from_str json with
    | None => Err LuksError.InvalidToken
    | Some t =>
        if negb (String.eqb (token_kind t) "leelo") then Err LuksError.InvalidToken
        else
          match token_keyslots t with
          | [keyslot] =>
              match parse_u8 keyslot with
              | None => Err LuksError.InvalidToken
              | Some slot =>
                  if (32 <=? slot) || negb (String.eqb (display_u64 slot) keyslot) then Err LuksError.InvalidToken
                  else
                    match b64_decode (token_envelope t) with
                    | None => Err LuksError.InvalidToken
                    | Some bytes =>
                        if bool_decide (bytes = []) || (64 * 1024 <? Z.of_nat (length bytes))
                           || negb (String.eqb (b64_encode bytes) (token_envelope t))
                        then Err LuksError.InvalidToken
                        else Ok (mk_token_envelope slot bytes)
                    end
              end
          | _ => Err LuksError.InvalidToken
          end
    end.
End Tokens.

(** * The library *)

(** The calls of libcryptsetup and of the kernel on a header [D]: codes are negative on error. *)
Class Cryptsetup (D : Type) : Type := {
  crypt_init : nat -> D -> Z;
  crypt_load : nat -> D -> Z;
  crypt_get_uuid : D -> option (list Z);
  crypt_get_metadata_size : nat -> D -> Z * Z;
  crypt_dump_json : nat -> D -> Z * option string;
  crypt_keyslot_status : D -> Z -> Z;
  crypt_keyslot_add_by_passphrase : nat -> D -> Z -> list Z -> list Z -> Z * D;
  crypt_activate_by_passphrase : nat -> D -> option string -> Z -> list Z -> Z;
  crypt_token_json_set : nat -> D -> string -> Z * D;
  crypt_token_json_get : nat -> D -> Z -> Z * option string;
  (** The [tokens] object of the metadata text, with its values written back as text. *)
  metadata_tokens : string -> option (option (gmap string string));
  try_clone : nat -> bool;
  set_write_lock : nat -> option Z;
  sync_all : nat -> bool;
}.

Definition SLOT_COUNT : Z := 32.
Definition SLOT_INACTIVE : Z := 1.
Definition BINARY_HEADER_SIZE : Z := 4096.
Definition NEW_SLOT_JSON_RESERVE : Z := 4096.

(** [EAGAIN] and [EACCES] of Linux. *)
Definition EAGAIN : Z := 11.
Definition EACCES : Z := 13.

(** The slots [0..SLOT_COUNT]. *)
Definition SLOTS : list Z := seqZ 0 32.

Section Adapter.
Context {D : Type} `{Cryptsetup D} `{TokenText}.

(** The handle: the cached header, the volume and the access mode. *)
Record Luks2 : Type := mk_luks2 { cd : D; luks_uuid : list Z; writable : bool }.

Record World : Type := mk_world { handle : Luks2; disk : D; calls : nat }.

Definition M (A : Type) : Type := World -> result LuksError.Error A * World.
#[global] Instance M_ret : MRet M := fun A a w => (Ok a, w).
#[global] Instance M_bind : MBind M := fun A B f m w =>
  match m w with
  | (Ok a, w) => f a w
  | (Err e, w) => (Err e, w)
  end.

Definition throw {A} (e : LuksError.Error) : M A := fun w => (Err e, w).
Definition of_result {A} (r : result LuksError.Error A) : M A := fun w => (r, w).

(** One call of the outside. *)
Definition ask {A} (f : nat -> A) : M A := fun w => (Ok (f (calls w)), mk_world (handle w) (disk w) (S (calls w))).
Definition context : M Luks2 := fun w => (Ok (handle w), w).

(** [Result::map_err] of a whole operation. *)
Definition map_error {A} (f : LuksError.Error -> LuksError.Error) (m : M A) : M A := fun w =>
  match m w with
  | (Ok a, w) => (Ok a, w)
  | (Err e, w) => (Err (f e), w)
  end.

Definition checked (operation : string) (code : Z) : result LuksError.Error Z :=
  if code <? 0 then Err (LuksError.Cryptsetup operation code) else Ok code.

Definition partial (slot : Z) (stage : string) (source : LuksError.Error) : LuksError.Error :=
  LuksError.PartialEnrollment slot stage source.

(** [WriteLock::acquire] *)
Definition acquire : M unit :=
  cloned ← ask (try_clone (D := D));
  if negb cloned then throw LuksError.Io
  else
    locked ← ask (set_write_lock (D := D));
    match locked with
    | None => mret tt
    | Some errno => throw (if (errno =? EAGAIN) || (errno =? EACCES) then LuksError.WriterBusy else LuksError.Io)
    end.

(** [Luks2::from_file]: a context of the header on disk. *)
Definition from_file (writable : bool) : M Luks2 := fun w =>
  (code ← ask (fun n => crypt_init n (disk w));
   _ ← of_result (checked "initialize" code);
   code ← ask (fun n => crypt_load n (disk w));
   _ ← of_result (checked "load header" code);
   match crypt_get_uuid (disk w) with
   | None => throw LuksError.WrongVolume
   | Some uuid => mret (mk_luks2 (disk w) uuid writable)
   end) w.

Definition set_handle (h : Luks2) : M unit := fun w => (Ok tt, mk_world h (disk w) (calls w)).

Definition reload : M unit :=
  cloned ← ask (try_clone (D := D));
  if negb cloned then throw LuksError.Io
  else
    self ← context;
    fresh ← from_file (writable self);
    if negb (bool_decide (luks_uuid fresh = luks_uuid self)) then throw LuksError.WrongVolume
    else set_handle fresh.

Definition slot_status (slot : Z) : M Z :=
  if SLOT_COUNT <=? slot then throw LuksError.InvalidInput
  else self ← context; mret (crypt_keyslot_status (cd self) slot).

(** The loop of [first_free_slot]. *)
Fixpoint find_free (slots : list Z) : M Z :=
  match slots with
  | [] => throw LuksError.OccupiedSlot
  | slot :: slots =>
      status ← slot_status slot;
      if status =? SLOT_INACTIVE then mret slot else find_free slots
  end.
Definition first_free_slot : M Z := _ ← reload; find_free SLOTS.

Definition activate_inner (slot : option Z) (credential : list Z) (mapping : option string) : M Z :=
  if match slot with Some s => SLOT_COUNT <=? s | None => false end
     || bool_decide (credential = []) || (8192 <? Z.of_nat (length credential))
  then throw LuksError.InvalidInput
  else
    self ← context;
    code ← ask (fun n => crypt_activate_by_passphrase n (cd self) mapping (default (-1) slot) credential);
    actual ← of_result (checked "check or activate credential" code);
    if (255 <? actual) || (SLOT_COUNT <=? actual)
       || match slot with Some expected => negb (expected =? actual) | None => false end
    then throw LuksError.MetadataChanged
    else mret actual.

Definition test_credential (slot : option Z) (credential : list Z) : M Z :=
  _ ← reload; activate_inner slot credential None.

(** A name that [activate] accepts has no NUL byte, so the conversion to a C string cannot fail. *)
Definition mapping_ok (mapping : string) : bool :=
  negb (String.eqb mapping EmptyString) && (str_len mapping <=? 127) &&
  forallb (fun b => is_ascii_alphanumeric b || byte_in "_-." b) (bytes_of_string mapping).

Definition activate (slot : Z) (credential : list Z) (mapping : string) : M unit :=
  if negb (mapping_ok mapping) then throw LuksError.InvalidInput
  else
    _ ← reload;
    _ ← activate_inner (Some slot) credential (Some mapping);
    mret tt.

Record Metadata : Type := mk_metadata { parsed : option (gmap string string); json_bytes : Z; available : Z }.

Definition metadata : M Metadata :=
  self ← context;
  size ← ask (fun n => crypt_get_metadata_size n (cd self));
  _ ← of_result (checked "read metadata size" size.1);
  let available := size.2 - BINARY_HEADER_SIZE in
  if (available <? 0) || (4 * 1024 * 1024 <? available) then throw LuksError.WrongVolume
  else
    dump ← ask (fun n => crypt_dump_json n (cd self));
    _ ← of_result (checked "read metadata JSON" dump.1);
    match dump.2 with
    | None => throw LuksError.WrongVolume
    | Some text =>
        match metadata_tokens (D := D) text with
        | None => throw LuksError.WrongVolume
        | Some tokens => mret (mk_metadata tokens (str_len text) available)
        end
    end.

Definition token_plan (slot : Z) (envelope : list Z) (adding_slot : bool) : M (Z * string) :=
  json ← of_result (encode_token slot envelope);
  m ← metadata;
  tokens ← of_result (ok_or (parsed m) LuksError.WrongVolume);
  match List.find (fun id => bool_decide (tokens !! display_u64 id = None)) SLOTS with
  | None => throw LuksError.NoTokenSpace
  | Some id =>
      let required := json_bytes m + str_len json + str_len (display_u64 id) + 5
                      + (if adding_slot then NEW_SLOT_JSON_RESERVE else 0) in
      if available m <? required then throw (LuksError.MetadataSpace required (available m))
      else if byte_in json 0 then throw LuksError.InvalidToken
      else mret (id, json)
  end.

Definition cached_token (id : Z) : M TokenEnvelope :=
  if SLOT_COUNT <=? id then throw LuksError.InvalidInput
  else
    self ← context;
    answer ← ask (fun n => crypt_token_json_get n (cd self) id);
    _ ← of_result (checked "read token" answer.1);
    match answer.2 with
    | None => throw LuksError.InvalidToken
    | Some json => of_result (decode_token json)
    end.

Definition token (id : Z) : M TokenEnvelope := _ ← reload; cached_token id.

Definition verify_persisted (id slot : Z) (credential envelope : list Z) : M unit :=
  _ ← reload;
  t ← cached_token id;
  if negb (envelope_slot t =? slot) || negb (bool_decide (envelope_bytes t = envelope))
  then throw LuksError.MetadataChanged
  else _ ← activate_inner (Some slot) credential None; mret tt.

(** The loop over token identifiers that looks for the enrollment's own token. *)
Fixpoint find_token (ids : list Z) (tokens : gmap string string) (slot : Z) (envelope : list Z) : option Z :=
  match ids with
  | [] => None
  | id :: ids =>
      match tokens !! display_u64 id with
      | Some json =>
          match decode_token json with
          | Ok t => if (envelope_slot t =? slot) && bool_decide (envelope_bytes t = envelope) then Some id
                    else find_token ids tokens slot envelope
          | Err _ => find_token ids tokens slot envelope
          end
      | None => find_token ids tokens slot envelope
      end
  end.

(** The two calls that write: they change the disk and the context that made them. *)
Definition write_header {A} (f : nat -> D -> A * D) : M A := fun w =>
  let '(a, d) := f (calls w) (disk w) in
  (Ok a, mk_world (mk_luks2 d (luks_uuid (handle w)) (writable (handle w))) d (S (calls w))).

Definition sync (slot : Z) (stage : string) : M unit :=
  synced ← ask (sync_all (D := D));
  if negb synced then throw (partial slot stage LuksError.Io) else mret tt.

Definition attach_locked (slot : Z) (credential envelope : list Z) : M Z :=
  _ ← reload;
  _ ← activate_inner (Some slot) credential None;
  m ← metadata;
  tokens ← of_result (ok_or (parsed m) LuksError.WrongVolume);
  match find_token SLOTS tokens slot envelope with
  | Some id => _ ← verify_persisted id slot credential envelope; mret id
  | None =>
      plan ← token_plan slot envelope false;
      code ← write_header (fun n d => crypt_token_json_set n d plan.2);
      result ← map_error (partial slot "token write") (of_result (checked "write token" code));
      if negb (result =? plan.1) then throw (partial slot "token identity" LuksError.MetadataChanged)
      else
        _ ← sync slot "token sync";
        _ ← map_error (partial slot "token readback") (verify_persisted plan.1 slot credential envelope);
        mret result
  end.

Definition attach_enrollment (slot : Z) (credential envelope : list Z) : M Z :=
  self ← context;
  if negb (writable self) then throw LuksError.ReadOnly
  else _ ← acquire; attach_locked slot credential envelope.

Definition reloaded_status (slot : Z) : M Z := _ ← reload; slot_status slot.

(** After a failed slot write: only a slot seen inactive again is reported as untouched. *)
Definition failed_add (slot : Z) (error : LuksError.Error) : M Z := fun w =>
  match reloaded_status slot w with
  | (Ok status, w) =>
      if status =? SLOT_INACTIVE then (Err error, w) else (Err (partial slot "slot write" error), w)
  | (Err _, w) => (Err (partial slot "slot write" error), w)
  end.

Definition add_enrollment (slot : Z) (old new envelope : list Z) : M Z :=
  self ← context;
  if negb (writable self) then throw LuksError.ReadOnly
  else
    _ ← acquire;
    _ ← reload;
    status ← slot_status slot;
    if negb (status =? SLOT_INACTIVE) then throw LuksError.OccupiedSlot
    else
      _ ← activate_inner None old None;
      _ ← token_plan slot envelope true;
      code ← write_header (fun n d => crypt_keyslot_add_by_passphrase n d slot old new);
      if code <? 0 then failed_add slot (LuksError.Cryptsetup "add slot" code)
      else if negb (code =? slot) then throw (partial slot "slot identity" LuksError.MetadataChanged)
      else
        _ ← sync slot "slot sync";
        map_error (partial slot "token attachment") (attach_locked slot new envelope).
End Adapter.
Arguments Luks2 D : clear implicits.
Arguments World D : clear implicits.

(** * What the library documents *)

(** A view of a header: the credential of each used keyslot, and the text of each token. *)
Class HeaderView (D : Type) : Type := {
  keyslots : D -> gmap Z (list Z);
  tokens : D -> gmap Z string;
}.

(** The documented behaviour of the calls on the view. A failed write may leave what it was writing,
    and nothing else changes. The text of a token is what the library writes for it, not what it was
    given. *)
Class CryptsetupLaws (D : Type) `{Cryptsetup D} `{HeaderView D} : Prop := {
  status_inactive d s : 0 <= s < SLOT_COUNT -> crypt_keyslot_status d s = SLOT_INACTIVE <-> keyslots d !! s = None;
  activate_checks n d name s c :
    0 <= crypt_activate_by_passphrase n d name s c ->
    keyslots d !! crypt_activate_by_passphrase n d name s c = Some c;
  add_writes n d s old new r d' :
    crypt_keyslot_add_by_passphrase n d s old new = (r, d') ->
    tokens d' = tokens d /\
    if r <? 0
    then keyslots d' = keyslots d \/ exists c, keyslots d !! s = None /\ keyslots d' = <[s := c]> (keyslots d)
    else keyslots d !! r = None /\ keyslots d' = <[r := new]> (keyslots d);
  set_writes n d json r d' :
    crypt_token_json_set n d json = (r, d') ->
    keyslots d' = keyslots d /\
    if r <? 0
    then tokens d' = tokens d \/ exists id text, tokens d !! id = None /\ tokens d' = <[id := text]> (tokens d)
    else tokens d !! r = None /\ exists text, tokens d' = <[r := text]> (tokens d);
  get_reads n d id r json :
    crypt_token_json_get n d id = (r, Some json) -> 0 <= r -> tokens d !! id = Some json;
}.

(** * Lemmas *)

Section Lemmas.
Context {D : Type} `{Cryptsetup D} `{TokenText} `{HeaderView D} `{!CryptsetupLaws D}.
Implicit Types w : World D.

Lemma bind_inv {A B} (m : M A) (f : A -> M B) w r w' :
  (m ≫= f) w = (r, w') ->
  (exists a w1, m w = (Ok a, w1) /\ f a w1 = (r, w')) \/ (exists e, m w = (Err e, w') /\ r = Err e).
Proof.
  unfold mbind, M_bind. destruct (m w) as [[a|e] w1]; intros E; [left; eauto|right].
  injection E as <- <-. eauto.
Qed.

(** An operation that does not write. *)
Definition reads {A} (m : M (D := D) A) : Prop := forall w, disk (m w).2 = disk w.

Lemma reads_bind {A B} (m : M A) (f : A -> M B) : reads m -> (forall a, reads (f a)) -> reads (m ≫= f).
Proof.
  intros Hm Hf w. unfold mbind, M_bind. specialize (Hm w). destruct (m w) as [[a|e] w1]; simpl in *; [|done].
  by rewrite Hf.
Qed.
Lemma reads_ret {A} (a : A) : reads (mret a).
Proof. done. Qed.
Lemma reads_throw {A} e : reads (throw (A := A) e).
Proof. done. Qed.
Lemma reads_of_result {A} (r : result LuksError.Error A) : reads (of_result r).
Proof. done. Qed.
Lemma reads_ask {A} (f : nat -> A) : reads (ask f).
Proof. done. Qed.
Lemma reads_context : reads context.
Proof. done. Qed.
Lemma reads_set_handle h : reads (set_handle h).
Proof. done. Qed.
Lemma reads_map_error {A} f (m : M A) : reads m -> reads (map_error f m).
Proof. intros Hm w. unfold map_error. specialize (Hm w). by destruct (m w) as [[a|e] w1]. Qed.
Lemma reads_from_file b : reads (from_file b).
Proof.
  intros w. unfold from_file.
  refine (reads_bind _ _ (reads_ask _) _ w). intros code.
  apply reads_bind; [apply reads_of_result|]. intros _.
  apply reads_bind; [apply reads_ask|]. intros code'.
  apply reads_bind; [apply reads_of_result|]. intros _.
  by destruct (crypt_get_uuid (disk w)).
Qed.

Create HintDb reading.
#[local] Hint Resolve reads_ret reads_throw reads_of_result reads_ask reads_context reads_set_handle reads_from_file : reading.

(** Operations built from reading ones. *)
Ltac reading :=
  repeat first
    [ apply reads_bind; [auto with reading|intros ?]
    | apply reads_map_error
    | match goal with
      | |- reads (if ?b then _ else _) => destruct b
      | |- reads (match ?x with _ => _ end) => destruct x
      | |- reads (let _ := _ in _) => cbv zeta
      end
    | solve [auto with reading] ].

Lemma reads_acquire : reads acquire.
Proof. unfold acquire. reading. Qed.
Lemma reads_reload : reads reload.
Proof. unfold reload. reading. Qed.
Lemma reads_slot_status s : reads (slot_status s).
Proof. unfold slot_status. reading. Qed.
Lemma reads_activate_inner s c m : reads (activate_inner s c m).
Proof. unfold activate_inner. reading. Qed.
Lemma reads_metadata : reads metadata.
Proof. unfold metadata. reading. Qed.
#[local] Hint Resolve reads_acquire reads_reload reads_slot_status reads_activate_inner reads_metadata : reading.
Lemma reads_token_plan s e b : reads (token_plan s e b).
Proof. unfold token_plan. reading. Qed.
Lemma reads_cached_token id : reads (cached_token id).
Proof. unfold cached_token. reading. Qed.
#[local] Hint Resolve reads_token_plan reads_cached_token : reading.
Lemma reads_verify_persisted id s c e : reads (verify_persisted id s c e).
Proof. unfold verify_persisted. reading. Qed.
Lemma reads_sync s st : reads (sync s st).
Proof. unfold sync. reading. Qed.
#[local] Hint Resolve reads_verify_persisted reads_sync : reading.

(** An operation that leaves the handle alone. *)
Definition keeps {A} (m : M (D := D) A) : Prop := forall w, handle (m w).2 = handle w.

Lemma luks_keeps_bind {A B} (m : M A) (f : A -> M B) : keeps m -> (forall a, keeps (f a)) -> keeps (m ≫= f).
Proof.
  intros Hm Hf w. unfold mbind, M_bind. specialize (Hm w). destruct (m w) as [[a|e] w1]; simpl in *; [|done].
  by rewrite Hf.
Qed.

Ltac keeping :=
  repeat first
    [ apply luks_keeps_bind; [done|intros ?]
    | match goal with
      | |- keeps (if ?b then _ else _) => destruct b
      | |- keeps (match ?x with _ => _ end) => destruct x
      end
    | done ].

Lemma keeps_slot_status s : keeps (slot_status s).
Proof. unfold slot_status. keeping. Qed.
Lemma keeps_activate_inner s c m : keeps (activate_inner s c m).
Proof. unfold activate_inner. keeping. Qed.
Lemma keeps_metadata : keeps metadata.
Proof. unfold metadata. keeping. Qed.
Lemma keeps_token_plan s e b : keeps (token_plan s e b).
Proof.
  unfold token_plan. apply luks_keeps_bind; [done|]. intros json. apply luks_keeps_bind; [apply keeps_metadata|]. intros m. keeping.
Qed.
Lemma keeps_cached_token id : keeps (cached_token id).
Proof. unfold cached_token. keeping. Qed.

(** The context shows the header on disk. *)
Definition coherent w : Prop := cd (handle w) = disk w.

Lemma coherent_after {A} (m : M A) w r w' : keeps m -> reads m -> m w = (r, w') -> coherent w -> coherent w'.
Proof. intros Hk Hr E. specialize (Hk w). specialize (Hr w). rewrite E in *. simpl in *. unfold coherent. by rewrite Hk, Hr. Qed.

Lemma disk_after {A} (m : M A) w r w' : reads m -> m w = (r, w') -> disk w' = disk w.
Proof. intros Hr E. specialize (Hr w). by rewrite E in Hr. Qed.

Lemma from_file_cd b w h w' : from_file b w = (Ok h, w') -> cd h = disk w.
Proof.
  unfold from_file. intros E.
  repeat match goal with E : (_ ≫= _) _ = _ |- _ => apply bind_inv in E as [(? & ? & ? & E)|(? & ? & ?)]; [|done] end.
  destruct (crypt_get_uuid (disk w)); [|done]. by injection E as <- <-.
Qed.

Lemma reload_coherent w u w' : reload w = (Ok u, w') -> coherent w' /\ disk w' = disk w.
Proof.
  intros E. pose proof (disk_after _ _ _ _ reads_reload E) as Hd. split; [|done]. revert E. unfold reload. intros E.
  apply bind_inv in E as [(c & w1 & E1 & E)|(? & ? & ?)]; [|done]. destruct (negb c); [done|].
  apply bind_inv in E as [(self & w2 & E2 & E)|(? & ? & ?)]; [|done].
  apply bind_inv in E as [(h & w3 & E3 & E)|(? & ? & ?)]; [|done].
  destruct (negb _); [done|]. injection E as <- <-. unfold coherent. simpl.
  rewrite (from_file_cd _ _ _ _ E3). by rewrite (disk_after _ _ _ _ (reads_from_file _) E3).
Qed.

Lemma checked_Ok operation code v : checked operation code = Ok v -> v = code /\ 0 <= code.
Proof. unfold checked. destruct (Z.ltb_spec code 0); [done|]. by intros [= <-]. Qed.

Lemma activate_inner_sound slot c m w r w' :
  activate_inner slot c m w = (Ok r, w') -> coherent w ->
  keyslots (disk w) !! r = Some c /\ match slot with Some s => r = s | None => True end.
Proof.
  unfold activate_inner. destruct (_ || _); [done|]. intros E Hc.
  apply bind_inv in E as [(self & w1 & E1 & E)|(? & ? & ?)]; [|done]. injection E1 as <- <-.
  apply bind_inv in E as [(code & w2 & E2 & E)|(? & ? & ?)]; [|done]. injection E2 as <- <-.
  apply bind_inv in E as [(actual & w3 & E3 & E)|(? & ? & ?)]; [|done].
  injection E3 as E3 <-. apply checked_Ok in E3 as [-> Hpos].
  destruct (_ || _) eqn:Hguard; [done|]. injection E as <- <-. rewrite Hc in *.
  split; [by apply activate_checks|]. destruct slot as [s|]; [|done].
  apply orb_false_elim in Hguard as [_ Hs]. apply negb_false_iff, Z.eqb_eq in Hs. done.
Qed.

Lemma cached_token_sound id w t w' :
  cached_token id w = (Ok t, w') -> coherent w ->
  exists json, tokens (disk w) !! id = Some json /\ decode_token json = Ok t.
Proof.
  unfold cached_token. destruct (_ <=? _); [done|]. intros E Hc.
  apply bind_inv in E as [(self & w1 & E1 & E)|(? & ? & ?)]; [|done]. injection E1 as <- <-.
  apply bind_inv in E as [([code text] & w2 & E2 & E)|(? & ? & ?)]; [|done]. injection E2 as E2 <-.
  apply bind_inv in E as [(v & w3 & E3 & E)|(? & ? & ?)]; [|done].
  injection E3 as E3 <-. apply checked_Ok in E3 as [-> Hpos]. simpl in E, Hpos.
  destruct text as [json|]; [|done]. injection E as E <-. exists json. split; [|done].
  rewrite Hc in E2. by eapply get_reads.
Qed.

Lemma verify_persisted_sound id slot c e w u w' :
  verify_persisted id slot c e w = (Ok u, w') ->
  keyslots (disk w) !! slot = Some c /\
  exists json, tokens (disk w) !! id = Some json /\ decode_token json = Ok (mk_token_envelope slot e).
Proof.
  unfold verify_persisted. intros E.
  apply bind_inv in E as [(u1 & w1 & E1 & E)|(? & ? & ?)]; [|done]. apply reload_coherent in E1 as [Hc Hd].
  apply bind_inv in E as [(t & w2 & E2 & E)|(? & ? & ?)]; [|done].
  destruct (cached_token_sound _ _ _ _ E2 Hc) as (json & Hjson & Ht).
  destruct (_ || _) eqn:Hguard; [done|]. apply orb_false_elim in Hguard as [Hs He].
  apply negb_false_iff, Z.eqb_eq in Hs. apply negb_false_iff, bool_decide_eq_true in He.
  pose proof (coherent_after _ _ _ _ (keeps_cached_token id) (reads_cached_token id) E2 Hc) as Hc2.
  pose proof (disk_after _ _ _ _ (reads_cached_token id) E2) as Hd2.
  apply bind_inv in E as [(a & w3 & E3 & E)|(? & ? & ?)]; [|done].
  apply activate_inner_sound in E3 as [Hk ->]; [|done]. rewrite Hd2, Hd in Hk. split; [done|].
  exists json. rewrite <- Hd. split; [done|]. rewrite Ht. f_equal. destruct t; simpl in *; congruence.
Qed.

(** The report of an enrollment that may have written. *)
Definition is_partial (e : LuksError.Error) : Prop :=
  match e with LuksError.PartialEnrollment _ _ _ => True | _ => False end.

(** At most one token was added, in a free place. *)
Definition token_added (d d' : D) : Prop :=
  tokens d' = tokens d \/ exists id json, tokens d !! id = None /\ tokens d' = <[id := json]> (tokens d).

Definition attach_effect (slot : Z) (credential envelope : list Z) (d d' : D) (r : result LuksError.Error Z) : Prop :=
  keyslots d' = keyslots d /\ token_added d d' /\
  match r with
  | Ok id => keyslots d !! slot = Some credential /\
      exists json, tokens d' !! id = Some json /\ decode_token json = Ok (mk_token_envelope slot envelope)
  | Err e => is_partial e \/ tokens d' = tokens d
  end.

Lemma attach_unchanged slot c e d d' err : d' = d -> attach_effect slot c e d d' (Err err).
Proof. intros ->. split; [done|]. split; [by left|by right]. Qed.

(** The write of the token and everything after it. *)
Lemma token_write_effect slot c e id json w r w' :
  (code ← write_header (fun n d => crypt_token_json_set n d json);
   result ← map_error (partial slot "token write") (of_result (checked "write token" code));
   if negb (result =? id) then throw (partial slot "token identity" LuksError.MetadataChanged)
   else
     _ ← sync slot "token sync";
     _ ← map_error (partial slot "token readback") (verify_persisted id slot c e);
     mret result) w = (r, w') ->
  attach_effect slot c e (disk w) (disk w') r.
Proof.
  intros E. apply bind_inv in E as [(code & w1 & E1 & E)|(? & E1 & ?)].
  2:{ unfold write_header in E1. by destruct (crypt_token_json_set _ _ _). }
  unfold write_header in E1. destruct (crypt_token_json_set (calls w) (disk w) json) as [code' d'] eqn:Eset.
  injection E1 as -> <-. pose proof (set_writes _ _ _ _ _ Eset) as [Hk Ht].
  assert (token_added (disk w) d') as Hadd.
  { unfold token_added. destruct (code <? 0); [destruct Ht as [->|(i & text & ? & ->)]; eauto 6|].
    right. destruct Ht as (? & text & ->). eauto. }
  assert (forall err, is_partial err -> attach_effect slot c e (disk w) d' (Err err)) as Herr by (intros; split_and!; auto).
  apply bind_inv in E as [(v & w2 & E2 & E)|(err & E2 & ->)]; unfold map_error, of_result in E2.
  2:{ destruct (checked "write token" code); [done|]. injection E2 as <- <-. by apply Herr. }
  destruct (checked "write token" code) as [v'|] eqn:Ec; [|done]. injection E2 as -> <-.
  apply checked_Ok in Ec as [-> Hpos]. destruct (Z.eqb_spec code id) as [->|]; simpl in E.
  2:{ injection E as <- <-. by apply Herr. }
  apply bind_inv in E as [(u & w3 & E3 & E)|(err & E3 & ->)]; unfold sync in E3.
  2:{ apply bind_inv in E3 as [(sy & w4 & E4 & E3)|(? & E4 & ?)]; [|done]. injection E4 as <- <-.
      destruct (negb _); [|done]. injection E3 as <- <-. by apply Herr. }
  pose proof (disk_after _ _ _ _ (reads_sync slot "token sync") E3) as Hd3. simpl in Hd3.
  apply bind_inv in E as [(u' & w4 & E4 & E)|(err & E4 & ->)]; unfold map_error in E4;
    destruct (verify_persisted id slot c e w3) as [[u''|err'] w5] eqn:Ev; try done.
  - injection E4 as _ <-. injection E as <- <-.
    rewrite (disk_after _ _ _ _ (reads_verify_persisted _ _ _ _) Ev), Hd3.
    apply verify_persisted_sound in Ev as [Hkey Htok]. rewrite Hd3 in Hkey, Htok. split_and!; [done..| |done].
    by rewrite <- Hk.
  - injection E4 as <- <-. rewrite (disk_after _ _ _ _ (reads_verify_persisted _ _ _ _) Ev), Hd3. by apply Herr.
Qed.

Lemma attach_locked_effect slot c e w r w' :
  attach_locked slot c e w = (r, w') -> attach_effect slot c e (disk w) (disk w') r.
Proof.
  unfold attach_locked. intros E.
  apply bind_inv in E as [(u & w1 & E1 & E)|(err & E1 & ->)].
  2:{ apply attach_unchanged. by apply (disk_after _ _ _ _ reads_reload) in E1. }
  apply reload_coherent in E1 as [Hc Hd1].
  apply bind_inv in E as [(a & w2 & E2 & E)|(err & E2 & ->)];
    pose proof (disk_after _ _ _ _ (reads_activate_inner _ _ _) E2) as Hd2; rewrite Hd1 in Hd2.
  2:{ by apply attach_unchanged. }
  apply bind_inv in E as [(m & w3 & E3 & E)|(err & E3 & ->)];
    pose proof (disk_after _ _ _ _ reads_metadata E3) as Hd3; rewrite Hd2 in Hd3.
  2:{ by apply attach_unchanged. }
  apply bind_inv in E as [(ts & w4 & E4 & E)|(err & E4 & ->)]; injection E4 as E4 <-.
  2:{ by apply attach_unchanged. }
  destruct (find_token SLOTS ts slot e) as [id|].
  - apply bind_inv in E as [(v & w5 & E5 & E)|(err & E5 & ->)];
      pose proof (disk_after _ _ _ _ (reads_verify_persisted _ _ _ _) E5) as Hd5; rewrite Hd3 in Hd5.
    2:{ by apply attach_unchanged. }
    injection E as <- <-. apply verify_persisted_sound in E5. rewrite Hd3 in E5. rewrite Hd5.
    split; [done|]. split; [by left|done].
  - apply bind_inv in E as [([id json] & w5 & E5 & E)|(err & E5 & ->)];
      pose proof (disk_after _ _ _ _ (reads_token_plan _ _ _) E5) as Hd5; rewrite Hd3 in Hd5.
    2:{ by apply attach_unchanged. }
    apply token_write_effect in E. by rewrite Hd5 in E.
Qed.

(** At most one keyslot was added, in a free place. *)
Definition slot_added (d d' : D) : Prop :=
  keyslots d' = keyslots d \/ exists s c, keyslots d !! s = None /\ keyslots d' = <[s := c]> (keyslots d).

Definition add_effect (slot : Z) (new envelope : list Z) (d d' : D) (r : result LuksError.Error Z) : Prop :=
  slot_added d d' /\ token_added d d' /\
  match r with
  | Ok id => keyslots d !! slot = None /\ keyslots d' = <[slot := new]> (keyslots d) /\
      exists json, tokens d' !! id = Some json /\ decode_token json = Ok (mk_token_envelope slot envelope)
  | Err e => is_partial e \/ (keyslots d' = keyslots d /\ tokens d' = tokens d)
  end.

Lemma add_unchanged slot c e d d' err : d' = d -> add_effect slot c e d d' (Err err).
Proof. intros ->. split; [by left|]. split; [by left|by right]. Qed.

Lemma slot_status_Ok slot w v w' :
  slot_status slot w = (Ok v, w') -> slot < SLOT_COUNT /\ v = crypt_keyslot_status (cd (handle w)) slot /\ w' = w.
Proof.
  unfold slot_status. destruct (Z.leb_spec SLOT_COUNT slot); [done|]. intros E.
  apply bind_inv in E as [(self & w1 & E1 & E)|(? & ? & ?)]; [|done]. injection E1 as <- <-. by injection E as <- <-.
Qed.

(** A failed slot write is reported as untouched only when the slot is free again. *)
Lemma failed_add_effect slot new e err w d r w' :
  0 <= slot -> tokens (disk w) = tokens d ->
  (keyslots (disk w) = keyslots d \/ exists c, keyslots d !! slot = None /\ keyslots (disk w) = <[slot := c]> (keyslots d)) ->
  failed_add slot err w = (r, w') -> add_effect slot new e d (disk w') r.
Proof.
  intros Hslot Ht Hk E. unfold failed_add in E.
  assert (reads (reloaded_status slot)) as Hreads by (unfold reloaded_status; reading).
  destruct (reloaded_status slot w) as [[status|e'] w1] eqn:Es; pose proof (disk_after _ _ _ _ Hreads Es) as Hd.
  2:{ injection E as <- <-. rewrite Hd. split_and!; [|left; done|by left]. destruct Hk as [?|(? & ? & ?)]; [by left|right; eauto]. }
  assert (slot_added d (disk w1)) as Hadd by (rewrite Hd; destruct Hk as [?|(? & ? & ?)]; [by left|right; eauto]).
  unfold reloaded_status in Es. apply bind_inv in Es as [(u & w2 & E2 & Es)|(? & ? & ?)]; [|done].
  apply reload_coherent in E2 as [Hc Hd2]. apply slot_status_Ok in Es as (Hlt & -> & ->).
  destruct (Z.eqb_spec (crypt_keyslot_status (cd (handle w2)) slot) SLOT_INACTIVE) as [Hs|Hs]; injection E as <- <-;
    (split; [done|]; split; [left; by rewrite Hd|]).
  - right. rewrite Hc in Hs. apply status_inactive in Hs; [|done]. rewrite Hd2 in Hs |- *. split; [|done].
    destruct Hk as [->|(c & _ & Hk)]; [done|]. rewrite Hk, lookup_insert_eq in Hs. done.
  - by left.
Qed.

(** The slot write and everything after it. *)
Lemma slot_write_effect slot old new e w r w' :
  0 <= slot ->
  (code ← write_header (fun n d => crypt_keyslot_add_by_passphrase n d slot old new);
   if code <? 0 then failed_add slot (LuksError.Cryptsetup "add slot" code)
   else if negb (code =? slot) then throw (partial slot "slot identity" LuksError.MetadataChanged)
   else
     _ ← sync slot "slot sync";
     map_error (partial slot "token attachment") (attach_locked slot new e)) w = (r, w') ->
  add_effect slot new e (disk w) (disk w') r.
Proof.
  intros Hslot E. apply bind_inv in E as [(code & w1 & E1 & E)|(? & E1 & ?)].
  2:{ unfold write_header in E1. by destruct (crypt_keyslot_add_by_passphrase _ _ _ _ _). }
  unfold write_header in E1.
  destruct (crypt_keyslot_add_by_passphrase (calls w) (disk w) slot old new) as [code' d1] eqn:Eadd.
  injection E1 as -> <-. pose proof (add_writes _ _ _ _ _ _ _ Eadd) as [Ht Hk].
  destruct (code <? 0) eqn:Hcode; [by apply (fun Ht Hk => failed_add_effect slot new e _ _ (disk w) r w' Hslot Ht Hk E)|].
  destruct Hk as [Hfree Hk].
  assert (slot_added (disk w) d1) as Hadd by (right; eauto).
  assert (forall err, is_partial err -> add_effect slot new e (disk w) d1 (Err err)) as Herr
    by (intros; split; [done|]; split; [by left|by left]).
  destruct (Z.eqb_spec code slot) as [->|]; simpl in E; [|injection E as <- <-; by apply Herr].
  apply bind_inv in E as [(u & w2 & E2 & E)|(err & E2 & ->)]; unfold sync in E2.
  2:{ apply bind_inv in E2 as [(sy & w3 & E3 & E2)|(? & E3 & ?)]; [|done]. injection E3 as <- <-.
      destruct (negb _); [|done]. injection E2 as <- <-. by apply Herr. }
  pose proof (disk_after _ _ _ _ (reads_sync slot "slot sync") E2) as Hd2. simpl in Hd2.
  unfold map_error in E. destruct (attach_locked slot new e w2) as [r3 w3] eqn:Ea.
  apply attach_locked_effect in Ea as (Ak & At & Ar). rewrite Hd2 in Ak, At, Ar.
  assert (slot_added (disk w) (disk w3)) as Hadd' by (unfold slot_added in *; by rewrite Ak).
  assert (token_added (disk w) (disk w3)) as Htok by (unfold token_added in *; by rewrite <- Ht).
  destruct r3 as [id|err]; injection E as <- <-; (split; [done|]; split; [done|]).
  - destruct Ar as [_ Ar]. by rewrite Ak.
  - by left.
Qed.

Lemma add_enrollment_effect slot old new e w r w' :
  0 <= slot -> add_enrollment slot old new e w = (r, w') -> add_effect slot new e (disk w) (disk w') r.
Proof.
  intros Hslot. unfold add_enrollment. intros E.
  apply bind_inv in E as [(self & w0 & E0 & E)|(? & ? & ?)]; [|done]. injection E0 as <- <-.
  destruct (negb _); [injection E as <- <-; by apply add_unchanged|].
  apply bind_inv in E as [(u & w1 & E1 & E)|(err & E1 & ->)];
    pose proof (disk_after _ _ _ _ reads_acquire E1) as Hd1; [|by apply add_unchanged].
  apply bind_inv in E as [(u2 & w2 & E2 & E)|(err & E2 & ->)];
    pose proof (disk_after _ _ _ _ reads_reload E2) as Hd2; rewrite Hd1 in Hd2; [|by apply add_unchanged].
  apply bind_inv in E as [(st & w3 & E3 & E)|(err & E3 & ->)];
    pose proof (disk_after _ _ _ _ (reads_slot_status _) E3) as Hd3; rewrite Hd2 in Hd3; [|by apply add_unchanged].
  destruct (negb _); [injection E as <- <-; by apply add_unchanged|].
  apply bind_inv in E as [(a & w4 & E4 & E)|(err & E4 & ->)];
    pose proof (disk_after _ _ _ _ (reads_activate_inner _ _ _) E4) as Hd4; rewrite Hd3 in Hd4; [|by apply add_unchanged].
  apply bind_inv in E as [(pl & w5 & E5 & E)|(err & E5 & ->)];
    pose proof (disk_after _ _ _ _ (reads_token_plan _ _ _) E5) as Hd5; rewrite Hd4 in Hd5; [|by apply add_unchanged].
  apply slot_write_effect in E; [|done]. by rewrite Hd5 in E.
Qed.

Lemma attach_enrollment_effect slot c e w r w' :
  attach_enrollment slot c e w = (r, w') -> attach_effect slot c e (disk w) (disk w') r.
Proof.
  unfold attach_enrollment. intros E.
  apply bind_inv in E as [(self & w0 & E0 & E)|(? & ? & ?)]; [|done]. injection E0 as <- <-.
  destruct (negb _); [injection E as <- <-; by apply attach_unchanged|].
  apply bind_inv in E as [(u & w1 & E1 & E)|(err & E1 & ->)];
    pose proof (disk_after _ _ _ _ reads_acquire E1) as Hd1; [|by apply attach_unchanged].
  apply attach_locked_effect in E. by rewrite Hd1 in E.
Qed.
End Lemmas.

(** * Token text *)

(** Text that JSON writes as it is: printable ASCII without quotes and backslashes. *)
Definition plain_byte (b : Z) : bool := (32 <=? b) && (b <=? 126) && negb (b =? 34) && negb (b =? 92).
Definition plain (s : string) : bool := forallb plain_byte (bytes_of_string s).

(** The documented behaviour of the JSON writer and reader, compact form, and of URL-safe base64
    without padding. *)
Class TokenTextLaws `{TokenText} : Prop := {
  token_no_nul t s : token_to_string t = Some s -> byte_in s 0 = false;
  token_read_written t s : token_to_string t = Some s -> token_from_str s = Some t;
  token_compact kind keyslot envelope :
    plain kind && plain keyslot && plain envelope = true ->
    exists s, token_to_string (mk_token kind [keyslot] envelope) = Some s /\
      str_len s = 41 + str_len kind + str_len keyslot + str_len envelope;
  b64_round_trip bytes : byte_slice bytes -> b64_decode (b64_encode bytes) = Some bytes;
  b64_plain bytes : byte_slice bytes -> plain (b64_encode bytes) = true;
  b64_size bytes : byte_slice bytes -> str_len (b64_encode bytes) = (4 * Z.of_nat (length bytes) + 2) / 3;
}.

(** Identifiers below 32 print in at most two plain characters and parse back. *)
Lemma display_slot : Forall (fun slot => parse_u8 (display_u64 slot) = Some slot /\ plain (display_u64 slot) = true /\
  str_len (display_u64 slot) <= 2) SLOTS.
Proof. apply (bool_decide_unpack _). by vm_compute. Qed.

Lemma slot_display slot : 0 <= slot < 32 ->
  parse_u8 (display_u64 slot) = Some slot /\ plain (display_u64 slot) = true /\ str_len (display_u64 slot) <= 2.
Proof. intros Hs. apply (proj1 (Forall_forall _ _) display_slot). apply elem_of_seqZ. lia. Qed.

Section TokenSpec.
Context `{TokenText}.

(** The tokens that are read: the library's own kind, one keyslot in canonical decimal, and canonical
    base64 of a non-empty bounded envelope. *)
Definition token_of (json : string) (slot : Z) (envelope : list Z) : Prop :=
  str_len json <= 90 * 1024 /\
  exists t, token_from_str json = Some t /\ token_kind t = "leelo" /\ token_keyslots t = [display_u64 slot] /\
    0 <= slot < 32 /\ b64_decode (token_envelope t) = Some envelope /\ b64_encode envelope = token_envelope t /\
    envelope <> [] /\ Z.of_nat (length envelope) <= 64 * 1024.

Lemma parse_digits_nonneg bytes v r : 0 <= v -> parse_digits bytes v = Some r -> 0 <= r.
Proof.
  revert v. induction bytes as [|b bytes IH]; intros v Hv; simpl; [by intros [= <-]|].
  unfold is_ascii_digit. destruct (_ && _) eqn:Hd; [|done]. destruct (_ <=? 255); [|done].
  apply IH. apply andb_prop in Hd as [? ?]. lia.
Qed.

Lemma parse_u8_nonneg s r : parse_u8 s = Some r -> 0 <= r.
Proof.
  unfold parse_u8. intros E. repeat case_match; try done; (eapply parse_digits_nonneg; [|exact E]; lia).
Qed.

Lemma decode_token_spec json slot envelope :
  decode_token json = Ok (mk_token_envelope slot envelope) <-> token_of json slot envelope.
Proof.
  unfold decode_token, token_of. split.
  - destruct (Z.ltb_spec (90 * 1024) (str_len json)) as [|Hlen]; [done|].
    destruct (token_from_str json) as [t|]; [|done].
    destruct (String.eqb_spec (token_kind t) "leelo") as [Hkind|]; [|done]. simpl.
    destruct (token_keyslots t) as [|keyslot [|]] eqn:Hks; try done.
    destruct (parse_u8 keyslot) as [slot'|] eqn:Hp; [|done]. destruct (_ || _) eqn:Hs; [done|].
    destruct (b64_decode (token_envelope t)) as [bytes|] eqn:Hb; [|done]. destruct (_ || _ || _) eqn:He; [done|].
    intros [= -> ->]. apply orb_false_elim in Hs as [Hs1 Hs2]. apply negb_false_iff, String.eqb_eq in Hs2.
    rewrite !orb_false_iff, bool_decide_eq_false, negb_false_iff, String.eqb_eq in He. destruct He as [[? ?] ?].
    split; [lia|]. exists t. apply parse_u8_nonneg in Hp. rewrite Hks, Hs2. split_and!; try done; lia.
  - intros (Hlen & t & -> & -> & -> & Hs & -> & Henc & Hne & Hsize).
    rewrite (proj2 (Z.ltb_ge _ _)), String.eqb_refl by lia. simpl.
    destruct (slot_display slot Hs) as (-> & _ & _). rewrite (proj2 (Z.leb_gt _ _)), String.eqb_refl by lia. simpl.
    rewrite bool_decide_eq_false_2, (proj2 (Z.ltb_ge _ _)), Henc, String.eqb_refl by (done || lia). done.
Qed.

Lemma encode_decode `{!TokenTextLaws} slot envelope :
  0 <= slot < 32 -> byte_slice envelope -> envelope <> [] -> Z.of_nat (length envelope) <= 64 * 1024 ->
  exists json, encode_token slot envelope = Ok json /\ decode_token json = Ok (mk_token_envelope slot envelope).
Proof.
  intros Hs Hu Hne Hsize. unfold encode_token.
  rewrite (proj2 (Z.leb_gt _ _)), bool_decide_eq_false_2, (proj2 (Z.ltb_ge _ _)) by (done || lia). simpl.
  destruct (slot_display slot Hs) as (_ & Hplain & Hshort).
  destruct (token_compact "leelo" (display_u64 slot) (b64_encode envelope)) as (s & Hs1 & Hs2).
  { rewrite Hplain, b64_plain by done. done. }
  exists s. rewrite Hs1. split; [done|]. apply decode_token_spec. split.
  - rewrite Hs2, b64_size by done. change (str_len "leelo") with 5.
    pose proof (Z.div_le_mono (4 * Z.of_nat (length envelope) + 2) (4 * (64 * 1024) + 2) 3).
    change ((4 * (64 * 1024) + 2) / 3) with 87382 in *. lia.
  - exists (mk_token "leelo" [display_u64 slot] (b64_encode envelope)). split_and!; try done; try lia.
    + by apply token_read_written.
    + by apply b64_round_trip.
Qed.
End TokenSpec.

(** * Theorems *)

(** C22: Enrollment never loses a recovery path. Whatever the calls of the library answer, adding an
    enrollment or attaching its token keeps every keyslot and every token that was on the volume, with
    its credential and text; adding writes at most one keyslot and at most one token, each in a free
    place, and attaching at most one token and no keyslot; a success of either leaves the returned token,
    which decodes to this slot and envelope, and of adding the slot with exactly the new credential; and an
    error that does not say that the enrollment is partial leaves the header as it was. *)
Theorem enrollment_preserves {D} `{Cryptsetup D} `{TokenText} `{HeaderView D} `{!CryptsetupLaws D}
    slot old new envelope (w : World D) :
  0 <= slot ->
  let '(r, w') := add_enrollment slot old new envelope w in
  let '(a, w'') := attach_enrollment slot new envelope w in
  (keyslots (disk w) ⊆ keyslots (disk w') /\ slot_added (disk w) (disk w')) /\
  (tokens (disk w) ⊆ tokens (disk w') /\ token_added (disk w) (disk w')) /\
  keyslots (disk w'') = keyslots (disk w) /\
  (tokens (disk w) ⊆ tokens (disk w'') /\ token_added (disk w) (disk w'')) /\
  match r with
  | Ok id => keyslots (disk w) !! slot = None /\ keyslots (disk w') = <[slot := new]> (keyslots (disk w)) /\
      exists json, tokens (disk w') !! id = Some json /\ token_of json slot envelope
  | Err e => is_partial e \/ (keyslots (disk w') = keyslots (disk w) /\ tokens (disk w') = tokens (disk w))
  end /\
  match a with
  | Ok id => keyslots (disk w) !! slot = Some new /\ exists json, tokens (disk w'') !! id = Some json /\ token_of json slot envelope
  | Err e => is_partial e \/ tokens (disk w'') = tokens (disk w)
  end.
Proof.
  intros Hslot. destruct (add_enrollment slot old new envelope w) as [r w'] eqn:Er.
  destruct (attach_enrollment slot new envelope w) as [a w''] eqn:Ea.
  destruct (add_enrollment_effect _ _ _ _ _ _ _ Hslot Er) as (R1 & R2 & R3).
  destruct (attach_enrollment_effect _ _ _ _ _ _ Ea) as (A1 & A2 & A3).
  assert (forall d d' : D, token_added d d' -> tokens d ⊆ tokens d') as Htok.
  { intros d d' [->|(id & json & Hn & ->)]; [done|by apply insert_subseteq]. }
  split_and!; auto.
  - destruct R1 as [->|(s & c & Hn & ->)]; [done|by apply insert_subseteq].
  - destruct r; [|done]. destruct R3 as (? & ? & json & ? & ?%decode_token_spec). eauto.
  - destruct a; [|done]. destruct A3 as (? & json & ? & ?%decode_token_spec). eauto.
Qed.

(** A successful enrollment is complete: the slot was free and now opens with the new credential,
    no other slot changed, and the returned token is on the volume and decodes to this slot and this
    envelope; a successful attachment found the credential in the slot. *)
Theorem enrollment_complete {D} `{Cryptsetup D} `{TokenText} `{HeaderView D} `{!CryptsetupLaws D}
    slot old new envelope (w w' : World D) id :
  0 <= slot -> add_enrollment slot old new envelope w = (Ok id, w') ->
  keyslots (disk w) !! slot = None /\ keyslots (disk w') = <[slot := new]> (keyslots (disk w)) /\
  exists json, tokens (disk w') !! id = Some json /\ token_of json slot envelope /\
    forall other, other <> id -> is_Some (tokens (disk w) !! other) -> tokens (disk w') !! other = tokens (disk w) !! other.
Proof.
  intros Hslot E. destruct (add_enrollment_effect _ _ _ _ _ _ _ Hslot E) as (_ & Htok & Hfree & Hk & json & Hj & Hd).
  split_and!; [done..|]. exists json. split_and!; [done|by apply decode_token_spec|].
  intros other _ [text Hother]. destruct Htok as [->|(i & text' & Hn & ->)]; [done|].
  rewrite lookup_insert_ne; [done|]. intros <-. congruence.
Qed.

(** Token text is exact: every envelope within its bounds encodes for every slot to text that
    reads back as that slot and envelope, within the reader's limit; and text is read exactly when it
    is a token of the library's kind with one canonical slot and canonical base64. *)
Theorem token_codec_exact `{TokenText} `{!TokenTextLaws} slot envelope :
  0 <= slot < 32 -> byte_slice envelope -> envelope <> [] -> Z.of_nat (length envelope) <= 64 * 1024 ->
  (exists json, encode_token slot envelope = Ok json /\ decode_token json = Ok (mk_token_envelope slot envelope)) /\
  (forall json s e, decode_token json = Ok (mk_token_envelope s e) <-> token_of json s e).
Proof. intros. split; [by apply encode_decode|]. intros json s e. apply decode_token_spec. Qed.
