(* ===== verification/Fuzz.v ===== *)
(** The adversarial harnesses of [fuzz/src/lib.rs]: what they assert of the codecs and of policies for arbitrary
    input never fails. A harness is a function to [option unit]; [None] is a panic, of an [assert] or an [unwrap].
    The harness of the group encodings only tests third-party decoders and is not part of it. *)
From stdpp Require Import base list gmap strings.
From Stdlib Require Import ZArith Lia.
From S2P Require Import Prelude Sss Plan Policy Crypto Wire Cbor Envelope Text Telemetry Observation Engine Luks.

Open Scope Z_scope.

(** [assert!], and [unwrap] of a result. *)
Definition assert (b : bool) : option unit := if b then Some tt else None.
Definition unwrap {E A} (r : result E A) : option A := match r with Ok a => Some a | Err _ => None end.

Lemma assert_true (P : Prop) `{Decision P} : P -> assert (bool_decide P) = Some tt.
Proof. intros HP. unfold assert. by rewrite bool_decide_eq_true_2. Qed.

(** * Codecs *)

Definition fuzz_wire (data : list Z) : option unit :=
  _ ← match decode_request data with
      | Ok message => assert (bool_decide (encode_request (request_key_id message) (request_point message) = data))
      | Err _ => Some tt
      end;
  match decode_response data with
  | Ok message => assert (bool_decide (encode_response message = data))
  | Err _ => Some tt
  end.

Section Token.
Context `{TokenText} (from_utf8 : list Z -> option string).

Definition fuzz_luks_token (data : list Z) : option unit :=
  match from_utf8 data with
  | None => Some tt
  | Some text =>
      match decode_token text with
      | Err _ => Some tt
      | Ok token =>
          _ ← assert (envelope_slot token <? 32);
          _ ← assert (negb (bool_decide (envelope_bytes token = [])) && (len (envelope_bytes token) <=? MAX_ENVELOPE));
          encoded ← unwrap (encode_token (envelope_slot token) (envelope_bytes token));
          decoded ← unwrap (decode_token encoded);
          _ ← assert (envelope_slot decoded =? envelope_slot token);
          _ ← assert (bool_decide (envelope_bytes decoded = envelope_bytes token));
          again ← unwrap (encode_token (envelope_slot decoded) (envelope_bytes decoded));
          assert (String.eqb again encoded)
      end
  end.
End Token.

Section Frame.
Context `{Primitives} `{Cbor}.

(** The public test key. *)
Definition SIGNER : SecretSigningKey := mk_signing_key (replicate 32 90).

Definition check_authenticated (bytes : list Z) : option unit :=
  match authenticate bytes (signing_public_key SIGNER) with
  | Err _ => Some tt
  | Ok env =>
      signed ← unwrap (sign_envelope (body env) SIGNER);
      _ ← assert (bool_decide (signed = bytes));
      hash ← unwrap (context_hash (descriptor (body env)));
      assert (bool_decide (hash = Envelope.context env))
  end.

Definition sign_unparsed_body (raw : list Z) : option (list Z) :=
  let message := bytes_of_string "leelo/v1/envelope" ++ [0] ++ raw in
  signature ← unwrap (sign SIGNER message);
  Some (enc_array 2 ++ enc_bytes raw ++ enc_bytes signature).

Definition fuzz_envelope (data : list Z) : option unit :=
  _ ← check_authenticated data;
  if len data <=? MAX_ENVELOPE - 128
  then signed ← sign_unparsed_body data; check_authenticated signed
  else Some tt.
End Frame.

(** * Policies *)

(** The bytes of the input in turn, zeros after its end; and the budget of nodes. *)
Record Source : Type := mk_source { source_offset : nat; source_budget : nat }.
Definition next_byte (data : list Z) (s : Source) : Z * Source :=
  (default 0 (data !! source_offset s), mk_source (S (source_offset s)) (source_budget s)).

(** [(0..count).filter_map(|_| ..)] *)
Fixpoint generate {A} (step : Source -> option A * Source) (count : nat) (s : Source) : list A * Source :=
  match count with
  | O => ([], s)
  | S count =>
      let '(o, s) := step s in
      let '(l, s) := generate step count s in
      (match o with Some a => a :: l | None => l end, s)
  end.

(** [height] is six less the depth. *)
Fixpoint generated_node (data : list Z) (height : nat) (s : Source) : option NetworkNode * Source :=
  match source_budget s with
  | O => (None, s)
  | S budget =>
      let '(kind, s) := next_byte data (mk_source (source_offset s) budget) in
      let '(id, s) := next_byte data s in
      match height with
      | S height =>
          if Z.land kind 1 =? 0 then let '(b, s) := next_byte data s in (Some (Leaf id (replicate 32 b)), s)
          else
            let '(required, s) := next_byte data s in
            let '(b, s) := next_byte data s in
            let '(children, s) := generate (generated_node data height) (Z.to_nat (b mod 9)) s in
            (Some (Threshold id required children), s)
      | O => let '(b, s) := next_byte data s in (Some (Leaf id (replicate 32 b)), s)
      end
  end.

(** The direct semantics of a tree that decisions are compared with. *)
Fixpoint reference (node : NetworkNode) (available : list Z) : bool :=
  match node with
  | Leaf id _ => bool_decide (id ∈ available)
  | Threshold _ required children =>
      required <=? Z.of_nat (length (List.filter (fun child => reference child available) children))
  end.

(** [ids.iter().copied().filter(|_| input.byte() & 1 != 0)] *)
Fixpoint select_ids (data : list Z) (ids : list Z) (s : Source) : list Z * Source :=
  match ids with
  | [] => ([], s)
  | id :: ids =>
      let '(b, s) := next_byte data s in
      let '(l, s) := select_ids data ids s in
      (if negb (Z.land b 1 =? 0) then id :: l else l, s)
  end.

Definition check_decision (policy : ProductionPolicy) (source : NetworkNode) (available : list Z) : option unit :=
  let expected := reference source available in
  answer ← unwrap (network_satisfied policy available);
  _ ← assert (eqb answer expected);
  answer ← unwrap (network_satisfied policy (rev available));
  assert (eqb answer expected).

Definition is_err {E A} (r : result E A) : bool := negb (is_ok r).

Definition fuzz_policy (data : list Z) : option unit :=
  let '(b, s) := next_byte data (mk_source 0 64) in
  let mode := if Z.land b 1 =? 0 then NetworkBound else Attested in
  let '(tpm_id, s) := next_byte data s in
  let '(node, s) := generated_node data 6 s in
  source ← node;
  match new_policy mode tpm_id source with
  | Err _ => Some tt
  | Ok policy =>
      let ids := network_leaf_ids policy in
      _ ← assert (policy_node_count policy <=? MAX_NODES)%nat;
      _ ← assert (size (list_to_set ids : gset Z) =? length ids)%nat;
      let '(selected, _) := select_ids data ids s in
      _ ← check_decision policy source [];
      _ ← check_decision policy source selected;
      _ ← check_decision policy source ids;
      _ ← match ids with first :: _ => assert (is_err (network_satisfied policy [first; first])) | [] => Some tt end;
      unknown ← List.find (fun candidate => negb (bool_decide (candidate ∈ ids))) (seqZ 0 256);
      assert (is_err (network_satisfied policy [unknown]))
  end.

(** * The codec harnesses hold *)

Lemma fuzz_wire_holds data : byte_slice data -> fuzz_wire data = Some tt.
Proof.
  intros Hd. unfold fuzz_wire.
  assert (match decode_request data with
    | Ok m => assert (bool_decide (encode_request (request_key_id m) (request_point m) = data)) | Err _ => Some tt end = Some tt) as ->.
  { destruct (decode_request data) as [m|] eqn:E; [|done]. apply decode_request_iff in E as ([Hk _] & [Hp _] & ->); [|done].
    by rewrite encode_request_bytes, assert_true. }
  simpl. destruct (decode_response data) as [m|] eqn:E; [|done]. apply decode_response_iff in E as ([He _] & [Hp _] & ->); [|done].
  by rewrite encode_response_bytes, assert_true.
Qed.

Lemma fuzz_luks_token_holds `{TokenTextLaws} (from_utf8 : list Z -> option string) data :
  (forall s bytes, b64_decode s = Some bytes -> byte_slice bytes) -> fuzz_luks_token from_utf8 data = Some tt.
Proof.
  intros Hbytes. unfold fuzz_luks_token. destruct (from_utf8 data) as [text|]; [|done].
  destruct (decode_token text) as [[slot env]|] eqn:E; [|done]. apply decode_token_spec in E as (_ & t & _ & _ & _ & Hs & Hd & _ & Hne & Hl).
  destruct (encode_decode slot env Hs (Hbytes _ _ Hd) Hne Hl) as (json & Henc & Hdec). cbn [envelope_slot envelope_bytes].
  rewrite (proj2 (Z.ltb_lt slot 32)), bool_decide_eq_false_2, (proj2 (Z.leb_le (len env) MAX_ENVELOPE))
    by (done || unfold len, MAX_ENVELOPE; lia). simpl. rewrite Henc. simpl. rewrite Hdec. simpl.
  rewrite Z.eqb_refl. simpl. rewrite assert_true by done. simpl. rewrite Henc. simpl. by rewrite String.eqb_refl.
Qed.

Section Envelopes.
Context `{PrimitiveLaws} `{CborLaws}.

Lemma signer_seed : byte_array 32 (seed SIGNER).
Proof. by apply (bool_decide_unpack _). Qed.

(** The only signature in the frame is the one that the test key makes. *)
Definition signed_once (raw : list Z) : Prop := forall bytes signature,
  raw = put_signed bytes signature -> verify (signing_public_key SIGNER) (sign_input bytes) signature = Ok tt ->
  signature = ed25519_sign (seed SIGNER) (sign_input bytes).

Lemma check_authenticated_holds raw : byte_slice raw ->
  (forall bytes signature, finished get_signed raw = Ok (bytes, signature) -> raw = put_signed bytes signature ->
     verify (signing_public_key SIGNER) (sign_input bytes) signature = Ok tt ->
     signature = ed25519_sign (seed SIGNER) (sign_input bytes)) ->
  check_authenticated raw = Some tt.
Proof.
  intros Hraw Honce. unfold check_authenticated. destruct (authenticate raw (signing_public_key SIGNER)) as [env|] eqn:E; [|done].
  destruct (authenticate_frame raw _ env Hraw E) as (bytes & signature & Hf & Hr & Hv & Hb & Hty & Hval & Hc).
  rewrite (proj2 (sign_envelope_iff (body env) SIGNER raw Hty signer_seed)).
  2: { split; [done|]. exists bytes. split; [done|]. by rewrite <- (Honce bytes signature). }
  simpl. rewrite assert_true by done. simpl. rewrite Hc. simpl. by rewrite assert_true.
Qed.

Lemma sign_unparsed_holds data : byte_slice data -> len data <= MAX_ENVELOPE - 128 ->
  exists signed, sign_unparsed_body data = Some signed /\ check_authenticated signed = Some tt.
Proof.
  intros Hd Hl. unfold sign_unparsed_body. rewrite app_assoc. change (bytes_of_string "leelo/v1/envelope" ++ [0]) with SIGN_DOMAIN.
  change (SIGN_DOMAIN ++ data) with (sign_input data). set (signature := ed25519_sign (seed SIGNER) (sign_input data)).
  assert (sign SIGNER (sign_input data) = Ok signature) as ->.
  { unfold sign, sign_input. rewrite len_app, sign_domain_len. unfold MAX_CONTEXT_BYTES, MAX_ENVELOPE in *.
    destruct (Z.ltb_spec 65536 (18 + len data)); [lia|done]. }
  simpl. eexists. split; [done|]. change (enc_array 2 ++ enc_bytes data ++ enc_bytes signature) with (put_signed data signature).
  assert (byte_array 64 signature) as Hs by apply ed25519_signature_bytes.
  apply check_authenticated_holds.
  - unfold put_signed. apply Forall_app; split; [apply array_bytes|]. apply Forall_app; split; [by apply bytes_bytes|by apply bytes_bytes, Hs].
  - intros bytes signature' Hf _ _. rewrite (decodes_finished _ _ (data, signature)) in Hf by (apply signed_round_trip; [done|unfold MAX_ENVELOPE in Hl; lia|done]).
    by injection Hf as <- <-.
Qed.

Lemma fuzz_envelope_holds data : byte_slice data -> signed_once data -> fuzz_envelope data = Some tt.
Proof.
  intros Hd Honce. unfold fuzz_envelope. rewrite check_authenticated_holds; [|done|intros bytes signature _; apply Honce]. simpl.
  destruct (Z.leb_spec (len data) (MAX_ENVELOPE - 128)) as [Hl|]; [|done].
  destruct (sign_unparsed_holds data Hd Hl) as (signed & -> & Hc). exact Hc.
Qed.
End Envelopes.

(** * The policy harness holds *)

Lemma next_byte_typed data s : byte_slice data -> u8 (next_byte data s).1.
Proof.
  intros Hd. unfold next_byte. simpl. destruct (data !! source_offset s) as [b|] eqn:E; [|by split].
  exact (Forall_lookup_1 _ _ _ _ Hd E).
Qed.

Lemma generate_typed {A} (P : A -> Prop) (step : Source -> option A * Source) count :
  (forall s, match (step s).1 with Some a => P a | None => True end) -> forall s, Forall P (generate step count s).1.
Proof.
  intros Hstep. induction count as [|count IH]; intros s; [constructor|]. cbn [generate]. specialize (Hstep s).
  destruct (step s) as [[a|] s1]; specialize (IH s1); destruct (generate step count s1); [by constructor|done].
Qed.

Ltac take_byte :=
  match goal with
  | Hd : byte_slice ?data |- context [next_byte ?data ?s] =>
      let Hb := fresh "Hb" in pose proof (next_byte_typed data s Hd) as Hb; destruct (next_byte data s) as [? ?]; cbn [fst] in Hb
  end.

Lemma generated_node_typed data height : byte_slice data ->
  forall s, match (generated_node data height s).1 with Some node => node_typed node | None => source_budget s = 0%nat end.
Proof.
  intros Hd. induction height as [|height IH]; intros s; cbn [generated_node]; destruct (source_budget s) as [|budget]; try done.
  all: repeat take_byte.
  - constructor; [done|]. split; [by rewrite length_replicate|by apply Forall_replicate].
  - destruct (_ =? 0).
    + constructor; [done|]. split; [by rewrite length_replicate|by apply Forall_replicate].
    + pose proof (generate_typed node_typed (generated_node data height) (Z.to_nat (z2 mod 9))
        ltac:(intros s'; specialize (IH s'); by destruct (generated_node data height s').1)) as Hc.
      match goal with |- context [generate ?f ?c ?s0] => specialize (Hc s0); destruct (generate f c s0) end. by constructor.
Qed.

(** On trees with thresholds in range, the harness's semantics is the policy's. *)
Lemma reference_satisfied node available :
  thresholds_ok node = true -> reference node available = satisfied (fun id => bool_decide (id ∈ available)) node.
Proof.
  induction node as [id provider|id required children IH] using NetworkNode_nested_ind; [done|]. cbn [thresholds_ok reference satisfied].
  rewrite !andb_true_iff, Z.leb_le, Z.leb_le. intros [[H1 H2] Hok].
  rewrite (proj2 (Z.ltb_lt 0 required)), (proj2 (Z.leb_le required (Z.of_nat (length children)))) by lia. cbn [andb].
  do 3 f_equal. clear H1 H2. induction children as [|c children IHc]; [done|]. apply Forall_cons in IH as [Hc IH].
  simpl in Hok. apply andb_prop in Hok as [Hok1 Hok2]. simpl. rewrite Hc by done. rewrite IHc by done. done.
Qed.

Lemma elem_of_rev (l : list Z) id : id ∈ rev l <-> id ∈ l.
Proof. by rewrite !list_elem_of_In, <- in_rev. Qed.

Lemma check_decision_holds policy available :
  policy_ok policy -> (forall id, id ∈ available -> id ∈ network_leaf_ids policy) -> NoDup available ->
  check_decision policy (network policy) available = Some tt.
Proof.
  intros Hok Hin Hnd. pose proof Hok as (_ & Hwf & _). apply well_formed_facts in Hwf as (_ & Hth & _).
  unfold check_decision. rewrite (reference_satisfied _ _ Hth).
  set (answer := satisfied (fun id => bool_decide (id ∈ available)) (network policy)).
  rewrite (proj2 (network_satisfied_iff policy available answer Hok)) by (split_and!; done). simpl. rewrite eqb_reflx. simpl.
  rewrite (proj2 (network_satisfied_iff policy (rev available) (satisfied (fun id => bool_decide (id ∈ rev available)) (network policy)) Hok)).
  2: { split_and!; [|by apply NoDup_ListNoDup, List.NoDup_rev, NoDup_ListNoDup|reflexivity]. intros id. rewrite elem_of_rev. apply Hin. }
  simpl. rewrite (satisfied_ext _ (fun id => bool_decide (id ∈ available))); [by rewrite eqb_reflx|].
  intros id. apply bool_decide_ext. by rewrite elem_of_rev.
Qed.

Lemma select_ids_sublist data ids s : (select_ids data ids s).1 `sublist_of` ids.
Proof.
  revert s. induction ids as [|id ids IH]; intros s; [constructor|]. cbn [select_ids]. destruct (next_byte data s) as [b s1].
  specialize (IH s1). destruct (select_ids data ids s1) as [l s2]. simpl in *. destruct (negb _); by constructor.
Qed.

Lemma network_rejects policy available :
  policy_ok policy -> ~ ((forall id, id ∈ available -> id ∈ network_leaf_ids policy) /\ NoDup available) ->
  is_err (network_satisfied policy available) = true.
Proof.
  intros Hok Hn. destruct (network_satisfied policy available) as [answer|] eqn:E; [|done]. exfalso. apply Hn.
  apply network_satisfied_iff in E as (? & ? & _); [by split|done].
Qed.

Lemma leaf_ids_bounded policy : policy_ok policy ->
  NoDup (network_leaf_ids policy) /\ (length (network_leaf_ids policy) <= 29)%nat /\ (policy_node_count policy <= MAX_NODES)%nat.
Proof.
  intros (_ & Hwf & Hp). apply well_formed_facts in Hwf as (Hnd & _ & _ & Hs). unfold network_leaf_ids, policy_node_count, MAX_NODES.
  rewrite Hp. unfold plan_of. cbn [leaves gates]. rewrite gates_of_length, length_map. split_and!; [done| |lia].
  etransitivity; [|exact Hs]. clear. induction (network policy) as [id provider|id required children IH] using NetworkNode_nested_ind; [done|].
  simpl. rewrite length_concat. induction children as [|c children IHc]; [simpl; lia|]. apply Forall_cons in IH as [Hc IH].
  specialize (IHc IH). simpl in *. lia.
Qed.

Lemma unknown_exists (ids : list Z) : NoDup ids -> (length ids < 256)%nat ->
  exists unknown, List.find (fun candidate => negb (bool_decide (candidate ∈ ids))) (seqZ 0 256) = Some unknown /\ unknown ∉ ids.
Proof.
  intros Hnd Hl. destruct (List.find _ _) as [x|] eqn:E.
  - exists x. split; [done|]. apply List.find_some in E as [_ E]. by apply negb_true_iff, bool_decide_eq_false in E.
  - exfalso. assert (length (seqZ 0 256) <= length ids)%nat as Hle; [|rewrite length_seqZ in Hle; lia].
    apply submseteq_length, NoDup_submseteq; [apply NoDup_seqZ|]. intros x Hx. apply list_elem_of_In in Hx.
    pose proof (List.find_none _ _ E x Hx) as Hn. by apply negb_false_iff, bool_decide_eq_true in Hn.
Qed.

(** The policy harness never fails. For every input, the tree that the harness generates exists; if the
    policy constructor accepts it, the policy has at most 31 nodes and distinct leaf identifiers, its decisions on
    no leaves, on selected leaves and on all of them, in either order, are those of the harness's own recursive
    semantics, a repeated identifier is rejected, and so is an unknown one, which exists. *)
Lemma policy_harness_holds data : byte_slice data -> fuzz_policy data = Some tt.
Proof.
  intros Hd. unfold fuzz_policy. destruct (next_byte data (mk_source 0 64)) as [b s] eqn:E1.
  destruct (next_byte data s) as [tpm_id s2] eqn:E2. pose proof (generated_node_typed data 6 Hd s2) as Hty.
  assert (source_budget s2 = 64%nat) as Hb by (injection E1 as <- <-; by injection E2 as <- <-).
  destruct (generated_node data 6 s2) as [[source|] s3]; cbn [fst] in Hty; [|congruence]. cbn [mbind option_bind].
  destruct (new_policy _ tpm_id source) as [policy|] eqn:Hnew; [|done]. pose proof (new_policy_ok _ _ _ _ Hty Hnew) as Hok.
  assert (source = network policy) as -> by (apply new_policy_iff in Hnew as [_ ->]; done).
  destruct (leaf_ids_bounded policy Hok) as (Hnd & Hlen & Hn). rewrite (proj2 (Nat.leb_le _ _) Hn). cbn [assert mbind option_bind].
  rewrite size_list_to_set, Nat.eqb_refl by done. cbn [assert mbind option_bind].
  pose proof (select_ids_sublist data (network_leaf_ids policy) s3) as Hsub.
  destruct (select_ids data (network_leaf_ids policy) s3) as [selected s4]. cbn [fst] in Hsub.
  rewrite (check_decision_holds policy [] Hok) by (by constructor || by intros id ?%elem_of_nil).
  rewrite (check_decision_holds policy selected Hok);
    [|intros id Hid; eapply elem_of_submseteq; [exact Hid|by apply sublist_submseteq]|by eapply sublist_NoDup].
  rewrite (check_decision_holds policy (network_leaf_ids policy) Hok) by done. cbn [mbind option_bind].
  assert (match network_leaf_ids policy with first :: _ => assert (is_err (network_satisfied policy [first; first])) | [] => Some tt end = Some tt) as ->.
  { destruct (network_leaf_ids policy) as [|first rest]; [done|]. rewrite network_rejects; [done|done|].
    intros [_ Hdup]. apply NoDup_cons in Hdup as [Hdup _]. apply Hdup. by apply list_elem_of_singleton. }
  cbn [mbind option_bind]. destruct (unknown_exists (network_leaf_ids policy) Hnd ltac:(lia)) as (unknown & -> & Hun).
  cbn [mbind option_bind]. rewrite network_rejects; [done|done|]. intros [Hin _]. apply Hun, Hin. by apply list_elem_of_singleton.
Qed.

(** * Properties *)

(** C15: no harness ever fails. Whatever bytes arrive, an accepted wire message is the encoding of itself; an
    accepted token has a slot and an envelope within bounds and survives encoding and decoding; an accepted policy
    decides as the harness's own recursive semantics does, on no leaves, on selected ones and on all of them, in
    either order, has at most 31 nodes and distinct leaves, and rejects repeated and unknown ones; arbitrary bytes,
    signed with the test key as if they were a body, are rejected or are exactly what signing the parsed body gives,
    with its context hash; and so are arbitrary frames, unless they carry a signature that verifies under the test
    key and that signing does not make. *)
Theorem harnesses_hold `{PrimitiveLaws} `{CborLaws} `{TokenTextLaws} (from_utf8 : list Z -> option string) data :
  (forall s bytes, b64_decode s = Some bytes -> byte_slice bytes) -> byte_slice data ->
  fuzz_wire data = Some tt /\ fuzz_luks_token from_utf8 data = Some tt /\ fuzz_policy data = Some tt /\
  (len data <= MAX_ENVELOPE - 128 -> exists signed, sign_unparsed_body data = Some signed /\ check_authenticated signed = Some tt) /\
  (signed_once data -> fuzz_envelope data = Some tt).
Proof.
  intros Hbytes Hd. split_and!;
    [by apply fuzz_wire_holds|by apply fuzz_luks_token_holds|by apply policy_harness_holds|by apply sign_unparsed_holds|by apply fuzz_envelope_holds].
Qed.
