(* ===== verification/LuksRun.v ===== *)
(** Enrollment on a volume that works: when the calls of libcryptsetup succeed as documented, adding
    an enrollment to a free slot completes, and the token and the credential read back. *)
From stdpp Require Import base list gmap strings.
From Stdlib Require Import ZArith Lia.
From S2P Require Import Prelude Text Luks.

Open Scope Z_scope.

Section Header.
Context {D : Type} `{Cryptsetup D} `{HeaderView D}.

(** The metadata text and the size of the metadata area. *)
Definition header_text (d : D) : string := default EmptyString (crypt_dump_json 0 d).2.
Definition header_size (d : D) : Z := (crypt_get_metadata_size 0 d).2.

(** The lowest free token identifier. *)
Definition free_token (d : D) : option Z := List.find (fun id => bool_decide (tokens d !! id = None)) SLOTS.
End Header.

(** Calls that succeed. A token refers to keyslots in use, and both kinds of write need space. *)
Class CryptsetupWorks (D : Type) `{Cryptsetup D} `{HeaderView D} `{TokenText} : Prop := {
  clone_works n : try_clone (D := D) n = true;
  lock_works n : set_write_lock (D := D) n = None;
  sync_works n : sync_all (D := D) n = true;
  init_works n (d : D) : 0 <= crypt_init n d;
  load_works n (d : D) : 0 <= crypt_load n d;
  size_works n (d : D) : crypt_get_metadata_size n d = (0, header_size d);
  dump_works n (d : D) : crypt_dump_json n d = (0, Some (header_text d));
  tokens_listed (d : D) : exists m, metadata_tokens (D := D) (header_text d) = Some (Some m) /\
    forall id, 0 <= id < 32 ->
      match m !! display_u64 id, tokens d !! id with
      | None, None => True
      | Some text, Some text' => token_from_str text = token_from_str text'
      | _, _ => False
      end;
  activate_works n (d : D) s c : 0 <= s < 32 -> keyslots d !! s = Some c -> crypt_activate_by_passphrase n d None s c = s;
  activate_any_works n (d : D) s c : 0 <= s < 32 -> keyslots d !! s = Some c ->
    0 <= crypt_activate_by_passphrase n d None (-1) c < 32;
  add_works n (d : D) s s' old new :
    0 <= s < 32 -> keyslots d !! s = None -> 0 <= s' < 32 -> keyslots d !! s' = Some old ->
    str_len (header_text d) + NEW_SLOT_JSON_RESERVE <= header_size d - BINARY_HEADER_SIZE ->
    exists d', crypt_keyslot_add_by_passphrase n d s old new = (s, d') /\
      crypt_get_uuid d' = crypt_get_uuid d /\ header_size d' = header_size d /\
      str_len (header_text d') <= str_len (header_text d) + NEW_SLOT_JSON_RESERVE;
  set_works n (d : D) id t json :
    free_token d = Some id -> token_to_string t = Some json ->
    Forall (fun k => exists s, 0 <= s < 32 /\ k = display_u64 s /\ is_Some (keyslots d !! s)) (token_keyslots t) ->
    str_len (header_text d) + str_len json + str_len (display_u64 id) + 5 <= header_size d - BINARY_HEADER_SIZE ->
    exists d', crypt_token_json_set n d json = (id, d') /\
      tokens d' !! id = Some json /\ crypt_get_uuid d' = crypt_get_uuid d;
  get_works n (d : D) id json : tokens d !! id = Some json -> crypt_token_json_get n d id = (0, Some json);
}.

(** Runs the calls of a reading operation. *)
Ltac run_calls := unfold mbind, mret, M_bind, M_ret, ask, context, of_result, throw, set_handle; cbn -[Z.ltb Z.leb Z.eqb].

Section Run.
Context {D : Type} `{Cryptsetup D} `{TokenText} `{HeaderView D} `{!CryptsetupLaws D} `{!CryptsetupWorks D} `{!TokenTextLaws}.
Implicit Types w : World D.

Lemma bind_run {A B} (m : M A) (f : A -> M B) w a w1 : m w = (Ok a, w1) -> (m ≫= f) w = f a w1.
Proof. unfold mbind, M_bind. by intros ->. Qed.

(** The volume is the one that was opened. *)
Definition same_volume w : Prop := crypt_get_uuid (disk w) = Some (luks_uuid (handle w)).

(** Only the call counter moved, and the handle shows the disk. *)
Definition settled w w' : Prop :=
  disk w' = disk w /\ luks_uuid (handle w') = luks_uuid (handle w) /\ writable (handle w') = writable (handle w) /\
  cd (handle w') = disk w.

Lemma checked_run operation code : 0 <= code -> checked operation code = Ok code.
Proof. intros. unfold checked. by rewrite (proj2 (Z.ltb_ge _ _)) by lia. Qed.

Lemma reload_runs w : same_volume w -> exists w', reload w = (Ok tt, w') /\ settled w w'.
Proof.
  intros Hv. unfold reload, from_file. run_calls. rewrite clone_works. run_calls.
  rewrite checked_run by apply init_works. run_calls. rewrite checked_run by apply load_works. run_calls.
  rewrite Hv. run_calls. rewrite bool_decide_eq_true_2 by done. run_calls. by eexists.
Qed.

(** Only the call counter moved. *)
Definition ticked w w' : Prop := disk w' = disk w /\ handle w' = handle w.

Lemma settled_ticked w w1 w2 : settled w w1 -> ticked w1 w2 -> settled w w2.
Proof. unfold settled, ticked. intros (? & ? & ? & ?) (? & ->). split_and!; congruence. Qed.

Lemma settled_same_volume w w' : settled w w' -> same_volume w -> same_volume w'.
Proof. unfold settled, same_volume. intros (-> & -> & _) ?. done. Qed.

Lemma acquire_runs w : exists w', acquire w = (Ok tt, w') /\ ticked w w'.
Proof. unfold acquire. run_calls. rewrite clone_works. run_calls. rewrite lock_works. by eexists. Qed.

Lemma slot_status_runs slot w :
  0 <= slot < 32 -> keyslots (cd (handle w)) !! slot = None -> slot_status slot w = (Ok SLOT_INACTIVE, w).
Proof.
  intros Hs Hk. unfold slot_status. rewrite (proj2 (Z.leb_gt SLOT_COUNT slot)) by (unfold SLOT_COUNT; lia). run_calls.
  by rewrite (proj2 (status_inactive _ _ Hs) Hk).
Qed.

Definition credential_ok (c : list Z) : Prop := c <> [] /\ Z.of_nat (length c) <= 8192.

Lemma activate_inner_runs slot c mapping w :
  0 <= slot < 32 -> credential_ok c -> crypt_activate_by_passphrase (calls w) (cd (handle w)) mapping slot c = slot ->
  exists w', activate_inner (Some slot) c mapping w = (Ok slot, w') /\ ticked w w'.
Proof.
  intros Hs [Hne Hlen] Hact. unfold activate_inner, SLOT_COUNT.
  rewrite (proj2 (Z.leb_gt 32 slot)), bool_decide_eq_false_2, (proj2 (Z.ltb_ge 8192 _)) by (done || lia). run_calls.
  rewrite Hact, checked_run by (done || lia). run_calls.
  rewrite (proj2 (Z.leb_gt 32 slot)), (proj2 (Z.ltb_ge 255 _)), Z.eqb_refl by lia. run_calls. by eexists.
Qed.

Lemma activate_slot_runs slot c w :
  0 <= slot < 32 -> credential_ok c -> keyslots (cd (handle w)) !! slot = Some c ->
  exists w', activate_inner (Some slot) c None w = (Ok slot, w') /\ ticked w w'.
Proof. intros Hs Hc Hk. apply activate_inner_runs; [done|done|]. by apply activate_works. Qed.

Lemma activate_any_runs s c w :
  0 <= s < 32 -> credential_ok c -> keyslots (cd (handle w)) !! s = Some c ->
  exists s' w', activate_inner None c None w = (Ok s', w') /\ ticked w w'.
Proof.
  intros Hs [Hne Hlen] Hk. unfold activate_inner, SLOT_COUNT.
  rewrite bool_decide_eq_false_2, (proj2 (Z.ltb_ge 8192 _)) by (done || lia). run_calls.
  pose proof (activate_any_works (calls w) _ _ _ Hs Hk) as Ha.
  rewrite checked_run by lia. run_calls. rewrite (proj2 (Z.leb_gt 32 _)), (proj2 (Z.ltb_ge 255 _)) by lia. run_calls. by do 2 eexists.
Qed.

(** The metadata area of a header is within the limits. *)
Definition area_ok (d : D) : Prop := 0 <= header_size d - BINARY_HEADER_SIZE <= 4 * 1024 * 1024.

(** The parsed metadata lists the tokens of the header. *)
Definition lists (d : D) (m : gmap string string) : Prop :=
  forall id, 0 <= id < 32 ->
    match m !! display_u64 id, tokens d !! id with
    | None, None => True
    | Some text, Some text' => token_from_str text = token_from_str text'
    | _, _ => False
    end.

Lemma metadata_runs w :
  area_ok (cd (handle w)) ->
  exists m w', metadata w = (Ok (mk_metadata (Some m) (str_len (header_text (cd (handle w))))
      (header_size (cd (handle w)) - BINARY_HEADER_SIZE)), w') /\ ticked w w' /\ lists (cd (handle w)) m.
Proof.
  intros Ha. destruct (tokens_listed (cd (handle w))) as (m & Hm & Hl). unfold metadata. run_calls.
  rewrite size_works. run_calls. unfold area_ok in Ha.
  rewrite (proj2 (Z.ltb_ge (_ - _) 0)), (proj2 (Z.ltb_ge _ (_ - _))) by lia. run_calls.
  rewrite dump_works. run_calls. rewrite Hm. by do 2 eexists.
Qed.

Lemma find_ext_in {A} (f g : A -> bool) l : Forall (fun a => f a = g a) l -> List.find f l = List.find g l.
Proof. induction 1 as [|a l Ha Hl IH]; simpl; [done|]. rewrite Ha. by destruct (g a). Qed.

Lemma lists_free d m : lists d m -> List.find (fun id => bool_decide (m !! display_u64 id = None)) SLOTS = free_token d.
Proof.
  intros Hl. apply find_ext_in, Forall_forall. intros id Hid. apply elem_of_seqZ in Hid. specialize (Hl id ltac:(lia)).
  destruct (m !! display_u64 id), (tokens d !! id); done.
Qed.

Lemma token_plan_runs slot e json id (adding : bool) w :
  encode_token slot e = Ok json -> free_token (cd (handle w)) = Some id -> area_ok (cd (handle w)) ->
  str_len (header_text (cd (handle w))) + str_len json + str_len (display_u64 id) + 5 +
    (if adding then NEW_SLOT_JSON_RESERVE else 0) <= header_size (cd (handle w)) - BINARY_HEADER_SIZE ->
  exists w', token_plan slot e adding w = (Ok (id, json), w') /\ ticked w w'.
Proof.
  intros He Hf Ha Hsize. destruct (metadata_runs w Ha) as (m & w' & Hm & Ht & Hl).
  unfold token_plan. rewrite He. run_calls. rewrite Hm. run_calls. rewrite (lists_free _ _ Hl), Hf.
  rewrite (proj2 (Z.ltb_ge _ _)) by (simpl; lia). unfold encode_token in He. destruct (_ || _); [done|].
  destruct (token_to_string _) as [s|] eqn:Es; [|done]. injection He as ->. rewrite (token_no_nul _ _ Es). by eexists.
Qed.

Lemma verify_persisted_runs id slot c e json w :
  same_volume w -> 0 <= id < 32 -> 0 <= slot < 32 -> credential_ok c ->
  tokens (disk w) !! id = Some json -> decode_token json = Ok (mk_token_envelope slot e) ->
  keyslots (disk w) !! slot = Some c ->
  exists w', verify_persisted id slot c e w = (Ok tt, w') /\ settled w w'.
Proof.
  intros Hv Hid Hs Hc Htok Hdec Hk. destruct (reload_runs w Hv) as (w1 & E1 & S1). pose proof S1 as (Hd & _ & _ & Hcd).
  unfold verify_persisted. rewrite (bind_run _ _ _ _ _ E1). unfold cached_token, SLOT_COUNT.
  rewrite (proj2 (Z.leb_gt 32 id)) by lia. run_calls. rewrite (get_works _ _ _ json) by (by rewrite Hcd). run_calls. rewrite Hdec, checked_run by done. run_calls.
  rewrite Z.eqb_refl, bool_decide_eq_true_2 by done. cbn.
  destruct (activate_slot_runs slot c (mk_world (handle w1) (disk w1) (S (calls w1)))) as (w2 & E2 & T2); [done..|simpl; by rewrite Hcd|].
  rewrite E2. eexists. split; [done|]. eapply settled_ticked; [exact S1|]. destruct T2. by split.
Qed.

(** No token of the header is bound to the slot alone. *)
Definition unbound (d : D) (slot : Z) : Prop :=
  forall id text t, 0 <= id < 32 -> tokens d !! id = Some text -> token_from_str text = Some t ->
    token_keyslots t <> [display_u64 slot].

Lemma find_token_unbound d m slot e ids :
  Forall (fun id => 0 <= id < 32) ids -> lists d m -> unbound d slot -> find_token ids m slot e = None.
Proof.
  intros Hids Hl Hu. induction Hids as [|id ids Hid Hids IH]; simpl; [done|].
  specialize (Hl id Hid). destruct (m !! display_u64 id) as [text|]; [|done].
  destruct (tokens d !! id) as [text'|] eqn:Ht; [|done]. destruct (decode_token text) as [[s b]|err] eqn:Hd; [|done].
  destruct (_ && _) eqn:Heq; [|done]. apply andb_prop in Heq as [Hs _]. apply Z.eqb_eq in Hs. simpl in Hs. subst s.
  apply decode_token_spec in Hd as (_ & t & Hp & _ & Hk & _). rewrite Hl in Hp.
  by destruct (Hu id text' t Hid Ht Hp).
Qed.

Lemma slots_in_range : Forall (fun id => 0 <= id < 32) SLOTS.
Proof. apply Forall_forall. intros id Hid. apply elem_of_seqZ in Hid. lia. Qed.

Lemma free_token_range d id : free_token d = Some id -> 0 <= id < 32 /\ tokens d !! id = None.
Proof.
  intros Hf. apply find_some in Hf as [Hin Hb]. apply bool_decide_eq_true in Hb. split; [|done].
  apply list_elem_of_In, elem_of_seqZ in Hin. lia.
Qed.

(** The token's text for a slot, and that it is read back. *)
Definition writes_token (slot : Z) (e : list Z) (json : string) : Prop :=
  encode_token slot e = Ok json /\ decode_token json = Ok (mk_token_envelope slot e) /\
  exists t, token_to_string t = Some json /\ token_keyslots t = [display_u64 slot].

Lemma attach_locked_runs slot c e json id w :
  same_volume w -> 0 <= slot < 32 -> credential_ok c -> writes_token slot e json ->
  keyslots (disk w) !! slot = Some c -> unbound (disk w) slot -> free_token (disk w) = Some id -> area_ok (disk w) ->
  str_len (header_text (disk w)) + str_len json + str_len (display_u64 id) + 5 <= header_size (disk w) - BINARY_HEADER_SIZE ->
  exists w', attach_locked slot c e w = (Ok id, w') /\ same_volume w'.
Proof.
  intros Hv Hs Hc (Henc & Hdec & t & Ht & Hks) Hk Hu Hf Ha Hsize.
  destruct (free_token_range _ _ Hf) as [Hid _].
  destruct (reload_runs w Hv) as (w1 & E1 & S1). pose proof S1 as (_ & _ & _ & Hcd1).
  destruct (activate_slot_runs slot c w1) as (w2 & E2 & T2); [done..|by rewrite Hcd1|].
  pose proof (settled_ticked _ _ _ S1 T2) as S2. pose proof S2 as (Hd2 & _ & _ & Hcd2).
  destruct (metadata_runs w2) as (m & w3 & E3 & T3 & Hl); [by rewrite Hcd2|].
  pose proof (settled_ticked _ _ _ S2 T3) as S3. pose proof S3 as (Hd3 & _ & _ & Hcd3).
  destruct (token_plan_runs slot e json id false w3) as (w4 & E4 & T4); [done|by rewrite Hcd3..|rewrite Hcd3; lia|].
  pose proof (settled_ticked _ _ _ S3 T4) as S4. pose proof S4 as (Hd4 & Hu4 & _ & _).
  destruct (set_works (calls w4) (disk w) id t json) as (d' & Eset & Htok & Huuid); [done..| |done|].
  { rewrite Hks. constructor; [|done]. eauto. }
  destruct (set_writes _ _ _ _ _ Eset) as [Hkeys _].
  pose (w5 := mk_world (mk_luks2 d' (luks_uuid (handle w4)) (writable (handle w4))) d' (S (S (calls w4)))).
  assert (same_volume w5) as Hv5 by (unfold same_volume; simpl; by rewrite Huuid, Hu4).
  destruct (verify_persisted_runs id slot c e json w5) as (w6 & E6 & S6); [done..|simpl; by rewrite Hkeys|].
  exists w6. split; [|by eapply settled_same_volume]. unfold attach_locked.
  rewrite (bind_run _ _ _ _ _ E1), (bind_run _ _ _ _ _ E2), (bind_run _ _ _ _ _ E3). rewrite Hcd2 in Hl. run_calls.
  rewrite (find_token_unbound _ _ _ _ _ slots_in_range Hl Hu). rewrite E4. cbn. unfold write_header. rewrite Hd4, Eset.
  unfold map_error, sync. run_calls. rewrite checked_run by lia. run_calls. rewrite Z.eqb_refl. run_calls. rewrite sync_works. run_calls.
  fold w5. by rewrite E6.
Qed.

Lemma add_enrollment_runs slot s old new e json id w :
  writable (handle w) = true -> same_volume w -> 0 <= slot < 32 -> 0 <= s < 32 -> credential_ok old -> credential_ok new ->
  writes_token slot e json -> keyslots (disk w) !! slot = None -> keyslots (disk w) !! s = Some old ->
  unbound (disk w) slot -> free_token (disk w) = Some id -> area_ok (disk w) ->
  str_len (header_text (disk w)) + str_len json + str_len (display_u64 id) + 5 + NEW_SLOT_JSON_RESERVE
    <= header_size (disk w) - BINARY_HEADER_SIZE ->
  exists w', add_enrollment slot old new e w = (Ok id, w') /\ same_volume w'.
Proof.
  intros Hw Hv Hs Hs' Ho Hn Hj Hfree Hold Hu Hf Ha Hsize.
  destruct (acquire_runs w) as (w0 & E0 & [Hd0 Hh0]).
  assert (same_volume w0) as Hv0 by (unfold same_volume; by rewrite Hd0, Hh0).
  destruct (reload_runs w0 Hv0) as (w1 & E1 & S1). rewrite <- Hd0 in *. pose proof S1 as (Hd1 & _ & _ & Hcd1).
  pose proof (slot_status_runs slot w1 Hs ltac:(by rewrite Hcd1)) as E2.
  destruct (activate_any_runs s old w1) as (a & w3 & E3 & T3); [done..|by rewrite Hcd1|].
  pose proof (settled_ticked _ _ _ S1 T3) as S3. pose proof S3 as (Hd3 & _ & _ & Hcd3).
  destruct (token_plan_runs slot e json id true w3) as (w4 & E4 & T4); [apply Hj|by rewrite Hcd3..|].
  pose proof (settled_ticked _ _ _ S3 T4) as S4. pose proof S4 as (Hd4 & Hu4 & _ & _).
  assert (0 <= str_len json /\ 0 <= str_len (display_u64 id)) as [? ?] by (unfold str_len; lia).
  destruct (add_works (calls w4) (disk w0) slot s old new) as (d1 & Eadd & Huuid & Hsz & Htext); [done..|lia|].
  destruct (add_writes _ _ _ _ _ _ _ Eadd) as [Htok Hkeys]. rewrite (proj2 (Z.ltb_ge slot 0)) in Hkeys by lia.
  destruct Hkeys as [_ Hkeys].
  pose (w5 := mk_world (mk_luks2 d1 (luks_uuid (handle w4)) (writable (handle w4))) d1 (S (S (calls w4)))).
  assert (same_volume w5) as Hv5 by (unfold same_volume; simpl; by rewrite Huuid, Hu4).
  destruct (attach_locked_runs slot new e json id w5) as (w6 & E6 & Hv6); [exact Hv5|exact Hs|exact Hn|exact Hj|..].
  { simpl. by rewrite Hkeys, lookup_insert_eq. }
  { unfold unbound. simpl. by rewrite Htok. }
  { unfold free_token. simpl. by rewrite Htok. }
  { unfold area_ok. simpl. by rewrite Hsz. }
  { simpl. rewrite Hsz. lia. }
  exists w6. split; [|done]. unfold add_enrollment. run_calls. rewrite Hw. cbn.
  rewrite E0, E1, E2. cbn. rewrite E3, E4. unfold write_header. cbn. rewrite Hd4, Eadd.
  rewrite (proj2 (Z.ltb_ge slot 0)), Z.eqb_refl by lia. cbn. unfold sync, map_error. run_calls. rewrite sync_works. run_calls.
  fold w5. by rewrite E6.
Qed.

(** Every envelope within its bounds has a token text, of a known size. *)
Lemma writes_token_bound slot e :
  0 <= slot < 32 -> byte_slice e -> e <> [] -> Z.of_nat (length e) <= 64 * 1024 ->
  exists json, writes_token slot e json /\ str_len json <= 48 + (4 * Z.of_nat (length e) + 2) / 3.
Proof.
  intros Hs Hb Hne Hlen. destruct (encode_decode slot e Hs Hb Hne Hlen) as (json & Henc & Hdec). exists json.
  assert (Henc' := Henc). unfold encode_token in Henc'. destruct (_ || _); [done|].
  destruct (slot_display slot Hs) as (_ & Hplain & Hshort).
  destruct (token_compact "leelo" (display_u64 slot) (b64_encode e)) as (s & Hs1 & Hs2).
  { by rewrite Hplain, b64_plain. }
  rewrite Hs1 in Henc'. injection Henc' as ->. split; [split_and!; eauto|].
  rewrite Hs2, b64_size by done. change (str_len "leelo") with 5. lia.
Qed.

(** The slot that is offered is the lowest free one. *)
Lemma find_free_lowest slots w r :
  Forall (fun s => 0 <= s < 32) slots -> (find_free slots w).1 = r ->
  match r with
  | Ok slot => slot ∈ slots /\ keyslots (cd (handle w)) !! slot = None
  | Err e => e = LuksError.OccupiedSlot /\ Forall (fun s => is_Some (keyslots (cd (handle w)) !! s)) slots
  end.
Proof.
  intros Hall <-. induction Hall as [|s slots Hs Hall IH]; simpl; [done|]. unfold slot_status, SLOT_COUNT.
  rewrite (proj2 (Z.leb_gt 32 s)) by lia. run_calls.
  destruct (Z.eqb_spec (crypt_keyslot_status (cd (handle w)) s) SLOT_INACTIVE) as [He|He]; simpl.
  - apply status_inactive in He; [|done]. split; [left|done].
  - assert (is_Some (keyslots (cd (handle w)) !! s)).
    { destruct (keyslots _ !! s) eqn:Hk; [eauto|]. by apply status_inactive in Hk. }
    destruct (find_free slots w).1; destruct IH; split; try done; [by right|by constructor].
Qed.
End Run.

(** * Theorem *)

(** C21: Enrollment completes on a working volume. For a free slot, a credential of a used slot, an
    envelope within its bounds, a token identifier to spare and room in the metadata area, adding the
    enrollment succeeds: the new slot and the token's text are on the volume, the space reserved for
    the slot leaves enough for the token, and afterwards the token reads back as this slot and
    envelope and the new credential opens the slot. *)
Theorem enrollment_succeeds {D} `{Cryptsetup D} `{TokenText} `{HeaderView D} `{!CryptsetupLaws D} `{!CryptsetupWorks D}
    `{!TokenTextLaws} slot s old new envelope id (w : World D) :
  writable (handle w) = true -> same_volume w -> 0 <= slot < 32 -> 0 <= s < 32 -> credential_ok old -> byte_array 32 new ->
  byte_slice envelope -> envelope <> [] -> Z.of_nat (length envelope) <= 64 * 1024 ->
  keyslots (disk w) !! slot = None -> keyslots (disk w) !! s = Some old -> unbound (disk w) slot ->
  free_token (disk w) = Some id -> area_ok (disk w) ->
  str_len (header_text (disk w)) + (48 + (4 * Z.of_nat (length envelope) + 2) / 3) + 7 + NEW_SLOT_JSON_RESERVE
    <= header_size (disk w) - BINARY_HEADER_SIZE ->
  exists w', add_enrollment slot old new envelope w = (Ok id, w') /\
    keyslots (disk w') = <[slot := new]> (keyslots (disk w)) /\
    (token id w').1 = Ok (mk_token_envelope slot envelope) /\
    (test_credential (Some slot) new w').1 = Ok slot.
Proof.
  intros Hw Hv Hs Hs' Ho [Hn _] Hb Hne Hlen Hfree Hold Hu Hf Ha Hsize.
  destruct (writes_token_bound slot envelope Hs Hb Hne Hlen) as (json & Hj & Hjson).
  destruct (free_token_range _ _ Hf) as [Hid _]. destruct (slot_display id Hid) as (_ & _ & Hshort).
  assert (credential_ok new) as Hcred by (split; [by destruct new|lia]).
  destruct (add_enrollment_runs slot s old new envelope json id w) as (w' & E & Hv'); try done; [lia|].
  destruct (add_enrollment_effect _ _ _ _ _ _ _ (proj1 Hs) E) as (_ & _ & _ & Hk & text & Htext & Hdec).
  destruct (reload_runs w' Hv') as (w1 & E1 & _ & _ & _ & Hcd). exists w'. split_and!; [done..| |].
  - unfold token. rewrite (bind_run _ _ _ _ _ E1). unfold cached_token, SLOT_COUNT.
    rewrite (proj2 (Z.leb_gt 32 id)) by lia. run_calls. rewrite (get_works _ _ _ text) by (by rewrite Hcd). run_calls.
    by rewrite Hdec, checked_run.
  - unfold test_credential. rewrite (bind_run _ _ _ _ _ E1).
    destruct (activate_slot_runs slot new w1 Hs Hcred) as (w2 & -> & _); [|done].
    by rewrite Hcd, Hk, lookup_insert_eq.
Qed.
