(* ===== verification/LuksDemo.v ===== *)
(** Concrete instances for the LUKS2 adapter: URL-safe base64, compact JSON of tokens, and a volume
    held in memory. They satisfy the laws, and the theorems are applied on them. *)
From stdpp Require Import base list gmap strings.
From Stdlib Require Import Ascii ZArith Lia.
From S2P Require Import Prelude Text Luks LuksRun.

Open Scope Z_scope.

(** * Base64 *)

Definition b64_char (d : Z) : Z :=
  if d <? 26 then 65 + d else if d <? 52 then 71 + d else if d <? 62 then d - 4 else if d =? 62 then 45 else 95.
Definition b64_digit (c : Z) : option Z :=
  if is_ascii_uppercase c then Some (c - 65) else if is_ascii_lowercase c then Some (c - 71)
  else if is_ascii_digit c then Some (c + 4) else if c =? 45 then Some 62 else if c =? 95 then Some 63 else None.

Fixpoint b64_bytes (l : list Z) : list Z :=
  match l with
  | a :: b :: c :: l =>
      b64_char (a / 4) :: b64_char (a mod 4 * 16 + b / 16) :: b64_char (b mod 16 * 4 + c / 64) :: b64_char (c mod 64)
      :: b64_bytes l
  | [a; b] => [b64_char (a / 4); b64_char (a mod 4 * 16 + b / 16); b64_char (b mod 16 * 4)]
  | [a] => [b64_char (a / 4); b64_char (a mod 4 * 16)]
  | [] => []
  end.

Fixpoint b64_read (l : list Z) : option (list Z) :=
  match l with
  | w :: x :: y :: z :: l =>
      w ← b64_digit w; x ← b64_digit x; y ← b64_digit y; z ← b64_digit z; rest ← b64_read l;
      Some (w * 4 + x / 16 :: x mod 16 * 16 + y / 4 :: y mod 4 * 64 + z :: rest)
  | [w; x; y] =>
      w ← b64_digit w; x ← b64_digit x; y ← b64_digit y;
      if y mod 4 =? 0 then Some [w * 4 + x / 16; x mod 16 * 16 + y / 4] else None
  | [w; x] => w ← b64_digit w; x ← b64_digit x; if x mod 16 =? 0 then Some [w * 4 + x / 16] else None
  | [_] => None
  | [] => Some []
  end.

Lemma b64_char_digit d : 0 <= d < 64 -> b64_digit (b64_char d) = Some d /\ plain_byte (b64_char d) = true.
Proof.
  intros H. assert (d ∈ seqZ 0 64) as Hd by (apply elem_of_seqZ; lia). revert d Hd H.
  assert (Forall (fun d => b64_digit (b64_char d) = Some d /\ plain_byte (b64_char d) = true) (seqZ 0 64)) as HF
    by (apply (bool_decide_unpack _); by vm_compute).
  intros d Hd _. exact (proj1 (Forall_forall _ _) HF d Hd).
Qed.

Lemma by_threes (P : list Z -> Prop) :
  P [] -> (forall a, P [a]) -> (forall a b, P [a; b]) -> (forall a b c l, P l -> P (a :: b :: c :: l)) -> forall l, P l.
Proof. intros H0 H1 H2 H3. fix IH 1. intros [|a [|b [|c l]]]; [done|apply H1|apply H2|apply H3, IH]. Qed.

(** Arithmetic of bytes and sextets. *)
Ltac sextets := unfold uint in *; change (2 ^ 8) with 256 in *; Z.to_euclidean_division_equations; lia.

Lemma b64_read_bytes l : byte_slice l -> b64_read (b64_bytes l) = Some l.
Proof.
  induction l as [|a|a b|a b c l IH] using by_threes; intros Hl; [done|..];
    repeat match goal with H : Forall _ (_ :: _) |- _ => apply Forall_cons in H as [? H] end; cbn -[Z.mul Z.div Z.modulo].
  - rewrite !(fun d H => proj1 (b64_char_digit d H)) by sextets. simpl.
    rewrite (proj2 (Z.eqb_eq _ _)) by sextets. repeat f_equal; sextets.
  - rewrite !(fun d H => proj1 (b64_char_digit d H)) by sextets. simpl.
    rewrite (proj2 (Z.eqb_eq _ _)) by sextets. repeat f_equal; sextets.
  - rewrite !(fun d H => proj1 (b64_char_digit d H)) by sextets. simpl. rewrite IH by done. simpl. repeat f_equal; sextets.
Qed.

Lemma b64_bytes_plain l : byte_slice l -> forallb plain_byte (b64_bytes l) = true.
Proof.
  induction l as [|a|a b|a b c l IH] using by_threes; intros Hl; [done|..];
    repeat match goal with H : Forall _ (_ :: _) |- _ => apply Forall_cons in H as [? H] end; cbn -[Z.mul Z.div Z.modulo plain_byte];
    rewrite !(fun d H => proj2 (b64_char_digit d H)) by sextets; [done..|]. by rewrite IH.
Qed.

Lemma b64_bytes_size l : Z.of_nat (length (b64_bytes l)) = (4 * Z.of_nat (length l) + 2) / 3.
Proof.
  induction l as [|a|a b|a b c l IH] using by_threes; [done..|]. cbn [b64_bytes length].
  rewrite !Nat2Z.inj_succ, IH. sextets.
Qed.

Lemma plain_byte_u8 l : forallb plain_byte l = true -> byte_slice l.
Proof.
  intros H. apply Forall_forall. intros b Hb. apply list_elem_of_In in Hb. rewrite forallb_forall in H. specialize (H b Hb).
  unfold plain_byte in H. unfold uint. lia.
Qed.

(** * Compact JSON of tokens *)

Definition in_quotes (s : string) : list Z := 34 :: bytes_of_string s ++ [34].
Definition json_head : list Z := bytes_of_string "{" ++ in_quotes "type" ++ bytes_of_string ":" ++ [34].
Definition json_keyslots : list Z := [34] ++ bytes_of_string "," ++ in_quotes "keyslots" ++ bytes_of_string ":[" ++ [34].
Definition json_envelope : list Z := [34] ++ bytes_of_string "]," ++ in_quotes "envelope" ++ bytes_of_string ":" ++ [34].
Definition json_tail : list Z := [34] ++ bytes_of_string "}".

Definition json_bytes_of (kind keyslot envelope : string) : list Z :=
  json_head ++ bytes_of_string kind ++ json_keyslots ++ bytes_of_string keyslot ++ json_envelope
  ++ bytes_of_string envelope ++ json_tail.

Definition json_write (t : Token) : option string :=
  match token_keyslots t with
  | [keyslot] =>
      if plain (token_kind t) && plain keyslot && plain (token_envelope t)
      then Some (text_of (json_bytes_of (token_kind t) keyslot (token_envelope t)))
      else None
  | _ => None
  end.

Fixpoint strip (p l : list Z) : option (list Z) :=
  match p, l with
  | [], _ => Some l
  | a :: p, b :: l => if a =? b then strip p l else None
  | _, [] => None
  end.

(** The bytes up to the next quote, and the rest from the quote on. *)
Fixpoint to_quote (l : list Z) : list Z * list Z :=
  match l with
  | [] => ([], [])
  | b :: l => if b =? 34 then ([], b :: l) else let '(x, y) := to_quote l in (b :: x, y)
  end.

Definition json_read (s : string) : option Token :=
  l ← strip json_head (bytes_of_string s); let '(kind, l) := to_quote l in
  l ← strip json_keyslots l; let '(keyslot, l) := to_quote l in
  l ← strip json_envelope l; let '(envelope, l) := to_quote l in
  l ← strip json_tail l;
  if bool_decide (l = []) then Some (mk_token (text_of kind) [text_of keyslot] (text_of envelope)) else None.

Lemma strip_app p l : strip p (p ++ l) = Some l.
Proof. induction p as [|a p IH]; simpl; [done|]. by rewrite Z.eqb_refl. Qed.

Lemma to_quote_plain s l : plain s = true -> head l = Some 34 -> to_quote (bytes_of_string s ++ l) = (bytes_of_string s, l).
Proof.
  unfold plain. intros H Hl. revert H. induction s as [|c s IH]; simpl.
  { destruct l; [done|]. simpl in *. by injection Hl as ->. }
  intros H. apply andb_prop in H as [Hc Hs].
  rewrite (proj2 (Z.eqb_neq _ _)) by (unfold plain_byte in Hc; lia). by rewrite IH.
Qed.

Lemma json_bytes_u8 kind keyslot envelope : byte_slice (json_bytes_of kind keyslot envelope).
Proof.
  unfold json_bytes_of. repeat (apply Forall_app; split);
    first [apply bytes_of_string_u8|apply (bool_decide_unpack _); by vm_compute].
Qed.

Lemma json_read_written t s : json_write t = Some s -> json_read s = Some t.
Proof.
  destruct t as [kind keyslots envelope]. unfold json_write. cbn [token_kind token_keyslots token_envelope].
  destruct keyslots as [|keyslot [|]]; try done.
  destruct (_ && _) eqn:Hp; [|done]. intros <-%(inj Some). apply andb_prop in Hp as [Hp He]. apply andb_prop in Hp as [Hk Hs].
  unfold json_read. rewrite bytes_text_of by apply json_bytes_u8. unfold json_bytes_of.
  rewrite strip_app. cbn [mbind option_bind].
  rewrite (to_quote_plain kind) by done. rewrite strip_app. cbn [mbind option_bind].
  rewrite (to_quote_plain keyslot) by done. rewrite strip_app. cbn [mbind option_bind].
  rewrite (to_quote_plain envelope) by done. simpl. by rewrite !text_of_bytes.
Qed.

Lemma json_no_nul t s : json_write t = Some s -> byte_in s 0 = false.
Proof.
  unfold json_write. destruct (token_keyslots t) as [|keyslot [|]]; try done. destruct (_ && _) eqn:Hp; [|done].
  intros <-%(inj Some). apply andb_prop in Hp as [Hp He]. apply andb_prop in Hp as [Hk Hs].
  unfold byte_in. rewrite bytes_text_of by apply json_bytes_u8.
  assert (forall x, plain x = true -> existsb (Z.eqb 0) (bytes_of_string x) = false) as Hx.
  { intros x H. apply not_true_iff_false. intros (b & Hb & <-%Z.eqb_eq)%existsb_exists. unfold plain in H.
    rewrite forallb_forall in H. by apply H in Hb. }
  unfold json_bytes_of. rewrite !existsb_app, !Hx by done. by vm_compute.
Qed.

#[export] Instance toy_text : TokenText := {|
  token_to_string := json_write;
  token_from_str := json_read;
  b64_encode := fun l => text_of (b64_bytes l);
  b64_decode := fun s => b64_read (bytes_of_string s);
|}.

#[export] Instance toy_text_laws : TokenTextLaws.
Proof.
  split; simpl.
  - apply json_no_nul.
  - apply json_read_written.
  - intros kind keyslot envelope Hp. exists (text_of (json_bytes_of kind keyslot envelope)).
    unfold json_write. cbn [token_kind token_keyslots token_envelope]. rewrite Hp. split; [done|].
    rewrite text_of_length. unfold json_bytes_of. rewrite !length_app, !str_len_bytes.
    change (length json_head) with 9%nat. change (length json_keyslots) with 15%nat.
    change (length json_envelope) with 15%nat. change (length json_tail) with 2%nat. lia.
  - intros l Hl. rewrite bytes_text_of by (by apply plain_byte_u8, b64_bytes_plain). by apply b64_read_bytes.
  - intros l Hl. unfold plain. rewrite bytes_text_of by (by apply plain_byte_u8, b64_bytes_plain). by apply b64_bytes_plain.
  - intros l Hl. by rewrite text_of_length, b64_bytes_size.
Qed.

(** * A volume in memory *)

Record toy_header : Type := mk_toy_header { toy_keyslots : gmap Z (list Z); toy_tokens : gmap Z string }.

#[export] Instance toy_view : HeaderView toy_header := {| keyslots := toy_keyslots; tokens := toy_tokens |}.

(** The metadata text: the tokens in order, each byte of a token escaped. *)
Fixpoint toy_escape (s rest : string) : string :=
  match s with
  | EmptyString => String "2"%char rest
  | String c s => String "1"%char (String c (toy_escape s rest))
  end.
Fixpoint toy_write (l : list (option string)) : string :=
  match l with
  | [] => EmptyString
  | None :: l => String "0"%char (toy_write l)
  | Some s :: l => toy_escape s (toy_write l)
  end.
Fixpoint toy_read (s : string) : option (list (option string)) :=
  match s with
  | EmptyString => Some []
  | String "0"%char s => l ← toy_read s; Some (None :: l)
  | String "2"%char s => l ← toy_read s; Some (Some EmptyString :: l)
  | String "1"%char (String c s) =>
      match toy_read s with
      | Some (Some t :: l) => Some (Some (String c t) :: l)
      | _ => None
      end
  | _ => None
  end.

Lemma toy_read_escape s l : toy_read (toy_escape s (toy_write l)) = Some (Some s :: l) <-> toy_read (toy_write l) = Some l.
Proof.
  induction s as [|c s IH]; simpl.
  - destruct (toy_read (toy_write l)); simpl; split; congruence.
  - rewrite <- IH. destruct (toy_read (toy_escape s _)) as [[|[t|] ?]|]; split; try done; [by intros [= -> ->]|by intros [= -> ->]].
Qed.

Lemma toy_read_write l : toy_read (toy_write l) = Some l.
Proof. induction l as [|[s|] l IH]; simpl; [done|by apply toy_read_escape|by rewrite IH]. Qed.

Fixpoint toy_object (ids : list Z) (l : list (option string)) : gmap string string :=
  match ids, l with
  | id :: ids, Some s :: l => <[display_u64 id := s]> (toy_object ids l)
  | _ :: ids, None :: l => toy_object ids l
  | _, _ => ∅
  end.

Lemma toy_object_lookup (g : Z -> option string) ids id :
  NoDup (display_u64 <$> ids) ->
  (id ∈ ids -> toy_object ids (g <$> ids) !! display_u64 id = g id) /\
  (display_u64 id ∉ display_u64 <$> ids -> toy_object ids (g <$> ids) !! display_u64 id = None).
Proof.
  induction ids as [|i ids IH]; intros Hnd; [by split; [intros []%not_elem_of_nil|done]|].
  rewrite fmap_cons in Hnd. apply NoDup_cons in Hnd as [Hi Hnd]. specialize (IH Hnd) as [IH1 IH2].
  cbn [fmap list_fmap toy_object]. change (list_fmap _ _ ?f ids) with (f <$> ids).
  destruct (decide (display_u64 id = display_u64 i)) as [He|He].
  - split; [|intros []; rewrite He; left]. intros Hin. assert (id = i) as ->.
    { apply elem_of_cons in Hin as [|Hin]; [done|]. destruct Hi. rewrite <- He. by apply list_elem_of_fmap_2. }
    destruct (g i) eqn:Eg; [by rewrite lookup_insert_eq|]. by apply IH2.
  - destruct (g i) as [s|] eqn:Eg; [rewrite lookup_insert_ne by done|]; (split; intros Hin;
      [apply elem_of_cons in Hin as [->|Hin]; [done|by apply IH1]|apply IH2; intros ?; apply Hin; by right]).
Qed.

Definition toy_find (d : toy_header) (c : list Z) : option Z :=
  List.find (fun s => bool_decide (toy_keyslots d !! s = Some c)) SLOTS.

Definition toy_activate (d : toy_header) (s : Z) (c : list Z) : Z :=
  if s =? -1 then default (-1) (toy_find d c)
  else if bool_decide (0 <= s < 32 /\ toy_keyslots d !! s = Some c) then s else -1.

Definition toy_add (d : toy_header) (s : Z) (old new : list Z) : Z * toy_header :=
  if bool_decide (0 <= s < 32 /\ toy_keyslots d !! s = None /\ is_Some (toy_find d old))
  then (s, mk_toy_header (<[s := new]> (toy_keyslots d)) (toy_tokens d))
  else (-1, d).

Definition toy_set (d : toy_header) (json : string) : Z * toy_header :=
  match free_token d with
  | Some id => (id, mk_toy_header (toy_keyslots d) (<[id := json]> (toy_tokens d)))
  | None => (-1, d)
  end.

Definition toy_dump (d : toy_header) : string := toy_write ((fun id => toy_tokens d !! id) <$> SLOTS).

Lemma toy_dump_read d : toy_read (toy_dump d) = Some ((fun id => toy_tokens d !! id) <$> SLOTS).
Proof. apply toy_read_write. Qed.

Definition toy_uuid : list Z := seqZ 1 16.

#[export] Instance toy_cryptsetup : Cryptsetup toy_header := {|
  crypt_init := fun _ _ => 0;
  crypt_load := fun _ _ => 0;
  crypt_get_uuid := fun _ => Some toy_uuid;
  crypt_get_metadata_size := fun _ _ => (0, 16384);
  crypt_dump_json := fun _ d => (0, Some (toy_dump d));
  crypt_keyslot_status := fun d s => match toy_keyslots d !! s with None => SLOT_INACTIVE | Some _ => 2 end;
  crypt_keyslot_add_by_passphrase := fun _ => toy_add;
  crypt_activate_by_passphrase := fun _ d _ => toy_activate d;
  crypt_token_json_set := fun _ => toy_set;
  crypt_token_json_get := fun _ d id => match toy_tokens d !! id with Some json => (0, Some json) | None => (-2, None) end;
  metadata_tokens := fun s => l ← toy_read s; Some (Some (toy_object SLOTS l));
  try_clone := fun _ => true;
  set_write_lock := fun _ => None;
  sync_all := fun _ => true;
|}.

Lemma toy_find_Some d c s : toy_find d c = Some s -> 0 <= s < 32 /\ toy_keyslots d !! s = Some c.
Proof.
  intros Hf. apply find_some in Hf as [Hin Hb]. apply bool_decide_eq_true in Hb.
  apply list_elem_of_In, elem_of_seqZ in Hin. split; [lia|done].
Qed.

Lemma toy_find_is_Some d c s : 0 <= s < 32 -> toy_keyslots d !! s = Some c -> is_Some (toy_find d c).
Proof.
  intros Hs Hk. destruct (toy_find d c) eqn:E; [eauto|]. apply (find_none _ _) with (x := s) in E.
  - by rewrite bool_decide_eq_true_2 in E.
  - apply list_elem_of_In, elem_of_seqZ. lia.
Qed.

#[export] Instance toy_laws_hold : CryptsetupLaws toy_header.
Proof.
  split; simpl.
  - intros d s _. by destruct (toy_keyslots d !! s).
  - intros _ d _ s c. unfold toy_activate. destruct (s =? -1).
    + destruct (toy_find d c) eqn:E; simpl; [|lia]. intros _. by destruct (toy_find_Some _ _ _ E).
    + case_bool_decide as Hs; [|lia]. intros _. apply Hs.
  - intros _ d s old new r d'. unfold toy_add. case_bool_decide as Hs; intros [= <- <-]; [|split; [done|by left]].
    split; [done|]. rewrite (proj2 (Z.ltb_ge s 0)) by lia. split; [apply Hs|done].
  - intros _ d json r d'. unfold toy_set. destruct (free_token d) as [id|] eqn:E; intros [= <- <-]; [|split; [done|by left]].
    split; [done|]. apply free_token_range in E as [Hid Hn]. rewrite (proj2 (Z.ltb_ge id 0)) by lia. split; [done|]. by eexists.
  - intros _ d id r json. destruct (toy_tokens d !! id); intros E _; by simplify_eq.
Qed.

Lemma toy_header_text d : header_text d = toy_dump d.
Proof. unfold header_text. cbn [crypt_dump_json toy_cryptsetup snd from_option id]. reflexivity. Qed.

Lemma toy_header_tokens d d' : toy_tokens d = toy_tokens d' -> header_text d = header_text d'.
Proof. intros E. rewrite (toy_header_text d), (toy_header_text d'). unfold toy_dump. by rewrite E. Qed.

#[export] Instance toy_works : CryptsetupWorks toy_header.
Proof.
  constructor; [done|done|done|done|done|intros; reflexivity|..].
  - intros n d. rewrite toy_header_text. cbn [crypt_dump_json toy_cryptsetup]. reflexivity.
  - intros d. eexists. rewrite toy_header_text. cbn [metadata_tokens toy_cryptsetup]. rewrite toy_dump_read.
    split; [reflexivity|]. intros id Hid.
    assert (NoDup (display_u64 <$> SLOTS)) as Hnd by (apply (bool_decide_unpack _); by vm_compute).
    rewrite (proj1 (toy_object_lookup _ SLOTS id Hnd)) by (apply elem_of_seqZ; lia).
    cbn [tokens toy_view]. by destruct (toy_tokens d !! id).
  - intros n d s c Hs Hk. simpl. unfold toy_activate. rewrite (proj2 (Z.eqb_neq _ _)) by lia. by rewrite bool_decide_eq_true_2.
  - intros n d s c Hs Hk. simpl. unfold toy_activate. simpl.
    destruct (toy_find_is_Some d c s Hs Hk) as [s' E]. rewrite E. simpl. by destruct (toy_find_Some _ _ _ E).
  - intros n d s s' old new Hs Hn Hs' Ho Hsize. simpl. unfold toy_add.
    rewrite bool_decide_eq_true_2 by (split_and!; [lia..|done|by eapply toy_find_is_Some]). eexists. split_and!; [done|done|done|].
    rewrite (toy_header_tokens (mk_toy_header _ _) d) by reflexivity. unfold NEW_SLOT_JSON_RESERVE. lia.
  - intros n d id t json Hf _ _ _. simpl. unfold toy_set. rewrite Hf. eexists. split_and!; [done| |done].
    simpl. by rewrite lookup_insert_eq.
  - intros n d id json Hj. simpl in *. by rewrite Hj.
Qed.

(** * Witnesses *)

Definition toy_old : list Z := [112; 97; 115; 115].
Definition toy_new : list Z := seqZ 100 32.
Definition toy_envelope : list Z := [161; 1; 255; 0; 7].
Definition toy_volume : toy_header := mk_toy_header {[0 := toy_old; 2 := [9]]} {[0 := "{}"]}.
Definition toy_world : World toy_header := mk_world (mk_luks2 toy_volume toy_uuid true) toy_volume 0.

(** The enrollment succeeds on the toy volume; the attachment, without the slot, does not. *)
Lemma enrollment_preserves_witness :
  exists w' w'', add_enrollment 1 toy_old toy_new toy_envelope toy_world = (Ok 1, w') /\
    attach_enrollment 1 toy_new toy_envelope toy_world = (Err (LuksError.Cryptsetup "check or activate credential" (-1)), w'') /\
    token_added (disk toy_world) (disk w') /\ slot_added (disk toy_world) (disk w') /\
    tokens (disk w'') = tokens (disk toy_world).
Proof.
  pose (w' := (add_enrollment 1 toy_old toy_new toy_envelope toy_world).2).
  pose (w'' := (attach_enrollment 1 toy_new toy_envelope toy_world).2).
  assert (add_enrollment 1 toy_old toy_new toy_envelope toy_world = (Ok 1, w')) as E1 by (vm_compute; reflexivity).
  assert (attach_enrollment 1 toy_new toy_envelope toy_world = (Err (LuksError.Cryptsetup "check or activate credential" (-1)), w''))
    as E2 by (vm_compute; reflexivity).
  pose proof (enrollment_preserves 1 toy_old toy_new toy_envelope toy_world ltac:(lia)) as Hp. rewrite E1, E2 in Hp.
  destruct Hp as ((_ & Hs) & (_ & Ht) & _ & _ & _ & [[]|Ha]).
  exists w', w''. split_and!; done.
Defined.

Lemma enrollment_complete_witness :
  exists w', add_enrollment 1 toy_old toy_new toy_envelope toy_world = (Ok 1, w') /\
    keyslots (disk w') = <[1 := toy_new]> (keyslots (disk toy_world)) /\
    exists json, tokens (disk w') !! 1 = Some json /\ token_of json 1 toy_envelope.
Proof.
  pose (w' := (add_enrollment 1 toy_old toy_new toy_envelope toy_world).2).
  assert (add_enrollment 1 toy_old toy_new toy_envelope toy_world = (Ok 1, w')) as E by (vm_compute; reflexivity).
  exists w'. destruct (enrollment_complete 1 toy_old toy_new toy_envelope toy_world w' 1 ltac:(lia) E)
    as (_ & Hk & json & Hj & Ht & _).
  eauto.
Defined.

Lemma enrollment_succeeds_witness :
  exists w', add_enrollment 1 toy_old toy_new toy_envelope toy_world = (Ok 1, w') /\
    keyslots (disk w') = <[1 := toy_new]> (keyslots (disk toy_world)) /\
    (token 1 w').1 = Ok (mk_token_envelope 1 toy_envelope) /\
    (test_credential (Some 1) toy_new w').1 = Ok 1.
Proof.
  apply (enrollment_succeeds 1 0 toy_old toy_new toy_envelope 1 toy_world);
    [reflexivity|reflexivity|lia|lia|split; [done|vm_compute; done]
    |split; [reflexivity|apply (bool_decide_unpack _); vm_compute; exact I]
    |apply (bool_decide_unpack _); vm_compute; exact I|done|vm_compute; done|reflexivity|reflexivity| |vm_compute; reflexivity
    |split; vm_compute; discriminate|vm_compute; discriminate].
  intros id text t Hid Htok Hp Hk. cbn [tokens toy_view toy_world disk toy_volume toy_tokens] in Htok.
  apply lookup_singleton_Some in Htok as [<- <-]. vm_compute in Hp. discriminate Hp.
Defined.

Lemma token_codec_exact_witness :
  (exists json, encode_token 3 toy_envelope = Ok json /\ decode_token json = Ok (mk_token_envelope 3 toy_envelope)) /\
  (forall json s e, decode_token json = Ok (mk_token_envelope s e) <-> token_of json s e).
Proof.
  apply (token_codec_exact 3 toy_envelope);
    [lia|apply (bool_decide_unpack _); vm_compute; exact I|done|vm_compute; done].
Defined.
