(* ===== verification/FuzzDemo.v ===== *)
(** Witnesses for the harnesses: seeds of [fuzz/src/lib.rs] on the toy primitives and the reference encodings. *)
From stdpp Require Import base list gmap strings.
From Stdlib Require Import ZArith Lia.
From S2P Require Import Prelude Sss Plan Policy Crypto ToyCrypto Wire Cbor Envelope Text Telemetry Observation Engine Luks Fuzz LuksDemo.
Import Cbor.Reference.

Open Scope Z_scope.

(** The reader of base64 yields bytes. *)
Lemma b64_digit_range c d : b64_digit c = Some d -> 0 <= d < 64.
Proof.
  unfold b64_digit, is_ascii_uppercase, is_ascii_lowercase, is_ascii_digit. intros E.
  repeat (case_match; [simplify_eq; rewrite ?andb_true_iff, ?Z.leb_le in *; lia|]). done.
Qed.

Lemma b64_read_slice n : forall l bytes, (length l <= n)%nat -> b64_read l = Some bytes -> byte_slice bytes.
Proof.
  induction n as [|n IH]; intros [|w [|x [|y [|z l]]]] bytes Hn; simpl in *; try lia; try done; [by intros [= <-]..| | |].
  all: destruct (b64_digit w) as [a|] eqn:Ew; simpl; [|done]; destruct (b64_digit x) as [b|] eqn:Ex; simpl; [|done].
  all: apply b64_digit_range in Ew, Ex.
  2, 3: destruct (b64_digit y) as [c|] eqn:Ey; simpl; [|done]; apply b64_digit_range in Ey.
  3: destruct (b64_digit z) as [d|] eqn:Ez; simpl; [|done]; apply b64_digit_range in Ez.
  - case_match; [|done]. intros [= <-]. repeat constructor; Z.to_euclidean_division_equations; lia.
  - case_match; [|done]. intros [= <-]. repeat constructor; Z.to_euclidean_division_equations; lia.
  - destruct (b64_read l) as [rest|] eqn:Er; simpl; [|done]. intros [= <-].
    repeat (apply Forall_cons; split; [split; Z.to_euclidean_division_equations; lia|]). by apply (IH l); [lia|].
Qed.

Lemma toy_decode_slice s bytes : b64_decode s = Some bytes -> byte_slice bytes.
Proof. exact (b64_read_slice (length (bytes_of_string s)) _ bytes (le_n _)). Qed.

(** The seed ["policy", "valid-threshold"], whose policy is accepted. *)
Definition threshold_seed : list Z := [0; 1; 1; 2; 1; 2; 0; 3; 3; 0; 4; 4; 1; 0].

Lemma harnesses_hold_witness :
  is_ok (new_policy NetworkBound 1 (Threshold 2 1 [Leaf 3 (replicate 32 3); Leaf 4 (replicate 32 4)])) = true /\
  fuzz_policy threshold_seed = Some tt /\ fuzz_wire threshold_seed = Some tt /\ fuzz_envelope threshold_seed = Some tt.
Proof.
  split; [vm_compute; reflexivity|].
  destruct (harnesses_hold (fun b => Some (text_of b)) threshold_seed toy_decode_slice ltac:(decided)) as (Hw & _ & Hp & _ & He).
  split; [exact Hp|]. split; [exact Hw|]. apply He. intros bytes signature Hraw. exfalso.
  apply (f_equal (fun l => l !! 0%nat)) in Hraw. vm_compute in Hraw. discriminate Hraw.
Defined.
