(* ===== verification/CliOperation.v ===== *)
(** The observations of the command line, [leelo-cli/src/observation.rs]. The emitter is represented by
    the sequence of events given to it: its answers are discarded by this code, and [Telemetry] says
    what it makes of each event. Instants are nanoseconds, and every reading of the clock is an
    argument. *)
From stdpp Require Import base list strings.
From Stdlib Require Import ZArith Lia.
From S2P Require Import Prelude Plan Policy Envelope Observation Float64 Text Telemetry Luks.

Open Scope Z_scope.

(** * Errors *)

(** [Box<dyn Error>] as the commands build it: the types that [classify] asks for, the enrollment
    error with its source, and any other error with the source it reports. *)
Inductive CliError : Type :=
| EngineFailure (e : EngineError.Error)
| EnvelopeFailure (e : EnvelopeError.Error)
| IoFailure
| LuksFailure (e : LuksError.Error)
| EnrollmentError (message : list Z) (source : CliError)
| OtherFailure (message : list Z) (source : option CliError).

Definition engine_reason (failure : ObservedFailure.Failure) : string :=
  match failure with
  | ObservedFailure.Envelope => "envelope"
  | ObservedFailure.Cryptography => "cryptography"
  | ObservedFailure.Sharing => "sharing"
  | ObservedFailure.Policy => "policy"
  | ObservedFailure.Tpm => "tpm"
  | ObservedFailure.InsufficientFactors => "insufficient_factors"
  | ObservedFailure.Deadline => "deadline"
  | ObservedFailure.InconsistentShares => "inconsistent_shares"
  | ObservedFailure.TargetMismatch => "target_mismatch"
  | ObservedFailure.UnsupportedMode => "unsupported_mode"
  | ObservedFailure.Runtime => "runtime"
  end.

Definition network_reason (failure : NetworkFailure) : string :=
  match failure with
  | Configuration => "configuration"
  | Unavailable => "unavailable"
  | Timeout => "timeout"
  | RemoteRejected => "remote_rejected"
  | InvalidResponse => "invalid_response"
  | NetInvalidProof => "invalid_proof"
  | NetAuthentication => "authentication"
  | NetCryptography => "cryptography"
  end.

Fixpoint classify (error : CliError) : string * option Z :=
  match error with
  | EngineFailure e => (engine_reason (from_error e), None)
  | EnvelopeFailure _ => ("envelope", None)
  | IoFailure => ("io", None)
  | LuksFailure e =>
      match e with
      | LuksError.Cryptsetup _ code => ("cryptsetup", Some code)
      | LuksError.PartialEnrollment _ _ _ => ("partial_enrollment", None)
      | LuksError.WriterBusy => ("writer_busy", None)
      | LuksError.MetadataChanged => ("metadata_changed", None)
      | LuksError.OccupiedSlot => ("occupied_slot", None)
      | LuksError.NoTokenSpace | LuksError.MetadataSpace _ _ => ("metadata_capacity", None)
      | LuksError.InvalidToken => ("invalid_token", None)
      | LuksError.WrongVolume => ("wrong_volume", None)
      | _ => ("storage", None)
      end
  | EnrollmentError _ source => classify source
  | OtherFailure _ (Some source) => classify source
  | OtherFailure _ None => ("configuration_or_operation", None)
  end.

(** * Operations *)

Module StorageState.
Inductive StorageState : Type := NotApplicable | NotMutated | PendingReconciliation | Committed | Unknown.
#[export] Instance StorageState_eq_dec : EqDecision StorageState.
Proof. solve_decision. Defined.

Definition name (s : StorageState) : string :=
  match s with
  | NotApplicable => "not_applicable"
  | NotMutated => "not_mutated"
  | PendingReconciliation => "pending_reconciliation"
  | Committed => "committed"
  | Unknown => "unknown"
  end.
End StorageState.

Record Operation : Type := mk_operation {
  emitted : list Event;
  operation : string;
  started : Z;
  stage_started : Z;
  op_stage : string;
  op_mode : string;
  op_storage : StorageState.StorageState;
  awaiting_boot_test : bool;
  op_degraded : bool;
  configured_providers : list (option (list Z));
}.

Module Operation.

(** [Operation::event] *)
Definition event (self : Operation) (event stage outcome reason : string) : Event :=
  mk_event "client" event (operation self) stage outcome reason 0 (op_mode self) None
    (StorageState.name (op_storage self)) (awaiting_boot_test self) (op_degraded self) None.

Definition with_duration (e : Event) (duration : Z) : Event :=
  mk_event (ev_component e) (ev_event e) (ev_operation e) (ev_stage e) (ev_outcome e) (ev_reason e) duration
    (ev_mode e) (ev_provider_index e) (ev_storage_state e) (ev_awaiting_boot_test e) (ev_degraded e) (ev_native_code e).

(** [self.emitter.emit(event)] *)
Definition send (self : Operation) (e : Event) : Operation :=
  mk_operation (emitted self ++ [e]) (operation self) (started self) (stage_started self) (op_stage self) (op_mode self)
    (op_storage self) (awaiting_boot_test self) (op_degraded self) (configured_providers self).

(** [Operation::emit] *)
Definition emit (self : Operation) (event' stage outcome reason : string) (duration : Z) : Operation :=
  send self (with_duration (event self event' stage outcome reason) duration).

(** [Operation::new] *)
Definition new (operation : string) (now : Z) : Operation :=
  let value :=
    mk_operation [] operation now now "preflight" "unknown"
      (if String.eqb operation "enroll" then StorageState.NotMutated
       else if String.eqb operation "resume" then StorageState.Unknown
       else StorageState.NotApplicable)
      false false (replicate MAX_PROVIDER_OBSERVATIONS None) in
  emit value "operation_started" "preflight" "started" "none" 0.

Definition set_stage (self : Operation) (stage : string) (now : Z) : Operation :=
  mk_operation (emitted self) (operation self) (started self) now stage (op_mode self) (op_storage self)
    (awaiting_boot_test self) (op_degraded self) (configured_providers self).

Definition stage (self : Operation) (stage : string) (now now' : Z) : Operation :=
  let self := emit self "phase_completed" (op_stage self) "success" "none" (elapsed now (stage_started self)) in
  let self := set_stage self stage now' in
  emit self "phase_started" (op_stage self) "started" "none" 0.

Definition milestone (self : Operation) (stage : string) (now : Z) : Operation :=
  emit self "enrollment_state" stage "observed" "none" (elapsed now (started self)).

Definition storage (self : Operation) (s : StorageState.StorageState) : Operation :=
  mk_operation (emitted self) (operation self) (started self) (stage_started self) (op_stage self) (op_mode self) s
    (awaiting_boot_test self) (op_degraded self) (configured_providers self).

Definition committed (self : Operation) (now : Z) : Operation :=
  let self :=
    mk_operation (emitted self) (operation self) (started self) (stage_started self) (op_stage self) (op_mode self)
      StorageState.Committed true (op_degraded self) (configured_providers self) in
  milestone self "storage_committed" now.

(** The zipped loop of [configure_providers], after the array was filled with [None]. *)
Fixpoint fill_providers (slots : list (option (list Z))) (providers : list (list Z)) : list (option (list Z)) :=
  match slots, providers with
  | _ :: slots, provider :: providers => Some provider :: fill_providers slots providers
  | slots, _ => slots
  end.
Definition configure_providers (self : Operation) (providers : list (list Z)) : Operation :=
  mk_operation (emitted self) (operation self) (started self) (stage_started self) (op_stage self) (op_mode self)
    (op_storage self) (awaiting_boot_test self) (op_degraded self)
    (fill_providers (replicate (length (configured_providers self)) None) providers).

(** [iter().position(..)] *)
Fixpoint position {A} (p : A -> bool) (l : list A) : option nat :=
  match l with
  | [] => None
  | a :: l => if p a then Some 0%nat else S <$> position p l
  end.

Definition provider_event (self : Operation) (phase : string) (provider : ProviderObservation) : Event :=
  let '(outcome, reason) :=
    match outcome provider with
    | NotStarted => ("not_started", "none")
    | Authenticated => ("authenticated", "none")
    | Failed reason => ("failed", network_reason reason)
    | CanceledQuorum => ("canceled_quorum", "none")
    | CanceledDeadline => ("canceled_deadline", "deadline")
    | CanceledOperation => ("canceled_operation", "none")
    end in
  let e := event self "provider_completed" phase outcome reason in
  mk_event (ev_component e) (ev_event e) (ev_operation e) (ev_stage e) (ev_outcome e) (ev_reason e)
    (provider_duration provider) (ev_mode e)
    ((fun index => wrap 8 (Z.of_nat (index + 1)))
       <$> position (fun c => bool_decide (c = Some (observed_provider provider))) (configured_providers self))
    (ev_storage_state e) (ev_awaiting_boot_test e) (ev_degraded e) (ev_native_code e).

Definition stage_name (s : Stage) : string :=
  match s with
  | Validate => "validate"
  | TpmSeal => "tpm_seal"
  | ShareGeneration => "share_generation"
  | Network => "network"
  | TpmUnseal => "tpm_unseal"
  | PreparePayload => "prepare_payload"
  | AuthenticatePayload => "authenticate_payload"
  end.

Definition engine_stage (self : Operation) (s : StageObservation) : Operation :=
  emit self "phase_completed" (stage_name (Observation.stage s))
    (match stage_failure s with Some _ => "failure" | None => "success" end)
    (match stage_failure s with Some f => engine_reason f | None => "none" end) (stage_duration s).

Definition engine (self : Operation) (report : OperationReport) : Operation :=
  let self :=
    mk_operation (emitted self) (operation self) (started self) (stage_started self) (op_stage self)
      (match report_mode report with
       | Some NetworkBound => "network_bound"
       | Some Attested => "attested"
       | None => "unknown"
       end)
      (op_storage self) (awaiting_boot_test self) (op_degraded self || degraded report) (configured_providers self) in
  let phase := match report_phase report with Prepare => "prepare" | Recover => "recover" end in
  let self := fold_left (fun self p => send self (provider_event self phase p)) (observed_providers report) self in
  fold_left engine_stage (observed_stages report) self.

Definition completion_event (self : Operation) (result : result CliError unit) (now : Z) : Event :=
  let '(reason, native_code) := match result with Ok _ => ("none", None) | Err error => classify error end in
  let e :=
    event self "operation_completed" (op_stage self) (match result with Ok _ => "success" | Err _ => "failure" end) reason in
  mk_event (ev_component e) (ev_event e) (ev_operation e) (ev_stage e) (ev_outcome e) (ev_reason e)
    (elapsed now (started self)) (ev_mode e) (ev_provider_index e) (ev_storage_state e) (ev_awaiting_boot_test e)
    (ev_degraded e) native_code.

Definition finish (self : Operation) (result : result CliError unit) (now now' : Z) : Operation :=
  let e := completion_event self result now in
  let self := emit self "phase_completed" (op_stage self) (ev_outcome e) (ev_reason e) (elapsed now' (stage_started self)) in
  send self e.
End Operation.

(** * Sequences of calls *)

(** The names that the commands use. *)
Definition COMMANDS : list string := ["enroll"; "resume"; "activate"; "check"].
Definition COMMAND_STAGES : list string :=
  ["prepare"; "recovery_test"; "pending_bundle"; "storage_commit"; "final_journal"; "recover"; "storage_attach";
   "activate"; "check"].
Definition MILESTONES : list string :=
  ["preflight_durable"; "pending_bundle_durable"; "prepared_and_recovery_tested"; "final_journal_durable"].

(** The calls a command makes between [new] and [finish]. *)
Inductive OperationCall : Type :=
| CallStage (stage : string) (now now' : Z)
| CallMilestone (stage : string) (now : Z)
| CallStorage (s : StorageState.StorageState)
| CallCommitted (now : Z)
| CallConfigure (providers : list (list Z))
| CallEngine (report : OperationReport).

Definition run_call (self : Operation) (c : OperationCall) : Operation :=
  match c with
  | CallStage stage now now' => Operation.stage self stage now now'
  | CallMilestone stage now => Operation.milestone self stage now
  | CallStorage s => Operation.storage self s
  | CallCommitted now => Operation.committed self now
  | CallConfigure providers => Operation.configure_providers self providers
  | CallEngine report => Operation.engine self report
  end.

Definition call_ok (c : OperationCall) : Prop :=
  match c with
  | CallStage stage _ _ => stage ∈ COMMAND_STAGES
  | CallMilestone stage _ => stage ∈ MILESTONES
  | _ => True
  end.

(** * Events stay within the telemetry schema *)

(** The labels of an event of the command line are words of the vocabulary. *)
Definition labelled (name : string) (e : Event) : Prop :=
  ev_component e = "client" /\ ev_event e ∈ EVENTS /\ ev_operation e = name /\ ev_mode e ∈ MODES /\
  ev_storage_state e ∈ STORAGE_STATES /\ ev_stage e ∈ STAGES /\ ev_outcome e ∈ OUTCOMES /\ ev_reason e ∈ REASONS /\
  (forall index, ev_provider_index e = Some index -> 1 <= index <= 31).

(** Neither the first nor the last event of a command. *)
Definition inner (e : Event) : Prop := ev_event e <> "operation_started" /\ ev_event e <> "operation_completed".

Record operation_ok (name : string) (self : Operation) : Prop := {
  ok_name : operation self = name;
  ok_stage : op_stage self ∈ STAGES;
  ok_mode : op_mode self ∈ MODES;
  ok_providers : length (configured_providers self) = MAX_PROVIDER_OBSERVATIONS;
  ok_events : Forall (labelled name) (emitted self);
  ok_inner : exists first mid, emitted self = first :: mid /\ ev_event first = "operation_started" /\ Forall inner mid;
}.

(** A closed word of a vocabulary. *)
Ltac word := apply contains_spec; vm_compute; reflexivity.

Lemma words_included (a b : list string) s : forallb (contains b) a = true -> s ∈ a -> s ∈ b.
Proof. intros H Hs. rewrite forallb_forall in H. apply contains_spec, H. by apply list_elem_of_In. Qed.

Lemma storage_name_word s : StorageState.name s ∈ STORAGE_STATES.
Proof. destruct s; word. Qed.

Lemma engine_reason_word f : engine_reason f ∈ REASONS.
Proof. destruct f; word. Qed.

Lemma network_reason_word f : network_reason f ∈ REASONS.
Proof. destruct f; word. Qed.

Lemma stage_name_word s : Operation.stage_name s ∈ STAGES.
Proof. destruct s; word. Qed.

Fixpoint classify_word (error : CliError) : (classify error).1 ∈ REASONS.
Proof.
  destruct error as [e|e| |e|m source|m [source|]]; simpl; try word.
  - apply engine_reason_word.
  - destruct e; word.
  - apply classify_word.
  - apply classify_word.
Qed.

Lemma provider_position_lt {A} (p : A -> bool) l i : Operation.position p l = Some i -> (i < length l)%nat.
Proof.
  revert i. induction l as [|a l IH]; intros i; simpl; [done|]. destruct (p a); [intros [= <-]; lia|].
  intros (j & Hj & ->)%fmap_Some. apply IH in Hj. lia.
Qed.

Lemma fill_providers_length slots ps : length (Operation.fill_providers slots ps) = length slots.
Proof. revert ps. induction slots as [|a slots IH]; intros [|p ps]; simpl; auto. Qed.

Lemma event_labelled name self ev stage outcome reason d :
  operation_ok name self -> ev ∈ EVENTS -> stage ∈ STAGES -> outcome ∈ OUTCOMES -> reason ∈ REASONS ->
  labelled name (Operation.with_duration (Operation.event self ev stage outcome reason) d).
Proof.
  intros [] **. split_and!; simpl; try done. apply storage_name_word.
Qed.

Lemma send_ok name self e : operation_ok name self -> labelled name e -> inner e -> operation_ok name (Operation.send self e).
Proof.
  intros [? ? ? ? ? (first & mid & He & Hf & Hm)] Hl Hi. split; simpl; try done.
  - by apply Forall_app_2, Forall_singleton.
  - exists first, (mid ++ [e]). rewrite He. split_and!; [done..|]. by apply Forall_app_2, Forall_singleton.
Qed.

Lemma emit_ok name self ev stage outcome reason d :
  operation_ok name self -> ev ∈ EVENTS -> ev <> "operation_started" -> ev <> "operation_completed" -> stage ∈ STAGES ->
  outcome ∈ OUTCOMES -> reason ∈ REASONS -> operation_ok name (Operation.emit self ev stage outcome reason d).
Proof. intros. apply send_ok; [done|by apply event_labelled|done]. Qed.

Lemma new_ok name now : name ∈ COMMANDS -> operation_ok name (Operation.new name now).
Proof.
  intros Hn. split; simpl; [done|word|word|done| |].
  - apply Forall_singleton. split_and!; simpl; try done; try word. apply storage_name_word.
  - by do 2 eexists.
Qed.

Lemma set_ok name self (f : Operation -> Operation) :
  operation_ok name self -> emitted (f self) = emitted self -> operation (f self) = operation self ->
  op_stage (f self) ∈ STAGES -> op_mode (f self) ∈ MODES ->
  length (configured_providers (f self)) = length (configured_providers self) -> operation_ok name (f self).
Proof. intros [] He Ho Hs Hm Hp. split; rewrite ?He, ?Ho, ?Hp; done. Qed.

Lemma provider_event_ok name self phase p :
  operation_ok name self -> phase ∈ STAGES -> operation_ok name (Operation.send self (Operation.provider_event self phase p)).
Proof.
  intros Hok Hp. apply send_ok; [done| |].
  - destruct Hok. unfold Operation.provider_event, labelled. destruct (outcome p); simpl;
      (split_and!; [done|word|done|done|apply storage_name_word|done|word|(word || apply network_reason_word)|]);
      intros index (i & Hi%provider_position_lt & ->)%fmap_Some; rewrite wrap_id by (unfold uint; unfold MAX_PROVIDER_OBSERVATIONS, MAX_NODES in *; lia);
      unfold MAX_PROVIDER_OBSERVATIONS, MAX_NODES in *; lia.
  - unfold Operation.provider_event. by destruct (outcome p).
Qed.

Lemma engine_stage_ok name self s : operation_ok name self -> operation_ok name (Operation.engine_stage self s).
Proof.
  intros Hok. apply emit_ok; try done; [word|apply stage_name_word|destruct (stage_failure s); word|].
  destruct (stage_failure s); [apply engine_reason_word|word].
Qed.

Lemma fold_ok {A} name (f : Operation -> A -> Operation) l self :
  (forall self a, operation_ok name self -> operation_ok name (f self a)) -> operation_ok name self ->
  operation_ok name (fold_left f l self).
Proof. intros Hf. revert self. induction l as [|a l IH]; intros self Hok; simpl; auto. Qed.

Lemma engine_ok name self report : operation_ok name self -> operation_ok name (Operation.engine self report).
Proof.
  intros Hok. unfold Operation.engine. apply fold_ok; [intros; by apply engine_stage_ok|].
  apply fold_ok; [intros; apply provider_event_ok; [done|destruct (report_phase report); word]|].
  destruct Hok. split; simpl; try done. destruct (report_mode report) as [[]|]; word.
Qed.

Lemma stage_ok name self s now now' :
  operation_ok name self -> s ∈ STAGES -> operation_ok name (Operation.stage self s now now').
Proof.
  intros Hok Hs. unfold Operation.stage. cbv zeta. apply emit_ok; try done; try word.
  assert (operation_ok name (Operation.emit self "phase_completed" (op_stage self) "success" "none" (elapsed now (stage_started self))))
    as [] by (apply emit_ok; try done; try word; by destruct Hok).
  by split.
Qed.

Lemma milestone_ok name self s now : operation_ok name self -> s ∈ STAGES -> operation_ok name (Operation.milestone self s now).
Proof. intros Hok Hs. by apply emit_ok; try done; try word. Qed.

Lemma run_call_ok name self c : operation_ok name self -> call_ok c -> operation_ok name (run_call self c).
Proof.
  intros Hok Hc. destruct c; simpl in *.
  - apply stage_ok; [done|]. by eapply words_included; [|exact Hc].
  - apply milestone_ok; [done|]. by eapply words_included; [|exact Hc].
  - destruct Hok. by split.
  - apply milestone_ok; [|word]. destruct Hok. by split.
  - destruct Hok. split; try done. simpl. by rewrite fill_providers_length, length_replicate.
  - by apply engine_ok.
Qed.

Lemma run_calls_ok name self calls :
  operation_ok name self -> Forall call_ok calls -> operation_ok name (fold_left run_call calls self).
Proof. intros Hok Hc. revert self Hok. induction Hc; intros self Hok; simpl; auto using run_call_ok. Qed.

Lemma completion_labelled name self r now : operation_ok name self -> labelled name (Operation.completion_event self r now).
Proof.
  intros []. unfold Operation.completion_event. destruct r as [u|e].
  - split_and!; simpl; try done; try word. apply storage_name_word.
  - pose proof (classify_word e) as Hw. destruct (classify e) as [reason code].
    split_and!; simpl; try done; try word. apply storage_name_word.
Qed.

(** A labelled event becomes a valid record exactly when its duration is within a week. *)
Lemma labelled_valid {Path Socket} name e (em : Emitter Path Socket) sequence since_epoch :
  name ∈ OPERATIONS -> labelled name e ->
  valid (record em e sequence since_epoch) = true <->
  nonneg_finite (as_secs_f64 (ev_duration e)) /\ f64_le (as_secs_f64 (ev_duration e)) (f64_of_Z 604800) = true.
Proof.
  intros Hn (Hc & ? & Ho & ? & ? & ? & ? & ? & ?). rewrite valid_closed. unfold closed_schema. simpl. split; [tauto|].
  intros [Hf Hd]. split_and!; try done; [unfold CARGO_PKG_VERSION; simpl; lia| |rewrite Hc; word|by rewrite Ho].
  apply (bool_decide_unpack _). vm_compute. exact I.
Qed.

Lemma completion_event_shows self r now :
  ev_event (Operation.completion_event self r now) = "operation_completed" /\
  (ev_outcome (Operation.completion_event self r now) = "success" <-> is_ok r = true) /\
  ev_storage_state (Operation.completion_event self r now) = StorageState.name (op_storage self) /\
  ev_awaiting_boot_test (Operation.completion_event self r now) = awaiting_boot_test self.
Proof. unfold Operation.completion_event. destruct r as [u|e]; [|destruct (classify e)]; by split_and!. Qed.

(** * Theorem *)

(** C26: What a command reports is complete and accepted. For every command and every sequence of calls
    its code can make, the events begin with the only start event and end with the only completion
    event, which carries success exactly when the command succeeded, the storage state and the
    outstanding boot test as they are then; and every event, with whatever error was classified,
    becomes a record that the telemetry schema accepts if and only if its duration is within a week. *)
Theorem command_events {Path Socket} name now calls result (now1 now2 : Z) (em : Emitter Path Socket) :
  name ∈ COMMANDS -> Forall call_ok calls ->
  let self := fold_left run_call calls (Operation.new name now) in
  let final := Operation.finish self result now1 now2 in
  (exists first mid last, emitted final = first :: mid ++ [last] /\ ev_event first = "operation_started" /\
    Forall inner mid /\ ev_event last = "operation_completed" /\
    (ev_outcome last = "success" <-> is_ok result = true) /\
    ev_storage_state last = StorageState.name (op_storage self) /\ ev_awaiting_boot_test last = awaiting_boot_test self) /\
  Forall (fun e => forall sequence since_epoch, valid (record em e sequence since_epoch) = true <->
    nonneg_finite (as_secs_f64 (ev_duration e)) /\ f64_le (as_secs_f64 (ev_duration e)) (f64_of_Z 604800) = true)
    (emitted final).
Proof.
  intros Hn Hc self final.
  pose proof (run_calls_ok _ _ calls (new_ok name now Hn) Hc) as Hok. fold self in Hok.
  pose proof (completion_labelled name self result now1 Hok) as Hlast.
  assert (operation_ok name (Operation.emit self "phase_completed" (op_stage self)
    (ev_outcome (Operation.completion_event self result now1)) (ev_reason (Operation.completion_event self result now1))
    (elapsed now2 (stage_started self)))) as [? ? ? ? Hev (first & mid & He & Hf & Hm)].
  { apply emit_ok; [done|word|done|done|by destruct Hok|apply Hlast|apply Hlast]. }
  assert (emitted final = first :: mid ++ [Operation.completion_event self result now1]) as Hfin.
  { unfold final, Operation.finish. simpl in *. by rewrite He. }
  split.
  - exists first, mid, (Operation.completion_event self result now1).
    split; [exact Hfin|]. split; [exact Hf|]. split; [exact Hm|]. apply completion_event_shows.
  - rewrite Hfin. rewrite He in Hev. apply (Forall_impl (labelled name)).
    + change (first :: mid ++ ?l) with ((first :: mid) ++ l). by apply Forall_app_2, Forall_singleton.
    + intros e Hl sequence since_epoch. apply (labelled_valid name); [|done]. by eapply words_included; [|exact Hn].
Qed.

Lemma command_events_witness :
  let self := fold_left run_call [CallStage "recover" 5 6; CallEngine (new_report Recover); CallStage "activate" 7 8]
                (Operation.new "activate" 1) in
  exists first mid last,
    emitted (Operation.finish self (Err (LuksFailure (LuksError.Cryptsetup "activate" (-22)))) 9 10) = first :: mid ++ [last] /\
    ev_event last = "operation_completed" /\ ev_event first = "operation_started".
Proof.
  destruct (command_events "activate" 1 [CallStage "recover" 5 6; CallEngine (new_report Recover); CallStage "activate" 7 8]
    (Err (LuksFailure (LuksError.Cryptsetup "activate" (-22)))) 9 10 (new_emitter (Path := unit) (Socket := unit) None None None None))
    as [(first & mid & last & E & Hf & _ & Hl & _) _]; [word|repeat constructor; simpl; word|].
  exists first, mid, last. split_and!; done.
Defined.
