(* ===== verification/Journal.v ===== *)
(** The durable enrollment sequence, [leelo-cli/src/enrollment.rs] with the file helpers of [main.rs].
    What the sequence does outside is a trace of effects on files and of calls to the storage adapter;
    [replay] is what the files hold, and what of it is durable, after a trace. Each attempt at an
    effect may fail, a write after any part of its bytes. *)
From stdpp Require Import base list gmap strings.
From Stdlib Require Import ZArith Lia.
From S2P Require Import Prelude Crypto Envelope Observation Text Reconcile Luks CliOperation.

Open Scope Z_scope.

(** * Paths *)

(** A path is its bytes. *)
Abbreviation path := (list Z).

(** The bytes up to the last one that [p] accepts, which is kept, and the rest. *)
Fixpoint rsplit (p : Z -> bool) (l : list Z) : option (list Z * list Z) :=
  match l with
  | [] => None
  | b :: l =>
      match rsplit p l with
      | Some (before, after) => Some (b :: before, after)
      | None => if p b then Some ([b], l) else None
      end
  end.

(** [Path::with_extension], for a path that ends in a file name: the text from the last dot on is
    replaced, unless the name begins with its only dot. *)
Definition with_extension (p : path) (extension : string) : path :=
  let '(directory, name) := match rsplit (Z.eqb 47) p with Some x => x | None => ([], p) end in
  let stem :=
    match rsplit (Z.eqb 46) name with
    | Some (before, _) => if (length before =? 1)%nat then name else removelast before
    | None => name
    end in
  directory ++ stem ++ 46 :: bytes_of_string extension.

(** * Files *)

Inductive Effect : Type :=
| Created (p : path)
| Wrote (p : path) (bytes : list Z)
| SyncedFile (p : path)
| SyncedDirectory (p : path)
| StorageCalled.

(** A file: its content, the part of its history that is durable, and whether its entry is. *)
Record FileState : Type := mk_file { content : list Z; durable : list Z; entry : bool }.

Definition replay_effect (files : gmap path FileState) (e : Effect) : gmap path FileState :=
  match e with
  | Created p => <[p := mk_file [] [] false]> files
  | Wrote p bytes => alter (fun f => mk_file (content f ++ bytes) (durable f) (entry f)) p files
  | SyncedFile p => alter (fun f => mk_file (content f) (content f) (entry f)) p files
  | SyncedDirectory p => alter (fun f => mk_file (content f) (durable f) true) p files
  | StorageCalled => files
  end.

(** The files that a trace created. *)
Definition replay (trace : list Effect) : gmap path FileState := fold_left replay_effect trace ∅.

(** * The sequence *)

(** The outside: files that exist before, and the attempts that fail, with the bytes written by then. *)
Class Outside : Type := {
  present : path -> bool;
  attempt_fails : nat -> option nat;
  clock_reading : nat -> Z;
  (** [serde_json::to_vec] of the two kinds of journal records. *)
  write_identity : IdentityRecord -> list Z;
  write_bundle : BundleRecord -> list Z;
}.

Section Sequence.
Context {D : Type} `{Cryptsetup D} `{TokenText} `{Primitives} `{Outside}.

Record Cli : Type := mk_cli {
  trace : list Effect; attempts : nat; observed : Operation; readings : nat; store : World D }.

Definition J (A : Type) : Type := Cli -> result CliError A * Cli.
#[global] Instance J_ret : MRet J := fun A a s => (Ok a, s).
#[global] Instance J_bind : MBind J := fun A B f m s =>
  match m s with
  | (Ok a, s) => f a s
  | (Err e, s) => (Err e, s)
  end.

Definition map_failure {A} (f : CliError -> CliError) (m : J A) : J A := fun s =>
  match m s with
  | (Ok a, s) => (Ok a, s)
  | (Err e, s) => (Err (f e), s)
  end.

Definition failure {A} (e : CliError) : J A := fun s => (Err e, s).

(** One attempt at an effect. *)
Definition attempt (effect : Effect) (torn : nat -> list Effect) : J unit := fun s =>
  match attempt_fails (attempts s) with
  | None => (Ok tt, mk_cli (trace s ++ [effect]) (S (attempts s)) (observed s) (readings s) (store s))
  | Some n => (Err IoFailure, mk_cli (trace s ++ torn n) (S (attempts s)) (observed s) (readings s) (store s))
  end.

(** [create_private]: the file must be new. *)
Definition create (p : path) : J unit := fun s =>
  if present p || bool_decide (is_Some (replay (trace s) !! p)) then (Err IoFailure, s)
  else attempt (Created p) (fun _ => []) s.
Definition write (p : path) (bytes : list Z) : J unit := attempt (Wrote p bytes) (fun n => [Wrote p (take n bytes)]).
Definition sync_file (p : path) : J unit := attempt (SyncedFile p) (fun _ => []).
(** [sync_parent] *)
Definition sync_directory (p : path) : J unit := attempt (SyncedDirectory p) (fun _ => []).

(** Calls of the observed operation, with their clock readings. *)
Definition update (f : Operation -> (nat -> Z) -> Operation) (n : nat) : J unit := fun s =>
  (Ok tt, mk_cli (trace s) (attempts s) (f (observed s) (fun i => clock_reading (readings s + i))) (readings s + n) (store s)).
Definition observe_stage (stage : string) : J unit :=
  update (fun self now => Operation.stage self stage (now 0%nat) (now 1%nat)) 2.
Definition observe_milestone (stage : string) : J unit :=
  update (fun self now => Operation.milestone self stage (now 0%nat)) 1.
Definition observe_storage (state : StorageState.StorageState) : J unit := update (fun self _ => Operation.storage self state) 0.
Definition observe_committed : J unit := update (fun self now => Operation.committed self (now 0%nat)) 1.

Record EnrollmentJournal : Type := mk_journal { log : path; pending_path : path }.

(** [EnrollmentJournal::record] *)
Definition journal_record (j : EnrollmentJournal) (value : list Z) : J unit := write (log j) (value ++ [10]).

Definition identity_record (phase : string) (d : Descriptor) : IdentityRecord :=
  mk_identity_record phase (text_of (hex_text (Envelope.binding_id d))) (text_of (uuid_text (Envelope.volume_uuid d)))
    (Envelope.slot d).

Definition phase (j : EnrollmentJournal) (phase : string) (d : Descriptor) : J unit :=
  _ ← journal_record j (write_identity (identity_record phase d));
  sync_file (log j).

Definition begin_journal (p : path) (d : Descriptor) : J EnrollmentJournal :=
  _ ← create p;
  let j := mk_journal p (with_extension p "pending.leelo") in
  _ ← phase j "preflight" d;
  _ ← sync_directory p;
  _ ← observe_milestone "preflight_durable";
  mret j.

(** A call of the storage adapter. *)
Definition call_storage {A} (add : M A) : J (result LuksError.Error A) := fun s =>
  let '(r, w) := add (store s) in
  (Ok r, mk_cli (trace s ++ [StorageCalled]) (attempts s) (observed s) (readings s) w).

Definition retain_message (p : path) : list Z :=
  bytes_of_string "retain pending bundle " ++ p ++ bytes_of_string " and the existing recovery credential".
Definition committed_message (slot token : Z) (p : path) : list Z :=
  bytes_of_string "enrollment committed to slot " ++ bytes_of_string (display_u64 slot) ++ bytes_of_string " and token "
  ++ bytes_of_string (display_u64 token) ++ bytes_of_string ", but journal update failed; retain " ++ p.

(** The steps of [commit] before the storage adapter is called. *)
Definition stage_bundle (j : EnrollmentJournal) (d : Descriptor) (envelope : list Z) : J unit :=
  _ ← observe_stage "pending_bundle";
  _ ← create (pending_path j);
  _ ← write (pending_path j) envelope;
  _ ← sync_file (pending_path j);
  _ ← sync_directory (pending_path j);
  _ ← observe_milestone "pending_bundle_durable";
  _ ← journal_record j
        (write_bundle (mk_bundle_record "pending-bundle-durable" (pending_path j) (text_of (hex_text (hash_context envelope)))));
  _ ← phase j "prepared-and-recovery-tested" d;
  _ ← observe_milestone "prepared_and_recovery_tested";
  observe_stage "storage_commit".

(** The steps of [commit] after the adapter succeeded. *)
Definition record_commit (j : EnrollmentJournal) (d : Descriptor) (token : Z) : J Z :=
  _ ← observe_committed;
  _ ← observe_stage "final_journal";
  _ ← map_failure (EnrollmentError (committed_message (Envelope.slot d) token (pending_path j)))
        (phase j "token-written-and-slot-tested" d);
  _ ← observe_milestone "final_journal_durable";
  mret token.

Definition commit (j : EnrollmentJournal) (d : Descriptor) (envelope : list Z) (add : M Z) : J Z :=
  _ ← stage_bundle j d envelope;
  _ ← observe_storage StorageState.PendingReconciliation;
  added ← call_storage add;
  match added with
  | Err error =>
      _ ← match error with
          | LuksError.PartialEnrollment _ _ _ => mret tt
          | _ => observe_storage StorageState.NotMutated
          end;
      failure (EnrollmentError (retain_message (pending_path j)) (LuksFailure error))
  | Ok token => record_commit j d token
  end.

(** [attach_recovered] *)
Definition attach_recovered (pending_bundle : path) (slot : Z) (credential raw : list Z) : J Z :=
  _ ← observe_storage StorageState.PendingReconciliation;
  _ ← observe_stage "storage_attach";
  attached ← call_storage (attach_enrollment slot credential raw);
  match attached with
  | Err error => failure (EnrollmentError (retain_message pending_bundle) (LuksFailure error))
  | Ok token => _ ← observe_committed; mret token
  end.
End Sequence.
Arguments Cli D : clear implicits.

(** * Reasoning about sequences *)

Section Lemmas.
Context {D : Type} `{Cryptsetup D} `{TokenText} `{Primitives} `{Outside}.
Implicit Types s : Cli D.

Lemma J_inv {A B} (m : J A) (f : A -> J B) s r s' :
  (m ≫= f) s = (r, s') ->
  (exists a s1, m s = (Ok a, s1) /\ f a s1 = (r, s')) \/ (exists e, m s = (Err e, s') /\ r = Err e).
Proof.
  unfold mbind, J_bind. destruct (m s) as [[a|e] s1]; intros E; [left; eauto|right]. injection E as <- <-. eauto.
Qed.

(** A step that only touches files: it appends effects other than a storage call, and leaves the
    store and what is reported of it alone. *)
Definition silent (ext : list Effect) s s' : Prop :=
  trace s' = trace s ++ ext /\ StorageCalled ∉ ext /\ store s' = store s /\
  op_storage (observed s') = op_storage (observed s) /\
  awaiting_boot_test (observed s') = awaiting_boot_test (observed s).

Lemma silent_trans ext1 ext2 s s1 s2 : silent ext1 s s1 -> silent ext2 s1 s2 -> silent (ext1 ++ ext2) s s2.
Proof.
  intros (T1 & N1 & S1 & O1 & A1) (T2 & N2 & S2 & O2 & A2). split_and!; try congruence.
  - rewrite T2, T1. by rewrite app_assoc.
  - rewrite elem_of_app. tauto.
Qed.

(** Success appends exactly [ext]; failure is an error after some silent effects. *)
Definition writes {A} (m : J (D := D) A) (ext : list Effect) : Prop :=
  forall s r s', m s = (r, s') ->
    match r with Ok _ => silent ext s s' | Err _ => exists torn, silent torn s s' end.

Lemma writes_bind {A B} (m : J A) (f : A -> J B) ext1 ext2 :
  writes m ext1 -> (forall a, writes (f a) ext2) -> writes (m ≫= f) (ext1 ++ ext2).
Proof.
  intros Hm Hf s r s' E. apply J_inv in E as [(a & s1 & E1 & E2)|(e & E1 & ->)].
  - apply Hm in E1. apply Hf in E2. destruct r; [by eapply silent_trans|].
    destruct E2 as [torn E2]. exists (ext1 ++ torn). by eapply silent_trans.
  - apply Hm in E1. done.
Qed.

Lemma writes_ret {A} (a : A) : writes (mret a) [].
Proof. intros s r s' [= <- <-]. split_and!; rewrite ?app_nil_r; try done. apply not_elem_of_nil. Qed.

Lemma writes_attempt e torn :
  e <> StorageCalled -> (forall n, StorageCalled ∉ torn n) -> writes (attempt e torn) [e].
Proof.
  intros He Ht s r s'. unfold attempt. destruct (attempt_fails (attempts s)) as [n|]; intros [= <- <-].
  - exists (torn n). by split_and!.
  - split_and!; try done. by apply not_elem_of_cons, conj, not_elem_of_nil.
Qed.

Lemma writes_create p : writes (create p) [Created p].
Proof.
  intros s r s'. unfold create. destruct (_ || _).
  - intros [= <- <-]. exists []. apply (writes_ret tt s _ _ eq_refl).
  - apply writes_attempt; [done|]. intros n. apply not_elem_of_nil.
Qed.
Lemma writes_write p bytes : writes (write p bytes) [Wrote p bytes].
Proof. apply writes_attempt; [done|]. intros n. by apply not_elem_of_cons, conj, not_elem_of_nil. Qed.
Lemma writes_sync_file p : writes (sync_file p) [SyncedFile p].
Proof. apply writes_attempt; [done|]. intros n. apply not_elem_of_nil. Qed.
Lemma writes_sync_directory p : writes (sync_directory p) [SyncedDirectory p].
Proof. apply writes_attempt; [done|]. intros n. apply not_elem_of_nil. Qed.
Lemma writes_update f n :
  (forall self now, op_storage (f self now) = op_storage self /\ awaiting_boot_test (f self now) = awaiting_boot_test self) ->
  writes (update f n) [].
Proof.
  intros Hf s r s' [= <- <-]. split_and!; simpl; rewrite ?app_nil_r; try done; try apply Hf. apply not_elem_of_nil.
Qed.
Lemma writes_stage st : writes (observe_stage st) [].
Proof. by apply writes_update. Qed.
Lemma writes_milestone st : writes (observe_milestone st) [].
Proof. by apply writes_update. Qed.

Lemma writes_phase j ph d :
  writes (phase j ph d) [Wrote (log j) (write_identity (identity_record ph d) ++ [10]); SyncedFile (log j)].
Proof. apply (writes_bind _ _ [_] [_]); [apply writes_write|]. intros _. apply writes_sync_file. Qed.

(** The bundle line of the journal. *)
Definition bundle_line (j : EnrollmentJournal) (envelope : list Z) : list Z :=
  write_bundle (mk_bundle_record "pending-bundle-durable" (pending_path j) (text_of (hex_text (hash_context envelope)))).
Definition identity_line (ph : string) (d : Descriptor) : list Z := write_identity (identity_record ph d).

Definition bundle_effects (j : EnrollmentJournal) (d : Descriptor) (envelope : list Z) : list Effect :=
  [Created (pending_path j); Wrote (pending_path j) envelope; SyncedFile (pending_path j); SyncedDirectory (pending_path j);
   Wrote (log j) (bundle_line j envelope ++ [10]); Wrote (log j) (identity_line "prepared-and-recovery-tested" d ++ [10]);
   SyncedFile (log j)].

Lemma writes_stage_bundle j d envelope : writes (stage_bundle j d envelope) (bundle_effects j d envelope).
Proof.
  apply (writes_bind _ _ [] _); [apply writes_stage|]; intros _.
  apply (writes_bind _ _ [_] _); [apply writes_create|]; intros _.
  apply (writes_bind _ _ [_] _); [apply writes_write|]; intros _.
  apply (writes_bind _ _ [_] _); [apply writes_sync_file|]; intros _.
  apply (writes_bind _ _ [_] _); [apply writes_sync_directory|]; intros _.
  apply (writes_bind _ _ [] _); [apply writes_milestone|]; intros _.
  apply (writes_bind _ _ [_] _); [apply writes_write|]; intros _.
  apply (writes_bind _ _ [_; _] []); [apply writes_phase|]; intros _.
  apply (writes_bind _ _ [] []); [apply writes_milestone|]; intros _. apply writes_stage.
Qed.

Definition begin_effects (p : path) (d : Descriptor) : list Effect :=
  [Created p; Wrote p (identity_line "preflight" d ++ [10]); SyncedFile p; SyncedDirectory p].

Lemma writes_begin p d : writes (begin_journal p d) (begin_effects p d).
Proof.
  apply (writes_bind _ _ [_] _); [apply writes_create|]; intros _. cbv zeta.
  apply (writes_bind _ _ [_; _] _); [apply (writes_phase (mk_journal p _))|]; intros _.
  apply (writes_bind _ _ [_] []); [apply writes_sync_directory|]; intros _.
  apply (writes_bind _ _ [] []); [apply writes_milestone|]; intros _. apply writes_ret.
Qed.

Lemma stage_bundle_new j d envelope s u s' : stage_bundle j d envelope s = (Ok u, s') -> replay (trace s) !! pending_path j = None.
Proof.
  intros E. apply J_inv in E as [(u1 & s1 & E1 & E)|(? & ? & ?)]; [|done].
  apply writes_stage in E1 as [T1 _]. rewrite app_nil_r in T1.
  apply J_inv in E as [(u2 & s2 & E2 & _)|(? & ? & ?)]; [|done].
  unfold create in E2. destruct (_ || _) eqn:Hb; [done|]. apply orb_false_elim in Hb as [_ Hb].
  apply bool_decide_eq_false, eq_None_not_Some in Hb. by rewrite T1 in Hb.
Qed.

Lemma replay_app t u : replay (t ++ u) = fold_left replay_effect u (replay t).
Proof. unfold replay. by rewrite fold_left_app. Qed.

Lemma bundle_files j d envelope t f :
  replay t !! pending_path j = None -> replay t !! log j = Some f ->
  replay (t ++ bundle_effects j d envelope) !! pending_path j = Some (mk_file envelope envelope true) /\
  replay (t ++ bundle_effects j d envelope) !! log j =
    Some (mk_file (content f ++ (bundle_line j envelope ++ [10]) ++ identity_line "prepared-and-recovery-tested" d ++ [10])
            (content f ++ (bundle_line j envelope ++ [10]) ++ identity_line "prepared-and-recovery-tested" d ++ [10]) (entry f)).
Proof.
  intros Hp Hl. assert (log j <> pending_path j) as Hne by congruence. rewrite replay_app.
  cbn [bundle_effects fold_left replay_effect]. split.
  - do 3 rewrite lookup_alter_ne by done. by rewrite !lookup_alter_eq, lookup_insert_eq.
  - rewrite !lookup_alter_eq. do 3 rewrite lookup_alter_ne by done. rewrite lookup_insert_ne, Hl by done. simpl.
    by rewrite <- !app_assoc.
Qed.

Lemma begin_files p d :
  replay (begin_effects p d) !! p =
    Some (mk_file (identity_line "preflight" d ++ [10]) (identity_line "preflight" d ++ [10]) true).
Proof. unfold replay, begin_effects. cbn [fold_left replay_effect]. by rewrite !lookup_alter_eq, lookup_insert_eq. Qed.

Lemma record_commit_effect j d token s r s' :
  record_commit j d token s = (r, s') ->
  op_storage (observed s') = StorageState.Committed /\ awaiting_boot_test (observed s') = true /\ store s' = store s /\
  exists ext, trace s' = trace s ++ ext /\ StorageCalled ∉ ext /\
    match r with
    | Ok t => t = token /\
        ext = [Wrote (log j) (identity_line "token-written-and-slot-tested" d ++ [10]); SyncedFile (log j)]
    | Err e => exists source, e = EnrollmentError (committed_message (Envelope.slot d) token (pending_path j)) source
    end.
Proof.
  intros E. apply J_inv in E as [(u & s1 & E1 & E)|(? & ? & ?)]; [|done].
  injection E1 as _ <-.
  apply J_inv in E as [(u2 & s2 & E2 & E)|(? & ? & ?)]; [|done]. apply writes_stage in E2 as (T2 & _ & S2 & O2 & A2).
  rewrite app_nil_r in T2. simpl in T2, S2, O2, A2.
  apply J_inv in E as [(u3 & s3 & E3 & E)|(e & E3 & ->)]; unfold map_failure in E3;
    destruct (phase j "token-written-and-slot-tested" d s2) as [r3 s3'] eqn:Ep; apply writes_phase in Ep.
  - destruct r3; [|done]. injection E3 as _ ->. destruct Ep as (T3 & N3 & S3 & O3 & A3).
    apply J_inv in E as [(u4 & s4 & E4 & E)|(? & ? & ?)]; [|done]. apply writes_milestone in E4 as (T4 & _ & S4 & O4 & A4).
    rewrite app_nil_r in T4. injection E as <- <-. split_and!; try congruence. eexists. split_and!; [by rewrite T4, T3, T2|done..].
  - destruct r3; [done|]. destruct Ep as (torn & T3 & N3 & S3 & O3 & A3). injection E3 as <- ->.
    split_and!; try congruence. exists torn. split_and!; [by rewrite T3, T2|done|eauto].
Qed.

Lemma begin_result p d s j s' :
  begin_journal p d s = (Ok j, s') -> j = mk_journal p (with_extension p "pending.leelo") /\ silent (begin_effects p d) s s'.
Proof.
  intros E. split; [|exact (writes_begin p d s (Ok j) s' E)]. unfold begin_journal in E. cbv zeta in E.
  repeat (apply J_inv in E as [(? & ? & _ & E)|(? & ? & ?)]; [|done]). by injection E as <- _.
Qed.

(** What was reported of the store after the adapter failed. *)
Definition after_failure (e : LuksError.Error) : StorageState.StorageState :=
  match e with LuksError.PartialEnrollment _ _ _ => StorageState.PendingReconciliation | _ => StorageState.NotMutated end.

(** Either the adapter was not called, or it was called once, after the bundle was staged. *)
Definition commit_ran (j : EnrollmentJournal) (d : Descriptor) (envelope : list Z) (add : M Z) s (r : result CliError Z) s' : Prop :=
  (exists torn, silent torn s s' /\ is_ok r = false) \/
  (exists added post,
    add (store s) = (added, store s') /\ replay (trace s) !! pending_path j = None /\
    trace s' = (trace s ++ bundle_effects j d envelope) ++ StorageCalled :: post /\ StorageCalled ∉ post /\
    match added with
    | Err e => post = [] /\ r = Err (EnrollmentError (retain_message (pending_path j)) (LuksFailure e)) /\
        op_storage (observed s') = after_failure e
    | Ok token =>
        op_storage (observed s') = StorageState.Committed /\ awaiting_boot_test (observed s') = true /\
        match r with
        | Ok t => t = token /\
            post = [Wrote (log j) (identity_line "token-written-and-slot-tested" d ++ [10]); SyncedFile (log j)]
        | Err e => exists source, e = EnrollmentError (committed_message (Envelope.slot d) token (pending_path j)) source
        end
    end).

Lemma commit_effect j d envelope add s r s' :
  commit j d envelope add s = (r, s') -> commit_ran j d envelope add s r s'.
Proof.
  intros E. apply J_inv in E as [(u1 & s1 & E1 & E)|(e & E1 & ->)].
  2:{ apply writes_stage_bundle in E1 as [torn E1]. left. eauto. }
  right. pose proof (stage_bundle_new _ _ _ _ _ _ E1) as Hnew. apply writes_stage_bundle in E1 as (T1 & N1 & S1 & _ & _).
  apply J_inv in E as [(u2 & s2 & E2 & E)|(? & ? & ?)]; [|done]. injection E2 as _ <-.
  apply J_inv in E as [(added & s3 & E3 & E)|(? & E3 & ?)]; unfold call_storage in E3; simpl in E3; rewrite S1 in E3;
    destruct (add (store s)) as [rr w] eqn:Ea; [|done].
  injection E3 as -> <-. destruct added as [token|e].
  - apply record_commit_effect in E as (Ho & Hb & Hs & ext & Ht & Hn & Hr). simpl in Hs, Ht.
    exists (Ok token), ext. rewrite Hs. split_and!; try done. by rewrite Ht, T1, <- !app_assoc.
  - exists (Err e), []. apply J_inv in E as [(u4 & s4 & E4 & E)|(? & E4 & ?)]; [|by destruct e].
    injection E as <- <-.
    assert (trace s4 = trace s1 ++ [StorageCalled] /\ store s4 = w /\ op_storage (observed s4) = after_failure e) as (T4 & S4 & O4).
    { destruct e; injection E4 as _ <-; done. }
    rewrite S4, T4, T1. split_and!; try done. apply not_elem_of_nil.
Qed.
End Lemmas.

(** * What the journal says *)

(** The documented behaviour of the JSON library on these records: compact text without control
    characters, which reads back. *)
Class JournalJson (json_identity : list Z -> option IdentityRecord) (json_bundle : list Z -> option BundleRecord)
    `{Outside} : Prop := {
  identity_reads r :
    plain (id_phase r) && plain (binding_id r) && plain (volume_uuid r) = true -> 0 <= slot r < 256 ->
    json_identity (write_identity r) = Some r /\ 10 ∉ write_identity r /\
    Z.of_nat (length (write_identity r)) <= 64 + str_len (id_phase r) + str_len (binding_id r) + str_len (volume_uuid r);
  bundle_reads r :
    plain (bundle_phase r) && forallb plain_byte (bundle_path r) && plain (sha384 r) = true ->
    json_bundle (write_bundle r) = Some r /\ 10 ∉ write_bundle r /\
    Z.of_nat (length (write_bundle r)) <= 64 + str_len (bundle_phase r) + Z.of_nat (length (bundle_path r)) + str_len (sha384 r);
}.

Lemma plain_text_of l : forallb plain_byte l = true -> bytes_of_string (text_of l) = l /\ plain (text_of l) = true.
Proof.
  intros Hl. assert (byte_slice l) as Hb.
  { apply Forall_forall. intros b Hb. apply list_elem_of_In in Hb. rewrite forallb_forall in Hl. specialize (Hl b Hb).
    unfold plain_byte in Hl. unfold uint. lia. }
  unfold plain. by rewrite bytes_text_of.
Qed.

Lemma hex_text_plain bytes : byte_slice bytes -> forallb plain_byte (hex_text bytes) = true.
Proof.
  intros Hb. apply hex_text_lower in Hb. apply forallb_forall. intros b Hin. apply list_elem_of_In in Hin.
  pose proof (proj1 (Forall_forall _ _) Hb b Hin) as Hd. unfold lower_digit, is_ascii_digit in Hd. unfold plain_byte.
  destruct Hd as [[? ?]%andb_prop|Hd]; lia.
Qed.

Lemma forallb_take {A} (f : A -> bool) n l : forallb f l = true -> forallb f (take n l) = true.
Proof. rewrite !forallb_forall. intros H x Hx. apply H. rewrite <- (take_drop n l). apply in_or_app. by left. Qed.
Lemma forallb_drop {A} (f : A -> bool) n l : forallb f l = true -> forallb f (drop n l) = true.
Proof. rewrite !forallb_forall. intros H x Hx. apply H. rewrite <- (take_drop n l). apply in_or_app. by right. Qed.

Lemma uuid_text_plain volume : byte_slice volume -> forallb plain_byte (uuid_text volume) = true.
Proof.
  intros Hb%hex_text_plain. unfold uuid_text. cbv zeta. rewrite !forallb_app. cbn [forallb].
  rewrite !forallb_take, !forallb_drop by auto using forallb_drop. done.
Qed.

(** The identity of an enrollment as the collector reads it. *)
Definition identity_of_descriptor (d : Descriptor) : list Z * list Z * Z :=
  (Envelope.binding_id d, Envelope.volume_uuid d, Envelope.slot d).

Definition identifiable (d : Descriptor) : Prop :=
  byte_array 32 (Envelope.binding_id d) /\ Envelope.binding_id d <> replicate 32 0 /\
  byte_array 16 (Envelope.volume_uuid d) /\ Envelope.volume_uuid d <> replicate 16 0 /\ 0 <= Envelope.slot d < 32.

Section JournalText.
Context (json_identity : list Z -> option IdentityRecord) (json_bundle : list Z -> option BundleRecord).
Context `{PrimitiveLaws} `{Outside} `{!JournalJson json_identity json_bundle}.

Lemma identity_line_ok ph i d :
  identifiable d -> PHASES !! i = Some ph -> i <> 1%nat ->
  line_ok json_identity json_bundle (identity_of_descriptor d) i (identity_line ph d) /\ 10 ∉ identity_line ph d.
Proof.
  intros ([Hb1 Hb2] & Hb3 & [Hv1 Hv2] & Hv3 & Hs) Hi Hne. unfold identity_line.
  destruct (plain_text_of _ (hex_text_plain _ Hb2)) as [Tb Pb]. destruct (plain_text_of _ (uuid_text_plain _ Hv2)) as [Tv Pv].
  assert (plain ph = true /\ str_len ph <= 64) as [Pp Lp].
  { do 4 (destruct i as [|i]; [by injection Hi as <-|]). done. }
  destruct (identity_reads (identity_record ph d)) as (Hr & Hn & Hl).
  { simpl. by rewrite Pp, Pb, Pv. }
  { simpl. lia. }
  split; [|done]. unfold line_ok. rewrite (proj2 (Nat.eqb_neq _ _)) by done. split.
  - simpl in Hl. rewrite !text_of_length, hex_text_length in Hl.
    assert (length (uuid_text (Envelope.volume_uuid d)) <= 64)%nat.
    { unfold uuid_text. rewrite !length_app, !length_take, !length_drop, hex_text_length. cbn [length]. lia. }
    lia.
  - exists (identity_record ph d). split_and!; [done..|]. unfold identity_of_descriptor, identity_of. simpl.
    rewrite Tb, Tv. split_and!; try done; try lia; by split.
Qed.

Lemma bundle_line_ok j identity envelope :
  forallb plain_byte (pending_path j) = true -> pending_path j <> [] -> Z.of_nat (length (pending_path j)) <= 4096 ->
  line_ok json_identity json_bundle identity 1 (bundle_line j envelope) /\ 10 ∉ bundle_line j envelope.
Proof.
  intros Hp Hne Hlen. unfold bundle_line.
  assert (byte_array 48 (hash_context envelope)) as [Hh1 Hh2] by apply sha384_bytes.
  destruct (plain_text_of _ (hex_text_plain _ Hh2)) as [Th Ph].
  destruct (bundle_reads (mk_bundle_record "pending-bundle-durable" (pending_path j) (text_of (hex_text (hash_context envelope)))))
    as (Hr & Hn & Hl).
  { simpl bundle_path. simpl sha384. by rewrite Hp, Ph. }
  split; [|done]. split.
  - cbn [bundle_phase bundle_path Reconcile.sha384] in Hl. rewrite text_of_length, hex_text_length, Hh1 in Hl.
    change (str_len "pending-bundle-durable") with 22 in Hl. lia.
  - simpl. eexists _, (hash_context envelope). split_and!; [done..|]. simpl. by rewrite Th.
Qed.

Lemma unlines_snoc ls l : unlines (ls ++ [l]) = unlines ls ++ l ++ [10].
Proof. induction ls as [|a ls IH]; simpl; [done|]. by rewrite IH, <- app_assoc. Qed.

Lemma unlines_length ls : Forall (fun l => Z.of_nat (length l) <= 8192) ls -> Z.of_nat (length (unlines ls)) <= 8193 * Z.of_nat (length ls).
Proof. induction 1 as [|l ls Hl Hls IH]; simpl; [lia|]. rewrite length_app. simpl. lia. Qed.

(** The journal of an enrollment after each of its lines. *)
Definition enrollment_lines (j : EnrollmentJournal) (d : Descriptor) (envelope : list Z) : list (list Z) :=
  [identity_line "preflight" d; bundle_line j envelope; identity_line "prepared-and-recovery-tested" d;
   identity_line "token-written-and-slot-tested" d].

Lemma enrollment_lines_read j d envelope n :
  identifiable d -> forallb plain_byte (pending_path j) = true -> pending_path j <> [] ->
  Z.of_nat (length (pending_path j)) <= 4096 -> (1 <= n <= 4)%nat ->
  journal_committed json_identity json_bundle (unlines (take n (enrollment_lines j d envelope))) = Some (n =? 4)%nat.
Proof.
  intros Hd Hp Hne Hlen Hn.
  assert (forall i line, enrollment_lines j d envelope !! i = Some line ->
    line_ok json_identity json_bundle (identity_of_descriptor d) i line /\ 10 ∉ line) as Hall.
  { intros i line Hi. do 4 (destruct i as [|i]; [injection Hi as <-; first [by apply identity_line_ok|by apply bundle_line_ok]|]). done. }
  assert (length (take n (enrollment_lines j d envelope)) = n) as Hlines by (rewrite length_take; simpl; lia).
  apply journal_committed_spec. exists (take n (enrollment_lines j d envelope)), (identity_of_descriptor d).
  rewrite Hlines. split_and!; [done| |lia| | |done].
  - apply Forall_lookup. intros i line [Hi _]%lookup_take_Some. by destruct (Hall _ _ Hi).
  - assert (Forall (fun l => Z.of_nat (length l) <= 8192) (take n (enrollment_lines j d envelope))) as Hf.
    { apply Forall_lookup. intros i line [Hi _]%lookup_take_Some. apply Hall in Hi. apply Hi. }
    apply unlines_length in Hf. unfold JOURNAL_LIMIT. lia.
  - intros i line [Hi _]%lookup_take_Some. by destruct (Hall _ _ Hi).
Qed.
End JournalText.

(** A list splits in one way at an element it holds once. *)
Lemma split_once {A} (x : A) l1 l2 k1 k2 : x ∉ l1 -> x ∉ k1 -> l1 ++ x :: k1 = l2 ++ x :: k2 -> l2 = l1 /\ k2 = k1.
Proof.
  revert l2. induction l1 as [|a l1 IH]; intros [|b l2] Hl Hk E; simpl in *; simplify_eq; [done| | |].
  - destruct Hk. apply elem_of_app. right. left.
  - destruct Hl. left.
  - apply not_elem_of_cons in Hl as [_ Hl]. by destruct (IH l2 Hl Hk) as [-> ->].
Qed.

(** * Theorems *)

(** The path of the bundle as it appears in the journal. *)
Definition plain_path (p : path) : Prop := forallb plain_byte p = true /\ p <> [] /\ Z.of_nat (length p) <= 4096.

Section Staged.
Context (json_identity : list Z -> option IdentityRecord) (json_bundle : list Z -> option BundleRecord).
Context {D : Type} `{Cryptsetup D} `{TokenText} `{PrimitiveLaws} `{Outside} `{!JournalJson json_identity json_bundle}.
Context (p : path) (d : Descriptor) (envelope : list Z) (j : EnrollmentJournal) (s s1 s2 : Cli D).
Context (Hbegin : begin_journal p d s = (Ok j, s1)) (Hempty : trace s = []) (Hkept : trace s2 = trace s1).

Lemma staged_trace : trace s2 = begin_effects p d /\ log j = p.
Proof.
  apply begin_result in Hbegin as [-> (T & _)]. split; [|done]. by rewrite Hkept, T, Hempty.
Qed.

Lemma staged_no_call : StorageCalled ∉ trace s2 ++ bundle_effects j d envelope.
Proof.
  destruct staged_trace as [-> _]. intros Hin. unfold begin_effects, bundle_effects in Hin. simpl in Hin.
  repeat (apply elem_of_cons in Hin as [?|Hin]; [done|]). by apply not_elem_of_nil in Hin.
Qed.

Context (Hd : identifiable d) (Hpath : plain_path (pending_path j)).

(** The state of the files when the adapter is called. *)
Lemma staged_files :
  replay (trace s2) !! pending_path j = None ->
  let files := replay (trace s2 ++ bundle_effects j d envelope) in
  files !! pending_path j = Some (mk_file envelope envelope true) /\
  files !! log j = Some (mk_file (unlines (take 3 (enrollment_lines j d envelope))) (unlines (take 3 (enrollment_lines j d envelope))) true) /\
  journal_committed json_identity json_bundle (unlines (take 3 (enrollment_lines j d envelope))) = Some false.
Proof.
  intros Hnew files. destruct staged_trace as [T Hl].
  assert (replay (trace s2) !! log j = Some (mk_file (identity_line "preflight" d ++ [10]) (identity_line "preflight" d ++ [10]) true)) as Hlog.
  { rewrite T, Hl. apply begin_files. }
  destruct (bundle_files j d envelope _ _ Hnew Hlog) as [F1 F2]. destruct Hpath as (? & ? & ?).
  split_and!; [exact F1| |by apply (enrollment_lines_read _ _ _ _ _ 3); try lia].
  unfold files. rewrite F2. cbn [content entry enrollment_lines take unlines]. by rewrite <- !app_assoc.
Qed.

End Staged.

(** C23: Nothing reaches the volume before its recovery bundle is durable. Whatever attempts fail, and
    however far a failing write got: at a call of the storage adapter the pending bundle is on disk
    with all its bytes synced and its directory entry durable, and the journal's durable text reads as
    an uncommitted enrollment; the adapter is called at most once; and if it was not called the store
    is untouched. *)
Theorem bundle_durable_before_storage json_identity json_bundle {D} `{Cryptsetup D} `{TokenText} `{PrimitiveLaws} `{Outside}
    `{!JournalJson json_identity json_bundle} p d envelope j add (s s1 s2 s3 : Cli D) r :
  begin_journal p d s = (Ok j, s1) -> trace s = [] -> trace s2 = trace s1 -> identifiable d -> plain_path (pending_path j) ->
  commit j d envelope add s2 = (r, s3) ->
  (forall pre post, trace s3 = pre ++ StorageCalled :: post ->
    replay pre !! pending_path j = Some (mk_file envelope envelope true) /\
    (exists f, replay pre !! log j = Some f /\ entry f = true /\
      journal_committed json_identity json_bundle (durable f) = Some false) /\
    StorageCalled ∉ pre /\ StorageCalled ∉ post) /\
  (StorageCalled ∉ trace s3 -> store s3 = store s2).
Proof.
  intros Hbegin Hempty Hkept Hd Hpath E. apply commit_effect in E as [(torn & (T & N & S & _) & _)|(added & post & _ & Hnew & T & Hpost & _)].
  - split; [|done]. intros pre post Et. exfalso.
    assert (StorageCalled ∈ trace s3) as Hin by (rewrite Et; apply elem_of_app; right; left).
    rewrite T in Hin. apply elem_of_app in Hin as [Hin|]; [|done].
    apply (staged_no_call p d envelope j s s1 s2 Hbegin Hempty Hkept). apply elem_of_app. by left.
  - pose proof (staged_no_call p d envelope j s s1 s2 Hbegin Hempty Hkept) as Hpre. split.
    + intros pre post' Et. rewrite T in Et. apply split_once in Et as [-> ->]; [|done..].
      destruct (staged_files json_identity json_bundle p d envelope j s s1 s2 Hbegin Hempty Hkept Hd Hpath Hnew) as (F1 & F2 & F3).
      split_and!; [done| |done..]. eexists. split_and!; [exact F2|done|exact F3].
    + intros []. rewrite T. apply elem_of_app. right. left.
Qed.

(** C24: What the command reports of the volume is true. After an enrollment that was reported as not
    mutated, the keyslots and tokens are as before; one reported as pending failed with a partial
    enrollment; one reported as committed has the new credential in its slot and its token on the
    volume, with the boot test outstanding. When the command succeeds the journal's durable text reads
    as a committed enrollment. *)
Theorem storage_report_true json_identity json_bundle {D} `{Cryptsetup D} `{TokenText} `{PrimitiveLaws} `{Outside}
    `{!JournalJson json_identity json_bundle} `{HeaderView D} `{!CryptsetupLaws D}
    p d envelope j old new (s s1 s2 s3 : Cli D) r :
  begin_journal p d s = (Ok j, s1) -> trace s = [] -> trace s2 = trace s1 -> identifiable d -> plain_path (pending_path j) ->
  op_storage (observed s2) = StorageState.NotMutated ->
  commit j d envelope (add_enrollment (Envelope.slot d) old new envelope) s2 = (r, s3) ->
  match op_storage (observed s3) with
  | StorageState.NotMutated => is_ok r = false /\
      keyslots (disk (store s3)) = keyslots (disk (store s2)) /\ tokens (disk (store s3)) = tokens (disk (store s2))
  | StorageState.PendingReconciliation =>
      exists message e, r = Err (EnrollmentError message (LuksFailure e)) /\ is_partial e
  | StorageState.Committed =>
      awaiting_boot_test (observed s3) = true /\
      keyslots (disk (store s3)) = <[Envelope.slot d := new]> (keyslots (disk (store s2))) /\
      (exists id json, tokens (disk (store s3)) !! id = Some json /\ token_of json (Envelope.slot d) envelope) /\
      (is_ok r = true -> exists f, replay (trace s3) !! log j = Some f /\
        journal_committed json_identity json_bundle (durable f) = Some true)
  | _ => False
  end.
Proof.
  intros Hbegin Hempty Hkept Hd Hpath Hnot E.
  apply commit_effect in E as [(torn & (T & N & S & O & _) & Hr)|(added & post & Ea & Hnew & T & Hpost & Hadded)].
  { by rewrite O, Hnot, S. }
  pose proof (add_enrollment_effect _ _ _ _ _ _ _ ltac:(apply Hd) Ea) as (_ & _ & Heff). destruct added as [token|e].
  - destruct Hadded as (-> & Hb & Hr). destruct Heff as (_ & Hk & json & Hj & Ht). split_and!; [done..| |].
    { exists token, json. split; [done|]. by apply decode_token_spec. }
    intros Hok. destruct r as [t|]; [|done]. destruct Hr as [_ ->].
    destruct (staged_files json_identity json_bundle p d envelope j s s1 s2 Hbegin Hempty Hkept Hd Hpath Hnew) as (_ & F2 & _).
    destruct Hpath as (? & ? & ?). exists (mk_file (unlines (enrollment_lines j d envelope)) (unlines (enrollment_lines j d envelope)) true).
    split; [|by apply (enrollment_lines_read json_identity json_bundle j d envelope 4); try lia].
    rewrite T, replay_app. cbn [fold_left replay_effect]. rewrite !lookup_alter_eq, F2.
    cbn [fmap option_fmap option_map content durable entry]. by rewrite <- !unlines_snoc.
  - destruct Hadded as (_ & -> & ->). destruct e; simpl; try (destruct Heff as [[]|[? ?]]; by split_and!). by do 2 eexists.
Qed.
