(* ===== verification/Commands.v ===== *)
(** The commands that enroll, resume and unlock, [leelo-cli/src/enrollment.rs] and [linux.rs]: the
    engine, the storage adapter, the journal and the observations put together. What a command reads
    before it starts (configuration, key files, the opened device and TPM) is its input. *)
From stdpp Require Import base list gmap strings.
From Stdlib Require Import ZArith Lia.
From S2P Require Import Prelude Sss Plan Policy Crypto Wire Cbor Envelope Observation Engine Text Telemetry Reconcile Providers Luks CliOperation Journal.

Open Scope Z_scope.

(** What [Command::Enroll] reads: each reading may fail. *)
Record EnrollInput : Type := mk_enroll_input {
  in_providers : result CliError (list Identity);
  in_device : result CliError unit;
  in_existing_key : result CliError (list Z);
  in_signing_key : result CliError (list Z);
  in_tpm : result CliError unit;
  in_pcr_digest : result CliError (list Z);
  in_journal : path;
  in_pcr_mask : Z;
  in_threshold : Z;
}.

Record ResumeInput : Type := mk_resume_input {
  re_trust_key : result CliError (list Z);
  re_pending : result CliError (list Z);
  re_pending_path : path;
  re_device : result CliError unit;
  re_providers : result CliError (list Identity);
  re_tpm : result CliError unit;
}.

Record UnlockInput : Type := mk_unlock_input {
  un_providers : result CliError (list Identity);
  un_trust_key : result CliError (list Z);
  un_device : result CliError unit;
  un_token : Z;
  un_tpm : result CliError unit;
  un_mapping : option string;
}.

Section Commands.
Context {D : Type} `{Cryptsetup D} `{TokenText} `{Primitives} `{Cbor} `{Outside}.
Context {R T : Type} `{Rng R} `{TpmProvider T}.
Context (clock : nat -> Z) (runtime_ok : bool).

(** The host: what the command line touches, and the world of the engine. *)
Record Host : Type := mk_host { cli : Cli D; engine_world : Engine.World R T }.

Definition Cmd (A : Type) : Type := Host -> result (fault CliError) A * Host.
#[global] Instance Cmd_ret : MRet Cmd := fun A a h => (Ok a, h).
#[global] Instance Cmd_bind : MBind Cmd := fun A B f m h =>
  match m h with
  | (Ok a, h) => f a h
  | (Err e, h) => (Err e, h)
  end.

Definition stop {A} (e : CliError) : Cmd A := fun h => (Err (Fault e), h).
Definition input {A} (r : result CliError A) : Cmd A := fun h => (map_err Fault r, h).
Definition other (message : string) : CliError := OtherFailure (bytes_of_string message) None.

(** A step of the command line, of the storage adapter, and of the engine. *)
Definition on_cli {A} (m : J A) : Cmd A := fun h =>
  let '(r, s) := m (cli h) in (map_err Fault r, mk_host s (engine_world h)).
Definition on_luks {A} (m : Luks.M A) : Cmd A := fun h =>
  let '(r, w) := m (store (cli h)) in
  (map_err (fun e => Fault (LuksFailure e)) r,
   mk_host (mk_cli (trace (cli h)) (attempts (cli h)) (observed (cli h)) (readings (cli h)) w) (engine_world h)).
Definition run_engine {A} (m : Engine.M R T A) : Cmd (result (fault EngineError.Error) A) := fun h =>
  let '(r, w) := m (engine_world h) in (Ok r, mk_host (cli h) w).

(** [?] on the result of an engine operation. *)
Definition engine_result {A} (r : result (fault EngineError.Error) A) : Cmd A := fun h =>
  (map_err (fun e => match e with Fault e => Fault (EngineFailure e) | Panic => Panic end) r, h).

(** [observed.engine(&report)] *)
Definition observe_engine : Cmd unit := fun h =>
  on_cli (update (fun self _ => Operation.engine self (report (engine_world h))) 0) h.

Definition configure (identities : list Identity) : Cmd unit :=
  on_cli (update (fun self _ => Operation.configure_providers self (map id_provider identities)) 0).

(** [leelo_crypto::random_bytes::<32>()] *)
Definition random32 : Cmd (list Z) := fun h =>
  let '(r, rng) := random_bytes 32 (entropy (engine_world h)) in
  (map_err (fun _ => Fault (other "random")) r,
   mk_host (cli h) (Engine.mk_world rng (Engine.device (engine_world h)) (ticks (engine_world h)) (report (engine_world h)))).

(** [Providers::enrollment_bindings] *)
Fixpoint enrollment_bindings (index : nat) (identities : list Identity) : Cmd (list NetworkBinding) :=
  match identities with
  | [] => mret []
  | identity :: identities =>
      seed ← random32;
      bindings ← enrollment_bindings (S index) identities;
      mret (mk_binding (wrap 8 (Z.of_nat (index + 2))) (id_provider identity) (id_key identity) (id_public_key identity) seed
            :: bindings)
  end.

Definition luks_handle : Cmd (Luks2 D) := fun h => (Ok (handle (store (cli h))), h).

(** [unlock_observed], its report and [?]. *)
Definition recover (raw trusted volume : list Z) (slot : Z) (schedule : list event) : Cmd UnlockResult :=
  recovered ← run_engine (unlock_observed clock runtime_ok raw trusted volume slot schedule);
  _ ← observe_engine;
  engine_result recovered.

(** The part of [Command::Enroll] up to the descriptor. *)
Definition enroll_descriptor (i : EnrollInput) : Cmd (Descriptor * SecretSigningKey * list Z) :=
  identities ← input (in_providers i);
  _ ← configure identities;
  networks ← enrollment_bindings 0 identities;
  _ ← input (in_device i);
  old ← input (in_existing_key i);
  _ ← on_luks (test_credential None old);
  seed ← input (in_signing_key i);
  if negb (length seed =? 32)%nat then stop (other "signing seed must be 32 bytes")
  else
    _ ← input (in_tpm i);
    digest ← input (in_pcr_digest i);
    policy ← input (map_err (fun _ => other "policy")
               (new_policy NetworkBound 0
                  (Threshold 1 (in_threshold i) (map (fun n => Leaf (node_id n) (provider_id n)) networks))));
    binding ← random32;
    self ← luks_handle;
    slot ← on_luks first_free_slot;
    mret (mk_descriptor binding (luks_uuid self) slot 1 policy networks (in_pcr_mask i) digest, mk_signing_key seed, old).

(** The preparation of the enrollment, up to the recovery test. *)
Definition enroll_prepare (d : Descriptor) (signer : SecretSigningKey)
    (net : nat -> NetworkBinding -> list Z -> option (result NetworkFailure Evaluation)) : Cmd PreparedEnrollment :=
  _ ← on_cli (observe_stage "prepare");
  prepared ← run_engine (prepare_observed clock runtime_ok d signer net);
  _ ← observe_engine;
  prepared ← engine_result prepared;
  _ ← on_cli (observe_stage "recovery_test");
  mret prepared.

(** [Command::Enroll] *)
Definition enroll (i : EnrollInput) (net : nat -> NetworkBinding -> list Z -> option (result NetworkFailure Evaluation))
    (schedule : list event) : Cmd Z :=
  '(d, signer, old) ← enroll_descriptor i;
  j ← on_cli (begin_journal (in_journal i) d);
  prepared ← enroll_prepare d signer net;
  recovered ← recover (prepared_envelope prepared) (signing_public_key signer) (Envelope.volume_uuid d) (Envelope.slot d) schedule;
  if negb (bool_decide (credential recovered = prepared_credential prepared)) then stop (other "enrollment round-trip mismatch")
  else
    on_cli (commit j d (prepared_envelope prepared)
      (add_enrollment (Envelope.slot d) old (prepared_credential prepared) (prepared_envelope prepared))).

(** The part of [Command::ResumeEnrollment] that recovers the credential of the pending bundle. *)
Definition resume_recover (i : ResumeInput) (schedule : list event) : Cmd (list Z * Z * list Z) :=
  trusted ← input (re_trust_key i);
  raw ← input (re_pending i);
  envelope ← input (map_err EnvelopeFailure (authenticate raw trusted));
  let slot := Envelope.slot (descriptor (body envelope)) in
  _ ← input (re_device i);
  identities ← input (re_providers i);
  _ ← configure identities;
  _ ← input (re_tpm i);
  _ ← on_cli (observe_stage "recover");
  self ← luks_handle;
  recovered ← recover raw trusted (luks_uuid self) slot schedule;
  mret (raw, slot, credential recovered).

(** [Command::ResumeEnrollment] *)
Definition resume (i : ResumeInput) (schedule : list event) : Cmd Z :=
  '(raw, slot, cred) ← resume_recover i schedule;
  on_cli (attach_recovered (re_pending_path i) slot cred raw).

(** [Command::Unlock] *)
Definition unlock (i : UnlockInput) (schedule : list event) : Cmd unit :=
  identities ← input (un_providers i);
  _ ← configure identities;
  trusted ← input (un_trust_key i);
  _ ← input (un_device i);
  t ← on_luks (token (un_token i));
  _ ← input (un_tpm i);
  _ ← on_cli (observe_stage "recover");
  self ← luks_handle;
  recovered ← recover (envelope_bytes t) trusted (luks_uuid self) (envelope_slot t) schedule;
  match un_mapping i with
  | Some name =>
      _ ← on_cli (observe_stage "activate");
      on_luks (activate (envelope_slot t) (credential recovered) name)
  | None =>
      _ ← on_cli (observe_stage "check");
      _ ← on_luks (test_credential (Some (envelope_slot t)) (credential recovered));
      mret tt
  end.

(** [linux::run]: the observed command, from the start event to the completion event. *)
Definition run {A} (name : string) (command : Cmd A) : Cmd A := fun h =>
  let s := cli h in
  let h := mk_host (mk_cli (trace s) (attempts s) (Operation.new name (clock_reading (readings s))) (S (readings s)) (store s))
             (engine_world h) in
  let '(r, h) := command h in
  match r with
  | Err Panic => (r, h)
  | Ok _ => (r, (on_cli (update (fun self now => Operation.finish self (Ok tt) (now 0%nat) (now 1%nat)) 2) h).2)
  | Err (Fault e) => (r, (on_cli (update (fun self now => Operation.finish self (Err e) (now 0%nat) (now 1%nat)) 2) h).2)
  end.
End Commands.
Arguments Host D R T : clear implicits.

(** * Reasoning about commands *)

Section Lemmas.
Context {D : Type} `{Cryptsetup D} `{TokenText} `{Primitives} `{Cbor} `{Outside}.
Context {R T : Type} `{Rng R} `{TpmProvider T}.
Context (clock : nat -> Z) (runtime_ok : bool).
Implicit Types h : Host D R T.

Lemma Cmd_inv {A B} (m : Cmd A) (f : A -> Cmd B) h r h' :
  (m ≫= f) h = (r, h') ->
  (exists a h1, m h = (Ok a, h1) /\ f a h1 = (r, h')) \/ (exists e, m h = (Err e, h') /\ r = Err e).
Proof.
  unfold mbind, Cmd_bind. destruct (m h) as [[a|e] h1]; intros E; [left; eauto|right]. injection E as <- <-. eauto.
Qed.

(** The header on disk, and what was done to files and storage. *)
Definition header h : D := disk (store (cli h)).
Definition effects h : list Effect := trace (cli h).

(** A step that leaves both alone. *)
Definition calm {A} (m : Cmd (D := D) (R := R) (T := T) A) : Prop :=
  forall h, header (m h).2 = header h /\ effects (m h).2 = effects h.

Lemma calm_bind {A B} (m : Cmd A) (f : A -> Cmd B) : calm m -> (forall a, calm (f a)) -> calm (m ≫= f).
Proof.
  intros Hm Hf h. unfold mbind, Cmd_bind. specialize (Hm h). destruct (m h) as [[a|e] h1]; [|done].
  destruct (Hf a h1). simpl in Hm. destruct Hm. split; congruence.
Qed.
Lemma calm_ret {A} (a : A) : calm (mret a).
Proof. done. Qed.
Lemma calm_stop {A} e : calm (stop (A := A) e).
Proof. done. Qed.
Lemma calm_input {A} (r : result CliError A) : calm (input r).
Proof. done. Qed.
Lemma calm_update f n : calm (on_cli (update f n)).
Proof. done. Qed.
Lemma calm_on_luks {A} (m : Luks.M A) : reads m -> calm (on_luks m).
Proof.
  intros Hm h. unfold on_luks, header. specialize (Hm (store (cli h))). by destruct (m (store (cli h))).
Qed.
Lemma calm_run_engine {A} (m : Engine.M R T A) : calm (run_engine m).
Proof. intros h. unfold run_engine. by destruct (m (engine_world h)). Qed.
Lemma calm_engine_result {A} (r : result (fault EngineError.Error) A) : calm (engine_result r).
Proof. done. Qed.
Lemma calm_observe_engine : calm observe_engine.
Proof. done. Qed.
Lemma calm_random32 : calm random32.
Proof. intros h. unfold random32. by destruct (random_bytes 32 (entropy (engine_world h))). Qed.
Lemma calm_luks_handle : calm luks_handle.
Proof. done. Qed.

Create HintDb calm.
#[local] Hint Resolve calm_ret calm_stop calm_input calm_update calm_run_engine calm_engine_result calm_observe_engine
  calm_random32 calm_luks_handle : calm.

(** Commands built from calm steps. *)
Ltac calm :=
  repeat first
    [ apply calm_bind; [auto with calm|intros ?]
    | match goal with
      | |- calm (if ?b then _ else _) => destruct b
      | |- calm (match ?x with _ => _ end) => destruct x
      end
    | solve [auto with calm] ].

Lemma calm_bindings index identities : calm (enrollment_bindings index identities).
Proof. revert index. induction identities as [|i ids IH]; intros index; simpl; calm. Qed.
#[local] Hint Resolve calm_bindings : calm.

Lemma reads_test_credential s c : reads (D := D) (test_credential s c).
Proof. apply reads_bind; [apply reads_reload|]. intros _. apply reads_activate_inner. Qed.
Lemma reads_find_free slots : reads (D := D) (find_free slots).
Proof.
  induction slots as [|s slots IH]; simpl; [apply reads_throw|]. apply reads_bind; [apply reads_slot_status|]. intros st.
  destruct (_ =? _); [apply reads_ret|done].
Qed.
Lemma reads_first_free_slot : reads (D := D) first_free_slot.
Proof. apply reads_bind; [apply reads_reload|]. intros _. apply reads_find_free. Qed.
Lemma reads_token id : reads (D := D) (token id).
Proof. apply reads_bind; [apply reads_reload|]. intros _. apply reads_cached_token. Qed.
Lemma reads_activate s c name : reads (D := D) (activate s c name).
Proof.
  unfold activate. destruct (negb _); [apply reads_throw|]. apply reads_bind; [apply reads_reload|]. intros _.
  apply reads_bind; [apply reads_activate_inner|]. intros _. apply reads_ret.
Qed.
#[local] Hint Resolve calm_on_luks reads_test_credential reads_first_free_slot reads_token reads_activate : calm.

Lemma calm_enroll_descriptor i : calm (enroll_descriptor i).
Proof. unfold enroll_descriptor, configure. calm. Qed.
Lemma calm_recover raw trusted volume slot schedule : calm (recover clock runtime_ok raw trusted volume slot schedule).
Proof. unfold recover. calm. Qed.
#[local] Hint Resolve calm_enroll_descriptor calm_recover : calm.
Lemma calm_enroll_prepare d signer net : calm (enroll_prepare clock runtime_ok d signer net).
Proof. unfold enroll_prepare, observe_stage. calm. Qed.
Lemma calm_resume_recover i schedule : calm (resume_recover clock runtime_ok i schedule).
Proof. unfold resume_recover, configure, observe_stage. calm. Qed.
Lemma calm_unlock i schedule : calm (unlock clock runtime_ok i schedule).
Proof. unfold unlock, configure, observe_stage. calm. Qed.

Lemma calm_after {A} (m : Cmd A) h r h' : calm m -> m h = (r, h') -> header h' = header h /\ effects h' = effects h.
Proof. intros Hm E. specialize (Hm h). by rewrite E in Hm. Qed.

Lemma find_free_member slots w slot w' : find_free (D := D) slots w = (Ok slot, w') -> slot ∈ slots.
Proof.
  revert w. induction slots as [|s slots IH]; intros w E; simpl in E; [done|].
  apply bind_inv in E as [(st & w1 & _ & E)|(? & ? & ?)]; [|done]. destruct (_ =? _).
  - injection E as <- _. left.
  - right. by eapply IH.
Qed.

Lemma enroll_descriptor_slot i h d signer old h' :
  enroll_descriptor i h = (Ok (d, signer, old), h') -> 0 <= Envelope.slot d < 32.
Proof.
  intros E. unfold enroll_descriptor in E.
  do 7 (apply Cmd_inv in E as [(? & ? & _ & E)|(? & ? & ?)]; [|done]). destruct (negb _); [done|].
  do 5 (apply Cmd_inv in E as [(? & ? & _ & E)|(? & ? & ?)]; [|done]).
  apply Cmd_inv in E as [(slot & h1 & Es & E)|(? & ? & ?)]; [|done]. injection E as <- _ _ _. simpl.
  unfold on_luks in Es. destruct (first_free_slot _) as [[s|] w] eqn:Ef; [|done]. injection Es as <- _.
  apply bind_inv in Ef as [(u & w1 & _ & Ef)|(? & ? & ?)]; [|done].
  apply find_free_member, elem_of_seqZ in Ef. lia.
Qed.

(** Recovery returns what the engine returned. *)
Lemma recover_Ok raw trusted volume slot schedule h res h' :
  recover clock runtime_ok raw trusted volume slot schedule h = (Ok res, h') ->
  exists w, unlock_observed clock runtime_ok raw trusted volume slot schedule (engine_world h) = (Ok res, w).
Proof.
  intros E. apply Cmd_inv in E as [(r & h1 & E1 & E)|(? & E1 & ?)]; unfold run_engine in E1;
    destruct (unlock_observed _ _ _ _ _ _ _ _) as [r' w]; [|done]. injection E1 as -> <-.
  apply Cmd_inv in E as [(u & h2 & _ & E)|(? & ? & ?)]; [|done]. unfold engine_result in E.
  destruct r as [a|[]]; simpl in E; [|done..]. injection E as -> _. eauto.
Qed.
End Lemmas.

Section Outcomes.
Context {D : Type} `{Cryptsetup D} `{TokenText} `{HeaderView D} `{!CryptsetupLaws D} `{Primitives} `{Cbor} `{Outside}.
Context {R T : Type} `{Rng R} `{TpmProvider T}.
Context (clock : nat -> Z) (runtime_ok : bool).
Implicit Types h : Host D R T.

(** What a call of the adapter during enrollment is about: a credential that the engine has just
    recovered from an envelope, which is the bundle that is durable at the call. *)
Definition recovered_first (schedule : list event) (d : Descriptor) (signer raw cred : list Z) (pre : list Effect) : Prop :=
  (exists (w w' : Engine.World R T) res,
    unlock_observed clock runtime_ok raw signer (Envelope.volume_uuid d) (Envelope.slot d) schedule w = (Ok res, w') /\
    credential res = cred) /\
  exists pending, replay pre !! pending = Some (mk_file raw raw true).

(** The outcome of a successful enrollment on the volume. *)
Definition enrolled_on (before after : D) (slot : Z) (cred raw : list Z) (id : Z) : Prop :=
  keyslots before !! slot = None /\ keyslots after = <[slot := cred]> (keyslots before) /\
  exists json, tokens after !! id = Some json /\ token_of json slot raw.

Definition enroll_outcome (schedule : list event) h (r : result (fault CliError) Z) h' : Prop :=
  keyslots (header h) ⊆ keyslots (header h') /\ tokens (header h) ⊆ tokens (header h') /\
  (StorageCalled ∉ effects h' -> header h' = header h /\ is_ok r = false) /\
  (forall pre post, effects h' = pre ++ StorageCalled :: post ->
    exists d signer raw cred, recovered_first schedule d signer raw cred pre /\
      forall id, r = Ok id -> enrolled_on (header h) (header h') (Envelope.slot d) cred raw id).

Lemma unchanged_outcome schedule h r h' :
  header h' = header h -> StorageCalled ∉ effects h' -> is_ok r = false -> enroll_outcome schedule h r h'.
Proof.
  intros Hh Hn Hr. split_and!; [by rewrite Hh..|done|]. intros pre post E. destruct Hn. rewrite E. apply elem_of_app. right. left.
Qed.

Lemma on_cli_inv {A} (m : J A) h r h' :
  on_cli m h = (r, h') -> exists r' s', m (cli h) = (r', s') /\ r = map_err Fault r' /\ h' = mk_host s' (engine_world h).
Proof. unfold on_cli. destruct (m (cli h)) as [r' s']. intros [= <- <-]. eauto. Qed.

Lemma silent_outcome schedule (s1 s2 : Cli D) torn h r w' :
  silent torn s1 s2 -> disk (store s1) = header h -> StorageCalled ∉ trace s1 -> is_ok r = false ->
  enroll_outcome schedule h r (mk_host s2 w').
Proof.
  intros (T1 & N1 & S1 & _) Hd Hn Hr. apply unchanged_outcome; [| |done].
  - unfold header at 1. simpl. by rewrite S1.
  - unfold effects. simpl. rewrite T1, elem_of_app. tauto.
Qed.

(** The commit of an enrollment whose credential was recovered. *)
Lemma commit_outcome schedule p d signer raw cred old h j (s s1 s2 : Cli D) r s3 w w' res ew :
  begin_journal p d s = (Ok j, s1) -> trace s = [] -> trace s2 = trace s1 -> 0 <= Envelope.slot d < 32 ->
  disk (store s2) = header h ->
  unlock_observed clock runtime_ok raw signer (Envelope.volume_uuid d) (Envelope.slot d) schedule w = (Ok res, w') ->
  credential res = cred ->
  commit j d raw (add_enrollment (Envelope.slot d) old cred raw) s2 = (r, s3) ->
  enroll_outcome schedule h (map_err Fault r) (mk_host s3 ew).
Proof.
  intros Hb He Hk Hs Hd Hu Hc E. pose proof (staged_trace p d j s s1 s2 Hb He Hk) as [T2 Hl].
  pose proof (staged_no_call p d raw j s s1 s2 Hb He Hk) as Hn. rewrite elem_of_app in Hn.
  apply commit_effect in E as [(torn & Hsil & Hr)|(added & post & Ea & Hnew & T3 & Hpost & Hres)].
  { eapply silent_outcome; [exact Hsil|done|tauto|]. by destruct r. }
  destruct (add_enrollment_effect _ _ _ _ _ _ _ (proj1 Hs) Ea) as (Hadd & Htok & Heff). rewrite Hd in Hadd, Htok, Heff.
  split_and!; unfold header, effects in *; simpl.
  - destruct Hadd as [->|(sl & c & Hnone & ->)]; [done|by apply insert_subseteq].
  - destruct Htok as [->|(id & json & Hnone & ->)]; [done|by apply insert_subseteq].
  - intros []. rewrite T3. apply elem_of_app. right. left.
  - intros pre post' E. rewrite T3 in E. apply split_once in E as [-> ->]; [|rewrite elem_of_app; tauto|done].
    exists d, signer, raw, cred. split.
    + split; [eauto|]. exists (pending_path j). eapply bundle_files; [done|]. rewrite T2, Hl. apply begin_files.
    + intros id Hid. destruct r as [id'|]; [|done]. injection Hid as ->. destruct added as [token|e]; [|by destruct Hres as (_ & ? & _)].
      destruct Hres as (_ & _ & -> & _). destruct Heff as (? & ? & json & ? & ?). split_and!; try done.
      exists json. split; [done|]. by apply decode_token_spec.
Qed.

Lemma calm_outcome schedule h h1 e h' :
  header h1 = header h -> StorageCalled ∉ effects h1 -> header h' = header h1 /\ effects h' = effects h1 ->
  enroll_outcome schedule h (Err e) h'.
Proof. intros Hh N1 [Hh2 E2]. apply unchanged_outcome; [congruence|by rewrite E2|done]. Qed.

Lemma enroll_effect i net schedule h r h' :
  effects h = [] -> enroll clock runtime_ok i net schedule h = (r, h') -> enroll_outcome schedule h r h'.
Proof.
  intros Hempty E. unfold enroll in E.
  apply Cmd_inv in E as [([[d signer] old] & h0 & E0 & E)|(e & E0 & ->)];
    pose proof (calm_after _ _ _ _ (calm_enroll_descriptor i) E0) as [Hh0 He0]; rewrite Hempty in He0.
  2:{ eapply calm_outcome; [done| |by split]. rewrite He0. apply not_elem_of_nil. }
  apply enroll_descriptor_slot in E0.
  apply Cmd_inv in E as [(j & h1 & E1 & E)|(e & E1 & ->)]; apply on_cli_inv in E1 as (rj & s1 & E1 & Er & ->).
  2:{ destruct rj; [done|]. apply writes_begin in E1 as [torn E1]. eapply silent_outcome; [done..| |done].
      unfold effects in He0. rewrite He0. apply not_elem_of_nil. }
  destruct rj as [j'|]; [|done]. injection Er as <-. pose proof (writes_begin _ _ _ _ _ E1) as (T1 & N1 & S1 & _).
  unfold effects in He0. rewrite He0 in T1.
  assert (header (mk_host s1 (engine_world h0)) = header h /\ StorageCalled ∉ trace s1) as [Hh1 Hn1].
  { unfold header in *. simpl. rewrite S1, T1. by rewrite Hh0. }
  apply Cmd_inv in E as [(prepared & h2 & E2 & E)|(e & E2 & ->)];
    pose proof (calm_after _ _ _ _ (calm_enroll_prepare clock runtime_ok d signer net) E2) as [Hh2 He2].
  2:{ by eapply calm_outcome. }
  apply Cmd_inv in E as [(res & h3 & E3 & E)|(e & E3 & ->)];
    pose proof (calm_after _ _ _ _ (calm_recover clock runtime_ok _ _ _ _ schedule) E3) as [Hh3 He3];
    rewrite Hh2, Hh1 in Hh3; rewrite He2 in He3.
  2:{ apply unchanged_outcome; [done|by rewrite He3|done]. }
  apply recover_Ok in E3 as [w3 E3]. case_bool_decide as Hcred; simpl in E.
  2:{ injection E as <- <-. apply unchanged_outcome; [done|by rewrite He3|done]. }
  apply on_cli_inv in E as (r' & s4 & E & -> & ->). by eapply commit_outcome.
Qed.

Lemma token_sound id (w : Luks.World D) t w' :
  token id w = (Ok t, w') -> exists json, tokens (disk w) !! id = Some json /\ decode_token json = Ok t.
Proof.
  intros E. apply bind_inv in E as [(u & w1 & E1 & E)|(? & ? & ?)]; [|done]. apply reload_coherent in E1 as [Hc Hd].
  rewrite <- Hd. by eapply cached_token_sound.
Qed.

(** A credential that a slot accepted. *)
Lemma test_credential_sound slot c (w : Luks.World D) r w' :
  test_credential (Some slot) c w = (Ok r, w') -> keyslots (disk w) !! slot = Some c.
Proof.
  intros E. apply bind_inv in E as [(u & w1 & E1 & E)|(? & ? & ?)]; [|done]. apply reload_coherent in E1 as [Hc Hd].
  apply activate_inner_sound in E as [Hk ->]; [|done]. by rewrite Hd in Hk.
Qed.

Lemma activate_sound slot c name (w : Luks.World D) u w' :
  activate slot c name w = (Ok u, w') -> keyslots (disk w) !! slot = Some c.
Proof.
  unfold activate. destruct (negb _); [done|]. intros E.
  apply bind_inv in E as [(u1 & w1 & E1 & E)|(? & ? & ?)]; [|done]. apply reload_coherent in E1 as [Hc Hd].
  apply bind_inv in E as [(r & w2 & E2 & E)|(? & ? & ?)]; [|done].
  apply activate_inner_sound in E2 as [Hk ->]; [|done]. by rewrite Hd in Hk.
Qed.

Lemma on_luks_inv {A} (m : Luks.M A) h a h' :
  on_luks m h = (Ok a, h') -> exists w, m (store (cli h)) = (Ok a, w).
Proof. unfold on_luks. destruct (m (store (cli h))) as [[a'|] w]; [|done]. intros [= -> _]. eauto. Qed.

Lemma input_inv {A} (r : result CliError A) h a h' : input r h = (Ok a, h') -> r = Ok a /\ h' = h.
Proof. unfold input. destruct r; [|done]. by intros [= -> ->]. Qed.

(** The engine released [cred] for these bytes and this slot, and the slot holds it. *)
Definition released (schedule : list event) (raw trusted : list Z) (slot : Z) (cred : list Z) (d : D) : Prop :=
  (exists volume (w w' : Engine.World R T) res,
    unlock_observed clock runtime_ok raw trusted volume slot schedule w = (Ok res, w') /\ credential res = cred) /\
  keyslots d !! slot = Some cred.

Lemma unlock_effect i schedule h u h' :
  unlock clock runtime_ok i schedule h = (Ok u, h') ->
  exists trusted json slot raw cred, un_trust_key i = Ok trusted /\
    tokens (header h) !! un_token i = Some json /\ token_of json slot raw /\
    released schedule raw trusted slot cred (header h).
Proof.
  intros E. unfold unlock in E.
  apply Cmd_inv in E as [(ids & h0 & E0 & E)|(? & ? & ?)]; [|done]. apply input_inv in E0 as [_ ->].
  apply Cmd_inv in E as [(u1 & h1 & E1 & E)|(? & ? & ?)]; [|done]. apply calm_after in E1 as [Hh1 _]; [|apply calm_update].
  apply Cmd_inv in E as [(trusted & h2 & E2 & E)|(? & ? & ?)]; [|done]. apply input_inv in E2 as [Htr ->].
  apply Cmd_inv in E as [(u3 & h3 & E3 & E)|(? & ? & ?)]; [|done]. apply input_inv in E3 as [_ ->].
  apply Cmd_inv in E as [([slot raw] & h4 & E4 & E)|(? & ? & ?)]; [|done].
  pose proof (calm_after _ _ _ _ (calm_on_luks _ (reads_token _)) E4) as [Hh4 _]. rewrite Hh1 in Hh4.
  apply on_luks_inv in E4 as [w4 (json & Hj & Hdec)%token_sound].
  apply Cmd_inv in E as [(u5 & h5 & E5 & E)|(? & ? & ?)]; [|done]. apply input_inv in E5 as [_ ->].
  apply Cmd_inv in E as [(u6 & h6 & E6 & E)|(? & ? & ?)]; [|done]. apply calm_after in E6 as [Hh6 _]; [|apply calm_update].
  apply Cmd_inv in E as [(self & h7 & E7 & E)|(? & ? & ?)]; [|done]. apply calm_after in E7 as [Hh7 _]; [|apply calm_luks_handle].
  apply Cmd_inv in E as [(res & h8 & E8 & E)|(? & ? & ?)]; [|done].
  pose proof (calm_after _ _ _ _ (calm_recover clock runtime_ok _ _ _ _ schedule) E8) as [Hh8 _].
  apply recover_Ok in E8 as [w8 E8].
  exists trusted, json, slot, raw, (credential res). split_and!; [done| |by apply decode_token_spec|].
  { unfold header in Hh1, Hj |- *. by rewrite <- Hh1. }
  split; [by do 4 eexists|]. rewrite <- Hh4, <- Hh6, <- Hh7, <- Hh8. destruct (un_mapping i) as [name|].
  - apply Cmd_inv in E as [(u9 & h9 & E9 & E)|(? & ? & ?)]; [|done]. apply calm_after in E9 as [<- _]; [|apply calm_update].
    apply on_luks_inv in E as [w9 E]. by apply activate_sound in E.
  - apply Cmd_inv in E as [(u9 & h9 & E9 & E)|(? & ? & ?)]; [|done]. apply calm_after in E9 as [<- _]; [|apply calm_update].
    apply Cmd_inv in E as [(s & h10 & E10 & _)|(? & ? & ?)]; [|done].
    apply on_luks_inv in E10 as [w10 E10]. by apply test_credential_sound in E10.
Qed.

(** Attaching a recovered credential calls the adapter once. *)
Lemma attach_recovered_effect p slot cred raw (s : Cli D) r s' :
  attach_recovered p slot cred raw s = (r, s') ->
  exists added, attach_enrollment slot cred raw (store s) = (added, store s') /\
    match added with
    | Ok id => r = Ok id /\ op_storage (observed s') = StorageState.Committed /\ awaiting_boot_test (observed s') = true
    | Err e => r = Err (EnrollmentError (retain_message p) (LuksFailure e)) /\
        op_storage (observed s') = StorageState.PendingReconciliation
    end.
Proof.
  intros E. apply J_inv in E as [(u1 & s1 & E1 & E)|(? & ? & ?)]; [|done]. injection E1 as _ <-.
  apply J_inv in E as [(u2 & s2 & E2 & E)|(? & ? & ?)]; [|done]. apply writes_stage in E2 as (_ & _ & S2 & O2 & _).
  apply J_inv in E as [(added & s3 & E3 & E)|(? & E3 & ?)]; unfold call_storage in E3; rewrite S2 in E3; simpl in E3, O2;
    destruct (attach_enrollment slot cred raw (store s)) as [a w]; [|done].
  injection E3 as -> <-. exists added. destruct added as [id|e]; injection E as <- <-; done.
Qed.

Lemma resume_recover_effect i schedule h raw slot cred h' :
  resume_recover clock runtime_ok i schedule h = (Ok (raw, slot, cred), h') ->
  exists trusted env volume (w w' : Engine.World R T) res,
    re_trust_key i = Ok trusted /\ re_pending i = Ok raw /\ authenticate raw trusted = Ok env /\
    slot = Envelope.slot (descriptor (body env)) /\
    unlock_observed clock runtime_ok raw trusted volume slot schedule w = (Ok res, w') /\ credential res = cred.
Proof.
  intros E. unfold resume_recover in E.
  apply Cmd_inv in E as [(trusted & h0 & E0 & E)|(? & ? & ?)]; [|done]. apply input_inv in E0 as [Htr ->].
  apply Cmd_inv in E as [(raw' & h0 & E0 & E)|(? & ? & ?)]; [|done]. apply input_inv in E0 as [Hraw ->].
  apply Cmd_inv in E as [(env & h0 & E0 & E)|(? & ? & ?)]; [|done]. apply input_inv in E0 as [Hauth ->].
  destruct (authenticate raw' trusted) as [env'|] eqn:Ea; [|done]. injection Hauth as ->. cbv zeta in E.
  do 6 (apply Cmd_inv in E as [(? & ? & _ & E)|(? & ? & ?)]; [|done]).
  apply Cmd_inv in E as [(res & h8 & E8 & E)|(? & ? & ?)]; [|done]. apply recover_Ok in E8 as [w8 E8].
  injection E as <- <- <- _. by do 6 eexists.
Qed.

Lemma resume_effect i schedule h r h' :
  resume clock runtime_ok i schedule h = (r, h') ->
  keyslots (header h') = keyslots (header h) /\ tokens (header h) ⊆ tokens (header h') /\
  forall id, r = Ok id ->
    exists trusted raw env cred, re_trust_key i = Ok trusted /\ re_pending i = Ok raw /\ authenticate raw trusted = Ok env /\
      released schedule raw trusted (Envelope.slot (descriptor (body env))) cred (header h) /\
      exists json, tokens (header h') !! id = Some json /\ token_of json (Envelope.slot (descriptor (body env))) raw.
Proof.
  intros E. unfold resume in E. apply Cmd_inv in E as [([[raw slot] cred] & h1 & E1 & E)|(e & E1 & ->)];
    pose proof (calm_after _ _ _ _ (calm_resume_recover clock runtime_ok i schedule) E1) as [Hh1 _].
  2:{ by rewrite Hh1. }
  apply on_cli_inv in E as (r' & s' & E & -> & ->). apply attach_recovered_effect in E as (added & Ea & Hr).
  apply attach_enrollment_effect in Ea as (Hk & Ht & Heff). fold (header h1) in Hk, Ht, Heff. rewrite Hh1 in Hk, Ht, Heff.
  split; [done|]. split.
  { destruct Ht as [Ht|(id & json & Hn & Ht)]; unfold header at 2; simpl; rewrite Ht; [done|by apply insert_subseteq]. }
  intros id Hid. destruct added as [id'|]; [|by destruct Hr as [-> _]]. destruct Hr as (-> & _). injection Hid as ->.
  destruct Heff as (Hslot & json & Hj & Hdec).
  apply resume_recover_effect in E1 as (trusted & env & volume & w & w' & res & ? & ? & ? & -> & ? & ?).
  exists trusted, raw, env, cred. split_and!; [done..| |].
  - split; [by do 4 eexists|done].
  - exists json. split; [done|]. by apply decode_token_spec.
Qed.
End Outcomes.

(** * Theorems *)

(** C2: The enroll command never endangers a volume. Whatever is read, whatever fails: every keyslot
    and token on the volume is kept; a command that did not reach the storage adapter failed and left
    the header as it was; and at the one call of the adapter the engine has just recovered the new
    credential from an envelope that is, byte for byte, the durable pending bundle. If the command
    succeeds, the free slot it chose holds exactly that credential and its token that envelope. *)
Theorem enroll_command {D} `{Cryptsetup D} `{TokenText} `{HeaderView D} `{!CryptsetupLaws D} `{Primitives} `{Cbor} `{Outside}
    {R T : Type} `{Rng R} `{TpmProvider T} clock runtime_ok i net schedule (h h' : Host D R T) r :
  effects h = [] -> enroll clock runtime_ok i net schedule h = (r, h') ->
  enroll_outcome clock runtime_ok schedule h r h'.
Proof. apply enroll_effect. Qed.

(** C25: The other commands act only on recovered credentials. Unlock never writes; when it succeeds,
    the token on the volume decodes to a slot and an envelope from which the engine released, under
    the trusted key, a credential that the slot accepts. Resume changes no keyslot and keeps every
    token; when it succeeds, the pending bundle authenticates under the trusted key, its slot accepts
    the credential released from it, and the returned token decodes to that slot and bundle. *)
Theorem resume_and_unlock_commands {D} `{Cryptsetup D} `{TokenText} `{HeaderView D} `{!CryptsetupLaws D} `{Primitives} `{Cbor}
    `{Outside} {R T : Type} `{Rng R} `{TpmProvider T} clock runtime_ok ri ui schedule (h : Host D R T) :
  let '(r, h1) := resume clock runtime_ok ri schedule h in
  let '(u, h2) := unlock clock runtime_ok ui schedule h in
  (keyslots (header h1) = keyslots (header h) /\ tokens (header h) ⊆ tokens (header h1) /\
   forall id, r = Ok id ->
    exists trusted raw env cred, re_trust_key ri = Ok trusted /\ re_pending ri = Ok raw /\ authenticate raw trusted = Ok env /\
      released clock runtime_ok (R := R) (T := T) schedule raw trusted (Envelope.slot (descriptor (body env))) cred (header h) /\
      exists json, tokens (header h1) !! id = Some json /\ token_of json (Envelope.slot (descriptor (body env))) raw) /\
  (header h2 = header h /\ effects h2 = effects h /\
   (u = Ok tt -> exists trusted json slot raw cred, un_trust_key ui = Ok trusted /\
      tokens (header h) !! un_token ui = Some json /\ token_of json slot raw /\
      released clock runtime_ok (R := R) (T := T) schedule raw trusted slot cred (header h))).
Proof.
  destruct (resume clock runtime_ok ri schedule h) as [r h1] eqn:Er.
  destruct (unlock clock runtime_ok ui schedule h) as [u h2] eqn:Eu. split; [by apply resume_effect|].
  destruct (calm_after _ _ _ _ (calm_unlock clock runtime_ok ui schedule) Eu) as [Hh He].
  split_and!; [done..|]. intros ->. by eapply unlock_effect.
Qed.
