(* ===== verification/EndToEnd.v ===== *)
(** The commands composed with the TPM2 adapter: a volume enrolled by one command is unlocked by another. *)
From stdpp Require Import base list gmap strings.
From Stdlib Require Import ZArith Lia.
From S2P Require Import Prelude Sss Plan Policy Crypto Wire Cbor Envelope Observation Engine Recovery Unlock Enroll Tpm TpmDevice TpmSeal Text Telemetry Reconcile Providers Luks LuksRun CliOperation Journal Commands.

Open Scope Z_scope.

(** * Typed inputs *)

Definition identity_typed (i : Identity) : Prop :=
  byte_array 32 (id_provider i) /\ byte_array 32 (id_key i) /\ byte_array 49 (id_public_key i).

(** What the readers of the inputs return. *)
Record input_typed (i : EnrollInput) : Prop := {
  typed_providers ids : in_providers i = Ok ids -> Forall identity_typed ids;
  typed_seed seed : in_signing_key i = Ok seed -> byte_slice seed;
  typed_digest digest : in_pcr_digest i = Ok digest -> byte_array 32 digest;
  typed_mask : u32 (in_pcr_mask i);
  typed_threshold : u8 (in_threshold i);
}.

Section Descriptor.
Context {D : Type} `{Cryptsetup D} `{TokenText} `{Primitives} `{Cbor} `{Outside}.
Context {R T : Type} `{RngSound R} `{TpmProvider T}.
Implicit Types h : Host D R T.

(** The volume that a host has open. *)
Definition volume_of h : list Z := luks_uuid (handle (store (cli h))).

(** A step that keeps the volume. *)
Definition keeps_volume {A} (m : Luks.M (D := D) A) : Prop := forall w, luks_uuid (handle (m w).2) = luks_uuid (handle w).

Lemma keeps_volume_bind {A B} (m : Luks.M A) (f : A -> Luks.M B) :
  keeps_volume m -> (forall a, keeps_volume (f a)) -> keeps_volume (m ≫= f).
Proof.
  intros Hm Hf w. unfold mbind, Luks.M_bind. specialize (Hm w). destruct (m w) as [[a|e] w1]; [|done]. by rewrite Hf.
Qed.

Lemma keeps_volume_of {A} (m : Luks.M A) : keeps m -> keeps_volume m.
Proof. intros Hm w. by rewrite Hm. Qed.

Lemma from_file_handle b (w : Luks.World D) r w' : from_file b w = (r, w') -> handle w' = handle w.
Proof.
  unfold from_file. intros E.
  repeat match goal with
  | E : (_ ≫= _) _ = _ |- _ => apply bind_inv in E as [(? & ? & E1 & E)|(? & E & _)];
      [injection E1 as _ <-|]; try (injection E as _ <-; reflexivity)
  end.
  destruct (crypt_get_uuid (disk w)); by injection E as _ <-.
Qed.

Lemma reload_keeps_volume : keeps_volume reload.
Proof.
  intros w. destruct (reload w) as [r w'] eqn:E. unfold reload in E.
  apply bind_inv in E as [(c & w1 & E1 & E)|(? & ? & ?)]; [|done]. injection E1 as _ <-.
  destruct (negb _); [by injection E as _ <-|].
  apply bind_inv in E as [(self & w2 & E2 & E)|(? & ? & ?)]; [|done]. injection E2 as <- <-.
  apply bind_inv in E as [(fresh & w3 & E3 & E)|(? & E3 & ?)].
  2:{ apply from_file_handle in E3. simpl. by rewrite E3. }
  apply from_file_handle in E3. case_bool_decide as Hu; simpl in E; injection E as _ <-; simpl; [done|by rewrite E3].
Qed.

Lemma test_credential_keeps_volume s c : keeps_volume (test_credential s c).
Proof.
  apply keeps_volume_bind; [apply reload_keeps_volume|]. intros _. apply keeps_volume_of, keeps_activate_inner.
Qed.

Lemma calm_volume {A} (m : Cmd A) h r h' : m h = (r, h') ->
  (forall h, volume_of (m h).2 = volume_of h) -> volume_of h' = volume_of h.
Proof. intros E Hm. specialize (Hm h). by rewrite E in Hm. Qed.

Lemma random32_Ok h bytes h' : random32 h = (Ok bytes, h') -> byte_array 32 bytes /\ cli h' = cli h.
Proof.
  unfold random32. destruct (random_bytes 32 _) as [[b|] rng] eqn:E; [|done]. intros [= -> <-].
  split; [by eapply random_bytes_Ok|done].
Qed.

(** The bindings of the configured providers. *)
Lemma bindings_Ok ids : forall index h bs h',
  enrollment_bindings index ids h = (Ok bs, h') -> Forall identity_typed ids ->
  Forall binding_typed bs /\ map public_key bs = map id_public_key ids /\ cli h' = cli h.
Proof.
  induction ids as [|i ids IH]; intros index h bs h' E Hty; simpl in E; [by injection E as <- <-|].
  apply Cmd_inv in E as [(sd & h1 & E1 & E)|(? & ? & ?)]; [|done]. apply random32_Ok in E1 as [Hsd C1].
  apply Cmd_inv in E as [(rest & h2 & E2 & E)|(? & ? & ?)]; [|done]. injection E as <- <-.
  apply Forall_cons in Hty as [(Hp & Hk & Hpk) Hty]. destruct (IH _ _ _ _ E2 Hty) as (Hb & Hm & C2).
  split_and!; [|simpl; by rewrite Hm|by rewrite C2].
  constructor; [|done]. split_and!; simpl; try done. by apply uint_wrap.
Qed.

Lemma leaves_typed_of bs : Forall binding_typed bs -> Forall node_typed (map (fun n => Leaf (node_id n) (provider_id n)) bs).
Proof. intros Hb. apply Forall_map. eapply Forall_impl; [exact Hb|]. intros b (? & ? & _). by constructor. Qed.

Lemma enroll_descriptor_typed i h d signer old h' :
  input_typed i -> byte_array 16 (volume_of h) -> enroll_descriptor i h = (Ok (d, signer, old), h') ->
  descriptor_typed d /\ byte_array 32 (seed signer) /\ in_signing_key i = Ok (seed signer) /\
  Envelope.volume_uuid d = volume_of h /\ mode (policy d) = NetworkBound /\
  exists ids, in_providers i = Ok ids /\ map public_key (networks d) = map id_public_key ids.
Proof.
  intros [Hids Hseed Hdig Hmask Hthr] Hvol E. assert (Hslot := enroll_descriptor_slot _ _ _ _ _ _ E). unfold enroll_descriptor in E.
  apply Cmd_inv in E as [(ids & h0 & E0 & E)|(? & ? & ?)]; [|done]. apply input_inv in E0 as [Hi ->].
  apply Cmd_inv in E as [(u & h1 & E1 & E)|(? & ? & ?)]; [|done]. injection E1 as _ <-.
  apply Cmd_inv in E as [(bs & h2 & E2 & E)|(? & ? & ?)]; [|done].
  destruct (bindings_Ok _ _ _ _ _ E2 (Hids _ Hi)) as (Hb & Hpk & C2).
  apply Cmd_inv in E as [(u3 & h3 & E3 & E)|(? & ? & ?)]; [|done]. apply input_inv in E3 as [_ ->].
  apply Cmd_inv in E as [(old' & h4 & E4 & E)|(? & ? & ?)]; [|done]. apply input_inv in E4 as [_ ->].
  apply Cmd_inv in E as [(u5 & h5 & E5 & E)|(? & ? & ?)]; [|done].
  assert (volume_of h5 = volume_of h) as Hv5.
  { unfold on_luks in E5. pose proof (test_credential_keeps_volume None old' (store (cli h2))) as Hk.
    destruct (test_credential None old' (store (cli h2))) as [r5 w5]. injection E5 as _ <-. unfold volume_of. simpl in *.
    rewrite Hk, C2. done. }
  apply Cmd_inv in E as [(sd & h6 & E6 & E)|(? & ? & ?)]; [|done]. apply input_inv in E6 as [Hsd ->].
  destruct (Nat.eqb_spec (length sd) 32) as [Hlen|]; [|done]. simpl in E.
  apply Cmd_inv in E as [(u7 & h7 & E7 & E)|(? & ? & ?)]; [|done]. apply input_inv in E7 as [_ ->].
  apply Cmd_inv in E as [(dig & h8 & E8 & E)|(? & ? & ?)]; [|done]. apply input_inv in E8 as [Hdg ->].
  apply Cmd_inv in E as [(pol & h9 & E9 & E)|(? & ? & ?)]; [|done]. apply input_inv in E9 as [Hpol ->].
  destruct (new_policy _ _ _) as [pol'|] eqn:Ep; [|done]. injection Hpol as ->.
  apply Cmd_inv in E as [(bid & h10 & E10 & E)|(? & ? & ?)]; [|done]. apply random32_Ok in E10 as [Hbid C10].
  apply Cmd_inv in E as [(self & h11 & E11 & E)|(? & ? & ?)]; [|done]. injection E11 as <- <-.
  apply Cmd_inv in E as [(slot & h12 & E12 & E)|(? & ? & ?)]; [|done]. injection E as <- <- <- <-. simpl in Hslot.
  assert (luks_uuid (handle (store (cli h10))) = volume_of h) as Hself by (rewrite <- Hv5; unfold volume_of; by rewrite C10).
  assert (node_typed (Threshold 1 (in_threshold i) (map (fun n => Leaf (node_id n) (provider_id n)) bs))) as Hnode.
  { constructor; [done|done|by apply leaves_typed_of]. }
  pose proof (new_policy_ok _ _ _ _ Hnode Ep) as Hpok. apply new_policy_iff in Ep as [_ ->]; [|done].
  split.
  { unfold descriptor_typed. simpl. rewrite Hself. split_and!; try done; [unfold uint; lia|by apply Hdig]. }
  split; [split; [done|by apply Hseed]|]. split_and!; simpl; [done..|]. eauto.
Qed.
End Descriptor.

(** * What a successful call of the adapter says of its arguments *)

Section Adapter.
Context {D : Type} `{Cryptsetup D} `{TokenText} `{HeaderView D} `{!CryptsetupLaws D}.

Lemma activate_inner_credential slot c m (w : Luks.World D) r w' : activate_inner slot c m w = (Ok r, w') -> credential_ok c.
Proof.
  unfold activate_inner. destruct (_ || _ || _) eqn:Hg; [done|]. intros _.
  rewrite !orb_false_iff, bool_decide_eq_false, Z.ltb_ge in Hg. by destruct Hg as [[_ ?] ?].
Qed.

Lemma find_token_member ids m slot e id : find_token ids m slot e = Some id -> id ∈ ids.
Proof.
  induction ids as [|i ids IH]; simpl; [done|]. intros E.
  destruct (m !! display_u64 i); [|right; auto]. destruct (decode_token _); [|right; auto].
  destruct (_ && _); [|right; auto]. injection E as ->. left.
Qed.

Lemma token_plan_member slot e b (w : Luks.World D) id json w' : token_plan slot e b w = (Ok (id, json), w') -> id ∈ SLOTS.
Proof.
  intros E. do 3 (apply bind_inv in E as [(? & ? & _ & E)|(? & ? & ?)]; [|done]).
  destruct (List.find _ SLOTS) as [i|] eqn:Ef; [|done]. cbv zeta in E. destruct (_ <? _); [done|]. destruct (byte_in _ 0); [done|].
  injection E as <- _ _. apply find_some in Ef as [Hin _]. by apply list_elem_of_In.
Qed.

Lemma attach_locked_range slot c e (w : Luks.World D) id w' :
  attach_locked slot c e w = (Ok id, w') -> 0 <= id < 32 /\ credential_ok c.
Proof.
  intros E. apply bind_inv in E as [(? & w1 & _ & E)|(? & ? & ?)]; [|done].
  apply bind_inv in E as [(a & w2 & E2 & E)|(? & ? & ?)]; [|done]. apply activate_inner_credential in E2. split; [|done].
  assert (id ∈ SLOTS) as Hid; [|apply elem_of_seqZ in Hid; lia].
  do 2 (apply bind_inv in E as [(? & ? & _ & E)|(? & ? & ?)]; [|done]).
  destruct (find_token _ _ _ _) as [i|] eqn:Ef.
  - apply bind_inv in E as [(? & ? & _ & E)|(? & ? & ?)]; [|done]. injection E as <- _. by eapply find_token_member.
  - apply bind_inv in E as [([i json] & w5 & E5 & E)|(? & ? & ?)]; [|done]. apply token_plan_member in E5.
    apply bind_inv in E as [(code & ? & _ & E)|(? & ? & ?)]; [|done].
    apply bind_inv in E as [(res & ? & _ & E)|(? & ? & ?)]; [|done]. simpl in E. destruct (Z.eqb_spec res i) as [->|]; [|done].
    do 2 (apply bind_inv in E as [(? & ? & _ & E)|(? & ? & ?)]; [|done]). by injection E as <- _.
Qed.

Lemma failed_add_fails slot e (w : Luks.World D) id w' : failed_add slot e w = (Ok id, w') -> False.
Proof. unfold failed_add. destruct (reloaded_status slot w) as [[st|] w1]; [by destruct (_ =? _)|done]. Qed.

Lemma add_enrollment_range slot old new e (w : Luks.World D) id w' :
  add_enrollment slot old new e w = (Ok id, w') -> 0 <= id < 32 /\ credential_ok new.
Proof.
  intros E. apply bind_inv in E as [(? & ? & _ & E)|(? & ? & ?)]; [|done]. destruct (negb _); [done|].
  do 3 (apply bind_inv in E as [(? & ? & _ & E)|(? & ? & ?)]; [|done]). destruct (negb _); [done|].
  do 3 (apply bind_inv in E as [(? & ? & _ & E)|(? & ? & ?)]; [|done]).
  destruct (_ <? 0); [by apply failed_add_fails in E|]. destruct (negb _); [done|].
  apply bind_inv in E as [(? & w8 & _ & E)|(? & ? & ?)]; [|done]. unfold map_error in E.
  destruct (attach_locked slot new e w8) as [[i|] w9] eqn:Ea; [|done]. injection E as <- _. by eapply attach_locked_range.
Qed.

Context `{!CryptsetupWorks D} `{!TokenTextLaws}.

Lemma token_runs id json t (w : Luks.World D) :
  same_volume w -> 0 <= id < 32 -> tokens (disk w) !! id = Some json -> decode_token json = Ok t ->
  exists w', token id w = (Ok t, w') /\ settled w w'.
Proof.
  intros Hv Hid Hj Ht. destruct (reload_runs w Hv) as (w1 & E1 & S1). pose proof S1 as (_ & _ & _ & Hcd).
  unfold token. rewrite (bind_run _ _ _ _ _ E1). unfold cached_token, SLOT_COUNT. rewrite (proj2 (Z.leb_gt 32 id)) by lia.
  run_calls. rewrite (get_works _ _ _ json) by (by rewrite Hcd). run_calls. rewrite Ht, checked_run by done. run_calls.
  by eexists.
Qed.

Lemma test_credential_runs slot c (w : Luks.World D) :
  same_volume w -> 0 <= slot < 32 -> credential_ok c -> keyslots (disk w) !! slot = Some c ->
  exists w', test_credential (Some slot) c w = (Ok slot, w').
Proof.
  intros Hv Hs Hc Hk. destruct (reload_runs w Hv) as (w1 & E1 & _ & _ & _ & Hcd).
  unfold test_credential. rewrite (bind_run _ _ _ _ _ E1).
  destruct (activate_slot_runs slot c w1 Hs Hc) as (w2 & E2 & _); [by rewrite Hcd|]. eauto.
Qed.

(** A mapping that can be made: the name is one that the adapter accepts, and libcryptsetup activates the
    volume under it with the passphrase of a keyslot. *)
Definition mappable (name : string) : Prop :=
  mapping_ok name = true /\ forall n (d : D) s c, 0 <= s < 32 -> keyslots d !! s = Some c ->
    crypt_activate_by_passphrase n d (Some name) s c = s.

Lemma activate_runs slot c name (w : Luks.World D) :
  same_volume w -> mappable name -> 0 <= slot < 32 -> credential_ok c -> keyslots (disk w) !! slot = Some c ->
  exists w', activate slot c name w = (Ok tt, w').
Proof.
  intros Hv [Hname Hact] Hs Hc Hk. destruct (reload_runs w Hv) as (w1 & E1 & _ & _ & _ & Hcd).
  destruct (activate_inner_runs slot c (Some name) w1 Hs Hc) as (w2 & E2 & _); [by apply Hact; rewrite ?Hcd|].
  exists w2. unfold activate. rewrite Hname. cbn [negb]. rewrite (bind_run _ _ _ _ _ E1). by rewrite (bind_run _ _ _ _ _ E2).
Qed.
End Adapter.

(** * Enrollment, then unlock *)

Section Composition.
Context {D : Type} `{Cryptsetup D} `{TokenText} `{HeaderView D} `{!CryptsetupLaws D}.
Context `{PrimitiveLaws} `{CborLaws} `{Outside} {R T : Type} `{RngSound R} `{TpmLaws T}.
Implicit Types h : Host D R T.

Lemma enroll_prepare_Ok clock runtime_ok d signer net h prepared h' :
  enroll_prepare clock runtime_ok d signer net h = (Ok prepared, h') ->
  exists w : Engine.World R T, prepare_observed clock runtime_ok d signer net w = (Ok prepared, engine_world h').
Proof.
  intros E. apply Cmd_inv in E as [(u & h1 & _ & E)|(? & ? & ?)]; [|done].
  apply Cmd_inv in E as [(r & h2 & E2 & E)|(? & E2 & ?)]; unfold run_engine in E2;
    destruct (prepare_observed clock runtime_ok d signer net (engine_world h1)) as [r' w] eqn:Ep; [|done].
  injection E2 as -> <-. apply Cmd_inv in E as [(u3 & h3 & E3 & E)|(? & ? & ?)]; [|done]. injection E3 as _ <-.
  apply Cmd_inv in E as [(p & h4 & E4 & E)|(? & ? & ?)]; [|done]. unfold engine_result in E4.
  destruct r as [p'|[]]; [|done..]. injection E4 as -> <-.
  apply Cmd_inv in E as [(u5 & h5 & E5 & E)|(? & ? & ?)]; [|done]. injection E5 as _ <-. injection E as <- <-. eauto.
Qed.

(** A successful recovery unseals once, and does nothing else to the TPM. *)
Lemma recover_unseals clock runtime_ok raw trusted volume slot schedule h res h' :
  recover clock runtime_ok raw trusted volume slot schedule h = (Ok res, h') ->
  exists env u, tpm_unseal (Engine.device (engine_world h)) env = (Ok u, Engine.device (engine_world h')).
Proof.
  intros E. apply Cmd_inv in E as [(r & h1 & E1 & E)|(? & E1 & ?)]; unfold run_engine in E1;
    destruct (unlock_observed clock runtime_ok raw trusted volume slot schedule (engine_world h)) as [r' w] eqn:Eu; [|done].
  injection E1 as -> <-. apply Cmd_inv in E as [(u2 & h2 & E2 & E)|(? & ? & ?)]; [|done]. injection E2 as _ <-.
  unfold engine_result in E. destruct r as [v|[]]; [|done..]. injection E as -> <-. simpl.
  destruct (observed_result clock Recover (unlock_before_observed clock runtime_ok raw trusted volume slot
    (clock (ticks (engine_world h)) + OPERATION_BUDGET) schedule) (engine_world h)) as (w0 & Hres & _ & D0 & D1).
  unfold unlock_observed in Eu. rewrite Eu in Hres, D1. cbn [fst snd] in Hres, D1.
  destruct (unlock_before_observed clock runtime_ok raw trusted volume slot _ schedule w0) as [r w1] eqn:Er.
  cbn [fst snd] in Hres, D1. subst r. unfold unlock_before_observed in Er. step_as Er Hb unl w2.
  apply begin_Ok in Hb as (_ & _ & _ & _ & _ & _ & D2). apply run_Ok in Er as [(? & ? & ? & ? & un & _ & Hun & _) _].
  rewrite D2, D0, <- D1 in Hun. eauto.
Qed.

(** A successful enrollment: what was prepared is what is on the volume, and since then the
    TPM has unsealed once, for the recovery test. *)
Lemma enroll_Ok clock runtime_ok i net schedule h d signer old h0 id h' :
  effects h = [] -> enroll_descriptor i h = (Ok (d, signer, old), h0) ->
  enroll clock runtime_ok i net schedule h = (Ok id, h') ->
  exists prepared (w w' : Engine.World R T), prepare_observed clock runtime_ok d signer net w = (Ok prepared, w') /\
    enrolled_on (header h) (header h') (Envelope.slot d) (prepared_credential prepared) (prepared_envelope prepared) id /\
    0 <= Envelope.slot d < 32 /\ 0 <= id < 32 /\ credential_ok (prepared_credential prepared) /\
    exists env u, tpm_unseal (Engine.device w') env = (Ok u, Engine.device (engine_world h')).
Proof.
  intros Hempty Ed E. unfold enroll in E. apply Cmd_inv in E as [([[d' signer'] old'] & h0' & E0 & E)|(? & ? & ?)]; [|done].
  rewrite Ed in E0. injection E0 as <- <- <- <-.
  pose proof (calm_after _ _ _ _ (calm_enroll_descriptor i) Ed) as [Hh0 He0]. apply enroll_descriptor_slot in Ed.
  apply Cmd_inv in E as [(j & h1 & E1 & E)|(? & ? & ?)]; [|done]. apply on_cli_inv in E1 as (rj & s1 & E1 & Er & ->).
  destruct rj as [j'|]; [|done]. injection Er as <-. apply writes_begin in E1 as (_ & _ & S1 & _).
  apply Cmd_inv in E as [(prepared & h2 & E2 & E)|(? & ? & ?)]; [|done].
  pose proof (calm_after _ _ _ _ (calm_enroll_prepare clock runtime_ok d signer net) E2) as [Hh2 _].
  apply enroll_prepare_Ok in E2 as (w & E2).
  apply Cmd_inv in E as [(res & h3 & E3 & E)|(? & ? & ?)]; [|done].
  pose proof (calm_after _ _ _ _ (calm_recover clock runtime_ok _ _ _ _ schedule) E3) as [Hh3 _].
  apply recover_unseals in E3. destruct (negb _); [done|]. apply on_cli_inv in E as (r' & s4 & E & Hr & ->). destruct r' as [id'|]; [|done].
  injection Hr as <-. apply commit_effect in E as [(torn & _ & ?)|(added & post & Ea & _ & _ & _ & Hadded)]; [done|].
  destruct added as [token|e]; [|by destruct Hadded as (_ & ? & _)]. destruct Hadded as (_ & _ & -> & _).
  assert (disk (store (cli h3)) = header h) as Hd.
  { fold (header h3). rewrite Hh3, Hh2. unfold header in *. simpl. by rewrite S1, Hh0. }
  pose proof (add_enrollment_range _ _ _ _ _ _ _ Ea) as [Hid Hc].
  apply add_enrollment_effect in Ea as (_ & _ & Hfree & Hk & json & Hj & Hdec); [|lia]. rewrite Hd in Hfree, Hk.
  exists prepared, w, (engine_world h2). split; [exact E2|]. split; [|split; [exact Ed|split; [exact Hid|split; [exact Hc|exact E3]]]].
  split; [done|]. split; [done|]. exists json. split; [done|]. by apply decode_token_spec.
Qed.

Context `{!CryptsetupWorks D}.

Lemma Cmd_run {A B} (m : Cmd A) (f : A -> Cmd B) h a h1 : m h = (Ok a, h1) -> (m ≫= f) h = f a h1.
Proof. unfold mbind, Cmd_bind. by intros ->. Qed.

Lemma on_luks_runs {A} (m : Luks.M A) h a w :
  m (store (cli h)) = (Ok a, w) ->
  on_luks m h = (Ok a, mk_host (mk_cli (trace (cli h)) (attempts (cli h)) (observed (cli h)) (readings (cli h)) w) (engine_world h)).
Proof. unfold on_luks. by intros ->. Qed.

(** The unlock command, when the engine releases the credential of the token's slot. *)
Lemma unlock_runs clock ids trusted id json slot raw cred diags mapping schedule h :
  same_volume (store (cli h)) -> 0 <= id < 32 -> 0 <= slot < 32 -> credential_ok cred ->
  tokens (header h) !! id = Some json -> token_of json slot raw -> keyslots (header h) !! slot = Some cred ->
  (forall name, mapping = Some name -> mappable (D := D) name) ->
  (unlock_observed clock true raw trusted (volume_of h) slot schedule (engine_world h)).1 = Ok (mk_unlock cred diags) ->
  (unlock clock true (mk_unlock_input (Ok ids) (Ok trusted) (Ok tt) id (Ok tt) mapping) schedule h).1 = Ok tt.
Proof.
  intros Hv Hid Hs Hc Hj Ht Hk Hmap Hu. apply decode_token_spec in Ht.
  destruct (token_runs id json _ (store (cli h)) Hv Hid Hj Ht) as (w & Ew & Sw). pose proof Sw as (Hd & Huuid & _ & _).
  assert (same_volume w) as Hw by (by eapply settled_same_volume). assert (keyslots (disk w) !! slot = Some cred) as Hkw by (by rewrite Hd).
  destruct (unlock_observed clock true raw trusted (volume_of h) slot schedule (engine_world h)) as [r w3] eqn:Eu.
  simpl in Hu. subst r. unfold unlock. cbn [un_providers un_trust_key un_device un_token un_tpm un_mapping].
  rewrite (Cmd_run (input (Ok ids)) _ h ids h eq_refl). rewrite (Cmd_run (configure ids) _ h tt _ eq_refl).
  erewrite (Cmd_run (input (Ok trusted))) by reflexivity. erewrite (Cmd_run (input (Ok tt))) by reflexivity.
  erewrite (Cmd_run (on_luks (token id))) by (apply on_luks_runs; exact Ew).
  erewrite (Cmd_run (input (Ok tt))) by reflexivity. erewrite (Cmd_run (on_cli (observe_stage "recover"))) by reflexivity.
  erewrite (Cmd_run luks_handle) by reflexivity. cbn [envelope_bytes envelope_slot store cli handle].
  erewrite (Cmd_run (recover clock true raw trusted _ slot schedule)).
  2:{ unfold recover. erewrite Cmd_run.
      2:{ unfold run_engine. cbn [engine_world cli store]. rewrite Huuid. fold (volume_of h). rewrite Eu. reflexivity. }
      erewrite (Cmd_run observe_engine) by reflexivity. reflexivity. }
  destruct mapping as [name|].
  - destruct (activate_runs slot cred name w Hw (Hmap _ eq_refl) Hs Hc Hkw) as (w2 & Ew2).
    erewrite (Cmd_run (on_cli (observe_stage "activate"))) by reflexivity.
    cbn [credential]. unfold on_luks. cbn [store cli]. by rewrite Ew2.
  - destruct (test_credential_runs slot cred w Hw Hs Hc Hkw) as (w2 & Ew2).
    erewrite (Cmd_run (on_cli (observe_stage "check"))) by reflexivity.
    erewrite (Cmd_run (on_luks (test_credential (Some slot) cred))) by (apply on_luks_runs; exact Ew2). reflexivity.
Qed.
End Composition.

(** C1: What one command enrolls, another unlocks, over the TPM2 adapter. If the enroll command succeeds on
    a volume, with providers that evaluate under their configured keys, and leaves the host [h'], then the
    unlock command with the returned token and the signer's public key succeeds on every later host that has
    the volume's header as [h'] has it; whose TPM is the one of [h'] (its storage keys, and at least what it
    had wrapped), works, and gives the enrolled digest of the selected PCRs; whose clock readings are all
    within the operation budget; and whose providers that are up satisfy the threshold, for every
    interleaving of their answers, whatever the others answer. It succeeds as a check, and as an activation
    under every name that the adapter accepts and libcryptsetup can map. *)
Theorem enroll_command_then_unlock_command {D} `{Cryptsetup D} `{TokenText} `{HeaderView D} `{!CryptsetupLaws D}
    `{!CryptsetupWorks D} `{PrimitiveLaws} `{CborLaws} `{Outside} {R T : Type} `{RngSound R} `{TssWorks T}
    clock runtime_ok (server_of : NetworkBinding -> server) i net schedule (h h0 h' : Host D R (Tpm2Provider T)) d signer old id
    uclock ids mapping up uschedule (hu : Host D R (Tpm2Provider T)) c later :
  input_typed i -> byte_array 16 (volume_of h) -> effects h = [] ->
  (forall ids b, in_providers i = Ok ids -> public_key b ∈ map id_public_key ids -> public_key b = server_public_key (server_of b)) ->
  (forall k b p ev, net k b p = Some (Ok ev) -> evaluated (R := R) server_of b p ev) ->
  enroll_descriptor i h = (Ok (d, signer, old), h0) -> enroll clock runtime_ok i net schedule h = (Ok id, h') ->
  header hu = header h' -> same_volume (store (cli hu)) -> volume_of hu = volume_of h ->
  same_tpm (tss (Engine.device (engine_world h'))) (tss (Engine.device (engine_world hu))) ->
  working (tss (Engine.device (engine_world hu))) ->
  pcr_digest c (tpm_pcr_mask d) (tss (Engine.device (engine_world hu))) = (Ok (tpm_pcr_digest d), later) ->
  (forall n, uclock n < uclock (ticks (engine_world hu)) + OPERATION_BUDGET) ->
  serving server_of d up uschedule -> Elapsed ∉ uschedule -> (length (networks d) <= completions uschedule)%nat ->
  satisfied (up_ids (networks d) up) (network (policy d)) = true ->
  (forall name, mapping = Some name -> mappable (D := D) name) ->
  (unlock uclock true (mk_unlock_input (Ok ids) (Ok (signing_public_key signer)) (Ok tt) id (Ok tt) mapping) uschedule hu).1
    = Ok tt.
Proof.
  intros Hty Hvol Hempty Hkeys Hnet Ed E Hh Hsame Hv Htpm Hw Hdig Hclk Hserve Hel Hcount Hsat Hmap.
  destruct (enroll_descriptor_typed _ _ _ _ _ _ Hty Hvol Ed) as (Hd & Hseed & _ & Hvd & Hmode & pids & Hpids & Hpk).
  destruct (enroll_Ok _ _ _ _ _ _ _ _ _ _ _ _ Hempty Ed E)
    as (prepared & w & w' & Hp & (_ & Hk & json & Hj & Ht) & Hs & Hid & Hc & env & un & Hun).
  apply unseal_same_tpm in Hun.
  assert (forall b, b ∈ networks d -> public_key b = server_public_key (server_of b)) as Hpub.
  { intros b Hb. apply (Hkeys pids); [done|]. rewrite <- Hpk. apply list_elem_of_In, in_map. by apply list_elem_of_In. }
  destruct (prepared_unlocks clock runtime_ok uclock server_of d signer net w w' prepared up uschedule (engine_world hu)
    Hd Hseed Hpub Hnet Hp) as (diags & Hu); try done.
  - intros blob sd. eapply same_tpm_holds; [by etrans|done|apply Hd|done].
  - rewrite Hmode. by apply bool_decide_eq_true.
  - rewrite Hvd, <- Hv in Hu. apply (unlock_runs uclock ids _ id json (Envelope.slot d) (prepared_envelope prepared)
      (prepared_credential prepared) diags); try done.
    + by rewrite Hh.
    + by rewrite Hh, Hk, lookup_insert_eq.
Qed.
