(* ===== verification/CommandsDemo.v ===== *)
(** The commands on the toy primitives, the counting generator, the in-memory volume and TPM, and
    compact JSON journals: an enrollment evaluated end to end, which witnesses the hypotheses of the
    journal and command properties. *)
From stdpp Require Import base list gmap strings.
From Stdlib Require Import ZArith Lia.
From S2P Require Import Prelude Sss Plan Policy Crypto ToyCrypto Wire Cbor Envelope Observation Engine Recovery Unlock Enroll Report Demo Tpm TpmDevice TpmSeal TpmDemo Text Telemetry Reconcile Providers Luks LuksRun LuksDemo CliOperation Journal Commands EndToEnd.
Import Cbor.Reference.

Open Scope Z_scope.

(** * Journal records as JSON, with quoted numbers *)

Definition key (first : bool) (name : string) : list Z :=
  bytes_of_string (if first then "{" else ",") ++ in_quotes name ++ bytes_of_string ":".

Definition identity_json (r : IdentityRecord) : list Z :=
  (key true "binding_id" ++ [34]) ++ bytes_of_string (Reconcile.binding_id r) ++ (34 :: key false "phase" ++ [34])
  ++ bytes_of_string (id_phase r) ++ (34 :: key false "slot" ++ [34]) ++ bytes_of_string (display_u64 (Reconcile.slot r))
  ++ (34 :: key false "volume_uuid" ++ [34]) ++ bytes_of_string (Reconcile.volume_uuid r) ++ (34 :: bytes_of_string "}").

Definition identity_parse (l : list Z) : option IdentityRecord :=
  l ← strip (key true "binding_id" ++ [34]) l; let '(binding, l) := to_quote l in
  l ← strip (34 :: key false "phase" ++ [34]) l; let '(phase, l) := to_quote l in
  l ← strip (34 :: key false "slot" ++ [34]) l; let '(slot, l) := to_quote l in
  slot ← parse_u8 (text_of slot);
  l ← strip (34 :: key false "volume_uuid" ++ [34]) l; let '(volume, l) := to_quote l in
  l ← strip (34 :: bytes_of_string "}") l;
  if bool_decide (l = []) then Some (mk_identity_record (text_of phase) (text_of binding) (text_of volume) slot) else None.

Definition bundle_json (r : BundleRecord) : list Z :=
  (key true "path" ++ [34]) ++ bundle_path r ++ (34 :: key false "phase" ++ [34]) ++ bytes_of_string (bundle_phase r)
  ++ (34 :: key false "sha384" ++ [34]) ++ bytes_of_string (Reconcile.sha384 r) ++ (34 :: bytes_of_string "}").

Definition bundle_parse (l : list Z) : option BundleRecord :=
  l ← strip (key true "path" ++ [34]) l; let '(path, l) := to_quote l in
  l ← strip (34 :: key false "phase" ++ [34]) l; let '(phase, l) := to_quote l in
  l ← strip (34 :: key false "sha384" ++ [34]) l; let '(digest, l) := to_quote l in
  l ← strip (34 :: bytes_of_string "}") l;
  if bool_decide (l = []) then Some (mk_bundle_record (text_of phase) path (text_of digest)) else None.

#[export] Instance toy_outside : Outside := {|
  present := fun _ => false;
  attempt_fails := fun _ => None;
  clock_reading := fun n => Z.of_nat n;
  write_identity := identity_json;
  write_bundle := bundle_json;
|}.

(** Identifiers that fit a byte print and parse. *)
Lemma byte_display b : 0 <= b < 256 ->
  parse_u8 (display_u64 b) = Some b /\ plain (display_u64 b) = true /\ str_len (display_u64 b) <= 3.
Proof.
  intros Hb. assert (Forall (fun b => parse_u8 (display_u64 b) = Some b /\ plain (display_u64 b) = true /\
    str_len (display_u64 b) <= 3) (seqZ 0 256)) as HF by (apply (bool_decide_unpack _); by vm_compute).
  apply (proj1 (Forall_forall _ _) HF). apply elem_of_seqZ. lia.
Qed.

Lemma to_quote_bytes p l : forallb plain_byte p = true -> List.hd_error l = Some 34 -> to_quote (p ++ l) = (p, l).
Proof.
  intros Hp Hl. destruct (plain_text_of p Hp) as [E Ht]. rewrite <- E at 1. rewrite (to_quote_plain _ _ Ht Hl). by rewrite E.
Qed.

(** No newline in plain text. *)
Lemma plain_no_newline l : forallb plain_byte l = true -> 10 ∉ l.
Proof. intros Hl Hin. apply list_elem_of_In in Hin. rewrite forallb_forall in Hl. by apply Hl in Hin. Qed.

Lemma identity_json_reads r :
  plain (id_phase r) && plain (Reconcile.binding_id r) && plain (Reconcile.volume_uuid r) = true ->
  0 <= Reconcile.slot r < 256 ->
  identity_parse (identity_json r) = Some r /\ 10 ∉ identity_json r /\
  Z.of_nat (length (identity_json r)) <=
    64 + str_len (id_phase r) + str_len (Reconcile.binding_id r) + str_len (Reconcile.volume_uuid r).
Proof.
  intros [[Hp Hb]%andb_prop Hv]%andb_prop Hs. destruct (byte_display _ Hs) as (Hparse & Hd & Hl). split_and!.
  - unfold identity_parse, identity_json. rewrite strip_app. cbn [mbind option_bind].
    rewrite (to_quote_plain (Reconcile.binding_id r)) by done. rewrite strip_app. cbn [mbind option_bind].
    rewrite (to_quote_plain (id_phase r)) by done. rewrite strip_app. cbn [mbind option_bind].
    rewrite (to_quote_plain (display_u64 _)) by done. rewrite (text_of_bytes (display_u64 _)), Hparse. cbn [mbind option_bind].
    rewrite strip_app. cbn [mbind option_bind]. rewrite (to_quote_plain (Reconcile.volume_uuid r)) by done.
    cbn [mbind option_bind]. rewrite <- (app_nil_r (34 :: bytes_of_string "}")) at 1. destruct r.
    cbn. by rewrite !text_of_bytes.
  - unfold identity_json. rewrite !elem_of_app. intros Hin.
    repeat match type of Hin with _ \/ _ => destruct Hin as [Hin|Hin] end; revert Hin;
      first [apply (plain_no_newline _ Hb)|apply (plain_no_newline _ Hp)|apply (plain_no_newline _ Hd)
            |apply (plain_no_newline _ Hv)|apply (bool_decide_unpack _); vm_compute; exact I].
  - unfold identity_json. rewrite !length_app, !Nat2Z.inj_add, <- !str_len_bytes.
    change (Z.of_nat (length (key true "binding_id"))) with 14. change (Z.of_nat (length (34 :: key false "phase" ++ [34]))) with 11.
    change (Z.of_nat (length (34 :: key false "slot" ++ [34]))) with 10. change (Z.of_nat (length (34 :: key false "volume_uuid" ++ [34]))) with 17.
    change (Z.of_nat (length [34])) with 1. change (Z.of_nat (length (34 :: bytes_of_string "}"))) with 2.
    lia.
Qed.

Lemma bundle_json_reads r :
  plain (bundle_phase r) && forallb plain_byte (bundle_path r) && plain (Reconcile.sha384 r) = true ->
  bundle_parse (bundle_json r) = Some r /\ 10 ∉ bundle_json r /\
  Z.of_nat (length (bundle_json r)) <=
    64 + str_len (bundle_phase r) + Z.of_nat (length (bundle_path r)) + str_len (Reconcile.sha384 r).
Proof.
  intros [[Hp Hb]%andb_prop Hv]%andb_prop. split_and!.
  - unfold bundle_parse, bundle_json. rewrite strip_app. cbn [mbind option_bind].
    rewrite (to_quote_bytes (bundle_path r)) by done. rewrite strip_app. cbn [mbind option_bind].
    rewrite (to_quote_plain (bundle_phase r)) by done. rewrite strip_app. cbn [mbind option_bind].
    rewrite (to_quote_plain (Reconcile.sha384 r)) by done. destruct r. cbn. by rewrite !text_of_bytes.
  - unfold bundle_json. rewrite !elem_of_app. intros Hin.
    repeat match type of Hin with _ \/ _ => destruct Hin as [Hin|Hin] end; revert Hin;
      first [apply (plain_no_newline _ Hb)|apply (plain_no_newline _ Hp)|apply (plain_no_newline _ Hv)
            |apply (bool_decide_unpack _); vm_compute; exact I].
  - unfold bundle_json. rewrite !length_app, !Nat2Z.inj_add, <- !str_len_bytes.
    change (Z.of_nat (length (key true "path"))) with 8. change (Z.of_nat (length (34 :: key false "phase" ++ [34]))) with 11.
    change (Z.of_nat (length (34 :: key false "sha384" ++ [34]))) with 12.
    change (Z.of_nat (length [34])) with 1. change (Z.of_nat (length (34 :: bytes_of_string "}"))) with 2. lia.
Qed.

#[export] Instance toy_journal_json : JournalJson identity_parse bundle_parse.
Proof. split; [exact identity_json_reads|exact bundle_json_reads]. Qed.

(** * An enrollment by command *)

Definition toy_identity (n : Z) : Identity :=
  mk_identity (demo_provider n) (key_id (server_public_key (demo_server n))) (server_public_key (demo_server n)).

Definition toy_enroll_input : EnrollInput :=
  mk_enroll_input (Ok (map toy_identity [1; 2])) (Ok tt) (Ok toy_old) (Ok (replicate 32 6)) (Ok tt) (Ok (replicate 32 5))
    (bytes_of_string "/var/lib/leelo/root.journal") 7 1.

Definition toy_host : Host toy_header Z toy_device :=
  mk_host (mk_cli [] 0 (Operation.new "enroll" 0) 0 toy_world) demo_world.

(** Every provider answers. *)
Definition toy_reply : answer := fun b p => map_err (fun _ => Timeout) (evaluate_with_entropy (demo_server_of b) p 700).1.
Definition toy_schedule : list (@event Z) := [Completes 1 900 toy_reply; Completes 0 910 toy_reply].

Definition toy_enrollment : result (fault CliError) Z * Host toy_header Z toy_device :=
  enroll demo_clock true toy_enroll_input demo_net toy_schedule toy_host.
Definition toy_enrolled_host : Host toy_header Z toy_device := toy_enrollment.2.

(** * Witnesses *)

Lemma enroll_command_witness :
  enroll demo_clock true toy_enroll_input demo_net toy_schedule toy_host = (Ok 1, toy_enrolled_host) /\
  enroll_outcome demo_clock true toy_schedule toy_host (Ok 1) toy_enrolled_host.
Proof.
  assert (enroll demo_clock true toy_enroll_input demo_net toy_schedule toy_host = (Ok 1, toy_enrolled_host)) as E
    by (vm_compute; reflexivity).
  split; [exact E|].
  exact (enroll_command demo_clock true toy_enroll_input demo_net toy_schedule toy_host toy_enrolled_host (Ok 1) eq_refl E).
Defined.

(** The bundle that the enrollment left, and a later unlock with the token it returned. *)
Definition toy_pending : list Z := with_extension (in_journal toy_enroll_input) "pending.leelo".
Definition toy_bundle : list Z :=
  match replay (effects toy_enrolled_host) !! toy_pending with Some f => durable f | None => [] end.
Definition toy_resume_input : ResumeInput :=
  mk_resume_input (Ok demo_public) (Ok toy_bundle) toy_pending (Ok tt) (Ok (map toy_identity [1; 2])) (Ok tt).
Definition toy_unlock_input : UnlockInput :=
  mk_unlock_input (Ok (map toy_identity [1; 2])) (Ok demo_public) (Ok tt) 1 (Ok tt) None.

Lemma resume_and_unlock_commands_witness :
  (resume demo_clock true toy_resume_input toy_schedule toy_enrolled_host).1 = Ok 1 /\
  (unlock demo_clock true toy_unlock_input toy_schedule toy_enrolled_host).1 = Ok tt /\
  exists trusted json slot raw cred, un_trust_key toy_unlock_input = Ok trusted /\
    tokens (header toy_enrolled_host) !! 1 = Some json /\ token_of json slot raw /\
    released demo_clock true (R := Z) (T := toy_device) toy_schedule raw trusted slot cred (header toy_enrolled_host).
Proof.
  assert ((resume demo_clock true toy_resume_input toy_schedule toy_enrolled_host).1 = Ok 1) as E1 by (vm_compute; reflexivity).
  assert ((unlock demo_clock true toy_unlock_input toy_schedule toy_enrolled_host).1 = Ok tt) as E2 by (vm_compute; reflexivity).
  split; [exact E1|]. split; [exact E2|].
  pose proof (resume_and_unlock_commands demo_clock true toy_resume_input toy_unlock_input toy_schedule toy_enrolled_host) as Hc.
  destruct (resume demo_clock true toy_resume_input toy_schedule toy_enrolled_host) as [r h1].
  destruct (unlock demo_clock true toy_unlock_input toy_schedule toy_enrolled_host) as [u h2].
  destruct Hc as [_ (_ & _ & Hu)]. exact (Hu E2).
Defined.

(** The journal of an enrollment of [toy_envelope]. *)
Definition toy_cli : Cli toy_header := mk_cli [] 0 (Operation.new "enroll" 0) 0 toy_world.
Definition toy_journal_path : list Z := bytes_of_string "/var/lib/leelo/root.journal".
Definition toy_journal : EnrollmentJournal := mk_journal toy_journal_path (with_extension toy_journal_path "pending.leelo").
Definition toy_begun : Cli toy_header := (begin_journal toy_journal_path demo_descriptor toy_cli).2.
Definition toy_committed : Cli toy_header :=
  (commit toy_journal demo_descriptor toy_envelope
     (add_enrollment (Envelope.slot demo_descriptor) toy_old toy_new toy_envelope) toy_begun).2.

Lemma toy_commits :
  commit toy_journal demo_descriptor toy_envelope
    (add_enrollment (Envelope.slot demo_descriptor) toy_old toy_new toy_envelope) toy_begun = (Ok 1, toy_committed).
Proof. vm_compute. reflexivity. Qed.

Lemma toy_begins : begin_journal toy_journal_path demo_descriptor toy_cli = (Ok toy_journal, toy_begun).
Proof. vm_compute. reflexivity. Qed.

Lemma toy_identifiable : identifiable demo_descriptor /\ plain_path (pending_path toy_journal).
Proof. split; [split_and!|split_and!]; first [decided|discriminate|vm_compute; discriminate]. Qed.

Lemma bundle_durable_before_storage_witness :
  exists pre post, trace toy_committed = pre ++ StorageCalled :: post /\
    replay pre !! pending_path toy_journal = Some (mk_file toy_envelope toy_envelope true).
Proof.
  destruct (bundle_durable_before_storage identity_parse bundle_parse toy_journal_path demo_descriptor toy_envelope toy_journal
    (add_enrollment (Envelope.slot demo_descriptor) toy_old toy_new toy_envelope) toy_cli toy_begun toy_begun toy_committed (Ok 1)
    toy_begins eq_refl eq_refl (proj1 toy_identifiable) (proj2 toy_identifiable) toy_commits) as [Hp _].
  assert (trace toy_committed = take 11 (trace toy_committed) ++ StorageCalled :: drop 12 (trace toy_committed)) as Et
    by (vm_compute; reflexivity).
  exists (take 11 (trace toy_committed)), (drop 12 (trace toy_committed)). split; [exact Et|]. exact (proj1 (Hp _ _ Et)).
Defined.

Lemma storage_report_true_witness :
  op_storage (observed toy_committed) = StorageState.Committed /\
  awaiting_boot_test (observed toy_committed) = true /\
  keyslots (disk (store toy_committed)) = <[Envelope.slot demo_descriptor := toy_new]> (keyslots (disk (store toy_begun))).
Proof.
  assert (op_storage (observed toy_begun) = StorageState.NotMutated) as Hn by (vm_compute; reflexivity).
  pose proof (storage_report_true identity_parse bundle_parse toy_journal_path demo_descriptor toy_envelope toy_journal
    toy_old toy_new toy_cli toy_begun toy_begun toy_committed (Ok 1)
    toy_begins eq_refl eq_refl (proj1 toy_identifiable) (proj2 toy_identifiable) Hn toy_commits) as Hs.
  assert (op_storage (observed toy_committed) = StorageState.Committed) as Ho by (vm_compute; reflexivity).
  rewrite Ho in Hs. destruct Hs as (Hb & Hk & _). split; [exact Ho|]. split; [exact Hb|exact Hk].
Defined.

(** * Enrollment, then unlock *)

(** The same enrollment with the TPM of [TpmDemo], bound to its PCRs 1 and 3. *)
Definition tpm2_enroll_input : EnrollInput :=
  mk_enroll_input (Ok (map toy_identity [1; 2])) (Ok tt) (Ok toy_old) (Ok (replicate 32 6)) (Ok tt) (Ok toy_pcr_digest)
    (bytes_of_string "/var/lib/leelo/root.journal") toy_mask 1.
Definition tpm2_host : Host toy_header Z (Tpm2Provider toy_tpm2) :=
  mk_host (mk_cli [] 0 (Operation.new "enroll" 0) 0 toy_world) tpm2_world.

Definition toy_signer : SecretSigningKey := mk_signing_key (replicate 32 6).
Definition tpm2_described
    : result (fault CliError) (Descriptor * SecretSigningKey * list Z) * Host toy_header Z (Tpm2Provider toy_tpm2) :=
  enroll_descriptor tpm2_enroll_input tpm2_host.
Definition tpm2_descriptor : Descriptor :=
  match tpm2_described.1 with Ok (d, _, _) => d | Err _ => demo_descriptor end.
Definition tpm2_described_host : Host toy_header Z (Tpm2Provider toy_tpm2) := tpm2_described.2.
Definition tpm2_enrolled_host : Host toy_header Z (Tpm2Provider toy_tpm2) :=
  (enroll demo_clock true tpm2_enroll_input demo_net toy_schedule tpm2_host).2.

(** A later boot: the volume, and the TPM after another start. *)
Definition tpm2_boot_host : Host toy_header Z (Tpm2Provider toy_tpm2) :=
  mk_host (mk_cli [] 0 (Operation.new "unlock" 0) 0 (store (cli tpm2_enrolled_host))) tpm2_unlock_world.

Lemma tpm2_describes :
  enroll_descriptor tpm2_enroll_input tpm2_host = (Ok (tpm2_descriptor, toy_signer, toy_old), tpm2_described_host).
Proof. vm_compute. reflexivity. Qed.

Lemma tpm2_enrolls_command :
  enroll demo_clock true tpm2_enroll_input demo_net toy_schedule tpm2_host = (Ok 1, tpm2_enrolled_host).
Proof. vm_compute. reflexivity. Qed.

Lemma tpm2_input_typed : input_typed tpm2_enroll_input.
Proof.
  split; [| | |decided|decided].
  - intros ids [= <-]. repeat (constructor; [split_and!; decided|]). constructor.
  - intros seed [= <-]. decided.
  - intros digest [= <-]. decided.
Qed.

Lemma tpm2_keys ids b :
  in_providers tpm2_enroll_input = Ok ids -> public_key b ∈ map id_public_key ids ->
  public_key b = server_public_key (demo_server_of b).
Proof.
  intros [= <-] Hb. unfold demo_server_of. cbn [map toy_identity id_public_key] in Hb.
  repeat (apply elem_of_cons in Hb as [->|Hb]; [vm_compute; reflexivity|]). by apply elem_of_nil in Hb.
Qed.

(** Whether a provider's blinded point is answered. *)
Definition toy_answers (b : NetworkBinding) (rng : Z) : bool :=
  match fst (blind_with_entropy (network_input tpm2_descriptor b) rng) with
  | Ok (_, p) => match toy_reply b p with Ok _ => true | Err _ => false end
  | Err _ => false
  end.

Lemma toy_answered : forallb (fun b => forallb (toy_answers b) [900; 910]) (networks tpm2_descriptor) = true.
Proof. vm_compute. reflexivity. Qed.

Lemma toy_serving : serving demo_server_of tpm2_descriptor (fun _ => true) toy_schedule.
Proof.
  intros k rng reply b Hev Hb. assert (reply = toy_reply /\ rng ∈ [900; 910]) as [-> Hrng].
  { unfold toy_schedule in Hev. rewrite !elem_of_cons, elem_of_nil in Hev.
    destruct Hev as [E|[E|[]]]; inversion E; subst; (split; [reflexivity|decided]). }
  pose proof toy_answered as Ha. rewrite forallb_forall in Ha. specialize (Ha b (proj1 (list_elem_of_In _ _) Hb)).
  rewrite forallb_forall in Ha. specialize (Ha rng (proj1 (list_elem_of_In _ _) Hrng)). unfold toy_answers in Ha.
  destruct (blind_with_entropy (network_input tpm2_descriptor b) rng) as [[[st p]|e] rng']; [|done]. cbn [fst] in Ha.
  destruct (toy_reply b p) as [ev|e] eqn:Er; [|done]. exists st, p, rng', ev. split; [done|]. split; [exact Er|].
  unfold toy_reply in Er. destruct (evaluate_with_entropy (demo_server_of b) p 700) as [[ev'|e] rng2] eqn:Ee; [|done].
  injection Er as ->. exists 700, rng2. exact Ee.
Qed.

Lemma toy_not_elapsed : Elapsed ∉ toy_schedule.
Proof. unfold toy_schedule. rewrite !not_elem_of_cons. repeat (split; [discriminate|]). apply not_elem_of_nil. Qed.

Lemma toy_mappable : mappable (D := toy_header) "root".
Proof.
  split; [reflexivity|]. intros n d s c Hs Hk. cbn. unfold toy_activate. destruct (Z.eqb_spec s (-1)); [lia|].
  by rewrite bool_decide_eq_true_2.
Qed.

(** Activated under the name [root], and only checked. *)
Lemma enroll_command_then_unlock_command_witness :
  Forall (fun m => (unlock demo_clock true (mk_unlock_input (Ok []) (Ok (signing_public_key toy_signer)) (Ok tt) 1 (Ok tt) m)
    toy_schedule tpm2_boot_host).1 = Ok tt) [Some "root"; None].
Proof.
  apply Forall_forall. intros m Hm.
  apply (enroll_command_then_unlock_command demo_clock true demo_server_of tpm2_enroll_input demo_net toy_schedule tpm2_host
    tpm2_described_host tpm2_enrolled_host tpm2_descriptor toy_signer toy_old 1 demo_clock [] m (fun _ => true) toy_schedule
    tpm2_boot_host toy_transport toy_tpm_state).
  - exact tpm2_input_typed.
  - decided.
  - reflexivity.
  - exact tpm2_keys.
  - exact demo_net_honest.
  - exact tpm2_describes.
  - exact tpm2_enrolls_command.
  - reflexivity.
  - vm_compute. reflexivity.
  - vm_compute. reflexivity.
  - split; [vm_compute; reflexivity|intros parent private public sensitive Hw; exact Hw].
  - constructor.
  - exact toy_reads_pcrs.
  - intros n. reflexivity.
  - exact toy_serving.
  - exact toy_not_elapsed.
  - vm_compute. lia.
  - vm_compute. reflexivity.
  - intros name ->. rewrite !elem_of_cons, elem_of_nil in Hm. destruct Hm as [[= ->]|[[=]|[]]]. exact toy_mappable.
Defined.
